(* ===== verification/_CoqProject ===== *)
-Q . S2P
Prelude.v
Dates.v
Json.v
Signing.v
Replay.v
Clock.v
Journal.v
Net.v
WebhookSafety.v
Db.v
Interleaving.v
AlertEligibility.v
ContactGroups.v
DeliveryLedger.v
AlertQueue.v
DeliveryWorker.v
AlertLease.v
DeliverySafety.v
AlertDiscovery.v
Policy.v
Lease.v
Gate.v
JobSigning.v
Outbox.v
Jobs.v
RenewalCapacity.v
JobFields.v
JobRequest.v
RenewalProfile.v
RenewalPayload.v
JobCreation.v
JobReplay.v
Eligibility.v
AlertPolicy.v
Dispatch.v
EnrollmentLifecycle.v
Enrollments.v
EnrollmentJobs.v
EnrollmentMoves.v
EnrollmentSafety.v
EnrollmentIssuers.v
EnrollmentExample.v
EnrollmentGuarantees.v
Approvals.v
Ingest.v
Claim.v
Reaper.v
Retry.v
ClaimExample.v
Evolution.v
ClaimSystem.v
ClaimSafety.v
ClaimGuarantees.v
ClaimApproval.v
ClaimDelivery.v
