(* ===== verification/Prelude.v ===== *)
(** Verification of the TokenTimer CertOps core.

    The program.  A control plane (src/apps/api) keeps certificates and the
    jobs that renew or deploy them; agents (src/packages/agent) poll it, claim
    jobs, and execute them on hosts the control plane cannot reach.  The two
    sides trust each other through a signed dispatch: the control plane signs
    a canonical JSON payload with an Ed25519 key, enters a single-use nonce in
    a ledger and leases the job; the agent verifies the envelope, checks the
    replay cache, the clock window and its own default-deny policy, consumes
    the nonce, confirms the lease, marks every side effect in a journal before
    it happens, executes, and hands the outcome to a durable outbox that
    retries until the control plane acknowledged it.

    The files, in dependency order:

    - Prelude: results ([Ok]/[Err]) and their monad, strings as lists of code
      units below 256, character classes (the regular expressions of the code
      are [matches_class]), association lists in insertion order, verdicts.
    - Dates: calendar arithmetic, [toISOString] and its reader; [Date.parse] is
      the class [DateParse] with the laws ECMA-262 gives it, and
      [iso_date_parse] is a concrete instance used by the witnesses.
    - Json: JavaScript values, JSON printing and parsing, and
      packages/contracts/certops/canonical-json.cjs.
    - Signing: packages/agent/src/signing/index.js; canonical base64, the
      single-value scanner, v1/v2 verification, time window, agent binding.
    - Replay, Clock, Journal, Lease: packages/agent/src/replay, clock,
      job-journal, and [renewJobLeaseOrAbort] of packages/agent/src/index.js.
    - Net, WebhookSafety: Node's [net.isIP] and [Number] on strings, and
      packages/webhook-safety/index.js.
    - AlertEligibility: packages/alert-eligibility/index.js; which threshold an
      expiring asset is at, and when to look again.
    - ContactGroups: contactGroups.js of apps/worker and of apps/api, which
      say they are kept in sync; which groups an alert goes to.
    - DeliveryLedger: what is still owed for a queued alert
      (packages/recipient-verification/index.js, deliveryLedger.js and
      deliveryData.js of packages/alert-eligibility).
    - AlertQueue: the tables [alert_queue] and [alert_delivery_log] and every
      statement of the API and the worker that writes the first.
    - DeliveryWorker: apps/worker/src/delivery-worker.js as a [prog] over these
      statements, with the SMTP accounts of notify/email.js and the evidence,
      destinations and delivery window of apps/worker/src/shared.
    - AlertLease, DeliverySafety: the invariants of claims and deliveries under
      all writers, and what holds of any number of workers among them.
    - AlertDiscovery: [queueDiscoveryJob] of apps/worker/src/queue-manager.js,
      which queues the alerts, and what services/alertEligibility.js of the API
      announces of the same assets.
    - Policy: packages/agent/src/policy/index.js.
    - Gate: the trust chain of packages/agent/src/index.js
      ([handleSignedJob] and its helpers), the client of the files above.  It
      sees the policy engine through the class [JobPolicy], which [Policy]'s
      engine implements ([policy_engine]).
    - JobSigning: apps/api/services/certops/jobSigning.js; key rotation,
      dispatch signing, the nonce ledger.
    - Outbox: packages/agent/src/outbox/index.js and
      [persistAndTransmitOutcome].
    - Jobs: the status machine, the public metadata boundary and
      [updateCertificateJobStatus] of apps/api/services/certops/jobs.js.
    - Db: programs of database statements ([prog]), their interleaving with
      other callers and with failing connections, and rely-guarantee
      reasoning about them ([Db.interleaving_sound]); transactions on locked
      rows ([txn]).  Interleaving: the same for callers that have a rely and a
      guarantee each, and for connections that hold.
    - RenewalCapacity, JobFields, JobRequest, JobCreation, JobReplay: job
      creation.  The capacity of renewalCapacity.js, the execution fields, the
      request with its routing and fingerprint, [createCertificateJob] as a
      [prog], and what holds between calls.
    - RenewalProfile, RenewalPayload: renewalProfile.js and the payloads of
      renewalScheduler.js.  Job creation sees a profile's validation through
      [JobRequest.Services]; [RenewalPayload.with_profiles] is the instance.
    - Eligibility, AlertPolicy: agentJobEligibility.js, and
      renewalAlertPolicy.js with the intents it puts in the outbox table.
    - Dispatch, Approvals, Ingest, Claim, Reaper, Retry: the writers of a job
      row that is given out.  Dispatch has the tables, the transactions ([tx]) and
      the message sequence and [renewJobLease] of agentDispatch.js; Approvals
      is jobApprovals.js; Ingest and Claim are [ingestResult] and [claimJobs];
      Reaper is the lease reaper of apps/worker/src/certops-worker.js and the
      forced retirement of agentRegistry.js; Retry is [retryDistributionJob] of
      distributionOperations.js, which reopens a failed material job.
    - EnrollmentLifecycle, Enrollments: enrollments at an asynchronous CA (AD
      CS), enrollmentLifecycle.js and certificateEnrollments.js.  The first has
      what is pure: the state machine and the search over it, the decision of
      the sweep, the frozen configuration; the second the tables and every
      transaction on them.  It creates jobs through the class [JobService],
      which EnrollmentJobs discharges for [createCertificateJob].
    - EnrollmentMoves, EnrollmentSafety, EnrollmentIssuers: what each
      transaction does to a row ([moved]); the system of transactions, reports
      and other code ([EnrollmentSafety.sys_step]) with its invariants; where a
      pinned CA key comes from and how often a CA is probed.
    - EnrollmentExample, EnrollmentGuarantees: a run on concrete services, and
      the theorems about every reachable state, with the run as witness.
    - ClaimExample: a concrete control plane the witnesses run.
    - Evolution, ClaimSystem: what each of them may change ([evolves]), and
      each as a sequence of moves of job rows ([moves]).
    - ClaimSafety, ClaimGuarantees, ClaimApproval, ClaimDelivery: what holds
      of sequences of them, of one message, of approvals, and of the way from
      the poll to the agent's verification and back.

    What the theorems show.

    - End to end: what the control plane dispatches verifies at the agent to
      the same job ([JobSigning.dispatch_accepted_by_agent]); nothing else
      does ([Signing.verifyJobEnvelope_sound]); an execution happens only
      behind all the gates and at most once
      ([Gate.execution_requires_every_gate], [Gate.no_job_executes_twice],
      [Gate.crashed_job_not_reexecuted]); its outcome is not lost, short of the
      retention limits of the dead letters ([Outbox.no_outcome_lost]), and
      [updateCertificateJobStatus] writes it by the status machine only, under
      any interleaving ([Jobs.job_history_valid], [Jobs.one_writer_ends_a_job]).
    - Job creation: however calls interleave and fail, it implements a
      write-once registry of idempotency keys
      ([JobCreation.creation_refines_registry],
      [JobCreation.one_job_per_idempotency_key]), inserts lawful rows only
      ([JobCreation.rows_enter_lawfully]), answers a repeated request with its
      first job ([JobReplay.replay_returns_first_job]) and never overloads a
      CA ([JobReplay.capacity_never_exceeded]).
    - Renewal profiles: an accepted profile is safe to execute and validates to
      itself ([RenewalProfile.validated_profile_safe],
      [RenewalProfile.validated_profile_stable]), and job creation accepts what
      the scheduler makes of one ([RenewalPayload.scheduled_payload_accepted]).
    - Dispatch: everything that writes a job row between its creation and its
      end implements, job by job, an abstract claim machine
      ([ClaimSafety.dispatch_refines_claims]); so, until an operator retries
      it, a job has effects under one claim only
      ([ClaimSafety.one_effective_claim]), in any case only under the claim
      given out last ([ClaimSafety.effects_under_latest_claim]), and it is
      given out a bounded number of times ([ClaimSafety.attempts_bounded]).  A poll gives out
      lawful jobs only ([ClaimGuarantees.polled_jobs_lawful],
      [Eligibility.eligibility_spec]), as another user approved them
      ([ClaimApproval.dispatched_as_approved]) and, within the size limit of a
      v2 payload, in a form the agent accepts
      ([ClaimDelivery.polled_job_accepted]); its holder can report as long as
      the reaper leaves the row alone ([ClaimDelivery.holder_can_report]); old
      messages are not applied ([ClaimGuarantees.stale_message_refused]; a
      replayed result records its enrollment report again), results repeated
      without such reports are harmless
      ([ClaimGuarantees.result_retry_harmless]), and no renewal ends badly
      without an alert ([ClaimGuarantees.no_silent_failure]).
    - Enrollments: whatever the order of operations, reports and sweeps, an
      enrollment follows its life cycle ([EnrollmentGuarantees.enrollment_history],
      over [EnrollmentLifecycle.forward_transitions_exact]); a certificate has
      one open enrollment and an enrollment one live job
      ([EnrollmentGuarantees.one_open_enrollment],
      [EnrollmentGuarantees.one_live_job]); a retired certificate is not
      installed and the key of an ended enrollment is not forgotten
      ([EnrollmentGuarantees.retired_only_cleans_up],
      [EnrollmentGuarantees.cleanup_never_forgotten]); a pinned CA key was
      confirmed from a safe preflight, and preflights are rate limited
      ([EnrollmentGuarantees.pinned_keys_confirmed],
      [EnrollmentGuarantees.preflight_rate_bounded]).
    - Alerts: an asset is due exactly by its thresholds, and the announced next
      evaluation is neither late nor early ([AlertEligibility.due_iff],
      [AlertEligibility.next_evaluation_exact]); the worker and the API resolve
      its contact groups alike ([ContactGroups.resolvers_agree],
      [ContactGroups.resolved_groups_wf]).
    - Delivery: an alert is one worker's at a time
      ([DeliverySafety.exclusive_delivery]), reaches an e-mail or WhatsApp
      recipient at most once, under the conditions stated there
      ([DeliverySafety.recipients_reached_once]), and is not reopened once sent
      ([DeliverySafety.sent_is_final]).  Its ledger never owes what was delivered ([DeliveryLedger.delivered_never_retried],
      [DeliveryLedger.settlement_exact], [DeliveryLedger.manual_retry_exact]),
      and discovery leaves a reconciled one alone
      ([DeliveryLedger.reconcile_idempotent]).  What the API announces and what
      discovery queues agree ([AlertDiscovery.queued_as_announced]), and an
      announced asset gets an alert that a worker may claim
      ([AlertDiscovery.announced_is_queued]).
    - Stores: the replay cache never readmits and reloads what it saved; the
      nonce ledger consumes once; the journal keeps a crashed attempt
      unresolved; the outbox delivers what is due and backs off in bounds.
    - Classifiers: path containment, zone coverage, verify destinations and
      webhook addresses are characterised exactly.
    - Divergences between the code and its comments are theorems too:
      [Gate.clock_step_back_reexecutes],
      [Policy.checkVerifyHost_hex_mapped_not_denied],
      [JobSigning.completion_gate_counts_outsiders],
      [JobSigning.rotation_notice_spec],
      [JobSigning.oversized_v2_dispatch_rejected],
      [JobReplay.replay_returns_first_job] (a replay may pin the job to
      another agent), [DeliverySafety.limited_answer_repeats] (a mail that a
      server accepted in words of a rate limit is sent again), [Journal.journal_name_collision],
      [WebhookSafety.normalizeWebhookHostEntry_not_idempotent],
      [EnrollmentLifecycle.stale_hint_dispatched],
      [EnrollmentGuarantees.retired_timeout_lost],
      [EnrollmentGuarantees.proposal_poll_lost],
      [DeliverySafety.bulk_requeue_shares] (a bulk requeue lets a second worker
      take an alert the first is sending),
      [DeliveryLedger.queued_channels_diverge],
      [AlertDiscovery.announced_but_not_queued].

    Conventions.  State is passed explicitly; a handler returns the new state
    and a result, also when it throws.  Effects that can fail (file writes,
    requests, database statements) take their outcome as an argument or from
    an oracle, and the theorems quantify over it.  Times are integers in
    milliseconds.  Integers of the code are within 2^53 and are [Z]; the
    rounding of the only fractional computation (the backoff jitter) is taken
    exactly.  Recursion is structural, or on fuel whose sufficiency is proved:
    JSON parsing and scanning run on the length of the text
    ([Signing.scan_fuel] and its users), [Lease.renew_loop] on the replies
    (four are enough, [Lease.renew_terminates]), a status update on six
    statements ([Jobs.update_terminates]), the search over enrollment states on
    their number ([EnrollmentLifecycle.bfs_total]).

    Parameters. Node's crypto (Ed25519, AES-256-GCM, random bytes), the URL
    parser, DNS, the file system and the network, and the secret detectors
    of packages/log-scrub, SHA-256, and the SQL functions and the
    distribution contract job creation calls (the class
    [JobRequest.Services]); the tables and predicates around the dispatch of
    a job (enrollments, trust anchors, distribution rollouts, management
    periods, operator connections, log streams: the class [Dispatch.Others],
    whose state is abstract) and its cryptography ([Claim.Crypto]); the local
    time zone of alerts ([AlertEligibility.LocalTime]); the schema validator
    and the digest of frozen configurations ([EnrollmentLifecycle.Contracts])
    and PostgreSQL's reading of a uuid ([Enrollments.Postgres]); the settings
    and time zones of the delivery worker ([DeliveryWorker.DeliveryEnv]), the
    default thresholds of discovery ([AlertDiscovery.DiscoveryEnv]) and the
    answers of its queries, of the verification service and of the
    providers ([DeliveryWorker.inputs], arbitrary for every run and alert).
    Hypotheses about them name documented behaviour only (a signature made
    with a key verifies under its public half, decryption inverts
    encryption), and the witnesses instantiate them.

    Interleaving of dispatch.  Its handlers lock the rows they read, so a
    transaction is one step of [ClaimSafety.sys_step]; rows locked by others
    are the [busy] rows that SKIP LOCKED passes over.  The polls of controllers
    are steps by what they may write to the jobs of their lane
    ([ClaimSystem.controlled]), and all other code is a step too, by what it
    leaves alone ([ClaimSystem.left_alone]).  Rows are never deleted: the
    deletion of a workspace with its jobs is outside the model.

    Interleaving of enrollments.  A transaction locks the enrollment it works
    on and is one step; a report reads and writes without a lock and is two
    ([st_read], [st_write]).  The enrollments see jobs as rows that other code
    may change within [jobs_evolve]; dispatch sees the enrollments through its
    class [Others].

    Interleaving of deliveries.  A statement is one step, except the claim
    transaction, which locks its rows.  [AlertQueue.overrun] records a delivery
    whose claim's marker ended before it was logged: the at-most-once theorem
    speaks of runs without one, as the code cannot rule them out.

    Not modelled: the executors (ACME, deployment, reload, Windows stores,
    AD CS), which drive external processes; configuration, registration,
    heartbeats, certificate evidence and the poll loop; the job log and
    audit tables beyond the rows dispatch adds; of delivery, the texts of
    messages and payloads, metrics, audit events, operational notifications,
    the outbox of PagerDuty incidents and the weekly digest; the dashboard,
    HTTP routes and migrations; the Kubernetes controller and the MCP server. *)

From Stdlib Require Export ZArith Lia Ascii String Bool.
From stdpp Require Export base gmap strings list fin_maps sorting.
#[global] Open Scope list_scope.
#[global] Arguments String.append !s1 s2 /.

#[global] Set Default Goal Selector "!".

Declare Scope js_scope.
Delimit Scope js_scope with js.

(** * Results: JavaScript functions that may throw

    [Ok a] is a normal return, [Err e] a thrown error; the model keeps of an
    error what its consumers branch on (a code or the message kind). *)

Inductive result (E A : Type) : Type :=
| Ok (a : A)
| Err (e : E).
Arguments Ok {E A} a.
Arguments Err {E A} e.

#[global] Instance result_ret {E} : MRet (result E) := λ A a, Ok a.
#[global] Instance result_bind {E} : MBind (result E) := λ A B f r,
  match r with Ok a => f a | Err e => Err e end.
#[global] Instance result_fmap {E} : FMap (result E) := λ A B f r,
  match r with Ok a => Ok (f a) | Err e => Err e end.
#[global] Instance result_eq_dec `{EqDecision E, EqDecision A} :
  EqDecision (result E A).
Proof. solve_decision. Defined.

(** [ensure b e]: the guard [if (!b) throw e;]. *)
Definition ensure {E : Type} (b : bool) (e : E) : result E unit :=
  if b then Ok tt else Err e.

Definition is_ok {E A} (r : result E A) : bool :=
  match r with Ok _ => true | Err _ => false end.

Section result_lemmas.
Context {E A B : Type}.

Lemma bind_ok (r : result E A) (f : A → result E B) b :
  (r ≫= f) = Ok b ↔ ∃ a, r = Ok a ∧ f a = Ok b.
Proof. destruct r; simpl; naive_solver. Qed.

Lemma bind_err (r : result E A) (f : A → result E B) e :
  (r ≫= f) = Err e ↔ r = Err e ∨ ∃ a, r = Ok a ∧ f a = Err e.
Proof. destruct r; simpl; naive_solver. Qed.

Lemma ensure_ok b (e : E) u : ensure b e = Ok u ↔ b = true.
Proof. destruct b, u; simpl; naive_solver. Qed.

Lemma ensure_err b (e e' : E) : ensure b e = Err e' ↔ b = false ∧ e = e'.
Proof. destruct b; simpl; naive_solver. Qed.

Lemma mapM_cons_ok (f : A → result E B) x l ys :
  mapM f (x :: l) = Ok ys ↔ ∃ y ys', f x = Ok y ∧ mapM f l = Ok ys' ∧ ys = y :: ys'.
Proof.
  simpl. destruct (f x) as [y|e]; simpl; [|naive_solver].
  destruct (mapM f l) as [ys'|e]; simpl; cbv [mret result_ret]; naive_solver.
Qed.
Lemma mapM_nil_ok (f : A → result E B) ys : mapM f [] = Ok ys ↔ ys = [].
Proof. simpl. cbv [mret result_ret]. naive_solver. Qed.
Lemma mapM_length_ok (f : A → result E B) l ys :
  mapM f l = Ok ys → length ys = length l.
Proof.
  revert ys. induction l as [|x l IH]; intros ys.
  - intros ->%mapM_nil_ok. done.
  - intros (y & ys' & _ & H & ->)%mapM_cons_ok. simpl. f_equal. auto.
Qed.
End result_lemmas.

(** [simplify_result] turns equations between monadic results into their
    components. *)
Ltac simplify_result :=
  cbv [mret result_ret] in *;
  repeat match goal with
  | H : (_ ≫= _) = Ok _ |- _ => apply bind_ok in H as (?&?&?)
  | H : ensure _ _ = Ok _ |- _ => apply ensure_ok in H
  | H : Ok _ = Ok _ |- _ => injection H as H
  | H : Err _ = Err _ |- _ => injection H as H
  | H : Ok _ = Err _ |- _ => discriminate H
  | H : Err _ = Ok _ |- _ => discriminate H
  end; simplify_eq.

(** * Booleans *)

Lemma bool_decide_reflect (P : Prop) `{Decision P} : reflect P (bool_decide P).
Proof. destruct (bool_decide_reflect P); constructor; done. Qed.

(** [split_bool] opens conjunctions, disjunctions and negations of booleans. *)
Ltac split_bool :=
  repeat match goal with
  | H : (_ && _)%bool = true |- _ => apply andb_prop in H as [? ?]
  | H : (_ || _)%bool = false |- _ => apply orb_false_elim in H as [? ?]
  | H : negb _ = true |- _ => apply negb_true_iff in H
  | H : negb _ = false |- _ => apply negb_false_iff in H
  | H : bool_decide _ = true |- _ => apply bool_decide_eq_true_1 in H
  | H : bool_decide _ = false |- _ => apply bool_decide_eq_false_1 in H
  | H : (_ =? _)%Z = true |- _ => apply Z.eqb_eq in H
  | H : (_ =? _)%Z = false |- _ => apply Z.eqb_neq in H
  | H : (_ <=? _)%Z = true |- _ => apply Z.leb_le in H
  | H : (_ <=? _)%Z = false |- _ => apply Z.leb_gt in H
  | H : (_ <? _)%Z = true |- _ => apply Z.ltb_lt in H
  | H : (_ <? _)%Z = false |- _ => apply Z.ltb_ge in H
  end.

(** * Strings

    A JavaScript string is a sequence of UTF-16 code units.  The model covers
    the strings whose code units are below 256 (one [ascii] per unit), which
    contain every literal, identifier, timestamp and host name the program
    manipulates; [toLowerCase] and [trim] follow Unicode on that range. *)

Definition code (c : ascii) : Z := Z.of_N (N_of_ascii c).
Definition char_at (n : Z) : ascii := ascii_of_N (Z.to_N n).
Definition slen (s : string) : Z := Z.of_nat (String.length s).
Definition in_range (lo hi : Z) (c : ascii) : bool :=
  ((lo <=? code c) && (code c <=? hi))%Z%bool.

Lemma code_range c : (0 <= code c < 256)%Z.
Proof. unfold code. pose proof (N_ascii_bounded c). lia. Qed.

Lemma code_char_at n : (0 <= n < 256)%Z → code (char_at n) = n.
Proof.
  intros Hn. unfold code, char_at. rewrite N_ascii_embedding by lia. lia.
Qed.

Lemma char_at_code c : char_at (code c) = c.
Proof. unfold code, char_at. rewrite N2Z.id. apply ascii_N_embedding. Qed.

Lemma code_inj c d : code c = code d → c = d.
Proof. intros H. by rewrite <- (char_at_code c), H, char_at_code. Qed.

Definition is_digit (c : ascii) : bool := in_range 48 57 c.
Definition is_upper_az (c : ascii) : bool := in_range 65 90 c.
Definition is_lower_az (c : ascii) : bool := in_range 97 122 c.
Definition is_alnum (c : ascii) : bool :=
  is_digit c || is_upper_az c || is_lower_az c.

(** [String.prototype.toLowerCase] on one code unit below 256. *)
Definition lower_char (c : ascii) : ascii :=
  if in_range 65 90 c || (in_range 192 222 c && negb (code c =? 215)%Z)
  then char_at (code c + 32) else c.

Fixpoint smap (f : ascii → ascii) (s : string) : string :=
  match s with EmptyString => EmptyString | String c s => String (f c) (smap f s) end.
Fixpoint sforall (p : ascii → bool) (s : string) : bool :=
  match s with EmptyString => true | String c s => p c && sforall p s end.
Definition sexists (p : ascii → bool) (s : string) : bool :=
  negb (sforall (λ c, negb (p c)) s).
Fixpoint sfilter (p : ascii → bool) (s : string) : string :=
  match s with
  | EmptyString => EmptyString
  | String c s => if p c then String c (sfilter p s) else sfilter p s
  end.

Definition toLowerCase (s : string) : string := smap lower_char s.

(** The white space [String.prototype.trim] removes (code units below 256). *)
Definition is_js_space (c : ascii) : bool :=
  in_range 9 13 c || (code c =? 32)%Z || (code c =? 160)%Z.

Fixpoint drop_while (p : ascii → bool) (s : string) : string :=
  match s with
  | EmptyString => EmptyString
  | String c s' => if p c then drop_while p s' else s
  end.
(** Removes the longest suffix of characters satisfying [p]. *)
Fixpoint drop_end (p : ascii → bool) (s : string) : string :=
  match s with
  | EmptyString => EmptyString
  | String c s' =>
      match drop_end p s' with
      | EmptyString => if p c then EmptyString else String c EmptyString
      | s'' => String c s''
      end
  end.
Definition trim_by (p : ascii → bool) (s : string) : string :=
  drop_end p (drop_while p s).
Definition trim : string → string := trim_by is_js_space.

Fixpoint sdrop (n : nat) (s : string) : string :=
  match n, s with
  | S n, String _ s => sdrop n s
  | _, _ => s
  end.
Fixpoint stake (n : nat) (s : string) : string :=
  match n, s with
  | S n, String c s => String c (stake n s)
  | _, _ => EmptyString
  end.

(** [s.startsWith(p)]. *)
Fixpoint startsWith (p s : string) : bool :=
  match p, s with
  | EmptyString, _ => true
  | String c p, String d s => bool_decide (c = d) && startsWith p s
  | String _ _, EmptyString => false
  end.
Definition endsWith (p s : string) : bool :=
  (String.length p <=? String.length s)%nat &&
  bool_decide (sdrop (String.length s - String.length p) s = p).
(** [s.includes(p)]. *)
Fixpoint includes (p s : string) : bool :=
  startsWith p s || match s with EmptyString => false | String _ s => includes p s end.

(** [s.split(d)] for a one-character separator. *)
Fixpoint split_on (d : ascii) (s : string) : list string :=
  match s with
  | EmptyString => [EmptyString]
  | String c s' =>
      if bool_decide (c = d) then EmptyString :: split_on d s'
      else match split_on d s' with
           | [] => [String c EmptyString]
           | w :: ws => String c w :: ws
           end
  end.
(** [ws.join(d)]. *)
Fixpoint join (d : string) (ws : list string) : string :=
  match ws with
  | [] => EmptyString
  | [w] => w
  | w :: ws => w +:+ d +:+ join d ws
  end.

(** Reads one given character. *)
Definition expect (c : ascii) (s : string) : option string :=
  match s with
  | String d s => if bool_decide (c = d) then Some s else None
  | EmptyString => None
  end.

(** The regular expression [/^[cls]{lo,hi}$/]. *)
Definition matches_class (cls : ascii → bool) (lo hi : Z) (s : string) : bool :=
  sforall cls s && (lo <=? slen s)%Z && (slen s <=? hi)%Z.
(** The class [[A-Za-z0-9_.:-]] of identifiers. *)
Definition is_ident_char (c : ascii) : bool :=
  is_alnum c || (code c =? 95)%Z || (code c =? 46)%Z || (code c =? 58)%Z
  || (code c =? 45)%Z.

(** Length in bytes of the UTF-8 encoding ([Buffer.byteLength(s, "utf8")]). *)
Fixpoint utf8_length (s : string) : Z :=
  match s with
  | EmptyString => 0
  | String c s => (if (code c <? 128)%Z then 1 else 2) + utf8_length s
  end.

(** JavaScript's [<] on strings: lexicographic on code units. *)
Fixpoint str_ltb (s t : string) : bool :=
  match s, t with
  | _, EmptyString => false
  | EmptyString, String _ _ => true
  | String c s, String d t =>
      if (code c <? code d)%Z then true
      else if (code d <? code c)%Z then false else str_ltb s t
  end.

Section string_lemmas.
Lemma sapp_assoc (s t u : string) : s +:+ (t +:+ u) = (s +:+ t) +:+ u.
Proof. induction s as [|c s IH]; simpl; [done|by rewrite IH]. Qed.
Lemma sapp_nil_r (s : string) : s +:+ EmptyString = s.
Proof. induction s as [|c s IH]; simpl; [done|by rewrite IH]. Qed.
Lemma slength_app s t :
  String.length (s +:+ t) = (String.length s + String.length t)%nat.
Proof. induction s as [|c s IH]; simpl; [done|by rewrite IH]. Qed.
Lemma slen_app s t : slen (s +:+ t) = (slen s + slen t)%Z.
Proof. unfold slen. rewrite slength_app. lia. Qed.
Lemma slen_nonneg s : (0 <= slen s)%Z.
Proof. unfold slen. lia. Qed.
Lemma sforall_app p s t : sforall p (s +:+ t) = sforall p s && sforall p t.
Proof.
  induction s as [|c s IH]; simpl; [done|]. rewrite IH. apply andb_assoc.
Qed.
Lemma sforall_impl (p q : ascii → bool) s :
  (∀ c, p c = true → q c = true) → sforall p s = true → sforall q s = true.
Proof.
  intros Hpq. induction s as [|c s IH]; simpl; [done|].
  intros [Hc Hs]%andb_prop. rewrite (Hpq _ Hc). auto.
Qed.
Lemma sdrop_app s t : sdrop (String.length s) (s +:+ t) = t.
Proof. by induction s. Qed.
Lemma sapp_inj_r s t1 t2 : s +:+ t1 = s +:+ t2 → t1 = t2.
Proof. induction s as [|c s IH]; simpl; [done|]. intros [= H]. auto. Qed.
Lemma sapp_inj_len s1 s2 t1 t2 :
  String.length s1 = String.length s2 →
  s1 +:+ t1 = s2 +:+ t2 → s1 = s2 ∧ t1 = t2.
Proof.
  revert s2. induction s1 as [|c s1 IH]; intros [|d s2]; simpl; try done.
  intros [= Hl] [= -> H]. destruct (IH s2 Hl H) as [-> ->]. done.
Qed.

Lemma startsWith_spec p s : startsWith p s = true ↔ ∃ t, s = p +:+ t.
Proof.
  revert s. induction p as [|c p IH]; intros s; simpl.
  - split; [intros _; by exists s|done].
  - destruct s as [|d s]; [split; [done|by intros [t [=]]]|].
    rewrite andb_true_iff, bool_decide_eq_true, IH. split.
    + intros [-> [t ->]]. by exists t.
    + intros [t [= -> ->]]. split; [done|by exists t].
Qed.
Lemma startsWith_app p t : startsWith p (p +:+ t) = true.
Proof. apply startsWith_spec. by exists t. Qed.

Lemma expect_eq c s : expect c (String c s) = Some s.
Proof. simpl. by rewrite bool_decide_eq_true_2. Qed.
Lemma expect_Some c s t : expect c s = Some t → s = String c t.
Proof. destruct s; simpl; [done|]. case_bool_decide; naive_solver. Qed.

Lemma endsWith_spec p s : endsWith p s = true ↔ ∃ t, s = t +:+ p.
Proof.
  unfold endsWith. split.
  - intros [Hl Hd]%andb_prop. split_bool. apply Nat.leb_le in Hl.
    remember (String.length s - String.length p)%nat as n eqn:Hn.
    exists (stake n s). rewrite <- Hd. clear.
    revert s. induction n as [|n IH]; intros [|c s]; simpl; try done.
    by rewrite <- IH.
  - intros [t ->]. rewrite slength_app.
    replace (String.length t + String.length p - String.length p)%nat
      with (String.length t) by lia.
    rewrite sdrop_app. apply andb_true_intro. split.
    + apply Nat.leb_le. lia.
    + by apply bool_decide_eq_true_2.
Qed.

(** The separator does not occur in [s]. *)
Lemma split_on_none d s :
  sforall (λ c, negb (bool_decide (c = d))) s = true → split_on d s = [s].
Proof.
  induction s as [|c s IH]; simpl; [done|]. intros [Hc Hs]%andb_prop.
  apply negb_true_iff in Hc. by rewrite Hc, (IH Hs).
Qed.
Lemma split_on_app d s t :
  sforall (λ c, negb (bool_decide (c = d))) s = true →
  split_on d (s +:+ String d t) = s :: split_on d t.
Proof.
  induction s as [|c s IH]; simpl.
  - intros _. by rewrite bool_decide_eq_true_2.
  - intros [Hc Hs]%andb_prop. apply negb_true_iff in Hc. by rewrite Hc, (IH Hs).
Qed.
Lemma split_on_cons d s : ∃ w ws, split_on d s = w :: ws.
Proof.
  destruct s as [|c s]; simpl; [by eexists _, _|].
  case_bool_decide; [by eexists _, _|]. destruct (split_on d s); by eexists _, _.
Qed.
(** Splitting a concatenation at a separator in between. *)
Lemma split_on_sep d s t : split_on d (s +:+ String d t) = split_on d s ++ split_on d t.
Proof.
  induction s as [|c s IH]; simpl; [by rewrite bool_decide_eq_true_2|].
  rewrite IH. case_bool_decide; [done|].
  destruct (split_on_cons d s) as (w & ws & ->). done.
Qed.
Lemma join_split_on d s : join (String d EmptyString) (split_on d s) = s.
Proof.
  induction s as [|c s IH]; [done|]. simpl. case_bool_decide as E.
  - subst. destruct (split_on_cons d s) as (w & ws & E). rewrite E in IH |- *.
    simpl in *. by rewrite IH.
  - destruct (split_on_cons d s) as (w & ws & E'). rewrite E' in IH |- *.
    destruct ws; simpl in *; by rewrite IH.
Qed.
Lemma split_on_inj d s t : split_on d s = split_on d t → s = t.
Proof. intros H. by rewrite <- (join_split_on d s), H, join_split_on. Qed.

Lemma str_ltb_irrefl s : str_ltb s s = false.
Proof. induction s as [|c s IH]; simpl; [done|]. by rewrite Z.ltb_irrefl. Qed.
Lemma str_ltb_trans s t u :
  str_ltb s t = true → str_ltb t u = true → str_ltb s u = true.
Proof.
  revert t u. induction s as [|c s IH]; intros [|d t] [|e u]; simpl; try done.
  repeat case_match; split_bool; try done; try lia; eauto.
Qed.
Lemma str_ltb_total s t :
  str_ltb s t = false → str_ltb t s = false → s = t.
Proof.
  revert t. induction s as [|c s IH]; intros [|d t]; simpl; try done.
  repeat case_match; split_bool; try done. intros.
  f_equal; [apply code_inj; lia|auto].
Qed.
End string_lemmas.

(** Trimming fewer characters first changes nothing. *)
Section trim_twice.
Context (p : ascii → bool) (Hp : ∀ c, p c = true → is_js_space c = true).

Lemma drop_while_twice s : drop_while is_js_space (drop_while p s) = drop_while is_js_space s.
Proof.
  induction s as [|c s IH]; [done|]. cbn. destruct (p c) eqn:E; [|done]. by rewrite (Hp c E).
Qed.
Lemma drop_end_twice s : drop_end is_js_space (drop_end p s) = drop_end is_js_space s.
Proof.
  induction s as [|c s IH]; [done|]. cbn. rewrite <- IH.
  destruct (drop_end p s) as [|d u]; [|done]. cbn. destruct (p c) eqn:E; [by rewrite (Hp c E)|done].
Qed.
Lemma drop_end_empty s : drop_end p s = EmptyString → drop_while is_js_space s = EmptyString.
Proof.
  induction s as [|c s IH]; [done|]. cbn. destruct (drop_end p s); [|done].
  destruct (p c) eqn:E; [|done]. intros _. rewrite (Hp c E). by apply IH.
Qed.
Lemma trim_drop_end s : trim (drop_end p s) = trim s.
Proof.
  unfold trim, trim_by. induction s as [|c s IH]; [done|]. cbn [drop_end].
  pose proof (drop_end_twice s) as Ht. pose proof (drop_end_empty s) as He.
  destruct (drop_end p s) as [|d u]; cbn [drop_while] in *.
  - specialize (He eq_refl). destruct (p c) eqn:E.
    + cbn. by rewrite (Hp c E), He.
    + cbn. destruct (is_js_space c) eqn:Ec; [by rewrite He|]. cbn in *. by rewrite <- Ht, Ec.
  - destruct (is_js_space c) eqn:Ec; [done|].
    change (drop_end is_js_space (String c ?x)) with
      (match drop_end is_js_space x with
       | EmptyString => if is_js_space c then EmptyString else String c EmptyString
       | s'' => String c s''
       end). by rewrite Ht.
Qed.
Lemma trim_trim_by s : trim (trim_by p s) = trim s.
Proof.
  unfold trim_by. rewrite trim_drop_end. unfold trim, trim_by. by rewrite drop_while_twice.
Qed.
End trim_twice.
Lemma trim_trim s : trim (trim s) = trim s.
Proof. by apply trim_trim_by. Qed.
Lemma slen_trim s : (slen (trim s) <= slen s)%Z.
Proof.
  unfold trim, trim_by, slen.
  assert (∀ p t, String.length (drop_while p t) <= String.length t)%nat as Hw
    by (intros p t; induction t as [|c t IH]; cbn; [lia|]; destruct (p c); cbn; lia).
  assert (∀ p t, String.length (drop_end p t) <= String.length t)%nat as He.
  { intros p t. induction t as [|c t IH]; cbn; [lia|]. destruct (drop_end p t); cbn in *; [|lia].
    destruct (p c); cbn; lia. }
  pose proof (Hw is_js_space (drop_end is_js_space s)). pose proof (He is_js_space s).
  pose proof (Hw is_js_space s). pose proof (He is_js_space (drop_while is_js_space s)). lia.
Qed.

(** * Insertion-ordered maps: JavaScript objects and [Map]s

    An association list in insertion order; [assoc_set] on an existing key
    keeps its place, as [Map.prototype.set] and property assignment do. *)
Section assoc.
Context {A : Type}.
Implicit Types (k : string) (v : A) (fs : list (string * A)).

Fixpoint assoc_get k fs : option A :=
  match fs with
  | [] => None
  | (k', v) :: fs => if decide (k = k') then Some v else assoc_get k fs
  end.
Fixpoint assoc_set k v fs : list (string * A) :=
  match fs with
  | [] => [(k, v)]
  | (k', v') :: fs =>
      if decide (k = k') then (k, v) :: fs else (k', v') :: assoc_set k v fs
  end.
Definition assoc_has k fs : bool := bool_decide (is_Some (assoc_get k fs)).

Lemma assoc_get_set_eq k v fs : assoc_get k (assoc_set k v fs) = Some v.
Proof.
  induction fs as [|[k' v'] fs IH]; simpl; [by rewrite decide_True|].
  case_decide; simpl; [by rewrite decide_True|by rewrite decide_False].
Qed.
Lemma assoc_get_set_ne k k' v fs :
  k ≠ k' → assoc_get k (assoc_set k' v fs) = assoc_get k fs.
Proof.
  intros Hne. induction fs as [|[k2 v2] fs IH]; simpl.
  - by rewrite decide_False.
  - case_decide as E; simpl.
    + subst. by rewrite !decide_False.
    + by rewrite IH.
Qed.
Lemma assoc_get_None k fs : assoc_get k fs = None ↔ k ∉ fs.*1.
Proof.
  induction fs as [|[k' v] fs IH]; simpl; [set_solver|].
  case_decide; set_solver.
Qed.
Lemma assoc_get_Some_NoDup k v fs :
  NoDup fs.*1 → assoc_get k fs = Some v ↔ (k, v) ∈ fs.
Proof.
  induction fs as [|[k' v'] fs IH]; simpl; [set_solver|].
  intros [Hk Hnd]%NoDup_cons. case_decide as E.
  - subst. rewrite elem_of_cons. split; [naive_solver|].
    intros [[= ->]|Hin]; [done|]. exfalso. apply Hk.
    apply list_elem_of_fmap. by exists (k', v).
  - rewrite IH, elem_of_cons by done. naive_solver.
Qed.
Lemma assoc_get_app k fs gs :
  assoc_get k (fs ++ gs) = match assoc_get k fs with Some v => Some v | None => assoc_get k gs end.
Proof. induction fs as [|[k' v] fs IH]; cbn; [done|]. by case_decide. Qed.
Lemma assoc_set_fresh k v fs : k ∉ fs.*1 → assoc_set k v fs = fs ++ [(k, v)].
Proof.
  induction fs as [|[k' v'] fs IH]; simpl; [done|].
  rewrite not_elem_of_cons. intros [Hne Hk]. rewrite decide_False by done.
  by rewrite IH.
Qed.
Lemma assoc_has_false k fs : assoc_has k fs = false ↔ k ∉ fs.*1.
Proof.
  unfold assoc_has. rewrite bool_decide_eq_false, <- assoc_get_None.
  rewrite eq_None_not_Some. done.
Qed.
Lemma assoc_has_true k fs : assoc_has k fs = true ↔ k ∈ fs.*1.
Proof.
  destruct (assoc_has k fs) eqn:E; split; try done.
  - intros _. destruct (decide (k ∈ fs.*1)) as [|Hn]; [done|].
    apply assoc_has_false in Hn. congruence.
  - apply assoc_has_false in E. done.
Qed.
Lemma assoc_set_keys k v fs :
  NoDup fs.*1 → NoDup (assoc_set k v fs).*1 ∧
  ∀ k', k' ∈ (assoc_set k v fs).*1 ↔ k' = k ∨ k' ∈ fs.*1.
Proof.
  induction fs as [|[k2 v2] fs IH]; simpl.
  { intros _. split; [apply NoDup_singleton|set_solver]. }
  intros [Hk Hnd]%NoDup_cons. specialize (IH Hnd) as [IH1 IH2].
  case_decide as E; simpl.
  - subst. split; [by constructor|set_solver].
  - split; [|set_solver]. constructor; [|done]. rewrite IH2. set_solver.
Qed.
(** [delete o[k]]. *)
Fixpoint assoc_remove k (d : list (string * A)) : list (string * A) :=
  match d with
  | [] => []
  | (k', v) :: d => if decide (k = k') then assoc_remove k d else (k', v) :: assoc_remove k d
  end.
Lemma assoc_remove_get_ne k k' (d : list (string * A)) :
  k ≠ k' → assoc_get k (assoc_remove k' d) = assoc_get k d.
Proof.
  intros Hne. induction d as [|[k2 v] d IH]; cbn; [done|]. case_decide; cbn.
  - subst. rewrite decide_False by done. done.
  - by rewrite IH.
Qed.
Lemma assoc_remove_elem k (d : list (string * A)) k' v :
  (k', v) ∈ assoc_remove k d ↔ (k', v) ∈ d ∧ k' ≠ k.
Proof.
  induction d as [|[k2 v2] d IH]; cbn; [set_solver|]. case_decide as E; [subst|]; rewrite ?elem_of_cons, IH, ?elem_of_cons.
  - naive_solver.
  - split; [|naive_solver]. intros [[= -> ->]|[H Hne]]; [|naive_solver]. split; [by left|congruence].
Qed.
Lemma assoc_remove_get_eq k (d : list (string * A)) : assoc_get k (assoc_remove k d) = None.
Proof.
  apply assoc_get_None. intros ([k' v] & E & H)%list_elem_of_fmap. cbn in E. subst.
  by apply assoc_remove_elem in H as [_ H].
Qed.
Lemma assoc_get_In k v fs : assoc_get k fs = Some v → (k, v) ∈ fs.
Proof.
  induction fs as [|[k' v'] fs IH]; cbn; [done|]. case_decide; [intros [= ->]; subst; left|right; auto].
Qed.
Lemma assoc_set_In kv k v fs : kv ∈ assoc_set k v fs → kv = (k, v) ∨ kv ∈ fs.
Proof.
  induction fs as [|[k' v'] fs IH]; cbn; [by intros ->%list_elem_of_singleton; left|].
  case_decide; rewrite !elem_of_cons; naive_solver.
Qed.
End assoc.

(** * Filters *)

Section filters.
Context {A : Type} (p : A → bool).
Lemma elem_of_lfilter l x : x ∈ List.filter p l ↔ x ∈ l ∧ p x = true.
Proof. by rewrite !list_elem_of_In, filter_In. Qed.
Lemma lfilter_idem l : List.filter p (List.filter p l) = List.filter p l.
Proof. induction l as [|x l IH]; [done|]. cbn. destruct (p x) eqn:E; cbn; rewrite ?E, IH; done. Qed.
Lemma lfilter_all l : Forall (λ x, p x = true) l → List.filter p l = l.
Proof. induction 1 as [|x l Hx _ IH]; [done|]. cbn. by rewrite Hx, IH. Qed.
Lemma lfilter_nil l : List.filter p l = [] ↔ ∀ x, x ∈ l → p x = false.
Proof.
  split.
  - intros H x Hx. apply not_true_is_false. intros E. assert (x ∈ List.filter p l) as Hin by (by apply elem_of_lfilter).
    rewrite H in Hin. by apply elem_of_nil in Hin.
  - induction l as [|x l IH]; [done|]. intros H. cbn. rewrite (H x) by (by left). apply IH. intros y Hy. apply H. by right.
Qed.
Lemma lfilter_NoDup l : NoDup l → NoDup (List.filter p l).
Proof.
  induction 1 as [|x l Hx _ IH]; cbn; [constructor|]. destruct (p x); [|done]. constructor; [|done].
  by rewrite elem_of_lfilter; intros [? _].
Qed.
Lemma lfilter_sublist l : List.filter p l `sublist_of` l.
Proof. induction l as [|x l IH]; cbn; [constructor|]. destruct (p x); by constructor. Qed.
End filters.

(** * Sets in insertion order *)

Section dedup.
Context {A : Type} `{EqDecision A}.
(** [[...new Set(l)]]: first occurrences, in order. *)
Fixpoint dedup_acc (seen l : list A) : list A :=
  match l with
  | [] => []
  | x :: l => if bool_decide (x ∈ seen) then dedup_acc seen l else x :: dedup_acc (x :: seen) l
  end.
Definition dedup (l : list A) : list A := dedup_acc [] l.

Lemma dedup_acc_elem seen l x : x ∈ dedup_acc seen l ↔ x ∈ l ∧ x ∉ seen.
Proof.
  revert seen. induction l as [|y l IH]; intros seen; cbn; [set_solver|].
  case_bool_decide; [set_solver|]. rewrite elem_of_cons, IH, elem_of_cons.
  destruct (decide (x = y)); set_solver.
Qed.
Lemma dedup_elem l x : x ∈ dedup l ↔ x ∈ l.
Proof. unfold dedup. rewrite dedup_acc_elem. set_solver. Qed.
Lemma dedup_acc_NoDup seen l : NoDup (dedup_acc seen l).
Proof.
  revert seen. induction l as [|y l IH]; intros seen; cbn; [constructor|].
  case_bool_decide; [done|]. constructor; [|done]. rewrite dedup_acc_elem. set_solver.
Qed.
Lemma dedup_NoDup l : NoDup (dedup l).
Proof. apply dedup_acc_NoDup. Qed.
End dedup.

(** * Verdicts

    The agent's gates answer [{ allowed: true }] or [{ allowed: false,
    rejectionReason, detail }]; the human-readable detail is not modelled. *)
Inductive verdict := Allowed | Rejected (rejectionReason : string).
#[global] Instance verdict_eq_dec : EqDecision verdict.
Proof. solve_decision. Defined.
Definition allowed (v : verdict) : bool :=
  match v with Allowed => true | Rejected _ => false end.
Lemma allowed_true v : allowed v = true ↔ v = Allowed.
Proof. by destruct v. Qed.
