(* ===== verification/Dates.v ===== *)
(** Calendar dates and ECMAScript time values, as far as the program uses
    them: [Date.UTC], the UTC getters, [toISOString], and [Date.parse] as an
    interface ([DateParse]) whose laws are the ones ECMA-262 states.

    A time value is a [Z] (milliseconds since the epoch); an invalid [Date] is
    [None].  Dates are proleptic Gregorian; [days_from_civil] and
    [civil_from_days] are the usual era/day-of-era computation and are proved
    inverse to each other. *)
From S2P Require Import Prelude.
Open Scope Z_scope.

Definition DAY_MS : Z := 86400000.
(** The range of valid time values, +-8.64e15 ms. *)
Definition MAX_TIME : Z := 8640000000000000.
Definition valid_time (t : Z) : bool := (- MAX_TIME <=? t) && (t <=? MAX_TIME).

(** Day number of a civil date (month 1..12); days may overflow the month. *)
Definition days_from_civil (y m d : Z) : Z :=
  let y' := if m <=? 2 then y - 1 else y in
  let era := y' / 400 in
  let yoe := y' mod 400 in
  let mp := if m <=? 2 then m + 9 else m - 3 in
  let doy := (153 * mp + 2) / 5 + d - 1 in
  let doe := yoe * 365 + yoe / 4 - yoe / 100 + doy in
  era * 146097 + doe - 719468.

Definition yoe_of_doe (doe : Z) : Z :=
  (doe - doe / 1460 + doe / 36524 - doe / 146096) / 365.
Definition civil_from_days (n : Z) : Z * Z * Z :=
  let z := n + 719468 in
  let era := z / 146097 in
  let doe := z mod 146097 in
  let yoe := yoe_of_doe doe in
  let doy := doe - (365 * yoe + yoe / 4 - yoe / 100) in
  let mp := (5 * doy + 2) / 153 in
  let d := doy - (153 * mp + 2) / 5 + 1 in
  let m := if mp <? 10 then mp + 3 else mp - 9 in
  let y := yoe + era * 400 in
  ((if m <=? 2 then y + 1 else y), m, d).

Lemma yoe_of_doe_bounds doe :
  0 <= doe < 146097 →
  0 <= yoe_of_doe doe < 400 ∧
  0 <= doe - (365 * yoe_of_doe doe + yoe_of_doe doe / 4 - yoe_of_doe doe / 100) < 366.
Proof. intros. unfold yoe_of_doe. Z.to_euclidean_division_equations. lia. Qed.

Lemma month_day_bounds doy :
  0 <= doy < 366 →
  let mp := (5 * doy + 2) / 153 in
  0 <= mp < 12 ∧ 1 <= doy - (153 * mp + 2) / 5 + 1 <= 31.
Proof. intros H mp. unfold mp. Z.to_euclidean_division_equations. lia. Qed.

(** Month and day of a day number are in their calendar ranges, and the day
    number is recovered. *)
Lemma civil_from_days_spec n y m d :
  civil_from_days n = (y, m, d) →
  1 <= m <= 12 ∧ 1 <= d <= 31 ∧ days_from_civil y m d = n.
Proof.
  unfold civil_from_days.
  pose proof (Z.mod_pos_bound (n + 719468) 146097 ltac:(lia)) as Hdoe.
  pose proof (Z.div_mod (n + 719468) 146097 ltac:(lia)) as Hera.
  set (doe := (n + 719468) mod 146097) in *.
  set (era := (n + 719468) / 146097) in *.
  destruct (yoe_of_doe_bounds doe Hdoe) as [Hyoe Hdoy].
  set (yoe := yoe_of_doe doe) in *.
  set (doy := doe - _) in *.
  destruct (month_day_bounds doy Hdoy) as [Hmp Hd].
  set (mp := (5 * doy + 2) / 153) in *. cbv zeta.
  intros [= <- <- <-].
  assert (((if mp <? 10 then mp + 3 else mp - 9) <=? 2) = negb (mp <? 10)) as Hm2.
  { destruct (mp <? 10) eqn:E; split_bool; [apply Z.leb_gt|apply Z.leb_le]; lia. }
  split; [destruct (mp <? 10) eqn:E; split_bool; lia|split; [done|]].
  unfold days_from_civil. rewrite Hm2.
  assert ((yoe + era * 400) / 400 = era) as Heq1.
  { symmetry. apply (Z.div_unique _ _ _ yoe); lia. }
  assert ((yoe + era * 400) mod 400 = yoe) as Heq2.
  { symmetry. apply (Z.mod_unique _ _ era); lia. }
  destruct (mp <? 10) eqn:E; split_bool; simpl negb; cbv iota.
  - rewrite Heq1, Heq2. replace (mp + 3 - 3) with mp by lia. lia.
  - replace (yoe + era * 400 + 1 - 1) with (yoe + era * 400) by lia.
    rewrite Heq1, Heq2. replace (mp - 9 + 9) with mp by lia. lia.
Qed.

(** Consecutive days are consecutive day numbers, whatever the month. *)
Lemma days_from_civil_add y m d k :
  days_from_civil y m (d + k) = days_from_civil y m d + k.
Proof. unfold days_from_civil. lia. Qed.

(** * Time values *)

(** ECMA-262 MakeDay then MakeDate, for a month index that may lie outside
    0..11, then TimeClip. *)
Definition time_clip (t : Z) : option Z := if valid_time t then Some t else None.
Definition make_day (y mi d : Z) : Z :=
  days_from_civil (y + mi / 12) (mi mod 12 + 1) 1 + d - 1.
(** [Date.UTC(y, mi, d)]: years 0..99 mean 1900..1999. *)
Definition Date_UTC (y mi d : Z) : option Z :=
  let y := if (0 <=? y) && (y <=? 99) then 1900 + y else y in
  time_clip (make_day y mi d * DAY_MS).

Definition day_of (t : Z) : Z := t / DAY_MS.
Definition getUTCFullYear (t : Z) : Z := (civil_from_days (day_of t)).1.1.
Definition getUTCMonth (t : Z) : Z := (civil_from_days (day_of t)).1.2 - 1.
Definition getUTCDate (t : Z) : Z := (civil_from_days (day_of t)).2.

Lemma make_day_utc t :
  make_day (getUTCFullYear t) (getUTCMonth t) (getUTCDate t) = day_of t.
Proof.
  unfold make_day, getUTCFullYear, getUTCMonth, getUTCDate.
  destruct (civil_from_days (day_of t)) as [[y m] d] eqn:E. simpl.
  apply civil_from_days_spec in E as (Hm & Hd & E).
  rewrite (Z.div_small (m - 1) 12), (Z.mod_small (m - 1) 12) by lia.
  replace (m - 1 + 1) with m by lia. rewrite Z.add_0_r.
  pose proof (days_from_civil_add y m 1 (d - 1)) as H.
  replace (1 + (d - 1)) with d in H by lia. lia.
Qed.

Lemma day_of_bounds t : day_of t * DAY_MS <= t < day_of t * DAY_MS + DAY_MS.
Proof. unfold day_of, DAY_MS. Z.to_euclidean_division_equations. lia. Qed.

Lemma valid_time_day t : valid_time t = true → valid_time (day_of t * DAY_MS) = true.
Proof.
  unfold valid_time, MAX_TIME. intros H. split_bool. pose proof (day_of_bounds t).
  unfold day_of, DAY_MS in *.
  apply andb_true_intro; split; apply Z.leb_le; [|lia].
  Z.to_euclidean_division_equations. lia.
Qed.

(** [Date.UTC] of the UTC fields of a time is the start of its day, for the
    years the two-digit rule does not touch. *)
Lemma Date_UTC_utc_fields t :
  valid_time t = true → 100 <= getUTCFullYear t →
  Date_UTC (getUTCFullYear t) (getUTCMonth t) (getUTCDate t) =
  Some (day_of t * DAY_MS).
Proof.
  intros Hv Hy. unfold Date_UTC, time_clip.
  replace ((0 <=? getUTCFullYear t) && (getUTCFullYear t <=? 99)) with false.
  - by rewrite make_day_utc, (valid_time_day _ Hv).
  - symmetry. apply andb_false_intro2. apply Z.leb_gt. lia.
Qed.

(** * Decimal digits *)

Definition digit_char (n : Z) : ascii := char_at (48 + n).
Definition digit_value (c : ascii) : Z := code c - 48.

(** The [w] low decimal digits of [n], zero padded. *)
Fixpoint pad (w : nat) (n : Z) : string :=
  match w with
  | O => EmptyString
  | S w => pad w (n / 10) +:+ String (digit_char (n mod 10)) EmptyString
  end.

(** Reads exactly [w] digits. *)
Fixpoint take_digits_acc (acc : Z) (w : nat) (s : string) : option (Z * string) :=
  match w, s with
  | O, _ => Some (acc, s)
  | S w, String c s =>
      if is_digit c then take_digits_acc (acc * 10 + digit_value c) w s else None
  | S _, EmptyString => None
  end.
Definition take_digits := take_digits_acc 0.

Lemma digit_char_spec n :
  0 <= n < 10 → is_digit (digit_char n) = true ∧ digit_value (digit_char n) = n.
Proof.
  intros Hn. unfold is_digit, in_range, digit_value, digit_char.
  rewrite code_char_at by lia. split; [|lia].
  apply andb_true_intro; split; apply Z.leb_le; lia.
Qed.

Lemma take_digits_acc_pad w acc n s :
  0 <= n < 10 ^ Z.of_nat w →
  take_digits_acc acc w (pad w n +:+ s) = Some (acc * 10 ^ Z.of_nat w + n, s).
Proof.
  revert acc n s. induction w as [|w IH]; intros acc n s Hn.
  { simpl in *. f_equal. f_equal. lia. }
  assert (take_digits_acc acc (S w) (pad (S w) n +:+ s) =
    match take_digits_acc acc w (pad w (n / 10) +:+ String (digit_char (n mod 10)) s) with
    | Some (a, String c s') =>
        if is_digit c then Some (a * 10 + digit_value c, s') else None
    | _ => None
    end) as ->.
  { simpl pad. rewrite <- sapp_assoc. simpl String.append.
    generalize (pad w (n / 10) +:+ String (digit_char (n mod 10)) s). clear.
    revert acc. induction w as [|w IH]; intros acc t; simpl.
    - by destruct t.
    - destruct t as [|c t]; [done|]. destruct (is_digit c); [|done]. apply IH. }
  rewrite Nat2Z.inj_succ, Z.pow_succ_r in Hn by lia.
  rewrite IH by (split; [apply Z.div_pos; lia|apply Z.div_lt_upper_bound; lia]).
  pose proof (Z.mod_pos_bound n 10 ltac:(lia)) as Hmod.
  destruct (digit_char_spec (n mod 10) Hmod) as [-> ->].
  rewrite Nat2Z.inj_succ, Z.pow_succ_r by lia.
  pose proof (Z.div_mod n 10 ltac:(lia)). do 2 f_equal. lia.
Qed.

Lemma take_digits_pad w n s :
  0 <= n < 10 ^ Z.of_nat w → take_digits w (pad w n +:+ s) = Some (n, s).
Proof. intros H. unfold take_digits. by rewrite take_digits_acc_pad, Z.mul_0_l. Qed.

(** * [toISOString] and its reader *)

(** Four digits for years 0..9999, sign and six digits otherwise. *)
Definition iso_year (y : Z) : string :=
  if (0 <=? y) && (y <=? 9999) then pad 4 y
  else if y <? 0 then "-" +:+ pad 6 (- y) else "+" +:+ pad 6 y.

Definition toISOString (t : Z) : string :=
  let ms := t mod DAY_MS in
  iso_year (getUTCFullYear t) +:+ "-" +:+ pad 2 (getUTCMonth t + 1) +:+ "-" +:+
  pad 2 (getUTCDate t) +:+ "T" +:+ pad 2 (ms / 3600000) +:+ ":" +:+
  pad 2 (ms / 60000 mod 60) +:+ ":" +:+ pad 2 (ms / 1000 mod 60) +:+ "." +:+
  pad 3 (ms mod 1000) +:+ "Z".

Definition read_year (s : string) : option (Z * string) :=
  match s with
  | String c s' =>
      if (code c =? 45) then
        r ← take_digits 6 s'; Some (- r.1, r.2)
      else if (code c =? 43) then take_digits 6 s'
      else take_digits 4 s
  | EmptyString => None
  end.

(** Reader of the date-time form [toISOString] prints. *)
Definition read_iso (s : string) : option Z :=
  '(y, s) ← read_year s; s ← expect "-" s;
  '(m, s) ← take_digits 2 s; s ← expect "-" s;
  '(d, s) ← take_digits 2 s; s ← expect "T" s;
  '(hh, s) ← take_digits 2 s; s ← expect ":" s;
  '(mm, s) ← take_digits 2 s; s ← expect ":" s;
  '(ss, s) ← take_digits 2 s; s ← expect "." s;
  '(ms, s) ← take_digits 3 s; s ← expect "Z" s;
  if bool_decide (s = EmptyString) then
    time_clip (make_day y (m - 1) d * DAY_MS
               + hh * 3600000 + mm * 60000 + ss * 1000 + ms)
  else None.

(** The date-only form [YYYY-MM-DD], UTC midnight. *)
Definition read_iso_day (s : string) : option Z :=
  '(y, s) ← take_digits 4 s; s ← expect "-" s;
  '(m, s) ← take_digits 2 s; s ← expect "-" s;
  '(d, s) ← take_digits 2 s;
  if bool_decide (s = EmptyString) && (1 <=? m) && (m <=? 12) && (1 <=? d) && (d <=? 31)
  then time_clip (make_day y (m - 1) d * DAY_MS) else None.

Lemma year_bounds t : valid_time t = true → -999999 <= getUTCFullYear t <= 999999.
Proof.
  unfold valid_time, MAX_TIME. intros H. split_bool.
  unfold getUTCFullYear, civil_from_days, day_of, DAY_MS.
  set (n := t / 86400000 + 719468).
  assert (-200000000 <= n <= 200000000) as Hn.
  { unfold n. Z.to_euclidean_division_equations. lia. }
  pose proof (Z.mod_pos_bound n 146097 ltac:(lia)) as Hdoe.
  pose proof (Z.div_mod n 146097 ltac:(lia)) as Hera.
  pose proof (proj1 (yoe_of_doe_bounds _ Hdoe)) as Hy. simpl.
  destruct (_ <=? 2); lia.
Qed.

Lemma code_digit_char n : 0 <= n < 10 → code (digit_char n) = 48 + n.
Proof. intros. unfold digit_char. apply code_char_at. lia. Qed.

Lemma pad_cons w n : ∃ m s, 0 <= m < 10 ∧ pad (S w) n = String (digit_char m) s.
Proof.
  revert n. induction w as [|w IH]; intros n.
  - exists (n mod 10), EmptyString. split; [apply Z.mod_pos_bound; lia|done].
  - destruct (IH (n / 10)) as (m & s & Hm & E).
    exists m. change (pad (S (S w)) n) with
      (pad (S w) (n / 10) +:+ String (digit_char (n mod 10)) EmptyString).
    rewrite E. eexists. split; [done|reflexivity].
Qed.

Lemma read_year_pad y s :
  -999999 <= y <= 999999 → read_year (iso_year y +:+ s) = Some (y, s).
Proof.
  intros Hy. unfold iso_year.
  destruct ((0 <=? y) && (y <=? 9999)) eqn:E; split_bool.
  - pose proof (take_digits_pad 4 y s ltac:(simpl; lia)) as Ht.
    destruct (pad_cons 3 y) as (m & u & Hm & Hp). rewrite Hp in *.
    simpl read_year. rewrite !code_digit_char by done.
    replace (48 + m =? 45) with false by (symmetry; apply Z.eqb_neq; lia).
    replace (48 + m =? 43) with false by (symmetry; apply Z.eqb_neq; lia).
    exact Ht.
  - destruct (y <? 0) eqn:E2; split_bool.
    + change (read_year (("-" +:+ pad 6 (- y)) +:+ s)) with
        (take_digits 6 (pad 6 (- y) +:+ s) ≫= λ r, Some (- r.1, r.2)).
      rewrite take_digits_pad by (simpl; lia). simpl. by rewrite Z.opp_involutive.
    + change (read_year (("+" +:+ pad 6 y) +:+ s)) with (take_digits 6 (pad 6 y +:+ s)).
      apply take_digits_pad. simpl. lia.
Qed.

(** Reading back what [toISOString] prints gives the same instant. *)
Lemma read_iso_toISOString t : valid_time t = true → read_iso (toISOString t) = Some t.
Proof.
  intros Hv. unfold toISOString, read_iso.
  pose proof (make_day_utc t) as Hday. pose proof (year_bounds t Hv) as Hy.
  unfold getUTCMonth, getUTCDate, getUTCFullYear in *.
  destruct (civil_from_days (day_of t)) as [[y m] d] eqn:E. simpl in Hday, Hy.
  apply civil_from_days_spec in E as (Hm & Hd & _).
  set (ms := t mod DAY_MS).
  assert (0 <= ms < DAY_MS) as Hms by (apply Z.mod_pos_bound; unfold DAY_MS; lia).
  rewrite <- ?sapp_assoc. rewrite read_year_pad by done.
  repeat (cbn [mbind option_bind fst snd]; change (String ?c "" +:+ ?s) with (String c s);
    rewrite ?expect_eq; cbn [mbind option_bind];
    rewrite ?take_digits_pad by
      (unfold DAY_MS in *; simpl Z.of_nat; simpl Z.pow;
       Z.to_euclidean_division_equations; lia)).
  rewrite bool_decide_eq_true_2 by done.
  replace (m - 1 + 1 - 1) with (m - 1) by lia. rewrite Hday.
  assert (day_of t * DAY_MS + ms / 3600000 * 3600000 + ms / 60000 mod 60 * 60000
          + ms / 1000 mod 60 * 1000 + ms mod 1000 = t) as ->.
  { pose proof (Z.div_mod t DAY_MS ltac:(done)) as Ht. fold (day_of t) ms in Ht.
    unfold DAY_MS in *. Z.to_euclidean_division_equations. lia. }
  unfold time_clip. by rewrite Hv.
Qed.

(** * [Date.parse] as an interface

    [date_parse] is V8's parser: [None] is [NaN].  ECMA-262 fixes it on the
    ISO forms (21.4.1.32 and 21.4.3.2) and leaves other strings to the
    implementation, so the laws are those of the standard. *)
Class DateParse := {
  date_parse : string → option Z;
  date_parse_toISOString : ∀ t, valid_time t = true → date_parse (toISOString t) = Some t;
  date_parse_day : ∀ s t, read_iso_day s = Some t → date_parse s = Some t;
}.

(** An instance: the two ISO forms, every other string invalid. *)
Definition iso_parse (s : string) : option Z :=
  match read_iso s with Some t => Some t | None => read_iso_day s end.

Lemma take_digits_digit w s r :
  take_digits (S w) s = Some r → ∃ c s', s = String c s' ∧ is_digit c = true.
Proof.
  unfold take_digits. destruct s as [|c s']; simpl; [done|].
  destruct (is_digit c) eqn:E; [|done]. intros _. by exists c, s'.
Qed.

Lemma read_iso_day_not_iso s t : read_iso_day s = Some t → read_iso s = None.
Proof.
  unfold read_iso_day, read_iso. intros H.
  destruct (take_digits 4 s) as [[y s1]|] eqn:E1; [|done].
  assert (read_year s = Some (y, s1)) as ->.
  { destruct (take_digits_digit _ _ _ E1) as (c & s' & -> & Hc).
    unfold is_digit, in_range in Hc. split_bool. unfold read_year.
    destruct (code c =? 45) eqn:Ea; split_bool; [lia|].
    destruct (code c =? 43) eqn:Eb; split_bool; [lia|done]. }
  cbn [mbind option_bind] in *.
  destruct (expect "-" s1) as [s2|]; [|done]. cbn [mbind option_bind] in *.
  destruct (take_digits 2 s2) as [[m s3]|]; [|done]. cbn [mbind option_bind] in *.
  destruct (expect "-" s3) as [s4|]; [|done]. cbn [mbind option_bind] in *.
  destruct (take_digits 2 s4) as [[d s5]|]; [|done]. cbn [mbind option_bind] in *.
  case_match eqn:E; [|done]. split_bool. by subst s5.
Qed.

Definition iso_date_parse : DateParse.
Proof.
  refine {| date_parse := iso_parse |}.
  - intros t Ht. unfold iso_parse. by rewrite read_iso_toISOString.
  - intros s t Ht. unfold iso_parse. by rewrite (read_iso_day_not_iso _ _ Ht).
Defined.
