(* ===== verification/Json.v ===== *)
(** JavaScript values and JSON text.

    [jsval] is the part of a JavaScript value the program inspects with
    [typeof], [Array.isArray], property access and [JSON.stringify].  Finite
    numbers are the integers (every number the modelled code stores is an
    integer: counts, versions, ports, epoch milliseconds), non-finite ones are
    kept apart.  An object is its list of own enumerable properties in
    insertion order; [wf] says that no property name occurs twice.

    The file gives [JSON.stringify] of strings and numbers, [JSON.parse] as a
    recursive-descent parser with fuel, and the canonical serializer of
    packages/contracts/certops/canonical-json.cjs (vendored by the agent). *)
From S2P Require Import Prelude.
Open Scope Z_scope.

Inductive jsnum := Fin (z : Z) | NaN | Inf (negative : bool).

Inductive jsval :=
| Undef
| Null
| Bool (b : bool)
| Num (n : jsnum)
| Str (s : string)
| Arr (l : list jsval)
| Obj (fs : list (string * jsval)).

#[global] Instance jsnum_eq_dec : EqDecision jsnum.
Proof. solve_decision. Defined.

Section jsval_induction.
Context (P : jsval → Prop).
Hypothesis (HU : P Undef) (HN : P Null) (HB : ∀ b, P (Bool b))
  (HNum : ∀ n, P (Num n)) (HS : ∀ s, P (Str s))
  (HA : ∀ l, Forall P l → P (Arr l))
  (HO : ∀ fs, Forall (λ kv, P kv.2) fs → P (Obj fs)).
Fixpoint jsval_ind' (v : jsval) : P v :=
  match v with
  | Undef => HU | Null => HN | Bool b => HB b | Num n => HNum n | Str s => HS s
  | Arr l => HA l ((fix go l : Forall P l :=
      match l with
      | [] => Forall_nil_2 _
      | v :: l => Forall_cons_2 _ _ _ (jsval_ind' v) (go l)
      end) l)
  | Obj fs => HO fs ((fix go fs : Forall (λ kv, P kv.2) fs :=
      match fs with
      | [] => Forall_nil_2 _
      | kv :: fs => Forall_cons_2 _ kv _ (jsval_ind' kv.2) (go fs)
      end) fs)
  end.
End jsval_induction.

(** * Property access and coercions *)

(** [v?.k]: absent properties and non-objects give [undefined]. *)
Definition get (k : string) (v : jsval) : jsval :=
  match v with Obj fs => default Undef (assoc_get k fs) | _ => Undef end.
Definition hasOwn (k : string) (v : jsval) : bool :=
  match v with Obj fs => bool_decide (is_Some (assoc_get k fs)) | _ => false end.

Definition isPlainObject (v : jsval) : bool :=
  match v with Obj _ => true | _ => false end.
Definition isArray (v : jsval) : bool := match v with Arr _ => true | _ => false end.
Definition isString (v : jsval) : bool := match v with Str _ => true | _ => false end.
(** [v === null || v === undefined]. *)
Definition nullish (v : jsval) : bool :=
  match v with Undef | Null => true | _ => false end.
Definition truthy (v : jsval) : bool :=
  match v with
  | Undef | Null => false
  | Bool b => b
  | Num (Fin z) => negb (z =? 0)
  | Num NaN => false
  | Num (Inf _) => true
  | Str s => negb (bool_decide (s = EmptyString))
  | Arr _ | Obj _ => true
  end.

(** [a || b] and [a ?? b]. *)
Definition js_or (a b : jsval) : jsval := if truthy a then a else b.
Definition js_coalesce (a b : jsval) : jsval := if nullish a then b else a.

(** * [JSON.stringify] of numbers and strings *)

Definition digit_of (n : Z) : ascii := char_at (48 + n).
Fixpoint print_nat (fuel : nat) (n : Z) : string :=
  match fuel with
  | O => EmptyString
  | S fuel =>
      if n <? 10 then String (digit_of n) EmptyString
      else print_nat fuel (n / 10) +:+ String (digit_of (n mod 10)) EmptyString
  end.
(** Decimal form; one more digit than bits is always enough fuel. *)
Definition print_Z (z : Z) : string :=
  let p n := print_nat (S (Z.to_nat (Z.log2 n))) n in
  if z <? 0 then String "-" (p (- z)) else p z.

(** [Object.entries] of an object or array. *)
Definition own_entries (v : jsval) : list (string * jsval) :=
  match v with Obj fs => fs | Arr l => imap (λ i x, (print_Z (Z.of_nat i), x)) l | _ => [] end.
(** [{...a, ...b}] and [Object.assign(a, b)]. *)
Definition spread (a b : list (string * jsval)) : list (string * jsval) :=
  fold_left (λ acc kv, assoc_set kv.1 kv.2 acc) b a.

(** [String(v)]. *)
Fixpoint js_String (v : jsval) : string :=
  match v with
  | Undef => "undefined" | Null => "null"
  | Bool b => if b then "true" else "false"
  | Num (Fin n) => print_Z n | Num NaN => "NaN"
  | Num (Inf neg) => if neg then "-Infinity" else "Infinity"
  | Str s => s
  | Arr l => join "," (map (λ x, if nullish x then EmptyString else js_String x) l)
  | Obj _ => "[object Object]"
  end.

Definition hex_digit (n : Z) : ascii :=
  if n <? 10 then char_at (48 + n) else char_at (87 + n).
Definition escape_char (c : ascii) : string :=
  if code c =? 34 then "\" +:+ String c EmptyString
  else if code c =? 92 then "\\"
  else if code c =? 8 then "\b"
  else if code c =? 9 then "\t"
  else if code c =? 10 then "\n"
  else if code c =? 12 then "\f"
  else if code c =? 13 then "\r"
  else if code c <? 32 then
    "\u00" +:+ String (hex_digit (code c / 16))
                 (String (hex_digit (code c mod 16)) EmptyString)
  else String c EmptyString.
Definition DQ : ascii := char_at 34.
Fixpoint escape_string (s : string) : string :=
  match s with
  | EmptyString => EmptyString
  | String c s => escape_char c +:+ escape_string s
  end.
Definition stringify_string (s : string) : string :=
  String DQ (escape_string s +:+ String DQ EmptyString).

(** * Sorting object keys: [Object.keys(o).sort()] *)

Definition str_le (s t : string) : Prop := str_ltb t s = false.
#[global] Instance str_le_dec s t : Decision (str_le s t).
Proof. unfold str_le. apply _. Defined.
#[global] Instance str_le_trans : Transitive str_le.
Proof.
  intros s t u. unfold str_le. intros H1 H2.
  destruct (str_ltb u s) eqn:E; [|done].
  destruct (str_ltb s t) eqn:E2.
  - by rewrite (str_ltb_trans u s t) in H2.
  - pose proof (str_ltb_total _ _ E2 H1) as ->. congruence.
Qed.
#[global] Instance str_le_antisym : AntiSymm (=) str_le.
Proof. intros s t H1 H2. by apply str_ltb_total. Qed.
#[global] Instance str_le_total : Total str_le.
Proof.
  intros s t. unfold str_le. destruct (str_ltb t s) eqn:E; [right|by left].
  destruct (str_ltb s t) eqn:E2; [|done].
  pose proof (str_ltb_trans _ _ _ E E2) as H. by rewrite str_ltb_irrefl in H.
Qed.

Section sort_keys.
Context {A : Type}.
Definition key_le (x y : string * A) : Prop := str_le x.1 y.1.
#[global] Instance key_le_dec x y : Decision (key_le x y).
Proof. unfold key_le. apply _. Defined.
#[global] Instance key_le_trans : Transitive key_le.
Proof. intros x y z. unfold key_le. by apply transitivity. Qed.
#[global] Instance key_le_total : Total key_le.
Proof. intros x y. unfold key_le. apply (total str_le). Qed.
(** Insertion sort: stable, as [Array.prototype.sort] is. *)
Fixpoint insert_key (x : string * A) (l : list (string * A)) : list (string * A) :=
  match l with
  | [] => [x]
  | y :: l' => if decide (key_le x y) then x :: l else y :: insert_key x l'
  end.
Definition sort_keys (fs : list (string * A)) : list (string * A) :=
  foldr insert_key [] fs.

Lemma insert_key_perm x l : insert_key x l ≡ₚ x :: l.
Proof.
  induction l as [|y l IH]; simpl; [done|]. case_decide; [done|].
  rewrite IH. constructor.
Qed.
Lemma sort_keys_perm fs : sort_keys fs ≡ₚ fs.
Proof.
  induction fs as [|x fs IH]; simpl; [done|]. by rewrite insert_key_perm, IH.
Qed.
Lemma insert_key_sorted x l :
  StronglySorted key_le l → StronglySorted key_le (insert_key x l).
Proof.
  induction 1 as [|y l Hl IH Hy]; simpl; [by repeat constructor|].
  case_decide as E.
  - constructor; [by constructor|]. constructor; [done|].
    eapply Forall_impl; [exact Hy|]. intros z Hz. by transitivity y.
  - constructor; [done|]. rewrite insert_key_perm. constructor; [|done].
    destruct (total key_le x y); done.
Qed.
Lemma sort_keys_sorted fs : StronglySorted key_le (sort_keys fs).
Proof. induction fs; simpl; [constructor|by apply insert_key_sorted]. Qed.
Lemma sort_keys_fst_perm fs : (sort_keys fs).*1 ≡ₚ fs.*1.
Proof. by rewrite sort_keys_perm. Qed.

(** With distinct keys the sorted list depends on the set of pairs only. *)
Lemma sort_keys_unique fs1 fs2 :
  NoDup fs1.*1 → fs1 ≡ₚ fs2 → sort_keys fs1 = sort_keys fs2.
Proof.
  intros Hnd Hp. apply StronglySorted_unique_strong with key_le.
  - intros x1 x2 H1 H2 L1 L2. rewrite sort_keys_perm in H1.
    rewrite sort_keys_perm, <- Hp in H2.
    assert (x1.1 = x2.1) as E by (apply (anti_symm str_le); done).
    clear -Hnd H1 H2 E. induction fs1 as [|y fs1 IH]; [set_solver|].
    simpl in Hnd. apply NoDup_cons in Hnd as [Hy Hnd].
    rewrite elem_of_cons in H1, H2.
    assert (∀ z, z ∈ fs1 → z.1 = y.1 → False) as Hno.
    { intros z Hz Ez. apply Hy. rewrite <- Ez. by apply list_elem_of_fmap_2. }
    destruct H1 as [->|H1], H2 as [->|H2]; auto; exfalso; eauto.
  - apply sort_keys_sorted.
  - apply sort_keys_sorted.
  - by rewrite !sort_keys_perm, Hp.
Qed.
End sort_keys.

Definition map_vals {A B} (f : A → B) (fs : list (string * A)) : list (string * B) :=
  map (λ kv, (kv.1, f kv.2)) fs.

Lemma map_vals_fst {A B} (f : A → B) fs : (map_vals f fs).*1 = fs.*1.
Proof. induction fs as [|[k v] fs IH]; simpl; [done|]. by f_equal. Qed.
Lemma insert_key_map {A B} (f : A → B) x fs :
  insert_key (x.1, f x.2) (map_vals f fs) = map_vals f (insert_key x fs).
Proof.
  induction fs as [|y fs IH]; simpl; [done|].
  change (key_le (x.1, f x.2) (y.1, f y.2)) with (key_le x y).
  destruct (decide (key_le x y)) as [H|H];
    destruct (decide (key_le (x.1, f x.2) (y.1, f y.2))) as [H'|H']; try done.
  simpl. by rewrite IH.
Qed.
Lemma sort_keys_map {A B} (f : A → B) fs :
  sort_keys (map_vals f fs) = map_vals f (sort_keys fs).
Proof.
  induction fs as [|x fs IH]; simpl; [done|]. rewrite IH. apply insert_key_map.
Qed.

(** * Canonical serialization (canonical-json.cjs) *)

Inductive canon_error := UndefinedValue | NonFiniteNumber | NotPlainObject | Unserializable.
#[global] Instance canon_error_eq_dec : EqDecision canon_error.
Proof. solve_decision. Defined.

Definition entry_text (kv : string * result canon_error string)
  : result canon_error string :=
  s ← kv.2; Ok (stringify_string kv.1 +:+ ":" +:+ s).

Fixpoint serializeCanonical (v : jsval) : result canon_error string :=
  match v with
  | Undef => Err UndefinedValue
  | Null => Ok "null"
  | Bool b => Ok (if b then "true" else "false")
  | Num (Fin z) => Ok (print_Z z)
  | Num _ => Err NonFiniteNumber
  | Str s => Ok (stringify_string s)
  | Arr l =>
      items ← mapM serializeCanonical l;
      Ok ("[" +:+ join "," items +:+ "]")
  | Obj fs =>
      entries ← mapM entry_text
        (sort_keys (map_vals serializeCanonical fs));
      Ok ("{" +:+ join "," entries +:+ "}")
  end.

(** The top-level fields the canonical text covers.  The code copies them one
    by one into an empty object, where the assignment to [__proto__] makes no
    property: an object or an array becomes the prototype of the copy, which
    is then no plain object, and any other value is dropped. *)
Definition covered_key (k : string) : Prop := k ≠ "signature"%string ∧ k ≠ "__proto__"%string.
#[global] Instance covered_key_dec k : Decision (covered_key k).
Proof. unfold covered_key. apply _. Defined.
Definition covered (fs : list (string * jsval)) : list (string * jsval) :=
  filter (λ kv, covered_key kv.1) fs.
Definition sets_prototype (v : jsval) : bool :=
  match v with Obj _ | Arr _ => true | _ => false end.

Definition canonicalizeJobPayload (job : jsval) : result canon_error string :=
  match job with
  | Obj fs =>
      if sets_prototype (get "__proto__" job) then Err Unserializable
      else serializeCanonical (Obj (covered fs))
  | _ => Err NotPlainObject
  end.

(** * JSON text: the reader [JSON.parse] and its grammar *)

(** JSON white space. *)
Definition is_ws (c : ascii) : bool :=
  (code c =? 32) || (code c =? 9) || (code c =? 10) || (code c =? 13).
Definition skip_ws : string → string := drop_while is_ws.

Definition hex_value (c : ascii) : option Z :=
  if is_digit c then Some (code c - 48)
  else if in_range 97 102 c then Some (code c - 87)
  else if in_range 65 70 c then Some (code c - 55)
  else None.

(** The character a one-letter escape denotes. *)
Definition unescape (e : ascii) : option ascii :=
  if (code e =? 34) || (code e =? 92) || (code e =? 47) then Some e
  else if code e =? 98 then Some (char_at 8)
  else if code e =? 116 then Some (char_at 9)
  else if code e =? 110 then Some (char_at 10)
  else if code e =? 102 then Some (char_at 12)
  else if code e =? 114 then Some (char_at 13)
  else None.

(** A string body up to its closing quote (which is consumed).  An escape
    [\uXXXX] denotes a code unit; only those below 256 are in the model. *)
Fixpoint parse_str (s : string) : option (string * string) :=
  match s with
  | EmptyString => None
  | String c s1 =>
      if code c =? 34 then Some (EmptyString, s1)
      else if code c =? 92 then
        match s1 with
        | String e s2 =>
            if code e =? 117 then
              match s2 with
              | String h1 (String h2 (String h3 (String h4 s3))) =>
                  a ← hex_value h1; b ← hex_value h2; c ← hex_value h3; d ← hex_value h4;
                  if (a =? 0) && (b =? 0) then
                    r ← parse_str s3; Some (String (char_at (16 * c + d)) r.1, r.2)
                  else None
              | _ => None
              end
            else
              u ← unescape e; r ← parse_str s2; Some (String u r.1, r.2)
        | EmptyString => None
        end
      else if code c <? 32 then None
      else r ← parse_str s1; Some (String c r.1, r.2)
  end.

(** The maximal run of digits, folded into a value. *)
Fixpoint read_digits (acc : Z) (s : string) : Z * string :=
  match s with
  | String c s' =>
      if is_digit c then read_digits (acc * 10 + (code c - 48)) s' else (acc, s)
  | EmptyString => (acc, s)
  end.
(** What may not follow an integer token: a digit (leading zero), a fraction
    or an exponent; number tokens of the last two kinds are not integers of
    the model. *)
Definition after_int (s : string) : bool :=
  match s with
  | String c _ => negb (is_digit c || (code c =? 46) || (code c =? 101) || (code c =? 69))
  | EmptyString => true
  end.
Definition parse_digits (s : string) : option (Z * string) :=
  match s with
  | String c s' =>
      if is_digit c then
        let r := if code c =? 48 then (0, s') else read_digits 0 s in
        if after_int r.2 then Some r else None
      else None
  | EmptyString => None
  end.
Definition parse_num (s : string) : option (jsval * string) :=
  match s with
  | String c s' =>
      if code c =? 45 then r ← parse_digits s'; Some (Num (Fin (- r.1)), r.2)
      else r ← parse_digits s; Some (Num (Fin r.1), r.2)
  | EmptyString => None
  end.

(** [s] without the literal word [w], if it starts with it. *)
Definition strip (w s : string) : option string :=
  if startsWith w s then Some (sdrop (String.length w) s) else None.
Definition parse_word (s : string) : option (jsval * string) :=
  match strip "true" s with
  | Some r => Some (Bool true, r)
  | None =>
      match strip "false" s with
      | Some r => Some (Bool false, r)
      | None => r ← strip "null" s; Some (Null, r)
      end
  end.

Fixpoint parse_value (n : nat) (s : string) {struct n} : option (jsval * string) :=
  match n, s with
  | S n, String c s' =>
      if code c =? 123 then
        match expect "}" (skip_ws s') with
        | Some r => Some (Obj [], r)
        | None => parse_members n [] (skip_ws s')
        end
      else if code c =? 91 then
        match expect "]" (skip_ws s') with
        | Some r => Some (Arr [], r)
        | None => parse_elements n [] (skip_ws s')
        end
      else if code c =? 34 then r ← parse_str s'; Some (Str r.1, r.2)
      else if (code c =? 45) || is_digit c then parse_num s
      else parse_word s
  | _, _ => None
  end
with parse_members (n : nat) (acc : list (string * jsval)) (s : string) {struct n}
  : option (jsval * string) :=
  match n with
  | S n =>
      s ← expect DQ s;
      '(k, s) ← parse_str s;
      s ← expect ":" (skip_ws s);
      '(v, s) ← parse_value n (skip_ws s);
      let acc := assoc_set k v acc in
      match expect "," (skip_ws s) with
      | Some s => parse_members n acc (skip_ws s)
      | None => s ← expect "}" (skip_ws s); Some (Obj acc, s)
      end
  | O => None
  end
with parse_elements (n : nat) (acc : list jsval) (s : string) {struct n}
  : option (jsval * string) :=
  match n with
  | S n =>
      '(v, s) ← parse_value n s;
      let acc := acc ++ [v] in
      match expect "," (skip_ws s) with
      | Some s => parse_elements n acc (skip_ws s)
      | None => s ← expect "]" (skip_ws s); Some (Arr acc, s)
      end
  | O => None
  end.

Definition JSON_parse (s : string) : option jsval :=
  r ← parse_value (S (String.length s)) (skip_ws s);
  if bool_decide (skip_ws r.2 = EmptyString) then Some r.1 else None.

(** * Well-formed values and key order *)

(** No object has two properties of the same name. *)
Fixpoint wf (v : jsval) : Prop :=
  match v with
  | Arr l => foldr (λ v P, wf v ∧ P) True l
  | Obj fs => NoDup fs.*1 ∧ foldr (λ kv P, wf kv.2 ∧ P) True fs
  | _ => True
  end.

(** The value with every object's properties in key order: what two values
    have in common when they differ only in insertion order. *)
Fixpoint canon (v : jsval) : jsval :=
  match v with
  | Arr l => Arr (map canon l)
  | Obj fs => Obj (sort_keys (map_vals canon fs))
  | _ => v
  end.

Lemma wf_arr l : wf (Arr l) ↔ Forall wf l.
Proof. simpl. induction l; simpl; [by split|]. rewrite Forall_cons. by rewrite <- IHl. Qed.
Lemma wf_obj fs : wf (Obj fs) ↔ NoDup fs.*1 ∧ Forall (λ kv, wf kv.2) fs.
Proof.
  simpl. f_equiv. induction fs; simpl; [by split|]. rewrite Forall_cons. by rewrite <- IHfs.
Qed.

Lemma get_wf k v : wf v → wf (get k v).
Proof.
  destruct v as [| |b|n|t|l|fs]; try done. intros [_ Hw]%wf_obj. cbn [get].
  destruct (assoc_get k fs) as [v|] eqn:E; [|done]. cbn.
  induction Hw as [|[k' x] fs Hx Hw IH]; [done|]. cbn in E. case_decide; [by injection E as <-|by apply IH].
Qed.

(** * Reading back what the serializer prints *)

Lemma code_digit_of n : 0 <= n < 10 → code (digit_of n) = 48 + n.
Proof. intros. unfold digit_of. apply code_char_at. lia. Qed.
Lemma is_digit_of n : 0 <= n < 10 → is_digit (digit_of n) = true.
Proof.
  intros. unfold is_digit, in_range. rewrite code_digit_of by done.
  apply andb_true_intro; split; apply Z.leb_le; lia.
Qed.

Lemma read_digits_print fuel n :
  0 <= n < 2 ^ Z.of_nat fuel →
  ∃ k, 0 <= k ∧ ∀ acc rest, read_digits acc (print_nat fuel n +:+ rest)
                            = read_digits (acc * 10 ^ k + n) rest.
Proof.
  revert n. induction fuel as [|fuel IH]; intros n Hn.
  { exists 0. split; [done|]. intros. simpl in *. f_equal. lia. }
  simpl print_nat. destruct (n <? 10) eqn:E; split_bool.
  - exists 1. split; [done|]. intros acc rest. simpl.
    rewrite is_digit_of, code_digit_of by lia. f_equal. lia.
  - rewrite Nat2Z.inj_succ, Z.pow_succ_r in Hn by lia.
    destruct (IH (n / 10)) as (k & Hk0 & Hk).
    { split; [apply Z.div_pos; lia|apply Z.div_lt_upper_bound; lia]. }
    exists (k + 1). split; [lia|]. intros acc rest. rewrite <- sapp_assoc, Hk. simpl.
    pose proof (Z.mod_pos_bound n 10 ltac:(lia)).
    rewrite is_digit_of, code_digit_of by lia. f_equal.
    pose proof (Z.div_mod n 10 ltac:(lia)). rewrite Z.pow_add_r by lia. lia.
Qed.

Lemma read_digits_stop n rest : after_int rest = true → read_digits n rest = (n, rest).
Proof.
  destruct rest as [|c rest]; simpl; [done|]. by destruct (is_digit c).
Qed.

(** A number other than 0 prints without a leading zero. *)
Lemma print_nat_head fuel n :
  0 < n < 2 ^ Z.of_nat fuel →
  ∃ c s, print_nat fuel n = String c s ∧ is_digit c = true ∧ (code c =? 48) = false.
Proof.
  revert n. induction fuel as [|fuel IH]; intros n Hn; [simpl in Hn; lia|].
  simpl print_nat. destruct (n <? 10) eqn:E; split_bool.
  - eexists _, _. split; [done|]. rewrite is_digit_of, code_digit_of by lia.
    split; [done|]. apply Z.eqb_neq. lia.
  - rewrite Nat2Z.inj_succ, Z.pow_succ_r in Hn by lia.
    destruct (IH (n / 10)) as (c & s & -> & Hc).
    { split; [apply Z.div_str_pos; lia|apply Z.div_lt_upper_bound; lia]. }
    eexists _, _. split; [reflexivity|done].
Qed.

Lemma parse_digits_print n rest :
  0 <= n → after_int rest = true →
  parse_digits (print_nat (S (Z.to_nat (Z.log2 n))) n +:+ rest) = Some (n, rest).
Proof.
  intros Hn Hrest.
  assert (0 <= n < 2 ^ Z.of_nat (S (Z.to_nat (Z.log2 n)))) as Hb.
  { split; [done|]. rewrite Nat2Z.inj_succ, Z2Nat.id by apply Z.log2_nonneg.
    destruct (decide (n = 0)) as [->|]; [done|]. apply Z.log2_spec. lia. }
  destruct (decide (n = 0)) as [->|Hne].
  - simpl. rewrite Hrest. done.
  - destruct (read_digits_print _ n Hb) as (k & _ & Hk). specialize (Hk 0 rest).
    destruct (print_nat_head _ n ltac:(split; [lia|apply Hb])) as (c & s & E & Hc & Hc0).
    rewrite E in *. simpl in *. rewrite Hc, Hc0 in *. rewrite Hk.
    rewrite read_digits_stop by done. simpl. by rewrite Hrest.
Qed.

Lemma parse_num_print z rest :
  after_int rest = true → parse_num (print_Z z +:+ rest) = Some (Num (Fin z), rest).
Proof.
  intros Hrest. unfold print_Z. destruct (z <? 0) eqn:E; split_bool.
  - simpl. pose proof (parse_digits_print (- z) rest ltac:(lia) Hrest) as H.
    simpl in H. rewrite H. simpl. by rewrite Z.opp_involutive.
  - pose proof (parse_digits_print z rest ltac:(lia) Hrest) as H.
    unfold parse_num. destruct (print_nat _ z +:+ rest) as [|c s] eqn:Es; [done|].
    assert (code c =? 45 = false) as ->.
    { simpl in H. unfold is_digit, in_range in H.
      destruct (code c =? 45) eqn:Ec; [|done]. split_bool. rewrite Ec in H. done. }
    by rewrite H.
Qed.

Lemma parse_str_escape_char c t :
  parse_str (escape_char c +:+ t) = (r ← parse_str t; Some (String c r.1, r.2)).
Proof. destruct c as [[] [] [] [] [] [] [] []]; reflexivity. Qed.

Lemma parse_str_escape s t :
  parse_str (escape_string s +:+ String DQ t) = Some (s, t).
Proof.
  induction s as [|c s IH]; [done|].
  simpl escape_string. by rewrite <- sapp_assoc, parse_str_escape_char, IH.
Qed.

(** The first character of a serialized value. *)
Definition value_head (t : string) : bool :=
  match t with
  | String c _ =>
      negb (is_ws c) && negb (code c =? 93) && negb (code c =? 125) && negb (code c =? 44)
  | EmptyString => false
  end.

Lemma print_Z_head z :
  ∃ c s, print_Z z = String c s ∧ ((code c =? 45) || is_digit c) = true.
Proof.
  unfold print_Z. destruct (z <? 0) eqn:E; split_bool; [by eexists _, _|].
  destruct (decide (z = 0)) as [->|]; [by eexists _, _|].
  destruct (print_nat_head (S (Z.to_nat (Z.log2 z))) z) as (c & s & -> & Hd & _).
  - split; [lia|]. rewrite Nat2Z.inj_succ, Z2Nat.id by apply Z.log2_nonneg.
    apply Z.log2_spec. lia.
  - exists c, s. split; [done|]. rewrite Hd. apply orb_true_r.
Qed.

Lemma serialize_head v t : serializeCanonical v = Ok t → value_head t = true.
Proof.
  destruct v as [| |b|n|s|l|fs]; simpl; intros H; simplify_result; try done.
  - by destruct b.
  - destruct n as [z| |]; simplify_result.
    destruct (print_Z_head z) as (c & s & -> & Hc).
    apply orb_prop in Hc. unfold is_digit, in_range in Hc. simpl. unfold is_ws.
    repeat (apply andb_true_intro; split); apply negb_true_iff;
      repeat apply orb_false_intro; apply Z.eqb_neq;
      destruct Hc as [Hc|Hc]; split_bool; lia.
Qed.

Lemma skip_ws_head t rest : value_head t = true → skip_ws (t +:+ rest) = t +:+ rest.
Proof.
  destruct t as [|c t]; simpl; [done|]. intros H. split_bool.
  unfold skip_ws. simpl. by destruct (is_ws c).
Qed.

(** [reads_as t v]: whatever follows the text [t], the reader takes [t] and
    gives [v]. *)
Definition reads_as (t : string) (v : jsval) : Prop :=
  value_head t = true ∧
  ∀ n rest, (String.length t < n)%nat → after_int rest = true →
  parse_value n (t +:+ rest) = Some (v, rest).

Lemma skip_ws_nonws c s : is_ws c = false → skip_ws (String c s) = String c s.
Proof. unfold skip_ws. simpl. by intros ->. Qed.

Lemma join_cons d w ws : ws ≠ [] → join d (w :: ws) = w +:+ d +:+ join d ws.
Proof. by destruct ws. Qed.

Lemma value_head_app t u : value_head t = true → value_head (t +:+ u) = true.
Proof. by destruct t. Qed.
Lemma value_head_join d t ts : value_head t = true → value_head (join d (t :: ts)) = true.
Proof. intros H. destruct ts; [done|]. rewrite join_cons by done. by apply value_head_app. Qed.

(** ** Elements and members, from the texts of their values *)

Lemma parse_elements_texts ts vs : Forall2 reads_as ts vs → ts ≠ [] → ∀ n acc rest,
  (S (String.length (join "," ts)) < n)%nat →
  parse_elements n acc (join "," ts +:+ String "]" rest) = Some (Arr (acc ++ vs), rest).
Proof.
  induction 1 as [|t v ts vs [_ Hv] Hts IH]; [done|]. intros _ n acc rest Hn.
  destruct n as [|n]; [lia|].
  destruct Hts as [|t2 v2 ts vs [Hh2 _] _].
  - simpl in *. rewrite Hv by (lia || done). by simpl.
  - assert (value_head (join "," (t2 :: ts)) = true) as Hh by (by apply value_head_join).
    set (ts2 := t2 :: ts) in *. assert (ts2 ≠ []) as Hne by done. clearbody ts2.
    rewrite join_cons in * by done. rewrite !slength_app in Hn. simpl in Hn.
    rewrite <- !sapp_assoc. simpl parse_elements.
    rewrite Hv by (lia || done). cbn [mbind option_bind].
    change ("," +:+ ?s) with (String "," s).
    rewrite skip_ws_nonws, expect_eq by done.
    rewrite skip_ws_head by done.
    rewrite IH by (done || lia). by rewrite <- app_assoc.
Qed.

Definition member_text (kt : string * string) : string :=
  stringify_string kt.1 +:+ ":" +:+ kt.2.
Lemma parse_members_texts (kts : list (string * string)) kvs :
  Forall2 (λ kt kv, kt.1 = kv.1 ∧ reads_as kt.2 kv.2) kts kvs → NoDup kvs.*1 → kts ≠ [] →
  ∀ n acc rest, (S (String.length (join "," (map member_text kts))) < n)%nat →
  (∀ k, k ∈ kvs.*1 → k ∉ acc.*1) →
  parse_members n acc (join "," (map member_text kts) +:+ String "}" rest) =
  Some (Obj (acc ++ kvs), rest).
Proof.
  induction 1 as [|[k t] [k' v] kts kvs [Hk Hr] Hts IH]; [done|]. simpl in Hk, Hr. subst k'.
  destruct Hr as [Hth Hv]. intros [Hnk Hnd]%NoDup_cons _ n acc rest Hn Hacc.
  assert (k ∉ acc.*1) as Hka by (apply Hacc; simpl; left).
  destruct n as [|n]; [lia|]. specialize (Hv n).
  assert (∀ u, parse_members (S n) acc (member_text (k, t) +:+ u) =
    '(v', s) ← parse_value n (t +:+ u);
    match expect "," (skip_ws s) with
    | Some s => parse_members n (assoc_set k v' acc) (skip_ws s)
    | None => s ← expect "}" (skip_ws s); Some (Obj (assoc_set k v' acc), s)
    end) as Hstep.
  { intros u. unfold member_text, stringify_string. cbn [fst snd]. rewrite <- !sapp_assoc.
    cbn [parse_members String.append]. rewrite expect_eq. cbn [mbind option_bind].
    rewrite <- sapp_assoc. cbn [String.append]. rewrite parse_str_escape.
    cbn [mbind option_bind]. rewrite skip_ws_nonws, expect_eq by done.
    cbn [mbind option_bind]. by rewrite skip_ws_head. }
  assert (String.length t < String.length (member_text (k, t)))%nat as Hlen.
  { unfold member_text, stringify_string. simpl. rewrite !slength_app. simpl. lia. }
  destruct Hts as [|[k2 t2] [k2' v2] kts kvs [_ [Hh2 _]] Hts]; cbn [map] in *.
  - change (join "," [?x]) with x in *. rewrite Hstep.
    rewrite Hv by (done || lia). cbn [mbind option_bind].
    rewrite skip_ws_nonws, expect_eq by done. simpl. by rewrite assoc_set_fresh.
  - assert (value_head (join "," (member_text (k2, t2) :: map member_text kts)) = true) as Hh
      by (apply value_head_join; reflexivity).
    set (ts := member_text (k2, t2) :: map member_text kts) in *.
    assert (ts ≠ []) as Hne by done. clearbody ts.
    rewrite join_cons in * by done. rewrite !slength_app in Hn.
    change (String.length ",") with 1%nat in Hn.
    rewrite <- (sapp_assoc (member_text (k, t))), Hstep.
    rewrite <- sapp_assoc. rewrite Hv by (lia || done). cbn [mbind option_bind].
    change ("," +:+ ?s) with (String "," s).
    rewrite skip_ws_nonws, expect_eq by done.
    rewrite skip_ws_head by done.
    rewrite IH; [|done..|lia|].
    + rewrite assoc_set_fresh by done. by rewrite <- app_assoc.
    + rewrite assoc_set_fresh by done. intros k' Hk'.
      rewrite fmap_app, elem_of_app. intros [Hin|Hin].
      * eapply Hacc; [|exact Hin]. by right.
      * simpl in Hin. apply list_elem_of_singleton in Hin as ->. done.
Qed.

(** Arrays and objects are self-delimiting: they are read whatever follows. *)
Lemma parse_arr_texts ts vs : Forall2 reads_as ts vs → ∀ n rest,
  (S (S (String.length (join "," ts))) < n)%nat →
  parse_value n (("[" +:+ join "," ts +:+ "]") +:+ rest) = Some (Arr vs, rest).
Proof.
  intros H n rest Hn. destruct n as [|n]; [lia|].
  cbn [String.append parse_value]. rewrite <- sapp_assoc. cbn [String.append].
  change (code "[") with 91. simpl Z.eqb. cbv iota.
  destruct H as [|t v ts vs [Hh Hv] Hts].
  - change (join "," [] +:+ ?t) with t. rewrite skip_ws_nonws by done. by rewrite expect_eq.
  - assert (value_head (join "," (t :: ts)) = true) as Hj by (by apply value_head_join).
    rewrite skip_ws_head by done.
    assert (expect "]" (join "," (t :: ts) +:+ String "]" rest) = None) as ->.
    { destruct (join "," (t :: ts)) as [|c u]; [done|]. simpl in Hj |- *.
      case_bool_decide as Ec; [|done]. by subst c. }
    rewrite (parse_elements_texts (t :: ts) (v :: vs)); [done|by constructor|done|lia].
Qed.
Lemma parse_obj_texts kts kvs :
  Forall2 (λ kt kv, kt.1 = kv.1 ∧ reads_as kt.2 kv.2) kts kvs → NoDup kvs.*1 → ∀ n rest,
  (S (S (String.length (join "," (map member_text kts)))) < n)%nat →
  parse_value n (("{" +:+ join "," (map member_text kts) +:+ "}") +:+ rest) = Some (Obj kvs, rest).
Proof.
  intros H Hnd n rest Hn. destruct n as [|n]; [lia|].
  cbn [String.append parse_value]. rewrite <- sapp_assoc. cbn [String.append].
  change (code "{") with 123. simpl Z.eqb. cbv iota.
  destruct H as [|[k t] kv kts kvs Hkv Hts].
  - change (join "," (map member_text []) +:+ ?t) with t.
    rewrite skip_ws_nonws by done. by rewrite expect_eq.
  - assert (∃ w, join "," (map member_text ((k, t) :: kts)) = String DQ w) as [w Hw].
    { cbn [map]. destruct kts; cbn [map]; [by eexists|]. rewrite join_cons by done. by eexists. }
    rewrite Hw. cbn [String.append]. rewrite skip_ws_nonws by done.
    change (expect "}" (String DQ ?t)) with (@None string). cbv iota.
    change (String DQ (w +:+ ?t)) with (String DQ w +:+ t). rewrite <- Hw.
    rewrite (parse_members_texts ((k, t) :: kts) (kv :: kvs)); [done|by constructor|done|done|lia|set_solver].
Qed.

(** ** The leaves *)

Lemma reads_num z : reads_as (print_Z z) (Num (Fin z)).
Proof.
  split; [by apply (serialize_head (Num (Fin z)))|]. intros n rest Hn Hrest.
  destruct n as [|n]; [lia|].
  destruct (print_Z_head z) as (c & s & E & Hc).
  pose proof (parse_num_print z rest Hrest) as H. rewrite E in *. simpl.
  apply orb_prop in Hc as Hc'. unfold is_digit, in_range in Hc'.
  destruct (code c =? 123) eqn:E1; [split_bool; destruct Hc' as [?|?]; split_bool; lia|].
  destruct (code c =? 91) eqn:E2; [split_bool; destruct Hc' as [?|?]; split_bool; lia|].
  destruct (code c =? 34) eqn:E3; [split_bool; destruct Hc' as [?|?]; split_bool; lia|].
  by rewrite Hc.
Qed.
Lemma reads_str s : reads_as (stringify_string s) (Str s).
Proof.
  split; [done|]. intros n rest Hn Hrest. destruct n as [|n]; [lia|]. unfold stringify_string.
  cbn [String.append parse_value]. rewrite <- sapp_assoc. cbn [String.append].
  change (code DQ) with 34. cbv iota. simpl Z.eqb. cbv iota.
  rewrite parse_str_escape. done.
Qed.
Lemma reads_bool (b : bool) : reads_as (if b then "true" else "false") (Bool b).
Proof. split; [by destruct b|]. intros [|n] rest Hn _; [lia|]. by destruct b. Qed.
Lemma reads_null : reads_as "null" Null.
Proof. split; [done|]. intros [|n] rest Hn _; [lia|]. done. Qed.

(** The reader of a text that [reads_as] a value is [JSON.parse]. *)
Lemma JSON_parse_reads t v : reads_as t v → JSON_parse t = Some v.
Proof.
  intros [Hh Hr]. unfold JSON_parse. rewrite <- (sapp_nil_r t) at 2.
  rewrite skip_ws_head by done. by rewrite Hr by (done || lia).
Qed.

Lemma startsWith_strip w t : strip w (w +:+ t) = Some t.
Proof. unfold strip. by rewrite startsWith_app, sdrop_app. Qed.

Lemma Forall_map_vals {A B} (P : B → Prop) (f : A → B) fs :
  Forall (λ kv, P kv.2) (map_vals f fs) ↔ Forall (λ kv, P (f kv.2)) fs.
Proof. unfold map_vals. by rewrite Forall_fmap. Qed.

Lemma entry_text_ok kr e :
  entry_text kr = Ok e → ∃ s, kr.2 = Ok s ∧ e = member_text (kr.1, s).
Proof. unfold entry_text. intros H. simplify_result. eauto. Qed.

(** [reads v]: the reader recovers [v] (up to key order) from its canonical
    text. *)
Definition reads (v : jsval) : Prop :=
  wf v → ∀ t, serializeCanonical v = Ok t → reads_as t (canon v).

Lemma elements_texts l ts : Forall reads l → Forall wf l → mapM serializeCanonical l = Ok ts →
  Forall2 reads_as ts (map canon l).
Proof.
  intros Hr. revert ts. induction Hr as [|v l Hv _ IH]; intros ts Hw Ht.
  - apply mapM_nil_ok in Ht as ->. constructor.
  - apply Forall_cons in Hw as [Hwv Hw]. apply mapM_cons_ok in Ht as (t & ts' & Ht & Hts & ->).
    constructor; [by apply Hv|by apply IH].
Qed.
Lemma members_texts fs es : Forall (λ kv, reads kv.2) fs → Forall (λ kv, wf kv.2) fs →
  mapM entry_text (map_vals serializeCanonical fs) = Ok es →
  ∃ kts, es = map member_text kts ∧
    Forall2 (λ kt kv, kt.1 = kv.1 ∧ reads_as kt.2 kv.2) kts (map_vals canon fs).
Proof.
  intros Hr. revert es. induction Hr as [|[k v] fs Hv _ IH]; intros es Hw He.
  - apply mapM_nil_ok in He as ->. exists []. split; [done|constructor].
  - apply Forall_cons in Hw as [Hwv Hw]. apply mapM_cons_ok in He as (e & es' & He & Hes & ->).
    apply entry_text_ok in He as (t & Ht & ->). destruct (IH es' Hw Hes) as (kts & -> & Hk).
    exists ((k, t) :: kts). split; [done|]. constructor; [|done]. split; [done|]. by apply Hv.
Qed.

Lemma reads_obj fs :
  Forall (λ kv, reads kv.2) fs → wf (Obj fs) →
  ∀ t, serializeCanonical (Obj fs) = Ok t →
  ∀ n rest, (String.length t < n)%nat →
  parse_value n (t +:+ rest) = Some (canon (Obj fs), rest).
Proof.
  intros IH Hwf t Ht n rest Hn.
  simpl in Ht. simplify_result. rename x into es, H into He.
  apply wf_obj in Hwf as [Hnd Hwf]. simpl in Hn. rewrite slength_app in Hn. simpl in Hn.
  rewrite sort_keys_map in He. cbn [canon]. rewrite sort_keys_map.
  rewrite <- (sort_keys_perm fs) in IH, Hwf.
  rewrite <- (sort_keys_fst_perm fs), <- (map_vals_fst canon) in Hnd.
  destruct (members_texts _ _ IH Hwf He) as (kts & -> & Hk).
  apply parse_obj_texts; [done|done|lia].
Qed.

(** The reader recovers every well-formed value from its canonical text. *)
Lemma reads_all v : reads v.
Proof.
  induction v as [| |b|num|s|l IH|fs IH] using jsval_ind'; intros Hwf t Ht.
  - done.
  - simpl in Ht. simplify_eq. apply reads_null.
  - simpl in Ht. simplify_eq. apply reads_bool.
  - destruct num as [z| |]; try done. simpl in Ht. injection Ht as <-. apply reads_num.
  - simpl in Ht. injection Ht as <-. apply reads_str.
  - split; [by eapply serialize_head|]. intros n rest Hn _.
    simpl in Ht. simplify_result. rename x into items, H into Hi.
    apply wf_arr in Hwf. simpl in Hn. rewrite slength_app in Hn. simpl in Hn.
    apply parse_arr_texts; [by apply elements_texts|lia].
  - split; [by eapply serialize_head|]. intros n rest Hn _. by apply reads_obj.
Qed.

(** [JSON.parse] of the canonical text is the value, keys in order. *)
Lemma JSON_parse_serialize v t :
  wf v → serializeCanonical v = Ok t → JSON_parse t = Some (canon v).
Proof. intros Hwf Ht. by apply JSON_parse_reads, reads_all. Qed.

Lemma serialize_inj v1 v2 t :
  wf v1 → wf v2 → serializeCanonical v1 = Ok t → serializeCanonical v2 = Ok t →
  canon v1 = canon v2.
Proof.
  intros Hw1 Hw2 H1 H2. apply (JSON_parse_serialize _ _ Hw1) in H1.
  apply (JSON_parse_serialize _ _ Hw2) in H2. congruence.
Qed.

Lemma insert_key_le {A} (x : string * A) l :
  Forall (key_le x) l → insert_key x l = x :: l.
Proof.
  destruct l as [|y l]; [done|]. intros [Hy _]%Forall_cons. simpl.
  by rewrite decide_True.
Qed.
Lemma sort_keys_id {A} (l : list (string * A)) :
  StronglySorted key_le l → sort_keys l = l.
Proof.
  induction 1 as [|x l Hl IH Hx]; [done|]. simpl. rewrite IH. by apply insert_key_le.
Qed.

Lemma map_vals_compose {A B C} (f : A → B) (g : B → C) fs :
  map_vals g (map_vals f fs) = map_vals (λ v, g (f v)) fs.
Proof. unfold map_vals. by rewrite map_map. Qed.
Lemma map_vals_ext {A B} (f g : A → B) fs :
  Forall (λ kv, f kv.2 = g kv.2) fs → map_vals f fs = map_vals g fs.
Proof. induction 1 as [|[k v] fs H _ IH]; simpl in *; [done|]. by rewrite H, IH. Qed.
Lemma mapM_ext_Forall {E A B} (f g : A → result E B) l :
  Forall (λ x, f x = g x) l → mapM f l = mapM g l.
Proof. induction 1 as [|x l H _ IH]; simpl; [done|]. by rewrite H, IH. Qed.
Lemma mapM_map {E A B C} (f : A → B) (g : B → result E C) l :
  mapM g (map f l) = mapM (λ x, g (f x)) l.
Proof. induction l as [|x l IH]; simpl; [done|]. by rewrite IH. Qed.

(** The text depends on the value up to key order only. *)
Lemma serialize_canon v : serializeCanonical (canon v) = serializeCanonical v.
Proof.
  induction v as [| |b|num|s|l IH|fs IH] using jsval_ind'; try done.
  - simpl. rewrite mapM_map. by rewrite (mapM_ext_Forall _ _ _ IH).
  - cbn [canon serializeCanonical]. rewrite (sort_keys_map canon fs), sort_keys_map.
    rewrite (sort_keys_id (map_vals canon _)), map_vals_compose, sort_keys_map.
    + do 2 f_equal. apply map_vals_ext. by rewrite sort_keys_perm.
    + rewrite <- sort_keys_map. apply sort_keys_sorted.
Qed.

(** Association lists with distinct keys, as sets of properties. *)
Lemma assoc_get_perm (fs1 fs2 : list (string * jsval)) :
  NoDup fs1.*1 → NoDup fs2.*1 →
  fs1 ≡ₚ fs2 ↔ ∀ k, assoc_get k fs1 = assoc_get k fs2.
Proof.
  intros Hnd1 Hnd2. split.
  - intros Hp k. apply option_eq. intros v.
    rewrite !assoc_get_Some_NoDup by done. by rewrite Hp.
  - intros H. apply NoDup_Permutation.
    + by eapply NoDup_fmap_1.
    + by eapply NoDup_fmap_1.
    + intros [k v]. rewrite <- !assoc_get_Some_NoDup by done. by rewrite H.
Qed.
Lemma assoc_get_map_vals (f : jsval → jsval) k fs :
  assoc_get k (map_vals f fs) = f <$> assoc_get k fs.
Proof. induction fs as [|[k' v] fs IH]; simpl; [done|]. by case_decide. Qed.
Lemma assoc_get_filter (P : string → Prop) `{∀ k, Decision (P k)} k fs :
  assoc_get k (filter (λ kv : string * jsval, P kv.1) fs) =
  if decide (P k) then assoc_get k fs else None.
Proof.
  induction fs as [|[k' v] fs IH]; simpl; [by case_decide|].
  rewrite filter_cons. simpl. destruct (decide (P k')) as [Hk'|Hk']; simpl; rewrite IH;
    repeat case_decide; subst; done.
Qed.

Lemma NoDup_fst_filter (P : string → Prop) `{∀ k, Decision (P k)} (fs : list (string * jsval)) :
  NoDup fs.*1 → NoDup (filter (λ kv : string * jsval, P kv.1) fs).*1.
Proof.
  induction fs as [|[k v] fs IH]; simpl; [done|].
  intros [Hk Hnd]%NoDup_cons. rewrite filter_cons. simpl. case_decide; simpl; [|by apply IH].
  apply NoDup_cons. split; [|by apply IH].
  intros ([k' v'] & -> & [_ Hin]%list_elem_of_filter)%list_elem_of_fmap.
  apply Hk. by apply (list_elem_of_fmap_2 fst) in Hin.
Qed.

Lemma canon_obj_eq (fs1 fs2 : list (string * jsval)) :
  NoDup fs1.*1 → NoDup fs2.*1 →
  canon (Obj fs1) = canon (Obj fs2) ↔
  ∀ k, canon <$> assoc_get k fs1 = canon <$> assoc_get k fs2.
Proof.
  intros Hnd1 Hnd2. cbn [canon].
  setoid_rewrite <- (assoc_get_map_vals canon).
  rewrite <- assoc_get_perm by (by rewrite map_vals_fst). split.
  - intros [= E]. by rewrite <- (sort_keys_perm (map_vals canon fs1)), E, sort_keys_perm.
  - intros Hp. f_equal. apply sort_keys_unique; [by rewrite map_vals_fst|done].
Qed.

Lemma covered_wf fs : wf (Obj fs) → wf (Obj (covered fs)).
Proof.
  rewrite !wf_obj. intros [Hnd Hw]. split; [by apply (NoDup_fst_filter covered_key)|].
  rewrite Forall_forall in *. intros kv [_ Hin]%list_elem_of_filter. by apply Hw.
Qed.
Lemma assoc_get_covered k fs : covered_key k → assoc_get k (covered fs) = assoc_get k fs.
Proof. intros Hk. unfold covered. by rewrite (assoc_get_filter covered_key), decide_True. Qed.
Lemma canonicalize_ok fs t : canonicalizeJobPayload (Obj fs) = Ok t →
  sets_prototype (get "__proto__" (Obj fs)) = false ∧ serializeCanonical (Obj (covered fs)) = Ok t.
Proof. unfold canonicalizeJobPayload. by destruct (sets_prototype _). Qed.

(** Signing covers exactly the fields other than the top-level [signature]
    and [__proto__]: a second job has the same signed bytes iff it agrees with
    the first on every other field, up to key order inside the values, and
    its [__proto__] is no object or array. *)
Lemma canonicalizeJobPayload_covers fs1 fs2 t :
  wf (Obj fs1) → wf (Obj fs2) →
  canonicalizeJobPayload (Obj fs1) = Ok t →
  canonicalizeJobPayload (Obj fs2) = Ok t ↔
  sets_prototype (get "__proto__" (Obj fs2)) = false ∧
  ∀ k, covered_key k → canon <$> assoc_get k fs1 = canon <$> assoc_get k fs2.
Proof.
  intros Hw1 Hw2 [_ H1]%canonicalize_ok.
  pose proof (covered_wf _ Hw1) as Hc1. pose proof (covered_wf _ Hw2) as Hc2.
  assert (canon (Obj (covered fs1)) = canon (Obj (covered fs2)) ↔
    ∀ k, covered_key k → canon <$> assoc_get k fs1 = canon <$> assoc_get k fs2) as <-.
  { pose proof (proj1 (wf_obj _) Hc1) as [Hn1 _]. pose proof (proj1 (wf_obj _) Hc2) as [Hn2 _].
    rewrite canon_obj_eq by done. apply forall_proper. intros k. unfold covered.
    rewrite !(assoc_get_filter covered_key). case_decide; naive_solver. }
  split.
  - intros [Hp H2]%canonicalize_ok. split; [done|]. by eapply serialize_inj; [..|exact H1|exact H2].
  - intros [Hp E]. unfold canonicalizeJobPayload. rewrite Hp.
    by rewrite <- serialize_canon, <- E, serialize_canon.
Qed.

(** * [JSON.stringify] of a value *)

(** [undefined] is the text [null] inside an array and drops a property;
    a number that is not finite is [null]. *)
Fixpoint JSON_stringify (v : jsval) : string :=
  match v with
  | Undef | Null | Num NaN | Num (Inf _) => "null"
  | Bool b => if b then "true" else "false"
  | Num (Fin z) => print_Z z
  | Str s => stringify_string s
  | Arr l => "[" +:+ join "," (map JSON_stringify l) +:+ "]"
  | Obj fs =>
      "{" +:+ join "," ((fix members (fs : list (string * jsval)) : list string :=
        match fs with
        | [] => []
        | (_, Undef) :: fs => members fs
        | (k, x) :: fs => member_text (k, JSON_stringify x) :: members fs
        end) fs) +:+ "}"
  end.
(** The value that [JSON.parse] reads back: what the text keeps. *)
Fixpoint jsonify (v : jsval) : jsval :=
  match v with
  | Undef | Null | Num NaN | Num (Inf _) => Null
  | Bool _ | Num (Fin _) | Str _ => v
  | Arr l => Arr (map jsonify l)
  | Obj fs =>
      Obj ((fix members (fs : list (string * jsval)) : list (string * jsval) :=
        match fs with
        | [] => []
        | (_, Undef) :: fs => members fs
        | (k, x) :: fs => (k, jsonify x) :: members fs
        end) fs)
  end.
Definition kept (kv : string * jsval) : bool := match kv.2 with Undef => false | _ => true end.

Lemma stringify_obj fs : JSON_stringify (Obj fs) =
  "{" +:+ join "," (map member_text (map_vals JSON_stringify (List.filter kept fs))) +:+ "}".
Proof.
  cbn [JSON_stringify]. apply (f_equal (λ l, "{" +:+ join "," l +:+ "}")).
  induction fs as [|[k x] fs IH]; [done|].
  destruct x; first [exact IH|exact (f_equal (cons _) IH)].
Qed.
Lemma jsonify_obj fs : jsonify (Obj fs) = Obj (map_vals jsonify (List.filter kept fs)).
Proof.
  cbn [jsonify]. apply (f_equal Obj).
  induction fs as [|[k x] fs IH]; [done|].
  destruct x; first [exact IH|exact (f_equal (cons _) IH)].
Qed.
Lemma filter_sublist_fst {A B} (f : A * B → bool) l : sublist (List.filter f l).*1 l.*1.
Proof.
  induction l as [|x l IH]; [constructor|]. cbn. destruct (f x); cbn; by constructor.
Qed.

(** [JSON.parse] reads what [JSON.stringify] printed. *)
Lemma reads_stringify v : wf v → reads_as (JSON_stringify v) (jsonify v).
Proof.
  induction v as [| |b|num|s|l IH|fs IH] using jsval_ind'; intros Hwf.
  - apply reads_null.
  - apply reads_null.
  - apply reads_bool.
  - destruct num; [apply reads_num|apply reads_null..].
  - apply reads_str.
  - apply wf_arr in Hwf. cbn [JSON_stringify jsonify]. split; [done|]. intros n rest Hn _.
    cbn in Hn. rewrite slength_app in Hn. cbn in Hn. apply parse_arr_texts; [|lia].
    clear -IH Hwf. induction IH as [|v l Hv _ IH]; [constructor|].
    apply Forall_cons in Hwf as [Hwv Hwf]. constructor; auto.
  - apply wf_obj in Hwf as [Hnd Hwf]. rewrite stringify_obj, jsonify_obj.
    split; [done|]. intros n rest Hn _.
    cbn in Hn. rewrite slength_app in Hn. cbn in Hn. apply parse_obj_texts; [| |lia].
    + clear -IH Hwf. induction IH as [|[k v] fs Hv _ IH]; [constructor|].
      apply Forall_cons in Hwf as [Hwv Hwf]. cbn. destruct (kept (k, v)); cbn; [|by apply IH].
      constructor; [|by apply IH]. split; [done|by apply Hv].
    + rewrite map_vals_fst. by eapply sublist_NoDup; [|apply filter_sublist_fst].
Qed.
Lemma JSON_parse_stringify v : wf v → JSON_parse (JSON_stringify v) = Some (jsonify v).
Proof. intros Hwf. by apply JSON_parse_reads, reads_stringify. Qed.
Lemma stringify_inj v1 v2 :
  wf v1 → wf v2 → JSON_stringify v1 = JSON_stringify v2 → jsonify v1 = jsonify v2.
Proof.
  intros H1 H2 E. apply JSON_parse_stringify in H1, H2. rewrite E in H1. congruence.
Qed.
