(* ===== verification/Signing.v ===== *)
(** Signed dispatch, agent side: packages/agent/src/signing/index.js.

    Models the v2 envelope's canonical base64, the single-value JSON scanner,
    the structural field checks, v1/v2 signature verification, the validity
    window and the agent-id binding.  Bytes are strings of code units below
    256.  Node's crypto is a parameter of the section: [createPublicKey]
    ([None]: unparseable PEM) and [crypto_verify] ([None]: it throws);
    [Date.parse] is the interface [DateParse]. *)
From S2P Require Import Prelude Dates Json.
Open Scope Z_scope.

(** * Base64 ([Buffer.from(s, "base64")] and [toString("base64")]) *)

Definition is_b64 (c : ascii) : bool :=
  is_alnum c || (code c =? 43) || (code c =? 47).
Definition is_eq (c : ascii) : bool := code c =? 61.

Definition b64_char (n : Z) : ascii :=
  if n <? 26 then char_at (65 + n)
  else if n <? 52 then char_at (71 + n)
  else if n <? 62 then char_at (n - 4)
  else if n =? 62 then char_at 43 else char_at 47.
Definition b64_value (c : ascii) : Z :=
  if is_upper_az c then code c - 65
  else if is_lower_az c then code c - 71
  else if is_digit c then code c + 4
  else if code c =? 43 then 62 else 63.

Fixpoint b64_encode (s : string) : string :=
  match s with
  | String a (String b (String c s)) =>
      let n := code a * 65536 + code b * 256 + code c in
      String (b64_char (n / 262144)) (String (b64_char (n / 4096 mod 64))
        (String (b64_char (n / 64 mod 64)) (String (b64_char (n mod 64)) (b64_encode s))))
  | String a (String b EmptyString) =>
      let n := code a * 65536 + code b * 256 in
      String (b64_char (n / 262144)) (String (b64_char (n / 4096 mod 64))
        (String (b64_char (n / 64 mod 64)) "="))
  | String a EmptyString =>
      let n := code a * 65536 in
      String (b64_char (n / 262144)) (String (b64_char (n / 4096 mod 64)) "==")
  | EmptyString => EmptyString
  end.

(** The decoder on alphabet characters: groups of four, then a group of three
    or two without its low bits, then a lone character that decodes to
    nothing. *)
Fixpoint b64_decode_chars (s : string) : string :=
  match s with
  | String a (String b (String c (String d s))) =>
      let n := b64_value a * 262144 + b64_value b * 4096 + b64_value c * 64 + b64_value d in
      String (char_at (n / 65536)) (String (char_at (n / 256 mod 256))
        (String (char_at (n mod 256)) (b64_decode_chars s)))
  | String a (String b (String c EmptyString)) =>
      let n := b64_value a * 262144 + b64_value b * 4096 + b64_value c * 64 in
      String (char_at (n / 65536)) (String (char_at (n / 256 mod 256)) EmptyString)
  | String a (String b EmptyString) =>
      let n := b64_value a * 262144 + b64_value b * 4096 in
      String (char_at (n / 65536)) EmptyString
  | _ => EmptyString
  end.
(** Padding ends the data. *)
Definition b64_decode (s : string) : string :=
  b64_decode_chars (drop_end is_eq s).

(** [/^[A-Za-z0-9+/]*={0,2}$/] and its [+] variant. *)
Definition V2_BASE64_PATTERN (s : string) : bool :=
  let p := drop_end is_eq s in sforall is_b64 p && (slen s - slen p <=? 2).
Definition BASE64_PATTERN (s : string) : bool :=
  V2_BASE64_PATTERN s && (1 <=? slen (drop_end is_eq s)).

Definition decodeCanonicalBase64 (value : string) : option string :=
  let decoded := b64_decode value in
  if bool_decide (b64_encode decoded = value) then Some decoded else None.

(** * The strict single-value scanner

    The source's index [i] into [text] is the remaining suffix here; a
    successful scan returns the suffix after the value. *)

Fixpoint scan_string_body (s : string) : option string :=
  match s with
  | EmptyString => None
  | String c s1 =>
      if code c =? 34 then Some s1
      else if code c =? 92 then
        match s1 with String _ s2 => scan_string_body s2 | EmptyString => None end
      else scan_string_body s1
  end.

Definition skip_digits : string → string := drop_while is_digit.
(** At least one digit, then the maximal run. *)
Definition scan_digits1 (s : string) : option string :=
  match s with
  | String c _ => if is_digit c then Some (skip_digits s) else None
  | EmptyString => None
  end.
Definition scan_number (s : string) : option string :=
  let s := match s with String c r => if code c =? 45 then r else s | _ => s end in
  s ← scan_digits1 s;
  s ← match s with
      | String c r => if code c =? 46 then scan_digits1 r else Some s
      | EmptyString => Some s
      end;
  match s with
  | String c r =>
      if (code c =? 101) || (code c =? 69) then
        scan_digits1
          match r with
          | String d r' => if (code d =? 43) || (code d =? 45) then r' else r
          | EmptyString => r
          end
      else Some s
  | EmptyString => Some s
  end.

Definition scan_word (s : string) : option string :=
  match strip "true" s with
  | Some r => Some r
  | None => match strip "false" s with Some r => Some r | None => strip "null" s end
  end.

Fixpoint scan_value (n : nat) (s : string) {struct n} : option string :=
  match n, s with
  | S n, String c r =>
      if code c =? 123 then
        match expect "}" (skip_ws r) with
        | Some r => Some r
        | None => scan_object n (skip_ws r)
        end
      else if code c =? 91 then
        match expect "]" (skip_ws r) with
        | Some r => Some r
        | None => scan_array n (skip_ws r)
        end
      else if code c =? 34 then scan_string_body r
      else if (code c =? 45) || is_digit c then scan_number s
      else scan_word s
  | _, _ => None
  end
with scan_object (n : nat) (s : string) {struct n} : option string :=
  match n with
  | S n =>
      s ← expect DQ s;
      s ← scan_string_body s;
      s ← expect ":" (skip_ws s);
      s ← scan_value n (skip_ws s);
      match expect "," (skip_ws s) with
      | Some s => scan_object n (skip_ws s)
      | None => expect "}" (skip_ws s)
      end
  | O => None
  end
with scan_array (n : nat) (s : string) {struct n} : option string :=
  match n with
  | S n =>
      s ← scan_value n s;
      match expect "," (skip_ws s) with
      | Some s => scan_array n (skip_ws s)
      | None => expect "]" (skip_ws s)
      end
  | O => None
  end.

(** Index one past the first value, -1 if there is none. *)
Definition scanSingleJsonValueEnd (text : string) : Z :=
  match scan_value (S (String.length text)) text with
  | Some r => slen text - slen r
  | None => -1
  end.

Inductive parse_error := TrailingContent | JsonSyntax.
#[global] Instance parse_error_eq_dec : EqDecision parse_error.
Proof. solve_decision. Defined.

Definition parseSingleJsonValueStrict (text : string) : result parse_error jsval :=
  if scanSingleJsonValueEnd text =? slen text then
    match JSON_parse text with Some v => Ok v | None => Err JsonSyntax end
  else Err TrailingContent.

(** * UTF-8 on code units below 256 *)

Fixpoint utf8_encode (s : string) : string :=
  match s with
  | EmptyString => EmptyString
  | String c s =>
      if code c <? 128 then String c (utf8_encode s)
      else String (char_at (192 + code c / 64))
             (String (char_at (128 + code c mod 64)) (utf8_encode s))
  end.
(** The fatal [TextDecoder]; sequences denoting a code point above 255 fall
    outside the modelled strings. *)
Fixpoint utf8_decode (s : string) : option string :=
  match s with
  | EmptyString => Some EmptyString
  | String b s1 =>
      if code b <? 128 then r ← utf8_decode s1; Some (String b r)
      else if in_range 194 195 b then
        match s1 with
        | String b2 s2 =>
            if in_range 128 191 b2 then
              r ← utf8_decode s2;
              Some (String (char_at ((code b - 192) * 64 + (code b2 - 128))) r)
            else None
        | EmptyString => None
        end
      else None
  end.
Definition UTF8_BOM_BYTES : string :=
  String (char_at 239) (String (char_at 187) (String (char_at 191) EmptyString)).

(** * Constants and reasons *)

Definition ENVELOPE_VERSION_1 : Z := 1.
Definition ENVELOPE_VERSION_2 : Z := 2.
Definition V2_MAX_ENCODED_PAYLOAD_CHARS : Z := 98304.
Definition V2_MAX_DECODED_PAYLOAD_BYTES : Z := 49152.
Definition V2_SIGNATURE_DECODED_BYTES : Z := 64.
Definition DEFAULT_TIME_WINDOW_TOLERANCE_MS : Z := 30000.
Definition SIGNATURE_LENGTH_MIN : Z := 64.
Definition SIGNATURE_LENGTH_MAX : Z := 1024.
Definition SIGNING_KEY_ID_PATTERN : string → bool := matches_class is_ident_char 1 128.
Definition NONCE_PATTERN : string → bool := matches_class is_ident_char 16 128.

Definition JOB_INTEGRITY_FAILED : string := "job_integrity_failed".
Definition CLOCK_DRIFT_SUSPECTED : string := "clock_drift_suspected".
Definition AGENT_ID_MISMATCH : string := "agent_id_mismatch".
Definition AGENT_ID_REQUIRED_BUT_MISSING : string := "agent_id_required_but_missing".

(** Misconfiguration the module answers with a thrown error. *)
Inductive signing_error :=
| MissingPublicKey | MissingPinnedKeyId | UnparseablePublicKey
| NonFiniteNow | BadTolerance | MissingBoundAgentId.

Definition nonempty (s : string) : bool := negb (bool_decide (s = EmptyString)).

(** An accepted job, or the reason of the rejection. *)
Definition job_verdict : Type := result string jsval.

Section signing.
Context {dp : DateParse} {key : Type}
  (createPublicKey : string → option key)
  (crypto_verify : key → string → string → option bool).

Definition date_ok (v : jsval) : bool :=
  match v with Str s => bool_decide (is_Some (date_parse s)) | _ => false end.
Definition str_matches (p : string → bool) (v : jsval) : bool :=
  match v with Str s => p s | _ => false end.

Definition signature_ok (s : string) : bool :=
  (SIGNATURE_LENGTH_MIN <=? slen s) && (slen s <=? SIGNATURE_LENGTH_MAX)
  && BASE64_PATTERN s.

(** [true]: some signed field is missing or malformed. *)
Definition findSignedFieldProblem (job : jsval) : bool :=
  negb (isPlainObject job) ||
  negb (str_matches signature_ok (get "signature" job)) ||
  negb (str_matches SIGNING_KEY_ID_PATTERN (get "signingKeyId" job)) ||
  negb (str_matches NONCE_PATTERN (get "nonce" job)) ||
  negb (date_ok (get "issuedAt" job)) ||
  negb (date_ok (get "expiresAt" job)).

Definition is_str_eq (s : string) (v : jsval) : bool := str_matches (λ t, bool_decide (t = s)) v.
Definition str_or_empty (v : jsval) : string := match v with Str s => s | _ => EmptyString end.

(** Checks run on untrusted input, in order; [Some reason] stops. *)
Definition verifyJobSignature (job : jsval) (publicKeyPem pinnedSigningKeyId : string)
  : result signing_error verdict :=
  _ ← ensure (nonempty publicKeyPem) MissingPublicKey;
  _ ← ensure (nonempty pinnedSigningKeyId) MissingPinnedKeyId;
  if findSignedFieldProblem job then Ok (Rejected JOB_INTEGRITY_FAILED) else
  if negb (is_str_eq pinnedSigningKeyId (get "signingKeyId" job)) then
    Ok (Rejected JOB_INTEGRITY_FAILED) else
  match createPublicKey publicKeyPem with
  | None => Err UnparseablePublicKey
  | Some publicKey =>
      match canonicalizeJobPayload job with
      | Err _ => Ok (Rejected JOB_INTEGRITY_FAILED)
      | Ok text =>
          match crypto_verify publicKey (utf8_encode text)
                  (b64_decode (str_or_empty (get "signature" job))) with
          | Some true => Ok Allowed
          | _ => Ok (Rejected JOB_INTEGRITY_FAILED)
          end
      end
  end.

(** The checks of a v2 envelope up to its decoded bytes: the payload and
    signature bytes, or [None] for a rejection. *)
Definition decodeV2Envelope (envelope : jsval) (pinnedSigningKeyId : string)
  : option (string * string) :=
  let payloadB64 := get "payloadB64" envelope in
  let signatureB64 := get "signatureB64" envelope in
  if negb (isPlainObject envelope) then None else
  if negb (str_matches SIGNING_KEY_ID_PATTERN (get "signingKeyId" envelope)) then None else
  if negb (is_str_eq pinnedSigningKeyId (get "signingKeyId" envelope)) then None else
  if negb (str_matches (λ s, nonempty s && (slen s <=? V2_MAX_ENCODED_PAYLOAD_CHARS)
                             && V2_BASE64_PATTERN s) payloadB64) then None else
  if negb (str_matches (λ s, nonempty s && V2_BASE64_PATTERN s) signatureB64) then None else
  payloadBytes ← decodeCanonicalBase64 (str_or_empty payloadB64);
  signatureBytes ← decodeCanonicalBase64 (str_or_empty signatureB64);
  if V2_MAX_DECODED_PAYLOAD_BYTES <? slen payloadBytes then None else
  if negb (slen signatureBytes =? V2_SIGNATURE_DECODED_BYTES) then None else
  Some (payloadBytes, signatureBytes).

(** From verified bytes to the job they carry. *)
Definition readV2Payload (payloadBytes pinnedSigningKeyId : string) : option jsval :=
  if startsWith UTF8_BOM_BYTES payloadBytes then None else
  payloadText ← utf8_decode payloadBytes;
  match parseSingleJsonValueStrict payloadText with
  | Err _ => None
  | Ok job =>
      if negb (isPlainObject job) then None else
      if negb (str_matches SIGNING_KEY_ID_PATTERN (get "signingKeyId" job)) then None else
      if negb (is_str_eq pinnedSigningKeyId (get "signingKeyId" job)) then None else
      Some job
  end.

Definition verifyV2Envelope (envelope : jsval) (publicKeyPem pinnedSigningKeyId : string)
  : result signing_error job_verdict :=
  _ ← ensure (nonempty publicKeyPem) MissingPublicKey;
  _ ← ensure (nonempty pinnedSigningKeyId) MissingPinnedKeyId;
  match decodeV2Envelope envelope pinnedSigningKeyId with
  | None => Ok (Err JOB_INTEGRITY_FAILED)
  | Some (payloadBytes, signatureBytes) =>
      match createPublicKey publicKeyPem with
      | None => Err UnparseablePublicKey
      | Some publicKey =>
          match crypto_verify publicKey payloadBytes signatureBytes with
          | Some true =>
              Ok (match readV2Payload payloadBytes pinnedSigningKeyId with
                  | Some job => Ok job
                  | None => Err JOB_INTEGRITY_FAILED
                  end)
          | _ => Ok (Err JOB_INTEGRITY_FAILED)
          end
      end
  end.

Definition is_version (n : Z) (v : jsval) : bool :=
  match v with Num (Fin z) => z =? n | _ => false end.

Definition verifyJobEnvelope (claimed : jsval) (publicKeyPem pinnedSigningKeyId : string)
  : result signing_error job_verdict :=
  let version := get "envelopeVersion" claimed in
  if isPlainObject claimed && is_version ENVELOPE_VERSION_2 version then
    verifyV2Envelope claimed publicKeyPem pinnedSigningKeyId
  else if isPlainObject claimed && negb (match version with Undef => true | _ => false end)
          && negb (is_version ENVELOPE_VERSION_1 version) then
    Ok (Err JOB_INTEGRITY_FAILED)
  else
    v ← verifyJobSignature claimed publicKeyPem pinnedSigningKeyId;
    Ok (match v with Allowed => Ok claimed | Rejected r => Err r end).

(** * The validity window *)

(** A missing or non-finite offset leaves [nowMs] unadjusted. *)
Definition adjusted_now (nowMs : Z) (clockOffsetMs : option Z) : Z :=
  match clockOffsetMs with Some o => nowMs + o | None => nowMs end.

Definition checkJobTimeWindow (job : jsval) (nowMs : jsnum) (clockOffsetMs : option Z)
    (toleranceMs : jsnum) : result signing_error verdict :=
  match nowMs, toleranceMs with
  | Fin nowMs, Fin toleranceMs =>
      if toleranceMs <? 0 then Err BadTolerance else
      let issued := date_parse (str_or_empty (get "issuedAt" job)) in
      let expires := date_parse (str_or_empty (get "expiresAt" job)) in
      if negb (isPlainObject job) || negb (date_ok (get "issuedAt" job))
         || negb (date_ok (get "expiresAt" job)) then Ok (Rejected JOB_INTEGRITY_FAILED) else
      match issued, expires with
      | Some issuedAtMs, Some expiresAtMs =>
          if expiresAtMs <? issuedAtMs then Ok (Rejected JOB_INTEGRITY_FAILED) else
          let now := adjusted_now nowMs clockOffsetMs in
          if now <? issuedAtMs - toleranceMs then Ok (Rejected CLOCK_DRIFT_SUSPECTED) else
          if expiresAtMs + toleranceMs <? now then Ok (Rejected CLOCK_DRIFT_SUSPECTED) else
          Ok Allowed
      | _, _ => Ok (Rejected JOB_INTEGRITY_FAILED)
      end
  | Fin _, _ => Err BadTolerance
  | _, _ => Err NonFiniteNow
  end.

(** * Agent-id binding: the verdict and the mismatch counter *)

Definition signed_agent_id (job : jsval) : option string :=
  match job, get "agentId" job with
  | Obj _, Str s => if nonempty s then Some s else None
  | _, _ => None
  end.
Definition checkAgentIdBinding (mismatches : Z) (job : jsval) (boundAgentId : string)
    (requireSignedAgentId : bool) : result signing_error (verdict * Z) :=
  _ ← ensure (nonempty boundAgentId) MissingBoundAgentId;
  match signed_agent_id job with
  | None =>
      if requireSignedAgentId then Ok (Rejected AGENT_ID_REQUIRED_BUT_MISSING, mismatches)
      else Ok (Allowed, mismatches)
  | Some s =>
      if bool_decide (s = boundAgentId) then Ok (Allowed, mismatches)
      else Ok (Rejected AGENT_ID_MISMATCH, mismatches + 1)
  end.
End signing.

(** * Base64 lemmas *)

(** A property of the 64 alphabet indices, checked by evaluation. *)
Lemma forall_sextet (p : Z → bool) :
  forallb p (map Z.of_nat (seq 0 64)) = true → ∀ n, 0 <= n < 64 → p n = true.
Proof.
  intros H n Hn. rewrite forallb_forall in H. apply H.
  rewrite in_map_iff. exists (Z.to_nat n). split; [lia|].
  apply in_seq. lia.
Qed.
Lemma b64_value_char n : 0 <= n < 64 → b64_value (b64_char n) = n.
Proof.
  intros Hn. apply Z.eqb_eq.
  by apply (forall_sextet (λ n, b64_value (b64_char n) =? n)).
Qed.
Lemma b64_char_not_eq n : 0 <= n < 64 → is_eq (b64_char n) = false.
Proof.
  intros Hn. apply negb_true_iff.
  by apply (forall_sextet (λ n, negb (is_eq (b64_char n)))).
Qed.

Lemma drop_end_cons p c s :
  p c = false → drop_end p (String c s) = String c (drop_end p s).
Proof. intros H. simpl. destruct (drop_end p s); [by rewrite H|done]. Qed.

(** The sextets of a group are in range. *)
Ltac sextet := pose proof code_range; Z.to_euclidean_division_equations; lia.

Lemma char_at_eq n c : n = code c → char_at n = c.
Proof. intros ->. apply char_at_code. Qed.

(** Three bytes per group of four characters. *)
Lemma string_ind3 (P : string → Prop) :
  P EmptyString → (∀ a, P (String a EmptyString)) →
  (∀ a b, P (String a (String b EmptyString))) →
  (∀ a b c s, P s → P (String a (String b (String c s)))) → ∀ s, P s.
Proof.
  intros H0 H1 H2 H3. fix IH 1. intros [|a [|b [|c s]]]; [exact H0|apply H1|apply H2|apply H3, IH].
Qed.

Lemma b64_decode_encode s : b64_decode (b64_encode s) = s.
Proof.
  unfold b64_decode. induction s as [|a|a b|a b c s IH] using string_ind3; [done|..].
  - pose proof (code_range a). cbn [b64_encode].
    rewrite !drop_end_cons by (apply b64_char_not_eq; sextet).
    change (drop_end is_eq "==") with EmptyString. cbn [b64_decode_chars].
    rewrite !b64_value_char by sextet. f_equal. apply char_at_eq. sextet.
  - pose proof (code_range a). pose proof (code_range b). cbn [b64_encode].
    rewrite !drop_end_cons by (apply b64_char_not_eq; sextet).
    change (drop_end is_eq "=") with EmptyString. cbn [b64_decode_chars].
    rewrite !b64_value_char by sextet. repeat f_equal; apply char_at_eq; sextet.
  - pose proof (code_range a). pose proof (code_range b). pose proof (code_range c).
    cbn [b64_encode].
    rewrite !drop_end_cons by (apply b64_char_not_eq; sextet).
    cbn [b64_decode_chars].
    rewrite !b64_value_char by sextet. rewrite IH.
    repeat f_equal; apply char_at_eq; sextet.
Qed.

Lemma utf8_decode_encode s : utf8_decode (utf8_encode s) = Some s.
Proof.
  induction s as [|c s IH]; [done|]. pose proof (code_range c). simpl.
  destruct (code c <? 128) eqn:E; split_bool.
  - simpl. apply Z.ltb_lt in E. by rewrite E, IH.
  - assert (in_range 194 195 (char_at (192 + code c / 64)) = true) as H1.
    { unfold in_range. rewrite code_char_at by sextet.
      apply andb_true_intro; split; apply Z.leb_le; sextet. }
    assert (in_range 128 191 (char_at (128 + code c mod 64)) = true) as H2.
    { unfold in_range. rewrite code_char_at by sextet.
      apply andb_true_intro; split; apply Z.leb_le; sextet. }
    cbn [utf8_decode]. rewrite H1, H2, IH.
    rewrite !code_char_at by sextet.
    replace (192 + code c / 64 <? 128) with false by (symmetry; apply Z.ltb_ge; sextet).
    cbn [mbind option_bind]. do 2 f_equal. apply char_at_eq. sextet.
Qed.

(** * The scanner agrees with the reader *)

Lemma scan_hex h z s : hex_value h = Some z → scan_string_body (String h s) = scan_string_body s.
Proof.
  intros H. simpl. unfold hex_value, is_digit, in_range in H.
  replace (code h =? 34) with false
    by (symmetry; apply Z.eqb_neq; intros E; rewrite E in H; done).
  by replace (code h =? 92) with false
    by (symmetry; apply Z.eqb_neq; intros E; rewrite E in H; done).
Qed.

Lemma parse_str_scan s t r : parse_str s = Some (t, r) → scan_string_body s = Some r.
Proof.
  revert t r. induction s as [s IH] using (induction_ltof1 _ String.length); unfold ltof in IH.
  intros t r. destruct s as [|c s1]; cbn [parse_str scan_string_body]; [done|].
  destruct (code c =? 34); [naive_solver|]. destruct (code c =? 92).
  - destruct s1 as [|e s2]; [done|]. destruct (code e =? 117) eqn:Eu.
    + destruct s2 as [|h1 [|h2 [|h3 [|h4 s3]]]]; try done.
      destruct (hex_value h1) as [z1|] eqn:E1; [|done].
      destruct (hex_value h2) as [z2|] eqn:E2; [|done].
      destruct (hex_value h3) as [z3|] eqn:E3; [|done].
      destruct (hex_value h4) as [z4|] eqn:E4; [|done]. cbn [mbind option_bind].
      case_match; [|done]. destruct (parse_str s3) as [[u r']|] eqn:E; [|done].
      intros [= _ <-]. erewrite !scan_hex by eassumption.
      eapply IH; [|exact E]. simpl. lia.
    + destruct (unescape e); [|done]. destruct (parse_str s2) as [[u r']|] eqn:E; [|done].
      intros [= _ <-]. eapply IH; [|exact E]. simpl. lia.
  - case_match; [done|]. destruct (parse_str s1) as [[u r']|] eqn:E; [|done].
    intros [= _ <-]. eapply IH; [|exact E]. simpl. lia.
Qed.

Lemma read_digits_skip acc s : (read_digits acc s).2 = skip_digits s.
Proof.
  revert acc. induction s as [|c s IH]; intros acc; [done|]. simpl.
  unfold skip_digits. simpl. destruct (is_digit c); [apply IH|done].
Qed.

Lemma skip_digits_after_int s : after_int s = true → skip_digits s = s.
Proof. destruct s as [|c s]; [done|]. unfold skip_digits. simpl. by destruct (is_digit c). Qed.

Lemma parse_digits_scan s n r :
  parse_digits s = Some (n, r) → scan_digits1 s = Some r ∧ after_int r = true.
Proof.
  destruct s as [|c s]; simpl; [done|]. destruct (is_digit c) eqn:Ed; [|done].
  destruct (code c =? 48) eqn:E0.
  - simpl. destruct (after_int s) eqn:Ea; [|done]. intros [= _ <-].
    split; [|done]. unfold skip_digits. simpl. rewrite Ed. f_equal.
    by apply skip_digits_after_int.
  - destruct (after_int _) eqn:Ea; [|done]. intros [= E].
    pose proof (read_digits_skip 0 (String c s)) as H. simpl in H. rewrite Ed in H.
    rewrite E in H, Ea. cbn [snd] in H, Ea. by rewrite <- H.
Qed.

Lemma parse_num_scan s v r : parse_num s = Some (v, r) → scan_number s = Some r.
Proof.
  unfold parse_num, scan_number. destruct s as [|c s]; [done|].
  assert (∀ s n, parse_digits s = Some (n, r) → (s ← scan_digits1 s;
    s ← match s with
      | String c r => if code c =? 46 then scan_digits1 r else Some s
      | EmptyString => Some s
      end;
    match s with
    | String c r =>
      if (code c =? 101) || (code c =? 69) then
        scan_digits1 match r with
          | String d r' => if (code d =? 43) || (code d =? 45) then r' else r
          | EmptyString => r
          end
      else Some s
    | EmptyString => Some s
    end) = Some r) as Hgo.
  { intros s' n [Hs Ha]%parse_digits_scan. rewrite Hs. cbn [mbind option_bind].
    destruct r as [|d r]; [done|]. simpl in Ha.
    apply negb_true_iff in Ha.
    apply orb_false_elim in Ha as [Ha E3]. apply orb_false_elim in Ha as [Ha E2].
    apply orb_false_elim in Ha as [E0 E1].
    rewrite E1. cbn [mbind option_bind]. by rewrite E2, E3. }
  destruct (code c =? 45).
  - destruct (parse_digits s) as [[n r']|] eqn:E; [|done]. intros [= _ <-]. by eapply Hgo.
  - destruct (parse_digits (String c s)) as [[n r']|] eqn:E; [|done].
    intros [= _ <-]. by eapply Hgo.
Qed.

Lemma parse_word_scan s v r : parse_word s = Some (v, r) → scan_word s = Some r.
Proof.
  unfold parse_word, scan_word. destruct (strip "true" s); [naive_solver|].
  destruct (strip "false" s); [naive_solver|]. destruct (strip "null" s); naive_solver.
Qed.

(** Whatever the reader accepts, the scanner delimits identically. *)
Lemma parse_scan n :
  (∀ s v r, parse_value n s = Some (v, r) → scan_value n s = Some r) ∧
  (∀ acc s v r, parse_members n acc s = Some (v, r) → scan_object n s = Some r) ∧
  (∀ acc s v r, parse_elements n acc s = Some (v, r) → scan_array n s = Some r).
Proof.
  induction n as [|n (IHv & IHm & IHe)]; [done|]. repeat split.
  - intros [|c s] v r; [done|]. cbn [parse_value scan_value].
    destruct (code c =? 123).
    { destruct (expect "}" (skip_ws s)); [naive_solver|]. apply IHm. }
    destruct (code c =? 91).
    { destruct (expect "]" (skip_ws s)); [naive_solver|]. apply IHe. }
    destruct (code c =? 34).
    { destruct (parse_str s) as [[t r']|] eqn:E; [|done]. intros [= _ <-].
      by eapply parse_str_scan. }
    destruct (_ || _); [apply parse_num_scan|apply parse_word_scan].
  - intros acc s v r. cbn [parse_members scan_object].
    destruct (expect DQ s) as [s1|]; [|done]. cbn [mbind option_bind].
    destruct (parse_str s1) as [[k s2]|] eqn:Ek; [|done].
    rewrite (parse_str_scan _ _ _ Ek). cbn [mbind option_bind].
    destruct (expect ":" (skip_ws s2)) as [s3|]; [|done]. cbn [mbind option_bind].
    destruct (parse_value n (skip_ws s3)) as [[w s4]|] eqn:Ev; [|done].
    rewrite (IHv _ _ _ Ev). cbn [mbind option_bind].
    destruct (expect "," (skip_ws s4)) as [s5|]; [apply IHm|].
    destruct (expect "}" (skip_ws s4)); naive_solver.
  - intros acc s v r. cbn [parse_elements scan_array].
    destruct (parse_value n s) as [[w s4]|] eqn:Ev; [|done].
    rewrite (IHv _ _ _ Ev). cbn [mbind option_bind].
    destruct (expect "," (skip_ws s4)) as [s5|]; [apply IHe|].
    destruct (expect "]" (skip_ws s4)); naive_solver.
Qed.

(** * The scanner's fuel *)

Lemma drop_while_length p s : (String.length (drop_while p s) <= String.length s)%nat.
Proof. induction s as [|c s IH]; simpl; [done|]. destruct (p c); simpl; lia. Qed.
Lemma expect_length c s r : expect c s = Some r → String.length s = S (String.length r).
Proof. intros ->%expect_Some. done. Qed.
Lemma sdrop_length n s : (String.length (sdrop n s) <= String.length s)%nat.
Proof. revert s. induction n as [|n IH]; intros [|c s]; simpl; try done. specialize (IH s). lia. Qed.

Lemma scan_string_body_length s r :
  scan_string_body s = Some r → (String.length r < String.length s)%nat.
Proof.
  revert r. induction s as [s IH] using (induction_ltof1 _ String.length); unfold ltof in IH.
  intros r. destruct s as [|c s1]; simpl in *; [done|].
  destruct (code c =? 34); [intros [= <-]; lia|]. destruct (code c =? 92).
  - destruct s1 as [|e s2]; [done|]. intros H%IH; simpl in *; lia.
  - intros H%IH; simpl in *; lia.
Qed.
Lemma scan_digits1_length s r :
  scan_digits1 s = Some r → (String.length r < String.length s)%nat.
Proof.
  destruct s as [|c s]; simpl; [done|]. destruct (is_digit c) eqn:E; [|done].
  intros [= <-]. unfold skip_digits. simpl. rewrite E.
  pose proof (drop_while_length is_digit s). lia.
Qed.
Lemma scan_number_length s r :
  scan_number s = Some r → (String.length r < String.length s)%nat.
Proof.
  unfold scan_number. intros H.
  destruct (scan_digits1 _) as [s1|] eqn:E1 in H; [|done]. apply scan_digits1_length in E1.
  assert (String.length s1 < String.length s)%nat as L1.
  { destruct s as [|c s']; [done|]. simpl in *. destruct (code c =? 45); simpl in *; lia. }
  cbn [mbind option_bind] in H. clear E1.
  assert (∃ s2, (String.length s2 <= String.length s1)%nat ∧
    match s2 with
    | String c r =>
      if (code c =? 101) || (code c =? 69) then
        scan_digits1 match r with
          | String d r' => if (code d =? 43) || (code d =? 45) then r' else r
          | EmptyString => r
          end
      else Some s2
    | EmptyString => Some s2
    end = Some r) as (s2 & L2 & H2).
  { destruct s1 as [|c s1']; [by exists EmptyString|].
    destruct (code c =? 46).
    - destruct (scan_digits1 s1') as [s2|] eqn:E2; [|done]. apply scan_digits1_length in E2.
      exists s2. split; [simpl; lia|done].
    - by exists (String c s1'). }
  destruct s2 as [|c s2']; [injection H2 as <-; simpl in *; lia|].
  destruct (_ || _); [|injection H2 as <-; lia].
  apply scan_digits1_length in H2. destruct s2' as [|d s2'']; [simpl in *; lia|].
  destruct (_ || _); simpl in *; lia.
Qed.
Lemma scan_word_length s r :
  scan_word s = Some r → (String.length r <= String.length s)%nat.
Proof.
  unfold scan_word, strip. intros H.
  repeat case_match; simplify_eq; apply sdrop_length.
Qed.

(** Progress: no scan ends before it starts. *)
Lemma scan_length n :
  (∀ s r, scan_value n s = Some r → (String.length r <= String.length s)%nat) ∧
  (∀ s r, scan_object n s = Some r → (String.length r <= String.length s)%nat) ∧
  (∀ s r, scan_array n s = Some r → (String.length r <= String.length s)%nat).
Proof.
  induction n as [|n (IHv & IHo & IHa)]; [done|]. repeat split.
  - intros [|c s] r; [done|]. cbn [scan_value]. simpl String.length.
    pose proof (drop_while_length is_ws s) as Hw. unfold skip_ws.
    destruct (code c =? 123).
    { destruct (expect _ _) eqn:E; [apply expect_length in E; intros [= <-]; lia|].
      intros H%IHo. lia. }
    destruct (code c =? 91).
    { destruct (expect _ _) eqn:E; [apply expect_length in E; intros [= <-]; lia|].
      intros H%IHa. lia. }
    destruct (code c =? 34); [intros H%scan_string_body_length; lia|].
    destruct (_ || _); [intros H%scan_number_length|intros H%scan_word_length]; simpl in *; lia.
  - intros s r. cbn [scan_object].
    destruct (expect DQ s) as [s1|] eqn:E1; [|done]. apply expect_length in E1.
    cbn [mbind option_bind]. destruct (scan_string_body s1) as [s2|] eqn:E2; [|done].
    apply scan_string_body_length in E2. cbn [mbind option_bind].
    destruct (expect ":" _) as [s3|] eqn:E3; [|done]. apply expect_length in E3.
    cbn [mbind option_bind]. destruct (scan_value n _) as [s4|] eqn:E4; [|done].
    apply IHv in E4. cbn [mbind option_bind]. unfold skip_ws in *.
    pose proof (drop_while_length is_ws s2). pose proof (drop_while_length is_ws s3).
    pose proof (drop_while_length is_ws s4).
    destruct (expect "," _) as [s5|] eqn:E5.
    + apply expect_length in E5. pose proof (drop_while_length is_ws s5).
      intros H'%IHo. lia.
    + intros H'%expect_length. lia.
  - intros s r. cbn [scan_array].
    destruct (scan_value n _) as [s4|] eqn:E4; [|done].
    apply IHv in E4. cbn [mbind option_bind]. unfold skip_ws in *.
    pose proof (drop_while_length is_ws s4).
    destruct (expect "," _) as [s5|] eqn:E5.
    + apply expect_length in E5. pose proof (drop_while_length is_ws s5).
      intros H'%IHa. lia.
    + intros H'%expect_length. lia.
Qed.

(** A successful scan needs no more fuel than the characters it consumes. *)
Lemma scan_fuel m :
  (∀ s r n, scan_value m s = Some r → (String.length s < n + String.length r)%nat →
    scan_value n s = Some r) ∧
  (∀ s r n, scan_object m s = Some r → (String.length s < n + String.length r)%nat →
    scan_object n s = Some r) ∧
  (∀ s r n, scan_array m s = Some r → (String.length s < n + String.length r)%nat →
    scan_array n s = Some r).
Proof.
  induction m as [|m (IHv & IHo & IHa)]; [done|].
  destruct (scan_length m) as (Lv & Lo & La). repeat split.
  - intros s r n Hs Hn.
    destruct n as [|n].
    { apply (proj1 (scan_length (S m))) in Hs. lia. }
    destruct s as [|c s]; [done|]. cbn [scan_value] in *.
    pose proof (drop_while_length is_ws s). unfold skip_ws in *. simpl in Hn.
    destruct (code c =? 123).
    { destruct (expect "}" _); [done|]. apply IHo; [done|]. lia. }
    destruct (code c =? 91).
    { destruct (expect "]" _); [done|]. apply IHa; [done|]. lia. }
    done.
  - intros s r n Hs Hn.
    destruct n as [|n].
    { apply (proj1 (proj2 (scan_length (S m)))) in Hs. lia. }
    cbn [scan_object] in *.
    destruct (expect DQ s) as [s1|] eqn:E1; [|done]. apply expect_length in E1.
    cbn [mbind option_bind] in *. destruct (scan_string_body s1) as [s2|] eqn:E2; [|done].
    apply scan_string_body_length in E2. cbn [mbind option_bind] in *.
    destruct (expect ":" _) as [s3|] eqn:E3; [|done]. apply expect_length in E3.
    cbn [mbind option_bind] in *. unfold skip_ws in *.
    destruct (scan_value m _) as [s4|] eqn:E4; [|done].
    cbn [mbind option_bind] in Hs. pose proof (Lv _ _ E4).
    pose proof (drop_while_length is_ws s2). pose proof (drop_while_length is_ws s3).
    pose proof (drop_while_length is_ws s4).
    destruct (expect "," _) as [s5|] eqn:E5.
    + pose proof E5 as E5'. apply expect_length in E5.
      pose proof (drop_while_length is_ws s5).
      pose proof (Lo _ _ Hs). rewrite (IHv _ s4 n) by (done || lia).
      cbn [mbind option_bind]. rewrite E5'. apply IHo; [done|]. lia.
    + pose proof (expect_length _ _ _ Hs). rewrite (IHv _ s4 n) by (done || lia).
      cbn [mbind option_bind]. by rewrite E5.
  - intros s r n Hs Hn.
    destruct n as [|n].
    { apply (proj2 (proj2 (scan_length (S m)))) in Hs. lia. }
    cbn [scan_array] in *. unfold skip_ws in *.
    destruct (scan_value m _) as [s4|] eqn:E4; [|done].
    cbn [mbind option_bind] in Hs. pose proof (Lv _ _ E4).
    pose proof (drop_while_length is_ws s4).
    destruct (expect "," _) as [s5|] eqn:E5.
    + pose proof (expect_length _ _ _ E5). pose proof (drop_while_length is_ws s5).
      pose proof (La _ _ Hs). rewrite (IHv _ s4 n) by (done || lia).
      cbn [mbind option_bind]. rewrite E5. apply IHa; [done|]. lia.
    + pose proof (expect_length _ _ _ Hs). rewrite (IHv _ s4 n) by (done || lia).
      cbn [mbind option_bind]. by rewrite E5.
Qed.

Lemma scan_value_enough s r m :
  scan_value m s = Some r → scan_value (S (String.length s)) s = Some r.
Proof. intros H. eapply (proj1 (scan_fuel m)); [done|lia]. Qed.

Lemma scan_end_spec s r m :
  scan_value m s = Some r → scanSingleJsonValueEnd s = slen s - slen r.
Proof.
  intros H. unfold scanSingleJsonValueEnd. by rewrite (scan_value_enough _ _ _ H).
Qed.

(** The strict reader on a canonical object followed by [u]. *)
Lemma strict_obj fs t u :
  wf (Obj fs) → serializeCanonical (Obj fs) = Ok t →
  parseSingleJsonValueStrict (t +:+ u) =
  if decide (u = EmptyString) then Ok (canon (Obj fs)) else Err TrailingContent.
Proof.
  intros Hwf Ht. pose proof (reads_obj fs) as Hr.
  specialize (Hr ltac:(apply Forall_forall; intros; apply reads_all) Hwf t Ht
    (S (String.length (t +:+ u))) u).
  rewrite slength_app in Hr. specialize (Hr ltac:(lia)).
  apply (proj1 (parse_scan _)) in Hr. apply scan_end_spec in Hr.
  unfold parseSingleJsonValueStrict. rewrite Hr, slen_app.
  case_decide as E.
  - subst u. rewrite Z.sub_0_r, Z.eqb_refl, sapp_nil_r.
    by rewrite (JSON_parse_serialize _ _ Hwf Ht).
  - replace (_ =? _) with false; [done|]. symmetry. apply Z.eqb_neq.
    unfold slen. destruct u; [done|]. simpl. lia.
Qed.

(** * What an accepted job is *)

Section verification.
Context {dp : DateParse} {key : Type}
  (createPublicKey : string → option key)
  (crypto_verify : key → string → string → option bool).
Let verifySig := verifyJobSignature createPublicKey crypto_verify.
Let verifyV2 := verifyV2Envelope createPublicKey crypto_verify.

(** A v1 job: Ed25519 holds of the canonical text's bytes. *)
Definition accepted_v1 (pub : key) (kid : string) (job : jsval) : Prop :=
  get "signingKeyId" job = Str kid ∧
  ∃ text sig, canonicalizeJobPayload job = Ok text ∧
    get "signature" job = Str sig ∧
    crypto_verify pub (utf8_encode text) (b64_decode sig) = Some true.

(** A v2 envelope: Ed25519 holds of the exact payload bytes, whose text is
    the returned job. *)
Definition accepted_v2 (pub : key) (kid : string) (claimed job : jsval) : Prop :=
  get "signingKeyId" claimed = Str kid ∧ get "signingKeyId" job = Str kid ∧
  ∃ bytes sig text,
    get "payloadB64" claimed = Str (b64_encode bytes) ∧
    get "signatureB64" claimed = Str (b64_encode sig) ∧
    slen bytes <= V2_MAX_DECODED_PAYLOAD_BYTES ∧ slen sig = V2_SIGNATURE_DECODED_BYTES ∧
    crypto_verify pub bytes sig = Some true ∧
    utf8_decode bytes = Some text ∧ JSON_parse text = Some job.

Lemma str_matches_iff p v : str_matches p v = true ↔ ∃ s, v = Str s ∧ p s = true.
Proof.
  unfold str_matches. split; [|by intros (s & -> & Hs)].
  destruct v as [| | | |s| |]; try done. by exists s.
Qed.
Lemma is_str_eq_spec s v : is_str_eq s v = true ↔ v = Str s.
Proof.
  unfold is_str_eq. rewrite str_matches_iff.
  setoid_rewrite bool_decide_eq_true. naive_solver.
Qed.
Lemma str_matches_str p v : str_matches p v = true → ∃ s, v = Str s ∧ p s = true.
Proof. apply str_matches_iff. Qed.

Lemma decodeCanonicalBase64_Some v b :
  decodeCanonicalBase64 v = Some b ↔ v = b64_encode b.
Proof.
  unfold decodeCanonicalBase64. split.
  - case_bool_decide; naive_solver.
  - intros ->. rewrite b64_decode_encode. by rewrite bool_decide_eq_true_2.
Qed.

Lemma strict_parse text v : parseSingleJsonValueStrict text = Ok v → JSON_parse text = Some v.
Proof. unfold parseSingleJsonValueStrict. repeat case_match; naive_solver. Qed.

Lemma date_ok_spec v :
  date_ok v = true ↔ ∃ s t, v = Str s ∧ date_parse s = Some t.
Proof.
  unfold date_ok. split.
  - destruct v as [| | | |s| |]; try done. intros [t Ht]%bool_decide_eq_true. eauto.
  - intros (s & t & -> & Ht). by apply bool_decide_eq_true; exists t.
Qed.

Lemma signed_fields job :
  findSignedFieldProblem job = false ↔
  isPlainObject job = true ∧
  (∃ s, get "signature" job = Str s ∧ signature_ok s = true) ∧
  (∃ s, get "signingKeyId" job = Str s ∧ SIGNING_KEY_ID_PATTERN s = true) ∧
  (∃ s, get "nonce" job = Str s ∧ NONCE_PATTERN s = true) ∧
  date_ok (get "issuedAt" job) = true ∧ date_ok (get "expiresAt" job) = true.
Proof.
  unfold findSignedFieldProblem.
  rewrite !orb_false_iff, !negb_false_iff, !str_matches_iff.
  tauto.
Qed.

Lemma verifySig_sound job pem kid :
  verifySig job pem kid = Ok Allowed →
  ∃ pub, createPublicKey pem = Some pub ∧ accepted_v1 pub kid job.
Proof.
  unfold verifySig, verifyJobSignature. intros H.
  apply bind_ok in H as (_ & _ & H). apply bind_ok in H as (_ & _ & H).
  destruct (findSignedFieldProblem job) eqn:Ef; [done|].
  apply signed_fields in Ef as (_ & (s & Hs & _) & _).
  destruct (is_str_eq kid _) eqn:Ek; [|done]. cbn [negb] in H.
  destruct (createPublicKey pem) as [pub|]; [|done].
  destruct (canonicalizeJobPayload job) as [text|] eqn:Et; [|done].
  rewrite Hs in H. cbn [str_or_empty] in H.
  destruct (crypto_verify _ _ _) as [[]|] eqn:Ev; try done.
  exists pub. split; [done|]. split; [by apply is_str_eq_spec|].
  by exists text, s.
Qed.

Lemma decodeV2_sound env kid bytes sig :
  decodeV2Envelope env kid = Some (bytes, sig) →
  get "signingKeyId" env = Str kid ∧
  get "payloadB64" env = Str (b64_encode bytes) ∧
  get "signatureB64" env = Str (b64_encode sig) ∧
  slen bytes <= V2_MAX_DECODED_PAYLOAD_BYTES ∧ slen sig = V2_SIGNATURE_DECODED_BYTES.
Proof.
  unfold decodeV2Envelope. intros H.
  destruct (negb (isPlainObject env)); [done|].
  destruct (negb (str_matches SIGNING_KEY_ID_PATTERN _)); [done|].
  destruct (is_str_eq kid _) eqn:Ek; [|done]. apply is_str_eq_spec in Ek.
  destruct (str_matches _ (get "payloadB64" env)) eqn:Ep; [|done].
  apply str_matches_str in Ep as (p & Hp & _).
  destruct (str_matches _ (get "signatureB64" env)) eqn:Es; [|done].
  apply str_matches_str in Es as (q & Hq & _).
  rewrite Hp, Hq in *. cbn [negb str_or_empty] in H.
  destruct (decodeCanonicalBase64 p) as [b|] eqn:Eb; [|done].
  destruct (decodeCanonicalBase64 q) as [g|] eqn:Eg; [|done].
  apply decodeCanonicalBase64_Some in Eb as ->, Eg as ->.
  cbn [mbind option_bind] in H.
  destruct (_ <? _) eqn:El; [done|]. destruct (_ =? _) eqn:E2; [|done].
  split_bool. by simplify_eq/=.
Qed.

Lemma readV2_sound bytes kid job :
  readV2Payload bytes kid = Some job →
  get "signingKeyId" job = Str kid ∧
  ∃ text, utf8_decode bytes = Some text ∧ JSON_parse text = Some job.
Proof.
  unfold readV2Payload. intros H. destruct (startsWith _ _); [done|].
  destruct (utf8_decode bytes) as [text|]; [|done]. cbn [mbind option_bind] in H.
  destruct (parseSingleJsonValueStrict text) as [v|] eqn:Ep; [|done].
  apply strict_parse in Ep. destruct (negb (isPlainObject v)); [done|].
  destruct (negb (str_matches SIGNING_KEY_ID_PATTERN _)); [done|].
  destruct (is_str_eq kid _) eqn:Ek; [|done]. apply is_str_eq_spec in Ek.
  cbn [negb] in H. simplify_eq. eauto.
Qed.

Lemma verifyV2_sound env pem kid job :
  verifyV2 env pem kid = Ok (Ok job) →
  ∃ pub, createPublicKey pem = Some pub ∧ accepted_v2 pub kid env job.
Proof.
  unfold verifyV2, verifyV2Envelope. intros H.
  apply bind_ok in H as (_ & _ & H). apply bind_ok in H as (_ & _ & H).
  destruct (decodeV2Envelope env kid) as [[bytes sig]|] eqn:Ed; [|done].
  destruct (createPublicKey pem) as [pub|]; [|done].
  destruct (crypto_verify _ _ _) as [[]|] eqn:Ev; try done.
  destruct (readV2Payload bytes kid) as [j|] eqn:Er; [|done]. simplify_eq.
  apply decodeV2_sound in Ed as (? & ? & ? & ? & ?).
  apply readV2_sound in Er as (? & text & ? & ?).
  exists pub. split; [done|]. split; [done|]. split; [done|].
  by exists bytes, sig, text.
Qed.
End verification.

(** * Properties *)

(** The text of a successful serialization (for closed examples). *)
Definition text_of {E} (r : result E string) : string :=
  match r with Ok s => s | Err _ => EmptyString end.

(** A toy signature scheme for the closed examples: the signature of [b] is
    its length written 64 characters wide. *)
Definition toy_sign (b : string) : string := pad 64 (slen b).
Definition toy_verify (_ : unit) (b sig : string) : option bool :=
  Some (bool_decide (sig = toy_sign b)).
Definition toy_key (_ : string) : option unit := Some tt.

(** C3: A job is accepted only with a true Ed25519 verification under the
    pinned key: of the canonical text of the job itself (v1), or of the exact
    payload bytes the returned job was parsed from (v2), with the size limits
    respected and both key ids equal to the pinned one. *)
Theorem verifyJobEnvelope_sound {dp : DateParse} {key : Type}
    (createPublicKey : string → option key)
    (crypto_verify : key → string → string → option bool) claimed pem kid job :
  verifyJobEnvelope createPublicKey crypto_verify claimed pem kid = Ok (Ok job) →
  ∃ pub, createPublicKey pem = Some pub ∧
    ((job = claimed ∧ accepted_v1 crypto_verify pub kid job) ∨
     accepted_v2 crypto_verify pub kid claimed job).
Proof.
  unfold verifyJobEnvelope. destruct (_ && _).
  - intros (pub & Hp & Ha)%verifyV2_sound. eauto.
  - destruct (_ && _); [done|]. intros H. apply bind_ok in H as ([|r] & Hv & H); [|done].
    simplify_eq. apply verifySig_sound in Hv as (pub & Hp & Ha). eauto.
Qed.

Definition demo_job : jsval :=
  Obj [("jobId", Str "job-1"); ("signingKeyId", Str "key-1")].
Definition demo_envelope : jsval :=
  let bytes := utf8_encode (text_of (serializeCanonical demo_job)) in
  Obj [("envelopeVersion", Num (Fin 2)); ("payloadB64", Str (b64_encode bytes));
       ("signatureB64", Str (b64_encode (toy_sign bytes))); ("signingKeyId", Str "key-1")].

Lemma verifyJobEnvelope_sound_witness :
  verifyJobEnvelope (dp := iso_date_parse) toy_key toy_verify demo_envelope "pem" "key-1"
    = Ok (Ok demo_job) ∧
  ∃ pub, toy_key "pem" = Some pub ∧
    ((demo_job = demo_envelope ∧ accepted_v1 toy_verify pub "key-1" demo_job) ∨
     accepted_v2 toy_verify pub "key-1" demo_envelope demo_job).
Proof.
  assert (verifyJobEnvelope (dp := iso_date_parse) toy_key toy_verify demo_envelope
    "pem" "key-1" = Ok (Ok demo_job)) as H by (vm_compute; reflexivity).
  split; [exact H|].
  exact (verifyJobEnvelope_sound (dp := iso_date_parse) toy_key toy_verify _ _ _ _ H).
Defined.

(** Canonical base64 is exact: [decodeCanonicalBase64] answers bytes for
    precisely one string, the standard encoding of those bytes, so an accepted
    envelope has a single wire form. *)
Theorem canonical_base64_exact v b :
  decodeCanonicalBase64 v = Some b ↔ v = b64_encode b.
Proof. apply decodeCanonicalBase64_Some. Qed.

(** The strict reader of a signed payload accepts the canonical text of an
    object and nothing longer: any trailing character, white space included,
    is rejected. *)
Theorem parseSingleJsonValueStrict_exact fs t u :
  wf (Obj fs) → serializeCanonical (Obj fs) = Ok t →
  parseSingleJsonValueStrict (t +:+ u) =
  if decide (u = EmptyString) then Ok (canon (Obj fs)) else Err TrailingContent.
Proof. apply strict_obj. Qed.

Lemma parseSingleJsonValueStrict_exact_witness :
  let fs := [("n"%string, Arr [Num (Fin 3); Null]); ("jobId"%string, Str "j1")] in
  let t := text_of (serializeCanonical (Obj fs)) in
  parseSingleJsonValueStrict t =
    Ok (Obj [("jobId"%string, Str "j1"); ("n"%string, Arr [Num (Fin 3); Null])]) ∧
  parseSingleJsonValueStrict (t +:+ " ") = Err TrailingContent.
Proof.
  intros fs t.
  assert (wf (Obj fs)) as Hwf.
  { split; [|repeat split]. by apply (bool_decide_unpack _); vm_compute. }
  assert (serializeCanonical (Obj fs) = Ok t) as Ht by (vm_compute; reflexivity).
  pose proof (parseSingleJsonValueStrict_exact fs t EmptyString Hwf Ht) as H1.
  pose proof (parseSingleJsonValueStrict_exact fs t " " Hwf Ht) as H2.
  rewrite sapp_nil_r in H1. split; [rewrite H1|rewrite H2]; vm_compute; reflexivity.
Defined.

(** The scanner terminates with the right index: whatever amount of fuel
    lets it find the end of the first value, the fuel the code's text length
    provides finds the same end, strictly inside the text. *)
Theorem scanSingleJsonValueEnd_complete s r m :
  scan_value m s = Some r →
  scanSingleJsonValueEnd s = slen s - slen r ∧ 0 <= slen r <= slen s.
Proof.
  intros H. split; [by eapply scan_end_spec|].
  apply (proj1 (scan_length m)) in H. unfold slen. lia.
Qed.

Lemma scanSingleJsonValueEnd_complete_witness :
  scan_value 100 "[1, {}] tail" = Some " tail"%string ∧
  scanSingleJsonValueEnd "[1, {}] tail" = 7.
Proof.
  assert (scan_value 100 "[1, {}] tail" = Some " tail"%string) as H
    by (vm_compute; reflexivity).
  split; [exact H|].
  exact (proj1 (scanSingleJsonValueEnd_complete _ _ _ H)).
Defined.

(** The validity window: with a non-negative tolerance a job passes
    exactly when both dates parse, are in order, and the offset-adjusted time
    lies between [issuedAt - tolerance] and [expiresAt + tolerance]. *)
Theorem checkJobTimeWindow_allowed {dp : DateParse} job now off tol :
  0 <= tol →
  checkJobTimeWindow job (Fin now) off (Fin tol) = Ok Allowed ↔
  ∃ si se i e, get "issuedAt" job = Str si ∧ get "expiresAt" job = Str se ∧
    date_parse si = Some i ∧ date_parse se = Some e ∧ i <= e ∧
    i - tol <= adjusted_now now off <= e + tol.
Proof.
  intros Htol. unfold checkJobTimeWindow.
  replace (tol <? 0) with false by (symmetry; apply Z.ltb_ge; lia). split.
  - destruct (_ || _) eqn:E; [done|]. split_bool.
    match goal with
    | Hd : date_ok (get "issuedAt" job) = true, Hd' : date_ok (get "expiresAt" job) = true |- _ =>
        apply date_ok_spec in Hd as (si & i & Hi & Hpi);
        apply date_ok_spec in Hd' as (se & e & He & Hpe)
    end.
    rewrite Hi, He. cbn [str_or_empty]. rewrite Hpi, Hpe. intros Hok.
    repeat case_match; split_bool; try done. exists si, se, i, e. repeat split; done || lia.
  - intros (si & se & i & e & Hi & He & Hpi & Hpe & Hie & Hl & Hu).
    rewrite Hi, He. cbn [str_or_empty date_ok]. rewrite Hpi, Hpe.
    rewrite !bool_decide_eq_true_2 by eauto.
    assert (isPlainObject job = true) as -> by (destruct job; try done; by simpl in Hi).
    simpl.
    replace (e <? i) with false by (symmetry; apply Z.ltb_ge; lia).
    replace (adjusted_now now off <? i - tol) with false by (symmetry; apply Z.ltb_ge; lia).
    by replace (e + tol <? adjusted_now now off) with false by (symmetry; apply Z.ltb_ge; lia).
Qed.

Lemma checkJobTimeWindow_allowed_witness :
  let job := Obj [("issuedAt", Str "2026-01-01T00:00:00.000Z");
                  ("expiresAt", Str "2026-01-01T00:05:00.000Z")] in
  checkJobTimeWindow (dp := iso_date_parse) job (Fin 1767225600000) (Some (-20000)) (Fin 30000)
  = Ok Allowed.
Proof.
  intros job.
  apply (checkJobTimeWindow_allowed (dp := iso_date_parse) job 1767225600000 (Some (-20000)) 30000);
    [lia|].
  exists "2026-01-01T00:00:00.000Z"%string, "2026-01-01T00:05:00.000Z"%string,
    1767225600000, 1767225900000.
  repeat split; vm_compute; congruence.
Defined.
