(* ===== verification/Replay.v ===== *)
(** The persisted consumed-nonce cache: packages/agent/src/replay/index.js.

    The in-memory [Map] is an insertion-ordered association list from
    [cacheKey] to entries; the store file is what [readFileSync] and
    [JSON.parse] make of it.  [persist] may throw (the file system is outside
    the model): each operation takes the outcome of its write.  The code
    writes a temporary file, renames it over the store and then restricts
    its permissions, so a write that throws has either left the store as it
    was or replaced it. *)
From S2P Require Import Prelude Dates Json.
Open Scope Z_scope.

Definition REPLAY_REJECTION_REASON : string := "job_replay_rejected".
Definition STORE_SCHEMA_VERSION : Z := 1.
Definition DEFAULT_MAX_ENTRIES : Z := 5000.
Definition DEFAULT_RETENTION_TOLERANCE_MS : Z := 30000.

Inductive replay_error :=
| BadNonce | BadJobId | BadExpiresAt | BadStorePath | BadMaxEntries
| BadRetentionTolerance | StoreUnreadable | StoreInvalidJson | StoreBadShape
| StoreBadEntry | PersistFailed.
#[global] Instance replay_error_eq_dec : EqDecision replay_error.
Proof. solve_decision. Defined.

Record entry := mkEntry { nonce : string; jobId : string; expiresAtMs : Z }.
#[global] Instance entry_eq_dec : EqDecision entry.
Proof. solve_decision. Defined.

Definition rejectReplay : verdict := Rejected REPLAY_REJECTION_REASON.

(** Length-delimited composite key. *)
Definition cacheKey (nonce jobId : string) : string :=
  print_Z (slen nonce) +:+ ":" +:+ nonce +:+ "|" +:+ print_Z (slen jobId) +:+ ":" +:+ jobId.

Definition Entries : Type := list (string * entry).

(** The store file as the loader sees it. *)
Inductive store_file :=
| Missing                  (* ENOENT *)
| Unreadable               (* any other read error *)
| NotJson                  (* JSON.parse throws *)
| Parsed (v : jsval).

Definition entry_json (e : entry) : jsval :=
  Obj [("nonce", Str (nonce e)); ("jobId", Str (jobId e)); ("expiresAtMs", Num (Fin (expiresAtMs e)))].
(** What [persist] writes. *)
Definition store_json (es : Entries) : jsval :=
  Obj [("schemaVersion", Num (Fin STORE_SCHEMA_VERSION));
       ("entries", Arr (map (λ ke, entry_json ke.2) es))].

Definition readEntry (v : jsval) : result replay_error entry :=
  match v, get "nonce" v, get "jobId" v, get "expiresAtMs" v with
  | Obj _, Str n, Str j, Num (Fin e) => Ok (mkEntry n j e)
  | _, _, _, _ => Err StoreBadEntry
  end.
Fixpoint readEntries (acc : Entries) (l : list jsval) : result replay_error Entries :=
  match l with
  | [] => Ok acc
  | v :: l =>
      e ← readEntry v;
      readEntries (assoc_set (cacheKey (nonce e) (jobId e)) e acc) l
  end.
Definition is_num (n : Z) (v : jsval) : bool :=
  match v with Num (Fin z) => z =? n | _ => false end.
Definition loadStore (f : store_file) : result replay_error Entries :=
  match f with
  | Missing => Ok []
  | Unreadable => Err StoreUnreadable
  | NotJson => Err StoreInvalidJson
  | Parsed v =>
      match v, get "entries" v with
      | Obj _, Arr l =>
          if is_num STORE_SCHEMA_VERSION (get "schemaVersion" v) then readEntries [] l
          else Err StoreBadShape
      | _, _ => Err StoreBadShape
      end
  end.

(** A running cache: its parameters, the live map and the file behind it. *)
Record cache := mkCache {
  maxEntries : Z;
  retentionToleranceMs : Z;
  entries : Entries;
  file : store_file;
}.

Definition createReplayCache (storePath : string) (maxE retention : jsnum) (f : store_file)
  : result replay_error cache :=
  _ ← ensure (negb (bool_decide (storePath = EmptyString))) BadStorePath;
  match maxE, retention with
  | Fin m, Fin r =>
      _ ← ensure (0 <? m) BadMaxEntries;
      _ ← ensure (0 <=? r) BadRetentionTolerance;
      es ← loadStore f;
      Ok (mkCache m r es f)
  | Fin m, _ => if 0 <? m then Err BadRetentionTolerance else Err BadMaxEntries
  | _, _ => Err BadMaxEntries
  end.

Definition with_entries (c : cache) (es : Entries) : cache :=
  mkCache (maxEntries c) (retentionToleranceMs c) es (file c).
(** The outcomes of a write: it returns, it throws before the rename, it
    throws after it. *)
Inductive write_outcome := Written | NotWritten | WrittenThenThrew.
Definition persist (io : write_outcome) (c : cache) : cache * result replay_error unit :=
  let c' := mkCache (maxEntries c) (retentionToleranceMs c) (entries c)
              (Parsed (store_json (entries c))) in
  match io with
  | Written => (c', Ok tt)
  | NotWritten => (c, Err PersistFailed)
  | WrittenThenThrew => (c', Err PersistFailed)
  end.

Definition size (c : cache) : Z := Z.of_nat (length (entries c)).

(** Past [expiresAt] by more than the tolerance. *)
Definition sweepable (c : cache) (nowMs : Z) (e : entry) : bool :=
  expiresAtMs e + retentionToleranceMs c <? nowMs.
Definition kept (c : cache) (nowMs : Z) (es : Entries) : Entries :=
  List.filter (λ ke, negb (sweepable c nowMs ke.2)) es.

Definition sweep (io : write_outcome) (nowMs : Z) (c : cache) : cache * result replay_error Z :=
  let es := kept c nowMs (entries c) in
  let removed := Z.of_nat (length (entries c)) - Z.of_nat (length es) in
  let c' := with_entries c es in
  if 0 <? removed then
    match persist io c' with
    | (c'', Ok _) => (c'', Ok removed)
    | (c'', Err e) => (c'', Err e)
    end
  else (c', Ok removed).

Section operations.
Context {dp : DateParse}.

Definition assertEntryInput (nonce jobId expiresAt : jsval) : result replay_error Z :=
  match nonce, jobId with
  | Str n, Str j =>
      if bool_decide (n = EmptyString) then Err BadNonce else
      if bool_decide (j = EmptyString) then Err BadJobId else
      match expiresAt with
      | Num (Fin z) => Ok z
      | Str s => match date_parse s with Some t => Ok t | None => Err BadExpiresAt end
      | _ => Err BadExpiresAt
      end
  | Str n, _ => if bool_decide (n = EmptyString) then Err BadNonce else Err BadJobId
  | _, _ => Err BadNonce
  end.

Definition str_of (v : jsval) : string := match v with Str s => s | _ => EmptyString end.

Definition check (c : cache) (nonce jobId expiresAt : jsval) : result replay_error verdict :=
  _ ← assertEntryInput nonce jobId expiresAt;
  Ok (if assoc_has (cacheKey (str_of nonce) (str_of jobId)) (entries c)
      then rejectReplay else Allowed).

(** [nowMs] is the injected clock, read when the cache is full; [io1] and
    [io2] are the outcomes of the sweep's and of the final write. *)
Definition consume (io1 io2 : write_outcome) (nowMs : Z) (c : cache) (nonce jobId expiresAt : jsval)
  : cache * result replay_error verdict :=
  match assertEntryInput nonce jobId expiresAt with
  | Err e => (c, Err e)
  | Ok expiresAtMs =>
      let n := str_of nonce in
      let j := str_of jobId in
      let key := cacheKey n j in
      if assoc_has key (entries c) then (c, Ok rejectReplay) else
      let '(c, swept) :=
        if maxEntries c <=? size c then sweep io1 nowMs c else (c, Ok 0) in
      match swept with
      | Err e => (c, Err e)
      | Ok _ =>
          if maxEntries c <=? size c then (c, Ok rejectReplay) else
          match persist io2
              (with_entries c (assoc_set key (mkEntry n j expiresAtMs) (entries c))) with
          | (c, Ok _) => (c, Ok Allowed)
          | (c, Err e) => (c, Err e)
          end
      end
  end.
End operations.

(** * The key is injective *)

Lemma print_Z_digits z rest :
  0 <= z → ∃ k, read_digits 0 (print_Z z +:+ rest) = read_digits (0 * k + z) rest.
Proof.
  intros Hz. unfold print_Z. replace (z <? 0) with false by (symmetry; apply Z.ltb_ge; lia).
  destruct (read_digits_print (S (Z.to_nat (Z.log2 z))) z) as (k & _ & Hk).
  { split; [done|]. rewrite Nat2Z.inj_succ, Z2Nat.id by apply Z.log2_nonneg.
    destruct (decide (z = 0)) as [->|]; [done|]. apply Z.log2_spec. lia. }
  exists (10 ^ k). apply Hk.
Qed.

Lemma print_Z_colon z w t1 t2 :
  0 <= z → 0 <= w →
  print_Z z +:+ String ":" t1 = print_Z w +:+ String ":" t2 → z = w ∧ t1 = t2.
Proof.
  intros Hz Hw E.
  destruct (print_Z_digits z (String ":" t1) Hz) as [k1 H1].
  destruct (print_Z_digits w (String ":" t2) Hw) as [k2 H2].
  rewrite E, H2 in H1.
  change (read_digits ?n (String ":" ?t)) with (n, String ":" t) in H1.
  injection H1 as H1 H3. split; [lia|done].
Qed.

Lemma slen_eq s t : slen s = slen t → String.length s = String.length t.
Proof. unfold slen. lia. Qed.

Lemma cacheKey_inj n j n' j' : cacheKey n j = cacheKey n' j' → n = n' ∧ j = j'.
Proof.
  unfold cacheKey. intros E.
  apply print_Z_colon in E as [El E]; [|apply slen_nonneg..].
  apply sapp_inj_len in E as [-> E]; [|by apply slen_eq].
  injection E as E. apply print_Z_colon in E as [_ ->]; [done|apply slen_nonneg..].
Qed.

(** * The invariant *)

Notation keys es := (es.*1).

Definition own_key (ke : string * entry) : Prop :=
  ke.1 = cacheKey (nonce ke.2) (jobId ke.2).
(** Every entry sits under its own key, once. *)
Definition entries_ok (es : Entries) : Prop := NoDup (keys es) ∧ Forall own_key es.
Lemma readEntry_json e : readEntry (entry_json e) = Ok e.
Proof. by destruct e. Qed.

Lemma readEntries_map es acc :
  entries_ok (acc ++ es) →
  readEntries acc (map (λ ke, entry_json ke.2) es) = Ok (acc ++ es).
Proof.
  revert acc. induction es as [|[k e] es IH]; intros acc [Hnd Hown];
    [by rewrite app_nil_r|].
  cbn [map readEntries mbind result_bind snd]. rewrite readEntry_json.
  cbn [mbind result_bind].
  apply Forall_app in Hown as Hown'. destruct Hown' as [_ [Hk _]%Forall_cons].
  unfold own_key in Hk. cbn in Hk. rewrite <- Hk, assoc_set_fresh.
  - rewrite IH; rewrite <- app_assoc; [done|]. by split.
  - rewrite fmap_app in Hnd. apply NoDup_app in Hnd as (_ & Hd & _).
    intros Hin. apply (Hd k Hin). cbn. apply list_elem_of_here.
Qed.

Lemma loadStore_store_json es :
  entries_ok es → loadStore (Parsed (store_json es)) = Ok es.
Proof. intros H. exact (readEntries_map es [] H). Qed.

Lemma assoc_set_own k e es :
  own_key (k, e) → Forall own_key es → Forall own_key (assoc_set k e es).
Proof.
  intros He Hes. induction Hes as [|[k' e'] es H Hes IH]; cbn; [by constructor|].
  case_decide; by constructor.
Qed.
Lemma assoc_set_entries_ok e es :
  entries_ok es → entries_ok (assoc_set (cacheKey (nonce e) (jobId e)) e es).
Proof.
  intros [Hnd Hown]. split; [by apply assoc_set_keys|by apply assoc_set_own].
Qed.

Lemma readEntries_ok acc l es : entries_ok acc → readEntries acc l = Ok es → entries_ok es.
Proof.
  revert acc. induction l as [|v l IH]; intros acc Hacc; cbn [readEntries].
  { by intros [= <-]. }
  intros (e & _ & H)%bind_ok. eapply IH, H. by apply assoc_set_entries_ok.
Qed.
Lemma loadStore_ok f es : loadStore f = Ok es → entries_ok es.
Proof.
  unfold loadStore. repeat case_match; try done.
  - intros [= <-]. split; constructor.
  - apply readEntries_ok. split; constructor.
Qed.

Lemma kept_spec c now es ke :
  ke ∈ kept c now es ↔ sweepable c now ke.2 = false ∧ ke ∈ es.
Proof.
  unfold kept. rewrite list_elem_of_In, filter_In, negb_true_iff, <- list_elem_of_In.
  tauto.
Qed.
Lemma kept_sublist c now es : sublist (kept c now es) es.
Proof.
  unfold kept. induction es as [|ke es IH]; cbn; [done|].
  case_match; by constructor.
Qed.
Lemma kept_ok c now es : entries_ok es → entries_ok (kept c now es).
Proof.
  intros [Hnd Hown]. split.
  - eapply sublist_NoDup; [apply Hnd|]. apply fmap_sublist, kept_sublist.
  - rewrite Forall_forall in *. intros ke [_ H]%kept_spec. auto.
Qed.

(** * Consumed stays consumed *)

Inductive op :=
| OConsume (io1 io2 : write_outcome) (nowMs : Z) (nonce jobId expiresAt : jsval)
| OSweep (io : write_outcome) (nowMs : Z)
| ORestart (maxE : jsnum).
(** The clock readings of an operation. *)
Definition op_before (t : Z) (o : op) : Prop :=
  match o with
  | OConsume _ _ now _ _ _ | OSweep _ now => now <= t
  | ORestart _ => True
  end.

Section trace.
Context {dp : DateParse}.

(** One operation; a restart rebuilds the cache from its file, and leaves
    the agent down when that throws. *)
Definition step (c : cache) (o : op) : cache :=
  match o with
  | OConsume io1 io2 now n j e => (consume io1 io2 now c n j e).1
  | OSweep io now => (sweep io now c).1
  | ORestart m =>
      match createReplayCache "replay.json" m (Fin (retentionToleranceMs c)) (file c) with
      | Ok c' => c'
      | Err _ => c
      end
  end.
Definition run (c : cache) (os : list op) : cache := fold_left step os c.

(** [e] is recorded in memory and on disk. *)
Definition recorded (e : entry) (c : cache) : Prop :=
  let ke := (cacheKey (nonce e) (jobId e), e) in
  entries_ok (entries c) ∧ ke ∈ entries c ∧
  ∃ es, loadStore (file c) = Ok es ∧ ke ∈ es.

Lemma persist_spec io c c' r :
  persist io c = (c', r) →
  entries c' = entries c ∧ retentionToleranceMs c' = retentionToleranceMs c ∧
  maxEntries c' = maxEntries c ∧
  (file c' = file c ∧ io = NotWritten ∨ file c' = Parsed (store_json (entries c))).
Proof. destruct io; intros [= <- <-]; cbn; auto 10. Qed.

Lemma persist_recorded io c c' r e :
  entries_ok (entries c) →
  (cacheKey (nonce e) (jobId e), e) ∈ entries c →
  (io = Written ∨ ∃ es, loadStore (file c) = Ok es ∧ (cacheKey (nonce e) (jobId e), e) ∈ es) →
  persist io c = (c', r) → recorded e c' ∧ retentionToleranceMs c' = retentionToleranceMs c.
Proof.
  intros Hok Hin Hf Hp. apply persist_spec in Hp as (He & Ht & _ & Hfile).
  split; [|done]. unfold recorded. rewrite He. split; [done|]. split; [done|].
  destruct Hfile as [[-> ->]|Hfile].
  - destruct Hf as [?|?]; [done|done].
  - exists (entries c). rewrite Hfile. split; [by apply loadStore_store_json|done].
Qed.

Lemma sweep_entries io now c : entries (sweep io now c).1 = kept c now (entries c).
Proof. unfold sweep. case_match; [|done]. by destruct io. Qed.
Lemma sweep_params io now c :
  retentionToleranceMs (sweep io now c).1 = retentionToleranceMs c ∧
  maxEntries (sweep io now c).1 = maxEntries c.
Proof. unfold sweep. case_match; [|done]. by destruct io. Qed.

Lemma sweep_recorded io now c e :
  recorded e c → now <= expiresAtMs e + retentionToleranceMs c →
  recorded e (sweep io now c).1 ∧
  retentionToleranceMs (sweep io now c).1 = retentionToleranceMs c.
Proof.
  intros (Hok & Hin & Hf) Hnow.
  assert ((cacheKey (nonce e) (jobId e), e) ∈ kept c now (entries c)) as Hk.
  { apply kept_spec. split; [|done]. unfold sweepable. cbn. apply Z.ltb_ge. lia. }
  unfold sweep. destruct (0 <? _).
  - destruct (persist io _) as [c2 r] eqn:Hp.
    eapply persist_recorded in Hp; [|by apply kept_ok|exact Hk|by right].
    destruct r; exact Hp.
  - split; [|done]. split; [by apply kept_ok|]. by split.
Qed.

Lemma assoc_set_recorded e c k e' :
  assoc_has k (entries c) = false →
  k = cacheKey (nonce e') (jobId e') →
  recorded e c → recorded e (with_entries c (assoc_set k e' (entries c))).
Proof.
  intros Hk -> (Hok & Hin & Hf). split; [|split]; cbn.
  - by apply assoc_set_entries_ok.
  - rewrite assoc_set_fresh by by apply assoc_has_false. apply elem_of_app. by left.
  - done.
Qed.

Lemma assoc_has_kept k c now :
  assoc_has k (entries c) = false → assoc_has k (kept c now (entries c)) = false.
Proof.
  rewrite !assoc_has_false. intros Hk Hin. apply Hk.
  apply list_elem_of_fmap in Hin as (ke & -> & [_ H]%kept_spec).
  apply list_elem_of_fmap. by exists ke.
Qed.

(** What [consume] does once past its guards. *)
Lemma consume_cases io1 io2 now c n j e c' r :
  consume io1 io2 now c n j e = (c', r) →
  (∃ err, assertEntryInput n j e = Err err ∧ c' = c ∧ r = Err err) ∨
  ∃ t, assertEntryInput n j e = Ok t ∧
  let key := cacheKey (str_of n) (str_of j) in
  if assoc_has key (entries c) then c' = c ∧ r = Ok rejectReplay else
  ∃ c1, (c1 = c ∧ size c < maxEntries c ∨
         maxEntries c <= size c ∧ c1 = (sweep io1 now c).1) ∧
    ((c' = c1 ∧ r ≠ Ok Allowed) ∨
     size c1 < maxEntries c1 ∧
     persist io2 (with_entries c1
       (assoc_set key (mkEntry (str_of n) (str_of j) t) (entries c1))) = (c', Ok tt) ∧
       r = Ok Allowed ∨
     ∃ err, size c1 < maxEntries c1 ∧ persist io2 (with_entries c1
       (assoc_set key (mkEntry (str_of n) (str_of j) t) (entries c1))) = (c', Err err) ∧
       r = Err err).
Proof.
  unfold consume. destruct (assertEntryInput n j e) as [t|err].
  2: { intros [= <- <-]. left. eauto. }
  intros H. right. exists t. split; [done|]. cbv zeta.
  destruct (assoc_has _ _); [by injection H as <- <-|].
  destruct (maxEntries c <=? size c) eqn:Hm; split_bool.
  - destruct (sweep io1 now c) as [c1 [sw|err]] eqn:Hs;
      exists c1; (split; [right; split; [lia|done]|]).
    + destruct (maxEntries c1 <=? size c1) eqn:Hm1; split_bool.
      * injection H as <- <-. left. split; [done|]. unfold rejectReplay. congruence.
      * destruct (persist _ _) as [c2 [[]|err]]; injection H as <- <-; eauto 10.
    + injection H as <- <-. left. split; [done|congruence].
  - exists c. split; [left; split; [done|lia]|].
    rewrite (proj2 (Z.leb_gt _ _)) in H by lia.
    destruct (persist _ _) as [c2 [[]|err]]; injection H as <- <-; right; eauto 10.
Qed.
End trace.

Section trace_lemmas.
Context {dp : DateParse}.

Lemma consume_recorded io1 io2 now c n j x e :
  recorded e c → now <= expiresAtMs e + retentionToleranceMs c →
  recorded e (consume io1 io2 now c n j x).1 ∧
  retentionToleranceMs (consume io1 io2 now c n j x).1 = retentionToleranceMs c.
Proof.
  intros Hr Hnow. destruct (consume io1 io2 now c n j x) as [c' r] eqn:Hc. cbn [fst].
  apply consume_cases in Hc as [(err & _ & -> & _)|(t & _ & Hc)]; [done|].
  cbv zeta in Hc. destruct (assoc_has _ _) eqn:Hk; [by destruct Hc as [-> _]|].
  destruct Hc as (c1 & Hc1 & Hc).
  assert (recorded e c1 ∧ retentionToleranceMs c1 = retentionToleranceMs c ∧
    assoc_has (cacheKey (str_of n) (str_of j)) (entries c1) = false) as (Hr1 & Ht1 & Hk1).
  { destruct Hc1 as [[-> _]|[_ ->]]; [done|].
    destruct (sweep_recorded io1 now c e Hr Hnow) as [??]. split; [done|]. split; [done|].
    rewrite sweep_entries. by apply assoc_has_kept. }
  assert (∀ r', persist io2 (with_entries c1 (assoc_set (cacheKey (str_of n) (str_of j))
    (mkEntry (str_of n) (str_of j) t) (entries c1))) = (c', r') →
    recorded e c' ∧ retentionToleranceMs c' = retentionToleranceMs c) as Hp.
  { intros r' Hp.
    destruct (assoc_set_recorded e c1 _ (mkEntry (str_of n) (str_of j) t) Hk1 eq_refl Hr1)
      as (Ho & Hi & Hf).
    rewrite <- Ht1. eapply persist_recorded in Hp; [exact Hp|done|done|by right]. }
  destruct Hc as [[-> _]|[(_ & H & _)|(err & _ & H & _)]]; [done| |]; by eapply Hp.
Qed.

Lemma consume_tolerance io1 io2 now c n j x :
  retentionToleranceMs (consume io1 io2 now c n j x).1 = retentionToleranceMs c.
Proof.
  destruct (consume io1 io2 now c n j x) as [c' r] eqn:Hc. cbn [fst].
  apply consume_cases in Hc as [(err & _ & -> & _)|(t & _ & Hc)]; [done|].
  cbv zeta in Hc. destruct (assoc_has _ _); [by destruct Hc as [-> _]|].
  destruct Hc as (c1 & Hc1 & Hc).
  assert (retentionToleranceMs c1 = retentionToleranceMs c) as <-
    by (destruct Hc1 as [[-> _]|[_ ->]]; [done|apply sweep_params]).
  destruct Hc as [[-> _]|[(_ & H & _)|(err & _ & H & _)]]; [done| |];
    by apply persist_spec in H as (_ & ? & _).
Qed.

Lemma step_recorded o e c :
  recorded e c → op_before (expiresAtMs e + retentionToleranceMs c) o →
  recorded e (step c o) ∧ retentionToleranceMs (step c o) = retentionToleranceMs c.
Proof.
  destruct o as [io1 io2 now n j x|io now|m]; cbn; intros Hr Hb.
  - by apply consume_recorded.
  - by apply sweep_recorded.
  - unfold createReplayCache. cbn [ensure bool_decide negb mbind result_bind].
    destruct m as [m| |?]; [|done..].
    destruct (0 <? m); cbn [ensure mbind result_bind]; [|done].
    destruct (0 <=? _); cbn [ensure mbind result_bind]; [|done].
    destruct Hr as (Hok & Hin & es & Hl & Hes).
    rewrite Hl. cbn. split; [|done].
    split; [by apply loadStore_ok in Hl|]. split; [done|]. by exists es.
Qed.

Lemma run_recorded os e c :
  recorded e c → Forall (op_before (expiresAtMs e + retentionToleranceMs c)) os →
  recorded e (run c os) ∧ retentionToleranceMs (run c os) = retentionToleranceMs c.
Proof.
  revert c. induction os as [|o os IH]; intros c Hr Hos; [done|].
  apply Forall_cons in Hos as [Ho Hos]. cbn.
  destruct (step_recorded o e c Hr Ho) as [Hr' Ht]. rewrite <- Ht in Hos.
  rewrite <- Ht. by apply IH.
Qed.

Lemma recorded_has e c :
  recorded e c → assoc_has (cacheKey (nonce e) (jobId e)) (entries c) = true.
Proof.
  intros (_ & Hin & _). apply assoc_has_true, list_elem_of_fmap.
  by exists (cacheKey (nonce e) (jobId e), e).
Qed.

Lemma consume_allowed_recorded io1 io2 now c n j x c' :
  entries_ok (entries c) → consume io1 io2 now c n j x = (c', Ok Allowed) →
  ∃ t, assertEntryInput n j x = Ok t ∧
    assoc_has (cacheKey (str_of n) (str_of j)) (entries c) = false ∧
    recorded (mkEntry (str_of n) (str_of j) t) c' ∧
    retentionToleranceMs c' = retentionToleranceMs c ∧ maxEntries c' = maxEntries c ∧
    loadStore (file c') = Ok (entries c') ∧ size c' <= maxEntries c'.
Proof.
  intros Hok Hc. apply consume_cases in Hc as [(?&?&?&?)|(t & Ha & Hc)]; [done|].
  exists t. split; [done|]. cbv zeta in Hc.
  destruct (assoc_has _ _) eqn:Hk; [by destruct Hc|]. split; [done|].
  destruct Hc as (c1 & Hc1 & [[_ ?]|[(Hs & Hp & _)|(?&?&?&?)]]); [done| |done].
  assert (entries_ok (entries c1) ∧ retentionToleranceMs c1 = retentionToleranceMs c ∧
    maxEntries c1 = maxEntries c ∧
    assoc_has (cacheKey (str_of n) (str_of j)) (entries c1) = false)
    as (Hok1 & Ht1 & Hm1 & Hk1).
  { destruct Hc1 as [[-> _]|[_ ->]]; [done|]. rewrite sweep_entries.
    destruct (sweep_params io1 now c) as [??].
    split; [by apply kept_ok|]. split; [done|]. split; [done|]. by apply assoc_has_kept. }
  set (e := mkEntry (str_of n) (str_of j) t) in *.
  assert (entries_ok (assoc_set (cacheKey (str_of n) (str_of j)) e (entries c1))) as Hok2
    by exact (assoc_set_entries_ok e _ Hok1).
  assert (io2 = Written) as -> by (by destruct io2).
  injection Hp as <-. cbn [entries file maxEntries retentionToleranceMs with_entries].
  assert ((cacheKey (nonce e) (jobId e), e) ∈
    assoc_set (cacheKey (str_of n) (str_of j)) e (entries c1)) as Hin.
  { rewrite assoc_set_fresh by by apply assoc_has_false.
    apply elem_of_app. right. apply list_elem_of_here. }
  split. { split; [done|]. split; [done|]. eexists.
    split; [by apply loadStore_store_json|exact Hin]. }
  split; [done|]. split; [done|]. split; [by apply loadStore_store_json|].
  revert Hs. unfold size. cbn [entries].
  rewrite assoc_set_fresh by by apply assoc_has_false. rewrite length_app. cbn. lia.
Qed.
End trace_lemmas.

(** Replay protection.  Once [consume] admits a nonce and job id, no
    sequence of later consumes, sweeps and agent restarts (failed writes
    included), as long as the clock has not passed the pair's expiry plus the
    retention tolerance, leads to a state in which the pair is admitted
    again, whatever expiry the replayed job claims. *)
Theorem consume_never_readmits {dp : DateParse}
    (io1 io2 : write_outcome) (now t : Z) (c c1 : cache) (n j x : jsval) (os : list op) :
  entries_ok (entries c) →
  consume io1 io2 now c n j x = (c1, Ok Allowed) →
  assertEntryInput n j x = Ok t →
  Forall (op_before (t + retentionToleranceMs c)) os →
  ∀ io1' io2' now' x' t', assertEntryInput n j x' = Ok t' →
    check (run c1 os) n j x' = Ok rejectReplay ∧
    consume io1' io2' now' (run c1 os) n j x' = (run c1 os, Ok rejectReplay).
Proof.
  intros Hok Hc Ht Hos io1' io2' now' x' t' Hx'.
  apply consume_allowed_recorded in Hc as (t0 & Ht0 & _ & Hr & Htol & _); [|done].
  assert (t0 = t) as -> by congruence. rewrite <- Htol in Hos.
  destruct (run_recorded os _ _ Hr Hos) as [Hr' _].
  apply recorded_has in Hr'. cbn in Hr'.
  unfold check, consume. rewrite Hx'. cbn [mbind result_bind]. by rewrite Hr'.
Qed.

Definition demo_cache : cache := mkCache 2 30000 [] Missing.
Lemma consume_never_readmits_witness : let dp := iso_date_parse in
  check (run (consume Written Written 5 demo_cache (Str "n1") (Str "j1") (Num (Fin 1000))).1
           [OSweep Written 2000; ORestart (Fin 2);
            OConsume Written NotWritten 31000 (Str "n2") (Str "j2") (Num (Fin 9000));
            ORestart (Fin 5)])
        (Str "n1") (Str "j1") (Num (Fin 99999)) = Ok rejectReplay.
Proof.
  refine (proj1 (@consume_never_readmits iso_date_parse Written Written 5 1000 demo_cache _
    (Str "n1") (Str "j1") (Num (Fin 1000)) _ _ _ _ _ Written Written 0 (Num (Fin 99999)) 99999 _)).
  - split; constructor.
  - reflexivity.
  - reflexivity.
  - cbn. repeat constructor; cbn; lia.
  - reflexivity.
Defined.

(** An admitted [consume] is durable and bounded: the pair was not
    recorded before, the store file now reloads to exactly the live map, and
    the map is within [maxEntries]. *)
Theorem consume_durable {dp : DateParse}
    (io1 io2 : write_outcome) (now : Z) (c c1 : cache) (n j x : jsval) :
  entries_ok (entries c) → 0 < maxEntries c → 0 <= retentionToleranceMs c →
  consume io1 io2 now c n j x = (c1, Ok Allowed) →
  check c n j x = Ok Allowed ∧ size c1 <= maxEntries c ∧
  createReplayCache "store" (Fin (maxEntries c)) (Fin (retentionToleranceMs c)) (file c1)
    = Ok c1.
Proof.
  intros Hok Hm Ht Hc.
  apply consume_allowed_recorded in Hc as (t & Ha & Hk & _ & Htol & Hmax & Hl & Hs); [|done].
  split; [|split; [lia|]].
  - unfold check. rewrite Ha. cbn [mbind result_bind]. by rewrite Hk.
  - unfold createReplayCache. rewrite bool_decide_eq_false_2 by done.
    cbn [ensure negb mbind result_bind]. rewrite (proj2 (Z.ltb_lt _ _)), (proj2 (Z.leb_le _ _)), Hl by lia.
    cbn [ensure mbind result_bind]. destruct c1; cbn in *; congruence.
Qed.

Lemma consume_durable_witness : let dp := iso_date_parse in
  createReplayCache "store" (Fin 2) (Fin 30000)
    (file (consume Written Written 5 demo_cache (Str "n1") (Str "j1") (Num (Fin 1000))).1)
  = Ok (consume Written Written 5 demo_cache (Str "n1") (Str "j1") (Num (Fin 1000))).1.
Proof.
  refine (proj2 (proj2 (@consume_durable iso_date_parse Written Written 5 demo_cache _
    (Str "n1") (Str "j1") (Num (Fin 1000)) _ _ _ _))); [split; constructor|cbn; lia..|reflexivity].
Defined.

(** A full cache never evicts a nonce that could still be accepted: every
    entry [consume] removes had expired by more than the tolerance, and when
    none had, a new pair is rejected and the map is unchanged. *)
Theorem consume_full_keeps_unexpired {dp : DateParse}
    (io1 io2 : write_outcome) (now : Z) (c : cache) (n j x : jsval) (t : Z) :
  assertEntryInput n j x = Ok t →
  (∀ ke, ke ∈ entries c → ke ∉ entries (consume io1 io2 now c n j x).1 →
     expiresAtMs ke.2 + retentionToleranceMs c < now) ∧
  (maxEntries c <= size c →
   Forall (λ ke, now <= expiresAtMs ke.2 + retentionToleranceMs c) (entries c) →
   consume io1 io2 now c n j x = (c, Ok rejectReplay)).
Proof.
  intros Ha. split.
  - intros ke Hin Hout. destruct (consume io1 io2 now c n j x) as [c' r] eqn:Hc.
    cbn [fst] in Hout.
    apply consume_cases in Hc as [(?&?&->&_)|(t' & _ & Hc)]; [done|]. cbv zeta in Hc.
    destruct (assoc_has _ _) eqn:Hk; [by destruct Hc as [-> _]|].
    destruct Hc as (c1 & Hc1 & Hc).
    assert (ke ∉ entries c1) as Hout1.
    { intros Hin1. apply Hout. destruct Hc1 as [[-> _]|[_ Hc1]].
      - destruct Hc as [[-> _]|[(_ & Hp & _)|(? & _ & Hp & _)]]; [done| |];
          apply persist_spec in Hp as (-> & _); cbn;
          (rewrite assoc_set_fresh by by apply assoc_has_false);
          apply elem_of_app; by left.
      - assert (assoc_has (cacheKey (str_of n) (str_of j)) (entries c1) = false) as Hk1
          by (rewrite Hc1, sweep_entries; by apply assoc_has_kept).
        destruct Hc as [[-> _]|[(_ & Hp & _)|(? & _ & Hp & _)]]; [done| |];
          apply persist_spec in Hp as (-> & _); cbn;
          (rewrite assoc_set_fresh by by apply assoc_has_false);
          apply elem_of_app; by left. }
    destruct Hc1 as [[-> _]|[_ ->]]; [done|]. rewrite sweep_entries in Hout1.
    destruct (sweepable c now ke.2) eqn:Hsw.
    + unfold sweepable in Hsw. split_bool. done.
    + exfalso. apply Hout1, kept_spec. done.
  - intros Hm Hall. unfold consume. rewrite Ha. destruct (assoc_has _ _); [done|].
    rewrite (proj2 (Z.leb_le _ _)) by done.
    assert (kept c now (entries c) = entries c) as Hk.
    { unfold kept. induction Hall as [|ke es H _ IH]; [done|]. cbn.
      unfold sweepable at 1. rewrite (proj2 (Z.ltb_ge _ _)) by lia. cbn. by rewrite IH. }
    assert (with_entries c (entries c) = c) as Hw by (by destruct c).
    unfold sweep. rewrite Hk, Z.sub_diag, Hw. cbn.
    by rewrite (proj2 (Z.leb_le _ _)) by done.
Qed.

Lemma consume_full_keeps_unexpired_witness : let dp := iso_date_parse in
  let c := (consume Written Written 5 (mkCache 1 30000 [] Missing)
              (Str "n1") (Str "j1") (Num (Fin 1000))).1 in
  consume Written Written 31000 c (Str "n2") (Str "j2") (Num (Fin 90000))
  = (c, Ok rejectReplay).
Proof.
  cbv zeta.
  refine (proj2 (@consume_full_keeps_unexpired iso_date_parse Written Written 31000 _
    (Str "n2") (Str "j2") (Num (Fin 90000)) 90000 _) _ _).
  - reflexivity.
  - vm_compute. discriminate.
  - vm_compute. repeat constructor; discriminate.
Defined.
