(* ===== verification/Clock.v ===== *)
(** The clock-offset estimator: packages/agent/src/clock/index.js.

    The estimator's state is the rolling window of samples, oldest first.
    [Date.parse] of the HTTP Date header is the [DateParse] interface. *)
From S2P Require Import Prelude Dates Json.
Open Scope Z_scope.

Definition DEFAULT_MAX_SAMPLES : Z := 5.

Inductive clock_error := BadMaxSamples | BadLocalNow.
#[global] Instance clock_error_eq_dec : EqDecision clock_error.
Proof. solve_decision. Defined.

Record estimator := mkEstimator { maxSamples : nat; samples : list Z }.

Definition createClockOffsetEstimator (maxS : jsnum) : result clock_error estimator :=
  match maxS with
  | Fin m => _ ← ensure (0 <? m) BadMaxSamples; Ok (mkEstimator (Z.to_nat m) [])
  | _ => Err BadMaxSamples
  end.

(** [samples.push(x); if (samples.length > maxSamples) samples.shift();] *)
Definition push_sample (est : estimator) (x : Z) : estimator :=
  let s := samples est ++ [x] in
  mkEstimator (maxSamples est)
    (if (maxSamples est <? length s)%nat then tail s else s).

Definition estimateFromResponseDate {dp : DateParse} (est : estimator)
    (dateHeaderValue : jsval) (localNowMs : jsnum)
  : result clock_error (estimator * option Z) :=
  match localNowMs with
  | Fin now =>
      match dateHeaderValue with
      | Str s =>
          if bool_decide (s = EmptyString) then Ok (est, None) else
          match date_parse s with
          | None => Ok (est, None)
          | Some serverMs => Ok (push_sample est (serverMs - now), Some (serverMs - now))
          end
      | _ => Ok (est, None)
      end
  | _ => Err BadLocalNow
  end.

(** [[...samples].sort((a, b) => a - b)]. *)
Definition sorted_samples (l : list Z) : list Z := merge_sort Z.le l.

(** The median, rounded half up as [Math.round] rounds. *)
Definition getOffsetMs (est : estimator) : option Z :=
  match samples est with
  | [] => None
  | _ =>
      let sorted := sorted_samples (samples est) in
      let mid := (length sorted / 2)%nat in
      if (length sorted mod 2 =? 1)%nat then sorted !! mid
      else
        a ← sorted !! (mid - 1)%nat;
        b ← sorted !! mid;
        Some ((a + b + 1) / 2)
  end.

Definition sampleCount (est : estimator) : nat := length (samples est).

(** A run: the headers and receive times of successive responses. *)
Fixpoint ingest {dp : DateParse} (est : estimator) (rs : list (jsval * Z)) : estimator :=
  match rs with
  | [] => est
  | (h, now) :: rs =>
      match estimateFromResponseDate est h (Fin now) with
      | Ok (est', _) => ingest est' rs
      | Err _ => ingest est rs
      end
  end.
(** The usable samples of a run, in order. *)
Definition usable {dp : DateParse} (r : jsval * Z) : option Z :=
  match r.1 with
  | Str s => if bool_decide (s = EmptyString) then None
             else t ← date_parse s; Some (t - r.2)
  | _ => None
  end.
Definition offsets_of {dp : DateParse} (rs : list (jsval * Z)) : list Z := omap usable rs.
Definition last_n {A} (n : nat) (l : list A) : list A := drop (length l - n) l.

Lemma skipn_tail_drop {A} n (l : list A) : drop (S n) l = tail (drop n l).
Proof. revert n. induction l as [|x l IH]; intros [|n]; cbn; try done; apply IH. Qed.

Lemma push_sample_last est all x :
  (0 < maxSamples est)%nat → samples est = last_n (maxSamples est) all →
  samples (push_sample est x) = last_n (maxSamples est) (all ++ [x]).
Proof.
  intros Hm Hs. unfold push_sample. cbn [samples]. rewrite Hs. unfold last_n.
  rewrite !length_app, length_drop. cbn [length]. set (m := maxSamples est) in *.
  destruct (Nat.ltb m (length all - (length all - m) + 1)) eqn:E.
  - apply Nat.ltb_lt in E.
    rewrite <- (drop_app_le all [x] (length all - m)) by lia.
    rewrite <- skipn_tail_drop. f_equal. lia.
  - apply Nat.ltb_ge in E. rewrite <- (drop_app_le all [x] (length all - m)) by lia.
    f_equal. lia.
Qed.

(** The rolling window.  However many responses arrive, in whatever
    order, missing and unparseable Date headers leave no trace and the
    window is exactly the last [maxSamples] usable offsets. *)
Theorem ingest_window {dp : DateParse} (maxS : Z) (est0 : estimator) (rs : list (jsval * Z)) :
  createClockOffsetEstimator (Fin maxS) = Ok est0 →
  samples (ingest est0 rs) = last_n (Z.to_nat maxS) (offsets_of rs) ∧
  (sampleCount (ingest est0 rs) <= Z.to_nat maxS)%nat.
Proof.
  intros H. cbn in H. destruct (0 <? maxS) eqn:Hm; [|done]. cbn in H. split_bool.
  injection H as <-.
  assert (∀ rs est pre, (0 < maxSamples est)%nat →
    samples est = last_n (maxSamples est) pre →
    samples (ingest est rs) = last_n (maxSamples est) (pre ++ offsets_of rs)) as Hgen.
  { clear. intros rs. induction rs as [|[h now] rs IH]; intros est pre Hm Hs.
    - cbn. by rewrite app_nil_r.
    - cbn [ingest estimateFromResponseDate]. unfold offsets_of. cbn [omap list_omap].
      change (usable (h, now)) with (usable (h, now)). unfold usable at 1. cbn [fst snd].
      destruct h; try by apply IH.
      case_bool_decide; [by apply IH|]. destruct (date_parse s) as [t|]; [|by apply IH].
      cbn [mbind option_bind]. rewrite (IH _ (pre ++ [t - now])); [|done|].
      + by rewrite <- app_assoc.
      + exact (push_sample_last est pre _ Hm Hs). }
  specialize (Hgen rs (mkEstimator (Z.to_nat maxS) []) []). cbn [samples maxSamples] in Hgen.
  assert (samples (ingest (mkEstimator (Z.to_nat maxS) []) rs)
    = last_n (Z.to_nat maxS) (offsets_of rs)) as Hs by (apply Hgen; [lia|done]).
  split; [done|]. unfold sampleCount. rewrite Hs. unfold last_n. rewrite length_drop. lia.
Qed.

Lemma ingest_window_witness : let dp := iso_date_parse in
  samples (ingest (mkEstimator 2 [])
    [(Str "2026-01-01T00:00:00.000Z", 1767225600000 - 5); (Str "x", 1); (Undef, 7);
     (Str "2026-01-01T00:00:01.000Z", 1767225600000); (Str "2026-01-01T00:00:02.000Z", 1767225601000)])
  = [1000; 1000].
Proof.
  cbv zeta. rewrite (proj1 (@ingest_window iso_date_parse 2 (mkEstimator 2 []) _ eq_refl)).
  reflexivity.
Defined.

(** * The median *)

Section median.
Variables lo hi : Z.
Definition inside (x : Z) : bool := (lo <=? x) && (x <=? hi).
Definition count_inside (l : list Z) : nat := length (List.filter inside l).

Lemma count_inside_app l k : count_inside (l ++ k) = (count_inside l + count_inside k)%nat.
Proof. unfold count_inside. by rewrite List.filter_app, length_app. Qed.
Lemma count_inside_le l : (count_inside l <= length l)%nat.
Proof. unfold count_inside. induction l as [|x l IH]; cbn; [lia|]. case_match; cbn; lia. Qed.
Lemma count_inside_none l : Forall (λ x, inside x = false) l → count_inside l = 0%nat.
Proof.
  unfold count_inside. induction 1 as [|x l Hx _ IH]; cbn; [done|]. by rewrite Hx.
Qed.
Lemma count_inside_perm l k : l ≡ₚ k → count_inside l = count_inside k.
Proof.
  unfold count_inside. induction 1 as [|x l k _ IH|x y l|]; cbn;
    repeat case_match; cbn; congruence.
Qed.

(** In a sorted list an element below [lo] has nothing inside before it,
    one above [hi] nothing after it. *)
Lemma sorted_below s i x :
  StronglySorted Z.le s → s !! i = Some x → x < lo →
  (count_inside s + S i <= length s)%nat.
Proof.
  intros Hs Hi Hx. pose proof (lookup_lt_Some _ _ _ Hi) as Hlen.
  rewrite <- (take_drop (S i) s) at 1. rewrite count_inside_app, count_inside_none.
  { pose proof (count_inside_le (drop (S i) s)). rewrite length_drop in *. lia. }
  rewrite <- (take_drop_middle _ _ _ Hi) in Hs.
  rewrite (take_S_r _ _ _ Hi). apply Forall_app. split.
  - apply Forall_forall. intros y Hy. unfold inside.
    rewrite (proj2 (Z.leb_gt _ _)); [done|].
    assert (y <= x); [|lia].
    eapply (StronglySorted_app_1_elem_of Z.le); [exact Hs|exact Hy|apply list_elem_of_here].
  - repeat constructor. unfold inside. by rewrite (proj2 (Z.leb_gt _ _)).
Qed.
Lemma sorted_above s i x :
  StronglySorted Z.le s → s !! i = Some x → hi < x → (count_inside s <= i)%nat.
Proof.
  intros Hs Hi Hx. pose proof (lookup_lt_Some _ _ _ Hi) as Hlen.
  rewrite <- (take_drop i s) at 1. rewrite count_inside_app.
  rewrite (count_inside_none (drop i s)).
  { pose proof (count_inside_le (take i s)). rewrite length_take in *. lia. }
  rewrite (drop_S _ _ _ Hi). rewrite <- (take_drop_middle _ _ _ Hi) in Hs.
  apply StronglySorted_app_1_r in Hs.
  apply StronglySorted_inv in Hs as [_ Hs]. constructor.
  - unfold inside. rewrite (proj2 (Z.leb_gt x hi)) by done. apply andb_false_r.
  - eapply Forall_impl; [exact Hs|]. intros y Hy. cbn in Hy. unfold inside.
    rewrite (proj2 (Z.leb_gt y hi)) by lia. apply andb_false_r.
Qed.
End median.

Lemma sorted_samples_sorted l : StronglySorted Z.le (sorted_samples l).
Proof. apply StronglySorted_merge_sort; typeclasses eauto. Qed.
Lemma sorted_samples_perm l : sorted_samples l ≡ₚ l.
Proof. apply merge_sort_Permutation. Qed.

(** The estimate discards outliers.  When more than half of the samples
    of a non-empty window lie in an interval, so does the reported offset,
    however wild the other samples are. *)
Theorem getOffsetMs_robust (est : estimator) (lo hi : Z) :
  (length (samples est) < 2 * count_inside lo hi (samples est))%nat →
  ∃ off, getOffsetMs est = Some off ∧ lo <= off <= hi.
Proof.
  unfold getOffsetMs. set (l := samples est). intros Hc.
  destruct l as [|z l'] eqn:El; [cbn in Hc; lia|]. rewrite <- El in *.
  assert (0 < length l)%nat as Hpos by (rewrite El; cbn; lia). clear El z l'.
  rewrite <- (count_inside_perm _ _ _ _ (sorted_samples_perm l)) in Hc.
  rewrite <- (Permutation_length (sorted_samples_perm l)) in *.
  pose proof (sorted_samples_sorted l) as Hs. set (s := sorted_samples l) in *.
  pose proof (Nat.div_mod (length s) 2 ltac:(lia)) as Hdm.
  pose proof (Nat.mod_upper_bound (length s) 2 ltac:(lia)) as Hub.
  assert (∀ i x, s !! i = Some x →
    (length s <= 2 * S i)%nat → lo <= x) as Hlo.
  { intros i x Hi Hle. destruct (Z.lt_ge_cases x lo) as [Hx|]; [|done].
    pose proof (sorted_below lo hi s i x Hs Hi Hx). lia. }
  assert (∀ i x, s !! i = Some x → (2 * i <= length s)%nat → x <= hi) as Hhi.
  { intros i x Hi Hle. destruct (Z.lt_ge_cases hi x) as [Hx|]; [|done].
    pose proof (sorted_above lo hi s i x Hs Hi Hx). lia. }
  destruct (_ mod 2 =? 1)%nat eqn:Hodd.
  - apply Nat.eqb_eq in Hodd.
    destruct (lookup_lt_is_Some_2 s (length s / 2)) as [x Hx]; [lia|].
    exists x. rewrite Hx. split; [done|].
    pose proof (Hlo _ _ Hx). pose proof (Hhi _ _ Hx). lia.
  - apply Nat.eqb_neq in Hodd.
    destruct (lookup_lt_is_Some_2 s (length s / 2 - 1)) as [a Ha]; [lia|].
    destruct (lookup_lt_is_Some_2 s (length s / 2)) as [b Hb]; [lia|].
    rewrite Ha, Hb. cbn [mbind option_bind]. eexists. split; [done|].
    pose proof (Hlo _ _ Ha). pose proof (Hhi _ _ Ha).
    pose proof (Hlo _ _ Hb). pose proof (Hhi _ _ Hb).
    pose proof (Z.div_mod (a + b + 1) 2 ltac:(lia)).
    pose proof (Z.mod_pos_bound (a + b + 1) 2 ltac:(lia)). lia.
Qed.

Lemma getOffsetMs_robust_witness :
  ∃ off, getOffsetMs (mkEstimator 5 [120; -90000; 118; 7000000; 121]) = Some off ∧
    118 <= off <= 121.
Proof. apply (getOffsetMs_robust (mkEstimator 5 [120; -90000; 118; 7000000; 121])). vm_compute. lia. Defined.
