(* ===== verification/Journal.v ===== *)
(** The side-effect journal: packages/agent/src/job-journal/index.js.

    The journal directory is an association list from file name to what
    reading and parsing the file yields ([None]: unreadable or not JSON).
    The order of the names is the file system's; nothing depends on it.
    Writes go to a temporary file that is renamed, so a write that throws
    ([io = false]) leaves the directory as it was. *)
From S2P Require Import Prelude Dates Json.
Open Scope Z_scope.

Definition TERMINAL_STATUSES : list string :=
  ["succeeded"; "failed"; "rejected"; "blocked"; "dry_run_complete";
   "orphaned_unknown_effect"; "awaiting_issuer"].

Inductive journal_error :=
| JobIdRequired | AttemptIdRequired | BadStage | BadContainerName | BadStoreName
| JournalIo.
#[global] Instance journal_error_eq_dec : EqDecision journal_error.
Proof. solve_decision. Defined.

Definition Dir : Type := list (string * option jsval).

(** [id.replace(/[^A-Za-z0-9_.:-]/g, "_")]. *)
Definition sanitize (s : string) : string :=
  smap (λ c, if is_ident_char c then c else "_"%char) s.

(** The file name below the journal directory. *)
Definition journalPathFor (jobId attemptId : string) : result journal_error string :=
  _ ← ensure (negb (bool_decide (jobId = EmptyString))) JobIdRequired;
  _ ← ensure (negb (bool_decide (attemptId = EmptyString))) AttemptIdRequired;
  Ok (sanitize jobId +:+ "-" +:+ sanitize attemptId +:+ ".json").

(** [None] is [null]: absent, unreadable or not an object. *)
Definition readJournalFile (d : Dir) (name : string) : option (list (string * jsval)) :=
  match assoc_get name d with
  | Some (Some (Obj fs)) => Some fs
  | _ => None
  end.

Definition string_or_null (s : option string) : jsval :=
  match s with
  | Some c => if bool_decide (c = EmptyString) then Null else Str c
  | None => Null
  end.

Definition mark_entry (jobId attemptId : string) (claimId : option string)
    (stage timestamp : string) : list (string * jsval) :=
  [("jobId", Str jobId); ("attemptId", Str attemptId);
   ("claimId", string_or_null claimId); ("stage", Str stage);
   ("timestamp", Str timestamp); ("reconciled", Bool false)].

Definition put (io : bool) (name : string) (fs : list (string * jsval)) (d : Dir)
  : result journal_error Dir :=
  if io then Ok (assoc_set name (Some (Obj fs)) d) else Err JournalIo.

(** Returns the directory, [created] and the entry. *)
Definition markSideEffectReached (io : bool) (jobId attemptId : string)
    (claimId : option string) (stage timestamp : string) (d : Dir)
  : result journal_error (Dir * (bool * option (list (string * jsval)))) :=
  _ ← ensure (negb (bool_decide (stage = EmptyString)) && (slen stage <=? 64)) BadStage;
  name ← journalPathFor jobId attemptId;
  if assoc_has name d then Ok (d, (false, readJournalFile d name)) else
  let entry := mark_entry jobId attemptId claimId stage timestamp in
  d' ← put io name entry d;
  Ok (d', (true, Some entry)).

Definition WINDOWS_CNG_CONTAINER_NAME_PATTERN (s : string) : bool :=
  matches_class (λ c, is_alnum c || (code c =? 95) || (code c =? 45)) 1 128 s.
Definition WINDOWS_STORE_NAME_PATTERN (s : string) : bool :=
  matches_class (λ c, is_alnum c || (code c =? 32) || (code c =? 95) || (code c =? 46)
                      || (code c =? 45)) 1 64 s.

(** [store] is absent or a string. *)
Definition recordWindowsCngContainer (io : bool) (jobId attemptId containerName : string)
    (store : option string) (d : Dir)
  : result journal_error (Dir * option (list (string * jsval))) :=
  _ ← ensure (WINDOWS_CNG_CONTAINER_NAME_PATTERN containerName) BadContainerName;
  _ ← ensure (match store with Some s => WINDOWS_STORE_NAME_PATTERN s | None => true end)
        BadStoreName;
  name ← journalPathFor jobId attemptId;
  match readJournalFile d name with
  | None => Ok (d, None)
  | Some existing =>
      let entry := assoc_set "windowsCngContainerName" (Str containerName) existing in
      let entry := match store with
                   | Some s => assoc_set "windowsCngStore" (Str s) entry
                   | None => entry
                   end in
      d' ← put io name entry d; Ok (d', Some entry)
  end.

Definition markWindowsCngContainerReconciled (io : bool) (jobId attemptId nowIso : string)
    (d : Dir) : result journal_error (Dir * option (list (string * jsval))) :=
  name ← journalPathFor jobId attemptId;
  match readJournalFile d name with
  | None => Ok (d, None)
  | Some existing =>
      let entry := assoc_set "windowsCngContainerReconciledAt" (Str nowIso) existing in
      d' ← put io name entry d; Ok (d', Some entry)
  end.

Definition unresolved_file (d : Dir) (name : string) : option (list (string * jsval)) :=
  if endsWith ".json" name then
    match readJournalFile d name with
    | Some fs =>
        match assoc_get "reconciled" fs with
        | Some (Bool true) => None
        | _ => Some fs
        end
    | None => None
    end
  else None.
Definition scanUnresolvedJournalEntries (d : Dir) : list (list (string * jsval)) :=
  omap (unresolved_file d) (d.*1).

Definition entry_for (jobId : string) (fs : list (string * jsval)) : bool :=
  match assoc_get "jobId" fs with
  | Some (Str j) => bool_decide (j = jobId)
  | _ => false
  end.
Definition hasUnresolvedJournalForJob (d : Dir) (jobId : string) : bool :=
  negb (bool_decide (jobId = EmptyString)) &&
  existsb (entry_for jobId) (scanUnresolvedJournalEntries d).

(** Returns the directory and [cleared]; [io = false]: [unlinkSync] throws
    something else than ENOENT. *)
Definition clearJournalOnTerminal (io : bool) (jobId attemptId status : string) (d : Dir)
  : result journal_error (Dir * bool) :=
  if bool_decide (status ∈ TERMINAL_STATUSES) then
    name ← journalPathFor jobId attemptId;
    if assoc_has name d then
      if io then Ok (assoc_remove name d, true) else Err JournalIo
    else Ok (d, false)
  else Ok (d, false).

(** * Lemmas *)

Lemma assoc_get_elem {A} k (v : A) d : assoc_get k d = Some v → k ∈ d.*1.
Proof.
  intros H. destruct (decide (k ∈ d.*1)) as [|Hn]; [done|].
  apply assoc_get_None in Hn. congruence.
Qed.

(** A marker of [jobId] sits under [name]. *)
Definition marked (name jobId : string) (d : Dir) : Prop :=
  ∃ fs, assoc_get name d = Some (Some (Obj fs)) ∧
    assoc_get "jobId" fs = Some (Str jobId) ∧
    assoc_get "reconciled" fs = Some (Bool false).

Lemma marked_unresolved name jobId d :
  endsWith ".json" name = true → jobId ≠ EmptyString → marked name jobId d →
  hasUnresolvedJournalForJob d jobId = true.
Proof.
  intros Hn Hj (fs & Hg & Hjob & Hr). unfold hasUnresolvedJournalForJob.
  rewrite bool_decide_eq_false_2 by done. cbn. apply existsb_exists. exists fs. split.
  - apply list_elem_of_In. unfold scanUnresolvedJournalEntries.
    apply list_elem_of_omap. exists name. split; [by eapply assoc_get_elem|].
    unfold unresolved_file, readJournalFile. by rewrite Hn, Hg, Hr.
  - unfold entry_for. rewrite Hjob. by apply bool_decide_eq_true_2.
Qed.

Lemma journalPathFor_json jobId attemptId name :
  journalPathFor jobId attemptId = Ok name →
  endsWith ".json" name = true ∧ jobId ≠ EmptyString ∧ attemptId ≠ EmptyString ∧
  name = sanitize jobId +:+ "-" +:+ sanitize attemptId +:+ ".json".
Proof.
  unfold journalPathFor. intros H. simplify_result. split_bool.
  split; [|done]. apply endsWith_spec.
  exists (sanitize jobId +:+ "-" +:+ sanitize attemptId). rewrite <- !sapp_assoc. done.
Qed.

Lemma smap_id f s : sforall (λ c, bool_decide (f c = c)) s = true → smap f s = s.
Proof.
  induction s as [|c s IH]; cbn; [done|]. intros [Hc Hs]%andb_prop. split_bool.
  by rewrite Hc, IH.
Qed.
Lemma sanitize_id s : sforall is_ident_char s = true → sanitize s = s.
Proof.
  intros H. apply smap_id. eapply sforall_impl, H. intros c Hc. cbv beta in *.
  rewrite Hc. by apply bool_decide_eq_true_2.
Qed.

Inductive jop :=
| JMark (io : bool) (jobId attemptId : string) (claimId : option string) (stage now : string)
| JRecord (io : bool) (jobId attemptId containerName : string) (store : option string)
| JReconcileContainer (io : bool) (jobId attemptId now : string)
| JClear (io : bool) (jobId attemptId status : string).

(** A throwing operation leaves the directory as it was. *)
Definition jstep (d : Dir) (o : jop) : Dir :=
  match o with
  | JMark io j a c st now =>
      match markSideEffectReached io j a c st now d with Ok (d', _) => d' | Err _ => d end
  | JRecord io j a c st =>
      match recordWindowsCngContainer io j a c st d with Ok (d', _) => d' | Err _ => d end
  | JReconcileContainer io j a now =>
      match markWindowsCngContainerReconciled io j a now d with Ok (d', _) => d' | Err _ => d end
  | JClear io j a st =>
      match clearJournalOnTerminal io j a st d with Ok (d', _) => d' | Err _ => d end
  end.
Definition jrun (d : Dir) (os : list jop) : Dir := fold_left jstep os d.

(** The operation does not clear the file [name]. *)
Definition spares (name : string) (o : jop) : Prop :=
  match o with
  | JClear _ j a st => journalPathFor j a = Ok name → st ∉ TERMINAL_STATUSES
  | _ => True
  end.

Lemma put_marked io n fs d d' name jobId :
  put io n fs d = Ok d' →
  (n = name → assoc_get "jobId" fs = Some (Str jobId) ∧
              assoc_get "reconciled" fs = Some (Bool false)) →
  marked name jobId d → marked name jobId d'.
Proof.
  destruct io; [|done]. intros [= <-] Hfs (fs0 & Hg & Hj & Hr).
  destruct (decide (name = n)) as [->|Hne].
  - exists fs. rewrite assoc_get_set_eq. destruct (Hfs eq_refl). done.
  - exists fs0. by rewrite assoc_get_set_ne.
Qed.

Lemma marked_fields name jobId d fs :
  marked name jobId d → readJournalFile d name = Some fs →
  assoc_get "jobId" fs = Some (Str jobId) ∧ assoc_get "reconciled" fs = Some (Bool false).
Proof.
  intros (fs0 & Hg & Hj & Hr). unfold readJournalFile. rewrite Hg. by intros [= <-].
Qed.

Lemma jstep_marked name jobId d o :
  spares name o → marked name jobId d → marked name jobId (jstep d o).
Proof.
  intros Hsp Hm. destruct o as [io j a c st now|io j a c st|io j a now|io j a st]; cbn [jstep].
  - destruct (markSideEffectReached _ _ _ _ _ _ _) as [[d' r]|] eqn:E; [|done].
    unfold markSideEffectReached in E.
    apply bind_ok in E as (? & _ & E). apply bind_ok in E as (n & Hn & E).
    destruct (assoc_has n d) eqn:Hh; [by injection E as <- <-|].
    apply bind_ok in E as (d1 & Hp & [= -> _]).
    eapply put_marked; [exact Hp| |done]. intros ->.
    destruct Hm as (fs & Hg & _). apply assoc_has_false in Hh.
    by apply assoc_get_elem in Hg.
  - destruct (recordWindowsCngContainer _ _ _ _ _ _) as [[d' r]|] eqn:E; [|done].
    unfold recordWindowsCngContainer in E.
    apply bind_ok in E as (? & _ & E). apply bind_ok in E as (? & _ & E).
    apply bind_ok in E as (n & Hn & E).
    destruct (readJournalFile d n) as [fs|] eqn:Hread; [|by injection E as <- <-].
    apply bind_ok in E as (d1 & Hp & [= -> _]).
    eapply put_marked; [exact Hp| |done]. intros ->.
    destruct (marked_fields _ _ _ _ Hm Hread).
    destruct st; by rewrite ?assoc_get_set_ne.
  - destruct (markWindowsCngContainerReconciled _ _ _ _ _) as [[d' r]|] eqn:E; [|done].
    unfold markWindowsCngContainerReconciled in E.
    apply bind_ok in E as (n & Hn & E).
    destruct (readJournalFile d n) as [fs|] eqn:Hread; [|by injection E as <- <-].
    apply bind_ok in E as (d1 & Hp & [= -> _]).
    eapply put_marked; [exact Hp| |done]. intros ->.
    destruct (marked_fields _ _ _ _ Hm Hread). by rewrite !assoc_get_set_ne.
  - destruct (clearJournalOnTerminal _ _ _ _ _) as [[d' r]|] eqn:E; [|done].
    unfold clearJournalOnTerminal in E.
    case_bool_decide as Hst; [|by injection E as <- <-].
    apply bind_ok in E as (n & Hn & E).
    destruct (assoc_has n d); [|by injection E as <- <-].
    destruct io; [|done]. injection E as <- <-.
    destruct Hm as (fs & Hg & Hj & Hr). exists fs. split; [|done].
    rewrite assoc_remove_get_ne; [done|]. intros ->. cbn in Hsp. by apply Hsp in Hn.
Qed.

Lemma jrun_marked name jobId os d :
  Forall (spares name) os → marked name jobId d → marked name jobId (jrun d os).
Proof.
  revert d. induction os as [|o os IH]; intros d; [done|].
  intros [Ho Hos]%Forall_cons Hm. apply IH; [done|]. by apply jstep_marked.
Qed.

(** Crash safety of the journal.  Once a stage of an attempt is marked,
    the job stays unresolved through every later journal operation (throwing
    ones included), so it is refused automatic re-execution, until a
    terminal status clears the file of that attempt. *)
Theorem marked_job_stays_unresolved (d d1 : Dir) (io : bool) (jobId attemptId : string)
    (claimId : option string) (stage now : string) (r : option (list (string * jsval)))
    (name : string) (os : list jop) :
  markSideEffectReached io jobId attemptId claimId stage now d = Ok (d1, (true, r)) →
  journalPathFor jobId attemptId = Ok name →
  Forall (spares name) os →
  hasUnresolvedJournalForJob (jrun d1 os) jobId = true.
Proof.
  intros Hmark Hn Hos. destruct (journalPathFor_json _ _ _ Hn) as (Hjson & Hj & _ & _).
  apply (marked_unresolved name); [done..|]. apply jrun_marked; [done|].
  unfold markSideEffectReached in Hmark. rewrite Hn in Hmark.
  apply bind_ok in Hmark as (? & _ & E). cbn [mbind result_bind] in E.
  destruct (assoc_has name d); [done|].
  apply bind_ok in E as (d2 & Hp & [= -> _]). destruct io; [|done].
  injection Hp as <-. eexists. split; [apply assoc_get_set_eq|]. done.
Qed.

Lemma marked_job_stays_unresolved_witness :
  hasUnresolvedJournalForJob
    (jrun (match markSideEffectReached true "job-1" "a1" None "keygen" "2026-01-01T00:00:00.000Z" []
           with Ok (d, _) => d | Err _ => [] end)
       [JClear true "job-1" "a1" "running"; JRecord true "job-1" "a1" "tt-1" (Some "My");
        JMark true "job-1" "a1" None "deploy" "t"; JReconcileContainer true "job-1" "a1" "t";
        JMark true "job-2" "a1" None "dns" "t"; JClear true "job-2" "a1" "failed"]) "job-1" = true.
Proof.
  eapply (marked_job_stays_unresolved [] _ true "job-1" "a1" None "keygen"
    "2026-01-01T00:00:00.000Z"); [reflexivity|reflexivity|].
  repeat constructor; vm_compute; try done; intros _; set_solver.
Defined.

(** Within ids of the protocol's alphabet and jobs whose ids have one
    length (UUIDs), each attempt has its own journal file, and clearing a
    terminal attempt removes the marker of that attempt only. *)
Theorem journal_files_distinct (j j' a a' name : string) :
  sforall is_ident_char (j +:+ a) = true → sforall is_ident_char (j' +:+ a') = true →
  String.length j = String.length j' →
  journalPathFor j a = Ok name → journalPathFor j' a' = Ok name → j = j' ∧ a = a'.
Proof.
  rewrite !sforall_app. intros [Hj Ha]%andb_prop [Hj' Ha']%andb_prop Hlen H1 H2.
  apply journalPathFor_json in H1 as (_ & _ & _ & ->).
  apply journalPathFor_json in H2 as (_ & _ & _ & E).
  rewrite !sanitize_id in E by done.
  apply sapp_inj_len in E as [-> E]; [|done]. split; [done|]. cbn in E.
  injection E as E. apply sapp_inj_len in E as [-> _]; [done|].
  apply (f_equal String.length) in E. rewrite !slength_app in E. cbn in E. lia.
Qed.

Lemma journal_files_distinct_witness : ("job-1" : string) = "job-1" ∧ ("a1" : string) = "a1".
Proof.
  eapply (journal_files_distinct "job-1" "job-1" "a1" "a1");
    [reflexivity|reflexivity|reflexivity|reflexivity|reflexivity].
Defined.

(** Without the common length the file name is ambiguous: attempt
    ["c"] of job ["a-b"] and attempt ["b-c"] of job ["a"] share a file, so
    the second attempt leaves no marker of its own and its job looks resolved
    to the crash check. *)
Theorem journal_name_collision :
  journalPathFor "a-b" "c" = journalPathFor "a" "b-c" ∧
  ∃ d1 d2 r,
    markSideEffectReached true "a-b" "c" None "keygen" "t" [] = Ok (d1, (true, r)) ∧
    markSideEffectReached true "a" "b-c" None "keygen" "t" d1 = Ok (d2, (false, r)) ∧
    hasUnresolvedJournalForJob d2 "a" = false ∧
    (let d3 := jstep d2 (JClear true "a" "b-c" "succeeded") in
     hasUnresolvedJournalForJob d2 "a-b" = true ∧ hasUnresolvedJournalForJob d3 "a-b" = false).
Proof. split; [reflexivity|]. do 3 eexists. vm_compute. done. Qed.
