(* ===== verification/Net.v ===== *)
(** What the program uses of Node's [node:net], of [Number(string)] and of
    [parseInt(string, 16)]: the textual grammar of IPv4 and IPv6 addresses as
    [net.isIP] decides it, and numeric conversion.

    An IPv6 address is eight 16-bit groups, written in hexadecimal, the last
    two possibly as a dotted quad; one run of groups may be elided by [::];
    a zone identifier may follow after [%]. *)
From S2P Require Import Prelude Json.
Open Scope Z_scope.

(** * Numbers *)

Definition digit_val (c : ascii) : Z := code c - 48.
Definition is_hex_digit (c : ascii) : bool :=
  is_digit c || in_range 97 102 c || in_range 65 70 c.
Definition hex_val (c : ascii) : Z :=
  if is_digit c then code c - 48 else if in_range 97 102 c then code c - 87 else code c - 55.

Fixpoint digits_val (base : Z) (val : ascii → Z) (acc : Z) (s : string) : Z :=
  match s with
  | EmptyString => acc
  | String c s => digits_val base val (acc * base + val c) s
  end.
Definition decimal (s : string) : Z := digits_val 10 digit_val 0 s.
(** [parseInt(s, 16)] on hexadecimal digits. *)
Definition hexadecimal (s : string) : Z := digits_val 16 hex_val 0 s.

Fixpoint take_while (p : ascii → bool) (s : string) : string :=
  match s with
  | EmptyString => EmptyString
  | String c s => if p c then String c (take_while p s) else EmptyString
  end.
Definition nonempty_all (p : ascii → bool) (s : string) : bool :=
  negb (bool_decide (s = EmptyString)) && sforall p s.

(** An unsigned decimal literal without fraction: digits and an optional
    exponent.  A negative exponent must leave an integer. *)
Definition exponent_int (mantissa : Z) (s : string) : option Z :=
  match s with
  | EmptyString => Some mantissa
  | String e s =>
      if negb ((code e =? 101) || (code e =? 69)) then None else
      let '(negative, ds) :=
        match s with
        | String c s' =>
            if code c =? 45 then (true, s') else if code c =? 43 then (false, s') else (false, s)
        | EmptyString => (false, s)
        end in
      if negb (nonempty_all is_digit ds) then None else
      let p := 10 ^ decimal ds in
      if negative then if mantissa mod p =? 0 then Some (mantissa / p) else None
      else Some (mantissa * p)
  end.
Definition radix_digit (base : Z) (c : ascii) : bool := is_hex_digit c && (hex_val c <? base).

(** [Number(s)] where it is an integer and [s] has no decimal point (its
    callers split at the points first); [None] is a fraction, an infinity or
    [NaN]. *)
Definition Number_int (s : string) : option Z :=
  let s := trim s in
  match s with
  | EmptyString => Some 0
  | String c rest =>
      let radix base ds := if nonempty_all (radix_digit base) ds
                           then Some (digits_val base hex_val 0 ds) else None in
      match code c =? 48, rest with
      | true, String x ds =>
          if (code x =? 120) || (code x =? 88) then radix 16 ds
          else if (code x =? 111) || (code x =? 79) then radix 8 ds
          else if (code x =? 98) || (code x =? 66) then radix 2 ds
          else let m := take_while is_digit s in
               exponent_int (decimal m) (sdrop (String.length m) s)
      | _, _ =>
          let '(neg, s) := if code c =? 45 then (true, rest)
                           else if code c =? 43 then (false, rest) else (false, s) in
          let m := take_while is_digit s in
          if bool_decide (m = EmptyString) then None else
          n ← exponent_int (decimal m) (sdrop (String.length m) s);
          Some (if neg then - n else n)
      end
  end.

(** * [net.isIP] *)

(** One octet: no leading zero, at most 255. *)
Definition is_octet (s : string) : bool :=
  nonempty_all is_digit s && (slen s <=? 3) && (decimal s <=? 255) &&
  (bool_decide (s = "0") || negb (startsWith "0" s)).
Definition isIPv4 (s : string) : bool :=
  match split_on "." s with
  | [a; b; c; d] => forallb is_octet [a; b; c; d]
  | _ => false
  end.

Definition is_group (s : string) : bool := matches_class is_hex_digit 1 4 s.
(** The number of 16-bit groups a colon-separated list stands for. *)
Fixpoint groups_width (v4_last : bool) (parts : list string) : option nat :=
  match parts with
  | [] => None
  | [p] => if is_group p then Some 1%nat
           else if v4_last && isIPv4 p then Some 2%nat else None
  | p :: ps => if is_group p then n ← groups_width v4_last ps; Some (S n) else None
  end.
Definition section_width (v4_last : bool) (s : string) : option nat :=
  if bool_decide (s = EmptyString) then Some 0%nat
  else groups_width v4_last (split_on ":" s).

(** Splits at the first [::]. *)
Fixpoint split_elision (s : string) : option (string * string) :=
  match s with
  | EmptyString => None
  | String c s' =>
      if startsWith "::" s then Some (EmptyString, sdrop 2 s)
      else match split_elision s' with
           | Some (h, t) => Some (String c h, t)
           | None => None
           end
  end.
Definition is_v6_body (s : string) : bool :=
  match split_elision s with
  | Some (h, t) =>
      match section_width false h, section_width true t with
      | Some n, Some m => (n + m <=? 7)%nat
      | _, _ => false
      end
  | None =>
      match groups_width true (split_on ":" s) with
      | Some n => (n =? 8)%nat
      | None => false
      end
  end.

Fixpoint index_of (c : ascii) (s : string) : option nat :=
  match s with
  | EmptyString => None
  | String d s => if bool_decide (c = d) then Some O else S <$> index_of c s
  end.
Definition is_zone_char (c : ascii) : bool :=
  is_alnum c || (code c =? 45) || (code c =? 46) || (code c =? 58).
Definition isIPv6 (s : string) : bool :=
  match index_of "%" s with
  | None => is_v6_body s
  | Some i => is_v6_body (stake i s) && nonempty_all is_zone_char (sdrop (S i) s)
  end.

Definition isIP (s : string) : Z :=
  if isIPv4 s then 4 else if isIPv6 s then 6 else 0.

Example isIP_examples :
  map isIP ["10.0.0.1"; "256.1.1.1"; "01.2.3.4"; "::"; "::1"; "fe80::1%eth0"; "1:2:3:4:5:6:7:8";
            "1:2:3:4:5:6:7::"; "1::2::3"; ":::"; "::ffff:1.2.3.4"; "1:2:3:4:5:6:7:8:9";
            "1:2:3:4:5:6:1.2.3.4"; "::1.2.3.4.5"; "g::1"; "1:2:3:4:5:6:7"; "localhost"; "fe80::1%"]
  = [4; 0; 0; 6; 6; 6; 6; 6; 0; 0; 6; 0; 6; 0; 0; 0; 0; 0].
Proof. reflexivity. Qed.
Example Number_int_examples :
  map Number_int ["12"; EmptyString; " 7 "; "0x1f"; "1e2"; "100e-1"; "015"; "-0"; "abc"; "0x"; "+5"; "1e"; "00"]
  = [Some 12; Some 0; Some 7; Some 31; Some 100; Some 10; Some 15; Some 0; None; None; Some 5; None; Some 0].
Proof. reflexivity. Qed.

(** * Lemmas *)

(** The decimal text of an octet: accepted by [net.isIP], read back by
    [Number], free of the separators of addresses. *)
Definition octet_text_ok (n : Z) : bool :=
  let s := print_Z n in
  is_octet s && bool_decide (Number_int s = Some n) &&
  sforall is_digit s && negb (bool_decide (s = EmptyString)) && bool_decide (toLowerCase s = s).
Lemma octet_text n : 0 <= n <= 255 → octet_text_ok n = true.
Proof.
  intros Hn.
  assert (forallb octet_text_ok (map Z.of_nat (seq 0 256)) = true) as H by (vm_compute; done).
  rewrite forallb_forall in H. apply H, in_map_iff. exists (Z.to_nat n).
  split; [lia|]. apply in_seq. lia.
Qed.

Definition dotted (a b c d : Z) : string :=
  print_Z a +:+ "." +:+ print_Z b +:+ "." +:+ print_Z c +:+ "." +:+ print_Z d.

Lemma digits_avoid (x : ascii) s :
  is_digit x = false → sforall is_digit s = true →
  sforall (λ c, negb (bool_decide (c = x))) s = true.
Proof.
  intros Hx. apply sforall_impl. intros c Hc. apply negb_true_iff.
  apply bool_decide_eq_false_2. intros ->. congruence.
Qed.

Section dotted_lemmas.
Context (a b c d : Z).
Hypothesis (Ha : 0 <= a <= 255) (Hb : 0 <= b <= 255) (Hc : 0 <= c <= 255) (Hd : 0 <= d <= 255).

Lemma octet_facts n : 0 <= n <= 255 →
  is_octet (print_Z n) = true ∧ Number_int (print_Z n) = Some n ∧
  sforall is_digit (print_Z n) = true ∧ print_Z n ≠ EmptyString ∧
  toLowerCase (print_Z n) = print_Z n.
Proof.
  intros Hn. pose proof (octet_text n Hn) as H. unfold octet_text_ok in H. cbv zeta in H.
  apply andb_prop in H as [[[[H ?]%andb_prop ?]%andb_prop ?]%andb_prop ?].
  split_bool. repeat split; assumption.
Qed.

Lemma split_dotted : split_on "." (dotted a b c d) = [print_Z a; print_Z b; print_Z c; print_Z d].
Proof.
  unfold dotted. cbn [String.append].
  destruct (octet_facts a Ha) as (_ & _ & ? & _).
  destruct (octet_facts b Hb) as (_ & _ & ? & _).
  destruct (octet_facts c Hc) as (_ & _ & ? & _).
  destruct (octet_facts d Hd) as (_ & _ & ? & _).
  rewrite !split_on_app, split_on_none by (by apply digits_avoid). done.
Qed.
Lemma isIPv4_dotted : isIPv4 (dotted a b c d) = true.
Proof.
  unfold isIPv4. rewrite split_dotted. cbn [forallb].
  by rewrite (proj1 (octet_facts a Ha)), (proj1 (octet_facts b Hb)),
    (proj1 (octet_facts c Hc)), (proj1 (octet_facts d Hd)).
Qed.
(** Every character of the text is a digit or a dot. *)
Lemma dotted_chars (p : ascii → bool) :
  (∀ x, is_digit x = true → p x = true) → p "."%char = true →
  sforall p (dotted a b c d) = true.
Proof.
  intros Hp Hdot. unfold dotted. rewrite !sforall_app. cbn [sforall]. rewrite Hdot.
  assert (∀ n, 0 <= n <= 255 → sforall p (print_Z n) = true) as H.
  { intros n Hn. destruct (octet_facts n Hn) as (_ & _ & H & _).
    eapply sforall_impl; [exact Hp|exact H]. }
  by rewrite !H.
Qed.
End dotted_lemmas.

Lemma index_of_none x s : sforall (λ c, negb (bool_decide (c = x))) s = true → index_of x s = None.
Proof.
  induction s as [|c s IH]; cbn; [done|]. intros [Hc Hs]%andb_prop. split_bool.
  rewrite bool_decide_eq_false_2 by done. by rewrite (IH Hs).
Qed.

(** Characters of a bare address literal. *)
Definition plain_char (c : ascii) : bool := is_hex_digit c || (code c =? 58) || (code c =? 46).
Lemma plain_char_facts c : plain_char c = true →
  is_js_space c = false ∧ c ≠ "["%char ∧ c ≠ "%"%char.
Proof.
  intros H. split; [|split; intros ->; done].
  revert H. unfold plain_char, is_hex_digit, is_digit, is_js_space, in_range.
  intros H. destruct (_ || _) eqn:E in |- *; [|done]. exfalso.
  repeat match goal with
  | H : (_ || _) = true |- _ => apply orb_prop in H as [H|H]
  | H : (_ && _) = true |- _ => apply andb_prop in H as [? ?]
  end; split_bool; lia.
Qed.
Definition no_colon (s : string) : bool := sforall (λ c, negb (bool_decide (c = ":"%char))) s.
Lemma split_elision_none s : no_colon s = true → split_elision s = None.
Proof.
  unfold no_colon. induction s as [|c s IH]; [done|]. cbn [sforall].
  intros [Hc Hs]%andb_prop. split_bool. cbn [split_elision startsWith].
  rewrite bool_decide_eq_false_2 by congruence. cbn [andb]. by rewrite (IH Hs).
Qed.
Lemma split_elision_colon s : no_colon s = true → split_elision (String ":" s) = None.
Proof.
  intros Hs. cbn [split_elision]. rewrite (split_elision_none s Hs).
  destruct s as [|c s]; [done|]. unfold no_colon in Hs. cbn in Hs.
  apply andb_prop in Hs as [Hc _]. split_bool. cbn [startsWith].
  by rewrite (bool_decide_eq_false_2 (":"%char = c)) by congruence.
Qed.
Definition push_head (c : ascii) (r : option (string * string)) : option (string * string) :=
  match r with Some (h, t) => Some (String c h, t) | None => None end.
Lemma split_elision_here s : split_elision (String ":" (String ":" s)) = Some (EmptyString, s).
Proof. cbn. by rewrite bool_decide_eq_true_2. Qed.
Lemma split_elision_skip c s :
  c ≠ ":"%char → split_elision (String c s) = push_head c (split_elision s).
Proof. intros H. cbn. by rewrite bool_decide_eq_false_2 by congruence. Qed.
Lemma split_elision_colon_skip x s : x ≠ ":"%char →
  split_elision (String ":" (String x s)) = push_head ":" (split_elision (String x s)).
Proof.
  intros H. cbn [split_elision]. cbn [startsWith].
  by rewrite (bool_decide_eq_false_2 (":"%char = x)), andb_false_r by congruence.
Qed.
Lemma smap_lower_id s : sforall (λ c, is_digit c || (code c =? 46)) s = true → toLowerCase s = s.
Proof.
  unfold toLowerCase. induction s as [|c s IH]; cbn; [done|]. intros [Hc Hs]%andb_prop.
  rewrite (IH Hs). f_equal. unfold lower_char. destruct (_ || _) eqn:E in |- *; [|done].
  exfalso. unfold is_digit, in_range in *.
  repeat match goal with
  | H : (_ || _) = true |- _ => apply orb_prop in H as [H|H]
  | H : (_ && _) = true |- _ => apply andb_prop in H as [? ?]
  end; split_bool; lia.
Qed.
(** IPv6 literals with a dotted tail. *)
Section mapped.
Context (a b c d : Z).
Hypothesis (Ha : 0 <= a <= 255) (Hb : 0 <= b <= 255) (Hc : 0 <= c <= 255) (Hd : 0 <= d <= 255).
Notation q := (dotted a b c d).

Lemma q_no_colon : no_colon q = true.
Proof.
  apply dotted_chars; [done..| |done]. intros x Hx. apply negb_true_iff.
  apply bool_decide_eq_false_2. intros ->. done.
Qed.
Lemma q_plain : sforall plain_char q = true.
Proof.
  apply dotted_chars; [done..| |done]. intros x Hx. unfold plain_char, is_hex_digit.
  by rewrite Hx.
Qed.
Lemma q_lower : toLowerCase q = q.
Proof.
  apply smap_lower_id, dotted_chars; [done..| |done]. intros x Hx. by rewrite Hx.
Qed.
Lemma q_nonempty : q ≠ EmptyString.
Proof.
  intros E. apply (f_equal String.length) in E. unfold dotted in E.
  rewrite !slength_app in E. cbn in E. lia.
Qed.
Lemma q_group : groups_width true [q] = Some 1%nat ∨ groups_width true [q] = Some 2%nat.
Proof.
  cbn [groups_width]. destruct (is_group q); [by left|]. rewrite isIPv4_dotted by done. by right.
Qed.

Lemma not_isIPv4 p rest : is_octet (p +:+ print_Z a) = false →
  sforall (λ x, negb (bool_decide (x = "."%char))) p = true →
  p +:+ q = rest → isIPv4 rest = false.
Proof.
  intros Hp Hdot <-. unfold isIPv4, dotted. rewrite sapp_assoc.
  cbn [String.append]. rewrite split_on_app.
  - destruct (split_on _ _) as [|? [|? [|? []]]]; try done. cbn [forallb]. by rewrite Hp.
  - rewrite sforall_app, Hdot. cbn [andb].
    destruct (octet_facts a Ha) as (_ & _ & H & _). by apply digits_avoid.
Qed.
Lemma is_octet_non_digit s t : sforall is_digit s = false → is_octet (s +:+ t) = false.
Proof.
  intros H. unfold is_octet, nonempty_all. rewrite sforall_app, H.
  by rewrite !andb_false_r.
Qed.
End mapped.

(** The textual prefixes under which an IPv6 literal carries an IPv4
    address in dotted form: mapped, SIIT-translated and NAT64. *)
Definition ipv4_carriers : list string := ["::ffff:"; "::ffff:0:"; "64:ff9b::"].

Lemma carriers_cases p : p ∈ ipv4_carriers → p = "::ffff:" ∨ p = "::ffff:0:" ∨ p = "64:ff9b::".
Proof.
  unfold ipv4_carriers. set_solver.
Qed.

Lemma plain_no_zone s : sforall plain_char s = true → index_of "%" s = None.
Proof.
  intros H. apply index_of_none. eapply sforall_impl, H. intros c Hc. cbv beta in *.
  destruct (plain_char_facts c Hc) as (_ & _ & Hb). by rewrite bool_decide_eq_false_2.
Qed.

Lemma section_width_group g s n :
  is_group g = true → no_colon g = true → s ≠ EmptyString →
  section_width true s = Some n → section_width true (g +:+ String ":" s) = Some (S n).
Proof.
  unfold section_width. intros Hg Hc Hs. rewrite bool_decide_eq_false_2 by done.
  intros Hw. rewrite bool_decide_eq_false_2 by (by destruct g).
  rewrite split_on_app by done. destruct (split_on_cons ":" s) as (w & ws & E).
  rewrite E in Hw |- *. cbn [groups_width] in Hw |- *. rewrite Hg.
  cbn [groups_width] in *. by rewrite Hw.
Qed.

Lemma carrier_v6_body p a b c d :
  p ∈ ipv4_carriers → 0 <= a <= 255 → 0 <= b <= 255 → 0 <= c <= 255 → 0 <= d <= 255 →
  is_v6_body (p +:+ dotted a b c d) = true.
Proof.
  intros Hp Ha Hb Hc Hd.
  assert (∃ n, section_width true (dotted a b c d) = Some n ∧ (n <= 2)%nat) as (n & Hn & Hle).
  { unfold section_width. rewrite bool_decide_eq_false_2 by apply q_nonempty.
    rewrite split_on_none by (by apply q_no_colon).
    destruct (q_group a b c d Ha Hb Hc Hd) as [->| ->]; eauto. }
  pose proof (q_nonempty a b c d) as Hne. unfold is_v6_body.
  apply carriers_cases in Hp as [Hp|[Hp|Hp]]; subst p; cbn [String.append].
  - rewrite split_elision_here. change (section_width false EmptyString) with (Some 0%nat).
    pose proof (section_width_group "ffff" (dotted a b c d) n eq_refl eq_refl Hne Hn) as Hw.
    cbn [String.append] in Hw. rewrite Hw. apply Nat.leb_le. lia.
  - rewrite split_elision_here. change (section_width false EmptyString) with (Some 0%nat).
    pose proof (section_width_group "0" (dotted a b c d) n eq_refl eq_refl Hne Hn) as Hw.
    apply (section_width_group "ffff") in Hw; [|done..].
    cbn [String.append] in Hw. rewrite Hw. apply Nat.leb_le. lia.
  - rewrite !split_elision_skip by done. rewrite split_elision_colon_skip by done.
    rewrite !split_elision_skip by done. rewrite split_elision_here. cbn [push_head].
    change (section_width false _) with (Some 2%nat). rewrite Hn. apply Nat.leb_le. lia.
Qed.

Lemma carrier_isIP p a b c d :
  p ∈ ipv4_carriers → 0 <= a <= 255 → 0 <= b <= 255 → 0 <= c <= 255 → 0 <= d <= 255 →
  sforall plain_char (p +:+ dotted a b c d) = true ∧ isIP (p +:+ dotted a b c d) = 6.
Proof.
  intros Hp Ha Hb Hc Hd.
  assert (sforall plain_char p = true ∧ sforall is_digit p = false ∧
    sforall (λ x, negb (bool_decide (x = "."%char))) p = true) as (Hpl & Hnd & Hdot)
    by (apply carriers_cases in Hp as [Hp|[Hp|Hp]]; subst p; repeat split).
  assert (sforall plain_char (p +:+ dotted a b c d) = true) as Hplain
    by (rewrite sforall_app, Hpl; by apply q_plain).
  split; [done|]. unfold isIP.
  rewrite (not_isIPv4 a b c d Ha p _ (is_octet_non_digit p _ Hnd) Hdot eq_refl).
  unfold isIPv6. rewrite (plain_no_zone _ Hplain).
  assert (is_v6_body (p +:+ dotted a b c d) = true) as ->; [|done].
  by apply carrier_v6_body.
Qed.


Lemma decimal_print n : 0 <= n <= 255 → decimal (print_Z n) = n.
Proof.
  intros Hn. apply Z.eqb_eq.
  assert (forallb (λ n, decimal (print_Z n) =? n) (map Z.of_nat (seq 0 256)) = true) as H
    by (vm_compute; done).
  rewrite forallb_forall in H. apply (H n), in_map_iff. exists (Z.to_nat n).
  split; [lia|]. apply in_seq. lia.
Qed.
