(* ===== verification/WebhookSafety.v ===== *)
(** Webhook destination checks: packages/webhook-safety/index.js.

    The environment variables the module reads at call time are a record;
    the DNS resolvers of [validateResolvedIP] are the outcomes of the two
    lookups.  Hosts are strings (the module applies [String(host || "")]). *)
From S2P Require Import Prelude Json Net.
Open Scope Z_scope.

(** [s.slice(1, -1)]. *)
Definition slice_1_m1 (s : string) : string := stake (String.length s - 2) (sdrop 1 s).

Definition canonicalizeHost (host : string) : string :=
  let value := trim host in
  let value := if startsWith "[" value && endsWith "]" value then slice_1_m1 value else value in
  match index_of "%" value with Some zone => stake zone value | None => value end.

Definition isPrivateIpv4 (a b : Z) : bool :=
  (a =? 10) ||
  ((a =? 172) && (16 <=? b) && (b <=? 31)) ||
  ((a =? 192) && (b =? 168)) ||
  (a =? 127) ||
  ((a =? 169) && (b =? 254)) ||
  (a =? 0) ||
  ((a =? 100) && (64 <=? b) && (b <=? 127)) ||
  ((a =? 198) && ((b =? 18) || (b =? 19))).

Definition is_byte (n : Z) : bool := (0 <=? n) && (n <=? 255).
Definition parseIpv4Octets (ip : string) : option (list Z) :=
  let parts := split_on "." ip in
  if negb (length parts =? 4)%nat then None else
  octets ← mapM Number_int parts;
  if forallb is_byte octets then Some octets else None.

Definition parseGroups (sec : string) : list string :=
  if bool_decide (sec = EmptyString) then []
  else List.filter (λ g, negb (bool_decide (g = EmptyString))) (split_on ":" sec).

(** The number of pieces of [s.split("::")], minus one. *)
Fixpoint count_elisions (fuel : nat) (s : string) : nat :=
  match fuel with
  | O => 0
  | S fuel => match split_elision s with Some (_, t) => S (count_elisions fuel t) | None => 0 end
  end.
(** [s.lastIndexOf(c)]. *)
Fixpoint last_index_of (c : ascii) (s : string) : option nat :=
  match s with
  | EmptyString => None
  | String d s =>
      match last_index_of c s with
      | Some i => Some (S i)
      | None => if bool_decide (c = d) then Some O else None
      end
  end.
Definition is_lower_group (g : string) : bool :=
  matches_class (λ c, is_digit c || in_range 97 102 c) 1 4 g.
Definition group_bytes (g : string) : list Z :=
  let n := hexadecimal g in [Z.land (Z.shiftr n 8) 255; Z.land n 255].

Definition ipv6ToBytes (ip : string) : option (list Z) :=
  let str := toLowerCase ip in
  if (1 <? count_elisions (S (String.length str)) str)%nat then None else
  let last := last_index_of ":" str in
  let after := match last with None => str | Some i => sdrop (S i) str end in
  '(str, ipv4Tail) ←
    (if includes "." after then
       octets ← parseIpv4Octets after;
       Some (match last with None => EmptyString | Some i => stake (S i) str end, Some octets)
     else Some (str, None));
  let dbl := split_elision str in
  let '(head, tl) := match dbl with Some p => p | None => (str, EmptyString) end in
  let headGroups := parseGroups head in
  let tailGroups := parseGroups tl in
  if negb (forallb is_lower_group (headGroups ++ tailGroups)) then None else
  let needed := 8 - (match ipv4Tail with Some _ => 2 | None => 0 end) in
  let missing := needed - Z.of_nat (length headGroups) - Z.of_nat (length tailGroups) in
  if (match dbl with None => negb (missing =? 0) | Some _ => missing <? 0 end) then None else
  let fill := match dbl with None => 0 | Some _ => missing end in
  let groups := headGroups ++ replicate (Z.to_nat fill) "0" ++ tailGroups in
  if negb (Z.of_nat (length groups) =? needed) then None else
  let bytes := concat (map group_bytes groups) ++ default [] ipv4Tail in
  if (length bytes =? 16)%nat then Some bytes else None.

(** [bytes[i]]; out of range reads [undefined], which equals no number. *)
Definition byte_is (bytes : list Z) (i : nat) (n : Z) : bool :=
  match bytes !! i with Some b => b =? n | None => false end.
Definition allZero (bytes : list Z) (start end_ : nat) : bool :=
  forallb (λ i, byte_is bytes i 0) (seq start (end_ - start)).
Definition slice (bytes : list Z) (i j : nat) : list Z := take (j - i) (drop i bytes).
Definition at_ (bytes : list Z) (i : nat) : Z := default 0 (bytes !! i).

Definition embeddedIpv4 (bytes : list Z) : option (list Z) :=
  if allZero bytes 0 10 && byte_is bytes 10 255 && byte_is bytes 11 255 then
    Some (slice bytes 12 16) else
  if allZero bytes 0 8 && byte_is bytes 8 255 && byte_is bytes 9 255
     && byte_is bytes 10 0 && byte_is bytes 11 0 then Some (slice bytes 12 16) else
  if byte_is bytes 0 0 && byte_is bytes 1 100 && byte_is bytes 2 255 && byte_is bytes 3 155
     && allZero bytes 4 12 then Some (slice bytes 12 16) else
  if byte_is bytes 0 32 && byte_is bytes 1 2 then Some (slice bytes 2 6) else
  if allZero bytes 0 12
     && negb (allZero bytes 12 16 || (allZero bytes 12 15 && byte_is bytes 15 1)) then
    Some (slice bytes 12 16)
  else None.

Definition isPrivateIpv6 (bytes : list Z) : bool :=
  allZero bytes 0 16 ||
  (allZero bytes 0 15 && byte_is bytes 15 1) ||
  byte_is bytes 0 255 ||
  (byte_is bytes 0 254 && (Z.land (at_ bytes 1) 192 =? 128)) ||
  (Z.land (at_ bytes 0) 254 =? 252) ||
  (byte_is bytes 0 254 && (Z.land (at_ bytes 1) 192 =? 192)) ||
  (byte_is bytes 0 32 && byte_is bytes 1 1 && byte_is bytes 2 13 && byte_is bytes 3 184) ||
  (byte_is bytes 0 1 && byte_is bytes 1 0 && allZero bytes 2 8).

Definition isPrivateOrReservedIP (ip : string) : bool :=
  let host := canonicalizeHost ip in
  if bool_decide (host = EmptyString) then false else
  if isIP host =? 4 then
    match parseIpv4Octets host with
    | Some octets => isPrivateIpv4 (at_ octets 0) (at_ octets 1)
    | None => false
    end
  else if isIP host =? 6 then
    match ipv6ToBytes host with
    | None => true
    | Some bytes =>
        match embeddedIpv4 bytes with
        | Some v4 => isPrivateIpv4 (at_ v4 0) (at_ v4 1)
        | None => isPrivateIpv6 bytes
        end
    end
  else false.

(** * Environment *)

Record env := mkEnv {
  WEBHOOK_ALLOW_PRIVATE_IPS : string;
  WEBHOOK_ENFORCE_PRIVATE_IP_CHECK : string;
  NODE_ENV : string;
  WEBHOOK_EXTRA_PROVIDER_HOSTS : string;
  WEBHOOK_PROVIDER_HOSTS : string;
  WEBHOOK_ALLOW_ALL_HOSTS : string;
}.

Definition allowPrivateWebhookIPs (e : env) : bool :=
  bool_decide (toLowerCase (WEBHOOK_ALLOW_PRIVATE_IPS e) = "true").
Definition shouldEnforcePrivateIpCheck (e : env) : bool :=
  if allowPrivateWebhookIPs e then false else
  if bool_decide (toLowerCase (WEBHOOK_ENFORCE_PRIVATE_IP_CHECK e) = "true") then true else
  negb (bool_decide (NODE_ENV e = "test")).

(** * Resolution *)

(** A lookup fulfils with addresses, rejects (or fulfils with something else
    than an array), or throws before returning a promise. *)
Inductive lookup_outcome := Fulfilled (addresses : list string) | Failed | ThrowsSync.

Definition fulfilled (r : lookup_outcome) : list string :=
  match r with Fulfilled l => l | _ => [] end.
Definition throws_sync (r : lookup_outcome) : bool :=
  match r with ThrowsSync => true | _ => false end.
(** The addresses and [resolved]. *)
Definition collectResolvedAddresses (r4 r6 : lookup_outcome) : list string * bool :=
  let addresses := fulfilled r4 ++ fulfilled r6 in
  (addresses, negb (length addresses =? 0)%nat).

(** The answer and the blocked address reported to [onBlocked]. *)
Definition validateResolvedIP (hostname : string) (r4 r6 : lookup_outcome)
  : bool * option string :=
  let host := canonicalizeHost hostname in
  if negb (isIP host =? 0) then (negb (isPrivateOrReservedIP host), None) else
  if throws_sync r4 || throws_sync r6 then (true, None) else
  let '(addresses, resolved) := collectResolvedAddresses r4 r6 in
  if negb resolved then (true, None) else
  match List.find isPrivateOrReservedIP addresses with
  | Some addr => (false, Some addr)
  | None => (true, None)
  end.

(** * Provider hosts *)

Definition DEFAULT_WEBHOOK_PROVIDER_HOSTS : list string :=
  ["hooks.slack.com"; "discord.com"; "discordapp.com"; "outlook.office.com";
   "webhook.office.com"; "office.com"; "office365.com"; "*.office.com"; "*.office365.com";
   "events.pagerduty.com"; "events.eu.pagerduty.com"; "*.pagerduty.com";
   "*.logic.azure.com"; "*.environment.api.powerplatform.com"].

Definition drop_last (s : string) : string := stake (String.length s - 1) s.
Definition normalizeWebhookHostEntry (value : string) : string :=
  let host := toLowerCase (trim value) in
  if endsWith "." host then drop_last host else host.
Definition parseWebhookHostList (raw : string) : list string :=
  List.filter (λ entry, 0 <? slen entry) (map normalizeWebhookHostEntry (split_on "," raw)).

Definition getExtraWebhookProviderHosts (e : env) : list string :=
  dedup (parseWebhookHostList (WEBHOOK_EXTRA_PROVIDER_HOSTS e)
         ++ parseWebhookHostList (WEBHOOK_PROVIDER_HOSTS e)).
Definition getWebhookProviderHosts (e : env) : list string :=
  dedup (map normalizeWebhookHostEntry DEFAULT_WEBHOOK_PROVIDER_HOSTS
         ++ List.filter (λ entry, negb (bool_decide (entry = "*"))) (getExtraWebhookProviderHosts e)).
Definition allowAllWebhookHosts (e : env) : bool :=
  if bool_decide (toLowerCase (trim (WEBHOOK_ALLOW_ALL_HOSTS e)) = "true") then true
  else bool_decide ("*" ∈ getExtraWebhookProviderHosts e).

Definition hostMatchesEntry (hostname entry : string) : bool :=
  if startsWith "*." entry then
    bool_decide (hostname = sdrop 2 entry) || endsWith (sdrop 1 entry) hostname
  else bool_decide (hostname = entry).
Definition webhookHostAllowed (e : env) (hostname : string) : bool :=
  if allowAllWebhookHosts e then true else
  let host := normalizeWebhookHostEntry hostname in
  existsb (hostMatchesEntry host) (getWebhookProviderHosts e).

Example ip_examples :
  map isPrivateOrReservedIP
    ["10.1.2.3"; "8.8.8.8"; "[::1]"; "::ffff:127.0.0.1"; "::ffff:a9fe:a9fe"; "64:ff9b::808:808";
     "2002:a00:1::"; "fe80::1%eth0"; "2606:4700::1111"; "fd00::1"; "example.com"; "::"; "::7f00:1"]
  = [true; false; true; true; true; false; true; true; false; true; false; true; true].
Proof. reflexivity. Qed.

(** * Address lemmas *)

Lemma drop_while_none p s : sforall (λ c, negb (p c)) s = true → drop_while p s = s.
Proof. destruct s as [|c s]; cbn; [done|]. intros [Hc _]%andb_prop. by destruct (p c). Qed.
Lemma drop_end_none p s : sforall (λ c, negb (p c)) s = true → drop_end p s = s.
Proof.
  induction s as [|c s IH]; cbn; [done|]. intros [Hc Hs]%andb_prop. rewrite (IH Hs).
  destruct s; [|done]. by destruct (p c).
Qed.
Lemma canonicalizeHost_plain s : sforall plain_char s = true → canonicalizeHost s = s.
Proof.
  intros H.
  assert (trim s = s) as Ht.
  { unfold trim, trim_by. rewrite (drop_while_none _ s), drop_end_none; [done| |];
      (eapply sforall_impl, H; intros c Hc; cbv beta in *;
       by destruct (plain_char_facts c Hc) as (-> & _)). }
  unfold canonicalizeHost. cbv zeta. rewrite Ht.
  assert (startsWith "[" s = false) as ->.
  { destruct s as [|c s]; [done|]. cbn in *. apply andb_prop in H as [Hc _].
    destruct (plain_char_facts c Hc) as (_ & Hb & _).
    by rewrite bool_decide_eq_false_2 by congruence. }
  cbn [andb]. rewrite index_of_none; [done|].
  eapply sforall_impl, H. intros c Hc. cbv beta in *.
  destruct (plain_char_facts c Hc) as (_ & _ & Hb). by rewrite bool_decide_eq_false_2.
Qed.

Lemma one_elision n s h t : split_elision s = Some (h, t) → split_elision t = None →
  (1 <? count_elisions n s)%nat = false.
Proof.
  intros H1 H2. destruct n as [|[|n]]; [done| |]; cbn [count_elisions]; rewrite H1; [done|].
  by rewrite H2.
Qed.
Lemma last_index_none x s : sforall (λ c, negb (bool_decide (c = x))) s = true →
  last_index_of x s = None.
Proof.
  induction s as [|c s IH]; cbn; [done|]. intros [Hc Hs]%andb_prop. rewrite (IH Hs).
  split_bool. by rewrite bool_decide_eq_false_2.
Qed.
Lemma last_index_app p s : no_colon s = true →
  last_index_of ":" (p +:+ String ":" s) = Some (String.length p).
Proof.
  intros Hs. induction p as [|c p IH]; cbn [String.append last_index_of String.length].
  - rewrite (last_index_none _ s Hs). done.
  - by rewrite IH.
Qed.
Lemma smap_app f s t : smap f (s +:+ t) = smap f s +:+ smap f t.
Proof. induction s as [|c s IH]; cbn; [done|by rewrite IH]. Qed.
Lemma stake_app s t : stake (String.length s) (s +:+ t) = s.
Proof. induction s as [|c s IH]; cbn; [by destruct t|by rewrite IH]. Qed.
Lemma includes_app p s t : includes p t = true → includes p (s +:+ t) = true.
Proof.
  intros H. induction s as [|c s IH]; [done|]. cbn [String.append includes].
  by rewrite IH, orb_true_r.
Qed.

Section mapped.
Context (a b c d : Z).
Hypothesis (Ha : 0 <= a <= 255) (Hb : 0 <= b <= 255) (Hc : 0 <= c <= 255) (Hd : 0 <= d <= 255).
Notation q := (dotted a b c d).

Lemma parse_dotted : parseIpv4Octets (dotted a b c d) = Some [a; b; c; d].
Proof.
  unfold parseIpv4Octets. rewrite split_dotted by done. cbn [length Nat.eqb negb mapM].
  destruct (octet_facts a Ha) as (_ & -> & _). destruct (octet_facts b Hb) as (_ & -> & _).
  destruct (octet_facts c Hc) as (_ & -> & _). destruct (octet_facts d Hd) as (_ & -> & _).
  cbn [mbind option_bind mret option_ret forallb]. unfold is_byte.
  by rewrite !(proj2 (Z.leb_le _ _)) by lia.
Qed.

Lemma q_dot : includes "." q = true.
Proof.
  unfold dotted. apply includes_app. done.
Qed.
(** Reading the bytes: the part before the dotted tail is concrete. *)
Lemma ipv6ToBytes_tail h :
  toLowerCase h = h →
  ipv6ToBytes (h +:+ String ":" q) =
    let str := h +:+ ":" in
    if (1 <? count_elisions (S (String.length (h +:+ String ":" q))) (h +:+ String ":" q))%nat
    then None else
    let dbl := split_elision str in
    let '(head, tl) := match dbl with Some p => p | None => (str, EmptyString) end in
    let headGroups := parseGroups head in
    let tailGroups := parseGroups tl in
    if negb (forallb is_lower_group (headGroups ++ tailGroups)) then None else
    let missing := 6 - Z.of_nat (length headGroups) - Z.of_nat (length tailGroups) in
    if (match dbl with None => negb (missing =? 0) | Some _ => missing <? 0 end) then None else
    let fill := match dbl with None => 0 | Some _ => missing end in
    let groups := headGroups ++ replicate (Z.to_nat fill) "0" ++ tailGroups in
    if negb (Z.of_nat (length groups) =? 6) then None else
    let bytes := concat (map group_bytes groups) ++ [a; b; c; d] in
    if (length bytes =? 16)%nat then Some bytes else None.
Proof.
  intros Hh. unfold ipv6ToBytes.
  assert (toLowerCase (h +:+ String ":" q) = h +:+ String ":" q) as ->.
  { unfold toLowerCase in *. rewrite smap_app, Hh. cbn [smap].
    change (smap lower_char q) with (toLowerCase q). rewrite q_lower by done. done. }
  cbv zeta. destruct (1 <? _)%nat; [done|].
  rewrite last_index_app by (by apply q_no_colon).
  assert (sdrop (S (String.length h)) (h +:+ String ":" q) = q) as ->.
  { change (String ":" q) with (":" +:+ q). rewrite sapp_assoc.
    replace (S (String.length h)) with (String.length (h +:+ ":"))
      by (rewrite slength_app; cbn; lia). apply sdrop_app. }
  rewrite q_dot, parse_dotted. cbn [mbind option_bind].
  assert (stake (S (String.length h)) (h +:+ String ":" q) = h +:+ ":") as ->; [|done].
  change (String ":" q) with (":" +:+ q). rewrite sapp_assoc.
  replace (S (String.length h)) with (String.length (h +:+ ":"))
    by (rewrite slength_app; cbn; lia). apply stake_app.
Qed.
End mapped.

Lemma carrier_bytes p a b c d :
  p ∈ ipv4_carriers → 0 <= a <= 255 → 0 <= b <= 255 → 0 <= c <= 255 → 0 <= d <= 255 →
  ∃ bytes, ipv6ToBytes (p +:+ dotted a b c d) = Some bytes ∧
    embeddedIpv4 bytes = Some [a; b; c; d].
Proof.
  intros Hp Ha Hb Hc Hd.
  assert (no_colon (dotted a b c d) = true) as Hq by (by apply q_no_colon).
  pose proof (split_elision_none _ Hq) as Hn. pose proof (split_elision_colon _ Hq) as Hnc.
  apply carriers_cases in Hp as [Hp|[Hp|Hp]]; subst p.
  - change ("::ffff:" +:+ dotted a b c d) with ("::ffff" +:+ String ":" (dotted a b c d)).
    rewrite ipv6ToBytes_tail by done. cbv zeta. cbn [String.append].
    rewrite (one_elision _ _ _ _ (split_elision_here _)) by (rewrite !split_elision_skip by done; by rewrite Hnc).
    eexists. split; [vm_compute|]; reflexivity.
  - change ("::ffff:0:" +:+ dotted a b c d) with ("::ffff:0" +:+ String ":" (dotted a b c d)).
    rewrite ipv6ToBytes_tail by done. cbv zeta. cbn [String.append].
    rewrite (one_elision _ _ _ _ (split_elision_here _))
      by (rewrite !split_elision_skip by done; rewrite split_elision_colon_skip by done;
          rewrite split_elision_skip by done; by rewrite Hnc).
    eexists. split; [vm_compute|]; reflexivity.
  - change ("64:ff9b::" +:+ dotted a b c d) with ("64:ff9b:" +:+ String ":" (dotted a b c d)).
    rewrite ipv6ToBytes_tail by done. cbv zeta. cbn [String.append].
    assert (split_elision (String "6" (String "4" (String ":" (String "f" (String "f" (String "9"
      (String "b" (String ":" (String ":" (dotted a b c d)))))))))) =
      Some ("64:ff9b", dotted a b c d)) as E.
    { rewrite !split_elision_skip by done. rewrite split_elision_colon_skip by done.
      rewrite !split_elision_skip by done. by rewrite split_elision_here. }
    rewrite (one_elision _ _ _ _ E Hn).
    eexists. split; [vm_compute|]; reflexivity.
Qed.

(** An IPv4 address cannot hide in an IPv6 literal.  The mapped, the
    translated and the NAT64 form of any dotted address get exactly the
    classification of the address itself, which is that of its first two
    octets. *)
Theorem embedded_ipv4_classified_as_ipv4 (p : string) (a b c d : Z) :
  p ∈ ipv4_carriers →
  0 <= a <= 255 → 0 <= b <= 255 → 0 <= c <= 255 → 0 <= d <= 255 →
  isPrivateOrReservedIP (p +:+ dotted a b c d) = isPrivateIpv4 a b ∧
  isPrivateOrReservedIP (dotted a b c d) = isPrivateIpv4 a b.
Proof.
  intros Hp Ha Hb Hc Hd. split; unfold isPrivateOrReservedIP.
  - destruct (carrier_isIP p a b c d) as [Hpl Hip]; [done..|].
    destruct (carrier_bytes p a b c d) as (bytes & Hby & He); [done..|].
    rewrite (canonicalizeHost_plain _ Hpl), Hip, Hby, He.
    rewrite bool_decide_eq_false_2; [done|].
    apply carriers_cases in Hp as [Hp|[Hp|Hp]]; by subst p.
  - rewrite canonicalizeHost_plain by (by apply q_plain).
    unfold isIP. rewrite isIPv4_dotted, parse_dotted by done.
    by rewrite bool_decide_eq_false_2 by apply q_nonempty.
Qed.
Lemma embedded_ipv4_classified_as_ipv4_witness :
  isPrivateOrReservedIP ("64:ff9b::" +:+ dotted 169 254 169 254) = isPrivateIpv4 169 254 ∧
  isPrivateIpv4 169 254 = true.
Proof.
  split; [|reflexivity].
  refine (proj1 (embedded_ipv4_classified_as_ipv4 "64:ff9b::" 169 254 169 254 _ _ _ _ _)); try lia.
  apply (bool_decide_unpack _). vm_compute. exact I.
Defined.

(** The resolution check on every branch.  A literal is accepted exactly
    when it is public; a host name whose lookups complete is accepted exactly
    when no candidate of either family is private or reserved, and the
    reported address is a private one that was among them; with no answer at
    all the check lets the request fail by itself. *)
Theorem validateResolvedIP_spec (hostname : string) (r4 r6 : lookup_outcome) :
  let host := canonicalizeHost hostname in
  let addrs := fulfilled r4 ++ fulfilled r6 in
  (isIP host ≠ 0 →
     validateResolvedIP hostname r4 r6 = (negb (isPrivateOrReservedIP host), None)) ∧
  (isIP host = 0 → throws_sync r4 || throws_sync r6 = false →
     ((validateResolvedIP hostname r4 r6).1 = true ↔
        ∀ ip, ip ∈ addrs → isPrivateOrReservedIP ip = false) ∧
     (∀ ip, (validateResolvedIP hostname r4 r6).2 = Some ip →
        ip ∈ addrs ∧ isPrivateOrReservedIP ip = true)).
Proof.
  cbv zeta. unfold validateResolvedIP. split.
  - intros Hip. by rewrite (proj2 (Z.eqb_neq _ _)).
  - intros -> Hs. rewrite Hs. cbn [negb Z.eqb collectResolvedAddresses].
    set (addrs := fulfilled r4 ++ fulfilled r6).
    assert ((if negb (negb (length addrs =? 0)%nat) then (true, None) else
      match List.find isPrivateOrReservedIP addrs with
      | Some addr => (false, Some addr) | None => (true, None) end) =
      match List.find isPrivateOrReservedIP addrs with
      | Some addr => (false, Some addr) | None => (true, None) end) as ->
      by (by destruct addrs).
    destruct (List.find _ addrs) as [ip|] eqn:E; cbn [fst snd].
    + apply find_some in E as [Hin Hpr]. apply list_elem_of_In in Hin. split.
      * split; [done|]. intros H. apply H in Hin. congruence.
      * by intros ? [= <-].
    + split; [|done]. split; [|done]. intros _ ip Hin.
      apply (find_none _ _ E). by apply list_elem_of_In.
Qed.
Lemma validateResolvedIP_spec_witness :
  validateResolvedIP "[::ffff:10.0.0.1]" Failed Failed = (false, None).
Proof.
  rewrite (proj1 (validateResolvedIP_spec "[::ffff:10.0.0.1]" Failed Failed));
    [reflexivity|vm_compute; discriminate].
Defined.

Lemma hostMatchesEntry_spec host entry :
  hostMatchesEntry host entry = true ↔
  match startsWith "*." entry with
  | true => ∃ dom, entry = "*." +:+ dom ∧ (host = dom ∨ ∃ sub, host = sub +:+ "." +:+ dom)
  | false => host = entry
  end.
Proof.
  unfold hostMatchesEntry. destruct (startsWith "*." entry) eqn:E.
  - apply startsWith_spec in E as [dom ->]. cbn [String.append sdrop].
    rewrite orb_true_iff, bool_decide_eq_true, endsWith_spec. split.
    + intros H. exists dom. split; [done|]. naive_solver.
    + intros (dom' & [= <-] & H). naive_solver.
  - apply bool_decide_eq_true.
Qed.

(** The provider allowlist.  Unless everything is allowed, a host passes
    exactly when, normalized, it is an exact entry of the list, the apex of a
    wildcard entry or below it at a label boundary; the list holds every
    default provider, no entry twice, and never the sentinel ["*"]. *)
Theorem webhookHostAllowed_spec (e : env) (hostname : string) :
  allowAllWebhookHosts e = false →
  let host := normalizeWebhookHostEntry hostname in
  (webhookHostAllowed e hostname = true ↔
   ∃ entry, entry ∈ getWebhookProviderHosts e ∧
     if startsWith "*." entry
     then ∃ dom, entry = "*." +:+ dom ∧ (host = dom ∨ ∃ sub, host = sub +:+ "." +:+ dom)
     else host = entry) ∧
  (∀ d, d ∈ DEFAULT_WEBHOOK_PROVIDER_HOSTS → d ∈ getWebhookProviderHosts e) ∧
  "*" ∉ getWebhookProviderHosts e ∧ NoDup (getWebhookProviderHosts e).
Proof.
  intros Hall host. unfold webhookHostAllowed. rewrite Hall. fold host.
  split; [|split; [|split]].
  - rewrite existsb_exists. setoid_rewrite <- list_elem_of_In.
    setoid_rewrite hostMatchesEntry_spec. done.
  - intros d Hd. unfold getWebhookProviderHosts. rewrite dedup_elem, elem_of_app. left.
    replace (map normalizeWebhookHostEntry DEFAULT_WEBHOOK_PROVIDER_HOSTS)
      with DEFAULT_WEBHOOK_PROVIDER_HOSTS by reflexivity. done.
  - unfold getWebhookProviderHosts. rewrite dedup_elem, elem_of_app. intros [H|H].
    + revert H. apply (bool_decide_unpack _). vm_compute. exact I.
    + apply list_elem_of_In, filter_In in H as [_ H]. done.
  - apply dedup_NoDup.
Qed.
Definition default_env : env :=
  mkEnv EmptyString EmptyString "production" "*.corp.example, chat.example." EmptyString EmptyString.
Lemma webhookHostAllowed_spec_witness :
  webhookHostAllowed default_env "Hooks.Corp.Example." = true ∧
  webhookHostAllowed default_env "evilcorp.example" = false.
Proof.
  split; [|reflexivity].
  refine (proj2 (proj1 (webhookHostAllowed_spec default_env "Hooks.Corp.Example." _)) _);
    [reflexivity|].
  exists "*.corp.example". split; [apply (bool_decide_unpack _); vm_compute; exact I|].
  exists "corp.example". split; [reflexivity|]. right. exists "hooks". reflexivity.
Defined.

(** [normalizeWebhookHostEntry] strips one trailing dot per call, so it
    is not idempotent: a host written with two trailing dots changes again,
    and only its second normalization matches the allowlist entry. *)
Theorem normalizeWebhookHostEntry_not_idempotent :
  ∃ h, normalizeWebhookHostEntry (normalizeWebhookHostEntry h) ≠ normalizeWebhookHostEntry h ∧
    webhookHostAllowed default_env h = false ∧
    webhookHostAllowed default_env (normalizeWebhookHostEntry h) = true.
Proof. exists "discord.com..". vm_compute. done. Qed.
