(* ===== verification/Db.v ===== *)
(** Programs that talk to a database.

    A service function is a [prog]: pure code between SQL statements, each of
    which reads and changes the shared state atomically.  Programs of several
    callers run interleaved, statement by statement, and a statement's
    connection may fail before or after it took effect ([prog_step]).

    [holds R G Q p s] is a rely-guarantee judgement: started at [s], while the
    others change the state only as [R] allows, every statement of [p] changes
    it as [G] says, and a result [r] satisfies [Q] at the state where it is
    returned.  [interleaving_sound] composes the judgements of concurrent
    programs. *)
From S2P Require Import Prelude.
From stdpp Require Import relations.

Section prog.
Context {S E : Type}.

Inductive prog (A : Type) : Type :=
| Ret (r : result E A)
| Stmt {B : Type} (q : S → S * result E B) (k : result E B → prog A).
Arguments Ret {A} r.
Arguments Stmt {A B} q k.

#[global] Instance prog_ret : MRet prog := λ A a, Ret (Ok a).
Fixpoint prog_bind_ {A B} (f : A → prog B) (p : prog A) : prog B :=
  match p with
  | Ret (Ok a) => f a
  | Ret (Err e) => Ret (Err e)
  | Stmt q k => Stmt q (λ r, prog_bind_ f (k r))
  end.
#[global] Instance prog_bind : MBind prog := @prog_bind_.
(** [try { p } catch (e) { h(e) }]. *)
Fixpoint catch {A} (p : prog A) (h : E → prog A) : prog A :=
  match p with
  | Ret (Err e) => h e
  | Ret (Ok a) => Ret (Ok a)
  | Stmt q k => Stmt q (λ r, catch (k r) h)
  end.
Definition query {B} (q : S → S * result E B) : prog B := Stmt q Ret.
(** A [SELECT]. *)
Definition read {B} (f : S → B) : prog B := query (λ s, (s, Ok (f s))).
Definition throw {A} (e : E) : prog A := Ret (Err e).

(** The call that nothing interleaves with and no connection fails. *)
Fixpoint run {A} (p : prog A) (s : S) : S * result E A :=
  match p with
  | Ret r => (s, r)
  | Stmt q k => let '(s, r) := q s in run (k r) s
  end.

(** The next statement: it runs, or the connection fails before it, or after
    it and the caller sees an error. *)
Inductive prog_step {A} : S → prog A → S → prog A → Prop :=
| stmt_runs {B} (q : S → S * result E B) k s :
    prog_step s (Stmt q k) (q s).1 (k (q s).2)
| stmt_not_run {B} (q : S → S * result E B) k s e :
    prog_step s (Stmt q k) s (k (Err e))
| stmt_reply_lost {B} (q : S → S * result E B) k s e :
    prog_step s (Stmt q k) (q s).1 (k (Err e)).

(** Callers running concurrently over one state; [env] is what any other code
    does to it in one statement. *)
Inductive interleave {A} (env : S → S → Prop) : S * list (prog A) → S * list (prog A) → Prop :=
| caller_step s ps i p s' p' :
    ps !! i = Some p → prog_step s p s' p' → interleave env (s, ps) (s', <[i := p']> ps)
| other_step s ps s' : env s s' → interleave env (s, ps) (s', ps).

Lemma interleave_length {A} env (x y : S * list (prog A)) :
  rtc (interleave env) x y → length y.2 = length x.2.
Proof.
  induction 1 as [x|x y z Hst _ IH]; [done|]. rewrite IH.
  destruct Hst; cbn; [by rewrite length_insert|done].
Qed.
(** An undisturbed call is one of the interleavings. *)
Lemma run_interleave {A} env (p : prog A) s ps i : ps !! i = Some p →
  rtc (interleave env) (s, ps) ((run p s).1, <[i := Ret (run p s).2]> ps).
Proof.
  revert s ps. induction p as [r|B q k IH]; intros s ps Hi; cbn.
  - rewrite list_insert_id by done. apply rtc_refl.
  - eapply rtc_l.
    + eapply caller_step; [exact Hi|]. apply stmt_runs.
    + destruct (q s) as [s' r] eqn:Eq; cbn.
      pose proof (IH r s' (<[i := k r]> ps)) as H. rewrite list_insert_insert_eq in H.
      apply H. apply list_lookup_insert_eq. by eapply lookup_lt_Some.
Qed.

(** The first [n] statements of an undisturbed call. *)
Fixpoint advance {A} (n : nat) (p : prog A) (s : S) : S * prog A :=
  match n, p with
  | Datatypes.S n, Stmt q k => let '(s', r) := q s in advance n (k r) s'
  | _, _ => (s, p)
  end.
Lemma advance_interleave {A} env n (p : prog A) s ps i : ps !! i = Some p →
  rtc (interleave env) (s, ps) ((advance n p s).1, <[i := (advance n p s).2]> ps).
Proof.
  revert p s ps. induction n as [|n IH]; intros p s ps Hi.
  { cbn. rewrite list_insert_id by done. apply rtc_refl. }
  destruct p as [r|B q k]; cbn [advance].
  { rewrite list_insert_id by done. apply rtc_refl. }
  eapply rtc_l; [eapply caller_step; [exact Hi|apply stmt_runs]|].
  destruct (q s) as [s' r] eqn:Eq; cbn [fst snd].
  pose proof (IH (k r) s' (<[i := k r]> ps)) as H. rewrite list_insert_insert_eq in H.
  apply H. apply list_lookup_insert_eq. by eapply lookup_lt_Some.
Qed.

(** * Rely and guarantee *)

Section judgement.
Context (R G : S → S → Prop).

Fixpoint holds {A} (Q : S → result E A → Prop) (p : prog A) (s : S) : Prop :=
  match p with
  | Ret r => ∀ s', R s s' → Q s' r
  | Stmt q k => ∀ s', R s s' →
      G s' (q s').1 ∧ holds Q (k (q s').2) (q s').1 ∧
      ∀ e, holds Q (k (Err e)) s' ∧ holds Q (k (Err e)) (q s').1
  end.

Lemma holds_rely {A} (Q : S → result E A → Prop) p s s' :
  Transitive R → R s s' → holds Q p s → holds Q p s'.
Proof.
  intros HT HR. destruct p as [r|B q k]; cbn; intros H s2 H2; apply H; by transitivity s'.
Qed.
Lemma holds_mono {A} (Q Q' : S → result E A → Prop) p s :
  (∀ s r, Q s r → Q' s r) → holds Q p s → holds Q' p s.
Proof.
  intros HQ. revert s. induction p as [r|B q k IH]; intros s; cbn; [by eauto|].
  intros H s' HR. destruct (H s' HR) as (H1 & H2 & H3).
  split; [done|]. split; [by apply IH|]. intros e. destruct (H3 e). split; by apply IH.
Qed.
(** What holds of [p] and of its continuation holds of the composition; a
    thrown error is the composition's result. *)
Lemma holds_bind {A B} (Q1 : S → result E A → Prop) (Q : S → result E B → Prop) p f s :
  holds Q1 p s →
  (∀ s a, Q1 s (Ok a) → holds Q (f a) s) →
  (∀ s e, Q1 s (Err e) → Q s (Err e)) →
  Reflexive R →
  holds Q (p ≫= f) s.
Proof.
  intros Hp Hf He HRe. revert s Hp. induction p as [[a|e]|C q k IH]; intros s; cbn.
  - intros H. apply Hf. by apply H.
  - intros H s' HR. by apply He, H.
  - intros H s' HR. destruct (H s' HR) as (H1 & H2 & H3).
    split; [done|]. split; [by apply IH|]. intros e. destruct (H3 e). split; by apply IH.
Qed.
Lemma holds_catch {A} (Q1 Q : S → result E A → Prop) p h s :
  holds Q1 p s →
  (∀ s e, Q1 s (Err e) → holds Q (h e) s) →
  (∀ s a, Q1 s (Ok a) → Q s (Ok a)) →
  Reflexive R →
  holds Q (catch p h) s.
Proof.
  intros Hp Hh Ho HRe. revert s Hp. induction p as [[a|e]|C q k IH]; intros s; cbn.
  - intros H s' HR. by apply Ho, H.
  - intros H. apply Hh. by apply H.
  - intros H s' HR. destruct (H s' HR) as (H1 & H2 & H3).
    split; [done|]. split; [by apply IH|]. intros e. destruct (H3 e). split; by apply IH.
Qed.

(** Whatever a program does, the state goes on as its rely allows. *)
Lemma holds_since {A} (Q : S → result E A → Prop) p s0 s :
  Transitive R → (∀ a b, G a b → R a b) → R s0 s → holds Q p s →
  holds (λ s' r, R s0 s' ∧ Q s' r) p s.
Proof.
  intros HT HG. revert s. induction p as [r|B q k IH]; intros s H0; cbn.
  - intros H s' HR. split; [by transitivity s|auto].
  - intros H s' HR. destruct (H s' HR) as (H1 & H2 & H3).
    assert (R s0 s') by (by transitivity s). assert (R s0 (q s').1) by (transitivity s'; auto).
    split; [done|]. split; [by apply IH|]. intros e. destruct (H3 e). split; by apply IH.
Qed.

Lemma holds_step {A} (Q : S → result E A → Prop) p s p' s' :
  Reflexive R → holds Q p s → prog_step s p s' p' →
  (s' = s ∨ G s s') ∧ holds Q p' s'.
Proof.
  intros HR H Hs. destruct Hs; cbn in H; destruct (H s (HR s)) as (H1 & H2 & H3).
  - split; [by right|done].
  - split; [by left|]. apply H3.
  - split; [by right|]. apply H3.
Qed.

(** [run] is one of the interleavings: what holds of a program holds of its
    undisturbed call. *)
Lemma holds_run {A} (Q : S → result E A → Prop) p s :
  Reflexive R → holds Q p s → Q (run p s).1 (run p s).2.
Proof.
  intros HRe. revert s. induction p as [r|B q k IH]; intros s H; cbn in *; [by apply H|].
  destruct (H s (HRe s)) as (_ & H2 & _). destruct (q s) as [s' r]. by apply IH.
Qed.
End judgement.

(** Concurrent callers, each guaranteeing what the others rely on. *)
Lemma interleaving_sound {A} (R : S → S → Prop) (G : nat → S → S → Prop) (Q : nat → S → result E A → Prop) (env : S → S → Prop) s ps s' ps' :
  Reflexive R → Transitive R → (∀ i a b, G i a b → R a b) → (∀ a b, env a b → R a b) →
  (∀ i p, ps !! i = Some p → holds R (G i) (Q i) p s) →
  rtc (interleave env) (s, ps) (s', ps') →
  R s s' ∧ ∀ i p, ps' !! i = Some p → holds R (G i) (Q i) p s'.
Proof.
  intros HRe HTr HG HE Hps Hrtc.
  remember (s, ps) as x eqn:Ex. remember (s', ps') as y eqn:Ey. revert s ps Ex Hps Ey.
  induction Hrtc as [|x y z Hst _ IH]; intros s ps -> Hps Ey.
  - injection Ey as <- <-. by split.
  - inversion Hst as [s0 ps0 i p s1 p1 Hi Hpst|s0 ps0 s1 He]; subst; clear Hst.
    + destruct (holds_step _ _ _ _ _ _ _ HRe (Hps i p Hi) Hpst) as [HG1 Hp1].
      assert (R s s1) as HR by (destruct HG1 as [->|?]; [done|by eapply HG]).
      destruct (IH s1 (<[i := p1]> ps) eq_refl) as [HR2 H2]; [|done|].
      * intros j pj. destruct (decide (i = j)) as [<-|Hne].
        -- rewrite list_lookup_insert_eq by (by eapply lookup_lt_Some). by intros [= <-].
        -- rewrite list_lookup_insert_ne by done. intros Hj. eapply holds_rely; eauto.
      * split; [by transitivity s1|done].
    + pose proof (HE _ _ He) as HR.
      destruct (IH s1 ps eq_refl) as [HR2 H2]; [|done|].
      * intros j pj Hj. eapply holds_rely; eauto.
      * split; [by transitivity s1|done].
Qed.

Lemma bind_ret {A B} (a : A) (f : A → prog B) : (Ret (Ok a) ≫= f) = f a.
Proof. done. Qed.
Lemma bind_throw {A B} (e : E) (f : A → prog B) : (Ret (Err e) ≫= f) = Ret (Err e).
Proof. done. Qed.

(** Programs that only read: they keep the state whatever it is. *)
Fixpoint reads_only {A} (p : prog A) : Prop :=
  match p with
  | Ret _ => True
  | Stmt q k => (∀ s, (q s).1 = s) ∧ ∀ r, reads_only (k r)
  end.
Lemma reads_only_bind {A B} (p : prog A) (f : A → prog B) :
  reads_only p → (∀ a, reads_only (f a)) → reads_only (p ≫= f).
Proof. intros Hp Hf. induction p as [[a|e]|C q k IH]; cbn; [done..|]. destruct Hp. eauto. Qed.
(** ** Undisturbed calls *)

Lemma run_bind {A B} (p : prog A) (f : A → prog B) s :
  run (p ≫= f) s = match run p s with (s', Ok a) => run (f a) s' | (s', Err e) => (s', Err e) end.
Proof.
  revert s. induction p as [[a|e]|C q k IH]; intros s; cbn; [done..|].
  destruct (q s) as [s' r]. apply IH.
Qed.
Lemma run_catch {A} (p : prog A) h s :
  run (catch p h) s = match run p s with (s', Err e) => run (h e) s' | (s', Ok a) => (s', Ok a) end.
Proof.
  revert s. induction p as [[a|e]|C q k IH]; intros s; cbn; [done..|].
  destruct (q s) as [s' r]. apply IH.
Qed.
Lemma run_reads {A} (p : prog A) s : reads_only p → (run p s).1 = s.
Proof.
  revert s. induction p as [r|C q k IH]; intros s; cbn; [done|]. intros [Hq Hk].
  specialize (Hq s). destruct (q s) as [s' r]. cbn in Hq. subst s'. by apply IH.
Qed.
Lemma run_lift_ok {A B} (r : result E A) (f : A → prog B) s x :
  (run (Ret r ≫= f) s).2 = Ok x → ∃ a, r = Ok a ∧ (run (f a) s).2 = Ok x.
Proof. destruct r as [a|e]; [by exists a|done]. Qed.
Lemma run_reads_ok {A B} (p : prog A) (f : A → prog B) s x : reads_only p →
  (run (p ≫= f) s).2 = Ok x → ∃ a, (run p s).2 = Ok a ∧ (run (f a) s).2 = Ok x.
Proof.
  intros Hp. rewrite run_bind. pose proof (run_reads p s Hp) as Hs.
  destruct (run p s) as [s' [a|e]]; cbn in *; [subst; by exists a|done].
Qed.
Lemma run_reads_eq {A B} (p : prog A) (f : A → prog B) s a : reads_only p →
  (run p s).2 = Ok a → run (p ≫= f) s = run (f a) s.
Proof.
  intros Hp Ha. rewrite run_bind. pose proof (run_reads p s Hp) as Hs.
  destruct (run p s) as [s' r]. cbn in *. by subst.
Qed.
Section reads.
Context (R G : S → S → Prop) {HRr : Reflexive R} {HRt : Transitive R} {HG : Reflexive G}.

Lemma holds_reads {A} (p : prog A) s s0 :
  R s0 s → reads_only p → holds R G (λ s' _, R s0 s') p s.
Proof.
  revert s. induction p as [r|B q k IH]; intros s; cbn.
  - intros H _ s' HR. by transitivity s.
  - intros H [Hq Hk] s' HR. rewrite Hq. assert (R s0 s') by (by transitivity s).
    split; [done|]. split; [by apply IH|]. intros e. split; by apply IH.
Qed.
(** The steps of a program in the order of its code. *)
Lemma holds_ret {A} (Q : S → result E A → Prop) r s : (∀ s', Q s' r) → holds R G Q (Ret r) s.
Proof. intros H s' _. apply H. Qed.
Lemma holds_lift {A B} (Q : S → result E B → Prop) (r : result E A) (f : A → prog B) s :
  (∀ a, r = Ok a → holds R G Q (f a) s) → (∀ s' e, Q s' (Err e)) →
  holds R G Q (Ret r ≫= f) s.
Proof. intros Hf He. destruct r; [by apply Hf|]. intros s' _. apply He. Qed.
Lemma holds_read {A B} (Q : S → result E B → Prop) (g : S → A) (f : A → prog B) s :
  (∀ s', R s s' → holds R G Q (f (g s')) s') → (∀ s' e, Q s' (Err e)) →
  holds R G Q (read g ≫= f) s.
Proof.
  intros Hf He s' HR. cbn. split; [done|]. split; [by apply Hf|].
  intros e. split; intros s2 _; apply He.
Qed.
Lemma holds_silent {A B} (Q : S → result E B → Prop) (p : prog A) (f : A → prog B) s :
  reads_only p → (∀ s' a, R s s' → holds R G Q (f a) s') → (∀ s' e, Q s' (Err e)) →
  holds R G Q (p ≫= f) s.
Proof.
  intros Hp Hf He. eapply holds_bind; [by apply (holds_reads p s s)|..|done]; cbn; auto.
Qed.
End reads.
End prog.
Arguments prog S E A : clear implicits.
Arguments Ret {S E A} r.
Arguments Stmt {S E A B} q k.

(** * Transactions

    A transaction whose rows are locked is one function: it throws, and is
    rolled back, or commits the state with a result. *)
Section transactions.
Context {S E : Type}.

Definition txn (A : Type) : Type := S → result E (S * A).
#[global] Instance txn_ret : MRet txn := λ A a s, Ok (s, a).
#[global] Instance txn_bind : MBind txn := λ A B f m s,
  match m s with Ok (s', a) => f a s' | Err e => Err e end.
Definition raise {A} (e : E) : txn A := λ _, Err e.
Definition guard_tx (b : bool) (e : E) : txn unit := λ s, if b then Ok (s, tt) else Err e.
Definition of_result {A} (r : result E A) : txn A := λ s, match r with Ok a => Ok (s, a) | Err e => Err e end.
Definition reads {A} (f : S → A) : txn A := λ s, Ok (s, f s).
Definition writes (f : S → S) : txn unit := λ s, Ok (f s, tt).
(** COMMIT, or ROLLBACK and rethrow. *)
Definition transact {A} (m : txn A) (s : S) : S * result E A :=
  match m s with Ok (s', a) => (s', Ok a) | Err e => (s, Err e) end.

Lemma txn_bind_ok {A B} (m : txn A) (f : A → txn B) s s' b :
  (m ≫= f) s = Ok (s', b) ↔ ∃ s1 a, m s = Ok (s1, a) ∧ f a s1 = Ok (s', b).
Proof.
  unfold mbind, txn_bind. destruct (m s) as [[s1 a]|e]; [naive_solver|].
  split; [done|]. by intros (? & ? & ? & _).
Qed.
Lemma guard_tx_ok b e s s' u : guard_tx b e s = Ok (s', u) ↔ b = true ∧ s' = s.
Proof. unfold guard_tx. destruct b, u; naive_solver. Qed.
Lemma of_result_ok {A} (r : result E A) s s' a : of_result r s = Ok (s', a) ↔ r = Ok a ∧ s' = s.
Proof. unfold of_result. destruct r; naive_solver. Qed.
Lemma reads_ok {A} (f : S → A) s s' a : reads f s = Ok (s', a) ↔ a = f s ∧ s' = s.
Proof. unfold reads. naive_solver. Qed.
Lemma writes_ok f s s' u : writes f s = Ok (s', u) ↔ s' = f s.
Proof. unfold writes. destruct u. naive_solver. Qed.
Lemma ret_ok {A} (a b : A) (s s' : S) : (mret a : txn A) s = Ok (s', b) ↔ a = b ∧ s' = s.
Proof. unfold mret, txn_ret. naive_solver. Qed.
End transactions.
Arguments txn S E A : clear implicits.

(** [open_tx H] splits a committed transaction into its statements. *)
Ltac open_tx H :=
  first
  [ let s := fresh "s" in let a := fresh "a" in let H1 := fresh H in
    apply txn_bind_ok in H as (s & a & H1 & H); open_tx H1; open_tx H
  | apply guard_tx_ok in H as [H ->]
  | apply of_result_ok in H as [H ->]
  | apply reads_ok in H as [-> ->]
  | apply writes_ok in H as ->
  | apply ret_ok in H as [<- ->]
  | discriminate H
  | idtac ].
