(* ===== verification/Interleaving.v ===== *)
(** Programs of different callers, each with a rely and a guarantee of its own.

    Db.v's judgement gives all callers the same rely and guarantee.  Here the
    [i]-th caller has [R i] and [G i], a global invariant may be assumed at
    every statement, and [faults] says whether connections fail: a property of
    undisturbed connections is proved with [faults := False]. *)
From S2P Require Import Prelude.
From stdpp Require Import relations.
From S2P Require Import Db.

Section interleaving.
Context {S E : Type} (faults : Prop).

(** One statement of a caller, or one step of any other code. *)
Inductive callers_step {A} (env : S → S → Prop) : S * list (prog S E A) → S * list (prog S E A) → Prop :=
| statement_runs s ps i {B} (q : S → S * result E B) k :
    ps !! i = Some (Stmt q k) → callers_step env (s, ps) ((q s).1, <[i := k (q s).2]> ps)
| statement_not_run s ps i {B} (q : S → S * result E B) k e :
    faults → ps !! i = Some (Stmt q k) → callers_step env (s, ps) (s, <[i := k (Err e)]> ps)
| statement_reply_lost s ps i {B} (q : S → S * result E B) k e :
    faults → ps !! i = Some (Stmt q k) → callers_step env (s, ps) ((q s).1, <[i := k (Err e)]> ps)
| environment_step s ps s' : env s s' → callers_step env (s, ps) (s', ps).

(** An undisturbed call is one of the interleavings. *)
Lemma run_callers {A} env (p : prog S E A) s ps i : ps !! i = Some p →
  rtc (callers_step env) (s, ps) ((run p s).1, <[i := Ret (run p s).2]> ps).
Proof.
  revert s ps. induction p as [r|B q k IH]; intros s ps Hi; cbn.
  - rewrite list_insert_id by done. apply rtc_refl.
  - eapply rtc_l; [by eapply statement_runs|]. destruct (q s) as [s' r]; cbn.
    pose proof (IH r s' (<[i := k r]> ps)) as H. rewrite list_insert_insert_eq in H.
    apply H. apply list_lookup_insert_eq. by eapply lookup_lt_Some.
Qed.
(** The first [n] statements of one. *)
Lemma advance_callers {A} env n (p : prog S E A) s ps i : ps !! i = Some p →
  rtc (callers_step env) (s, ps) ((advance n p s).1, <[i := (advance n p s).2]> ps).
Proof.
  revert p s ps. induction n as [|n IH]; intros p s ps Hi; [by rewrite list_insert_id|].
  destruct p as [r|B q k]; cbn [advance]; [by rewrite list_insert_id|].
  eapply rtc_l; [by eapply statement_runs|]. destruct (q s) as [s' r]; cbn [fst snd].
  pose proof (IH (k r) s' (<[i := k r]> ps)) as H. rewrite list_insert_insert_eq in H.
  apply H. apply list_lookup_insert_eq. by eapply lookup_lt_Some.
Qed.

(** Every statement, on every branch, does what [G] says. *)
Fixpoint emits {A} (G : S → S → Prop) (p : prog S E A) : Prop :=
  match p with
  | Ret _ => True
  | Stmt q k => (∀ s, G s (q s).1) ∧ ∀ r, emits G (k r)
  end.
Lemma emits_bind {A B} (G : S → S → Prop) (p : prog S E A) (f : A → prog S E B) :
  emits G p → (∀ a, emits G (f a)) → emits G (p ≫= f).
Proof. induction p as [[a|e]|C q k IH]; cbn; intros Hp Hf; [apply Hf|done|]. split; [apply Hp|]. intros r. by apply IH; [apply Hp|]. Qed.
Lemma emits_catch {A} (G : S → S → Prop) (p : prog S E A) h :
  emits G p → (∀ e, emits G (h e)) → emits G (catch p h).
Proof. induction p as [[a|e]|C q k IH]; cbn; intros Hp Hh; [done|apply Hh|]. split; [apply Hp|]. intros r. by apply IH; [apply Hp|]. Qed.
Lemma emits_query {B} (G : S → S → Prop) (q : S → S * result E B) : (∀ s, G s (q s).1) → emits G (query q).
Proof. intros H. split; [done|]. by intros []. Qed.

Section judgement.
Context (Inv : S → Prop) (R G : S → S → Prop).

Fixpoint ensures {A} (Q : S → result E A → Prop) (p : prog S E A) (s : S) : Prop :=
  match p with
  | Ret r => ∀ s', R s s' → Inv s' → Q s' r
  | Stmt q k => ∀ s', R s s' → Inv s' →
      G s' (q s').1 ∧ (Inv (q s').1 → ensures Q (k (q s').2) (q s').1) ∧
      (faults → ∀ e, ensures Q (k (Err e)) s' ∧ (Inv (q s').1 → ensures Q (k (Err e)) (q s').1))
  end.

Lemma ensures_rely {A} (Q : S → result E A → Prop) p s s' :
  Transitive R → R s s' → ensures Q p s → ensures Q p s'.
Proof. intros HT HR. destruct p as [r|B q k]; cbn; intros H s2 H2; apply H; by transitivity s'. Qed.
Lemma ensures_mono {A} (Q Q' : S → result E A → Prop) p s :
  (∀ s r, Inv s → Q s r → Q' s r) → ensures Q p s → ensures Q' p s.
Proof.
  intros HQ. revert s. induction p as [r|B q k IH]; intros s; cbn; [by eauto|].
  intros H s' HR HI. destruct (H s' HR HI) as (H1 & H2 & H3).
  split; [done|]. split; [by auto|]. intros F e. destruct (H3 F e). split; auto.
Qed.
Lemma ensures_bind {A B} (Q1 : S → result E A → Prop) (Q : S → result E B → Prop) p f s :
  Reflexive R → ensures Q1 p s →
  (∀ s a, Inv s → Q1 s (Ok a) → ensures Q (f a) s) →
  (∀ s e, Inv s → Q1 s (Err e) → Q s (Err e)) →
  Inv s → ensures Q (p ≫= f) s.
Proof.
  intros HRe Hp Hf He. revert s Hp. induction p as [[a|e]|C q k IH]; intros s; cbn.
  - intros H HI. apply Hf; auto.
  - intros H _ s' HR HI. by apply He, H.
  - intros H _ s' HR HI. destruct (H s' HR HI) as (H1 & H2 & H3).
    split; [done|]. split; [by auto|]. intros F e. destruct (H3 F e). split; auto.
Qed.
Lemma ensures_catch {A} (Q1 Q : S → result E A → Prop) p h s :
  Reflexive R → ensures Q1 p s →
  (∀ s e, Inv s → Q1 s (Err e) → ensures Q (h e) s) →
  (∀ s a, Inv s → Q1 s (Ok a) → Q s (Ok a)) →
  Inv s → ensures Q (catch p h) s.
Proof.
  intros HRe Hp Hh Ho. revert s Hp. induction p as [[a|e]|C q k IH]; intros s; cbn.
  - intros H _ s' HR HI. by apply Ho, H.
  - intros H HI. apply Hh; auto.
  - intros H _ s' HR HI. destruct (H s' HR HI) as (H1 & H2 & H3).
    split; [done|]. split; [by auto|]. intros F e. destruct (H3 F e). split; auto.
Qed.
(** A statement whose connection does not fail. *)
Lemma ensures_query {B} (Q : S → result E B → Prop) (q : S → S * result E B) s :
  ¬ faults → (∀ s', R s s' → Inv s' → G s' (q s').1 ∧ ∀ s2, R (q s').1 s2 → Inv s2 → Q s2 (q s').2) →
  ensures Q (query q) s.
Proof. intros HF H s' HR HI. destruct (H s' HR HI) as [H1 H2]. split; [done|]. split; [by cbn|done]. Qed.
Lemma emits_ensures {A} (p : prog S E A) s : emits G p → ensures (λ _ _, True) p s.
Proof.
  revert s. induction p as [r|B q k IH]; intros s; [done|]. intros [H1 H2] s' _ _. split; [done|].
  split; [intros _; by apply IH|]. intros _ e. split; [|intros _]; by apply IH.
Qed.
End judgement.

(** Callers whose guarantees keep the invariant and are what the others rely on. *)
Theorem callers_sound {A} (Inv : S → Prop) (R G : nat → S → S → Prop) (env : S → S → Prop)
    (Q : nat → S → result E A → Prop) s ps s' ps' :
  (∀ i, Reflexive (R i)) → (∀ i, Transitive (R i)) →
  (∀ i a b, G i a b → Inv a → Inv b ∧ ∀ j, j ≠ i → R j a b) →
  (∀ a b, env a b → Inv a → Inv b ∧ ∀ j, R j a b) →
  Inv s → (∀ i p, ps !! i = Some p → ensures Inv (R i) (G i) (Q i) p s) →
  rtc (callers_step env) (s, ps) (s', ps') →
  Inv s' ∧ ∀ i p, ps' !! i = Some p → ensures Inv (R i) (G i) (Q i) p s'.
Proof.
  intros HRe HTr HG HE HI Hps Hrtc.
  remember (s, ps) as x eqn:Ex. remember (s', ps') as y eqn:Ey. revert s ps Ex HI Hps Ey.
  induction Hrtc as [|x y z Hst _ IH]; intros s ps -> HI Hps Ey; [by injection Ey as <- <-|].
  assert (Hnext : ∀ i p1 s1, Inv s1 → (∀ j, j ≠ i → R j s s1) → ensures Inv (R i) (G i) (Q i) p1 s1 →
    ∀ j p, <[i := p1]> ps !! j = Some p → ensures Inv (R j) (G j) (Q j) p s1).
  { intros i p1 s1 HI1 HR1 Hp1 j p. destruct (decide (i = j)) as [<-|Hne].
    - destruct (decide (i < length ps)%nat).
      + rewrite list_lookup_insert_eq by done. by intros [= <-].
      + rewrite list_insert_ge by lia. intros Hi. apply lookup_lt_Some in Hi. lia.
    - rewrite list_lookup_insert_ne by done. intros Hj. eapply ensures_rely; eauto. }
  inversion Hst as [s0 ps0 i B q k Hi|s0 ps0 i B q k e F Hi|s0 ps0 i B q k e F Hi|s0 ps0 s1 He]; subst; clear Hst.
  - destruct (Hps i _ Hi s (HRe i s) HI) as (H1 & H2 & _). destruct (HG i _ _ H1 HI) as [HI1 HR1].
    apply (IH _ _ eq_refl HI1); [|done]. apply Hnext; [done..|]. by apply H2.
  - destruct (Hps i _ Hi s (HRe i s) HI) as (_ & _ & H3). apply (IH _ _ eq_refl HI); [|done].
    apply Hnext; [done| |by apply H3]. intros j _. apply HRe.
  - destruct (Hps i _ Hi s (HRe i s) HI) as (H1 & _ & H3). destruct (HG i _ _ H1 HI) as [HI1 HR1].
    apply (IH _ _ eq_refl HI1); [|done]. apply Hnext; [done..|]. by apply H3.
  - destruct (HE _ _ He HI) as [HI1 HR1]. apply (IH _ _ eq_refl HI1); [|done].
    intros j p Hj. eapply ensures_rely; [done|apply HR1|by apply Hps].
Qed.
End interleaving.
