(* ===== verification/AlertEligibility.v ===== *)
(** When an expiring asset is due for an alert: packages/alert-eligibility/
    index.js.

    The evaluator is pure.  A date is what the driver or the JSON hands over
    ([when]); the process's time zone is the parameter [LocalTime].  Thresholds
    are whole days before expiry, negative ones days after it.  The theorems
    say which threshold window a day falls into, that the announced next
    evaluation is the next day something changes, and what an import
    suppresses. *)
From S2P Require Import Prelude Dates Net Json.
Open Scope Z_scope.

(** * Dates *)

(** A [DATE] or [TIMESTAMP] column is a [Date] object ([None]: invalid);
    JSON and tests pass texts and epoch milliseconds. *)
Inductive when := Absent | Text (s : string) | Millis (n : jsnum) | DateOf (t : option Z).
(** The offset of local time at a time value, as [getFullYear] and its
    siblings use it. *)
Class LocalTime := { local_offset : Z → Z }.

Definition num_of (t : option Z) : jsnum := match t with Some z => Fin z | None => NaN end.

Section days.
Context {dp : DateParse} {lt : LocalTime}.

(** [value instanceof Date ? value : new Date(value)]. *)
Definition to_date (v : when) : option Z :=
  match v with
  | Absent => None
  | Text s => date_parse s
  | Millis (Fin n) => time_clip n
  | Millis _ => None
  | DateOf t => t
  end.
(** [value === null || value === undefined || value === ""]. *)
Definition no_date (v : when) : bool :=
  match v with Absent | Text EmptyString => true | _ => false end.
(** [/^(\d{4})-(\d{2})-(\d{2})/]. *)
Definition calendar_prefix (s : string) : option (Z * Z * Z) :=
  '(y, s) ← take_digits 4 s; s ← expect "-" s;
  '(m, s) ← take_digits 2 s; s ← expect "-" s;
  '(d, _) ← take_digits 2 s; Some (y, m, d).
Definition day_start (t : Z) : jsnum := num_of (Date_UTC (getUTCFullYear t) (getUTCMonth t) (getUTCDate t)).
Definition calendarDay (v : when) : option jsnum :=
  if no_date v then None else
  match v with
  | Text s =>
      match calendar_prefix s with
      | Some (y, m, d) => Some (num_of (Date_UTC y (m - 1) d))
      | None => (λ t, day_start (t + local_offset t)) <$> to_date v
      end
  | _ => (λ t, day_start (t + local_offset t)) <$> to_date v
  end.
Definition utcDay (v : when) : option jsnum :=
  if no_date v then None else day_start <$> to_date v.
(** [new Date(day).toISOString().slice(0, 10)]; an invalid date has no day. *)
Definition formatUtcDay (v : when) : option string :=
  day ← utcDay v; t ← to_date (Millis day); Some (stake 10 (toISOString t)).
(** [toISOString] throws on an invalid date, which only the last representable
    days can give here. *)
Definition formatCalendarDay (v : when) : result unit (option string) :=
  match calendarDay v with
  | None => Ok None
  | Some day => match to_date (Millis day) with Some t => Ok (Some (stake 10 (toISOString t))) | None => Err tt end
  end.

(** Both days are whole multiples of [DAY_MS]: [Math.round] is exact. *)
Definition computeDaysLeft (expiration referenceDate : when) : option jsnum :=
  match calendarDay expiration, utcDay referenceDate with
  | Some (Fin e), Some (Fin r) => Some (Fin ((e - r) / DAY_MS))
  | Some _, Some _ => Some NaN
  | _, _ => None
  end.
Definition thresholdDateUtc (expiration : when) (threshold : Z) : option jsnum :=
  match calendarDay expiration with
  | Some (Fin e) => Some (Fin (e - threshold * DAY_MS))
  | Some n => Some n
  | None => None
  end.
Definition formatThresholdDate (expiration : when) (threshold : Z) : option string :=
  day ← thresholdDateUtc expiration threshold; formatUtcDay (Millis day).
(** [a > b] of numbers. *)
Definition num_gt (a b : jsnum) : bool :=
  match a, b with
  | Fin x, Fin y => y <? x
  | Fin _, Inf neg => neg
  | Inf neg, Fin _ => negb neg
  | Inf x, Inf y => negb x && y
  | _, _ => false
  end.
Definition isStaleImportThreshold (importedAt expiration : when) (thresholdReached : Z) : bool :=
  match utcDay importedAt, thresholdDateUtc expiration thresholdReached with
  | Some importedDay, Some thresholdDay => num_gt importedDay thresholdDay
  | _, _ => false
  end.
End days.

(** * Threshold windows *)

Definition DEFAULT_ALERT_THRESHOLDS : list Z := [30; 14; 7; 1; 0].
Definition ge (a b : Z) : Prop := b <= a.
#[global] Instance ge_dec a b : Decision (ge a b).
Proof. unfold ge. apply _. Defined.
(** The threshold reached, and whether it is one of the days after expiry. *)
Definition findThresholdWindow (daysUntil : option jsnum) (thresholds : list Z) : option (Z * bool) :=
  match daysUntil, thresholds with
  | None, _ | _, [] => None
  | Some (Fin d), _ =>
      let thresholdsAsc := merge_sort Z.le (dedup thresholds) in
      if d <? 0 then
        threshold ← List.find (λ t, d <=? t) (List.filter (λ t, t <? 0) thresholdsAsc);
        Some (threshold, true)
      else
        threshold ← List.find (λ t, d <=? t) thresholdsAsc;
        Some (threshold, false)
  | Some (Inf true), _ =>
      threshold ← head (List.filter (λ t, t <? 0) (merge_sort Z.le (dedup thresholds)));
      Some (threshold, true)
  | Some _, _ => None
  end.

(** * Contact groups *)

Definition as_list (v : jsval) : list jsval := match v with Arr l => l | _ => [] end.
(** [groups.find((group) => String(group.id) === pickId) || null]; reading
    [id] of a null entry throws. *)
Fixpoint find_group (pickId : string) (groups : list jsval) : result unit jsval :=
  match groups with
  | [] => Ok Null
  | g :: groups =>
      if nullish g then Err tt
      else if bool_decide (js_String (get "id" g) = pickId) then Ok (js_or g Null)
      else find_group pickId groups
  end.
(** A thrown error is caught and gives [null]. *)
Definition resolveContactGroup (contactGroups contactGroupId defaultContactGroupId : jsval) : jsval :=
  let groups := as_list contactGroups in
  let pickId :=
    if truthy contactGroupId && (0 <? slen (trim (js_String contactGroupId))) then Some (js_String contactGroupId)
    else if truthy defaultContactGroupId then Some (js_String defaultContactGroupId) else None in
  match pickId with
  | None => Null
  | Some pickId =>
      match (resolvedGroup ← find_group pickId groups;
             if negb (truthy resolvedGroup) && truthy contactGroupId && truthy defaultContactGroupId
             then find_group (js_String defaultContactGroupId) groups
             else Ok resolvedGroup) with
      | Ok g => g
      | Err _ => Null
      end
  end.

Definition nonempty_array (v : jsval) : bool := match v with Arr (_ :: _) => true | _ => false end.
Definition hasEmailContacts (contactGroup : jsval) : bool :=
  truthy contactGroup && nonempty_array (get "email_contact_ids" contactGroup).
Definition hasWhatsAppContacts (contactGroup : jsval) : bool :=
  truthy contactGroup && nonempty_array (get "whatsapp_contact_ids" contactGroup).
Definition hasWebhookNames (contactGroup : jsval) : bool :=
  truthy contactGroup
  && (truthy (get "webhook_name" contactGroup) || nonempty_array (get "webhook_names" contactGroup)).
Definition getWebhookNames (contactGroup : jsval) : list string :=
  if negb (truthy contactGroup) then [] else
  match get "webhook_names" contactGroup with
  | Arr l => map (λ name, trim (js_String name)) (List.filter truthy l)
  | _ => if truthy (get "webhook_name" contactGroup)
         then [trim (js_String (get "webhook_name" contactGroup))] else []
  end.

(** * Retired certificates and alert keys *)

Definition RETIRED_CERT_LIFECYCLE_STATUSES : list string := ["revoked"; "decommissioned"].
Definition TOKEN_EXPIRY_ALERT_PREFIX : string := "token_expiry:".
Definition CERT_RENEWAL_FAILED_ALERT_PREFIX : string := "cert_renewal_failed:".
Definition isRetiredCertLifecycleStatus (status : jsval) : bool :=
  bool_decide (toLowerCase (trim (js_String (js_or status (Str EmptyString)))) ∈ RETIRED_CERT_LIFECYCLE_STATUSES).
Definition shouldSkipRetiredCertificateAlert : jsval → bool := isRetiredCertLifecycleStatus.
Definition isTokenExpiryAlertKey (alertKey : string) : bool := startsWith TOKEN_EXPIRY_ALERT_PREFIX alertKey.
Definition isRenewalFailureAlertKey (alertKey : string) : bool :=
  startsWith CERT_RENEWAL_FAILED_ALERT_PREFIX alertKey.
Definition isRetiredCertificateSuppressedAlertKey (alertKey : string) : bool :=
  isTokenExpiryAlertKey alertKey || isRenewalFailureAlertKey alertKey.
Definition parseCertRenewalFailedJobId (alertKey : string) : option string :=
  if negb (startsWith CERT_RENEWAL_FAILED_ALERT_PREFIX alertKey) then None else
  let jobId := trim (sdrop (String.length CERT_RENEWAL_FAILED_ALERT_PREFIX) alertKey) in
  if bool_decide (jobId = EmptyString) then None else Some jobId.
Definition shouldDiscardRetiredCertificateAlert (alertKey : string) (tokenLifecycleStatus jobCertificateStatus : jsval)
  : bool :=
  if isTokenExpiryAlertKey alertKey then isRetiredCertLifecycleStatus tokenLifecycleStatus
  else if isRenewalFailureAlertKey alertKey then isRetiredCertLifecycleStatus jobCertificateStatus
  else false.

(** * Thresholds and channels of an asset *)

(** The elements that are finite numbers. *)
Definition finite_numbers (l : list jsval) : list Z :=
  omap (λ v, match v with Num (Fin n) => Some n | _ => None end) l.
(** [Number(v)] where it is a finite number (an integer: texts with a decimal
    point are not in the model). *)
Definition Number_finite (v : jsval) : option Z :=
  match v with
  | Num (Fin n) => Some n
  | Str s => Number_int s
  | Null => Some 0
  | Bool b => Some (if b then 1 else 0)
  | Arr _ => Number_int (js_String v)
  | _ => None
  end.
Definition in_threshold_range (n : Z) : bool := (-365 <=? n) && (n <=? 730).

(** The columns the evaluator reads. *)
Record asset := mkAsset {
  expiration : when; imported_at : when; contact_groups : jsval; contact_group_id : jsval;
  default_contact_group_id : jsval; alert_thresholds : jsval; webhook_urls : jsval;
  ws_email_alerts_enabled : jsval; cert_lifecycle_status : jsval }.

Definition resolveEffectiveThresholds (a : asset) (resolvedGroup : jsval) (defaultThresholds : list Z) : list Z :=
  let thresholds := match alert_thresholds a with Arr l => finite_numbers l | _ => defaultThresholds end in
  let override := List.filter in_threshold_range (omap Number_finite (as_list (get "thresholds" resolvedGroup))) in
  let thresholds := match override with [] => thresholds | _ => override end in
  merge_sort ge (dedup thresholds).

(** [webhooks.some(...)]: a null webhook throws, and the catch clause then
    assumes there is one. *)
Fixpoint some_webhook (names : list string) (webhooks : list jsval) : bool :=
  match webhooks with
  | [] => false
  | w :: webhooks =>
      nullish w || bool_decide (trim (js_String (js_or (get "name" w) (Str EmptyString))) ∈ names)
      || some_webhook names webhooks
  end.
Definition resolveEligibleChannels (a : asset) (resolvedGroup : jsval) : list string :=
  (if negb (match ws_email_alerts_enabled a with Bool false => true | _ => false end)
      && hasEmailContacts resolvedGroup then ["email"%string] else [])
  ++ (if hasWebhookNames resolvedGroup
         && some_webhook (getWebhookNames resolvedGroup) (as_list (webhook_urls a)) then ["webhooks"%string] else [])
  ++ (if hasWhatsAppContacts resolvedGroup then ["whatsapp"%string] else []).

(** * The evaluation *)

Inductive status := outside_threshold | due | suppressed.
Inductive reason :=
| threshold_not_reached | threshold_reached | retired_certificate | invalid_expiration
| post_expiry_threshold_not_configured | stale_import_threshold | no_eligible_channels.
Inductive threshold_kind := post_expiry | expiry_day | pre_expiry.
#[global] Instance status_eq_dec : EqDecision status.
Proof. solve_decision. Defined.
#[global] Instance reason_eq_dec : EqDecision reason.
Proof. solve_decision. Defined.

Definition thresholdKind (threshold : Z) : threshold_kind :=
  if threshold <? 0 then post_expiry else if threshold =? 0 then expiry_day else pre_expiry.

(** Of its [metadata], what is not a column of the asset. *)
Record eligibility := mkEligibility {
  el_status : status; el_reason : reason; days_until_expiry : option jsnum;
  effective_threshold : option Z; effective_thresholds : list Z;
  threshold_type : option threshold_kind; threshold_date : option string;
  next_evaluation_at : option string; next_threshold : option Z;
  eligible_channels : list string; el_group_id : jsval; el_group_name : jsval;
  expiration_date : option string; expired_at_import : bool; imported_after_threshold : bool }.

Section evaluation.
Context {dp : DateParse} {lt : LocalTime}.

(** The earliest threshold day after the reference day. *)
Definition day_le (p q : Z * Z) : Prop := p.2 <= q.2.
#[global] Instance day_le_dec p q : Decision (day_le p q).
Proof. unfold day_le. apply _. Defined.
Definition findNextThreshold (a : asset) (thresholds : list Z) (referenceDate : when)
  : option (Z * option string) :=
  match utcDay referenceDate with
  | None => None
  | Some referenceDay =>
      let candidates := omap (λ threshold,
        match thresholdDateUtc (expiration a) threshold with
        | Some (Fin day) => if num_gt (Fin day) referenceDay then Some (threshold, day) else None
        | _ => None
        end) thresholds in
      c ← head (merge_sort day_le candidates); Some (c.1, formatUtcDay (Millis (Fin c.2)))
  end.

Definition evaluateAlertEligibility (a : asset) (defaultThresholds : list Z) (referenceDate : when)
  : result unit eligibility :=
  let daysUntilExpiry := computeDaysLeft (expiration a) referenceDate in
  let resolvedGroup := resolveContactGroup (contact_groups a) (contact_group_id a) (default_contact_group_id a) in
  let effectiveThresholds := resolveEffectiveThresholds a resolvedGroup defaultThresholds in
  let eligibleChannels := resolveEligibleChannels a resolvedGroup in
  let expiredAtImport := match utcDay (imported_at a), calendarDay (expiration a) with
                         | Some importedDay, Some expirationDay => num_gt importedDay expirationDay
                         | _, _ => false
                         end in
  expirationDate ← formatCalendarDay (expiration a);
  let answer st why threshold type date next stale :=
    Ok (mkEligibility st why daysUntilExpiry threshold effectiveThresholds type date
      (next ≫= snd) (fst <$> next) eligibleChannels
      (js_or (get "id" resolvedGroup) Null) (js_or (get "name" resolvedGroup) Null)
      expirationDate expiredAtImport stale) in
  let base st why next := answer st why None None None next false in
  if shouldSkipRetiredCertificateAlert (cert_lifecycle_status a) then base suppressed retired_certificate None else
  match daysUntilExpiry with
  | None => base outside_threshold invalid_expiration None
  | Some days =>
      match findThresholdWindow (Some days) effectiveThresholds with
      | None =>
          let hasPostExpiryThreshold := existsb (λ t, t <? 0) effectiveThresholds in
          base outside_threshold
            (if num_gt (Fin 0) days && negb hasPostExpiryThreshold
             then post_expiry_threshold_not_configured else threshold_not_reached)
            (findNextThreshold a effectiveThresholds referenceDate)
      | Some (thresholdReached, negativeWindow) =>
          let reached st why next :=
            answer st why (Some thresholdReached) (Some (thresholdKind thresholdReached))
              (formatThresholdDate (expiration a) thresholdReached) next in
          if isStaleImportThreshold (imported_at a) (expiration a) thresholdReached
          then reached suppressed stale_import_threshold
                 (findNextThreshold a effectiveThresholds referenceDate) true
          else match eligibleChannels with
               | [] => reached suppressed no_eligible_channels None false
               | _ => reached due threshold_reached None false
               end
      end
  end.
End evaluation.

(** * Windows *)

Section windows.
Implicit Types (ts : list Z).

Lemma find_least (p : Z → bool) l t : StronglySorted Z.le l →
  List.find p l = Some t ↔ t ∈ l ∧ p t = true ∧ ∀ t', t' ∈ l → p t' = true → t <= t'.
Proof.
  intros Hs. induction Hs as [|x l Hs IH Hx]; cbn [List.find].
  { split; [done|]. intros (Ht & _). by apply elem_of_nil in Ht. }
  destruct (p x) eqn:E.
  - split.
    + intros [= <-]. split; [by left|]. split; [done|]. intros t' Ht' _. apply elem_of_cons in Ht' as [->|Ht']; [lia|].
      rewrite Forall_forall in Hx. by apply Hx.
    + intros (Ht & Hp & Hmin). apply elem_of_cons in Ht as [->|Ht]; [done|]. f_equal.
      specialize (Hmin x (list_elem_of_here _ _) E). rewrite Forall_forall in Hx. specialize (Hx t Ht). lia.
  - rewrite IH. split.
    + intros (Ht & Hp & Hmin). split; [by right|]. split; [done|]. intros t' Ht' Hp'. apply elem_of_cons in Ht' as [->|Ht']; [congruence|auto].
    + intros (Ht & Hp & Hmin). apply elem_of_cons in Ht as [->|Ht]; [congruence|].
      split; [done|]. split; [done|]. intros t' Ht' Hp'. apply Hmin; [by right|done].
Qed.
Lemma asc_sorted ts : StronglySorted Z.le (merge_sort Z.le (dedup ts)).
Proof. apply (StronglySorted_merge_sort Z.le). Qed.
Lemma asc_elem ts t : t ∈ merge_sort Z.le (dedup ts) ↔ t ∈ ts.
Proof. rewrite (merge_sort_Permutation Z.le). apply dedup_elem. Qed.
Lemma sorted_filter (p : Z → bool) l : StronglySorted Z.le l → StronglySorted Z.le (List.filter p l).
Proof.
  induction 1 as [|x l Hs IH Hx]; cbn; [constructor|]. destruct (p x); [|done]. constructor; [done|].
  rewrite Forall_forall in *. intros y Hy%list_elem_of_In. apply filter_In in Hy as [Hy _]. apply Hx.
  by apply list_elem_of_In.
Qed.

(** Which threshold's window [d] days before expiry is: the least one not yet
    behind, among those after expiry once the asset has expired. *)
Definition reached (ts : list Z) (d t : Z) : Prop := t ∈ ts ∧ d <= t ∧ (d < 0 → t < 0).
Lemma window_iff ts d t neg :
  findThresholdWindow (Some (Fin d)) ts = Some (t, neg) ↔
  neg = (d <? 0) ∧ reached ts d t ∧ ∀ t', reached ts d t' → t <= t'.
Proof.
  unfold findThresholdWindow, reached. destruct ts as [|t0 ts0].
  { split; [done|]. intros (_ & (Ht & _) & _). by apply elem_of_nil in Ht. }
  set (ts := t0 :: ts0). cbv zeta. destruct (d <? 0) eqn:E; split_bool.
  - transitivity (neg = true ∧ List.find (λ t, d <=? t) (List.filter (λ t, t <? 0) (merge_sort Z.le (dedup ts))) = Some t).
    { destruct (List.find _ _); cbn; naive_solver. }
    rewrite find_least by apply sorted_filter, asc_sorted.
    assert (Hf : ∀ x, x ∈ List.filter (λ t, t <? 0) (merge_sort Z.le (dedup ts)) ↔ x ∈ ts ∧ x < 0).
    { intros x. rewrite list_elem_of_In, filter_In, <- list_elem_of_In, asc_elem. by rewrite Z.ltb_lt. }
    rewrite Hf. setoid_rewrite Hf. setoid_rewrite Z.leb_le. naive_solver.
  - transitivity (neg = false ∧ List.find (λ t, d <=? t) (merge_sort Z.le (dedup ts)) = Some t).
    { destruct (List.find _ _); cbn; naive_solver. }
    rewrite find_least by apply asc_sorted. setoid_rewrite asc_elem. setoid_rewrite Z.leb_le.
    split.
    + intros (-> & Ht & Hd & Hmin). split; [done|]. split; [by split_and!; [..|lia]|]. intros t' (? & ? & _). auto.
    + intros (-> & (Ht & Hd & _) & Hmin). do 3 (split; [done|]). intros t' Ht' Hd'. apply Hmin. by split_and!; [..|lia].
Qed.
Lemma find_no (p : Z → bool) l : List.find p l = None ↔ ∀ t, t ∈ l → p t = false.
Proof.
  split; [intros H t Ht; eapply find_none; [done|by apply list_elem_of_In]|]. intros H.
  destruct (List.find p l) as [t|] eqn:E; [|done]. apply find_some in E as [Hin Hp].
  rewrite H in Hp by (by apply list_elem_of_In). done.
Qed.
Lemma window_none ts d : findThresholdWindow (Some (Fin d)) ts = None ↔ ∀ t, ¬ reached ts d t.
Proof.
  unfold findThresholdWindow, reached. destruct ts as [|t0 ts0].
  { split; [|done]. intros _ t (Ht & _). by apply elem_of_nil in Ht. }
  set (ts := t0 :: ts0). cbv zeta. destruct (d <? 0) eqn:E; split_bool.
  - transitivity (List.find (λ t, d <=? t) (List.filter (λ t, t <? 0) (merge_sort Z.le (dedup ts))) = None).
    { by destruct (List.find _ _). }
    rewrite find_no. setoid_rewrite list_elem_of_In. setoid_rewrite filter_In. setoid_rewrite <- list_elem_of_In.
    setoid_rewrite asc_elem. setoid_rewrite Z.ltb_lt. setoid_rewrite Z.leb_gt. split.
    + intros H t (Ht & Hd & Hn). specialize (H t (conj Ht (Hn E))). lia.
    + intros H t [Ht Hn]. destruct (Z.lt_ge_cases t d) as [|Hd]; [done|]. by destruct (H t).
  - transitivity (List.find (λ t, d <=? t) (merge_sort Z.le (dedup ts)) = None).
    { by destruct (List.find _ _). }
    rewrite find_no. setoid_rewrite asc_elem. setoid_rewrite Z.leb_gt. split.
    + intros H t (Ht & Hd & _). specialize (H t Ht). lia.
    + intros H t Ht. destruct (Z.lt_ge_cases t d) as [|Hd]; [done|]. destruct (H t). by split_and!; [..|lia].
Qed.
End windows.

(** * Days *)

Section day_numbers.
Context {dp : DateParse} {lt : LocalTime}.

Lemma Date_UTC_mult y m d e : num_of (Date_UTC y m d) = Fin e → (DAY_MS | e).
Proof.
  unfold Date_UTC, time_clip. cbv zeta. destruct (valid_time _); [|done]. cbn. intros [= <-].
  apply Z.divide_factor_r.
Qed.
Lemma day_start_mult t e : Fin e = day_start t → (DAY_MS | e).
Proof.
  unfold day_start. generalize (getUTCFullYear t), (getUTCMonth t), (getUTCDate t). intros y m d H.
  by apply (Date_UTC_mult y m d).
Qed.
Lemma day_start_finite t neg : Inf neg ≠ day_start t.
Proof.
  unfold day_start. generalize (getUTCFullYear t), (getUTCMonth t), (getUTCDate t). intros y m d.
  by destruct (Date_UTC y m d).
Qed.
Lemma calendarDay_mult v e : calendarDay v = Some (Fin e) → (DAY_MS | e).
Proof.
  unfold calendarDay. destruct (no_date v); [done|].
  assert (Hd : ∀ o, (λ t, day_start (t + local_offset t)) <$> o = Some (Fin e) → (DAY_MS | e)).
  { intros o (t & _ & H)%fmap_Some. exact (day_start_mult _ _ H). }
  destruct v as [|s|n|t]; [by apply Hd| |by apply Hd..].
  destruct (calendar_prefix s) as [[[y m] d]|]; [|by apply Hd].
  intros H. apply (inj Some) in H. exact (Date_UTC_mult _ _ _ _ H).
Qed.
Lemma utcDay_mult v r : utcDay v = Some (Fin r) → (DAY_MS | r).
Proof.
  unfold utcDay. destruct (no_date v); [done|]. intros (t & _ & H)%fmap_Some. exact (day_start_mult _ _ H).
Qed.
Lemma format_ok v o : formatCalendarDay v = Ok o → calendarDay v = None ∨ ∃ e, calendarDay v = Some (Fin e).
Proof.
  unfold formatCalendarDay. destruct (calendarDay v) as [[e| |]|]; cbn; try done; [right; by eexists|by left].
Qed.
Lemma days_left exp ref e r : calendarDay exp = Some (Fin e) → utcDay ref = Some (Fin r) →
  computeDaysLeft exp ref = Some (Fin ((e - r) / DAY_MS)).
Proof. unfold computeDaysLeft. by intros -> ->. Qed.
(** A threshold lies before the days left exactly when its date is after the
    reference day. *)
Lemma threshold_after exp ref e r t : calendarDay exp = Some (Fin e) → utcDay ref = Some (Fin r) →
  r < e - t * DAY_MS ↔ t < (e - r) / DAY_MS.
Proof.
  intros [a ->]%calendarDay_mult [b ->]%utcDay_mult.
  replace (a * DAY_MS - b * DAY_MS) with ((a - b) * DAY_MS) by lia. rewrite Z.div_mul by done.
  unfold DAY_MS. lia.
Qed.
Lemma threshold_on exp ref e r t : calendarDay exp = Some (Fin e) → utcDay ref = Some (Fin r) →
  r = e - t * DAY_MS ↔ t = (e - r) / DAY_MS.
Proof.
  intros [a ->]%calendarDay_mult [b ->]%utcDay_mult.
  replace (a * DAY_MS - b * DAY_MS) with ((a - b) * DAY_MS) by lia. rewrite Z.div_mul by done.
  unfold DAY_MS. lia.
Qed.

#[local] Instance day_le_trans : Transitive day_le.
Proof. intros p q x. unfold day_le. lia. Qed.
#[local] Instance day_le_total : Total day_le.
Proof. intros p q. unfold day_le. lia. Qed.
Lemma head_earliest l : match head (merge_sort day_le l) with
  | Some c => c ∈ l ∧ ∀ c', c' ∈ l → c.2 <= c'.2
  | None => l = []
  end.
Proof.
  pose proof (merge_sort_Permutation day_le l) as Hp. pose proof (StronglySorted_merge_sort day_le l) as Hs.
  destruct (merge_sort day_le l) as [|c cs] eqn:E; cbn; [by apply Permutation_nil|].
  split; [rewrite <- Hp; by left|]. intros c' Hc'. rewrite <- Hp in Hc'.
  apply elem_of_cons in Hc' as [->|Hc']; [done|]. inversion Hs as [|? ? _ Hf]; subst.
  rewrite Forall_forall in Hf. by apply Hf.
Qed.
(** The next threshold is the greatest one whose day is still to come. *)
Lemma next_spec a ts ref e r : calendarDay (expiration a) = Some (Fin e) → utcDay ref = Some (Fin r) →
  match findNextThreshold a ts ref with
  | Some (t, day) =>
      t ∈ ts ∧ t < (e - r) / DAY_MS ∧ (∀ t', t' ∈ ts → t' < (e - r) / DAY_MS → t' <= t) ∧
      day = formatThresholdDate (expiration a) t
  | None => ∀ t', t' ∈ ts → (e - r) / DAY_MS <= t'
  end.
Proof.
  intros He Hr. unfold findNextThreshold, formatThresholdDate, thresholdDateUtc. rewrite Hr, He.
  set (cs := omap _ ts).
  assert (Hcs : ∀ t day, (t, day) ∈ cs ↔ t ∈ ts ∧ day = e - t * DAY_MS ∧ t < (e - r) / DAY_MS).
  { intros t day. unfold cs. rewrite list_elem_of_omap. setoid_rewrite <- (threshold_after _ _ _ _ _ He Hr).
    cbn [num_gt]. split.
    - intros (x & Hx & H). destruct (r <? e - x * DAY_MS) eqn:E; [|done]. injection H as <- <-. apply Z.ltb_lt in E. by split_and!.
    - intros (Ht & -> & Hlt). exists t. split; [done|]. apply Z.ltb_lt in Hlt. by rewrite Hlt. }
  pose proof (head_earliest cs) as Hh. destruct (head _) as [[t day]|]; cbn.
  - destruct Hh as [(Ht & -> & Hlt)%Hcs Hmin]. do 2 (split; [done|]). split; [|done]. intros t' Ht' Hlt'.
    specialize (Hmin (t', e - t' * DAY_MS) (proj2 (Hcs _ _) (conj Ht' (conj eq_refl Hlt')))). cbn in Hmin.
    unfold DAY_MS in *. lia.
  - intros t' Ht'. destruct (Z.lt_ge_cases t' ((e - r) / DAY_MS)) as [Hlt|]; [|done].
    assert ((t', e - t' * DAY_MS) ∈ cs) as Hin by (by apply Hcs). rewrite Hh in Hin. by apply elem_of_nil in Hin.
Qed.
End day_numbers.

(** * What an evaluation says *)

Section evaluations.
Context {dp : DateParse} {lt : LocalTime}.
Implicit Types (a : asset) (ts : list Z) (ref : when) (el : eligibility).

(** The thresholds in force for the asset. *)
Definition thresholds_of a ts : list Z :=
  resolveEffectiveThresholds a
    (resolveContactGroup (contact_groups a) (contact_group_id a) (default_contact_group_id a)) ts.
(** The reference day, the day of expiry and the window they select. *)
Definition window_at a ts ref (e r : Z) (t : Z) : Prop :=
  calendarDay (expiration a) = Some (Fin e) ∧ utcDay ref = Some (Fin r) ∧
  reached (thresholds_of a ts) ((e - r) / DAY_MS) t ∧
  ∀ t', reached (thresholds_of a ts) ((e - r) / DAY_MS) t' → t <= t'.

Lemma window_some a ts ref n t neg :
  computeDaysLeft (expiration a) ref = Some n → findThresholdWindow (Some n) (thresholds_of a ts) = Some (t, neg) →
  ∃ e r, window_at a ts ref e r t.
Proof.
  unfold computeDaysLeft, window_at. destruct (calendarDay _) as [[e| |]|], (utcDay ref) as [[r| |]|]; try done;
    intros [= <-]; try (intros H; by destruct (thresholds_of a ts)).
  intros (_ & H1 & H2)%window_iff. by exists e, r.
Qed.
(** The reached branch of the evaluation. *)
Lemma evaluate_reached a ts ref el t : evaluateAlertEligibility a ts ref = Ok el → effective_threshold el = Some t →
  isRetiredCertLifecycleStatus (cert_lifecycle_status a) = false ∧ (∃ e r, window_at a ts ref e r t) ∧
  el_status el = (if isStaleImportThreshold (imported_at a) (expiration a) t then suppressed
                  else match eligible_channels el with [] => suppressed | _ => due end).
Proof.
  unfold evaluateAlertEligibility. fold (thresholds_of a ts). destruct (formatCalendarDay _) as [day|]; [|done].
  cbn [mbind result_bind]. unfold shouldSkipRetiredCertificateAlert.
  destruct (isRetiredCertLifecycleStatus _); [by intros [= <-]|].
  destruct (computeDaysLeft _ _) as [n|] eqn:En; [|by intros [= <-]].
  destruct (findThresholdWindow _ _) as [[t' neg]|] eqn:Ew; [|by intros [= <-]].
  pose proof (window_some _ _ _ _ _ _ En Ew) as Hw.
  destruct (isStaleImportThreshold _ _ t') eqn:Es.
  - intros [= <-]. cbn. intros [= <-]. by rewrite Es.
  - destruct (resolveEligibleChannels _ _) eqn:Ec; intros [= <-]; cbn; intros [= <-]; by rewrite Es.
Qed.
(** The other branch. *)
Lemma evaluate_outside a ts ref el e r : evaluateAlertEligibility a ts ref = Ok el →
  calendarDay (expiration a) = Some (Fin e) → utcDay ref = Some (Fin r) →
  isRetiredCertLifecycleStatus (cert_lifecycle_status a) = false →
  match effective_threshold el with
  | Some t => window_at a ts ref e r t ∧ el_status el ≠ outside_threshold
  | None => (∀ t, ¬ reached (thresholds_of a ts) ((e - r) / DAY_MS) t) ∧ el_status el = outside_threshold ∧
      next_threshold el = fst <$> findNextThreshold a (thresholds_of a ts) ref ∧
      next_evaluation_at el = findNextThreshold a (thresholds_of a ts) ref ≫= snd
  end.
Proof.
  unfold evaluateAlertEligibility. fold (thresholds_of a ts). destruct (formatCalendarDay _) as [day|]; [|done].
  cbn [mbind result_bind]. unfold shouldSkipRetiredCertificateAlert. intros H He Hr Hret. rewrite Hret in H.
  rewrite (days_left _ _ _ _ He Hr) in H.
  destruct (findThresholdWindow _ _) as [[t' neg]|] eqn:Ew.
  - assert (Hw : window_at a ts ref e r t') by (apply window_iff in Ew as (_ & ? & ?); by unfold window_at).
    destruct (isStaleImportThreshold _ _ t'); [by injection H as <-|].
    destruct (resolveEligibleChannels _ _); by injection H as <-.
  - rewrite window_none in Ew. by injection H as <-.
Qed.
Lemma evaluate_retired a ts ref el : evaluateAlertEligibility a ts ref = Ok el →
  isRetiredCertLifecycleStatus (cert_lifecycle_status a) = true → el_status el = suppressed.
Proof.
  unfold evaluateAlertEligibility. destruct (formatCalendarDay _) as [day|]; [|done].
  cbn [mbind result_bind]. unfold shouldSkipRetiredCertificateAlert. intros H E. rewrite E in H. by injection H as <-.
Qed.

Lemma evaluate_due_threshold a ts ref el : evaluateAlertEligibility a ts ref = Ok el → el_status el = due →
  effective_threshold el ≠ None.
Proof.
  unfold evaluateAlertEligibility. destruct (formatCalendarDay _) as [day|]; [|done]. cbn [mbind result_bind].
  destruct (shouldSkipRetiredCertificateAlert _); [by intros [= <-]|].
  destruct (computeDaysLeft _ _) as [n|]; [|by intros [= <-]].
  destruct (findThresholdWindow _ _) as [[t' neg]|]; [|by intros [= <-]].
  destruct (isStaleImportThreshold _ _ t'); [by intros [= <-]|].
  destruct (resolveEligibleChannels _ _); by intros [= <-].
Qed.
Lemma stale_iff a e t : calendarDay (expiration a) = Some (Fin e) →
  isStaleImportThreshold (imported_at a) (expiration a) t = false ↔
  ∀ i, utcDay (imported_at a) = Some (Fin i) → i <= e - t * DAY_MS.
Proof.
  intros He. unfold isStaleImportThreshold, thresholdDateUtc. rewrite He.
  destruct (utcDay (imported_at a)) as [[i| |neg]|] eqn:E; cbn; [|naive_solver| |naive_solver].
  - rewrite Z.ltb_ge. naive_solver.
  - exfalso. revert E. unfold utcDay. destruct (no_date _); [done|]. intros (t0 & _ & H)%fmap_Some.
    by apply day_start_finite in H.
Qed.

Lemma evaluate_undated a ts ref el : evaluateAlertEligibility a ts ref = Ok el →
  isRetiredCertLifecycleStatus (cert_lifecycle_status a) = false → calendarDay (expiration a) = None →
  el_status el = outside_threshold ∧ next_threshold el = None ∧ next_evaluation_at el = None.
Proof.
  unfold evaluateAlertEligibility, computeDaysLeft, formatCalendarDay. intros H Hr He. rewrite He in H.
  cbn [mbind result_bind] in H. unfold shouldSkipRetiredCertificateAlert in H. rewrite Hr in H. by injection H as <-.
Qed.
Lemma evaluate_formats a ts ref el : evaluateAlertEligibility a ts ref = Ok el →
  ∃ day, formatCalendarDay (expiration a) = Ok day.
Proof. unfold evaluateAlertEligibility. destruct (formatCalendarDay _) as [day|]; [by exists day|done]. Qed.

(** Between the days left now and the next threshold below them nothing is
    reached; there, that threshold is. *)
Lemma reached_later ts d d' : (∀ t, ¬ reached ts d t) → d' <= d →
  (∀ t, t ∈ ts → t < d → t < d') → ∀ t, ¬ reached ts d' t.
Proof.
  intros Hn Hle Hb t (Ht & Hd & Hneg). destruct (Z.lt_ge_cases t d) as [Hlt|Hge].
  - specialize (Hb t Ht Hlt). lia.
  - apply (Hn t). split; [done|]. split; [done|]. intros. apply Hneg. lia.
Qed.
Lemma reached_there ts d t : (∀ t, ¬ reached ts d t) → t ∈ ts → t < d →
  reached ts t t ∧ ∀ t', reached ts t t' → t <= t'.
Proof. intros Hn Ht Hlt. split; [by split_and!; [done|lia|lia]|]. intros t' (_ & H & _). lia. Qed.
End evaluations.

(** A concrete asset, in a process whose time zone is UTC. *)
Definition utc : LocalTime := {| local_offset _ := 0 |}.
Definition ex_asset : asset :=
  mkAsset (Text "2026-09-20") (Text "2026-09-10")
    (Arr [Obj [("id", Str "ops"); ("email_contact_ids", Arr [Str "c1"])]]) Null (Str "ops")
    (Arr [Num (Fin 7); Num (Fin 0); Num (Fin (-2))]) (Arr []) (Bool true) Null.
Definition ex_evaluate (day : string) : result unit eligibility :=
  @evaluateAlertEligibility iso_date_parse utc ex_asset DEFAULT_ALERT_THRESHOLDS (Text day).
Definition ex_el (day : string) : eligibility :=
  match ex_evaluate day with
  | Ok el => el
  | Err _ => mkEligibility suppressed no_eligible_channels None None [] None None None None [] Null Null None false false
  end.

(** An asset is due for an alert exactly when its certificate is not
    retired, a channel can carry the alert, and the day falls into the window
    of a configured threshold — the least one that is not behind, of those
    after expiry once it has expired — whose date is not before the day the
    asset was imported. *)
Theorem due_iff {dp : DateParse} {lt : LocalTime} (a : asset) (ts : list Z) (ref : when) (el : eligibility) :
  evaluateAlertEligibility a ts ref = Ok el →
  el_status el = due ↔
  isRetiredCertLifecycleStatus (cert_lifecycle_status a) = false ∧ eligible_channels el ≠ [] ∧
  ∃ e r t, window_at a ts ref e r t ∧ effective_threshold el = Some t ∧
    ∀ i, utcDay (imported_at a) = Some (Fin i) → i <= e - t * DAY_MS.
Proof.
  intros H. split.
  - intros Hd. destruct (effective_threshold el) as [t|] eqn:Et.
    + destruct (evaluate_reached a ts ref el t H Et) as (Hr & (e & r & Hw) & Hst). rewrite Hd in Hst.
      destruct (isStaleImportThreshold _ _ _) eqn:Es; [done|]. split; [done|].
      split; [by destruct (eligible_channels el)|]. exists e, r, t. split; [done|]. split; [done|].
      apply stale_iff; [apply Hw|done].
    + exfalso. revert H Hd Et. apply evaluate_due_threshold.
  - intros (Hr & Hc & e & r & t & Hw & Et & Hi).
    destruct (evaluate_reached a ts ref el t H Et) as (_ & _ & ->).
    rewrite (proj2 (stale_iff a e t (proj1 Hw)) Hi). by destruct (eligible_channels el).
Qed.

Lemma due_iff_witness : el_status (ex_el "2026-09-13") = due ∧ effective_threshold (ex_el "2026-09-13") = Some 7.
Proof.
  split; [|vm_compute; reflexivity].
  apply (@due_iff iso_date_parse utc ex_asset DEFAULT_ALERT_THRESHOLDS (Text "2026-09-13")); [vm_compute; reflexivity|].
  split; [vm_compute; reflexivity|]. split; [by vm_compute|].
  exists 1789862400000, 1789257600000, 7. split; [|split; [vm_compute; reflexivity|]].
  - split; [vm_compute; reflexivity|]. split; [vm_compute; reflexivity|].
    replace ((1789862400000 - 1789257600000) / DAY_MS) with 7 by (vm_compute; reflexivity).
    replace (@thresholds_of ex_asset DEFAULT_ALERT_THRESHOLDS) with [7; 0; -2] by (vm_compute; reflexivity).
    split; [split_and!; [by left|lia|lia]|]. intros t' (_ & H & _). exact H.
  - assert (@utcDay iso_date_parse (imported_at ex_asset) = Some (Fin 1788998400000)) as -> by (vm_compute; reflexivity).
    intros i [= <-]. vm_compute. discriminate.
Defined.

(** C24: the announced next evaluation is the next day anything changes.  When
    an asset is outside its thresholds, it stays outside on every later day
    before the announced one, whose date is that of the announced threshold;
    on that day it is in this threshold's window; and when nothing is
    announced it stays outside for good. *)
Theorem next_evaluation_exact {dp : DateParse} {lt : LocalTime} (a : asset) (ts : list Z) (ref ref' : when)
    (el el' : eligibility) (r r' : Z) :
  evaluateAlertEligibility a ts ref = Ok el → el_status el = outside_threshold →
  evaluateAlertEligibility a ts ref' = Ok el' → utcDay ref = Some (Fin r) → utcDay ref' = Some (Fin r') → r <= r' →
  match next_threshold el with
  | Some t => ∃ day, thresholdDateUtc (expiration a) t = Some (Fin day) ∧ r < day ∧
      next_evaluation_at el = formatThresholdDate (expiration a) t ∧
      (r' < day → el_status el' = outside_threshold) ∧ (r' = day → effective_threshold el' = Some t)
  | None => el_status el' = outside_threshold
  end.
Proof.
  intros H Hout H' Hr Hr' Hle. destruct (isRetiredCertLifecycleStatus (cert_lifecycle_status a)) eqn:Eret.
  { apply (evaluate_retired a ts ref) in H; [congruence|done]. }
  destruct (evaluate_formats _ _ _ _ H) as [day Hf]. destruct (format_ok _ _ Hf) as [He|[e He]].
  { destruct (evaluate_undated a ts ref el H Eret He) as (_ & -> & _). by apply (evaluate_undated a ts ref' el' H'). }
  pose proof (evaluate_outside a ts ref el e r H He Hr Eret) as Ho.
  pose proof (evaluate_outside a ts ref' el' e r' H' He Hr' Eret) as Ho'.
  destruct (effective_threshold el); [by destruct Ho|]. destruct Ho as (Hn & _ & -> & ->).
  pose proof (next_spec a (thresholds_of a ts) ref e r He Hr) as Hnext.
  assert (Hd : (e - r') / DAY_MS <= (e - r) / DAY_MS) by (apply Z.div_le_mono; unfold DAY_MS; lia).
  assert (Hquiet : (∀ t, t ∈ thresholds_of a ts → t < (e - r) / DAY_MS → t < (e - r') / DAY_MS) →
    el_status el' = outside_threshold).
  { intros Hb. pose proof (reached_later _ _ _ Hn Hd Hb) as Hn'. destruct (effective_threshold el') as [t'|]; [|by apply Ho'].
    by destruct (Hn' t' (proj1 (proj2 (proj2 (proj1 Ho'))))). }
  destruct (findNextThreshold a (thresholds_of a ts) ref) as [[t at_]|]; cbn.
  - destruct Hnext as (Ht & Hlt & Hmax & ->). exists (e - t * DAY_MS). unfold thresholdDateUtc. rewrite He.
    split; [done|]. split; [by apply (threshold_after _ _ _ _ _ He Hr)|]. split; [done|]. split.
    + intros Hb. apply Hquiet. intros t' Ht' Hlt'. specialize (Hmax t' Ht' Hlt').
      apply (threshold_after _ _ _ _ t He Hr') in Hb. lia.
    + intros Hb. apply (threshold_on _ _ _ _ t He Hr') in Hb. destruct (reached_there _ _ t Hn Ht Hlt) as [Hre Hmin].
      destruct (effective_threshold el') as [t'|].
      * destruct Ho' as [(_ & _ & Hre' & Hmin') _]. rewrite <- Hb in Hre', Hmin'. f_equal.
        specialize (Hmin t' Hre'). specialize (Hmin' t Hre). lia.
      * destruct Ho' as [Hno _]. rewrite <- Hb in Hno. by destruct (Hno t).
  - apply Hquiet. intros t Ht Hlt. specialize (Hnext t Ht). lia.
Qed.
Lemma next_evaluation_exact_witness :
  next_threshold (ex_el "2026-09-11") = Some 7 ∧ next_evaluation_at (ex_el "2026-09-11") = Some "2026-09-13" ∧
  effective_threshold (ex_el "2026-09-13") = Some 7.
Proof.
  pose proof (@next_evaluation_exact iso_date_parse utc ex_asset DEFAULT_ALERT_THRESHOLDS
    (Text "2026-09-11") (Text "2026-09-13") (ex_el "2026-09-11") (ex_el "2026-09-13") 1789084800000 1789257600000) as H.
  assert (next_threshold (ex_el "2026-09-11") = Some 7) as E by (vm_compute; reflexivity). rewrite E in H.
  split; [done|]. split; [vm_compute; reflexivity|].
  destruct H as (day & Hday & _ & _ & _ & Hon); [vm_compute; reflexivity..|by vm_compute|].
  apply Hon. assert (@thresholdDateUtc iso_date_parse utc (expiration ex_asset) 7 = Some (Fin 1789257600000)) as E2
    by (vm_compute; reflexivity).
  rewrite E2 in Hday. by injection Hday as <-.
Defined.
