(* ===== verification/ContactGroups.v ===== *)
(** Which contact groups an alert goes to: src/shared/contactGroups.js of the
    worker and of the API.

    The two files say they are kept in sync.  What both write alike is defined
    once; where they differ the definitions are in [Worker] and [Api], and the
    theorems say where they agree.  Also here: what a request to change an
    asset's groups means, and moving assets between groups. *)
From S2P Require Import Prelude Dates Net Json Signing AlertEligibility.
Open Scope Z_scope.

(** * Ids in the order of their UTF-8 bytes *)

(** [Buffer.compare] of the two encodings. *)
Definition compareContactGroupIdsUtf8Bytes (left right : jsval) : Z :=
  let a := utf8_encode (js_String left) in
  let b := utf8_encode (js_String right) in
  if str_ltb a b then -1 else if str_ltb b a then 1 else 0.
Definition id_le (v w : jsval) : Prop := compareContactGroupIdsUtf8Bytes v w <= 0.
#[global] Instance id_le_dec v w : Decision (id_le v w).
Proof. unfold id_le. apply _. Defined.
Definition group_le (g h : jsval) : Prop := id_le (get "id" g) (get "id" h).
#[global] Instance group_le_dec g h : Decision (group_le g h).
Proof. unfold group_le. apply _. Defined.
Definition text_le (s t : string) : Prop := id_le (Str s) (Str t).
#[global] Instance text_le_dec s t : Decision (text_le s t).
Proof. unfold text_le. apply _. Defined.

(** The texts of the list, trimmed and distinct. *)
Definition assigned_text (raw : jsval) : option string :=
  match raw with
  | Str s => if bool_decide (trim s = EmptyString) then None else Some (trim s)
  | _ => None
  end.
Definition normalizeAssignedGroupIds (ids : jsval) : list string :=
  merge_sort text_le (dedup (omap assigned_text (as_list ids))).
Definition canonicalLegacyContactGroupId (ids : jsval) : option string := head (normalizeAssignedGroupIds ids).

(** [groups.find((g) => g && String(g.id) === id) || null]. *)
Definition group_with_id (groups : list jsval) (id : string) : jsval :=
  default Null (List.find (λ g, truthy g && bool_decide (js_String (get "id" g) = id)) groups).

(** * The groups of an asset *)

Module Worker.
Definition findGroup (groups : list jsval) (id : jsval) : jsval :=
  if nullish id then Null else
  let pickId := trim (js_String id) in
  if bool_decide (pickId = EmptyString) then Null else group_with_id groups pickId.
Fixpoint resolve_assigned (groups : list jsval) (seen ids : list string) : list jsval :=
  match ids with
  | [] => []
  | id :: ids =>
      let group := findGroup groups (Str id) in
      let gid := js_String (get "id" group) in
      if negb (truthy group) || bool_decide (gid ∈ seen) then resolve_assigned groups seen ids
      else group :: resolve_assigned groups (gid :: seen) ids
  end.
Definition resolveContactGroupsForAsset (contactGroups assignedIds defaultContactGroupId : jsval) : list jsval :=
  let groups := as_list contactGroups in
  let resolveDefault := let fallback := findGroup groups defaultContactGroupId in
                        if truthy fallback then [fallback] else [] in
  match normalizeAssignedGroupIds assignedIds with
  | [] => resolveDefault
  | assigned =>
      match resolve_assigned groups [] assigned with
      | [] => resolveDefault
      | resolved => merge_sort group_le resolved
      end
  end.
End Worker.

Module Api.
Definition findGroupById (groups : list jsval) (groupId : jsval) : jsval :=
  if negb (truthy groupId) then Null else group_with_id groups (js_String groupId).
Definition api_resolveContactGroupsForAsset (contactGroups assignedIds defaultContactGroupId : jsval) : list jsval :=
  let groups := as_list contactGroups in
  let defaultId :=
    if truthy defaultContactGroupId && negb (bool_decide (trim (js_String defaultContactGroupId) = EmptyString))
    then Some (trim (js_String defaultContactGroupId)) else None in
  let pickDefault :=
    match defaultId with
    | None => []
    | Some id => let resolved := findGroupById groups (Str id) in if truthy resolved then [resolved] else []
    end in
  match normalizeAssignedGroupIds assignedIds with
  | [] => pickDefault
  | assigned =>
      match List.filter truthy (map (λ id, findGroupById groups (Str id)) assigned) with
      | [] => pickDefault
      | valid => merge_sort group_le valid
      end
  end.
End Api.

(** * Thresholds of groups *)

Definition MIN_GROUP_THRESHOLD_DAYS : Z := -365.
Definition MAX_GROUP_THRESHOLD_DAYS : Z := 730.
Definition validGroupThresholds (values : jsval) : list Z :=
  dedup (List.filter (λ n, (MIN_GROUP_THRESHOLD_DAYS <=? n) && (n <=? MAX_GROUP_THRESHOLD_DAYS))
    (omap Number_finite (as_list values))).
(** The callers pass the workspace's thresholds as the finite numbers of the
    column. *)
Definition effectiveThresholds (group : jsval) (workspaceThresholds : list Z) : list Z :=
  match validGroupThresholds (get "thresholds" group) with
  | [] => workspaceThresholds
  | fromGroup => fromGroup
  end.
Definition groupFiresForWindow (group : jsval) (workspaceThresholds : list Z) (thresholdDays : Z) : bool :=
  existsb (Z.eqb thresholdDays) (effectiveThresholds group workspaceThresholds).
Definition unionGroupsForThresholdWindow (groups : list jsval) (workspaceThresholds : list Z) (thresholdDays : Z)
  : list jsval :=
  List.filter (λ g, groupFiresForWindow g workspaceThresholds thresholdDays) groups.
Definition unionEffectiveThresholds (groups : list jsval) (workspaceThresholds : list Z) : list Z :=
  dedup (concat (map (λ g, effectiveThresholds g workspaceThresholds) groups)).

(** * Contacts and destinations *)

(** The first of the entries with the same text. *)
Fixpoint first_by_text (seen : list string) (l : list jsval) : list jsval :=
  match l with
  | [] => []
  | raw :: l =>
      let key := js_String raw in
      if nullish raw || bool_decide (key = EmptyString) || bool_decide (key ∈ seen) then first_by_text seen l
      else raw :: first_by_text (key :: seen) l
  end.
Definition unionContactIds (groups : list jsval) (field : string) : list jsval :=
  first_by_text [] (concat (map (λ g, as_list (get field g)) groups)).

(** The worker lower-cases before it looks for an empty text, the API after. *)
Definition worker_destination (email : bool) (raw : jsval) : option string :=
  if nullish raw then None else
  let value := trim (js_String raw) in
  let value := if email then toLowerCase value else value in
  if bool_decide (value = EmptyString) then None else Some value.
Definition api_destination (email : bool) (raw : jsval) : option string :=
  if nullish raw then None else
  let next := trim (js_String raw) in
  if bool_decide (next = EmptyString) then None else
  Some (if email then toLowerCase next else next).
Definition worker_dedupeNormalizedDestinations (values : jsval) (kind : string) : list string :=
  dedup (omap (worker_destination (bool_decide (kind = "email"%string))) (as_list values)).
Definition api_dedupeNormalizedDestinations (values : jsval) (kind : string) : list string :=
  dedup (omap (api_destination (bool_decide (kind = "email"%string))) (as_list values)).

(** * Channels *)

Definition whatsAppAllowedForAlertKey (alertKey : string) : bool :=
  negb (startsWith "cert_renewal_failed:" alertKey || startsWith "agent_health:" alertKey).
Definition deliveryChannelsFromEligibleGroups (groups : list jsval) (emailAlertsEnabled : jsval) (alertKey : string)
  : list string :=
  (if negb (match emailAlertsEnabled with Bool false => true | _ => false end) && existsb hasEmailContacts groups
   then ["email"%string] else [])
  ++ (if existsb hasWebhookNames groups then ["webhooks"%string] else [])
  ++ (if whatsAppAllowedForAlertKey alertKey && existsb hasWhatsAppContacts groups then ["whatsapp"%string] else []).

(** * Changing an asset's groups *)

Inductive membership_write := omit | set_ids (ids : list string).
Inductive membership_error := plural_not_strings | plural_disabled | singular_not_string.
#[global] Instance membership_write_eq_dec : EqDecision membership_write.
Proof. solve_decision. Defined.
#[global] Instance membership_error_eq_dec : EqDecision membership_error.
Proof. solve_decision. Defined.

(** [pluralWrites]: the environment's CONTACT_GROUP_PLURAL_WRITES switch. *)
Definition interpretContactGroupWrite (pluralWrites : bool) (contactGroupIds contactGroupId : jsval)
    (hasPlural hasSingular : bool) : result membership_error membership_write :=
  if hasPlural then
    match contactGroupIds with
    | Arr raws =>
        _ ← ensure (forallb isString raws) plural_not_strings;
        let ids := normalizeAssignedGroupIds contactGroupIds in
        _ ← ensure (negb ((1 <? Z.of_nat (length ids)) && negb pluralWrites)) plural_disabled;
        Ok (set_ids ids)
    | _ => Err plural_not_strings
    end
  else if negb hasSingular then Ok omit
  else if nullish contactGroupId then Ok (set_ids [])
  else match contactGroupId with
       | Str s => if bool_decide (trim s = EmptyString) then Ok (set_ids [])
                  else Ok (set_ids (normalizeAssignedGroupIds (Arr [contactGroupId])))
       | _ => Err singular_not_string
       end.

Definition trimmed_id (v : jsval) : string := if nullish v then EmptyString else trim (js_String v).
Definition membershipAfterContactGroupMove (assignedIds fromId toId : jsval) : list string :=
  let current := normalizeAssignedGroupIds assignedIds in
  let from := trimmed_id fromId in
  let to := trimmed_id toId in
  let next := List.filter (λ id, negb (bool_decide (id = from))) current in
  let next := if negb (bool_decide (to = EmptyString)) && negb (bool_decide (to ∈ next)) then next ++ [to] else next in
  normalizeAssignedGroupIds (Arr (map Str next)).

(** * Lemmas on the order *)

Lemma compare_le v w : id_le v w ↔ str_le (utf8_encode (js_String v)) (utf8_encode (js_String w)).
Proof.
  unfold id_le, compareContactGroupIdsUtf8Bytes, str_le. set (a := utf8_encode _). set (b := utf8_encode (js_String w)).
  cbv zeta. destruct (str_ltb a b) eqn:E; [|by destruct (str_ltb b a); split; intros; lia].
  split; [|lia]. intros _. destruct (str_ltb b a) eqn:E2; [|done].
  pose proof (str_ltb_trans _ _ _ E E2) as H. by rewrite str_ltb_irrefl in H.
Qed.
Lemma utf8_encode_inj s t : utf8_encode s = utf8_encode t → s = t.
Proof. intros H. apply (inj Some). by rewrite <- !utf8_decode_encode, H. Qed.
#[global] Instance text_le_trans : Transitive text_le.
Proof. intros s t u. unfold text_le. rewrite !compare_le. by apply transitivity. Qed.
#[global] Instance text_le_total : Total text_le.
Proof. intros s t. unfold text_le. rewrite !compare_le. apply (total str_le). Qed.
#[global] Instance text_le_antisym : AntiSymm (=) text_le.
Proof.
  intros s t. unfold text_le. rewrite !compare_le. intros H1 H2. apply utf8_encode_inj. by apply (anti_symm str_le).
Qed.
#[global] Instance group_le_trans : Transitive group_le.
Proof. intros g h i. unfold group_le. rewrite !compare_le. by apply transitivity. Qed.
#[global] Instance group_le_total : Total group_le.
Proof. intros g h. unfold group_le. rewrite !compare_le. apply (total str_le). Qed.

(** * Normal forms of assigned ids *)

Definition plain_id (id : string) : Prop := trim id = id ∧ id ≠ EmptyString.
Definition normal (ids : list string) : Prop := StronglySorted text_le ids ∧ NoDup ids ∧ Forall plain_id ids.

Lemma assigned_text_Some v id : assigned_text v = Some id ↔ ∃ s, v = Str s ∧ trim s = id ∧ id ≠ EmptyString.
Proof.
  unfold assigned_text. split.
  - destruct v; try done. case_bool_decide; [done|]. intros [= <-]. by eexists.
  - intros (s & -> & <- & H). by rewrite bool_decide_false.
Qed.
Lemma normalize_elem v id :
  id ∈ normalizeAssignedGroupIds v ↔ ∃ s, Str s ∈ as_list v ∧ trim s = id ∧ id ≠ EmptyString.
Proof.
  unfold normalizeAssignedGroupIds. rewrite (merge_sort_Permutation text_le), dedup_elem, list_elem_of_omap.
  setoid_rewrite assigned_text_Some. naive_solver.
Qed.
Lemma normalize_normal v : normal (normalizeAssignedGroupIds v).
Proof.
  split; [apply (StronglySorted_merge_sort text_le)|]. split.
  - unfold normalizeAssignedGroupIds. rewrite (merge_sort_Permutation text_le). apply dedup_NoDup.
  - rewrite Forall_forall. intros id (s & _ & <- & H)%normalize_elem. by split; [apply trim_trim|].
Qed.
(** Normal forms are equal as soon as they have the same elements. *)
Lemma normal_ext l k : normal l → normal k → (∀ id, id ∈ l ↔ id ∈ k) → l = k.
Proof.
  intros (Hl & Nl & _) (Hk & Nk & _) H. apply (StronglySorted_unique text_le); [done..|]. by apply NoDup_Permutation.
Qed.
Lemma normalize_id ids : normal ids → normalizeAssignedGroupIds (Arr (map Str ids)) = ids.
Proof.
  intros H. apply normal_ext; [apply normalize_normal|done|]. intros id. rewrite normalize_elem. cbn [as_list].
  destruct H as (_ & _ & Hp). rewrite Forall_forall in Hp. split.
  - intros (s & Hs & <- & _). apply list_elem_of_fmap in Hs as (s' & [= ->] & Hs). by destruct (Hp s' Hs) as [-> _].
  - intros Hid. exists id. destruct (Hp id Hid). split; [|done]. by apply list_elem_of_fmap_2.
Qed.

(** * The two resolvers *)

Lemma group_with_id_spec gs id : truthy (group_with_id gs id) = true →
  group_with_id gs id ∈ gs ∧ js_String (get "id" (group_with_id gs id)) = id.
Proof.
  unfold group_with_id. destruct (List.find _ _) as [g|] eqn:E; [|done]. cbn. intros _.
  apply find_some in E as [Hin H]. rewrite andb_true_iff, bool_decide_eq_true in H.
  split; [by apply list_elem_of_In|apply H].
Qed.
Lemma group_with_id_none gs id : truthy (group_with_id gs id) = false → group_with_id gs id = Null.
Proof.
  unfold group_with_id. destruct (List.find _ _) as [g|] eqn:E; [|done]. cbn. intros H.
  apply find_some in E as [_ E]. by rewrite H in E.
Qed.
Lemma worker_find gs id : plain_id id → Worker.findGroup gs (Str id) = group_with_id gs id.
Proof.
  intros [Ht Hn]. unfold Worker.findGroup. cbn [nullish js_String]. rewrite Ht. by rewrite bool_decide_false.
Qed.
Lemma api_find gs id : plain_id id → Api.findGroupById gs (Str id) = group_with_id gs id.
Proof. intros [_ Hn]. unfold Api.findGroupById. cbn. by rewrite bool_decide_false. Qed.

Definition existing (gs : list jsval) (ids : list string) : list jsval := List.filter truthy (map (group_with_id gs) ids).
Lemma existing_elem gs ids g : g ∈ existing gs ids ↔ truthy g = true ∧ ∃ id, id ∈ ids ∧ g = group_with_id gs id.
Proof.
  unfold existing. rewrite list_elem_of_In, filter_In, <- list_elem_of_In.
  change (map ?f ids) with (f <$> ids). rewrite list_elem_of_fmap. naive_solver.
Qed.
Lemma existing_ids gs ids : map (λ g, js_String (get "id" g)) (existing gs ids) `sublist_of` ids.
Proof.
  unfold existing. induction ids as [|id ids IH]; [constructor|]. cbn [map List.filter].
  destruct (truthy (group_with_id gs id)) eqn:E; [|by constructor]. cbn [map].
  rewrite (proj2 (group_with_id_spec _ _ E)). by constructor.
Qed.
Lemma worker_assigned gs ids : ∀ seen, Forall plain_id ids → NoDup ids → (∀ id, id ∈ ids → id ∉ seen) →
  Worker.resolve_assigned gs seen ids = existing gs ids.
Proof.
  induction ids as [|id ids IH]; intros seen Hp Hn Hs; [done|]. apply Forall_cons in Hp as [Hid Hp].
  apply NoDup_cons in Hn as [Hnin Hn]. cbn [Worker.resolve_assigned]. rewrite worker_find by done.
  unfold existing. cbn [map List.filter]. destruct (truthy (group_with_id gs id)) eqn:E; cbn [negb orb].
  - rewrite (proj2 (group_with_id_spec _ _ E)). rewrite bool_decide_false by (apply Hs; by left).
    f_equal. apply IH; [done..|]. intros id' Hid'. rewrite not_elem_of_cons.
    split; [by intros ->|apply Hs; by right].
  - apply IH; [done..|]. intros id' Hid'. apply Hs. by right.
Qed.
Lemma api_assigned gs ids : Forall plain_id ids →
  List.filter truthy (map (λ id, Api.findGroupById gs (Str id)) ids) = existing gs ids.
Proof.
  intros Hp. unfold existing. f_equal. induction Hp as [|id ids Hid Hp IH]; [done|]. cbn [map].
  by rewrite api_find, IH.
Qed.

(** The default group, if the workspace names one that exists. *)
Definition default_group (gs : list jsval) (d : jsval) : list jsval :=
  if bool_decide (trimmed_id d = EmptyString) then [] else existing gs [trimmed_id d].
Definition resolved (gs : list jsval) (assigned : list string) (d : jsval) : list jsval :=
  match existing gs assigned with [] => default_group gs d | rs => merge_sort group_le rs end.

Lemma worker_resolves gs ids d : Worker.resolveContactGroupsForAsset gs ids d =
  resolved (as_list gs) (normalizeAssignedGroupIds ids) d.
Proof.
  unfold Worker.resolveContactGroupsForAsset, resolved. cbv zeta. set (G := as_list gs).
  assert (Hd : (if truthy (Worker.findGroup G d) then [Worker.findGroup G d] else []) = default_group G d).
  { unfold Worker.findGroup, default_group, trimmed_id, existing. destruct (nullish d); [done|].
    case_bool_decide; [done|]. cbn. by destruct (truthy _). }
  rewrite Hd. destruct (normalize_normal ids) as (_ & Hn & Hp).
  rewrite <- (worker_assigned G _ []) by (done || (intros; apply not_elem_of_nil)).
  by destruct (normalizeAssignedGroupIds ids).
Qed.
Lemma api_resolves gs ids d : truthy d = true ∨ nullish d = true ∨ d = Str EmptyString →
  Api.api_resolveContactGroupsForAsset gs ids d = resolved (as_list gs) (normalizeAssignedGroupIds ids) d.
Proof.
  intros Hty. unfold Api.api_resolveContactGroupsForAsset, resolved. cbv zeta. set (G := as_list gs).
  match goal with |- context [match normalizeAssignedGroupIds ids with [] => ?x | _ => _ end] => set (D := x) end.
  assert (D = default_group G d) as Hd.
  { subst D. unfold default_group, trimmed_id, existing. destruct Hty as [Hty|[Hty| ->]].
    - rewrite Hty. assert (nullish d = false) as -> by (by destruct d). case_bool_decide as E; [done|]. cbn [negb andb].
      rewrite api_find by (split; [apply trim_trim|done]). cbn. by destruct (truthy _).
    - destruct d; done.
    - done. }
  rewrite Hd. destruct (normalize_normal ids) as (_ & _ & Hp). rewrite <- (api_assigned G _) by done.
  by destruct (normalizeAssignedGroupIds ids).
Qed.

Lemma default_group_elem gs d g : g ∈ default_group gs d ↔
  truthy g = true ∧ g = group_with_id gs (trimmed_id d) ∧ trimmed_id d ≠ EmptyString.
Proof.
  unfold default_group. case_bool_decide as E.
  - split; [by intros []%elem_of_nil|by intros (_ & _ & [])].
  - rewrite existing_elem. setoid_rewrite list_elem_of_singleton. naive_solver.
Qed.
Lemma existing_nil gs ids : existing gs ids = [] ↔ ∀ id, id ∈ ids → group_with_id gs id = Null.
Proof.
  split.
  - intros H id Hid. apply group_with_id_none. apply not_true_is_false. intros E.
    assert (group_with_id gs id ∈ existing gs ids) as Hin by (apply existing_elem; eauto).
    rewrite H in Hin. by apply elem_of_nil in Hin.
  - intros H. destruct (existing gs ids) as [|g gs'] eqn:E; [done|]. exfalso.
    assert (g ∈ existing gs ids) as (Hg & id & Hid & ->)%existing_elem by (rewrite E; by left).
    by rewrite H in Hg.
Qed.
Lemma resolved_sorted gs ids d : StronglySorted group_le (resolved gs ids d).
Proof.
  unfold resolved. destruct (existing gs ids) eqn:E; [|rewrite <- E; apply (StronglySorted_merge_sort group_le)].
  unfold default_group. case_bool_decide; [constructor|]. unfold existing. cbn. destruct (truthy _); repeat constructor.
Qed.
Lemma resolved_NoDup gs ids d : NoDup ids → NoDup (map (λ g, js_String (get "id" g)) (resolved gs ids d)).
Proof.
  intros Hn. unfold resolved. pose proof (existing_ids gs ids) as Hs.
  destruct (existing gs ids) eqn:E.
  - unfold default_group. case_bool_decide; [constructor|]. eapply sublist_NoDup; [|apply existing_ids].
    apply NoDup_singleton.
  - rewrite <- E in *. change (map ?f ?l) with (f <$> l) in *. rewrite (merge_sort_Permutation group_le).
    by eapply sublist_NoDup.
Qed.
Lemma resolved_elem gs ids d g : g ∈ resolved gs ids d ↔
  truthy g = true ∧ ∃ id, g = group_with_id gs id ∧
    (id ∈ ids ∨ (∀ i, i ∈ ids → group_with_id gs i = Null) ∧ id = trimmed_id d ∧ id ≠ EmptyString).
Proof.
  unfold resolved. destruct (existing gs ids) as [|g0 rest] eqn:E.
  - pose proof (proj1 (existing_nil _ _) E) as Hnone. rewrite default_group_elem. split.
    + intros (Ht & -> & Hd). split; [done|]. exists (trimmed_id d). split; [done|]. right. by split_and!.
    + intros (Ht & id & -> & [Hid|(_ & -> & Hd)]); [|done]. by rewrite (Hnone id Hid) in Ht.
  - rewrite <- E, (merge_sort_Permutation group_le), existing_elem. split; [naive_solver|].
    intros (Ht & id & -> & [Hid|(Hno & _ & _)]); [eauto|].
    apply (existing_nil gs ids) in Hno. congruence.
Qed.

(** * Windows and channels of groups *)

(** A threshold in force for some group is in force for a group that fires. *)
Lemma fires_elem g ws t : groupFiresForWindow g ws t = true ↔ t ∈ effectiveThresholds g ws.
Proof.
  unfold groupFiresForWindow. rewrite existsb_exists, list_elem_of_In. setoid_rewrite Z.eqb_eq. naive_solver.
Qed.
Lemma union_thresholds_elem gs ws t :
  t ∈ unionEffectiveThresholds gs ws ↔ ∃ g, g ∈ unionGroupsForThresholdWindow gs ws t.
Proof.
  unfold unionEffectiveThresholds, unionGroupsForThresholdWindow. rewrite dedup_elem, list_elem_of_In, in_concat.
  setoid_rewrite list_elem_of_In. setoid_rewrite filter_In. setoid_rewrite fires_elem.
  setoid_rewrite <- list_elem_of_In. change (map ?f gs) with (f <$> gs). setoid_rewrite list_elem_of_fmap.
  naive_solver.
Qed.
Lemma effective_nonempty g ws : ws ≠ [] → effectiveThresholds g ws ≠ [].
Proof. unfold effectiveThresholds. by destruct (validGroupThresholds _). Qed.

Lemma destinations_agree values kind :
  worker_dedupeNormalizedDestinations values kind = api_dedupeNormalizedDestinations values kind.
Proof.
  unfold worker_dedupeNormalizedDestinations, api_dedupeNormalizedDestinations. f_equal.
  apply list_omap_ext. apply Forall_Forall2_diag, Forall_true. intros v.
  unfold worker_destination, api_destination. destruct (nullish v); [done|]. cbv zeta.
  destruct (bool_decide (kind = "email"%string)); [|done]. destruct (trim (js_String v)); done.
Qed.

(** * Theorems *)

(** C27: the worker and the API resolve an asset's contact groups alike, for
    every settings document, every list of assigned ids and every default that
    is a text, absent, or anything a condition takes for true. *)
Theorem resolvers_agree (contactGroups assignedIds d : jsval) :
  truthy d = true ∨ nullish d = true ∨ d = Str EmptyString →
  Api.api_resolveContactGroupsForAsset contactGroups assignedIds d =
  Worker.resolveContactGroupsForAsset contactGroups assignedIds d.
Proof. intros H. by rewrite worker_resolves, api_resolves. Qed.

Definition ex_groups : jsval :=
  Arr [Obj [("id", Str "ops"); ("email_contact_ids", Arr [Str "c1"]); ("thresholds", Arr [Num (Fin 60)])];
       Obj [("id", Str "dev"); ("webhook_name", Str "chat")]; Null].
Lemma resolvers_agree_witness :
  Api.api_resolveContactGroupsForAsset ex_groups (Arr [Str " ops"; Str "gone"; Str "dev"; Num (Fin 3)]) (Str "ops") =
  Worker.resolveContactGroupsForAsset ex_groups (Arr [Str " ops"; Str "gone"; Str "dev"; Num (Fin 3)]) (Str "ops").
Proof. apply resolvers_agree. left. vm_compute. reflexivity. Defined.

(** The resolved groups of an asset are well formed.  They are objects of
    the settings, each the first one with its id, without repetition and in
    the byte order of their ids; they are the assigned groups that exist, and
    if none does the workspace's default. *)
Theorem resolved_groups_wf (contactGroups assignedIds d : jsval) :
  let gs := as_list contactGroups in
  let assigned := normalizeAssignedGroupIds assignedIds in
  let rs := Worker.resolveContactGroupsForAsset contactGroups assignedIds d in
  StronglySorted group_le rs ∧ NoDup (map (λ g, js_String (get "id" g)) rs) ∧
  ∀ g, g ∈ rs ↔ truthy g = true ∧ ∃ id, g = group_with_id gs id ∧
    (id ∈ assigned ∨ (∀ i, i ∈ assigned → group_with_id gs i = Null) ∧ id = trimmed_id d ∧ id ≠ EmptyString).
Proof.
  intros gs assigned rs. subst rs. rewrite worker_resolves. split; [apply resolved_sorted|].
  split; [apply resolved_NoDup, normalize_normal|]. apply resolved_elem.
Qed.

(** Moving an asset from one group to another removes exactly the one and
    adds exactly the other, and the ids stay in normal form. *)
Theorem membership_move_exact (assignedIds fromId toId : jsval) (id : string) :
  normal (membershipAfterContactGroupMove assignedIds fromId toId) ∧
  (id ∈ membershipAfterContactGroupMove assignedIds fromId toId ↔
   id ∈ normalizeAssignedGroupIds assignedIds ∧ id ≠ trimmed_id fromId ∨
   id = trimmed_id toId ∧ id ≠ EmptyString).
Proof.
  split; [apply normalize_normal|]. unfold membershipAfterContactGroupMove. cbv zeta. rewrite normalize_elem.
  set (current := normalizeAssignedGroupIds assignedIds).
  assert (Hto : trim (trimmed_id toId) = trimmed_id toId).
  { unfold trimmed_id. destruct (nullish toId); [done|apply trim_trim]. }
  assert (Hcur : ∀ i, i ∈ current → plain_id i).
  { intros i Hi. destruct (normalize_normal assignedIds) as (_ & _ & Hp). rewrite Forall_forall in Hp. by apply Hp. }
  set (next := List.filter _ current).
  assert (Hnext : ∀ i, i ∈ next ↔ i ∈ current ∧ i ≠ trimmed_id fromId).
  { intros i. subst next. rewrite list_elem_of_In, filter_In, <- list_elem_of_In, negb_true_iff, bool_decide_eq_false. done. }
  assert (Hall : ∀ i, i ∈ (if negb (bool_decide (trimmed_id toId = EmptyString)) && negb (bool_decide (trimmed_id toId ∈ next))
                      then next ++ [trimmed_id toId] else next) ↔
                 i ∈ next ∨ i = trimmed_id toId ∧ i ≠ EmptyString).
  { intros i. case_bool_decide as E1; cbn [negb andb]; [naive_solver congruence|].
    case_bool_decide as E2; cbn [negb]; [naive_solver|]. rewrite elem_of_app, list_elem_of_singleton. naive_solver. }
  cbn [as_list]. change (map Str ?l) with (Str <$> l). setoid_rewrite list_elem_of_fmap.
  split.
  - intros (s & (s' & [= <-] & [(Hs & Hf)%Hnext|[-> Hn]]%Hall) & <- & Hne).
    + destruct (Hcur s Hs) as [-> _]. by left.
    + rewrite Hto. by right.
  - intros H. exists id. split; [exists id; split; [done|]; apply Hall; rewrite Hnext; naive_solver|].
    destruct H as [[Hi _]|[-> Hn]]; [by apply Hcur|done].
Qed.
(** What a write stores is in normal form. *)
Lemma write_normal pw p s hp hs ids : interpretContactGroupWrite pw p s hp hs = Ok (set_ids ids) → normal ids.
Proof.
  assert (H0 : normal []) by (split_and!; constructor).
  unfold interpretContactGroupWrite. destruct hp.
  - destruct p; try done. intros H. simplify_result. apply normalize_normal.
  - destruct hs; [|done]. destruct (nullish s); [by intros [= <-]|]. destruct s; try done.
    case_bool_decide; intros Hw; injection Hw as <-; [done|apply normalize_normal].
Qed.
