(* ===== verification/DeliveryLedger.v ===== *)
(** What is still owed for a queued alert: the delivery ledger of
    packages/recipient-verification/index.js, packages/alert-eligibility/
    deliveryLedger.js and deliveryData.js.

    The [channels] column of an alert holds either the array of channels left
    to try, or a versioned ledger: the channels to retry, the channels
    required, and an outcome per channel with its recipients or endpoints.
    The worker merges an attempt and the delivery log into it, discovery
    reconciles it with the channels configured now, and a user's retry reopens
    one channel.  The theorems say that none of them puts a delivered channel
    back into the retry set. *)
From S2P Require Import Prelude Dates Net Json AlertEligibility.
Open Scope Z_scope.

(** * Stored data *)

Definition safeDeliveryKey (key : string) : bool :=
  negb (bool_decide (key ∈ ["__proto__"; "constructor"; "prototype"]%string)).
Fixpoint deliveryData (value : jsval) : jsval :=
  match value with
  | Arr l => Arr (map deliveryData l)
  | Obj fs =>
      Obj ((fix entries (fs : list (string * jsval)) : list (string * jsval) :=
        match fs with
        | [] => []
        | (key, entry) :: fs =>
            if safeDeliveryKey key then (key, deliveryData entry) :: entries fs else entries fs
        end) fs)
  | _ => value
  end.
Definition kept_name (key : string) : bool := negb (bool_decide (key = EmptyString)) && safeDeliveryKey key.
Definition deliveryChannelNames (value : jsval) : list string :=
  match value with Arr l => List.filter kept_name (map js_String l) | _ => [] end.

Notation fields := (list (string * jsval)).
Definition lookup_field (k : string) (fs : fields) : jsval := default Undef (assoc_get k fs).
Definition is_true (v : jsval) : bool := match v with Bool b => b | _ => false end.
Definition is_text (s : string) (v : jsval) : bool := match v with Str t => bool_decide (t = s) | _ => false end.
Definition is_nil {A} (l : list A) : bool := match l with [] => true | _ => false end.

Definition ELIGIBILITY_CODES : list string :=
  ["NO_VERIFIED_RECIPIENTS"; "RECIPIENT_NOT_VERIFIED"; "RECIPIENT_OPTED_OUT"; "RECIPIENT_REVOKED";
   "RECIPIENT_SUPPRESSED"].
Definition TEMPORARY_VERIFICATION_CODE : string := "RECIPIENT_VERIFICATION_UNAVAILABLE".
Definition eligibility_code (v : jsval) : bool :=
  match v with Str s => bool_decide (s ∈ ELIGIBILITY_CODES) | _ => false end.
Definition is_email_or_whatsapp (channel : string) : bool :=
  bool_decide (channel = "email"%string) || bool_decide (channel = "whatsapp"%string).

(** * Reading a ledger *)

Record ledger := mkLedger {
  ledger_version : Z; ledger_retry : list string; ledger_required : list string;
  ledger_outcomes : fields; ledger_legacy : bool }.
Definition legacy_ledger (retry : list string) : ledger := mkLedger 0 retry [] [] true.
Definition is_object (v : jsval) : bool := match v with Obj _ | Arr _ => true | _ => false end.
Definition version_1 (v : jsval) : bool := bool_decide (Number_finite (get "version" v) = Some 1).

(** recipient-verification: what it cannot read is an empty legacy ledger. *)
Definition parseDeliveryLedger (value : jsval) : ledger :=
  let parsed := match value with Str s => default (Arr []) (JSON_parse s) | _ => value end in
  match parsed with
  | Arr _ => legacy_ledger (deliveryChannelNames parsed)
  | Obj _ =>
      if version_1 parsed then
        mkLedger 1 (deliveryChannelNames (get "retry" parsed)) (deliveryChannelNames (get "required" parsed))
          (own_entries (deliveryData (get "outcomes" parsed))) false
      else legacy_ledger []
  | _ => legacy_ledger []
  end.

(** alert-eligibility: what it cannot read is refused.  An accepted ledger
    keeps its other fields, which no caller modelled here reads. *)
Definition strict_parseDeliveryLedger (value : jsval) : option ledger :=
  parsed ← match value with Str s => JSON_parse s | _ => Some value end;
  match parsed with
  | Arr l => if forallb isString l then Some (legacy_ledger (deliveryChannelNames parsed)) else None
  | Obj _ =>
      match get "retry" parsed, get "required" parsed, get "outcomes" parsed with
      | Arr retry, Arr required, Obj outcomes =>
          if version_1 parsed && forallb isString (retry ++ required) then
            Some (mkLedger 1 (deliveryChannelNames (Arr retry)) (deliveryChannelNames (Arr required))
              (own_entries (deliveryData (Obj outcomes))) false)
          else None
      | _, _, _ => None
      end
  | _ => None
  end.

(** The contactGroups.js copies: the worker reads its retry channels strictly,
    the API takes whatever array it finds. *)
Definition worker_parseQueuedChannels (value : jsval) : list string :=
  match strict_parseDeliveryLedger value with Some l => ledger_retry l | None => [] end.
Definition api_queued (v : jsval) : list string :=
  match v with
  | Arr l => map js_String l
  | Obj _ => match get "retry" v with Arr l => map js_String l | _ => [] end
  | _ => []
  end.
Definition api_parseQueuedChannels (value : jsval) : list string :=
  match value with
  | Str s => if bool_decide (trim s = EmptyString) then [] else
             match JSON_parse s with Some v => api_queued v | None => [] end
  | _ => api_queued value
  end.
Definition channelsForDeliveryAttempt (queued : jsval → list string) (liveChannels : list string)
    (queuedChannels : jsval) (isRetry : bool) : list string :=
  if negb isRetry then liveChannels else
  List.filter (λ channel, bool_decide (channel ∈ queued queuedChannels)) liveChannels.

(** * Outcomes of recipients *)

Definition recipientIdentity (channel : string) (value : jsval) : string :=
  let text := trim (js_String (js_or value (Str EmptyString))) in
  if bool_decide (channel = "email"%string) then toLowerCase text else text.
Definition state_is (s : string) (kv : string * jsval) : bool := is_text s (get "state" kv.2).
Definition not_attempted : jsval := Obj [("state", Str "failed"); ("code", Str "DELIVERY_NOT_ATTEMPTED")].
Definition first_code (l : fields) : jsval :=
  match l with (_, v) :: _ => get "code" v | [] => Undef end.

(** The entries kept, those that count now, and the current recipients. *)
Definition recipient_entries (recipients currentRecipients : jsval)
  : fields * fields * option (list string) :=
  let entries := List.filter (λ kv, truthy kv.2 && truthy (get "state" kv.2)) (own_entries (deliveryData recipients)) in
  match currentRecipients with
  | Arr l =>
      let selected := dedup (List.filter kept_name (map js_String l)) in
      let missing := map (λ key, (key, not_attempted)) (List.filter (λ key, negb (assoc_has key entries)) selected) in
      (entries ++ missing,
       List.filter (λ kv, bool_decide (kv.1 ∈ selected)) entries ++ missing, Some selected)
  | _ => (entries, entries, None)
  end.
Definition recipientChannelOutcome (recipients currentRecipients : jsval) : jsval :=
  let '(kept, current, selected) := recipient_entries recipients currentRecipients in
  let outcome state terminal reason code :=
    Obj ([("recipients", Obj kept)]
      ++ match selected with Some s => [("currentRecipients", Arr (map Str s))] | None => [] end
      ++ [("state", Str state); ("terminal", Bool terminal); ("reason", reason); ("code", code)]) in
  let required := List.filter (λ kv, negb (state_is "excluded" kv)) current in
  if existsb (state_is "unavailable") required then
    outcome "failed"%string false (Str "verification") (Str TEMPORARY_VERIFICATION_CODE)
  else if existsb (state_is "failed") required then
    outcome "failed"%string false Null
      (js_or (first_code (List.filter (state_is "failed") required)) Null)
  else match required with
  | [] =>
      let codes := List.filter truthy (map (λ kv, get "code" kv.2) current) in
      outcome "blocked"%string true (Str "eligibility")
        (Str (if negb (is_nil codes) && forallb (is_text "RECIPIENT_OPTED_OUT") codes
              then "RECIPIENT_OPTED_OUT" else "NO_VERIFIED_RECIPIENTS"))
  | _ =>
      if forallb (state_is "sent") required then outcome "sent"%string true Null Null
      else outcome (if existsb (state_is "sent") required then "partial" else "blocked")%string true (Str "provider")
        (js_or (first_code (List.filter (λ kv, truthy (get "code" kv.2)) required)) (Str "PERMANENT_DELIVERY_FAILURE"))
  end.

(** * What an outcome means *)

Definition isEligibilityOutcome (outcome : jsval) : bool :=
  if negb (is_object outcome) then false
  else if is_text "verification" (get "reason" outcome) || is_text TEMPORARY_VERIFICATION_CODE (get "code" outcome)
  then false
  else if is_text "provider" (get "reason" outcome) then false
  else if is_text "eligibility" (get "reason" outcome) then true
  else if eligibility_code (get "code" outcome) then true
  else is_text "blocked" (get "state" outcome) && is_true (get "terminal" outcome)
       && negb (truthy (get "code" outcome)) && is_nil (own_entries (get "endpoints" outcome)).
Definition providerTerminalOutcome (outcome : jsval) : bool :=
  if negb (truthy outcome) || is_text "sent" (get "state" outcome) || isEligibilityOutcome outcome then false
  else is_true (get "terminal" outcome) || is_text "blocked" (get "state" outcome).
Definition canRecheckRecipientOutcome (channel : string) (outcome : jsval) : bool :=
  is_email_or_whatsapp channel && isEligibilityOutcome outcome
  && (is_text "NO_VERIFIED_RECIPIENTS" (get "code" outcome) || is_text "RECIPIENT_NOT_VERIFIED" (get "code" outcome)).
(** Not delivered, and not settled without delivery. *)
Definition still_owed (outcome : jsval) : bool :=
  negb (truthy outcome)
  || negb (is_text "sent" (get "state" outcome)) && negb (is_true (get "terminal" outcome))
     && negb (is_text "blocked" (get "state" outcome)).

Record channel_result := mkResult {
  r_channel : string; r_success : bool; partialSuccess : bool;
  eligibilityTerminal : bool; r_terminal : bool; providerTerminal : bool; r_errorCode : jsval }.
Definition resultFromOutcome (channel : string) (outcome : jsval) : channel_result :=
  if negb (truthy outcome) then mkResult channel false false false false false Undef
  else if is_text "sent" (get "state" outcome) then mkResult channel true false false false false Undef
  else
  let eligibility := isEligibilityOutcome outcome in
  let terminal := truthy (get "terminal" outcome) || is_text "blocked" (get "state" outcome) in
  let code := get "code" outcome in
  if is_text "partial" (get "state" outcome) then
    mkResult channel false true (eligibility && terminal) terminal (terminal && negb eligibility) (js_or code Null)
  else if terminal then
    mkResult channel false false eligibility true (negb eligibility)
      (if eligibility then js_or code (Str "NO_VERIFIED_RECIPIENTS") else js_or code (Str "PERMANENT_DELIVERY_FAILURE"))
  else mkResult channel false false false false false (js_or code Null).

(** * The disposition of an attempt *)

Record disposition := mkDisposition {
  d_status : string; d_retry : bool; d_channels : list string; d_code : option string }.
Definition result_retryable (row : channel_result) : bool :=
  negb (r_success row) && negb (eligibilityTerminal row) && negb (r_terminal row) && negb (providerTerminal row).
Definition deliveryDisposition (results : list channel_result) : disposition :=
  let unsuccessful := List.filter (λ row, negb (r_success row)) results in
  let retryable := List.filter result_retryable results in
  let anySuccess := existsb (λ row, r_success row || partialSuccess row) results in
  let eligibilityRows := List.filter eligibilityTerminal unsuccessful in
  let terminalCode :=
    match eligibilityRows with
    | [] => if existsb providerTerminal unsuccessful then Some "PERMANENT_DELIVERY_FAILURE"%string else None
    | _ => Some (if forallb (λ row, is_text "RECIPIENT_OPTED_OUT" (r_errorCode row)) eligibilityRows
                 then "RECIPIENT_OPTED_OUT" else "NO_VERIFIED_RECIPIENTS")%string
    end in
  match unsuccessful, retryable with
  | [], _ => mkDisposition "sent" false [] None
  | _, [] => mkDisposition (if anySuccess then "partial" else "blocked") false [] terminalCode
  | _, _ => mkDisposition (if anySuccess then "partial" else "failed") true (map r_channel retryable) None
  end.
Record queue_outcome := mkOutcome {
  o_status : string; o_retry : bool; o_channels : list string; o_code : option string;
  notifyUnverified : bool; notifyProviderTerminal : bool }.
(** The options the callers pass: nothing, or the worker's flags. *)
Definition queueDeliveryOutcome (results : list channel_result) (whatsappPermanentFailure reachedMaxAttempts : bool)
  : queue_outcome :=
  let d := deliveryDisposition results in
  let forcedBlock := whatsappPermanentFailure || reachedMaxAttempts in
  let status := if forcedBlock then "blocked"%string else d_status d in
  let retry := negb forcedBlock && d_retry d && negb (bool_decide (status = "sent"%string))
               && negb (bool_decide (status = "blocked"%string)) in
  mkOutcome status retry (if retry then d_channels d else []) (d_code d)
    (existsb eligibilityTerminal results) (existsb providerTerminal results).

(** * Discovery: reconciling with the channels configured now *)

Definition sameStringList (left right : list string) : bool :=
  bool_decide (merge_sort str_le left = merge_sort str_le right).
(** [JSON.stringify] with the keys of every object sorted. *)
Fixpoint stableJson (value : jsval) : string :=
  match value with
  | Arr l => "[" +:+ join "," (map stableJson l) +:+ "]"
  | Obj fs =>
      "{" +:+ join "," (map member_text (sort_keys
        ((fix members (fs : list (string * jsval)) : list (string * string) :=
          match fs with [] => [] | (k, x) :: fs => (k, stableJson x) :: members fs end) fs))) +:+ "}"
  | Undef => "undefined"
  | _ => JSON_stringify value
  end.
Definition ledger_json (retry required : list string) (outcomes : fields) : jsval :=
  Obj [("version", Num (Fin 1)); ("retry", Arr (map Str retry)); ("required", Arr (map Str required));
       ("outcomes", Obj outcomes)].
(** The own outcomes of the channels, in the channels' order. *)
Definition add_outcome (outcomes acc : fields) (channel : string) : fields :=
  match assoc_get channel outcomes with Some o => assoc_set channel o acc | None => acc end.
Definition outcomes_of (channels : list string) (outcomes : fields) : fields :=
  fold_left (add_outcome outcomes) channels [].

Record reconciled := mkReconciled { rc_channels : jsval; rc_changed : bool }.
Definition reconcileDeliveryChannels (stored : jsval) (configuredChannels : jsval) : reconciled :=
  let live := deliveryChannelNames configuredChannels in
  let l := parseDeliveryLedger stored in
  if ledger_legacy l then
    match stored with
    | Arr _ | Str _ =>
        let storedList := ledger_retry l in
        let next :=
          match storedList with
          | [] => live
          | _ => match List.filter (λ channel, bool_decide (channel ∈ storedList)) live with
                 | [] => storedList | next => next end
          end in
        mkReconciled (Arr (map Str next)) (negb (sameStringList next storedList))
    | _ => mkReconciled (Arr (map Str live)) true
    end
  else
    let outcomes := outcomes_of live (ledger_outcomes l) in
    let retry := List.filter (λ channel, still_owed (lookup_field channel outcomes)) live in
    mkReconciled (ledger_json retry live outcomes)
      (negb (sameStringList retry (ledger_retry l)) || negb (sameStringList live (ledger_required l))
       || negb (bool_decide (stableJson (Obj outcomes) = stableJson (Obj (ledger_outcomes l))))).

(** * A user's retry *)

Definition webhookRetryGeneration (outcome : jsval) : Z :=
  if negb (is_object outcome) then 0 else
  match Number_finite (get "retryGeneration" outcome) with
  | Some n => if 0 <? n then n else if is_true (get "reopened" outcome) then 1 else 0
  | None => if is_true (get "reopened" outcome) then 1 else 0
  end.
Definition webhookRetryGenerationFromStored (stored : jsval) : Z :=
  webhookRetryGeneration (lookup_field "webhooks" (ledger_outcomes (parseDeliveryLedger stored))).

(** [known]: the channels required, or those with an outcome. *)
Definition known_channels (l : ledger) : list string :=
  match ledger_required l with [] => (ledger_outcomes l).*1 | required => required end.
(** The outcome of a channel whose failure was final, opened again. *)
Definition reopened_outcome (outcome : jsval) : fields :=
  assoc_remove "reopened" (spread (own_entries outcome)
    [("state", Str "failed"); ("terminal", Bool false); ("reason", Str "provider")]).

Inductive retry_plan :=
| plan_ok (channel : string) (eligible : list string) (channels : jsval)
| plan_refused (code : jsval) (eligible : list string).
Definition eligible_channels_of (l : ledger) : list string :=
  dedup (List.filter (λ channel, still_owed (lookup_field channel (ledger_outcomes l))) (ledger_retry l)
         ++ List.filter (λ channel, canRecheckRecipientOutcome channel (lookup_field channel (ledger_outcomes l)))
              (known_channels l)).
(** The requested channel, or the only eligible one. *)
Definition chosen_channel (requestedChannel : jsval) (eligible : list string) : option string :=
  let requested := trim (js_String (js_or requestedChannel (Str EmptyString))) in
  if bool_decide (requested = EmptyString) then match eligible with [only] => Some only | _ => None end
  else Some requested.
(** The outcomes once [channel] is open again. *)
Definition retried_outcomes (channel : string) (outcomes : fields) : fields :=
  let outcome := lookup_field channel outcomes in
  if canRecheckRecipientOutcome channel outcome then assoc_remove channel outcomes
  else if providerTerminalOutcome outcome then
    let next := reopened_outcome outcome in
    let next := if bool_decide (channel = "webhooks"%string)
                then assoc_set "retryGeneration" (Num (Fin (webhookRetryGeneration outcome + 1))) next else next in
    assoc_set channel (Obj next) outcomes
  else outcomes.

Definition planManualRetry (stored requestedChannel : jsval) : retry_plan :=
  let l := parseDeliveryLedger stored in
  if ledger_legacy l then
    let eligible := ledger_retry l in
    match chosen_channel requestedChannel eligible with
    | None => plan_refused (Str (match eligible with [] => "NO_ELIGIBLE_CHANNELS" | _ => "CHANNEL_REQUIRED" end)) eligible
    | Some channel =>
        if bool_decide (channel ∈ eligible) then plan_ok channel eligible (Arr [Str channel])
        else plan_refused (Str "CHANNEL_NOT_ELIGIBLE") eligible
    end
  else
    let outcomes := ledger_outcomes l in
    let known := known_channels l in
    let eligible := eligible_channels_of l in
    let permanent := List.filter (λ channel, providerTerminalOutcome (lookup_field channel outcomes)) known in
    match chosen_channel requestedChannel eligible with
    | None =>
        if 1 <? Z.of_nat (length eligible) then plan_refused (Str "CHANNEL_REQUIRED") eligible
        else match permanent with
             | [] => plan_refused (Str "NO_ELIGIBLE_CHANNELS") eligible
             | _ => plan_refused (Str "CHANNEL_PERMANENT") permanent
             end
    | Some channel =>
        let outcome := lookup_field channel outcomes in
        if truthy outcome && is_text "sent" (get "state" outcome) then plan_refused (Str "ALREADY_DELIVERED") eligible
        else if isEligibilityOutcome outcome && negb (canRecheckRecipientOutcome channel outcome) then
          plan_refused (js_or (get "code" outcome) (Str "RECIPIENT_NOT_VERIFIED")) eligible
        else if negb (bool_decide (channel ∈ known)) && negb (bool_decide (channel ∈ eligible)) then
          plan_refused (Str "CHANNEL_NOT_ELIGIBLE") eligible
        else
          plan_ok channel eligible
            (ledger_json [channel] (if bool_decide (channel ∈ known) then known else known ++ [channel])
               (retried_outcomes channel outcomes))
    end.

(** A user's new webhook: the channel is required and owed again. *)
Definition requeueWebhookChannel (stored : jsval) : option jsval :=
  let l := parseDeliveryLedger stored in
  if ledger_legacy l then Some (Arr (map Str (dedup (ledger_retry l ++ ["webhooks"%string])))) else
  let outcome := lookup_field "webhooks" (ledger_outcomes l) in
  if truthy outcome && (is_text "sent" (get "state" outcome) || isEligibilityOutcome outcome) then None else
  let required := dedup (known_channels l ++ ["webhooks"%string]) in
  let retry := dedup (ledger_retry l ++ ["webhooks"%string]) in
  let outcomes :=
    if truthy outcome && (is_true (get "terminal" outcome) || is_text "blocked" (get "state" outcome)
                          || is_text "partial" (get "state" outcome))
    then assoc_set "webhooks" (Obj (assoc_set "retryGeneration" (Num (Fin (webhookRetryGeneration outcome + 1)))
           (reopened_outcome outcome))) (ledger_outcomes l)
    else ledger_outcomes l in
  Some (ledger_json retry required outcomes).

(** The bulk requeue's CASE expression over the stored column.  [->>]: the
    text of a value, NULL for null and absent. *)
Definition json_text (v : jsval) : option string :=
  match v with
  | Undef | Null => None
  | Str s => Some s
  | _ => Some (JSON_stringify v)
  end.
(** [^[0-9]{1,12}([.][0-9]{1,12})?$]: the digits of the two parts. *)
Definition numeric_text (s : string) : option (string * string) :=
  let short ds := (1 <=? slen ds) && (slen ds <=? 12) && sforall is_digit ds in
  match split_on "." s with
  | [ds] => if short ds then Some (ds, EmptyString) else None
  | [ds; fs] => if short ds && short fs then Some (ds, fs) else None
  | _ => None
  end.
Definition sql_retryGeneration (outcome : jsval) : Z :=
  let reopened := if bool_decide (json_text (get "reopened" outcome) = Some "true"%string) then 1 else 0 in
  match json_text (get "retryGeneration" outcome) ≫= numeric_text with
  | Some (ds, fs) =>
      if (0 <? decimal ds) || (0 <? decimal fs) then decimal ds else reopened
  | None => reopened
  end.
Definition bulkRequeueWebhookSql (channels : jsval) : jsval :=
  let outcomes := get "outcomes" channels in
  let webhooks := get "webhooks" outcomes in
  let text k := json_text (get k webhooks) in
  if isPlainObject channels && bool_decide (json_text (get "version" channels) = Some "1"%string)
     && isPlainObject webhooks
     && negb (bool_decide (text "state"%string = Some "sent"%string))
     && negb (bool_decide (text "reason"%string = Some "eligibility"%string))
     && (bool_decide (text "terminal"%string = Some "true"%string)
         || bool_decide (text "state"%string = Some "blocked"%string)
         || bool_decide (text "state"%string = Some "partial"%string))
  then
    let retry :=
      match get "retry" channels with
      | Arr l => if existsb (is_text "webhooks") l then Arr l else Arr (l ++ [Str "webhooks"])
      | _ => Arr [Str "webhooks"]
      end in
    let reopened := spread (assoc_remove "reopened" (own_entries webhooks))
      [("state", Str "failed"); ("terminal", Bool false); ("reason", Str "provider");
       ("retryGeneration", Num (Fin (sql_retryGeneration webhooks + 1)))] in
    Obj (assoc_set "outcomes" (Obj (assoc_set "webhooks" (Obj reopened) (own_entries outcomes)))
           (assoc_set "retry" retry (own_entries channels)))
  else channels.

(** * Names of the channels of a stored value *)

(** [null]: not a value a settlement may be made of. *)
Definition channelNamesForSettlement (stored : jsval) : option (list string) :=
  let known name := bool_decide (name ∈ ["email"; "webhooks"; "whatsapp"]%string) in
  parsed ← match stored with Str s => JSON_parse s | _ => Some stored end;
  match parsed with
  | Arr l => let names := map js_String l in if forallb known names then Some names else None
  | Obj _ => if version_1 parsed then Some (List.filter known (known_channels (parseDeliveryLedger parsed))) else None
  | _ => None
  end.
(** notificationDeliveryState.js, [channels]. *)
Definition state_channels (value : jsval) : option (list string) :=
  parsed ← strict_parseDeliveryLedger value;
  names ← channelNamesForSettlement value;
  Some (dedup (names ++ ledger_retry parsed ++ (ledger_outcomes parsed).*1)).
(** The channels an API answer shows, with their states. *)
Definition publicDeliveryChannels (stored : jsval) : list (string * jsval) :=
  let l := parseDeliveryLedger stored in
  if ledger_legacy l then map (λ channel, (channel, Null)) (ledger_retry l)
  else map (λ channel, (channel, js_or (get "state" (lookup_field channel (ledger_outcomes l))) (Str "pending")))
         (known_channels l).

(** * Merging an attempt and the delivery log *)

Record log_row := mkLogRow { dl_channel : string; dl_status : string; dl_error : jsval; dl_metadata : jsval }.
Record attempt := mkAttempt {
  a_channel : string; a_success : bool; a_errorMessage : jsval; a_errorCode : jsval;
  a_eligibilityTerminal : bool; a_terminal : bool; a_partialSuccess : bool;
  a_endpoints : jsval; a_recipients : jsval; a_currentRecipients : jsval }.

Definition metadataObject (value : jsval) : jsval :=
  if negb (truthy value) then Obj [] else
  match value with
  | Str s => match JSON_parse s with Some v => if is_object v then v else Obj [] | None => Obj [] end
  | _ => if is_object value then value else Obj []
  end.
Definition set_fields (new : fields) (v : jsval) : jsval := Obj (spread (own_entries v) new).

(** The endpoints whose failure is final in the current retry generation. *)
Definition permanent_hash (generation : Z) (row : log_row) : option string :=
  if negb (bool_decide (dl_channel row = "webhooks"%string)) || negb (bool_decide (dl_status row = "failed"%string)) then None
  else
  let meta := metadataObject (dl_metadata row) in
  if negb (is_true (get "terminal" meta) || is_text "true" (get "terminal" meta)) then None else
  logged ← Number_finite (js_or (get "retryGeneration" meta) (Num (Fin 0)));
  if logged <? generation then None else
  let hash := trim (js_String (js_or (get "urlHash" meta) (Str EmptyString))) in
  if bool_decide (hash = EmptyString) then None else Some hash.
Definition webhookPermanentHashes (logRows : list log_row) (stored : jsval) : list string :=
  omap (permanent_hash (webhookRetryGenerationFromStored stored)) logRows.

Definition fresh_outcome : jsval := Obj [("state", Str "failed"); ("terminal", Bool false); ("endpoints", Obj [])].
(** The state of a channel whose endpoints are known. *)
Definition endpoint_state (values : list jsval) : string * bool :=
  if existsb (is_text "failed") values then ("failed"%string, false)
  else if forallb (is_text "sent") values then ("sent"%string, true)
  else if existsb (is_text "sent") values then ("partial"%string, true)
  else ("blocked"%string, true).
Definition fold_endpoint (row : log_row) (meta : jsval) (endpoint : string) (current : jsval) : jsval :=
  let outcome :=
    if bool_decide (dl_status row = "success"%string) then "sent"%string
    else if bool_decide (dl_status row = "blocked"%string) || is_true (get "terminal" meta)
            || is_text "true" (get "terminal" meta) then "permanent"%string
    else "failed"%string in
  let endpoints := assoc_set endpoint (Str outcome) (own_entries (get "endpoints" current)) in
  let '(state, terminal) := endpoint_state endpoints.*2 in
  set_fields [("endpoints", Obj endpoints); ("state", Str state); ("terminal", Bool terminal); ("reason", Str "provider")]
    current.
Definition log_recipient_state (row : log_row) (code : jsval) : jsval :=
  if bool_decide (dl_status row = "success"%string) then Obj [("state", Str "sent")]
  else if is_text TEMPORARY_VERIFICATION_CODE code then Obj [("state", Str "unavailable"); ("code", code)]
  else if eligibility_code code then Obj [("state", Str "excluded"); ("code", code)]
  else if bool_decide (dl_status row = "blocked"%string) then
    Obj [("state", Str "blocked"); ("code", code); ("terminal", Bool true)]
  else Obj [("state", Str "failed"); ("code", code)].
Definition fold_recipient (row : log_row) (code : jsval) (key : string) (current : jsval) : jsval :=
  let recipients := assoc_set key (log_recipient_state row code) (own_entries (get "recipients" current)) in
  set_fields (own_entries (recipientChannelOutcome (Obj recipients) Undef)) (set_fields [("recipients", Obj recipients)] current).
(** A row that names neither an endpoint nor a recipient. *)
Definition fold_channel_row (row : log_row) (current : jsval) : jsval :=
  if bool_decide (dl_status row = "success"%string) then
    set_fields [("state", Str "sent"); ("terminal", Bool true)] current
  else if bool_decide (dl_status row = "blocked"%string) then
    if is_text "sent" (get "state" current) then current else
    let code := js_or (dl_error row) (js_or (get "code" current) Null) in
    set_fields [("state", Str "blocked"); ("terminal", Bool true); ("code", code);
                ("reason", Str (if eligibility_code code then "eligibility" else "provider"))] current
  else if negb (is_text "sent" (get "state" current))
          && negb (is_text "blocked" (get "state" current) && is_text "eligibility" (get "reason" current)) then
    set_fields [("state", Str "failed"); ("terminal", Bool false); ("code", js_or (dl_error row) Null)] current
  else current.

Definition fold_log_row (outcomes : fields) (row : log_row) : fields :=
  let channel := dl_channel row in
  if bool_decide (channel = EmptyString) || negb (safeDeliveryKey channel) then outcomes else
  let current := js_or (lookup_field channel outcomes) fresh_outcome in
  let meta := metadataObject (dl_metadata row) in
  let webhooks := bool_decide (channel = "webhooks"%string) in
  let pagerduty := is_text "pagerduty" (get "kind" meta) in
  let endpoint := if webhooks then (if pagerduty then get "destination_id" meta else get "urlHash" meta) else Bool false in
  if webhooks && truthy (get "event_action" meta) && negb (is_text "trigger" (get "event_action" meta)) then outcomes
  else if webhooks && pagerduty && negb (truthy endpoint) then outcomes
  else if truthy endpoint then
    if negb (safeDeliveryKey (js_String endpoint)) then outcomes
    else assoc_set channel (fold_endpoint row meta (js_String endpoint) current) outcomes
  else if is_email_or_whatsapp channel then
    let key := recipientIdentity channel (js_or (get "recipient" meta) (get "destination" meta)) in
    let code := js_or (dl_error row) (js_or (get "code" meta) Null) in
    if bool_decide (key = EmptyString) || negb (safeDeliveryKey key) then
      if eligibility_code code && negb (truthy (get "recipients" current)) then
        assoc_set channel (Obj [("state", Str "blocked"); ("terminal", Bool true); ("reason", Str "eligibility"); ("code", code)])
          outcomes
      else outcomes
    else assoc_set channel (fold_recipient row code key current) outcomes
  else if webhooks && negb (is_nil (own_entries (get "endpoints" current))) then outcomes
  else assoc_set channel (fold_channel_row row current) outcomes.
Definition foldDeliveryLog (rows : list log_row) : fields := fold_left fold_log_row rows [].

Definition endpoints_of (v : jsval) : jsval := js_or (deliveryData v) (Obj []).
Definition outcomeFromAttempt (row : attempt) : jsval :=
  if truthy (a_recipients row) && is_email_or_whatsapp (a_channel row) then recipientChannelOutcome (a_recipients row) Undef
  else
  let eligibility := a_eligibilityTerminal row in
  let terminal := a_terminal row || eligibility in
  if a_success row then
    Obj [("state", Str "sent"); ("terminal", Bool true); ("code", Null); ("reason", Null); ("endpoints", endpoints_of (a_endpoints row))]
  else if a_partialSuccess row then
    Obj [("state", Str "partial"); ("terminal", Bool terminal); ("code", js_or (a_errorCode row) Null);
         ("reason", if eligibility then Str "eligibility" else if terminal then Str "provider" else Null);
         ("endpoints", endpoints_of (a_endpoints row))]
  else
    Obj [("state", Str (if terminal then "blocked" else "failed")); ("terminal", Bool terminal);
         ("reason", if eligibility then Str "eligibility" else if a_terminal row then Str "provider" else Null);
         ("code", js_or (a_errorCode row) Null); ("endpoints", endpoints_of (a_endpoints row))].

(** The log first: recipients are merged, anything else replaces. *)
Definition merge_logged (outcomes : fields) (kv : string * jsval) : fields :=
  let previous := lookup_field kv.1 outcomes in
  assoc_set kv.1
    (if truthy (get "recipients" kv.2)
     then recipientChannelOutcome (Obj (spread (own_entries (get "recipients" previous)) (own_entries (get "recipients" kv.2))))
            (get "currentRecipients" previous)
     else kv.2) outcomes.
Definition settled_recipients (previous : jsval) : fields :=
  map (λ kv, if match get "currentRecipients" previous with Arr l => existsb (is_text kv.1) l | _ => true end
                && (state_is "failed" kv || state_is "unavailable" kv)
             then (kv.1, Obj [("state", Str "sent")]) else kv) (own_entries (get "recipients" previous)).
Definition merge_attempt (outcomes : fields) (row : attempt) : fields :=
  let channel := a_channel row in
  if bool_decide (channel = EmptyString) || negb (safeDeliveryKey channel) then outcomes else
  let fromAttempt := outcomeFromAttempt row in
  let previous := lookup_field channel outcomes in
  let recipients := truthy (get "recipients" previous) in
  assoc_set channel
    (if truthy (get "recipients" fromAttempt) then
       recipientChannelOutcome
         (Obj (spread (own_entries (get "recipients" previous)) (own_entries (get "recipients" fromAttempt))))
         (match a_currentRecipients row with Arr _ => a_currentRecipients row | _ => get "currentRecipients" previous end)
     else if recipients && a_success row && is_email_or_whatsapp channel then
       recipientChannelOutcome (Obj (settled_recipients previous)) (get "currentRecipients" previous)
     else if recipients && negb (bool_decide (channel = "webhooks"%string)) && negb (a_success row)
             && negb (a_eligibilityTerminal row) && negb (is_text TEMPORARY_VERIFICATION_CODE (a_errorCode row)) then
       recipientChannelOutcome (get "recipients" previous) (get "currentRecipients" previous)
     else fromAttempt) outcomes.

Record settlement := mkSettlement {
  s_retry : list string; s_required : list string; s_outcomes : fields;
  s_results : list channel_result; s_outcome : queue_outcome }.
Definition settlement_json (s : settlement) : jsval := ledger_json (s_retry s) (s_required s) (s_outcomes s).
(** [Object.keys] of the merged outcomes stands for channels that are not
    configured. *)
Definition merged_outcomes (prior : jsval) (logRows : list log_row) (attempted : list attempt) : fields :=
  let l := parseDeliveryLedger prior in
  let outcomes := fold_left merge_logged (foldDeliveryLog logRows) (ledger_outcomes l) in
  let outcomes := fold_left merge_attempt attempted outcomes in
  let generation := webhookRetryGeneration (lookup_field "webhooks" (ledger_outcomes l)) in
  let webhooks := lookup_field "webhooks" outcomes in
  if negb (generation =? 0) && truthy webhooks then
    assoc_set "webhooks" (Obj (assoc_remove "reopened"
      (assoc_set "retryGeneration" (Num (Fin generation)) (own_entries webhooks)))) outcomes
  else outcomes.
Definition mergeDeliveryAttempt (prior : jsval) (logRows : list log_row) (attempted : list attempt) (liveChannels : jsval)
  : settlement :=
  let outcomes := merged_outcomes prior logRows attempted in
  let required := match deliveryChannelNames liveChannels with [] => outcomes.*1 | configured => configured end in
  let results := map (λ channel, resultFromOutcome channel (lookup_field channel outcomes)) required in
  let disposition := queueDeliveryOutcome results false false in
  mkSettlement (o_channels disposition) required
    (fold_left (λ stored channel, if truthy (lookup_field channel outcomes)
                                  then assoc_set channel (lookup_field channel outcomes) stored else stored) required [])
    results disposition.

(** * Lemmas *)

Lemma deliveryData_obj fs :
  deliveryData (Obj fs) = Obj (map_vals deliveryData (List.filter (λ kv, safeDeliveryKey kv.1) fs)).
Proof.
  cbn [deliveryData]. apply (f_equal Obj). induction fs as [|[k x] fs IH]; [done|]. cbn [List.filter fst].
  destruct (safeDeliveryKey k); [by rewrite IH|done].
Qed.
Lemma filter_map_vals {A B} (f : A → B) (p : string → bool) fs :
  List.filter (λ kv, p kv.1) (map_vals f fs) = map_vals f (List.filter (λ kv, p kv.1) fs).
Proof.
  unfold map_vals. induction fs as [|[k x] fs IH]; [done|]. cbn [map List.filter fst]. destruct (p k); [|done].
  cbn [map fst snd]. by rewrite IH.
Qed.
Lemma deliveryData_idem v : deliveryData (deliveryData v) = deliveryData v.
Proof.
  induction v as [| | | | |l IH|fs IH] using jsval_ind'; try done.
  - cbn [deliveryData]. rewrite map_map. f_equal. apply map_ext_Forall, IH.
  - rewrite !deliveryData_obj, filter_map_vals, lfilter_idem, map_vals_compose. f_equal. apply map_vals_ext.
    rewrite Forall_forall in *. intros kv [H _]%elem_of_lfilter. by apply IH.
Qed.
Lemma assoc_get_safe k (fs : fields) :
  assoc_get k (List.filter (λ kv, safeDeliveryKey kv.1) fs) = if safeDeliveryKey k then assoc_get k fs else None.
Proof.
  induction fs as [|[k' v] fs IH]; cbn; [by destruct (safeDeliveryKey k)|].
  destruct (safeDeliveryKey k') eqn:E; cbn; rewrite IH; repeat case_decide; subst; try done; by rewrite E.
Qed.
(** What an outcome's fields say survives the copy. *)
Lemma get_deliveryData k v : safeDeliveryKey k = true → get k (deliveryData v) = deliveryData (get k v).
Proof.
  intros Hk. destruct v; try done. rewrite deliveryData_obj. cbn [get].
  rewrite assoc_get_map_vals, assoc_get_safe, Hk. by destruct (assoc_get k fs).
Qed.
Lemma truthy_deliveryData v : truthy (deliveryData v) = truthy v.
Proof. by destruct v. Qed.
Lemma is_text_deliveryData s v : is_text s (deliveryData v) = is_text s v.
Proof. by destruct v. Qed.
Lemma is_true_deliveryData v : is_true (deliveryData v) = is_true v.
Proof. by destruct v. Qed.
Lemma still_owed_deliveryData o : still_owed (deliveryData o) = still_owed o.
Proof.
  unfold still_owed. by rewrite truthy_deliveryData, !get_deliveryData, !is_text_deliveryData, is_true_deliveryData.
Qed.

Lemma channel_names l : deliveryChannelNames (Arr (map Str l)) = List.filter kept_name l.
Proof. cbn [deliveryChannelNames]. rewrite map_map. cbn. by rewrite map_id. Qed.
Lemma name_kept v c : c ∈ deliveryChannelNames v → kept_name c = true.
Proof. unfold deliveryChannelNames. destruct v; try (by intros []%elem_of_nil). by intros [_ H]%elem_of_lfilter. Qed.
Lemma parse_ledger_json retry required outcomes :
  parseDeliveryLedger (ledger_json retry required outcomes) =
  mkLedger 1 (List.filter kept_name retry) (List.filter kept_name required)
    (map_vals deliveryData (List.filter (λ kv, safeDeliveryKey kv.1) outcomes)) false.
Proof.
  rewrite <- (channel_names retry), <- (channel_names required).
  change (parseDeliveryLedger (ledger_json retry required outcomes)) with
    (mkLedger 1 (deliveryChannelNames (Arr (map Str retry))) (deliveryChannelNames (Arr (map Str required)))
       (own_entries (deliveryData (Obj outcomes))) false). by rewrite deliveryData_obj.
Qed.
Lemma lookup_map_vals k (fs : fields) : lookup_field k (map_vals deliveryData fs) = deliveryData (lookup_field k fs).
Proof. unfold lookup_field. rewrite assoc_get_map_vals. by destruct (assoc_get k fs). Qed.
Lemma kept_safe c : kept_name c = true → safeDeliveryKey c = true.
Proof. unfold kept_name. by intros [_ H]%andb_prop. Qed.
Lemma lookup_parsed k (fs : fields) : safeDeliveryKey k = true →
  lookup_field k (map_vals deliveryData (List.filter (λ kv, safeDeliveryKey kv.1) fs)) = deliveryData (lookup_field k fs).
Proof. intros Hk. rewrite lookup_map_vals. f_equal. unfold lookup_field. by rewrite assoc_get_safe, Hk. Qed.

Lemma lookup_set k k' v (fs : fields) : lookup_field k (assoc_set k' v fs) = if decide (k = k') then v else lookup_field k fs.
Proof.
  unfold lookup_field. case_decide; subst; [by rewrite assoc_get_set_eq|by rewrite assoc_get_set_ne].
Qed.
Lemma lookup_remove k k' (fs : fields) : lookup_field k (assoc_remove k' fs) = if decide (k = k') then Undef else lookup_field k fs.
Proof.
  unfold lookup_field. case_decide; subst; [by rewrite assoc_remove_get_eq|by rewrite assoc_remove_get_ne].
Qed.
Lemma get_obj k fs : get k (Obj fs) = lookup_field k fs.
Proof. done. Qed.
(** * Nothing delivered is owed *)

Definition owes_soundly (v : jsval) : Prop :=
  ledger_legacy (parseDeliveryLedger v) = false →
  ∀ c, c ∈ ledger_retry (parseDeliveryLedger v) →
    still_owed (lookup_field c (ledger_outcomes (parseDeliveryLedger v))) = true.

Lemma owes_json retry required outcomes :
  (∀ c, c ∈ retry → still_owed (lookup_field c outcomes) = true) → owes_soundly (ledger_json retry required outcomes).
Proof.
  intros H. unfold owes_soundly. rewrite parse_ledger_json. cbn [ledger_retry ledger_outcomes ledger_legacy]. intros _ c [Hc Hk]%elem_of_lfilter.
  rewrite lookup_parsed by (by apply kept_safe). rewrite still_owed_deliveryData. by apply H.
Qed.
Lemma owes_array l : owes_soundly (Arr l).
Proof. done. Qed.

Lemma reconcile_owes stored c : owes_soundly (rc_channels (reconcileDeliveryChannels stored c)).
Proof.
  unfold reconcileDeliveryChannels. cbv zeta. destruct (ledger_legacy _); [by destruct stored|].
  apply owes_json. by intros x [_ H]%elem_of_lfilter.
Qed.

Lemma owed_fields fs : lookup_field "state" fs = Str "failed" → lookup_field "terminal" fs = Bool false →
  still_owed (Obj fs) = true.
Proof. intros H1 H2. unfold still_owed. rewrite !get_obj, H1, H2. by apply orb_true_r. Qed.
Ltac lookup_fields := unfold reopened_outcome, spread; cbn [fold_left fst snd];
  repeat (rewrite lookup_remove || rewrite lookup_set); repeat case_decide; done.
Lemma retried_owed channel outcomes :
  let outcome := lookup_field channel outcomes in
  truthy outcome && is_text "sent" (get "state" outcome) = false →
  isEligibilityOutcome outcome && negb (canRecheckRecipientOutcome channel outcome) = false →
  still_owed (lookup_field channel (retried_outcomes channel outcomes)) = true.
Proof.
  intros outcome Hs He. unfold retried_outcomes. cbv zeta. fold outcome.
  destruct (canRecheckRecipientOutcome channel outcome) eqn:Er; [by rewrite lookup_remove, decide_True|].
  rewrite andb_true_r in He. destruct (providerTerminalOutcome outcome) eqn:Ep.
  - rewrite lookup_set, decide_True by done. case_bool_decide; apply owed_fields; lookup_fields.
  - fold outcome. unfold still_owed. destruct (truthy outcome) eqn:Et; [|done]. cbn in Hs.
    unfold providerTerminalOutcome in Ep. rewrite Et, Hs, He in Ep. cbn in Ep. apply orb_false_elim in Ep as [-> ->].
    by rewrite Hs.
Qed.
Lemma plan_owes stored r channel eligible v : planManualRetry stored r = plan_ok channel eligible v → owes_soundly v.
Proof.
  unfold planManualRetry. cbv zeta. destruct (ledger_legacy _).
  - destruct (chosen_channel _ _); [|done]. case_bool_decide; [|done]. by intros [= <- <- <-].
  - destruct (chosen_channel _ _) as [ch|]; [|by destruct (1 <? _); [|destruct (List.filter _ _)]].
    destruct (truthy _ && is_text "sent" _) eqn:Es; [done|].
    destruct (isEligibilityOutcome _ && _) eqn:Ee; [done|].
    destruct (negb _ && negb _); [done|]. intros [= <- <- <-]. apply owes_json.
    intros c ->%list_elem_of_singleton. by apply retried_owed.
Qed.

Lemma result_owed c o : result_retryable (resultFromOutcome c o) = true → still_owed o = true.
Proof.
  unfold resultFromOutcome, still_owed. destruct (truthy o); cbn [negb orb]; [|done].
  destruct (is_text "sent" _); [done|]. cbv zeta.
  destruct (is_text "partial" (get "state" o)) eqn:Epart;
    destruct (truthy (get "terminal" o)) eqn:Et, (is_text "blocked" (get "state" o)) eqn:Eb; cbn [orb andb negb]; intros H;
    try (by destruct (isEligibilityOutcome o)); by destruct (get "terminal" o) as [| |[]| | | |].
Qed.
Lemma disposition_channels results : d_channels (deliveryDisposition results) =
  (if d_retry (deliveryDisposition results) then map r_channel (List.filter result_retryable results) else []).
Proof.
  unfold deliveryDisposition. cbv zeta. by destruct (List.filter (λ row, negb (r_success row)) results),
    (List.filter result_retryable results).
Qed.
Lemma result_channel c o : r_channel (resultFromOutcome c o) = c.
Proof.
  unfold resultFromOutcome. destruct (negb _); [done|]. destruct (is_text "sent" _); [done|]. cbv zeta.
  destruct (is_text "partial" _); [done|]. by destruct (_ || _).
Qed.
Lemma stored_lookup c outcomes required :
  still_owed (lookup_field c (fold_left (λ stored channel, if truthy (lookup_field channel outcomes)
    then assoc_set channel (lookup_field channel outcomes) stored else stored) required [])) = false →
  still_owed (lookup_field c outcomes) = false.
Proof.
  assert (Hg : ∀ l acc, (lookup_field c acc = Undef ∨ lookup_field c acc = lookup_field c outcomes) →
    let r := lookup_field c (fold_left (λ stored channel, if truthy (lookup_field channel outcomes)
      then assoc_set channel (lookup_field channel outcomes) stored else stored) l acc) in
    r = Undef ∨ r = lookup_field c outcomes).
  { induction l as [|x l IH]; intros acc H; [done|]. cbn. apply IH. destruct (truthy _); [|done].
    rewrite lookup_set. case_decide; subst; [by right|done]. }
  destruct (Hg required []) as [-> | ->]; [by left|done|done].
Qed.
Lemma merge_owes prior rows attempted live : owes_soundly (settlement_json (mergeDeliveryAttempt prior rows attempted live)).
Proof.
  apply owes_json. cbn -[queueDeliveryOutcome merged_outcomes]. intros c.
  set (outcomes := merged_outcomes prior rows attempted). set (required := match _ with [] => _ | _ => _ end).
  intros Hc. apply not_false_iff_true. intros E. apply stored_lookup in E. revert Hc E.
  unfold queueDeliveryOutcome. cbn [o_channels orb negb andb]. destruct (_ && _ && _); [|by intros []%elem_of_nil].
  rewrite disposition_channels. destruct (d_retry _); [|by intros []%elem_of_nil].
  change (map ?f ?l) with (f <$> l). intros (row & -> & [Hrow Hr]%elem_of_lfilter)%list_elem_of_fmap.
  apply list_elem_of_fmap in Hrow as (c' & -> & _). rewrite result_channel. apply result_owed in Hr. congruence.
Qed.
Lemma requeue_owes stored v : owes_soundly stored → requeueWebhookChannel stored = Some v → owes_soundly v.
Proof.
  unfold requeueWebhookChannel, owes_soundly at 1. cbv zeta. set (l := parseDeliveryLedger stored).
  destruct (ledger_legacy l) eqn:El; [by intros _ [= <-]|]. intros Hs. set (o := lookup_field "webhooks" (ledger_outcomes l)).
  destruct (truthy o && (is_text "sent" _ || _)) eqn:Eo; [done|]. intros H. injection H as <-. apply owes_json. intros c.
  rewrite dedup_elem, elem_of_app, list_elem_of_singleton. intros Hc.
  destruct (truthy o && (is_true _ || _ || _)) eqn:Er.
  - rewrite lookup_set. case_decide; [|naive_solver]. apply owed_fields; lookup_fields.
  - destruct (decide (c = "webhooks"%string)) as [->|Hne]; [|naive_solver]. fold o. unfold still_owed.
    destruct (truthy o); [|done]. cbn in Eo, Er. apply orb_false_elim in Er as [[-> ->]%orb_false_elim _].
    by apply orb_false_elim in Eo as [-> _].
Qed.

Lemma version_1_text v : json_text v = Some "1"%string → Number_finite v = Some 1.
Proof.
  destruct v as [| |b|n|s|l|fs]; try done.
  - destruct b; done.
  - cbn. destruct n as [z| |neg]; try done. intros H. apply (inj Some) in H.
    assert (JSON_parse (print_Z z) = Some (Num (Fin z))) as E by (apply JSON_parse_reads, reads_num).
    rewrite H in E. by vm_compute in E; injection E as <-.
  - cbn. by intros [= ->].
Qed.
(** A ledger object is read field by field. *)
Lemma parse_obj fs : Number_finite (get "version" (Obj fs)) = Some 1 →
  parseDeliveryLedger (Obj fs) = mkLedger 1 (deliveryChannelNames (get "retry" (Obj fs)))
    (deliveryChannelNames (get "required" (Obj fs))) (own_entries (deliveryData (get "outcomes" (Obj fs)))) false.
Proof. intros H. unfold parseDeliveryLedger, version_1. by rewrite H. Qed.
Lemma lookup_outcomes c v : safeDeliveryKey c = true → isPlainObject v = true →
  lookup_field c (own_entries (deliveryData v)) = deliveryData (get c v).
Proof. intros Hc. destruct v; try done. intros _. by rewrite <- get_deliveryData, deliveryData_obj. Qed.
Lemma bulk_owes v : owes_soundly v → owes_soundly (bulkRequeueWebhookSql v).
Proof.
  unfold bulkRequeueWebhookSql. cbv zeta. match goal with |- context [if ?b then _ else _] => destruct b eqn:Eb end; [|done].
  repeat (apply andb_prop in Eb as [Eb ?]). destruct v as [| | | | | |fs]; try done. split_bool.
  assert (Hv : Number_finite (get "version" (Obj fs)) = Some 1) by (by apply version_1_text).
  assert (Ho : isPlainObject (get "outcomes" (Obj fs)) = true).
  { destruct (get "outcomes" (Obj fs)); done. }
  unfold owes_soundly. rewrite (parse_obj fs Hv). cbn [ledger_legacy ledger_retry ledger_outcomes own_entries]. intros Hs _ c.
  rewrite parse_obj by (rewrite get_obj, !lookup_set, !decide_False by done; exact Hv).
  cbn [ledger_retry ledger_outcomes]. rewrite !get_obj, !lookup_set, (decide_True (P := "outcomes"%string = _)) by done.
  rewrite (decide_False (P := "retry"%string = "outcomes"%string)) by done. rewrite decide_True by done.
  intros Hc. pose proof (kept_safe c (name_kept _ c Hc)) as Hsafe.
  rewrite lookup_outcomes by done. rewrite still_owed_deliveryData, get_obj, lookup_set.
  destruct (decide (c = "webhooks"%string)) as [->|Hne]; [apply owed_fields; lookup_fields|].
  assert (c ∈ deliveryChannelNames (get "retry" (Obj fs))) as Hin.
  { revert Hc. clear -Hne. rewrite <- get_obj. destruct (get "retry" (Obj fs)) as [| | | | |l|];
      try (intros [->%list_elem_of_singleton _]%elem_of_lfilter; done).
    destruct (existsb _ _); [done|]. cbn [deliveryChannelNames]. rewrite map_app, !elem_of_lfilter, elem_of_app.
    cbn. rewrite list_elem_of_singleton. naive_solver. }
  specialize (Hs eq_refl c Hin). rewrite lookup_outcomes, still_owed_deliveryData in Hs by done.
  revert Hs Ho. rewrite (get_obj "outcomes"). destruct (lookup_field "outcomes" fs); done.
Qed.

(** * Reconciling twice *)

Lemma reconcile_parse retry live (outcomes : fields) :
  Forall (λ c, kept_name c = true) live → retry `sublist_of` live →
  Forall (λ kv, safeDeliveryKey kv.1 = true ∧ deliveryData kv.2 = kv.2) outcomes →
  parseDeliveryLedger (ledger_json retry live outcomes) = mkLedger 1 retry live outcomes false.
Proof.
  intros Hl Hr Ho. rewrite parse_ledger_json. f_equal.
  - apply lfilter_all. rewrite Forall_forall in *. intros c Hc. apply Hl. by eapply elem_of_sublist.
  - by apply lfilter_all.
  - rewrite lfilter_all by (eapply Forall_impl; [exact Ho|naive_solver]). clear -Ho.
    induction Ho as [|[k v] fs [_ H] _ IH]; [done|]. cbn [snd] in H.
    change (map_vals deliveryData ((k, v) :: fs)) with ((k, deliveryData v) :: map_vals deliveryData fs).
    by rewrite H, IH.
Qed.
Lemma own_entries_fixed v : Forall (λ kv, deliveryData kv.2 = kv.2) (own_entries (deliveryData v)).
Proof.
  rewrite Forall_forall. destruct v as [| | | | |l|fs]; try (intros ? []%elem_of_nil).
  - cbn [deliveryData own_entries]. intros kv (i & x & -> & Hx)%elem_of_lookup_imap. cbn.
    change (map deliveryData l) with (deliveryData <$> l) in Hx. rewrite list_lookup_fmap in Hx.
    apply fmap_Some in Hx as (y & _ & ->). apply deliveryData_idem.
  - rewrite deliveryData_obj. cbn [own_entries]. unfold map_vals. change (map ?f ?l) with (f <$> l).
    intros kv (y & -> & _)%list_elem_of_fmap. apply deliveryData_idem.
Qed.
Lemma parsed_fixed stored : Forall (λ kv, deliveryData kv.2 = kv.2) (ledger_outcomes (parseDeliveryLedger stored)).
Proof.
  unfold parseDeliveryLedger. cbv zeta. destruct (match stored with Str _ => _ | _ => _ end); try constructor.
  destruct (version_1 _); [apply own_entries_fixed|constructor].
Qed.

Lemma outcomes_fold live O acc c :
  assoc_get c (fold_left (add_outcome O) live acc) =
  if decide (c ∈ live) then match assoc_get c O with Some o => Some o | None => assoc_get c acc end else assoc_get c acc.
Proof.
  revert acc. induction live as [|x live IH]; intros acc; [by rewrite decide_False by apply not_elem_of_nil|].
  cbn [fold_left]. rewrite IH. unfold add_outcome.
  destruct (decide (c = x)) as [->|Hne].
  - rewrite (decide_True (P := x ∈ x :: live)) by (by left).
    destruct (assoc_get x O) eqn:E; case_decide; try done. by rewrite assoc_get_set_eq.
  - replace (if decide (c ∈ x :: live) then _ else _) with
      (if decide (c ∈ live) then match assoc_get c O with Some o => Some o | None => assoc_get c acc end else assoc_get c acc)
      by (repeat case_decide; set_solver).
    destruct (assoc_get x O); [by rewrite assoc_get_set_ne|done].
Qed.
Lemma outcomes_get live O c : assoc_get c (outcomes_of live O) = if decide (c ∈ live) then assoc_get c O else None.
Proof. unfold outcomes_of. rewrite outcomes_fold. case_decide; [|done]. by destruct (assoc_get c O). Qed.
Lemma outcomes_again live O : outcomes_of live (outcomes_of live O) = outcomes_of live O.
Proof.
  unfold outcomes_of at 1 3.
  assert (Hg : ∀ l acc, l ⊆ live → fold_left (add_outcome (outcomes_of live O)) l acc = fold_left (add_outcome O) l acc).
  { induction l as [|x l IH]; intros acc Hl; [done|]. cbn. rewrite IH by set_solver. unfold add_outcome at 2 4.
    rewrite outcomes_get, decide_True by set_solver. done. }
  by apply Hg.
Qed.
Lemma outcomes_of_safe live O :
  Forall (λ c, kept_name c = true) live → Forall (λ kv, deliveryData kv.2 = kv.2) O →
  Forall (λ kv, safeDeliveryKey kv.1 = true ∧ deliveryData kv.2 = kv.2) (outcomes_of live O).
Proof.
  intros Hl HO. unfold outcomes_of.
  assert (Hg : ∀ l acc, Forall (λ c, kept_name c = true) l →
    Forall (λ kv, safeDeliveryKey kv.1 = true ∧ deliveryData kv.2 = kv.2) acc →
    Forall (λ kv, safeDeliveryKey kv.1 = true ∧ deliveryData kv.2 = kv.2) (fold_left (add_outcome O) l acc)).
  { induction l as [|x l IH]; intros acc Hk Ha; [done|]. apply Forall_cons in Hk as [Hx Hk]. cbn. apply IH; [done|].
    unfold add_outcome. destruct (assoc_get x O) as [o|] eqn:E; [|done]. apply assoc_get_In in E.
    rewrite Forall_forall in *. specialize (HO _ E). intros kv [->|Hin]%assoc_set_In; [|by apply Ha].
    by split; [apply kept_safe|]. }
  by apply Hg.
Qed.


Definition legacy_next (storedList live : list string) : list string :=
  match storedList with
  | [] => live
  | _ => match List.filter (λ channel, bool_decide (channel ∈ storedList)) live with [] => storedList | next => next end
  end.
Lemma legacy_again S live : legacy_next (legacy_next S live) live = legacy_next S live.
Proof.
  destruct S as [|s S].
  - cbn. destruct live as [|c live]; [done|]. unfold legacy_next.
    rewrite (lfilter_all _ (c :: live)); [done|]. rewrite Forall_forall. intros x Hx. by rewrite bool_decide_eq_true.
  - unfold legacy_next at 2 3. destruct (List.filter (λ channel, bool_decide (channel ∈ s :: S)) live) as [|c F] eqn:E.
    { unfold legacy_next. by rewrite E. }
    unfold legacy_next.
    assert (List.filter (λ channel, bool_decide (channel ∈ c :: F)) live =
            List.filter (λ channel, bool_decide (channel ∈ s :: S)) live) as ->; [|by rewrite E].
    apply List.filter_ext_in. intros x Hx%list_elem_of_In. apply bool_decide_ext.
    rewrite <- E, elem_of_lfilter, bool_decide_eq_true. naive_solver.
Qed.
Lemma same_list l : sameStringList l l = true.
Proof. unfold sameStringList. by rewrite bool_decide_eq_true. Qed.
Lemma legacy_next_kept S live :
  Forall (λ c, kept_name c = true) S → Forall (λ c, kept_name c = true) live →
  Forall (λ c, kept_name c = true) (legacy_next S live).
Proof.
  intros HS Hl. unfold legacy_next. destruct S as [|s S]; [done|].
  destruct (List.filter _ live) as [|c F] eqn:E; [done|]. rewrite <- E. rewrite Forall_forall in *.
  intros x [Hx _]%elem_of_lfilter. by apply Hl.
Qed.
Lemma legacy_kept stored : ledger_legacy (parseDeliveryLedger stored) = true →
  Forall (λ c, kept_name c = true) (ledger_retry (parseDeliveryLedger stored)).
Proof.
  intros _. rewrite Forall_forall. unfold parseDeliveryLedger. cbv zeta.
  destruct (match stored with Str _ => _ | _ => _ end); cbn [ledger_retry legacy_ledger]; try (intros ? []%elem_of_nil).
  - intros c. apply name_kept.
  - destruct (version_1 _); cbn [ledger_retry legacy_ledger]; [intros c; apply name_kept|intros ? []%elem_of_nil].
Qed.
(** Reconciling what a reconciliation stored. *)
Lemma reconcile_array next live : Forall (λ c, kept_name c = true) next → legacy_next next (deliveryChannelNames live) = next →
  reconcileDeliveryChannels (Arr (map Str next)) live = mkReconciled (Arr (map Str next)) false.
Proof.
  intros Hk Hn. unfold reconcileDeliveryChannels.
  change (parseDeliveryLedger (Arr (map Str next))) with (legacy_ledger (deliveryChannelNames (Arr (map Str next)))).
  rewrite channel_names, lfilter_all by done. cbn [ledger_legacy ledger_retry legacy_ledger]. fold (legacy_next next (deliveryChannelNames live)).
  by rewrite Hn, same_list.
Qed.
Lemma names_all v : Forall (λ c, kept_name c = true) (deliveryChannelNames v).
Proof. rewrite Forall_forall. intros c. apply name_kept. Qed.

(** Reconciling is idempotent.  What discovery stores for the channels
    configured now is left alone by the next discovery run, which therefore
    writes nothing, as long as the configuration does not change. *)
Theorem reconcile_idempotent (stored configured : jsval) :
  reconcileDeliveryChannels (rc_channels (reconcileDeliveryChannels stored configured)) configured =
  mkReconciled (rc_channels (reconcileDeliveryChannels stored configured)) false.
Proof.
  unfold reconcileDeliveryChannels at 2 3. cbv zeta. set (l := parseDeliveryLedger stored).
  set (live := deliveryChannelNames configured). pose proof (names_all configured) as Hlive. fold live in Hlive.
  destruct (ledger_legacy l) eqn:El.
  - fold (legacy_next (ledger_retry l) live). pose proof (legacy_kept stored El) as Hs. fold l in Hs.
    assert (Hfresh : ∀ v, v = live → reconcileDeliveryChannels (Arr (map Str v)) configured = mkReconciled (Arr (map Str v)) false).
    { intros v ->. apply reconcile_array; [done|]. fold live. apply (legacy_again [] live). }
    destruct stored; try (by apply Hfresh); apply reconcile_array; try (by apply legacy_next_kept); apply legacy_again.
  - set (outcomes := outcomes_of live (ledger_outcomes l)).
    set (retry := List.filter (λ channel, still_owed (lookup_field channel outcomes)) live). cbn [rc_channels].
    unfold reconcileDeliveryChannels. rewrite reconcile_parse;
      [|done|apply lfilter_sublist|apply outcomes_of_safe; [done|apply parsed_fixed]].
    cbn [ledger_legacy ledger_outcomes ledger_retry ledger_required]. fold live. cbv zeta.
    assert (outcomes_of live outcomes = outcomes) as Ha by apply outcomes_again. rewrite Ha. fold retry.
    by rewrite !same_list, bool_decide_eq_true_2.
Qed.

(** The values the code stores for an alert: the array discovery queues, and
    what each of the other writers makes of a stored value. *)
Inductive stored_channels : jsval → Prop :=
| stored_array names : stored_channels (Arr (map Str names))
| stored_reconciled v configured :
    stored_channels v → stored_channels (rc_channels (reconcileDeliveryChannels v configured))
| stored_retried v requested channel eligible w :
    stored_channels v → planManualRetry v requested = plan_ok channel eligible w → stored_channels w
| stored_requeued v w : stored_channels v → requeueWebhookChannel v = Some w → stored_channels w
| stored_bulk v : stored_channels v → stored_channels (bulkRequeueWebhookSql v)
| stored_settled v rows attempted live :
    stored_channels v → stored_channels (settlement_json (mergeDeliveryAttempt v rows attempted live))
| stored_blocked v rows attempted live : stored_channels v →
    stored_channels (let s := mergeDeliveryAttempt v rows attempted live in ledger_json [] (s_required s) (s_outcomes s)).

(** C25: whatever is done to an alert, no channel that was delivered, or whose
    failure is final, is ever in the retry set of its ledger. *)
Theorem delivered_never_retried (v : jsval) (c : string) :
  stored_channels v →
  let l := parseDeliveryLedger v in
  ledger_legacy l = false → c ∈ ledger_retry l → still_owed (lookup_field c (ledger_outcomes l)) = true.
Proof.
  intros Hv l Hl Hc. assert (owes_soundly v) as H; [|by apply H]. clear l Hl Hc.
  induction Hv as [names|v cfg _ _|v r ch e w _ _ H|v w _ IH H|v _ IH|v rows att live _ _|v rows att live _ _].
  - apply owes_array.
  - apply reconcile_owes.
  - by eapply plan_owes.
  - by eapply requeue_owes.
  - by apply bulk_owes.
  - apply merge_owes.
  - apply owes_json. intros x []%elem_of_nil.
Qed.

Definition ex_attempt (channel : string) (ok : bool) : attempt :=
  mkAttempt channel ok Null Null false false false Null Null Null.
(** An attempt that delivered the webhooks and not the mail. *)
Definition ex_ledger : jsval :=
  settlement_json (mergeDeliveryAttempt (Arr [Str "email"; Str "webhooks"]) []
    [ex_attempt "email" false; ex_attempt "webhooks" true] (Arr [Str "email"; Str "webhooks"])).
Lemma delivered_never_retried_witness :
  let l := parseDeliveryLedger ex_ledger in
  ledger_retry l = ["email"%string] ∧ still_owed (lookup_field "email" (ledger_outcomes l)) = true.
Proof.
  intros l. split; [vm_compute; reflexivity|].
  refine (delivered_never_retried ex_ledger "email" _ _ _); [|vm_compute; reflexivity|vm_compute; left].
  apply (stored_settled (Arr (map Str ["email"; "webhooks"]%string))). constructor.
Defined.

(** A missing outcome, or one that is neither delivered nor final. *)
Definition retryable_outcome (o : jsval) : bool :=
  negb (truthy o) ||
  negb (is_text "sent" (get "state" o)) && negb (truthy (get "terminal" o)) && negb (is_text "blocked" (get "state" o)).
Definition delivered_outcome (o : jsval) : bool := truthy o && is_text "sent" (get "state" o).
Lemma result_retryable_iff c o : result_retryable (resultFromOutcome c o) = retryable_outcome o.
Proof.
  unfold resultFromOutcome, retryable_outcome, result_retryable. destruct (truthy o); [|done]. cbn [negb orb].
  destruct (is_text "sent" _); [done|]. cbv zeta.
  destruct (is_text "partial" (get "state" o)), (truthy (get "terminal" o)), (is_text "blocked" (get "state" o)),
    (isEligibilityOutcome o); done.
Qed.
Lemma result_success_iff c o : r_success (resultFromOutcome c o) = delivered_outcome o.
Proof.
  unfold resultFromOutcome, delivered_outcome. destruct (truthy o); [|done]. cbn [negb andb].
  destruct (is_text "sent" _); [done|]. cbv zeta. destruct (is_text "partial" _); [done|]. by destruct (_ || _).
Qed.
Lemma disposition_sent results :
  d_status (deliveryDisposition results) = "sent"%string ↔ Forall (λ row, r_success row = true) results.
Proof.
  unfold deliveryDisposition. cbv zeta. rewrite Forall_forall.
  pose proof (lfilter_nil (λ row, negb (r_success row)) results) as Hnil.
  destruct (List.filter (λ row, negb (r_success row)) results) as [|row0 rows] eqn:E.
  - split; [|done]. intros _ row Hrow. apply negb_false_iff. by apply Hnil.
  - split; [by destruct (List.filter result_retryable results), (existsb (λ row, r_success row || partialSuccess row) results)|].
    intros H. exfalso. assert (row0 ∈ row0 :: rows) as Hin by left. rewrite <- E in Hin.
    apply elem_of_lfilter in Hin as [Hin Hf]. by rewrite (H _ Hin) in Hf.
Qed.
Lemma disposition_retry results :
  d_retry (deliveryDisposition results) = negb (is_nil (List.filter result_retryable results)).
Proof.
  unfold deliveryDisposition. cbv zeta.
  pose proof (lfilter_nil (λ row, negb (r_success row)) results) as Hnil.
  destruct (List.filter (λ row, negb (r_success row)) results) as [|row0 rows].
  - assert (List.filter result_retryable results = []) as ->; [|done]. apply lfilter_nil. intros row Hrow.
    unfold result_retryable. by rewrite (proj1 Hnil eq_refl row Hrow).
  - by destruct (List.filter result_retryable results).
Qed.
Lemma retry_status results : d_retry (deliveryDisposition results) = true →
  d_status (deliveryDisposition results) ≠ "sent"%string ∧ d_status (deliveryDisposition results) ≠ "blocked"%string.
Proof.
  unfold deliveryDisposition. cbv zeta.
  by destruct (List.filter (λ row, negb (r_success row)) results), (List.filter result_retryable results), (existsb (λ row, r_success row || partialSuccess row) results).
Qed.

(** Settling an attempt by its merge alone is exact.  The alert counts as sent exactly when
    every channel required of it is delivered, by the log and the attempt
    taken together, and the channels to retry are exactly the required ones
    that are neither delivered nor failed for good. *)
Theorem settlement_exact (prior : jsval) (rows : list log_row) (attempted : list attempt) (live : jsval) :
  let s := mergeDeliveryAttempt prior rows attempted live in
  let outcome c := lookup_field c (merged_outcomes prior rows attempted) in
  (o_status (s_outcome s) = "sent"%string ↔ ∀ c, c ∈ s_required s → delivered_outcome (outcome c) = true) ∧
  (∀ c, c ∈ s_retry s ↔ c ∈ s_required s ∧ retryable_outcome (outcome c) = true).
Proof.
  cbn -[queueDeliveryOutcome merged_outcomes]. set (outcomes := merged_outcomes prior rows attempted).
  set (required := match _ with [] => _ | _ => _ end). set (results := map _ required).
  assert (Hres : ∀ row, row ∈ results ↔ ∃ c, row = resultFromOutcome c (lookup_field c outcomes) ∧ c ∈ required).
  { intros row. subst results. change (map ?f ?l) with (f <$> l). by rewrite list_elem_of_fmap. }
  unfold queueDeliveryOutcome. cbn [o_status o_channels orb negb andb]. split.
  - rewrite disposition_sent, Forall_forall. setoid_rewrite Hres. split.
    + intros H c Hc. rewrite <- (result_success_iff c). apply H. by exists c.
    + intros H row (c & -> & Hc). rewrite result_success_iff. by apply H.
  - intros c. rewrite disposition_channels, disposition_retry. pose proof (retry_status results) as Hst.
    rewrite disposition_retry in Hst.
    assert (Hmap : c ∈ map r_channel (List.filter result_retryable results) ↔
                   c ∈ required ∧ retryable_outcome (lookup_field c outcomes) = true).
    { change (map r_channel ?l) with (r_channel <$> l). rewrite list_elem_of_fmap. setoid_rewrite elem_of_lfilter.
      setoid_rewrite Hres. split.
      - intros (row & -> & (c' & -> & Hc') & Hr). rewrite result_channel. by rewrite result_retryable_iff in Hr.
      - intros [Hc Hr]. exists (resultFromOutcome c (lookup_field c outcomes)). rewrite result_channel, result_retryable_iff.
        eauto. }
    rewrite <- Hmap. destruct (List.filter result_retryable results); cbn [is_nil negb andb map]; [done|].
    destruct Hst as [H1 H2]; [done|]. by rewrite !bool_decide_eq_false_2.
Qed.

(** A user's retry reopens the one channel it answers with and nothing
    else.  That channel was not delivered; it is the only one to retry; and
    every other channel keeps its outcome. *)
Theorem manual_retry_exact (stored requested : jsval) (channel : string) (eligible : list string) (v : jsval) :
  planManualRetry stored requested = plan_ok channel eligible v → ledger_legacy (parseDeliveryLedger stored) = false →
  let before c := lookup_field c (ledger_outcomes (parseDeliveryLedger stored)) in
  let after := parseDeliveryLedger v in
  delivered_outcome (before channel) = false ∧ (∀ c, c ∈ ledger_retry after → c = channel) ∧
  ∀ c, safeDeliveryKey c = true → c ≠ channel → lookup_field c (ledger_outcomes after) = before c.
Proof.
  unfold planManualRetry. cbv zeta. set (l := parseDeliveryLedger stored). intros H El. rewrite El in H.
  destruct (chosen_channel _ _) as [ch|]; [|by destruct (1 <? _); [|destruct (List.filter _ _)]].
  destruct (truthy _ && is_text "sent" _) eqn:Es; [done|].
  destruct (isEligibilityOutcome _ && _) eqn:Ee; [done|].
  destruct (negb _ && negb _); [done|]. injection H as <- <- <-. split; [done|]. rewrite parse_ledger_json.
  cbn [ledger_retry ledger_outcomes]. split; [by intros c [->%list_elem_of_singleton _]%elem_of_lfilter|].
  intros c Hc Hne. rewrite lookup_parsed by done.
  assert (Hf : deliveryData (lookup_field c (ledger_outcomes l)) = lookup_field c (ledger_outcomes l)).
  { unfold lookup_field. destruct (assoc_get c _) as [o|] eqn:E; [|done]. apply assoc_get_In in E.
    pose proof (parsed_fixed stored) as Hp. rewrite Forall_forall in Hp. by apply (Hp _ E). }
  rewrite <- Hf. f_equal. unfold retried_outcomes. cbv zeta.
  destruct (canRecheckRecipientOutcome _ _); [by rewrite lookup_remove, decide_False|].
  destruct (providerTerminalOutcome _); [by rewrite lookup_set, decide_False|done].
Qed.
Lemma manual_retry_exact_witness :
  delivered_outcome (lookup_field "email" (ledger_outcomes (parseDeliveryLedger ex_ledger))) = false ∧
  delivered_outcome (lookup_field "webhooks" (ledger_outcomes (parseDeliveryLedger ex_ledger))) = true.
Proof.
  split; [|vm_compute; reflexivity].
  eapply (manual_retry_exact ex_ledger (Str "email") "email"); vm_compute; reflexivity.
Defined.

(** What the strict reader accepts, both read alike. *)
Lemma strict_reads_alike v l : strict_parseDeliveryLedger v = Some l → parseDeliveryLedger v = l.
Proof.
  unfold strict_parseDeliveryLedger, parseDeliveryLedger.
  destruct (match v with Str s => JSON_parse s | _ => Some v end) as [w|] eqn:E; [|done]. cbn [mbind option_bind].
  assert (match v with Str s => default (Arr []) (JSON_parse s) | _ => v end = w) as ->.
  { destruct v; try (by injection E). by rewrite E. }
  destruct w as [| | | | |es|fs]; try done; [by destruct (forallb _ _); [intros [= <-]|]|]. cbv zeta.
  destruct (get "retry" (Obj fs)); try done. destruct (get "required" (Obj fs)); try done.
  destruct (get "outcomes" (Obj fs)); try done. destruct (version_1 _); [|done]. cbn [andb].
  destruct (forallb _ _); [|done]. by intros [= <-].
Qed.
(** The API's copy answers channels where the worker's answers none: a stored
    ledger of an unknown version. *)
Lemma queued_channels_diverge :
  let v := Obj [("version", Num (Fin 2)); ("retry", Arr [Str "email"])] in
  api_parseQueuedChannels v = ["email"%string] ∧ worker_parseQueuedChannels v = [].
Proof. by vm_compute. Qed.
