(* ===== verification/AlertQueue.v ===== *)
(** The alert queue: the [alert_queue] and [alert_delivery_log] tables and
    every statement that writes them.

    The delivery worker claims due alerts under a fresh claim id and renews
    the claim before it sends (apps/worker/src/delivery-worker.js); discovery
    queues alerts (queue-manager.js); users retry one alert, change their
    webhooks or requeue everything (apps/api/index.js, routes/alerts.js,
    services/alertQueue.js); the certificate inventory archives and discards
    alerts (services/certops/inventory.js); the PagerDuty reconciler settles
    them (pagerduty-incidents.js).

    A statement is a function on the world: the two tables, the clock, and the
    record of what reached a recipient, against which the theorems of
    DeliverySafety are stated. *)
From S2P Require Import Prelude Dates Json Db AlertEligibility DeliveryLedger.
Open Scope Z_scope.

(** * Tables *)

(** A row of [alert_queue]: times in milliseconds, [due_date] as a day number.
    [last_attempt] and [updated_at] are written and never tested. *)
Record queue_row := mkQueueRow {
  q_id : Z; q_user : Z; q_token : option Z; q_alert_key : string; q_threshold_days : Z; q_due_date : Z;
  q_channels : jsval; q_status : string; q_error_message : option string;
  q_attempts : Z; q_attempts_email : Z; q_attempts_webhooks : Z; q_attempts_whatsapp : Z;
  q_next_attempt_at : option Z; q_claim : option string; q_created_at : Z }.
(** A delivery that reached its recipient or endpoint. *)
Record delivery := mkDelivery { dv_alert : Z; dv_channel : string; dv_target : string }.
#[global] Instance delivery_eq_dec : EqDecision delivery.
Proof. solve_decision. Defined.

(** A row of [alert_delivery_log], with its alert and workspace. *)
Record log_entry := mkEntry { le_alert : Z; le_workspace : option string; le_row : log_row }.
(** The tables; and what no table holds: the deliveries that were accepted
    ([accepted]); each claim's last successful ownership check, as the alert
    and the time ([checks]); the accepted delivery a claim has not logged yet
    ([unlogged]); and whether a delivery ever happened outside its claim's
    marker or was overtaken before it was logged ([overrun]). *)
Record world := mkWorld {
  now : Z; rows : list queue_row; next_id : Z; log : list log_entry;
  accepted : list delivery; checks : list (string * (Z * Z)); unlogged : list (string * delivery); overrun : bool }.

Definition set_now t w := mkWorld t (rows w) (next_id w) (log w) (accepted w) (checks w) (unlogged w) (overrun w).
Definition set_rows r w := mkWorld (now w) r (next_id w) (log w) (accepted w) (checks w) (unlogged w) (overrun w).
Definition set_next_id n w := mkWorld (now w) (rows w) n (log w) (accepted w) (checks w) (unlogged w) (overrun w).
Definition set_log l w := mkWorld (now w) (rows w) (next_id w) l (accepted w) (checks w) (unlogged w) (overrun w).
Definition set_accepted l w := mkWorld (now w) (rows w) (next_id w) (log w) l (checks w) (unlogged w) (overrun w).
Definition set_checks l w := mkWorld (now w) (rows w) (next_id w) (log w) (accepted w) l (unlogged w) (overrun w).
Definition set_unlogged l w := mkWorld (now w) (rows w) (next_id w) (log w) (accepted w) (checks w) l (overrun w).
Definition set_overrun b w := mkWorld (now w) (rows w) (next_id w) (log w) (accepted w) (checks w) (unlogged w) b.

(** [UPDATE alert_queue SET f WHERE p]: the new world and the row count. *)
Definition update (p : queue_row → bool) (f : queue_row → queue_row) (w : world) : world * Z :=
  (set_rows (map (λ r, if p r then f r else r) (rows w)) w, Z.of_nat (length (List.filter p (rows w)))).
Definition delete (p : queue_row → bool) (w : world) : world := set_rows (List.filter (λ r, negb (p r)) (rows w)) w.

Definition with_next (n : option Z) (r : queue_row) : queue_row :=
  mkQueueRow (q_id r) (q_user r) (q_token r) (q_alert_key r) (q_threshold_days r) (q_due_date r) (q_channels r)
    (q_status r) (q_error_message r) (q_attempts r) (q_attempts_email r) (q_attempts_webhooks r) (q_attempts_whatsapp r)
    n (q_claim r) (q_created_at r).
Definition with_claim (c : option string) (r : queue_row) : queue_row :=
  mkQueueRow (q_id r) (q_user r) (q_token r) (q_alert_key r) (q_threshold_days r) (q_due_date r) (q_channels r)
    (q_status r) (q_error_message r) (q_attempts r) (q_attempts_email r) (q_attempts_webhooks r) (q_attempts_whatsapp r)
    (q_next_attempt_at r) c (q_created_at r).
Definition with_channels (v : jsval) (r : queue_row) : queue_row :=
  mkQueueRow (q_id r) (q_user r) (q_token r) (q_alert_key r) (q_threshold_days r) (q_due_date r) v
    (q_status r) (q_error_message r) (q_attempts r) (q_attempts_email r) (q_attempts_webhooks r) (q_attempts_whatsapp r)
    (q_next_attempt_at r) (q_claim r) (q_created_at r).
Definition with_status (s : string) (r : queue_row) : queue_row :=
  mkQueueRow (q_id r) (q_user r) (q_token r) (q_alert_key r) (q_threshold_days r) (q_due_date r) (q_channels r)
    s (q_error_message r) (q_attempts r) (q_attempts_email r) (q_attempts_webhooks r) (q_attempts_whatsapp r)
    (q_next_attempt_at r) (q_claim r) (q_created_at r).
Definition with_error (e : option string) (r : queue_row) : queue_row :=
  mkQueueRow (q_id r) (q_user r) (q_token r) (q_alert_key r) (q_threshold_days r) (q_due_date r) (q_channels r)
    (q_status r) e (q_attempts r) (q_attempts_email r) (q_attempts_webhooks r) (q_attempts_whatsapp r)
    (q_next_attempt_at r) (q_claim r) (q_created_at r).
Definition with_key (k : string) (r : queue_row) : queue_row :=
  mkQueueRow (q_id r) (q_user r) (q_token r) k (q_threshold_days r) (q_due_date r) (q_channels r)
    (q_status r) (q_error_message r) (q_attempts r) (q_attempts_email r) (q_attempts_webhooks r) (q_attempts_whatsapp r)
    (q_next_attempt_at r) (q_claim r) (q_created_at r).
Definition with_attempts (a e wh wa : Z) (r : queue_row) : queue_row :=
  mkQueueRow (q_id r) (q_user r) (q_token r) (q_alert_key r) (q_threshold_days r) (q_due_date r) (q_channels r)
    (q_status r) (q_error_message r) a e wh wa (q_next_attempt_at r) (q_claim r) (q_created_at r).

Definition status_in (l : list string) (r : queue_row) : bool := bool_decide (q_status r ∈ l).
Definition open_statuses : list string := ["pending"; "failed"; "partial"].
Definition elapsed (w : world) (r : queue_row) : bool :=
  match q_next_attempt_at r with None => true | Some t => t <=? now w end.

(** * The worker's claim *)

Definition CLAIM_MARKER_MS : Z := 15 * 60 * 1000.
(** DELIVERY_CLAIM_EXCLUSION_SQL: a partial delivery with nothing to retry. *)
Definition nothing_to_retry (channels : jsval) : bool :=
  match channels with
  | Undef | Null | Arr [] => true
  | Obj _ => match get "retry" channels with Undef | Arr [] => true | _ => false end
  | _ => false
  end.
Definition claimable (asset_exists : queue_row → bool) (w : world) (r : queue_row) : bool :=
  status_in open_statuses r && (q_due_date r <=? now w / DAY_MS) && asset_exists r
  && negb (bool_decide (q_status r = "partial"%string) && nothing_to_retry (q_channels r))
  && elapsed w r.
(** [ORDER BY due_date, created_at]. *)
Definition due_le (r s : queue_row) : Prop :=
  q_due_date r < q_due_date s ∨ q_due_date r = q_due_date s ∧ q_created_at r <= q_created_at s.
#[global] Instance due_le_dec r s : Decision (due_le r s).
Proof. unfold due_le. apply _. Defined.
(** The claim transaction.  [asset_exists]: the join with the asset's tables;
    [locked]: the rows another transaction holds, which SKIP LOCKED passes
    over. *)
Definition claim_alerts (asset_exists locked : queue_row → bool) (claimId : string) (w : world)
  : world * list queue_row :=
  let claimed := firstn 1000 (merge_sort due_le
    (List.filter (λ r, claimable asset_exists w r && negb (locked r)) (rows w))) in
  ((update (λ r, bool_decide (q_id r ∈ map q_id claimed))
      (λ r, with_claim (Some claimId) (with_next (Some (now w + CLAIM_MARKER_MS)) r)) w).1, claimed).

(** * The worker's statements on a claimed alert *)

Definition owned (id : Z) (claimId : string) (r : queue_row) : bool :=
  (q_id r =? id) && bool_decide (q_claim r = Some claimId).
(** Before its next statement a worker has to have logged its delivery. *)
Definition settle_unlogged (claimId : string) (w : world) : world :=
  if assoc_has claimId (unlogged w) then set_overrun true (set_unlogged (assoc_remove claimId (unlogged w)) w) else w.
(** assertStillOwnsDelivery's UPDATE. *)
Definition renew_claim (id : Z) (claimId : string) (w : world) : world * bool :=
  let w := settle_unlogged claimId w in
  let '(w', n) := update (λ r, owned id claimId r && status_in open_statuses r)
                    (with_next (Some (now w + CLAIM_MARKER_MS))) w in
  if n =? 0 then (w', false) else (set_checks (assoc_set claimId (id, now w) (checks w')) w', true).
(** A terminal write: every one of them releases the claim. *)
Definition release (id : Z) (claimId : string) (f : queue_row → queue_row) (w : world) : world * bool :=
  let w := settle_unlogged claimId w in
  let '(w', n) := update (owned id claimId) (λ r, with_claim None (f r)) w in
  (set_checks (assoc_remove claimId (checks w')) w', negb (n =? 0)).

(** Whether the claim's marker, as of its last check of the alert, still runs. *)
Definition in_marker (claimId : string) (id : Z) (w : world) : bool :=
  match assoc_get claimId (checks w) with
  | Some (id', t) => (id' =? id) && (now w <? t + CLAIM_MARKER_MS)
  | None => false
  end.
(** The provider's answer to a send; [ok]: it accepted the delivery. *)
Definition transmit (claimId : string) (d : delivery) (ok : bool) (w : world) : world :=
  let w := settle_unlogged claimId w in
  if ok then
    let w := if in_marker claimId (dv_alert d) w then w else set_overrun true w in
    set_unlogged (assoc_set claimId d (unlogged w)) (set_accepted (accepted w ++ [d]) w)
  else w.
(** [INSERT INTO alert_delivery_log]; [logged]: the delivery the row
    records. *)
Definition insert_log (claimId : string) (entry : log_entry) (logged : option delivery) (w : world) : world :=
  let w := match logged, assoc_get claimId (unlogged w) with
           | Some d, Some d' => if bool_decide (d = d') then set_unlogged (assoc_remove claimId (unlogged w)) w
                                else settle_unlogged claimId w
           | _, _ => settle_unlogged claimId w
           end in
  set_log (log w ++ [entry]) w.
Definition read_log (claimId : string) (id : Z) (w : world) : world * list log_entry :=
  (settle_unlogged claimId w, List.filter (λ e, le_alert e =? id) (log w)).

(** * Time *)

(** Time passes; a delivery whose marker ends before it is logged is overrun. *)
Definition tick (t : Z) (w : world) : world :=
  let w := set_now (now w + t) w in
  if forallb (λ e : string * delivery, in_marker e.1 (dv_alert e.2) w) (unlogged w) then w else set_overrun true w.

(** * The other writers *)

(** Discovery: a new alert, unless its key is taken. *)
Definition queue_alert (user : Z) (token : option Z) (alertKey : string) (threshold due : Z) (channels : jsval) (w : world)
  : world * option Z :=
  if existsb (λ r, bool_decide (q_alert_key r = alertKey)) (rows w) then (w, None) else
  let id := next_id w in
  (set_next_id (id + 1) (set_rows (rows w ++
     [mkQueueRow id user token alertKey threshold due channels "pending" None 0 0 0 0 None None (now w)]) w), Some id).
(** Discovery: the channels of an alert no worker holds.  [seen]: the stored
    value it was reconciled from; JSONB compares values. *)
Definition update_channels (id : Z) (seen channels : jsval) (w : world) : world * Z :=
  update (λ r, (q_id r =? id) && status_in open_statuses r && bool_decide (q_claim r = None)
               && bool_decide (stableJson (q_channels r) = stableJson seen)) (with_channels channels) w.

(** A user's retry of one alert, as of the snapshot [a] it was planned from. *)
Definition retry_update (access : queue_row → bool) (a : queue_row) (channels : jsval) (w : world) : world * Z :=
  update (λ r, access r && (q_id r =? q_id a) && (q_user r =? q_user a) && bool_decide (q_status r = q_status a)
               && bool_decide (stableJson (q_channels r) = stableJson (q_channels a))
               && bool_decide (q_claim r = q_claim a) && elapsed w r)
    (λ r, with_claim None (with_next (Some (now w)) (with_channels channels (with_status "pending" r)))) w.
(** A user's new webhooks: one failed alert no worker holds. *)
Definition requeue_update (id user : Z) (channels : jsval) (w : world) : world * Z :=
  update (λ r, (q_id r =? id) && (q_user r =? user) && bool_decide (q_status r = "failed"%string)
               && bool_decide (q_claim r = None))
    (λ r, with_next (Some (now w)) (with_status "pending" (with_channels channels r))) w.

(** [s ILIKE '%needle%'] of a lower-case needle. *)
Definition ilike (needle : string) (s : string) : bool := includes needle (toLowerCase s).
Definition plan_limited (e : option string) : bool := match e with Some s => ilike "plan_limit" s | None => false end.
Definition requeueable (includePlanLimitBlocked : bool) (r : queue_row) : bool :=
  status_in ["failed"; "limit_exceeded"] r
  || bool_decide (q_status r = "partial"%string) && negb (plan_limited (q_error_message r))
  || bool_decide (q_status r = "blocked"%string)
     && (includePlanLimitBlocked || bool_decide (is_Some (q_error_message r)) && negb (plan_limited (q_error_message r))).
(** requeueAlertsCore; [scope]: the rows of the workspace or the user. *)
Definition requeueAlertsCore (scope : queue_row → bool) (includePlanLimitBlocked : bool) (w : world) : world * Z :=
  update (λ r, scope r && requeueable includePlanLimitBlocked r)
    (λ r, with_attempts 0 0 0 0 (with_next (Some (now w)) (with_error None (with_status "pending"
            (with_channels (bulkRequeueWebhookSql (q_channels r)) r))))) w.

Definition RETIRED_CERT_UNSENT_ALERT_STATUSES : list string :=
  ["pending"; "failed"; "partial"; "blocked"; "limit_exceeded"].
Definition PREVIOUS_EXPIRATION : string := ":previous_expiration:".
Definition expiry_alert (r : queue_row) : bool := startsWith TOKEN_EXPIRY_ALERT_PREFIX (q_alert_key r).
(** The inventory, when a certificate's expiry date changes. *)
Definition archiveCertificateExpiryAlerts (tokenId : Z) (expiration : string) (w : world) : world :=
  (update (λ r, bool_decide (q_token r = Some tokenId) && expiry_alert r && negb (includes PREVIOUS_EXPIRATION (q_alert_key r)))
    (λ r, let unsent := status_in RETIRED_CERT_UNSENT_ALERT_STATUSES r in
          with_key (q_alert_key r +:+ PREVIOUS_EXPIRATION +:+ expiration +:+ ":" +:+ print_Z (q_id r))
            (with_claim None (with_next None
              (if unsent then with_status "sent" (with_error (Some "Discarded: certificate expiry changed"%string) r) else r)))) w).1.
(** The inventory, when a certificate is retired: the token's expiry alerts or
    the renewal failures of its jobs ([scope]), kept as discarded or deleted. *)
Definition suppressPendingRetiredCertificateAlerts (scope : queue_row → bool) (preserveHistory : bool) (w : world) : world :=
  let p r := scope r && status_in RETIRED_CERT_UNSENT_ALERT_STATUSES r in
  if preserveHistory then
    (update p (λ r, with_claim None (with_next None
       (with_error (Some "Discarded: certificate revoked or decommissioned"%string) (with_status "sent" r)))) w).1
  else delete p w.

(** The PagerDuty reconciler settles an alert whose trigger PagerDuty accepted:
    one no worker holds, which it locks while it reads the evidence. *)
Definition pagerduty_parent (r : queue_row) : bool :=
  status_in ["pending"; "failed"; "partial"; "blocked"] r && bool_decide (q_claim r = None)
  && expiry_alert r && negb (includes PREVIOUS_EXPIRATION (q_alert_key r))
  && match q_error_message r with Some e => negb (ilike "plan_limit" e || ilike "limit_exceeded" e) | None => true end.
Definition reconcilePagerDutyParentAlert (id : Z) (status : string) (channels : jsval)
    (email whatsapp webhooks settled : bool) (w : world) : world * Z :=
  update (λ r, (q_id r =? id) && pagerduty_parent r)
    (λ r, let reset (b : bool) n := if b then 0 else n in
          with_attempts (q_attempts r) (reset email (q_attempts_email r)) (reset webhooks (q_attempts_webhooks r))
            (reset whatsapp (q_attempts_whatsapp r))
          (with_error (if bool_decide (status = "sent"%string) then None else q_error_message r)
          (with_next (if bool_decide (status ∈ ["sent"; "blocked"]%string) || settled then None else q_next_attempt_at r)
          (with_channels channels (with_status status r))))) w.

(** * A user's requests *)


Inductive db_error := db_failure (message : string).
Notation db_prog := (prog world db_error).
Inductive retry_response :=
| retried | alert_not_found | plan_alert_limit | max_attempts_blocked | already_delivered
| plan_refusal (code : jsval) (eligible : list string) | delivery_in_progress
| cooldown_active (until : Z) | alert_state_changed.

Definition claim_active (w : world) (r : queue_row) : bool := bool_decide (is_Some (q_claim r)) && negb (elapsed w r).
Definition in_cooldown (w : world) (r : queue_row) : bool := bool_decide (q_claim r = None) && negb (elapsed w r).
(** The user's alert, where they may see it, with what NOW() makes of it. *)
Definition select_alert (access : queue_row → bool) (id user : Z) (w : world) : option (queue_row * bool * bool) :=
  r ← List.find (λ r, (q_id r =? id) && (q_user r =? user) && access r) (rows w);
  Some (r, claim_active w r, in_cooldown w r).
Definition includes_text (s : string) (e : option string) : bool := includes s (default EmptyString e).
(** The answer when the alert changed since it was read. *)
Definition retry_conflict (latest : option (queue_row * bool * bool)) : retry_response :=
  match latest with
  | None => alert_not_found
  | Some (current, active, cooling) =>
      if active then delivery_in_progress
      else if bool_decide (toLowerCase (q_status current) = "sent"%string) then already_delivered
      else if cooling then cooldown_active (default 0 (q_next_attempt_at current))
      else alert_state_changed
  end.
(** What the alert's row alone refuses. *)
Definition retry_refused (alert : queue_row) : option retry_response :=
  let alertStatus := toLowerCase (q_status alert) in
  let blocked := bool_decide (alertStatus = "blocked"%string) in
  if blocked && includes_text "PLAN_LIMIT" (q_error_message alert) then Some plan_alert_limit
  else if blocked && includes_text "MAX_ATTEMPTS" (q_error_message alert) then Some max_attempts_blocked
  else if bool_decide (alertStatus = "sent"%string) then Some already_delivered
  else None.
Definition retry_found (access : queue_row → bool) (id user : Z) (channel : jsval)
    (found : option (queue_row * bool * bool)) : db_prog retry_response :=
  match found with
  | None => mret alert_not_found
  | Some (alert, active, cooling) =>
      match retry_refused alert, planManualRetry (q_channels alert) channel with
      | Some refusal, _ => mret refusal
      | None, plan_refused code eligible => mret (plan_refusal code eligible)
      | None, plan_ok _ _ channels =>
          if active then mret delivery_in_progress
          else if cooling then mret (cooldown_active (default 0 (q_next_attempt_at alert)))
          else
            n ← query (λ w, let '(w, n) := retry_update access alert channels w in (w, Ok n));
            if n =? 0 then latest ← read (select_alert access id user); mret (retry_conflict latest)
            else mret retried
      end
  end.
(** POST /api/alert-queue/:id/retry. *)
Definition retry_handler (access : queue_row → bool) (id user : Z) (channel : jsval) : db_prog retry_response :=
  found ← read (select_alert access id user); retry_found access id user channel found.
(** PUT /api/account/alerts, when webhooks changed: the user's failed alerts
    get the webhooks channel back. *)
Definition webhook_failed (user : Z) (r : queue_row) : bool :=
  (q_user r =? user) && bool_decide (q_status r = "failed"%string) && bool_decide (q_claim r = None)
  && (ilike "webhooks" (default EmptyString (q_error_message r)) || negb (includes "webhooks" (JSON_stringify (q_channels r)))).
Fixpoint requeue_webhook_alerts (user : Z) (alerts : list queue_row) : db_prog unit :=
  match alerts with
  | [] => mret tt
  | failedAlert :: alerts =>
      match requeueWebhookChannel (q_channels failedAlert) with
      | None => requeue_webhook_alerts user alerts
      | Some nextChannels =>
          _ ← query (λ w, let '(w, n) := requeue_update (q_id failedAlert) user nextChannels w in (w, Ok n));
          requeue_webhook_alerts user alerts
      end
  end.
Definition requeue_after_webhook_change (user : Z) : db_prog unit :=
  alerts ← read (λ w, List.filter (webhook_failed user) (rows w)); requeue_webhook_alerts user alerts.
