(* ===== verification/DeliveryWorker.v ===== *)
(** The delivery worker: what apps/worker/src/delivery-worker.js does with the
    alerts it claimed, as a program over the alert queue's statements.

    A channel runs inside a [try]: its mutable variables are the state
    [chan_state], which an exception leaves as it stands; losing the claim
    aborts the whole alert.  What other tables and the providers answer is in
    [inputs]; the texts of the messages, metrics, audit events and operational
    notifications are not modelled. *)
From S2P Require Import Prelude Dates Net Json Db AlertEligibility ContactGroups DeliveryLedger AlertQueue.
Open Scope Z_scope.

Inductive worker_error := ownership_lost | thrown (message : string).
Notation wprog := (prog world worker_error).
Definition of_answer {A} (r : result string A) : wprog A :=
  match r with Ok a => mret a | Err m => throw (thrown m) end.

(** * The alert's context and the outside world *)

(** The columns the claim joins to the row. *)
Record alert_context := mkContext {
  cx_contact_groups : jsval; cx_assigned_ids : jsval; cx_default_contact_group_id : jsval;
  cx_alert_thresholds : jsval; cx_email_alerts_enabled : jsval; cx_webhook_urls : jsval;
  cx_workspace_id : option string; cx_cert_lifecycle_status : jsval;
  cx_window_start : jsval; cx_window_end : jsval; cx_window_tz : jsval }.

(** The recipients the verification gate lets through, and those it holds back
    (destination, code, only observed). *)
Record gate := mkGate {
  g_allowed : list string; g_blocked : list (string * jsval * bool); g_enforced : bool; g_code : jsval }.
(** One SMTP account: no usable transport, the server's answer with the number
    of recipients it accepted, or an exception of [verify] or [sendMail]. *)
Inductive mail_answer := mail_unusable | mail_info (accepted : Z) (response : string) | mail_throws (message : string).
Record send_answer := mkAnswer { sa_success : bool; sa_error : jsval; sa_code : jsval; sa_status : jsval }.
Record renewal_certificate := mkRenewal { rn_status : jsval; rn_token_id : Z }.

(** Answers of queries, of the verification service and of the providers, by
    channel, recipient and endpoint; [Err]: the call throws. *)
Record inputs := mkInputs {
  in_renewal : string → result string (option renewal_certificate);
  in_monitor : string → result string (option (Z * Z));   (* consecutive failures, alert_after_failures *)
  in_contacts : string → result string (list string);
  in_gate : string → result string gate;
  in_enforce : bool;
  in_recheck : string → string → result string (bool * jsval);
  in_assert : string → string → result string unit;
  in_smtp : string → list mail_answer;
  in_db_smtp : string → result string (option mail_answer);
  in_org_rate_limited : bool;
  in_template_configured : bool;
  in_whatsapp : string → result string send_answer;
  in_webhook : string → result string send_answer;
  in_pagerduty : string → result string (bool * jsval) }.

(** The environment's settings, the process's Intl and URL parsers, hashing. *)
Class DeliveryEnv := {
  sha256_text : string → string;
  url_hostname : string → option string;
  local_hhmm : string → Z → option string;      (* [None]: no such time zone *)
  window_default_start : string; window_default_end : string;
  window_deferral_ms : Z; MAX_ATTEMPTS_PER_CHANNEL : Z;
  valid_email : string → bool;
  support_email : string }.

(** * Delivery windows *)

Definition text_or (v : jsval) (d : string) : string := trim (js_String (js_or v (Str d))).
Definition pad2 (n : Z) : string := if n <? 10 then "0" +:+ print_Z n else print_Z n.
Definition utc_hhmm (t : Z) : string := pad2 (t / 3600000 mod 24) +:+ ":" +:+ pad2 (t / 60000 mod 60).
Definition deliveryWindowAdmission `{DeliveryEnv} (cx : alert_context) (t : Z) : bool :=
  let start := text_or (cx_window_start cx) EmptyString in
  let stop := text_or (cx_window_end cx) EmptyString in
  let unset := bool_decide (start = EmptyString) && bool_decide (stop = EmptyString) in
  let start := if unset then window_default_start else start in
  let stop := if unset then window_default_end else stop in
  if bool_decide (start = EmptyString) || bool_decide (stop = EmptyString) then true else
  let start := stake 5 start in
  let stop := stake 5 stop in
  let tz := text_or (cx_window_tz cx) "UTC" in
  let tz := if bool_decide (tz = EmptyString) then "UTC"%string else tz in
  let time := default (utc_hhmm t) (local_hhmm tz t) in
  if negb (str_ltb stop start) then negb (str_ltb time start) && negb (str_ltb stop time)
  else negb (str_ltb time start) || negb (str_ltb stop time).

(** * A channel's variables *)

Record chan_state := mkChan {
  c_success : bool; c_errorMessage : jsval; c_errorCode : jsval; c_eligibilityTerminal : bool; c_terminal : bool;
  c_recipients : option fields; c_current : option (list string); c_partial : bool; c_endpoints : option fields;
  c_webhook_errors : list string }.
Definition fresh_chan (webhook_errors : list string) : chan_state :=
  mkChan false Null Null false false None None false None webhook_errors.
Definition set_outcome (ok : bool) (message code : jsval) (eligibility : bool) (s : chan_state) : chan_state :=
  mkChan ok message code eligibility (c_terminal s) (c_recipients s) (c_current s) (c_partial s) (c_endpoints s)
    (c_webhook_errors s).
Definition set_errorCode (code : jsval) (s : chan_state) : chan_state :=
  set_outcome (c_success s) (c_errorMessage s) code (c_eligibilityTerminal s) s.
Definition set_current (l : list string) (s : chan_state) : chan_state :=
  mkChan (c_success s) (c_errorMessage s) (c_errorCode s) (c_eligibilityTerminal s) (c_terminal s) (c_recipients s)
    (Some l) (c_partial s) (c_endpoints s) (c_webhook_errors s).
Definition set_recipient (key : string) (v : jsval) (s : chan_state) : chan_state :=
  mkChan (c_success s) (c_errorMessage s) (c_errorCode s) (c_eligibilityTerminal s) (c_terminal s)
    (Some (assoc_set key v (default [] (c_recipients s)))) (c_current s) (c_partial s) (c_endpoints s) (c_webhook_errors s).
Definition set_recipients (l : fields) (s : chan_state) : chan_state :=
  mkChan (c_success s) (c_errorMessage s) (c_errorCode s) (c_eligibilityTerminal s) (c_terminal s) (Some l)
    (c_current s) (c_partial s) (c_endpoints s) (c_webhook_errors s).

(** Code inside the [try]: it may read and change the variables, run
    statements, and throw. *)
Definition chan (A : Type) : Type := chan_state → wprog (chan_state * result worker_error A).
#[global] Instance chan_ret : MRet chan := λ A a s, mret (s, Ok a).
#[global] Instance chan_bind : MBind chan := λ A B f m s,
  x ← m s; match x.2 with Ok a => f a x.1 | Err e => mret (x.1, Err e) end.
Definition lift {A} (p : wprog A) : chan A := λ s, catch (a ← p; mret (s, Ok a)) (λ e, mret (s, Err e)).
Definition modify (f : chan_state → chan_state) : chan unit := λ s, mret (f s, Ok tt).

(** * Statements *)

Section worker.
Context `{DeliveryEnv} (claimId : string).

Definition assertStillOwnsDelivery (id : Z) : wprog unit :=
  owns ← query (λ w, let '(w, b) := renew_claim id claimId w in (w, Ok b));
  if owns : bool then mret tt else throw ownership_lost.
Definition transmit_ (d : delivery) (ok : bool) : wprog unit := query (λ w, (transmit claimId d ok w, Ok tt)).
Definition insert_log_ (entry : log_entry) (logged : option delivery) : wprog unit :=
  query (λ w, (insert_log claimId entry logged w, Ok tt)).
Definition read_log_ (id : Z) : wprog (list log_entry) := query (λ w, let '(w, l) := read_log claimId id w in (w, Ok l)).
Definition release_ (id : Z) (f : queue_row → queue_row) : wprog bool :=
  query (λ w, let '(w, b) := release id claimId f w in (w, Ok b)).
Definition clock : wprog Z := read now.


(** * Mail *)

(** The codes of notify/email.js and what it says for each. *)
Inductive smtp_code := SMTP_RATE_LIMIT | SMTP_TEMPORARY_FAILURE | SMTP_ERROR.
Definition smtp_error (code : smtp_code) : string :=
  match code with
  | SMTP_RATE_LIMIT => "Email rate limit reached. Please try again later or contact " +:+ support_email +:+ " if this persists."
  | SMTP_TEMPORARY_FAILURE =>
      "Email service temporarily unavailable. Please try again later or contact " +:+ support_email +:+ " if this persists."
  | SMTP_ERROR => "Failed to send email. If the problem persists, contact " +:+ support_email +:+ "."
  end.
Definition failure_of (code : smtp_code) : string * smtp_code := (smtp_error code, code).
(** [/\b(ddd)\b/] for three digits [ddd] that satisfy [ok]; [before] is the
    character in front of [s], as a word character or not. *)
Definition is_word (c : ascii) : bool := is_alnum c || (code c =? 95).
Definition starts_word (s : string) : bool := match s with String c _ => is_word c | EmptyString => false end.
Fixpoint has_number (ok : string → bool) (before : bool) (s : string) : bool :=
  match s with
  | EmptyString => false
  | String c rest =>
      negb before && (slen (stake 3 s) =? 3) && sforall is_digit (stake 3 s) && ok (stake 3 s)
        && negb (starts_word (sdrop 3 s))
      || has_number ok (is_word c) rest
  end.
Definition mentions (l : list string) (s : string) : bool :=
  existsb (λ needle, includes (toLowerCase needle) (toLowerCase s)) l.
(** [/\b451\b/] or [/rate[- ]?limit|maximum number of sent emails/i]. *)
Definition reads_rate_limited (s : string) : bool :=
  has_number (λ n, bool_decide (n = "451"%string)) false s
  || mentions ["ratelimit"; "rate-limit"; "rate limit"; "maximum number of sent emails"] s.
Definition connection_failed (s : string) : bool := mentions ["ECONNECTION"; "ECONNREFUSED"; "ETIMEDOUT"; "EAUTH"] s.
(** How an exception is read; the database's account does not look for rate
    limits and status numbers. *)
Definition thrown_code (configured : bool) (message : string) : smtp_code :=
  let raw := trim message in
  if configured && reads_rate_limited raw then SMTP_RATE_LIMIT
  else if connection_failed raw
          || configured && has_number (λ n, startsWith "4" n || startsWith "5" n) false raw
  then SMTP_TEMPORARY_FAILURE else SMTP_ERROR.


Section alert.
Context (cx : alert_context) (inp : inputs) (alert : queue_row).
Notation id := (q_id alert).
(** [INSERT INTO alert_delivery_log]; of the metadata, what is read back. *)
Definition log_attempt (channel status : string) (error : jsval) (metadata : fields) (logged : option delivery) : wprog unit :=
  insert_log_ (mkEntry id (cx_workspace_id cx) (mkLogRow channel status error (Obj metadata))) logged.

(** onBeforeAttempt. *)
Definition before_attempt (rcpt : string) : wprog unit :=
  _ ← assertStillOwnsDelivery id; of_answer (in_assert inp "email" rcpt).
Definition email_delivery (rcpt : string) : delivery := mkDelivery id "email" rcpt.
(** The configured accounts in turn; the last failure.  A server that accepted
    recipients and whose answer reads as a rate limit counts as failed, though
    the message is out. *)
Fixpoint try_accounts (rcpt : string) (accounts : list mail_answer) (last : option (string * smtp_code))
  : wprog (bool * option (string * smtp_code)) :=
  match accounts with
  | [] => mret (false, last)
  | a :: accounts =>
      _ ← before_attempt rcpt;
      match a with
      | mail_unusable => try_accounts rcpt accounts last
      | mail_info accepted response =>
          _ ← transmit_ (email_delivery rcpt) (0 <? accepted);
          if (0 <? accepted) && negb (reads_rate_limited response) then mret (true, last)
          else try_accounts rcpt accounts
                 (Some (failure_of (if reads_rate_limited response then SMTP_RATE_LIMIT else SMTP_TEMPORARY_FAILURE)))
      | mail_throws message =>
          _ ← transmit_ (email_delivery rcpt) false;
          try_accounts rcpt accounts (Some (failure_of (thrown_code true message)))
      end
  end.
Definition db_account (rcpt : string) (last : option (string * smtp_code)) : wprog (bool * jsval) :=
  let answer := Str (default "SMTP not configured" (fst <$> last)) in
  catch
    (_ ← before_attempt rcpt;
     a ← of_answer (in_db_smtp inp rcpt);
     match a with
     | Some (mail_info accepted _) =>
         _ ← transmit_ (email_delivery rcpt) (0 <? accepted);
         mret (if 0 <? accepted then (true, Null) else (false, Str (smtp_error SMTP_TEMPORARY_FAILURE)))
     | Some (mail_throws message) =>
         _ ← transmit_ (email_delivery rcpt) false;
         mret (false, Str (smtp_error (thrown_code false message)))
     | _ => mret (false, answer)
     end)
    (λ e, match e with ownership_lost => throw ownership_lost | thrown _ => mret (false, answer) end).
(** notify/email.js: losing the claim is thrown on, any other error answered. *)
Definition sendEmailNotification (rcpt : string) : wprog (bool * jsval) :=
  catch
    (r ← try_accounts rcpt (in_smtp inp rcpt) None;
     if r.1 : bool then mret (true, Null) else
     match r.2 with
     | Some (error, SMTP_RATE_LIMIT) => mret (false, Str error)
     | last => db_account rcpt last
     end)
    (λ e, match e with
          | ownership_lost => throw ownership_lost
          | thrown message => mret (false, Str (smtp_error (thrown_code true message)))
          end).

(** What a loop over recipients counts. *)
Record counts := mkCounts { n_allOk : bool; n_sends : Z; n_skips : Z; n_deferred : bool }.
Definition add_send (ok : bool) (n : counts) : counts :=
  mkCounts (n_allOk n && ok) (n_sends n + 1) (n_skips n) (n_deferred n).
Definition add_skip (n : counts) : counts := mkCounts (n_allOk n) (n_sends n) (n_skips n + 1) (n_deferred n).
Definition set_deferred (n : counts) : counts := mkCounts (n_allOk n) (n_sends n) (n_skips n) true.

Definition is_unavailable (v : jsval) : bool := is_text "unavailable" (get "state" v).
Definition recipient_state (state : string) (code : jsval) : jsval := Obj [("state", Str state); ("code", code)].
Definition sent_state : jsval := Obj [("state", Str "sent")].
Definition blocked_state (code : jsval) : jsval :=
  if is_text TEMPORARY_VERIFICATION_CODE code then recipient_state "unavailable" code
  else recipient_state "excluded" (js_or code (Str "RECIPIENT_NOT_VERIFIED")).
(** The recipients the gate holds back, under their identity. *)
Definition blocked_recipients (email : bool) (trimmed : list string) (blocked : list (string * jsval * bool)) : fields :=
  fold_left (λ acc '(destination, code, shadow),
    if bool_decide (destination = EmptyString) || shadow || bool_decide (destination ∈ trimmed) then acc else
    let key := trim destination in
    assoc_set (if email then toLowerCase key else key) (blocked_state code) acc) blocked [].
Definition selectDeliverableDestinations (rows : list string) : list string :=
  dedup (List.filter (λ d, negb (bool_decide (d = EmptyString))) rows).
(** The recipients the log already shows as served. *)
Definition prior_success (channel : string) (email : bool) (prior : list log_row) : list string :=
  omap (λ row,
    if bool_decide (dl_channel row = channel) && bool_decide (dl_status row = "success"%string) then
      let r := js_String (js_or (get "recipient" (dl_metadata row)) (Str EmptyString)) in
      let r := if email then toLowerCase (trim r) else r in
      if email && bool_decide (r = EmptyString) then None else Some r
    else None) prior.
(** The channel's result once every recipient was tried. *)
Definition channel_outcome (n : counts) (s : chan_state) : chan_state :=
  if n_deferred n then
    set_outcome false (Str TEMPORARY_VERIFICATION_CODE) (Str TEMPORARY_VERIFICATION_CODE) false s
  else if (n_sends n =? 0) && (0 <? n_skips n) then
    let code := js_or (c_errorCode s) (Str "NO_VERIFIED_RECIPIENTS") in set_outcome false code code true s
  else
    let ok := n_allOk n && (0 <? n_sends n) in
    set_outcome ok (if ok then Null else Str "PARTIAL_FAILURE") (c_errorCode s) (c_eligibilityTerminal s) s.
(** Everyone was held back. *)
Definition gate_outcome (code : jsval) (s : chan_state) : chan_state :=
  let infrastructure := is_text TEMPORARY_VERIFICATION_CODE code in
  let errorCode := if infrastructure then Str TEMPORARY_VERIFICATION_CODE else js_or code (Str "NO_VERIFIED_RECIPIENTS") in
  set_outcome false errorCode errorCode (negb infrastructure) s.
Definition group_meta (group : jsval) : string * jsval := ("group_id", group).

Definition email_recipient (group : jsval) (prior : list log_row) (rcpt : string) (n : counts) : chan counts :=
  _ ← lift (assertStillOwnsDelivery id);
  live ← lift (of_answer (in_recheck inp "email" rcpt));
  let key := toLowerCase (trim rcpt) in
  let liveCode := js_or live.2 (Str "RECIPIENT_NOT_VERIFIED") in
  let meta code := [group_meta group; ("code", code); ("recipient", Str rcpt)] in
  if in_enforce inp && negb (live.1 : bool) then
    _ ← modify (set_errorCode liveCode);
    if is_text TEMPORARY_VERIFICATION_CODE liveCode then
      _ ← modify (set_recipient key (recipient_state "unavailable" liveCode));
      _ ← lift (log_attempt "email" "failed" liveCode (meta liveCode) None);
      mret (set_deferred n)
    else
      _ ← modify (set_recipient key (recipient_state "excluded" liveCode));
      _ ← lift (log_attempt "email" "blocked" liveCode (meta liveCode) None);
      mret (add_skip n)
  else if bool_decide (key ∈ prior_success "email" true prior) then
    _ ← modify (set_recipient key sent_state); mret (add_send true n)
  else
    res ← lift (sendEmailNotification rcpt);
    let ok := res.1 : bool in
    _ ← lift (log_attempt "email" (if ok then "success" else "failed") (if ok then Null else js_or res.2 Null)
                [group_meta group; ("recipient", Str rcpt)] (if ok then Some (email_delivery rcpt) else None));
    _ ← modify (set_recipient key (if ok then sent_state else recipient_state "failed" (js_or res.2 (Str "PARTIAL_FAILURE"))));
    mret (add_send ok n).
(** The recipients in order. *)
Fixpoint each_recipient (step : string → counts → chan counts) (rcpts : list string) (n : counts) : chan counts :=
  match rcpts with
  | [] => mret n
  | rcpt :: rcpts => n ← step rcpt n; each_recipient step rcpts n
  end.
Definition start_counts (blocked : fields) : counts := mkCounts true 0 0 (existsb is_unavailable blocked.*2).

Definition email_channel (group : jsval) (prior : list log_row) : chan unit :=
  let recipients := match in_contacts inp "email" with Ok l => l | Err _ => [] end in
  _ ← match in_contacts inp "email" with Ok l => modify (set_current l) | Err _ => mret tt end;
  gated ← lift (of_answer (in_gate inp "email"));
  let trimmed := List.filter valid_email (selectDeliverableDestinations (g_allowed gated)) in
  let blocked := blocked_recipients true trimmed (g_blocked gated) in
  _ ← modify (set_recipients blocked);
  match recipients, trimmed with
  | _ :: _, [] =>
      if g_enforced gated then
        let infrastructure := is_text TEMPORARY_VERIFICATION_CODE (g_code gated) in
        _ ← modify (gate_outcome (g_code gated));
        let code := if infrastructure then Str TEMPORARY_VERIFICATION_CODE
                    else js_or (g_code gated) (Str "NO_VERIFIED_RECIPIENTS") in
        lift (log_attempt "email" (if infrastructure then "failed" else "blocked") code [group_meta group; ("code", code)] None)
      else modify (set_outcome false (Str "No email contacts are defined in the selected contact group") Null false)
  | [], [] => modify (set_outcome false (Str "No email contacts are defined in the selected contact group") Null false)
  | _, _ =>
      n ← each_recipient (email_recipient group prior) trimmed (start_counts blocked);
      modify (channel_outcome n)
  end.

(** * WhatsApp *)

(** [^\+?\d{6,15}$]. *)
Definition is_phone (s : string) : bool :=
  let digits := match s with String c rest => if code c =? 43 then rest else s | EmptyString => s end in
  matches_class is_digit 6 15 digits.
Definition whatsapp_recipient (group : jsval) (prior : list log_row) (rcpt : string) (n : counts) : chan counts :=
  _ ← lift (assertStillOwnsDelivery id);
  _ ← lift (of_answer (in_assert inp "whatsapp" rcpt));
  live ← lift (of_answer (in_recheck inp "whatsapp" rcpt));
  let key := trim rcpt in
  let liveCode := js_or live.2 (Str "RECIPIENT_NOT_VERIFIED") in
  if in_enforce inp && negb (live.1 : bool) then
    _ ← modify (set_errorCode liveCode);
    if is_text TEMPORARY_VERIFICATION_CODE liveCode then
      _ ← modify (set_recipient key (recipient_state "unavailable" liveCode));
      _ ← lift (log_attempt "whatsapp" "failed" liveCode [group_meta group; ("code", liveCode); ("recipient", Str rcpt)] None);
      mret (set_deferred n)
    else
      _ ← modify (set_recipient key (recipient_state "excluded" liveCode)); mret (add_skip n)
  else if bool_decide (rcpt ∈ prior_success "whatsapp" false prior) then
    _ ← modify (set_recipient key sent_state); mret (add_send true n)
  else
    res ← lift (of_answer (in_whatsapp inp rcpt));
    let ok := sa_success res in
    let d := mkDelivery id "whatsapp" rcpt in
    _ ← lift (transmit_ d ok);
    _ ← lift (log_attempt "whatsapp" (if ok then "success" else "failed") (if ok then Null else js_or (sa_error res) Null)
                [group_meta group; ("recipient", Str rcpt)] (if ok then Some d else None));
    _ ← modify (set_recipient key
          (if ok then sent_state else recipient_state "failed" (js_or (sa_error res) (Str "PARTIAL_FAILURE"))));
    mret (add_send ok n).
(** [try { p } catch {}]. *)
Definition best_effort (p : wprog unit) : wprog unit := catch p (λ _, mret tt).

Definition endpoint_alert : bool := startsWith "endpoint_health:" (q_alert_key alert).
Definition no_whatsapp : string := "No WhatsApp contacts are defined in the selected contact group".
Definition template_missing : string := "WHATSAPP_ENDPOINT_TEMPLATE_NOT_CONFIGURED".
Definition whatsapp_send (group : jsval) (prior : list log_row) (phones trimmed : list string) (gated : gate) (blocked : fields)
  : chan unit :=
  if in_org_rate_limited inp then mret tt
  else match trimmed with
  | [] =>
      if negb (is_nil phones) && g_enforced gated then
        let infrastructure := is_text TEMPORARY_VERIFICATION_CODE (g_code gated) in
        _ ← modify (gate_outcome (g_code gated));
        let code := if infrastructure then Str TEMPORARY_VERIFICATION_CODE
                    else js_or (g_code gated) (Str "NO_VERIFIED_RECIPIENTS") in
        lift (log_attempt "whatsapp" (if infrastructure then "failed" else "blocked") code [group_meta group; ("code", code)] None)
      else modify (set_outcome false (Str no_whatsapp) Null false)
  | _ =>
      if endpoint_alert && negb (in_template_configured inp) then
        _ ← modify (set_outcome false (Str template_missing) (Str template_missing) false);
        lift (best_effort (log_attempt "whatsapp" "failed" (Str template_missing) [group_meta group] None))
      else
        n ← each_recipient (whatsapp_recipient group prior) trimmed (start_counts blocked);
        modify (channel_outcome n)
  end.
(** A failure that no recipient's row shows is logged once for the channel. *)
Definition log_untried (group : jsval) (trimmed : list string) : chan unit := λ s,
  if negb (c_success s) && is_nil trimmed && negb (c_eligibilityTerminal s) then
    lift (best_effort (log_attempt "whatsapp" (if is_text "ORG_RATE_LIMIT" (c_errorMessage s) then "deferred" else "failed")
      (c_errorMessage s) [group_meta group] None)) s
  else mret (s, Ok tt).
Definition whatsapp_channel (group : jsval) (prior : list log_row) : chan unit :=
  let contacts := match in_contacts inp "whatsapp" with Ok l => l | Err _ => [] end in
  let phones := List.filter is_phone (map trim contacts) in
  _ ← if in_org_rate_limited inp then modify (set_outcome false (Str "ORG_RATE_LIMIT") (Str "RATE_LIMIT") false) else mret tt;
  _ ← match in_contacts inp "whatsapp" with Ok _ => modify (set_current phones) | Err _ => mret tt end;
  gated ← lift (of_answer (in_gate inp "whatsapp"));
  let trimmed := selectDeliverableDestinations (g_allowed gated) in
  let blocked := blocked_recipients false trimmed (g_blocked gated) in
  _ ← modify (set_recipients blocked);
  _ ← whatsapp_send group prior phones trimmed gated blocked;
  log_untried group trimmed.

(** * Webhooks *)

Definition detectWebhookProviderKind (host : string) : option string :=
  let h := toLowerCase host in
  let host_is s := bool_decide (h = s) in
  if host_is "hooks.slack.com"%string then Some "slack"%string
  else if host_is "discord.com"%string || endsWith ".discord.com" h || host_is "discordapp.com"%string || endsWith ".discordapp.com" h
  then Some "discord"%string
  else if host_is "outlook.office.com"%string || host_is "webhook.office.com"%string || host_is "office365.com"%string
          || endsWith ".office365.com" h || endsWith ".office.com" h then Some "teams"%string
  else if host_is "pagerduty.com"%string || endsWith ".pagerduty.com" h then Some "pagerduty"%string
  else None.
Definition resolveWebhookProviderKind (wh : jsval) : string :=
  let kind := toLowerCase (trim (js_String (js_or (get "kind" wh) (Str "generic")))) in
  let kind := if bool_decide (kind = EmptyString) then "generic"%string else kind in
  if negb (bool_decide (kind = "generic"%string)) then kind else
  default kind (match get "url" wh with Undef => None | u => url_hostname (js_String u) end ≫= detectWebhookProviderKind).
Definition webhook_text (k : string) (wh : jsval) : string := trim (js_String (js_or (get k wh) (Str EmptyString))).
Definition workspace_text : string := default "null"%string (cx_workspace_id cx).
Definition webhookUrlHash (wh : jsval) : string := sha256_text (webhook_text "url" wh).
Definition webhookDestinationId (wh : jsval) : string :=
  if bool_decide (resolveWebhookProviderKind wh = "pagerduty"%string) then
    sha256_text (JSON_stringify (Arr [Str "pagerduty-destination-v1"; Str workspace_text;
      Str (webhook_text "url" wh); Str (webhook_text "routingKey" wh)]))
  else webhookUrlHash wh.
(** [preserveInvalid]: entries without a URL are kept. *)
Fixpoint uniqueWebhookDestinations (seen : list string) (l : list jsval) : list jsval :=
  match l with
  | [] => []
  | wh :: l =>
      if bool_decide (webhook_text "url" wh = EmptyString) then wh :: uniqueWebhookDestinations seen l
      else let i := webhookDestinationId wh in
           if bool_decide (i ∈ seen) then uniqueWebhookDestinations seen l
           else wh :: uniqueWebhookDestinations (i :: seen) l
  end.
(** The webhooks of these names; [None]: a null entry makes the filter throw. *)
Fixpoint named_webhooks (names : list string) (l : list jsval) : option (list jsval) :=
  match l with
  | [] => Some []
  | wh :: l =>
      if nullish wh then None else
      rest ← named_webhooks names l;
      Some (if bool_decide (webhook_text "name" wh ∈ names) then wh :: rest else rest)
  end.
Definition unionWebhookNames (groups : list jsval) : list string :=
  dedup (List.filter (λ n, negb (bool_decide (n = EmptyString))) (concat (map getWebhookNames groups))).
Definition selected_webhooks (groups : list jsval) : list jsval :=
  let webhooks := as_list (cx_webhook_urls cx) in
  match unionWebhookNames groups with
  | [] => []
  | names => match named_webhooks names webhooks with
             | Some filtered => uniqueWebhookDestinations [] filtered
             | None => webhooks
             end
  end.

Inductive evidence := evidence_delivered | evidence_pending | evidence_legacy_ambiguous.
Definition counts_as_success (e : log_entry) : bool :=
  let row := le_row e in
  bool_decide (dl_channel row = "webhooks"%string) && bool_decide (dl_status row = "success"%string)
  && match le_workspace e with None => true | Some ws => bool_decide (ws = workspace_text) end
  && is_text "trigger" (js_or (get "event_action" (dl_metadata row)) (Str "trigger")).
Definition webhookDeliveryEvidence (wh : jsval) (history : list log_entry) : evidence :=
  let successes := map le_row (List.filter counts_as_success history) in
  let identity := webhookDestinationId wh in
  let names k s := existsb (λ row, is_text s (get k (dl_metadata row))) successes in
  if negb (bool_decide (resolveWebhookProviderKind wh = "pagerduty"%string)) then
    if names "urlHash"%string identity then evidence_delivered else evidence_pending
  else if names "destination_id"%string identity then evidence_delivered
  else if existsb (λ row, is_text "pagerduty" (get "kind" (dl_metadata row))
                          && negb (truthy (get "destination_id" (dl_metadata row)))
                          && is_text (webhookUrlHash wh) (get "urlHash" (dl_metadata row))) successes
  then evidence_legacy_ambiguous else evidence_pending.

Definition TERMINAL_WEBHOOK_CODES : list string :=
  ["WEBHOOK_PRIVATE_IP_BLOCKED"; "WEBHOOK_INVALID_URL"; "WEBHOOK_INVALID_SCHEME"; "WEBHOOK_HOST_NOT_ALLOWED";
   "WEBHOOK_REDIRECT_REFUSED"].
Definition TRANSIENT_WEBHOOK_CODES : list string :=
  ["ETIMEDOUT"; "ESOCKETTIMEDOUT"; "ECONNRESET"; "ECONNREFUSED"; "ENOTFOUND"; "EAI_AGAIN"; "EHOSTUNREACH"; "ENETUNREACH";
   "UND_ERR_CONNECT_TIMEOUT"; "ECONNABORTED"; "WEBHOOK_NETWORK"; "WEBHOOK_TIMEOUT"; "WEBHOOK_UNREACHABLE";
   "WEBHOOK_DNS_UNRESOLVED"].
(** Whether a failed endpoint is not worth another attempt. *)
Definition webhookEndpointTerminal (result : send_answer) : bool :=
  let code := js_String (js_or (sa_code result) (Str EmptyString)) in
  let status := Number_finite (sa_status result) in
  let among l := match status with Some n => bool_decide (n ∈ l) | None => false end in
  let between lo hi := match status with Some n => (lo <=? n) && (n <? hi) | None => false end in
  let throttled := among [408; 409; 429] in
  let server := between 500 600 in
  if bool_decide (code = "WEBHOOK_PROVIDER_REJECTED"%string) then negb throttled && negb server
  else if bool_decide (code ∈ TERMINAL_WEBHOOK_CODES) then true
  else if bool_decide (code ∈ TRANSIENT_WEBHOOK_CODES) then false
  else if throttled || server then false
  else if between 400 500 then true
  else if between 200 300 then false
  else if bool_decide (code = EmptyString) then
    let error := js_String (js_or (sa_error result) (Str EmptyString)) in
    ilike "host not allowed" error || ilike "invalid webhook url scheme" error || ilike "private/reserved" error
    || ilike "webhook_private" error
  else false.

Record endpoint_counts := mkEndpoints {
  k_succeeded : Z; k_transient : Z; k_permanent : Z; k_considered : Z; k_endpoints : fields; k_errors : list string;
  k_served : list string }.
(** One more endpoint: its state and error, if it has them. *)
Definition count_endpoint (succeeded transient permanent : Z) (endpoint : option (string * string)) (error : option string)
    (k : endpoint_counts) : endpoint_counts :=
  mkEndpoints (k_succeeded k + succeeded) (k_transient k + transient) (k_permanent k + permanent) (k_considered k + 1)
    (match endpoint with Some (h, state) => assoc_set h (Str state) (k_endpoints k) | None => k_endpoints k end)
    (k_errors k ++ match error with Some e => [e] | None => [] end) (k_served k).
Definition serve_endpoint (h : string) (k : endpoint_counts) : endpoint_counts :=
  mkEndpoints (k_succeeded k) (k_transient k) (k_permanent k) (k_considered k) (k_endpoints k) (k_errors k) (h :: k_served k).

Definition send_webhook (group : jsval) (generation : Z) (kind urlHash : string) (k : endpoint_counts) : chan endpoint_counts :=
  _ ← lift (assertStillOwnsDelivery id);
  res ← lift (of_answer (in_webhook inp urlHash));
  let ok := sa_success res in
  let terminal := negb ok && webhookEndpointTerminal res in
  let d := mkDelivery id "webhooks" urlHash in
  let error := kind +:+ ": " +:+ js_String (sa_error res) in
  _ ← lift (transmit_ d ok);
  _ ← lift (log_attempt "webhooks" (if ok then "success" else "failed") (if ok then Null else js_or (sa_error res) Null)
        ([("kind", Str kind); ("urlHash", Str urlHash)]
         ++ (if bool_decide (kind = "pagerduty"%string) then [("destination_id", Str urlHash)] else [])
         ++ [group_meta group; ("terminal", Bool terminal); ("retryGeneration", Num (Fin generation))]
         ++ (if truthy (sa_code res) then [("code", sa_code res)] else []))
        (if ok then Some d else None));
  mret (if ok then serve_endpoint urlHash (count_endpoint 1 0 0 (Some (urlHash, "sent"%string)) None k)
        else if terminal then count_endpoint 0 0 1 (Some (urlHash, "permanent"%string)) (Some error) k
        else count_endpoint 0 1 0 (Some (urlHash, "failed"%string)) (Some error) k).
Definition webhook_endpoint (group : jsval) (generation : Z) (history : list log_entry) (permanent : list string)
    (wh : jsval) (k : endpoint_counts) : chan endpoint_counts :=
  let kind := resolveWebhookProviderKind wh in
  if bool_decide (webhook_text "url" wh = EmptyString) then
    let blank := sha256_text EmptyString in
    if bool_decide (blank ∈ permanent) then mret (count_endpoint 0 0 1 (Some (blank, "permanent"%string)) None k)
    else
      _ ← lift (log_attempt "webhooks" "failed" (Str "Invalid webhook URL")
            [("kind", Str kind); ("urlHash", Str blank); group_meta group; ("terminal", Bool true);
             ("code", Str "WEBHOOK_INVALID_URL"); ("retryGeneration", Num (Fin generation))] None);
      mret (count_endpoint 0 0 1 (Some (blank, "permanent"%string)) (Some (kind +:+ ": Invalid webhook URL")) k)
  else if bool_decide (kind = "pagerduty"%string) && bool_decide (cx_workspace_id cx = None) then
    mret (count_endpoint 0 1 0 None (Some "pagerduty: asset_workspace_unavailable"%string) k)
  else
  let urlHash := webhookDestinationId wh in
  let proof := webhookDeliveryEvidence wh history in
  if bool_decide (urlHash ∈ k_served k) || match proof with evidence_delivered => true | _ => false end then
    mret (count_endpoint 1 0 0 (Some (urlHash, "sent"%string)) None k)
  else if bool_decide (urlHash ∈ permanent) then mret (count_endpoint 0 0 1 (Some (urlHash, "permanent"%string)) None k)
  else match proof with
  | evidence_legacy_ambiguous =>
      mret (count_endpoint 0 1 0 (Some (urlHash, "pending"%string)) (Some "pagerduty_legacy_destination_ambiguous"%string) k)
  | _ =>
      if bool_decide (kind = "pagerduty"%string) && isTokenExpiryAlertKey (q_alert_key alert) then
        _ ← lift (assertStillOwnsDelivery id);
        res ← lift (of_answer (in_pagerduty inp urlHash));
        mret (if res.1 : bool then count_endpoint 1 0 0 (Some (urlHash, "sent"%string)) None k
              else count_endpoint 0 1 0 (Some (urlHash, "pending"%string)) (Some ("pagerduty: " +:+ js_String res.2)) k)
      else send_webhook group generation kind urlHash k
  end.
Fixpoint each_webhook (step : jsval → endpoint_counts → chan endpoint_counts) (l : list jsval) (k : endpoint_counts)
  : chan endpoint_counts :=
  match l with [] => mret k | wh :: l => k ← step wh k; each_webhook step l k end.
Definition webhooks_outcome (k : endpoint_counts) (s : chan_state) : chan_state :=
  let ok := (0 <? k_considered k) && (k_transient k =? 0) && (k_permanent k =? 0) in
  let partial := (0 <? k_succeeded k) && ((0 <? k_transient k) || (0 <? k_permanent k)) in
  let message :=
    match k_errors k with
    | [] => if negb ok && negb partial then Str "Webhook delivery skipped because no endpoint was eligible" else Null
    | errors => Str (join "; " errors)
    end in
  mkChan ok message (c_errorCode s) (c_eligibilityTerminal s) ((k_transient k =? 0) && (0 <? k_permanent k))
    (c_recipients s) (c_current s) partial (Some (k_endpoints k))
    (match k_errors k with [] => c_webhook_errors s | errors => errors end).
Definition webhooks_channel (group : jsval) (groups : list jsval) (prior : list log_row) : chan unit :=
  match selected_webhooks groups with
  | [] => modify (set_outcome false (Str "No webhook names defined in the selected contact group") Null false)
  | webhooks =>
      history ← lift (read_log_ id);
      let generation := webhookRetryGenerationFromStored (q_channels alert) in
      let permanent := webhookPermanentHashes prior (q_channels alert) in
      k ← each_webhook (webhook_endpoint group generation history permanent) webhooks (mkEndpoints 0 0 0 0 [] [] []);
      modify (webhooks_outcome k)
  end.

(** * One channel *)

Definition channel_body (channel : string) (group : jsval) (groups : list jsval) (prior : list log_row) : chan unit :=
  if bool_decide (channel = "email"%string) then email_channel group prior
  else if bool_decide (channel = "webhooks"%string) then webhooks_channel group groups prior
  else if bool_decide (channel = "whatsapp"%string) then whatsapp_channel group prior
  else mret tt.
(** The [catch]: losing the claim aborts the alert, any other error is the
    channel's failure. *)
Definition run_channel (channel : string) (group : jsval) (groups : list jsval) (prior : list log_row)
    (webhook_errors : list string) : wprog chan_state :=
  x ← channel_body channel group groups prior (fresh_chan webhook_errors);
  match x.2 with
  | Ok _ => mret x.1
  | Err ownership_lost => throw ownership_lost
  | Err (thrown m) =>
      let s := set_outcome false (Str m)
                 (if bool_decide (m = TEMPORARY_VERIFICATION_CODE) then Str m else c_errorCode x.1)
                 (c_eligibilityTerminal x.1) x.1 in
      _ ← (if bool_decide (channel = "whatsapp"%string)
           then best_effort (log_attempt "whatsapp" "failed" (Str m) [] None) else mret tt);
      mret s
  end.
Definition attempt_of (channel : string) (s : chan_state) : attempt :=
  mkAttempt channel (c_success s) (c_errorMessage s) (c_errorCode s) (c_eligibilityTerminal s)
    (c_terminal s || c_eligibilityTerminal s) (c_partial s)
    (match c_endpoints s with Some e => Obj e | None => Null end)
    (match c_recipients s with Some r => Obj r | None => Null end)
    (match c_current s with Some l => Arr (map Str l) | None => Null end).

(** thresholds: 3->5m, 5->15m, 10->60m, 20->24h. *)
Definition computeCooldownMs (attempts : Z) : Z :=
  if 20 <=? attempts then 24 * 60 * 60 * 1000
  else if 10 <=? attempts then 60 * 60 * 1000
  else if 5 <=? attempts then 15 * 60 * 1000
  else if 3 <=? attempts then 5 * 60 * 1000
  else 0.
Record tally := mkTally {
  t_email : Z; t_webhooks : Z; t_whatsapp : Z; t_next : option Z; t_whatsapp_permanent : bool;
  t_results : list attempt; t_webhook_errors : list string }.
(** [if (ms > 0) ...]: the latest of the cooldowns. *)
Definition later (next : option Z) (t ms : Z) : option Z :=
  if ms <=? 0 then next else
  match next with Some n => if n <? t + ms then Some (t + ms) else next | None => Some (t + ms) end.
Definition rate_limit_message (m : string) : bool :=
  ilike "rate limit" m || ilike "rate-limit" m || ilike "ratelimit" m || ilike "maximum number of sent emails" m.
Definition code_text (v : jsval) : string := js_String (js_or v (Str EmptyString)).
Definition whatsapp_permanent (a : attempt) : bool :=
  let unavailable := bool_decide (code_text (a_errorCode a) = TEMPORARY_VERIFICATION_CODE)
                     || existsb is_unavailable (own_entries (a_recipients a)).*2 in
  bool_decide (a_channel a = "whatsapp"%string) && negb (a_success a) && negb (a_eligibilityTerminal a) && negb unavailable
  && negb (is_text "ORG_RATE_LIMIT" (a_errorMessage a))
  && negb (bool_decide (toLowerCase (code_text (a_errorCode a)) = "rate_limit"%string)).
Definition tally_channel (t : Z) (a : attempt) (errors : list string) (y : tally) : tally :=
  let is_ c := bool_decide (a_channel a = c) in
  let failed := negb (a_success a) && negb (a_eligibilityTerminal a) in
  let bump c n := if is_ c then (if failed then n + 1 else if a_success a then 0 else n) else n in
  let email := bump "email"%string (t_email y) in
  let webhooks := bump "webhooks"%string (t_webhooks y) in
  let whatsapp := bump "whatsapp"%string (t_whatsapp y) in
  let ms :=
    if negb failed then 0
    else if is_ "email"%string then
      let ms := computeCooldownMs email in
      if includes "RATE_LIMIT" (code_text (a_errorCode a)) || rate_limit_message (code_text (a_errorMessage a))
      then Z.max ms (60 * 60 * 1000) else ms
    else if is_ "webhooks"%string then computeCooldownMs webhooks
    else if is_ "whatsapp"%string then
      if is_text "ORG_RATE_LIMIT" (a_errorMessage a) || is_text "RATE_LIMIT" (a_errorCode a) then 75 * 1000
      else computeCooldownMs whatsapp
    else 0 in
  mkTally email webhooks whatsapp (later (t_next y) t ms) (t_whatsapp_permanent y || whatsapp_permanent a)
    (t_results y ++ [a]) errors.
Fixpoint run_channels (channels : list string) (group : jsval) (groups : list jsval) (prior : list log_row) (y : tally)
  : wprog tally :=
  match channels with
  | [] => mret y
  | channel :: channels =>
      s ← run_channel channel group groups prior (t_webhook_errors y);
      t ← clock;
      run_channels channels group groups prior (tally_channel t (attempt_of channel s) (c_webhook_errors s) y)
  end.

(** * Settling the alert *)

Definition append_error (m e : string) : string := if bool_decide (m = EmptyString) then e else m +:+ "; " +:+ e.
Definition append_if (b : bool) (e m : string) : string := if b then append_error m e else m.
Definition optional_text (m : string) : option string := if bool_decide (m = EmptyString) then None else Some m.
Definition reached_max (y : tally) : bool :=
  let reached n := MAX_ATTEMPTS_PER_CHANNEL <=? n in
  (0 <? MAX_ATTEMPTS_PER_CHANNEL) && (reached (t_email y) || reached (t_webhooks y) || reached (t_whatsapp y)).
(** What is required of the alert: its channels so far, and those live now. *)
Definition settlement_channels (channels : jsval) (live : list string) : list string :=
  match strict_parseDeliveryLedger channels with
  | Some l => if ledger_legacy l then live else dedup (default [] (state_channels channels) ++ live)
  | None => live
  end.
Definition failure_texts (y : tally) : string :=
  let failures := map (λ a, a_channel a +:+ ": " +:+ js_String (a_errorMessage a))
                    (List.filter (λ a, negb (a_success a)) (t_results y)) in
  append_if (forallb a_success (t_results y) && negb (is_nil (t_webhook_errors y)))
    ("webhooks(partial): " +:+ join "; " (t_webhook_errors y)) (join "; " failures).
Definition settle_row (live : list string) (prior : list log_row) (y : tally) : queue_row → queue_row :=
  let s := mergeDeliveryAttempt (q_channels alert) prior (t_results y) (Arr (map Str (settlement_channels (q_channels alert) live))) in
  let reachedMaxAttempts := reached_max y in
  let permanent := t_whatsapp_permanent y in
  let o := queueDeliveryOutcome (s_results s) permanent reachedMaxAttempts in
  let set status error channels next r :=
    with_status status (with_attempts (q_attempts alert + 1) (t_email y) (t_webhooks y) (t_whatsapp y)
      (with_error error (with_channels channels (with_next next r)))) in
  let errors := failure_texts y in
  if bool_decide (o_status o = "sent"%string) then set "sent"%string (optional_text errors) (settlement_json s) None
  else
    let blockDueToEligibility := notifyUnverified o && negb permanent && negb reachedMaxAttempts in
    let errors := append_if reachedMaxAttempts "MAX_ATTEMPTS" errors in
    let errors := append_if (blockDueToEligibility && negb (o_retry o))
      (match o_code o with Some "RECIPIENT_OPTED_OUT"%string => "RECIPIENT_OPTED_OUT" | _ => "NO_VERIFIED_RECIPIENTS" end)%string errors in
    let errors := append_if (notifyProviderTerminal o && negb permanent) "PERMANENT_DELIVERY_FAILURE" errors in
    let errors := append_if permanent "WHATSAPP_PERMANENT_FAILURE" errors in
    let channels := if permanent then ledger_json [] (s_required s) (s_outcomes s) else settlement_json s in
    let next := if o_retry o && negb reachedMaxAttempts && negb permanent then t_next y else None in
    set (o_status o) (optional_text errors) channels next.
(** Nothing to attempt: what the alert's history amounts to. *)
Definition idle_row (live : list string) (prior : list log_row) : queue_row → queue_row :=
  let idle := mergeDeliveryAttempt (q_channels alert) prior [] (match live with [] => Undef | _ => Arr (map Str live) end) in
  if is_nil (s_results idle) && is_nil live then
    λ r, with_status "failed" (with_attempts (q_attempts r + 1) (q_attempts_email r) (q_attempts_webhooks r)
      (q_attempts_whatsapp r) (with_error (Some "NO_CONTACTS_DEFINED: No email, webhook, or WhatsApp contacts are configured in the selected contact group"%string)
        (with_next None r)))
  else
    let status := if bool_decide (o_status (s_outcome idle) = "sent"%string) && existsb (λ row, negb (r_success row)) (s_results idle)
                  then "partial"%string else o_status (s_outcome idle) in
    λ r, with_status status (with_attempts (q_attempts r + 1) (q_attempts_email r)
      (q_attempts_webhooks r) (q_attempts_whatsapp r) (with_channels (settlement_json idle) (with_next None r))).

(** * One alert *)

Definition single_shot : bool :=
  startsWith "endpoint_health:" (q_alert_key alert) || startsWith "cert_renewal_failed:" (q_alert_key alert)
  || startsWith "agent_health:" (q_alert_key alert).
Definition alert_groups : list jsval * list jsval :=
  let resolved := Worker.resolveContactGroupsForAsset (cx_contact_groups cx) (cx_assigned_ids cx)
                    (cx_default_contact_group_id cx) in
  let thresholds := match cx_alert_thresholds cx with Arr l => finite_numbers l | _ => [] end in
  (resolved, if single_shot then resolved
             else unionGroupsForThresholdWindow resolved thresholds (q_threshold_days alert)).
(** contactGroupAuditFields: the id that the log rows carry. *)
Definition audit_group (resolved : list jsval) : jsval :=
  match canonicalLegacyContactGroupId (cx_assigned_ids cx), resolved with
  | Some i, _ => Str i
  | None, g :: _ => Str (js_String (get "id" g))
  | None, [] => Null
  end.
(** Looking up the group's name: a null entry before it throws. *)
Fixpoint group_name_found (id : string) (groups : list jsval) : bool :=
  match groups with
  | [] => true
  | g :: groups => negb (nullish g) && (bool_decide (js_String (get "id" g) = id) || group_name_found id groups)
  end.
Definition audit_fields_ok (group : jsval) : bool :=
  match group with Str i => group_name_found i (as_list (cx_contact_groups cx)) | _ => true end.
Definition discarded (message : string) (r : queue_row) : queue_row :=
  with_status "sent" (with_error (Some message) (with_next None r)).

(** Renewal failures resolve the job's certificate; retired ones and those
    that cannot be resolved are dropped. *)
Definition discard_reason : wprog (option string) :=
  certificate ← match parseCertRenewalFailedJobId (q_alert_key alert) with
                | Some job => c ← of_answer (in_renewal inp job); mret (Some c)
                | None => mret None
                end;
  let unavailable := match certificate with
                     | Some (Some c) => negb (bool_decide (Some (rn_token_id c) = q_token alert))
                     | Some None => true
                     | None => false
                     end in
  let status := match certificate with Some (Some c) => rn_status c | _ => Null end in
  mret (if unavailable then Some "Discarded: certificate renewal identity unavailable"%string
        else if shouldDiscardRetiredCertificateAlert (q_alert_key alert) (cx_cert_lifecycle_status cx) status
        then Some "Discarded: certificate revoked or decommissioned"%string else None).
(** [/^endpoint_health:([^:]+):down/]. *)
Definition monitor_id : option string :=
  match split_on ":" (q_alert_key alert) with
  | prefix :: monitor :: transition :: _ =>
      if bool_decide (prefix = "endpoint_health"%string) && negb (bool_decide (monitor = EmptyString))
         && startsWith "down" transition then Some monitor else None
  | _ => None
  end.
(** Whether the alert was put off or dropped; a failing check delivers. *)
Definition endpoint_deferred : wprog bool :=
  match monitor_id with
  | None => mret false
  | Some monitor =>
      catch
        (row ← of_answer (in_monitor inp monitor);
         match row with
         | None => mret false
         | Some (failures, after) =>
             let threshold := if after =? 0 then 2 else after in
             if failures <? threshold then _ ← release_ id (with_next None); mret true
             else if failures =? 0 then
               _ ← release_ id (discarded "Discarded: endpoint recovered before threshold"); mret true
             else mret false
         end)
        (λ _, mret false)
  end.
Definition window_deferred : wprog bool :=
  catch
    (t ← clock;
     if deliveryWindowAdmission cx t then mret false
     else _ ← release_ id (λ r, with_status "pending" (with_error (Some "OUT_OF_WINDOW"%string)
                (with_next (Some (t + window_deferral_ms)) r)));
          mret true)
    (λ _, mret false).

Definition deliver_channels : wprog unit :=
  let '(resolved, eligible) := alert_groups in
  let group := audit_group resolved in
  if negb (audit_fields_ok group) then throw (thrown "Cannot read properties of null (reading 'id')") else
  let live := deliveryChannelsFromEligibleGroups eligible (cx_email_alerts_enabled cx) (q_alert_key alert) in
  let final := channelsForDeliveryAttempt worker_parseQueuedChannels live (q_channels alert) (0 <? q_attempts alert) in
  history ← catch (read_log_ id) (λ _, mret []);
  let prior := map le_row history in
  let queued := strict_parseDeliveryLedger (q_channels alert) in
  let no_attempt := match queued with None => true | Some l => negb (ledger_legacy l) && is_nil final end in
  if no_attempt then
    let message := match queued with Some _ => "DELIVERY_LEDGER_NO_RETRY"%string | None => "UNSUPPORTED_DELIVERY_LEDGER"%string end in
    _ ← release_ id (λ r, with_status (if bool_decide (q_status r = "partial"%string) then "partial" else "blocked")
          (with_error (match q_error_message r with Some e => Some e | None => Some message end) (with_next None r)));
    mret tt
  else if is_nil final then _ ← release_ id (idle_row live prior); mret tt
  else
    y ← run_channels final group eligible prior
          (mkTally (q_attempts_email alert) (q_attempts_webhooks alert) (q_attempts_whatsapp alert) None false [] []);
    _ ← release_ id (settle_row live prior y); mret tt.
Definition deliver_claimed : wprog unit :=
  reason ← discard_reason;
  match reason with
  | Some message => _ ← release_ id (discarded message); mret tt
  | None =>
      deferred ← endpoint_deferred;
      if deferred : bool then mret tt else
      deferred ← window_deferred;
      if deferred : bool then mret tt else deliver_channels
  end.
(** An alert whose claim is lost is left to its new owner. *)
Definition deliver_alert : wprog unit :=
  catch (_ ← assertStillOwnsDelivery id; deliver_claimed)
    (λ e, match e with ownership_lost => mret tt | thrown m => throw (thrown m) end).
End alert.

(** * A run *)

(** What the claim's join and the outside world say of each alert. *)
Context (context_of : queue_row → alert_context) (inputs_of : queue_row → inputs).

Fixpoint deliver_all (alerts : list queue_row) : wprog unit :=
  match alerts with
  | [] => mret tt
  | alert :: alerts => _ ← deliver_alert (context_of alert) (inputs_of alert) alert; deliver_all alerts
  end.
(** The reconciliation of PagerDuty incidents before it, and the sweeps of
    incidents and mails after it, are not modelled. *)
Definition deliveryWorkerJob (asset_exists locked : queue_row → bool) : wprog unit :=
  alerts ← query (λ w, let '(w, l) := claim_alerts asset_exists locked claimId w in (w, Ok l));
  deliver_all alerts.
End worker.
