(* ===== verification/AlertLease.v ===== *)
(** The alert queue's claims, whoever writes the queue.

    A delivery worker's statements are [worker_write], all other code's are
    [other_write].  [lease] is the invariant of the claims and their markers:
    an alert within a claim's marker is that claim's row, or settled for good,
    and is within no other claim's.  [ledger_ok] is that of the deliveries: one
    not logged yet is within its claim's marker, every other is in the log,
    and no recipient was reached twice.  [relies] is what a worker may assume
    the others leave alone. *)
From S2P Require Import Prelude Dates Json Db AlertEligibility DeliveryLedger AlertQueue.
Open Scope Z_scope.

(** * Who writes what *)

Definition recipient_delivery (d : delivery) : bool := is_email_or_whatsapp (dv_channel d).
(** The log row that shows a recipient's delivery. *)
Definition shows (d : delivery) (row : log_row) : Prop :=
  dl_channel row = dv_channel d ∧ dl_status row = "success"%string ∧ get "recipient" (dl_metadata row) = Str (dv_target d).

(** The statements of the worker that claimed as [c]; [fresh w d]: what is known
    of a recipient's delivery when it is sent. *)
Inductive worker_write (c : string) (fresh : world → delivery → Prop) : world → world → Prop :=
| reads_clock w : worker_write c fresh w w
| renews w a : worker_write c fresh w (renew_claim a c w).1
| releases w a f : (∀ r, q_id (f r) = q_id r) → worker_write c fresh w (release a c f w).1
| reads_log w a : worker_write c fresh w (read_log c a w).1
| logs w entry logged :
    (∀ d, logged = Some d → recipient_delivery d = true → le_alert entry = dv_alert d ∧ shows d (le_row entry)) →
    worker_write c fresh w (insert_log c entry logged w)
| sends w d ok : (ok = true → recipient_delivery d = true → fresh w d) → worker_write c fresh w (transmit c d ok w).

(** A whole run's: it claims first. *)
Inductive job_write (c : string) (fresh : world → delivery → Prop) : world → world → Prop :=
| claims_alerts w asset locked : job_write c fresh w (claim_alerts asset locked c w).1
| writes_claimed w w' : worker_write c fresh w w' → job_write c fresh w w'.

(** Everything else that writes the queue, and the passing of time.  With
    [idle], a bulk requeue finds no alert claimed. *)
Inductive other_write (idle : Prop) : world → world → Prop :=
| time_passes w t : 0 <= t → other_write idle w (tick t w)
| discovers w user token key threshold due channels :
    other_write idle w (queue_alert user token key threshold due channels w).1
| reconciles_channels w a seen channels : other_write idle w (update_channels a seen channels w).1
| retries w access a channels :
    toLowerCase (q_status a) ≠ "sent"%string → other_write idle w (retry_update access a channels w).1
| requeues w a user channels : other_write idle w (requeue_update a user channels w).1
| bulk_requeues w scope b :
    (idle → ∀ r, r ∈ rows w → scope r = true → requeueable b r = true → q_claim r = None) →
    other_write idle w (requeueAlertsCore scope b w).1
| archives w token expiration : other_write idle w (archiveCertificateExpiryAlerts token expiration w)
| cleans_up w scope keep : other_write idle w (suppressPendingRetiredCertificateAlerts scope keep w)
| deletes w p : other_write idle w (delete p w)
| settles_incident w a status channels email whatsapp webhooks settled :
    other_write idle w (reconcilePagerDutyParentAlert a status channels email whatsapp webhooks settled w).1.

(** * The world's parts *)

Lemma Forall_lfilter {A} (P : A → Prop) p l : Forall P l → Forall P (List.filter p l).
Proof. rewrite !Forall_forall. intros H x [Hx _]%elem_of_lfilter. auto. Qed.

Lemma rows_update p f w : rows (update p f w).1 = map (λ r, if p r then f r else r) (rows w).
Proof. done. Qed.
Lemma checks_update p f w : checks (update p f w).1 = checks w.
Proof. done. Qed.
Lemma settle_rows c w : rows (settle_unlogged c w) = rows w.
Proof. unfold settle_unlogged. by destruct (assoc_has _ _). Qed.
Lemma settle_now c w : now (settle_unlogged c w) = now w.
Proof. unfold settle_unlogged. by destruct (assoc_has _ _). Qed.
Lemma settle_checks c w : checks (settle_unlogged c w) = checks w.
Proof. unfold settle_unlogged. by destruct (assoc_has _ _). Qed.
Lemma settle_next_id c w : next_id (settle_unlogged c w) = next_id w.
Proof. unfold settle_unlogged. by destruct (assoc_has _ _). Qed.
Lemma settle_log c w : log (settle_unlogged c w) = log w.
Proof. unfold settle_unlogged. by destruct (assoc_has _ _). Qed.
Lemma settle_accepted c w : accepted (settle_unlogged c w) = accepted w.
Proof. unfold settle_unlogged. by destruct (assoc_has _ _). Qed.
#[export] Hint Rewrite settle_rows settle_now settle_checks settle_next_id settle_log settle_accepted : settle.

Lemma marker_spec c a w :
  in_marker c a w = true ↔ ∃ t, assoc_get c (checks w) = Some (a, t) ∧ now w < t + CLAIM_MARKER_MS.
Proof.
  unfold in_marker. destruct (assoc_get c (checks w)) as [[i t]|]; [|naive_solver].
  rewrite andb_true_iff, Z.eqb_eq, Z.ltb_lt. naive_solver.
Qed.

(** * The lease *)

(** What the row of an alert in a claim's marker looks like. *)
Definition held_row (c : string) (t : Z) (r : queue_row) : Prop :=
  q_claim r = Some c ∧ q_next_attempt_at r = Some (t + CLAIM_MARKER_MS) ∧ status_in open_statuses r = true.
Definition final_row (r : queue_row) : Prop := q_claim r = None ∧ q_status r = "sent"%string.
Record lease (w : world) : Prop := {
  lease_unique : NoDup (map q_id (rows w));
  lease_ids : Forall (λ r, q_id r < next_id w) (rows w);
  lease_known : ∀ c a t, assoc_get c (checks w) = Some (a, t) → a < next_id w;
  lease_rows : ∀ c a t, assoc_get c (checks w) = Some (a, t) → now w < t + CLAIM_MARKER_MS →
    Forall (λ r, q_id r = a → held_row c t r ∨ final_row r) (rows w);
  lease_one : ∀ c c' a, in_marker c a w = true → in_marker c' a w = true → c = c' }.

Lemma same_id w r s : lease w → r ∈ rows w → s ∈ rows w → q_id r = q_id s → r = s.
Proof.
  intros [Hn _ _ _ _] Hr Hs. revert Hn Hr Hs. induction (rows w) as [|x l IH]; cbn; [by intros _ ?%elem_of_nil|].
  intros [Hx Hl]%NoDup_cons [->|Hr]%elem_of_cons [->|Hs]%elem_of_cons; [done| | |by auto]; intros E; exfalso; apply Hx;
    apply list_elem_of_fmap; [exists s|exists r]; done.
Qed.
Lemma marker_row w c a r : lease w → in_marker c a w = true → r ∈ rows w → q_id r = a →
  (∃ t, held_row c t r ∧ now w < t + CLAIM_MARKER_MS) ∨ final_row r.
Proof.
  intros Hw (t & Hc & Ht)%marker_spec Hr Ha. pose proof (lease_rows w Hw c a t Hc Ht) as H.
  rewrite Forall_forall in H. destruct (H r Hr Ha); [left; by exists t|by right].
Qed.

(** An update that leaves what the markers hold alone. *)
Definition respects (w : world) (p : queue_row → bool) (f : queue_row → queue_row) : Prop :=
  ∀ r, r ∈ rows w → p r = true → q_id (f r) = q_id r ∧
    ((∀ c t, assoc_get c (checks w) = Some (q_id r, t) → now w < t + CLAIM_MARKER_MS →
        (held_row c t r → final_row (f r) ∨ held_row c t (f r)) ∧ (final_row r → final_row (f r)))).
(** The rows are updated, and [c]'s check is forgotten or left. *)
Lemma lease_change w w' p f : lease w → respects w p f →
  rows w' = map (λ r, if p r then f r else r) (rows w) → next_id w' = next_id w → now w <= now w' →
  (∀ c x, assoc_get c (checks w') = Some x → assoc_get c (checks w) = Some x) → lease w'.
Proof.
  intros Hw Hr Hrows Hnext Hnow Hchecks. destruct Hw as [H0 H1 H2 H3 H4]. split.
  - rewrite Hrows, map_map. erewrite map_ext_in; [exact H0|]. intros r Hin%list_elem_of_In. cbn.
    destruct (p r) eqn:Hp; [|done]. by apply Hr.
  - rewrite Hrows, Hnext. apply Forall_map, Forall_forall. intros r Hin. rewrite Forall_forall in H1.
    cbn. destruct (p r) eqn:Hp; [|by apply H1]. rewrite (proj1 (Hr r Hin Hp)). by apply H1.
  - intros c a t Hc. rewrite Hnext. eauto.
  - intros c a t Hc%Hchecks Ht. rewrite Hrows. apply Forall_map, Forall_forall. intros r Hin. cbn.
    assert (now w < t + CLAIM_MARKER_MS) as Ht' by lia.
    specialize (H3 c a t Hc Ht'). rewrite Forall_forall in H3. specialize (H3 r Hin).
    destruct (p r) eqn:Hp; [|done]. destruct (Hr r Hin Hp) as [Hi Hk]. rewrite Hi. intros <-.
    destruct (Hk c t Hc Ht'). naive_solver.
  - intros c c' a (t & Hc & Ht)%marker_spec (t' & Hc' & Ht')%marker_spec.
    apply (H4 c c' a); apply marker_spec; [exists t|exists t']; (split; [by apply Hchecks|lia]).
Qed.
Lemma lease_update w p f : lease w → respects w p f → lease (update p f w).1.
Proof. intros Hw Hr. by apply (lease_change w _ p f). Qed.
Lemma lease_same w w' : lease w → rows w' = rows w → next_id w' = next_id w → now w <= now w' →
  checks w' = checks w → lease w'.
Proof.
  intros Hw Hrows Hn Ht Hc. apply (lease_change w w' (λ _, false) id); [done|intros r _; discriminate| |done|done|by rewrite Hc].
  by rewrite Hrows, map_id.
Qed.
Lemma lease_delete w p : lease w → lease (delete p w).
Proof.
  intros [H0 H1 H2 H3 H4]. split; [|by apply Forall_lfilter|done| |done].
  - cbn. clear H1 H2 H3 H4. revert H0. induction (rows w) as [|r l IH]; [done|]. cbn. intros [Hr Hl]%NoDup_cons.
    destruct (p r); cbn; [by auto|]. apply NoDup_cons. split; [|by auto]. contradict Hr.
    apply list_elem_of_fmap in Hr as (s & -> & [Hs _]%elem_of_lfilter). by apply list_elem_of_fmap_2.
  - intros c a t Hc Ht. by apply Forall_lfilter, (H3 c a t).
Qed.
(** Rows that no claim is taken on and that are not final are in no marker. *)
Lemma untouched w p f :
  (∀ r, r ∈ rows w → p r = true → q_id (f r) = q_id r) →
  (∀ r, r ∈ rows w → p r = true → ¬ final_row r ∧ (q_claim r = None ∨ elapsed w r = true ∨ status_in open_statuses r = false)) →
  respects w p f.
Proof.
  intros Hid Hp r Hin Hpr. split; [by apply Hid|]. intros c t Hc Ht. destruct (Hp r Hin Hpr) as [Hf Hcase].
  split; [|done]. intros (Hcl & Hn & Ho). exfalso. unfold elapsed in Hcase. rewrite Hcl, Hn, Ho in Hcase.
  destruct Hcase as [|[Hle|]]; [done| |done]. apply Z.leb_le in Hle. lia.
Qed.

(** ** The worker's statements *)

Lemma owned_spec a c r : owned a c r = true ↔ q_id r = a ∧ q_claim r = Some c.
Proof. unfold owned. by rewrite andb_true_iff, Z.eqb_eq, bool_decide_eq_true. Qed.
Lemma settle_lease c w : lease w → lease (settle_unlogged c w).
Proof. intros Hw. apply (lease_same w); autorewrite with settle; done. Qed.
(** Rows of [c]'s own, once its check is forgotten. *)
Lemma lease_own w w' c p f : lease w → (∀ r, q_id (f r) = q_id r) → (∀ r, p r = true → q_claim r = Some c) →
  rows w' = map (λ r, if p r then f r else r) (rows w) → next_id w' = next_id w → now w' = now w →
  (∀ c', assoc_get c' (checks w') = if decide (c' = c) then None else assoc_get c' (checks w)) → lease w'.
Proof.
  intros Hw Hf Hp Hrows Hn Ht Hc. set (v := set_checks (checks w') w).
  assert (Hsub : ∀ c' x, assoc_get c' (checks w') = Some x → assoc_get c' (checks w) = Some x).
  { intros c' x. rewrite Hc. by case_decide. }
  assert (Hv : lease v).
  { apply (lease_change w v (λ _, false) id); [done|intros r _; discriminate| |done|done|done]. cbn. by rewrite map_id. }
  apply (lease_change v w' p f); [done| |done|done|cbn; lia|done].
  intros r _ Hpr. split; [done|]. intros c' t. cbn. rewrite Hc. case_decide as E; [done|]. intros _ _.
  unfold held_row, final_row. rewrite (Hp r Hpr). naive_solver.
Qed.
Lemma release_lease w a c f : lease w → (∀ r, q_id (f r) = q_id r) → lease (release a c f w).1.
Proof.
  intros Hw%(settle_lease c) Hf. unfold release. cbn. set (v := settle_unlogged c w) in *. clearbody v.
  apply (lease_own v _ c (owned a c) (λ r, with_claim None (f r))); try done.
  - by intros r [_ Hc]%owned_spec.
  - intros c'. cbn. case_decide as E; [subst; apply assoc_remove_get_eq|by apply assoc_remove_get_ne].
Qed.
(** An ownership check of a row held since now. *)
Lemma lease_check w w' c r : lease w → assoc_get c (checks w) = None →
  r ∈ rows w → held_row c (now w) r →
  rows w' = rows w → next_id w' = next_id w → now w' = now w →
  (∀ c', assoc_get c' (checks w') = if decide (c' = c) then Some (q_id r, now w) else assoc_get c' (checks w)) → lease w'.
Proof.
  intros Hw Hnone Hin Hheld Hrows Hn Ht Hc.
  assert (Hone : ∀ c', c' ≠ c → in_marker c' (q_id r) w' = true → False).
  { intros c' Hne (t & Hc' & Hlt)%marker_spec. rewrite Hc, decide_False, Ht in * by done.
    destruct (marker_row w c' (q_id r) r) as [(u & (Hcl & _) & _)|[Hcl _]]; try done;
      [apply marker_spec; by exists t|..]; destruct Hheld as [Hcl' _]; congruence. }
  split.
  - rewrite Hrows. apply Hw.
  - rewrite Hrows, Hn. apply Hw.
  - intros c' a t. rewrite Hc, Hn. case_decide; [|apply Hw]. intros [= <- _].
    pose proof (lease_ids w Hw) as Hi. rewrite Forall_forall in Hi. by apply Hi.
  - intros c' a t. rewrite Hc, Hrows, Ht. case_decide as E; [|apply Hw]. intros [= <- <-] _. subst c'.
    apply Forall_forall. intros s Hs Hid. left. by rewrite (same_id w s r Hw).
  - intros c1 c2 a H1 H2. destruct (decide (c1 = c)) as [->|E1], (decide (c2 = c)) as [->|E2]; [done|..].
    + exfalso. apply (Hone c2 E2). apply marker_spec in H1 as (t & H1 & _). rewrite Hc, decide_True in H1 by done.
      injection H1 as <- _. done.
    + exfalso. apply (Hone c1 E1). apply marker_spec in H2 as (t & H2 & _). rewrite Hc, decide_True in H2 by done.
      injection H2 as <- _. done.
    + apply (lease_one w Hw c1 c2 a); apply marker_spec;
        [apply marker_spec in H1 as (t & H & ?)|apply marker_spec in H2 as (t & H & ?)]; exists t;
        rewrite Hc, decide_False, Ht in * by done; done.
Qed.
Lemma renew_lease w a c : lease w → lease (renew_claim a c w).1.
Proof.
  intros Hw%(settle_lease c). unfold renew_claim. set (v := settle_unlogged c w) in *. clearbody v.
  set (p := λ r, owned a c r && status_in open_statuses r). set (f := with_next (Some (now v + CLAIM_MARKER_MS))).
  assert (Hp : ∀ r, p r = true → q_id r = a ∧ q_claim r = Some c ∧ status_in open_statuses r = true).
  { intros r [[??]%owned_spec ?]%andb_true_iff. done. }
  unfold update. destruct (List.filter p (rows v)) as [|r l] eqn:El.
  - change (Z.of_nat (length (@nil queue_row)) =? 0) with true. apply (lease_same v); try done. cbn.
    etransitivity; [|apply map_id]. apply map_ext_in.
    intros r Hr%list_elem_of_In. by rewrite (proj1 (lfilter_nil p (rows v)) El r Hr).
  - cbn [length fst snd]. rewrite (proj2 (Z.eqb_neq _ 0)) by lia. cbn [fst].
    assert (r ∈ rows v ∧ p r = true) as [Hin Hpr] by (apply elem_of_lfilter; rewrite El; by left).
    set (u := set_checks (assoc_remove c (checks v)) (set_rows (map (λ r, if p r then f r else r) (rows v)) v)).
    assert (Hu : lease u).
    { apply (lease_own v u c p f); try done; [by intros s (_&?&_)%Hp|]. intros c'. cbn.
      case_decide; [subst; apply assoc_remove_get_eq|by apply assoc_remove_get_ne]. }
    destruct (Hp r Hpr) as (Hid & Hcl & Ho).
    apply (lease_check u _ c (f r)); try done; cbn.
    + apply assoc_remove_get_eq.
    + apply list_elem_of_fmap. exists r. by rewrite Hpr.
    + intros c'. rewrite <- Hid. case_decide as E; [subst; apply assoc_get_set_eq|].
      rewrite assoc_get_set_ne, assoc_remove_get_ne; done.
Qed.
Lemma claim_lease w asset locked c : lease w → lease (claim_alerts asset locked c w).1.
Proof.
  intros Hw. unfold claim_alerts. cbn [fst]. set (l := List.filter _ (rows w)). apply lease_update; [done|].
  apply untouched; [done|]. intros r Hin Hp%bool_decide_eq_true.
  apply list_elem_of_fmap in Hp as (s & Hid & Hs).
  assert (s ∈ l) as [Hs' Hcl]%elem_of_lfilter.
  { rewrite <- (merge_sort_Permutation due_le). apply list_elem_of_In in Hs. apply list_elem_of_In.
    rewrite <- (firstn_skipn 1000). apply in_or_app. by left. }
  rewrite <- (same_id w r s Hw Hin Hs' Hid) in Hcl. apply andb_true_iff in Hcl as [Hcl _].
  unfold claimable in Hcl. rewrite !andb_true_iff in Hcl. destruct Hcl as [[[[Ho _] _] _] He].
  split; [|by right; left]. intros [_ Hsent]. unfold status_in in Ho. by rewrite Hsent in Ho.
Qed.
Lemma worker_lease c fresh w w' : worker_write c fresh w w' → lease w → lease w'.
Proof.
  intros H Hw. destruct H as [w|w a|w a f Hf|w a|w entry logged _|w d ok _].
  - done.
  - by apply renew_lease.
  - by apply release_lease.
  - by apply settle_lease.
  - unfold insert_log. destruct logged as [d|], (assoc_get c (unlogged w)) as [d'|];
      first [case_bool_decide|idtac]; apply (lease_same w); autorewrite with settle; try done; cbn; by autorewrite with settle.
  - unfold transmit. apply (settle_lease c) in Hw. set (v := settle_unlogged c w) in *. clearbody v.
    destruct ok; [|done]. destruct (in_marker c (dv_alert d) v); by apply (lease_same v).
Qed.
Lemma job_lease c fresh w w' : job_write c fresh w w' → lease w → lease w'.
Proof. intros []; [by apply claim_lease|by eapply worker_lease]. Qed.

(** ** The other writers *)

Lemma status_in_spec l r : status_in l r = true ↔ q_status r ∈ l.
Proof. unfold status_in. by rewrite bool_decide_eq_true. Qed.
Lemma not_sent r l : status_in l r = true → bool_decide ("sent"%string ∈ l) = false → q_status r ≠ "sent"%string.
Proof. intros Hs Hn E. unfold status_in in Hs. rewrite E, Hn in Hs. done. Qed.
Ltac split_guard := rewrite ?andb_true_iff, ?bool_decide_eq_true in *; destruct_and?.
(** An update of rows that no worker has claimed and that are not final. *)
Lemma lease_unclaimed w p f : lease w → (∀ r, q_id (f r) = q_id r) →
  (∀ r, r ∈ rows w → p r = true → q_claim r = None ∧ q_status r ≠ "sent"%string) → lease (update p f w).1.
Proof.
  intros Hw Hf Hp. apply lease_update; [done|]. apply untouched; [by intros|]. intros r Hin Hr.
  destruct (Hp r Hin Hr). split; [by intros [_ ?]|by left].
Qed.
(** An update that ends alerts for good, whoever holds them. *)
Lemma lease_final w p f : lease w → (∀ r, q_id (f r) = q_id r) →
  (∀ r, q_claim (f r) = None) → (∀ r, p r = true → q_status r ∈ "sent"%string :: RETIRED_CERT_UNSENT_ALERT_STATUSES → q_status (f r) = "sent"%string) →
  lease (update p f w).1.
Proof.
  intros Hw Hf Hc Hs. apply lease_update; [done|]. intros r _ Hr. split; [done|]. intros c t _ _.
  assert (Hfinal : q_status r ∈ "sent"%string :: RETIRED_CERT_UNSENT_ALERT_STATUSES → final_row (f r)) by (split; auto).
  split.
  - intros (_ & _ & Ho%status_in_spec). left. apply Hfinal. unfold open_statuses, RETIRED_CERT_UNSENT_ALERT_STATUSES in *. set_solver.
  - intros [_ E]. apply Hfinal. rewrite E. by left.
Qed.
Lemma queue_lease w user token key threshold due channels : lease w → lease (queue_alert user token key threshold due channels w).1.
Proof.
  intros Hw. unfold queue_alert. destruct (existsb _ _); [done|]. destruct Hw as [H0 H1 H2 H3 H4].
  rewrite Forall_forall in H1. split; cbn.
  - rewrite map_app. apply NoDup_app. split; [done|]. split; [|apply NoDup_singleton]. cbn.
    intros i (r & -> & Hr)%list_elem_of_fmap E%list_elem_of_singleton. specialize (H1 r Hr). lia.
  - rewrite Forall_app, Forall_singleton. cbn. split; [|lia]. apply Forall_forall. intros r Hr. specialize (H1 r Hr). lia.
  - intros c a t Hc. specialize (H2 c a t Hc). lia.
  - intros c a t Hc Ht. rewrite Forall_app, Forall_singleton. cbn. split; [by apply (H3 c a t)|].
    specialize (H2 c a t Hc). intros. lia.
  - done.
Qed.
Lemma other_lease (w w' : world) : other_write True w w' → lease w → lease w'.
Proof.
  intros H Hw. destruct H as [w t Ht|w user token key threshold due channels|w a seen channels|w access a channels Hs
    |w a user channels|w scope b Hidle|w token expiration|w scope keep|w p|w a status channels email whatsapp webhooks settled].
  - unfold tick. destruct (forallb _ _); apply (lease_same w); cbn; done || lia.
  - by apply queue_lease.
  - apply lease_unclaimed; [done..|]. intros r _ Hr. split_guard. split; [done|by eapply not_sent].
  - apply lease_update; [done|]. apply untouched; [done|]. intros r _ Hr. split_guard.
    split; [|by right; left]. intros [_ E]. apply Hs. assert (q_status a = "sent"%string) as -> by congruence. done.
  - apply lease_unclaimed; [done..|]. intros r _ Hr. split_guard. split; [done|congruence].
  - apply lease_unclaimed; [done..|]. intros r Hin [Hsc Hr]%andb_true_iff. split; [by apply Hidle|].
    intros E. unfold requeueable, status_in in Hr. by rewrite E in Hr.
  - apply lease_final; [done|intros r; by destruct (status_in _ r)|intros r; by destruct (status_in _ r)|].
    intros r _ [E|Hin]%elem_of_cons.
    + cbn. by destruct (status_in _ r).
    + apply status_in_spec in Hin. by rewrite Hin.
  - unfold suppressPendingRetiredCertificateAlerts. destruct keep; [by apply lease_final|by apply lease_delete].
  - by apply lease_delete.
  - apply lease_unclaimed; [done..|]. intros r _ Hr. unfold pagerduty_parent in Hr. split_guard. split; [done|by eapply not_sent].
Qed.

(** * Who may deliver an alert *)

(** [c] has claimed the alert, or is still within the marker of its claim. *)
Definition own (c : string) (a : Z) (w : world) : Prop :=
  (∃ r, r ∈ rows w ∧ q_id r = a ∧ q_claim r = Some c) ∨ in_marker c a w = true.
Lemma own_alone c c' a w : lease w → in_marker c a w = true → own c' a w → c = c'.
Proof.
  intros Hw Hm [(r & Hin & Ha & Hc)|Hm']; [|by apply (lease_one w Hw c c' a)].
  destruct (marker_row w c a r Hw Hm Hin Ha) as [(t & (Hc' & _) & _)|[Hc' _]]; congruence.
Qed.
(** Claims and checks that only get fewer. *)
Lemma own_fewer c w w' p f :
  (∀ r, p r = true → q_id (f r) = q_id r ∧ (q_claim (f r) = Some c → q_claim r = Some c)) →
  (∀ r, r ∈ rows w' → ∃ s, s ∈ rows w ∧ r = if p s then f s else s) →
  (∀ x, assoc_get c (checks w') = Some x → assoc_get c (checks w) = Some x) → now w <= now w' →
  ∀ a, own c a w' → own c a w.
Proof.
  intros Hf Hrows Hc Ht a [(r & Hin & Ha & Hcl)|(t & Hm & Hlt)%marker_spec].
  - left. destruct (Hrows r Hin) as (s & Hs & ->). exists s. destruct (p s) eqn:Hp; [|done].
    destruct (Hf s Hp) as [Hi Hcl']. rewrite <- Hi. auto.
  - right. apply marker_spec. exists t. split; [by apply Hc|lia].
Qed.
Lemma own_update c w p f :
  (∀ r, p r = true → q_id (f r) = q_id r ∧ (q_claim (f r) = Some c → q_claim r = Some c)) →
  ∀ a, own c a (update p f w).1 → own c a w.
Proof.
  intros Hf. apply (own_fewer c w _ p f); try done. intros r. cbn. intros (s & -> & Hs)%list_elem_of_fmap. by exists s.
Qed.
Lemma own_same c w w' : rows w' = rows w → checks w' = checks w → now w <= now w' → ∀ a, own c a w' → own c a w.
Proof.
  intros Hr Hc Ht. apply (own_fewer c w w' (λ _, false) id); [done| |by rewrite Hc|done]. rewrite Hr. intros r Hin. by exists r.
Qed.
Lemma settle_own c c' w a : own c' a (settle_unlogged c w) → own c' a w.
Proof. apply own_same; by autorewrite with settle. Qed.
Lemma renew_own c c' a w b : own c' b (renew_claim a c w).1 → own c' b w.
Proof.
  unfold renew_claim. set (v := settle_unlogged c w). intros H. apply (settle_own c). fold v. revert H. clearbody v.
  set (p := λ r, owned a c r && status_in open_statuses r). set (f := with_next _).
  assert (Hu : ∀ b, own c' b (update p f v).1 → own c' b v) by (by apply own_update).
  destruct (update p f v) as [u n] eqn:Eu. destruct (n =? 0) eqn:En; cbn [fst]; [apply Hu|].
  assert (∃ r, r ∈ rows v ∧ p r = true) as (r & Hr & Hp).
  { unfold update in Eu. injection Eu as _ <-. destruct (List.filter p (rows v)) as [|r l] eqn:El; [done|].
    exists r. apply elem_of_lfilter. rewrite El. by left. }
  apply andb_true_iff in Hp as [[Hid Hcl]%owned_spec _].
  intros [Hrow|(t & Hc & Ht)%marker_spec]; [by apply Hu; left|]. cbn in *. destruct (decide (c' = c)) as [->|Hne].
  - rewrite assoc_get_set_eq in Hc. injection Hc as <- _. left. by exists r.
  - rewrite assoc_get_set_ne in Hc by done. apply Hu. right. apply marker_spec. by exists t.
Qed.
Lemma release_own c c' a f w b : (∀ r, q_id (f r) = q_id r) → own c' b (release a c f w).1 → own c' b w.
Proof.
  intros Hf H. apply (settle_own c). revert H. unfold release. cbn. set (v := settle_unlogged c w). clearbody v.
  apply (own_fewer c' v _ (owned a c) (λ r, with_claim None (f r))); try done.
  - intros r _. split; [apply Hf|done].
  - intros r. cbn. intros (s & -> & Hs)%list_elem_of_fmap. by exists s.
  - intros x. cbn. destruct (decide (c' = c)) as [->|Hne]; [by rewrite assoc_remove_get_eq|by rewrite assoc_remove_get_ne].
Qed.
Lemma worker_own c c' fresh w w' a : worker_write c fresh w w' → own c' a w' → own c' a w.
Proof.
  intros H. destruct H as [w|w b|w b f Hf|w b|w entry logged _|w d ok _].
  - done.
  - apply renew_own.
  - by apply release_own.
  - apply settle_own.
  - unfold insert_log. destruct logged as [d|], (assoc_get c (unlogged w)) as [d'|];
      first [case_bool_decide|idtac]; apply own_same; cbn; by autorewrite with settle.
  - unfold transmit. intros H. apply (settle_own c). revert H. set (v := settle_unlogged c w). clearbody v.
    destruct ok; [|done]. destruct (in_marker c (dv_alert d) v); by apply own_same.
Qed.
Lemma job_own c c' fresh w w' a : c' ≠ c → job_write c fresh w w' → own c' a w' → own c' a w.
Proof.
  intros Hne [v asset locked|v v' H]; [|by eapply worker_own]. apply own_update. intros r _. split; [done|]. by intros [= <-].
Qed.
Lemma other_own idle c w w' a : other_write idle w w' → own c a w' → own c a w.
Proof.
  intros H. destruct H as [w t Ht|w user token key threshold due channels|w b seen channels|w access b channels Hs
    |w b user channels|w scope b Hidle|w token expiration|w scope keep|w p|w b status channels email whatsapp webhooks settled];
    try (apply own_update; intros r _; done).
  - unfold tick. destruct (forallb _ _); apply own_same; cbn; done || lia.
  - unfold queue_alert. destruct (existsb _ _); [done|].
    intros [(r & [Hin|E%list_elem_of_singleton]%elem_of_app & ? & Hc)|H]; [left; by exists r|by subst|by right].
  - apply own_update. intros r _. by destruct (status_in _ r).
  - unfold suppressPendingRetiredCertificateAlerts. destruct keep; [by apply own_update|].
    apply (own_fewer c w _ (λ _, false) id); try done. intros r [Hr _]%elem_of_lfilter. by exists r.
  - apply (own_fewer c w _ (λ _, false) id); try done. intros r [Hr _]%elem_of_lfilter. by exists r.
Qed.

(** * Deliveries and their log *)

Definition logged (w : world) (d : delivery) : Prop :=
  ∃ e, e ∈ log w ∧ le_alert e = dv_alert d ∧ shows d (le_row e).
(** While no delivery has outlived its marker: a delivery not yet logged is
    within its claim's marker, every other is logged, and no recipient was
    reached twice. *)
Record ledger_facts (w : world) : Prop := {
  unlogged_held : ∀ c d, assoc_get c (unlogged w) = Some d → in_marker c (dv_alert d) w = true;
  accepted_logged : ∀ d, d ∈ accepted w → recipient_delivery d = true →
    logged w d ∨ ∃ c, assoc_get c (unlogged w) = Some d;
  reached_once : NoDup (List.filter recipient_delivery (accepted w)) }.
Definition ledger_ok (w : world) : Prop := overrun w = false → ledger_facts w.

(** What a sender knows: its delivery has not been made. *)
Definition once (c : string) (w : world) (d : delivery) : Prop :=
  overrun w = false → own c (dv_alert d) w → d ∉ accepted w.

Lemma settled c w : overrun (settle_unlogged c w) = false →
  settle_unlogged c w = w ∧ overrun w = false ∧ assoc_get c (unlogged w) = None.
Proof.
  unfold settle_unlogged, assoc_has. destruct (assoc_get c (unlogged w)); [done|]. done.
Qed.
Lemma ledger_quiet w w' : ledger_ok w →
  (overrun w' = false → overrun w = false ∧ accepted w' = accepted w ∧ unlogged w' = unlogged w ∧
     (∀ e, e ∈ log w → e ∈ log w') ∧
     ∀ c d, assoc_get c (unlogged w) = Some d → in_marker c (dv_alert d) w = true → in_marker c (dv_alert d) w' = true) →
  ledger_ok w'.
Proof.
  intros Hw H Ho. destruct (H Ho) as (Ho' & Ha & Hu & Hl & Hm). destruct (Hw Ho') as [H1 H2 H3]. split.
  - intros c d. rewrite Hu. auto.
  - intros d. rewrite Ha, Hu. intros Hd Hr. destruct (H2 d Hd Hr) as [(e & He & ?)|]; [left; exists e; auto|by right].
  - by rewrite Ha.
Qed.
Lemma settle_ledger c w : ledger_ok w → ledger_ok (settle_unlogged c w).
Proof. intros Hw Ho. destruct (settled c w Ho) as (-> & ? & _). by apply Hw. Qed.
(** Another claim's marker. *)
Lemma marker_other c a w w' : checks w' = checks w → now w' = now w → in_marker c a w' = in_marker c a w.
Proof. unfold in_marker. by intros -> ->. Qed.
Lemma marker_lookup c a w w' : assoc_get c (checks w') = assoc_get c (checks w) → now w' = now w →
  in_marker c a w' = in_marker c a w.
Proof. unfold in_marker. by intros -> ->. Qed.
Lemma renew_ledger a c w : ledger_ok w → ledger_ok (renew_claim a c w).1.
Proof.
  intros Hw. unfold renew_claim. destruct (update _ _ (settle_unlogged c w)) as [u n] eqn:Eu.
  assert (Ho : overrun u = overrun (settle_unlogged c w)) by (by injection Eu as <- _).
  destruct (n =? 0); injection Eu as <- _; cbn [fst]; apply (ledger_quiet w); try done; cbn; intros H;
    destruct (settled c w H) as (-> & ? & Hn); split_and!; try done.
  intros c' d Hc' <-. apply marker_lookup; [|done]. cbn. apply assoc_get_set_ne. congruence.
Qed.
Lemma release_ledger a c f w : ledger_ok w → ledger_ok (release a c f w).1.
Proof.
  intros Hw. apply (ledger_quiet w); [done|]. cbn. intros H. destruct (settled c w H) as (-> & ? & Hn). split_and!; try done.
  intros c' d Hc' <-. apply marker_lookup; [|done]. cbn. apply assoc_remove_get_ne. congruence.
Qed.
Lemma append_log_ledger w e : ledger_ok w → ledger_ok (set_log (log w ++ [e]) w).
Proof.
  intros Hw. apply (ledger_quiet w); [done|]. cbn. intros H. split_and!; try done.
  intros x Hx. apply elem_of_app. by left.
Qed.
Lemma insert_ledger c e lg w :
  (∀ d, lg = Some d → recipient_delivery d = true → le_alert e = dv_alert d ∧ shows d (le_row e)) →
  ledger_ok w → ledger_ok (insert_log c e lg w).
Proof.
  intros He Hw. unfold insert_log. destruct lg as [d|]; [|by apply append_log_ledger, settle_ledger].
  destruct (assoc_get c (unlogged w)) as [d'|] eqn:Ed; [|by apply append_log_ledger, settle_ledger].
  case_bool_decide as E; [subst d'|by apply append_log_ledger, settle_ledger].
  intros Ho. destruct (Hw Ho) as [H1 H2 H3]. split; [| |done].
  - intros c' d'. cbn. destruct (decide (c' = c)) as [->|Hne]; [by rewrite assoc_remove_get_eq|].
    rewrite assoc_remove_get_ne by done. apply H1.
  - intros d' Hd' Hr. cbn in *.
    assert (Hmono : logged w d' → logged (set_log (log w ++ [e]) w) d').
    { intros (x & Hx & ?). exists x. split; [apply elem_of_app; by left|done]. }
    destruct (H2 d' Hd' Hr) as [Hl|[c' Hc']]; [left; by apply Hmono|]. destruct (decide (c' = c)) as [->|Hne].
    + left. rewrite Ed in Hc'. injection Hc' as ->. exists e. split; [apply elem_of_app; right; by left|]. by apply He.
    + right. exists c'. by rewrite assoc_remove_get_ne.
Qed.
Lemma transmit_ledger c d ok w : (ok = true → recipient_delivery d = true → once c w d) →
  ledger_ok w → ledger_ok (transmit c d ok w).
Proof.
  intros Hf Hw. unfold transmit. destruct ok; [|by apply settle_ledger]. intros Ho.
  destruct (in_marker c (dv_alert d) (settle_unlogged c w)) eqn:Em; [|done]. cbn in Ho.
  destruct (settled c w Ho) as (Hv & How & Hn). rewrite Hv in *. destruct (Hw How) as [H1 H2 H3]. split.
  - intros c' d'. cbn. destruct (decide (c' = c)) as [->|Hne]; [rewrite assoc_get_set_eq; by intros [= <-]|].
    rewrite assoc_get_set_ne by done. apply H1.
  - intros d' [Hd'|E%list_elem_of_singleton]%elem_of_app Hr; cbn in *; [|subst; right; exists c; apply assoc_get_set_eq].
    destruct (H2 d' Hd' Hr) as [?|[c' Hc']]; [by left|]. right. exists c'. rewrite assoc_get_set_ne; [done|congruence].
  - cbn. rewrite List.filter_app. cbn. destruct (recipient_delivery d) eqn:Er; [|by rewrite app_nil_r].
    apply NoDup_app. split; [done|]. split; [|apply NoDup_singleton].
    intros x [Hx _]%elem_of_lfilter ->%list_elem_of_singleton. by apply (Hf eq_refl eq_refl How); [right|].
Qed.
Lemma worker_ledger c w w' : worker_write c (once c) w w' → ledger_ok w → ledger_ok w'.
Proof.
  intros H Hw. destruct H as [w|w b|w b f Hf|w b|w entry lg He|w d ok Hok].
  - done.
  - by apply renew_ledger.
  - by apply release_ledger.
  - by apply settle_ledger.
  - by apply insert_ledger.
  - by apply transmit_ledger.
Qed.
(** What other code leaves alone. *)
Lemma other_frame idle w w' : other_write idle w w' →
  (∃ t, w' = tick t w) ∨
  now w' = now w ∧ log w' = log w ∧ accepted w' = accepted w ∧ checks w' = checks w ∧ unlogged w' = unlogged w ∧ overrun w' = overrun w.
Proof.
  intros H. destruct H as [w t Ht| | | | | | |w scope keep| |]; try (right; by split_and!).
  - left. by exists t.
  - right. unfold queue_alert. by destruct (existsb _ _).
  - right. unfold suppressPendingRetiredCertificateAlerts. by destruct keep.
Qed.
Lemma other_ledger idle w w' : other_write idle w w' → ledger_ok w → ledger_ok w'.
Proof.
  intros H Hw. destruct (other_frame _ _ _ H) as [[t ->]|(Ht & Hl & Ha & Hc & Hu & Ho)].
  - unfold tick. set (u := set_now (now w + t) w). destruct (forallb _ (unlogged u)) eqn:E; [|done].
    apply (ledger_quiet w); [done|]. cbn. intros Ho. split_and!; try done. intros c d Hd _.
    rewrite forallb_forall in E. apply (E (c, d)). by apply list_elem_of_In, assoc_get_In.
  - apply (ledger_quiet w); [done|]. rewrite Ho, Hl. intros How. split_and!; try done. intros c d _ <-. by apply marker_other.
Qed.

(** * What a worker may rely on *)

Definition relies (c : string) (w w' : world) : Prop :=
  overrun w' = false → overrun w = false ∧ ∀ a, own c a w' → own c a w ∧
    ∀ d, dv_alert d = a → recipient_delivery d = true → d ∈ accepted w' → d ∈ accepted w.
#[global] Instance relies_refl c : Reflexive (relies c).
Proof. intros w Ho. split; [done|]. auto. Qed.
#[global] Instance relies_trans c : Transitive (relies c).
Proof.
  intros w1 w2 w3 H1 H2 Ho. destruct (H2 Ho) as [Ho2 H3]. destruct (H1 Ho2) as [Ho1 H4]. split; [done|].
  intros a Ha. destruct (H3 a Ha) as [Ha2 Hd2]. destruct (H4 a Ha2) as [Ha1 Hd1]. split; [done|]. auto.
Qed.
(** The accepted deliveries after a statement. *)
Lemma worker_accepted c fresh w w' : worker_write c fresh w w' → overrun w' = false → overrun w = false ∧
  ∀ d, d ∈ accepted w' → d ∈ accepted w ∨
    in_marker c (dv_alert d) w = true ∧ (recipient_delivery d = true → fresh w d).
Proof.
  intros H Ho. destruct H as [w|w b|w b f Hf|w b|w entry lg He|w d ok Hok].
  - auto.
  - unfold renew_claim in *. set (v := settle_unlogged c w) in *. destruct (update _ _ v) as [u n] eqn:Eu.
    assert (overrun u = overrun v ∧ accepted u = accepted v) as [E1 E2] by (by injection Eu as <- _).
    destruct (n =? 0); cbn in *; rewrite E1 in Ho; destruct (settled c w Ho) as (E & ? & _); unfold v in E2; rewrite E2, E; auto.
  - cbn in *. destruct (settled c w Ho) as (-> & ? & _). auto.
  - cbn in *. destruct (settled c w Ho) as (-> & ? & _). auto.
  - unfold insert_log in *. destruct lg as [d|], (assoc_get c (unlogged w)) as [d'|];
      first [case_bool_decide|idtac]; cbn in *; first [by auto|destruct (settled c w Ho) as (-> & ? & _); by auto].
  - unfold transmit in *. destruct ok.
    + destruct (in_marker c (dv_alert d) (settle_unlogged c w)) eqn:Em; [|done]. cbn in *.
      destruct (settled c w Ho) as (Hv & ? & _). rewrite Hv in *. split; [done|]. intros d' [?|E%list_elem_of_singleton]%elem_of_app; [by left|]. subst d'. auto.
    + destruct (settled c w Ho) as (Hv & ? & _). rewrite Hv. auto.
Qed.
Lemma job_relies c c' fresh w w' : c' ≠ c → lease w → job_write c fresh w w' → relies c' w w'.
Proof.
  intros Hne Hw H Ho.
  assert (Ha : overrun w = false ∧ ∀ d, d ∈ accepted w' → d ∈ accepted w ∨ in_marker c (dv_alert d) w = true).
  { destruct H as [w asset locked|w w' H]; [by auto|]. destruct (worker_accepted _ _ _ _ H Ho) as [? Hd]. split; [done|].
    intros d Hin. destruct (Hd d Hin) as [?|[? _]]; auto. }
  destruct Ha as [Ho' Hd]. split; [done|]. intros a Hown%(job_own _ _ _ _ _ _ Hne H). split; [done|].
  intros d <- _ Hin. destruct (Hd d Hin) as [?|Hm]; [done|]. by destruct (own_alone _ _ _ _ Hw Hm Hown).
Qed.
Lemma other_relies idle c w w' : other_write idle w w' → relies c w w'.
Proof.
  intros H Ho.
  assert (overrun w = false ∧ accepted w' = accepted w) as [Ho' Ha].
  { destruct (other_frame _ _ _ H) as [[t ->]|(_&_&?&_&_&<-)]; [|done]. revert Ho. unfold tick. by destruct (forallb _ _). }
  split; [done|]. intros a Hown%(other_own _ _ _ _ _ H). rewrite Ha. auto.
Qed.
