(* ===== verification/DeliverySafety.v ===== *)
(** What several delivery workers, running at once with every other writer of
    the alert queue, cannot do: hold one alert together; reopen one that was
    sent; and, while no connection fails, no delivery outlives its claim's
    marker, no mail server accepts a recipient in words of a rate limit and no
    bulk requeue takes an alert that is being delivered, reach one recipient
    twice for the same alert. *)
From S2P Require Import Prelude.
From stdpp Require Import relations.
From S2P Require Import Dates Net Json Db Interleaving AlertEligibility ContactGroups DeliveryLedger AlertQueue DeliveryWorker AlertLease.
Open Scope Z_scope.

(** * The statements of a run *)

Lemma emits_weaken {S E A} (G G' : S → S → Prop) (p : prog S E A) : (∀ a b, G a b → G' a b) → emits G p → emits G' p.
Proof. intros HG. induction p as [r|B q k IH]; [done|]. intros [H1 H2]. split; auto. Qed.

Create HintDb emits.
#[export] Hint Resolve emits_bind emits_catch emits_query : emits.

(** A mail server that accepts recipients does not answer as if it had hit a
    rate limit. *)
Definition plain_answer (a : mail_answer) : Prop :=
  match a with mail_info accepted response => 0 < accepted → reads_rate_limited response = false | _ => True end.
Definition plain_inputs (inp : inputs) : Prop := ∀ rcpt, Forall plain_answer (in_smtp inp rcpt).

Section emits.
Context `{DeliveryEnv} (claimId : string) (fresh : world → delivery → Prop).
Notation W := (worker_write claimId fresh).
Definition chan_emits {A} (m : chan A) : Prop := ∀ s, emits W (m s).

Lemma emits_mret {A} (a : A) : emits W (mret a : wprog A).
Proof. done. Qed.
Lemma emits_throw {A} e : emits W (throw e : wprog A).
Proof. done. Qed.
Lemma emits_answer {A} (r : result string A) : emits W (of_answer r).
Proof. by destruct r. Qed.
Lemma chan_emits_mret {A} (a : A) : chan_emits (mret a).
Proof. by intros s. Qed.
Lemma chan_emits_modify f : chan_emits (modify f).
Proof. by intros s. Qed.
Lemma chan_emits_lift {A} (p : wprog A) : emits W p → chan_emits (lift p).
Proof. intros Hp s. apply emits_catch; [|by intros]. by apply emits_bind. Qed.
Lemma chan_emits_bind {A B} (m : chan A) (f : A → chan B) : chan_emits m → (∀ a, chan_emits (f a)) → chan_emits (m ≫= f).
Proof. intros Hm Hf s. apply emits_bind; [apply Hm|]. intros [s' [a|e]]; [apply Hf|done]. Qed.

(** ** Statements *)

Section alert.
Context (cx : alert_context) (inp : inputs) (alert : queue_row).

Lemma emits_owns : emits W (assertStillOwnsDelivery claimId (q_id alert)).
Proof.
  apply emits_bind; [|by intros []]. apply emits_query. intros w.
  pose proof (renews claimId fresh w (q_id alert)) as Hr. by destruct (renew_claim _ _ w).
Qed.
Lemma emits_release f : (∀ r, q_id (f r) = q_id r) → emits W (release_ claimId (q_id alert) f).
Proof. intros Hf. apply emits_query. intros w.
  pose proof (releases claimId fresh w (q_id alert) f Hf) as Hr. by destruct (release _ _ _ w).
Qed.
Lemma emits_read_log : emits W (read_log_ claimId (q_id alert)).
Proof. apply emits_query. intros w. apply (reads_log claimId fresh w (q_id alert)). Qed.
Lemma emits_clock : emits W (clock : wprog Z).
Proof. apply emits_query. intros w. apply reads_clock. Qed.
Lemma emits_transmit d ok : (ok = true → recipient_delivery d = true → ∀ w, fresh w d) → emits W (transmit_ claimId d ok).
Proof. intros Hd. apply emits_query. intros w. apply sends. auto. Qed.
Lemma emits_log channel status error metadata lg :
  (∀ d, lg = Some d → recipient_delivery d = true →
     q_id alert = dv_alert d ∧ shows d (mkLogRow channel status error (Obj metadata))) →
  emits W (log_attempt claimId cx alert channel status error metadata lg).
Proof. intros Hd. apply emits_query. intros w. by apply logs. Qed.
Lemma emits_log_unmade channel status error metadata :
  emits W (log_attempt claimId cx alert channel status error metadata None).
Proof. by apply emits_log. Qed.
End alert.
End emits.
#[export] Hint Resolve emits_mret emits_throw emits_answer chan_emits_mret chan_emits_modify emits_owns emits_read_log
  emits_clock emits_log_unmade : emits.

(** Every statement of a program, branch by branch. *)
Ltac emit :=
  repeat (intros; first
    [ progress (eauto 1 with nocore emits)
    | match goal with
      | |- context [best_effort] => unfold best_effort
      | |- emits _ (mbind _ _) => apply emits_bind
      | |- emits _ (catch _ _) => apply emits_catch
      | |- chan_emits _ _ (mbind _ _) => apply chan_emits_bind
      | |- chan_emits _ _ (lift _) => apply chan_emits_lift
      | |- emits _ (match ?x with _ => _ end) => destruct x
      | |- chan_emits _ _ (match ?x with _ => _ end) => destruct x
      | |- emits _ (let _ := _ in _) => cbv zeta
      | |- chan_emits _ _ (let _ := _ in _) => cbv zeta
      end ]); intros.

Section programs.
Context `{DeliveryEnv} (claimId : string).

(** ** Everything but a recipient's send *)

Section quiet.
Context (fresh : world → delivery → Prop) (cx : alert_context) (inp : inputs) (alert : queue_row).
Notation W := (worker_write claimId fresh).

Lemma emits_before rcpt : emits W (before_attempt claimId inp alert rcpt).
Proof. unfold before_attempt. emit. Qed.
Lemma emits_discard : emits W (discard_reason cx inp alert).
Proof. unfold discard_reason. emit. Qed.
Lemma emits_endpoint : emits W (endpoint_deferred claimId inp alert).
Proof. unfold endpoint_deferred. emit; by apply emits_release. Qed.
Lemma emits_window : emits W (window_deferred claimId cx alert).
Proof. unfold window_deferred. emit; by apply emits_release. Qed.
Lemma emits_untried group trimmed : chan_emits claimId fresh (log_untried claimId cx alert group trimmed).
Proof. intros s. unfold log_untried. case_match; [|done]. apply chan_emits_lift. emit. Qed.
Lemma emits_send_webhook group generation kind urlHash k :
  chan_emits claimId fresh (send_webhook claimId cx inp alert group generation kind urlHash k).
Proof.
  unfold send_webhook. emit; [by apply emits_transmit|].
  apply emits_log. destruct (sa_success _); [|done]. by intros d [= <-].
Qed.
Lemma emits_webhook group generation history permanent wh k :
  chan_emits claimId fresh (webhook_endpoint claimId cx inp alert group generation history permanent wh k).
Proof. unfold webhook_endpoint. emit; apply emits_send_webhook. Qed.
Lemma emits_webhooks group groups prior : chan_emits claimId fresh (webhooks_channel claimId cx inp alert group groups prior).
Proof.
  unfold webhooks_channel. emit. generalize (mkEndpoints 0 0 0 0 [] [] []).
  induction (j :: l) as [|wh rest IH]; intros k; cbn [each_webhook]; emit; apply emits_webhook.
Qed.
Lemma keeps_settle live prior y r : q_id (settle_row alert live prior y r) = q_id r.
Proof. unfold settle_row. cbv zeta. destruct (bool_decide _); reflexivity. Qed.
Lemma keeps_idle live prior r : q_id (idle_row alert live prior r) = q_id r.
Proof. unfold idle_row. by case_match. Qed.
End quiet.

(** ** A whole run, whatever is known of its sends *)

Section sends.
Context (fresh : world → delivery → Prop) (all : ∀ w d, fresh w d).
Notation W := (worker_write claimId fresh).

Section alert.
Context (cx : alert_context) (inp : inputs) (alert : queue_row).
Lemma emits_any_transmit d ok : emits W (transmit_ claimId d ok).
Proof using all. apply emits_transmit. auto. Qed.
Lemma emits_accounts rcpt accounts last : emits W (try_accounts claimId inp alert rcpt accounts last).
Proof using all. revert last. induction accounts as [|a accounts IH]; intros last; cbn [try_accounts]; emit; apply emits_before || apply emits_any_transmit. Qed.
Lemma emits_mail rcpt : emits W (sendEmailNotification claimId inp alert rcpt).
Proof using all.
  unfold sendEmailNotification, db_account.
  emit; apply emits_accounts || apply emits_before || apply emits_any_transmit.
Qed.
(** The row of a recipient's delivery shows it. *)
Lemma recipient_shown channel (ok : bool) error group rcpt :
  ∀ d, (if ok then Some (mkDelivery (q_id alert) channel rcpt) else None) = Some d → recipient_delivery d = true →
  q_id alert = dv_alert d ∧
  shows d (mkLogRow channel (if ok then "success" else "failed")%string error (Obj [group_meta group; ("recipient"%string, Str rcpt)])).
Proof. destruct ok; [|done]. by intros d [= <-] _. Qed.
Lemma emits_email_recipient group prior rcpt n :
  chan_emits claimId fresh (email_recipient claimId cx inp alert group prior rcpt n).
Proof using all. unfold email_recipient. emit; [apply emits_mail|apply emits_log, recipient_shown]. Qed.
Lemma emits_whatsapp_recipient group prior rcpt n :
  chan_emits claimId fresh (whatsapp_recipient claimId cx inp alert group prior rcpt n).
Proof using all. unfold whatsapp_recipient. emit; [apply emits_any_transmit|apply emits_log, recipient_shown]. Qed.
Lemma emits_each step rcpts n : (∀ rcpt n, chan_emits claimId fresh (step rcpt n)) →
  chan_emits claimId fresh (each_recipient step rcpts n).
Proof. intros Hs. revert n. induction rcpts as [|r rcpts IH]; intros n; cbn [each_recipient]; emit. Qed.
Lemma emits_email group prior : chan_emits claimId fresh (email_channel claimId cx inp alert group prior).
Proof using all. unfold email_channel. emit; apply emits_each, emits_email_recipient. Qed.
Lemma emits_whatsapp group prior : chan_emits claimId fresh (whatsapp_channel claimId cx inp alert group prior).
Proof using all.
  unfold whatsapp_channel, whatsapp_send. emit; apply emits_untried || apply emits_each, emits_whatsapp_recipient.
Qed.
Lemma emits_channel channel group groups prior errors :
  emits W (run_channel claimId cx inp alert channel group groups prior errors).
Proof using all.
  unfold run_channel. apply emits_bind.
  - unfold channel_body. repeat case_match; [apply emits_email|apply emits_webhooks|apply emits_whatsapp|done].
  - emit.
Qed.
Lemma emits_channels channels group groups prior y :
  emits W (run_channels claimId cx inp alert channels group groups prior y).
Proof using all. revert y. induction channels as [|c channels IH]; intros y; cbn [run_channels]; emit. apply emits_channel. Qed.
Lemma emits_alert : emits W (deliver_alert claimId cx inp alert).
Proof using all.
  unfold deliver_alert, deliver_claimed, deliver_channels.
  emit; try apply emits_discard; try apply emits_endpoint; try apply emits_window; try apply emits_channels;
    apply emits_release; first [apply keeps_settle|apply keeps_idle|done].
Qed.
End alert.

Lemma emits_run context_of inputs_of asset locked :
  emits (job_write claimId fresh) (deliveryWorkerJob claimId context_of inputs_of asset locked).
Proof using all.
  apply emits_bind.
  - apply emits_query. intros w. rewrite (surjective_pairing (claim_alerts _ _ _ w)). apply claims_alerts.
  - intros alerts. induction alerts as [|alert alerts IH]; cbn [deliver_all]; [done|]. apply emits_bind; [|done].
    eapply emits_weaken; [|apply emits_alert]. intros a b. apply writes_claimed.
Qed.
End sends.
End programs.

(** * Sends that were not made before *)

Lemma worker_weaken c fresh fresh' w w' : (∀ v d, fresh v d → fresh' v d) → worker_write c fresh w w' → worker_write c fresh' w w'.
Proof. intros Hf []; constructor; auto. Qed.
Definition sound (w : world) : Prop := lease w ∧ ledger_ok w.
Lemma job_sound c w w' : job_write c (once c) w w' → sound w → sound w'.
Proof.
  intros H [Hl Hg]. split; [by eapply job_lease|]. destruct H as [w asset locked|w w' H]; [|by eapply worker_ledger].
  by apply (ledger_quiet w).
Qed.
Lemma other_sound w w' : other_write True w w' → sound w → sound w'.
Proof. intros H [Hl Hg]. split; [by eapply other_lease|by eapply other_ledger]. Qed.

Section once.
Context (claimId : string) (hist : list log_row).
Notation J := (ensures False sound (relies claimId) (job_write claimId (once claimId))).

(** Whatever [hist] does not show of these recipients has not been delivered. *)
Definition pending (S : delivery → Prop) (w : world) : Prop :=
  overrun w = false → ∀ d, S d → recipient_delivery d = true → own claimId (dv_alert d) w → d ∈ accepted w →
  ∃ row, row ∈ hist ∧ shows d row.
Definition within {A} (S S' : delivery → Prop) (p : wprog A) : Prop :=
  ∀ w, sound w → pending S w → J (λ w _, pending S' w) p w.
Definition chan_within {A} (S S' : delivery → Prop) (m : chan A) : Prop := ∀ s, within S S' (m s).

Lemma pending_relies S w w' : relies claimId w w' → pending S w → pending S w'.
Proof.
  intros HR Hp Ho d HS Hd Hown Hin. destruct (HR Ho) as [Ho' Ha]. destruct (Ha _ Hown) as [Hown' Hacc].
  apply (Hp Ho' d); auto.
Qed.
Lemma pending_mono (S S' : delivery → Prop) w : (∀ d, S' d → S d) → pending S w → pending S' w.
Proof. intros HS Hp Ho d Hd. apply (Hp Ho d); auto. Qed.
Lemma pending_write fresh S w w' : worker_write claimId fresh w w' →
  (∀ d, S d → recipient_delivery d = true → ¬ fresh w d) → pending S w → pending S w'.
Proof.
  intros H HS Hp Ho d Hd Hr Hown Hin. destruct (worker_accepted _ _ _ _ H Ho) as [Ho' Hacc].
  apply (Hp Ho' d Hd Hr); [by eapply worker_own|]. destruct (Hacc d Hin) as [?|[_ Hf]]; [done|].
  exfalso. by apply (HS d Hd Hr), Hf.
Qed.

Definition quiet {A} (p : wprog A) : Prop := emits (worker_write claimId (λ _ _, False)) p.
Lemma within_quiet {A} (S S' : delivery → Prop) (p : wprog A) : quiet p → (∀ d, S' d → S d) → within S S' p.
Proof.
  intros Hq HS w _ Hp. revert Hq w Hp. induction p as [r|B q k IH]; intros Hq w Hp.
  - intros w' HR _. eapply pending_mono; [done|]. by eapply pending_relies.
  - destruct Hq as [Hq Hk]. intros w' HR Hw'. split; [|split; [|done]].
    + apply writes_claimed. eapply worker_weaken; [|apply Hq]. done.
    + intros _. apply IH; [apply Hk|]. eapply pending_write; [apply Hq|auto|]. by eapply pending_relies.
Qed.
Lemma chan_within_quiet {A} (S S' : delivery → Prop) (m : chan A) :
  chan_emits claimId (λ _ _, False) m → (∀ d, S' d → S d) → chan_within S S' m.
Proof. intros Hm HS s. by apply within_quiet; [apply Hm|]. Qed.
Lemma within_bind {A B} (S S1 S' : delivery → Prop) (p : wprog A) (f : A → wprog B) :
  within S S1 p → (∀ a, within S1 S' (f a)) → (∀ d, S' d → S1 d) → within S S' (p ≫= f).
Proof.
  intros Hp Hf HS w Hw Hpe. eapply ensures_bind; [apply _|by apply Hp| | |done].
  - intros v a Hv Hpv. by apply Hf.
  - intros v e Hv. by apply pending_mono.
Qed.
Lemma within_catch {A} (S S1 S' : delivery → Prop) (p : wprog A) h :
  within S S1 p → (∀ e, within S1 S' (h e)) → (∀ d, S' d → S1 d) → within S S' (catch p h).
Proof.
  intros Hp Hh HS w Hw Hpe. eapply ensures_catch; [apply _|by apply Hp| | |done].
  - intros v a Hv Hpv. by apply Hh.
  - intros v e Hv. by apply pending_mono.
Qed.
Lemma chan_within_bind {A B} (S S1 S' : delivery → Prop) (m : chan A) (f : A → chan B) :
  chan_within S S1 m → (∀ a, chan_within S1 S' (f a)) → (∀ d, S' d → S1 d) → chan_within S S' (m ≫= f).
Proof.
  intros Hm Hf HS s. apply (within_bind S S1); [apply Hm| |done].
  intros [s' [a|e]]; [apply Hf|]. by apply within_quiet.
Qed.
Lemma chan_within_lift {A} (S S' : delivery → Prop) (p : wprog A) : within S S' p → chan_within S S' (lift p).
Proof.
  intros Hp s. apply (within_catch S S'); [|by intros; apply within_quiet|done].
  apply (within_bind S S'); [done|by intros; apply within_quiet|done].
Qed.
(** The send itself. *)
Lemma within_transmit (S S' : delivery → Prop) d ok :
  S d → (∀ row, row ∈ hist → ¬ shows d row) → (∀ d', S' d' → S d' ∧ d' ≠ d) → within S S' (transmit_ claimId d ok).
Proof.
  intros Hd Hh HS w Hw Hp. apply ensures_query; [by intros []|]. intros w1 HR Hw1.
  assert (Hp1 : pending S w1) by (by eapply pending_relies). split.
  - apply writes_claimed, sends. intros _ Hr Ho Hown Hin.
    destruct (Hp1 Ho d Hd Hr Hown Hin) as (row & Hrow & Hs). by apply (Hh row).
  - intros w2 HR2 _. eapply pending_relies; [done|].
    eapply (pending_write (λ _ x, x = d)); [by apply sends|by intros d' [_ ?]%HS|].
    eapply pending_mono; [|done]. by intros d' [? _]%HS.
Qed.

(** ** The recipients of an alert *)

Lemma text_kept s : js_String (js_or (Str s) (Str EmptyString)) = s.
Proof. unfold js_or. cbn. by case_bool_decide. Qed.

Section alert.
Context `{DeliveryEnv} (cx : alert_context) (inp : inputs) (alert : queue_row).
(** The deliveries still ahead: to [rcpts] on [channel], and on the channels
    after it. *)
Definition ahead (channel : string) (rcpts channels : list string) (d : delivery) : Prop :=
  dv_alert d = q_id alert ∧ (dv_channel d = channel ∧ dv_target d ∈ rcpts ∨ dv_channel d ∈ channels).
Definition on_channels (channels : list string) (d : delivery) : Prop :=
  dv_alert d = q_id alert ∧ dv_channel d ∈ channels.

Lemma ahead_next channel rcpt rcpts channels : rcpt ∉ rcpts → channel ∉ channels →
  ∀ d, ahead channel rcpts channels d → ahead channel (rcpt :: rcpts) channels d ∧ d ≠ mkDelivery (q_id alert) channel rcpt.
Proof.
  intros Hr Hc d [Ha Hd]. split.
  - split; [done|]. destruct Hd as [[? ?]|?]; [left; split; [done|by right]|by right].
  - intros ->. cbn in Hd. naive_solver.
Qed.
Lemma shown_success channel email row rcpt : row ∈ hist →
  shows (mkDelivery (q_id alert) channel rcpt) row → (email = true → toLowerCase (trim rcpt) ≠ EmptyString) →
  (if email : bool then toLowerCase (trim rcpt) else rcpt) ∈ prior_success channel email hist.
Proof.
  intros Hrow (Hc & Hs & Hr) Hne. unfold prior_success. apply list_elem_of_omap. exists row. split; [done|].
  cbn in Hc, Hs, Hr. rewrite Hc, Hs, !bool_decide_true by done. cbn [andb]. rewrite Hr, text_kept.
  destruct email; [|done]. cbn [andb]. by rewrite bool_decide_false by auto.
Qed.

(** ** Mail *)

Context (plain : plain_inputs inp).

Lemma within_accounts (S S' : delivery → Prop) rcpt accounts last :
  Forall plain_answer accounts → S (email_delivery alert rcpt) → (∀ row, row ∈ hist → ¬ shows (email_delivery alert rcpt) row) →
  (∀ d', S' d' → S d' ∧ d' ≠ email_delivery alert rcpt) →
  ∀ w, sound w → pending S w →
  J (λ w r, pending (match r with Ok (false, _) => S | _ => S' end) w) (try_accounts claimId inp alert rcpt accounts last) w.
Proof.
  intros Hplain Hd Hh HS. assert (Hsub : ∀ d', S' d' → S d') by (by intros d' [? _]%HS).
  assert (Herr : ∀ w (e : worker_error), sound w → pending S w → pending S' w) by (intros w e _; by apply pending_mono).
  revert last. induction Hplain as [|a accounts Ha _ IH]; intros last w Hw Hp.
  { intros w' HR _. by eapply pending_relies. }
  cbn [try_accounts].
  eapply ensures_bind; [apply _|by apply (within_quiet S S); [apply emits_before|..]| |by eauto|done].
  intros w1 u Hw1 Hp1. destruct a as [|n response|message]; [by apply IH|..].
  - cbn in Ha. destruct (0 <? n) eqn:En.
    + rewrite Ha by (by apply Z.ltb_lt). eapply ensures_bind; [apply _|by apply (within_transmit S S' _ true)| |by intros|done].
      intros w2 v Hw2 Hp2 w3 HR _. by eapply pending_relies.
    + eapply ensures_bind; [apply _|by apply (within_quiet S S); [by apply emits_transmit|..]| |by eauto|done].
      intros w2 v Hw2 Hp2. by apply IH.
  - eapply ensures_bind; [apply _|by apply (within_quiet S S); [by apply emits_transmit|..]| |by eauto|done].
    intros w2 v Hw2 Hp2. by apply IH.
Qed.
Lemma within_db_account (S S' : delivery → Prop) rcpt last :
  S (email_delivery alert rcpt) → (∀ row, row ∈ hist → ¬ shows (email_delivery alert rcpt) row) →
  (∀ d', S' d' → S d' ∧ d' ≠ email_delivery alert rcpt) →
  within S S' (db_account claimId inp alert rcpt last).
Proof.
  intros Hd Hh HS. assert (Hsub : ∀ d', S' d' → S d') by (by intros d' [? _]%HS).
  unfold db_account. apply (within_catch S S'); [|intros []; by apply within_quiet|done].
  apply (within_bind S S); [by apply within_quiet; [apply emits_before|]| |done]. intros _.
  apply (within_bind S S); [by apply within_quiet; [apply emits_answer|]| |done].
  intros [[|n response|message]|]; [by apply within_quiet| | |by apply within_quiet].
  - apply (within_bind S S'); [by apply within_transmit|by intros; apply within_quiet|done].
  - apply (within_bind S S'); [by apply within_quiet; [apply emits_transmit|]|by intros; apply within_quiet|done].
Qed.
Lemma within_mail (S S' : delivery → Prop) rcpt :
  S (email_delivery alert rcpt) → (∀ row, row ∈ hist → ¬ shows (email_delivery alert rcpt) row) →
  (∀ d', S' d' → S d' ∧ d' ≠ email_delivery alert rcpt) →
  within S S' (sendEmailNotification claimId inp alert rcpt).
Proof.
  intros Hd Hh HS. assert (Hsub : ∀ d', S' d' → S d') by (by intros d' [? _]%HS).
  unfold sendEmailNotification. apply (within_catch S S'); [|intros []; by apply within_quiet|done].
  intros w Hw Hp. eapply ensures_bind; [apply _|by apply (within_accounts S S'); [apply plain|..]| |by intros|done].
  intros w1 [[] last] Hw1 Hp1; cbn [fst snd]; [by apply (within_quiet S' S')|].
  destruct last as [[e []]|]; try by apply (within_db_account S S'). by apply (within_quiet S S').
Qed.

(** ** One recipient *)

Lemma chan_within_weaken {A} (S S1 S' : delivery → Prop) (m : chan A) :
  (∀ d, S' d → S1 d) → chan_within S S1 m → chan_within S S' m.
Proof. intros HS Hm s w Hw Hp. eapply ensures_mono; [|by apply Hm]. intros v r _. by apply pending_mono. Qed.
Lemma email_once group rcpt rcpts channels n :
  toLowerCase (trim rcpt) ≠ EmptyString → rcpt ∉ rcpts → "email"%string ∉ channels →
  chan_within (ahead "email" (rcpt :: rcpts) channels) (ahead "email" rcpts channels)
    (email_recipient claimId cx inp alert group hist rcpt n).
Proof.
  intros Hne Hr Hc. pose proof (ahead_next _ _ _ _ Hr Hc) as HS. unfold email_recipient. cbv zeta.
  assert (Hsub : ∀ d, ahead "email" rcpts channels d → ahead "email" (rcpt :: rcpts) channels d) by (by intros d [? _]%HS).
  eapply chan_within_bind; [apply (chan_within_quiet _ (ahead "email" (rcpt :: rcpts) channels)); [emit|done]| |done]. intros u.
  eapply chan_within_bind; [apply (chan_within_quiet _ (ahead "email" (rcpt :: rcpts) channels)); [emit|done]| |done]. intros live.
  destruct (_ && _); [apply chan_within_quiet; [emit|done]|].
  case_bool_decide as Hserved; [apply chan_within_quiet; [emit|done]|].
  eapply chan_within_bind; [apply chan_within_lift, (within_mail _ (ahead "email" rcpts channels) rcpt); [|..|done]| |done].
  - split; [done|]. left. split; [done|]. by left.
  - intros row Hrow Hs. apply Hserved. by apply (shown_success "email" true row).
  - intros res. apply chan_within_quiet; [|done]. emit. apply emits_log, recipient_shown.
Qed.
Lemma whatsapp_once group rcpt rcpts channels n :
  rcpt ∉ rcpts → "whatsapp"%string ∉ channels →
  chan_within (ahead "whatsapp" (rcpt :: rcpts) channels) (ahead "whatsapp" rcpts channels)
    (whatsapp_recipient claimId cx inp alert group hist rcpt n).
Proof.
  intros Hr Hc. pose proof (ahead_next _ _ _ _ Hr Hc) as HS. unfold whatsapp_recipient. cbv zeta.
  set (S := ahead "whatsapp" (rcpt :: rcpts) channels) in *. set (S' := ahead "whatsapp" rcpts channels) in *.
  assert (Hsub : ∀ d, S' d → S d) by (by intros d [? _]%HS).
  do 3 (eapply chan_within_bind; [apply (chan_within_quiet S S); [emit|done]| |done]; intros ?).
  destruct (_ && _); [apply chan_within_quiet; [emit|done]|].
  case_bool_decide as Hserved; [apply chan_within_quiet; [emit|done]|].
  eapply chan_within_bind; [apply (chan_within_quiet S S); [emit|done]| |done]. intros res.
  eapply chan_within_bind; [apply chan_within_lift, (within_transmit S S'); [|..|done]| |done].
  - split; [done|]. left. split; [done|]. by left.
  - intros row Hrow Hs. apply Hserved. by apply (shown_success "whatsapp" false row).
  - intros u. apply chan_within_quiet; [|done]. emit. apply emits_log, recipient_shown.
Qed.
Lemma each_once channel channels (step : string → counts → chan counts) rcpts n : NoDup rcpts →
  (∀ rcpt rest n, rcpt ∈ rcpts → rcpt ∉ rest →
     chan_within (ahead channel (rcpt :: rest) channels) (ahead channel rest channels) (step rcpt n)) →
  chan_within (ahead channel rcpts channels) (ahead channel [] channels) (each_recipient step rcpts n).
Proof.
  revert n. induction rcpts as [|r rcpts IH]; intros n; cbn [each_recipient].
  { intros _ _. by apply chan_within_quiet; [apply chan_emits_mret|]. }
  intros [Hr Hn]%NoDup_cons Hs. eapply chan_within_bind; [apply (Hs r rcpts n); [by left|done]| |].
  - intros n'. apply IH; [done|]. intros x rest m Hx. apply Hs. by right.
  - intros d [Ha [[_ []%elem_of_nil]|Hd]]. split; [done|by right].
Qed.

(** ** Channels *)

Context (valid_email_text : ∀ rcpt, valid_email rcpt = true → toLowerCase (trim rcpt) ≠ EmptyString).

Lemma ahead_some channel rcpts channels d : ahead channel rcpts channels d → on_channels (channel :: channels) d.
Proof. intros [Ha Hd]. split; [done|]. apply elem_of_cons. naive_solver. Qed.
Lemma ahead_none channel channels d : on_channels channels d → ahead channel [] channels d.
Proof. intros [Ha Hd]. split; [done|by right]. Qed.
Lemma on_channels_tail channel channels d : on_channels channels d → on_channels (channel :: channels) d.
Proof. intros [Ha Hd]. split; [done|by right]. Qed.
Lemma each_channel channel channels step rcpts n : NoDup rcpts →
  (∀ rcpt rest n, rcpt ∈ rcpts → rcpt ∉ rest →
     chan_within (ahead channel (rcpt :: rest) channels) (ahead channel rest channels) (step rcpt n)) →
  chan_within (on_channels (channel :: channels)) (on_channels channels) (each_recipient step rcpts n).
Proof.
  intros Hn Hs st w Hw Hp. eapply ensures_mono; [|apply (each_once channel channels step rcpts n Hn Hs st w Hw)].
  - intros v r _. apply pending_mono, ahead_none.
  - eapply pending_mono; [|done]. apply ahead_some.
Qed.
Lemma email_channel_once group channels : "email"%string ∉ channels →
  chan_within (on_channels ("email"%string :: channels)) (on_channels channels) (email_channel claimId cx inp alert group hist).
Proof using valid_email_text plain.
  intros Hc. unfold email_channel. cbv zeta.
  set (S := on_channels ("email"%string :: channels)). set (S' := on_channels channels).
  assert (Hsub : ∀ d, S' d → S d) by apply on_channels_tail.
  eapply chan_within_bind; [apply (chan_within_quiet S S); [emit|done]| |done]. intros u.
  eapply chan_within_bind; [apply (chan_within_quiet S S); [emit|done]| |done]. intros gated.
  eapply chan_within_bind; [apply (chan_within_quiet S S); [emit|done]| |done]. intros v.
  set (trimmed := List.filter valid_email _).
  assert (Hloop : ∀ n, chan_within S S' (n' ← each_recipient (email_recipient claimId cx inp alert group hist) trimmed n; modify (channel_outcome n'))).
  { intros n. eapply chan_within_bind; [apply each_channel| |done].
    - apply lfilter_NoDup, dedup_NoDup.
    - intros rcpt rest m [_ Hv]%elem_of_lfilter Hr. apply email_once; auto.
    - intros m. by apply chan_within_quiet; [apply chan_emits_modify|]. }
  destruct (match in_contacts inp "email" with Ok l => l | Err _ => [] end); destruct trimmed; try done;
    apply chan_within_quiet; [emit|done|emit|done].
Qed.
Lemma whatsapp_channel_once group channels : "whatsapp"%string ∉ channels →
  chan_within (on_channels ("whatsapp"%string :: channels)) (on_channels channels) (whatsapp_channel claimId cx inp alert group hist).
Proof.
  intros Hc. unfold whatsapp_channel. cbv zeta.
  set (S := on_channels ("whatsapp"%string :: channels)). set (S' := on_channels channels).
  assert (Hsub : ∀ d, S' d → S d) by apply on_channels_tail.
  do 4 (eapply chan_within_bind; [apply (chan_within_quiet S S); [emit|done]| |done]; intros ?).
  eapply (chan_within_bind _ S'); [|by intros; apply chan_within_quiet; [apply emits_untried|]|done].
  unfold whatsapp_send. destruct (in_org_rate_limited inp); [apply chan_within_quiet; [emit|done]|].
  destruct (selectDeliverableDestinations _) as [|rcpt rcpts] eqn:El; [apply chan_within_quiet; [emit|done]|]. rewrite <- El.
  destruct (_ && _); [apply chan_within_quiet; [emit|done]|].
  eapply chan_within_bind; [apply each_channel| |done].
  - apply dedup_NoDup.
  - intros x rest m _ Hr. by apply whatsapp_once.
  - intros m. by apply chan_within_quiet; [apply chan_emits_modify|].
Qed.
Lemma run_channel_once channel channels group groups errors : channel ∉ channels →
  within (on_channels (channel :: channels)) (on_channels channels)
    (run_channel claimId cx inp alert channel group groups hist errors).
Proof using valid_email_text plain.
  intros Hc. pose proof (on_channels_tail channel channels) as Hsub. unfold run_channel.
  apply (within_bind _ (on_channels channels)); [|intros a; apply within_quiet; [unfold quiet; emit|done]|done].
  unfold channel_body.
  case_bool_decide as E1; [subst; exact (email_channel_once _ _ Hc _)|].
  case_bool_decide as E2; [by apply within_quiet; [apply emits_webhooks|]|].
  case_bool_decide as E3; [subst; exact (whatsapp_channel_once _ _ Hc _)|].
  by apply within_quiet.
Qed.
Lemma run_channels_once channels group groups y : NoDup channels →
  within (on_channels channels) (on_channels []) (run_channels claimId cx inp alert channels group groups hist y).
Proof using valid_email_text plain.
  revert y. induction channels as [|c channels IH]; intros y; cbn [run_channels]; [by intros; apply within_quiet|].
  intros [Hc Hn]%NoDup_cons. eapply within_bind; [by apply run_channel_once| |by intros d [_ []%elem_of_nil]].
  intros s. eapply within_bind; [apply (within_quiet (on_channels channels) (on_channels channels)); [unfold quiet; emit|done]| |by intros d [_ []%elem_of_nil]].
  intros t. by apply IH.
Qed.
End alert.

End once.

(** ** An alert, and a run *)

Section run.
Context `{DeliveryEnv} (claimId : string).
Context (valid_email_text : ∀ rcpt, valid_email rcpt = true → toLowerCase (trim rcpt) ≠ EmptyString).
Notation J := (ensures False sound (relies claimId) (job_write claimId (once claimId))).
Notation any := (λ _ _, True).

Lemma final_channels groups enabled key queued channels retry :
  NoDup (channelsForDeliveryAttempt queued (deliveryChannelsFromEligibleGroups groups enabled key) channels retry).
Proof.
  set (live := deliveryChannelsFromEligibleGroups _ _ _).
  assert (NoDup live) as Hl.
  { unfold live, deliveryChannelsFromEligibleGroups. apply (bool_decide_unpack _). repeat case_match; reflexivity. }
  unfold channelsForDeliveryAttempt. destruct (negb retry); [done|]. by apply lfilter_NoDup.
Qed.
Lemma quiet_any {A} (p : wprog A) w : emits (worker_write claimId (λ _ _, False)) p → J any p w.
Proof. intros Hp. apply emits_ensures. eapply emits_weaken; [|done]. intros a b Hab. apply writes_claimed.
  eapply worker_weaken; [|exact Hab]. by intros v d [].
Qed.
(** The delivery log shows every delivery of an alert its reader holds. *)
Lemma history_known a w : sound w →
  J (λ w r, match r with Ok h => pending claimId (map le_row h) (λ d, dv_alert d = a) w | Err _ => False end)
    (read_log_ claimId a) w.
Proof.
  intros _. apply ensures_query; [by intros []|]. intros w1 _ [Hl Hg]. split; [apply writes_claimed, (reads_log claimId (once claimId) w1 a)|].
  intros w2 HR _. apply (pending_relies claimId _ _ _ _ HR). intros Ho d Ha Hr Hown Hin.
  cbn [read_log fst snd] in *. destruct (settled _ _ Ho) as (E & Ho1 & Hn). rewrite E in *.
  destruct (accepted_logged w1 (Hg Ho1) d Hin Hr) as [(e & He & Hea & Hs)|[c Hc]].
  - exists (le_row e). split; [|done]. apply list_elem_of_fmap. exists e. split; [done|].
    apply elem_of_lfilter. split; [done|]. apply Z.eqb_eq. congruence.
  - pose proof (unlogged_held w1 (Hg Ho1) c d Hc) as Hm. pose proof (own_alone _ _ _ _ Hl Hm Hown). congruence.
Qed.

Section alert.
Context (cx : alert_context) (inp : inputs) (alert : queue_row) (plain : plain_inputs inp).
Lemma channels_once w : sound w → J any (deliver_channels claimId cx inp alert) w.
Proof using valid_email_text plain.
  intros Hw. unfold deliver_channels. destruct (alert_groups cx alert) as [resolved eligible]. cbv zeta.
  destruct (negb (audit_fields_ok _ _)); [by apply quiet_any|].
  eapply ensures_bind; [apply _| | |done|done].
  { eapply ensures_catch; [apply _|by apply history_known|by intros|by intros v h _ Hh; exact Hh|done]. }
  intros v history Hv Hp. cbn beta iota in Hp.
  destruct (match strict_parseDeliveryLedger (q_channels alert) with Some l => negb (ledger_legacy l) && _ | None => true end);
    [apply quiet_any; emit; by apply emits_release|].
  destruct (is_nil _); [apply quiet_any; emit; apply emits_release, keeps_idle|].
  eapply ensures_bind; [apply _|eapply run_channels_once; [exact plain|done|apply final_channels|done|]| |done|done].
  - eapply pending_mono; [|exact Hp]. by intros d [? _].
  - intros u y Hu _. apply quiet_any. emit. apply emits_release, keeps_settle.
Qed.
Lemma alert_once w : sound w → J any (deliver_alert claimId cx inp alert) w.
Proof using valid_email_text plain.
  intros Hw. unfold deliver_alert, deliver_claimed.
  eapply ensures_catch; [apply _| |by intros v []|done|done].
  eapply ensures_bind; [apply _|by apply quiet_any, emits_owns| |done|done]. intros v u Hv _.
  eapply ensures_bind; [apply _|by apply quiet_any, emits_discard| |done|done]. intros v1 reason Hv1 _.
  destruct reason; [apply quiet_any; emit; by apply emits_release|].
  eapply ensures_bind; [apply _|by apply quiet_any, emits_endpoint| |done|done]. intros v2 [] Hv2 _; [by apply quiet_any|].
  eapply ensures_bind; [apply _|by apply quiet_any, emits_window| |done|done]. intros v3 [] Hv3 _; [by apply quiet_any|].
  by apply channels_once.
Qed.
End alert.
Lemma run_once context_of inputs_of asset locked w : (∀ alert, plain_inputs (inputs_of alert)) → sound w →
  J any (deliveryWorkerJob claimId context_of inputs_of asset locked) w.
Proof using valid_email_text.
  intros Hplain Hw. unfold deliveryWorkerJob. eapply ensures_bind; [apply _| | |done|done].
  - eapply (ensures_query _ _ _ _ any); [by intros []|]. intros w1 _ _.
    rewrite (surjective_pairing (claim_alerts _ _ _ w1)). split; [apply claims_alerts|done].
  - intros v alerts Hv _. revert v Hv. induction alerts as [|alert alerts IH]; intros v Hv; cbn [deliver_all]; [by intros ??|].
    eapply ensures_bind; [apply _|by apply alert_once| |done|done]. intros v1 u Hv1 _. by apply IH.
Qed.
End run.

(** * Workers side by side *)

(** A run of the worker: its claim id, and what the claim's joins and the
    outside world answer it. *)
Record run_of := mkRun {
  run_claim : string; run_context : queue_row → alert_context; run_inputs : queue_row → inputs;
  run_asset : queue_row → bool; run_locked : queue_row → bool }.
Definition worker_program `{DeliveryEnv} (r : run_of) : wprog unit :=
  deliveryWorkerJob (run_claim r) (run_context r) (run_inputs r) (run_asset r) (run_locked r).
(** A queue no run is working on. *)
Definition at_rest (w : world) : Prop :=
  NoDup (map q_id (rows w)) ∧ Forall (λ r, q_id r < next_id w) (rows w) ∧
  checks w = [] ∧ unlogged w = [] ∧ accepted w = [].
Lemma rest_sound w : at_rest w → sound w.
Proof.
  intros (Hn & Hi & Hc & Hu & Ha). split.
  - split; [done|done|..]; rewrite ?Hc; try done. intros c c' a (t & Hm & _)%marker_spec. by rewrite Hc in Hm.
  - intros _. split; rewrite ?Hu, ?Ha; [done|by intros d ?%elem_of_nil|constructor].
Qed.

Notation any := (λ _ _, True).
(** What the [i]-th run guarantees and relies on. *)
Definition guarantee (G : string → world → world → Prop) (claims : list string) (i : nat) (w w' : world) : Prop :=
  match claims !! i with Some c => G c w w' | None => False end.
Definition rely (R : string → world → world → Prop) (claims : list string) (i : nat) (w w' : world) : Prop :=
  match claims !! i with Some c => R c w w' | None => True end.

(** C10: At any moment of any interleaving of delivery workers with each other
    and with everything else that writes the queue, connections failing or
    not, no two workers are within their claims' markers of one alert: an
    alert is one worker's at a time.  A bulk requeue that finds an alert
    claimed is excluded ([other_write True]). *)
Theorem exclusive_delivery `{DeliveryEnv} (runs : list run_of) (w w' : world) (ps : list (wprog unit)) :
  NoDup (map run_claim runs) → at_rest w →
  rtc (callers_step True (other_write True)) (w, map worker_program runs) (w', ps) →
  ∀ i j r s a, runs !! i = Some r → runs !! j = Some s →
    in_marker (run_claim r) a w' = true → in_marker (run_claim s) a w' = true → i = j.
Proof.
  intros Hn Hw Hrtc.
  assert (lease w') as Hl.
  { eapply (callers_sound True lease (λ _ _ _, True) (guarantee (λ c, job_write c (λ _ _, True)) (map run_claim runs)) _ (λ _ _ _, True));
      [done|done|..|exact Hrtc].
    - intros i a b. unfold guarantee. destruct (_ !! i); [|done]. intros Hj Ha. split; [by eapply job_lease|done].
    - intros a b Ho Ha. split; [by eapply other_lease|done].
    - apply (rest_sound w Hw).
    - intros i p Hp. apply emits_ensures. rewrite list_lookup_fmap in Hp. destruct (runs !! i) as [r|] eqn:Er; [|done].
      injection Hp as <-. unfold guarantee. rewrite list_lookup_fmap, Er. exact (emits_run (run_claim r) any (λ _ _, I) _ _ _ _). }
  intros i j r s a Hi Hj Hm Hm'. eapply (NoDup_lookup (map run_claim runs)); [done|..]; rewrite list_lookup_fmap.
  - by rewrite Hi.
  - rewrite Hj. cbn. f_equal. by apply (lease_one w' Hl _ _ a).
Qed.

(** C9: No e-mail or WhatsApp recipient of an alert is reached twice, however
    many workers run at once, however often the alert is retried, requeued and
    its claims expire: each delivery that its provider's answer accepts is made
    at most once.  The conditions: connections hold; no delivery outlives its
    claim's marker; no mail server accepts a recipient in an answer that reads
    as a rate limit, which counts as failed ([limited_answer_repeats]); and a
    bulk requeue finds no alert claimed ([other_write True]), which
    requeueAlertsCore does not see to ([bulk_requeue_shares]). *)
Theorem recipients_reached_once `{DeliveryEnv} (runs : list run_of) (w w' : world) (ps : list (wprog unit)) :
  (∀ rcpt, valid_email rcpt = true → toLowerCase (trim rcpt) ≠ EmptyString) →
  (∀ r, r ∈ runs → ∀ alert, plain_inputs (run_inputs r alert)) →
  NoDup (map run_claim runs) → at_rest w →
  rtc (callers_step False (other_write True)) (w, map worker_program runs) (w', ps) →
  overrun w' = false →
  NoDup (List.filter recipient_delivery (accepted w')).
Proof.
  intros Hvalid Hplain Hn Hw Hrtc Ho.
  assert (sound w') as [_ Hg]; [|by apply reached_once, Hg].
  eapply (callers_sound False sound (rely relies (map run_claim runs))
    (guarantee (λ c, job_write c (once c)) (map run_claim runs)) _ (λ _ _ _, True)); [..|exact Hrtc].
  - intros i v. unfold rely. by destruct (_ !! i).
  - intros i v1 v2 v3. unfold rely. destruct (_ !! i); [apply relies_trans|done].
  - intros i a b. unfold guarantee. destruct (_ !! i) as [c|] eqn:Ei; [|done]. intros Hj Ha. split; [by eapply job_sound|].
    intros j Hne. unfold rely. destruct (_ !! j) as [c'|] eqn:Ej; [|done]. eapply job_relies; [|apply Ha|done].
    intros ->. by apply Hne, (NoDup_lookup (map run_claim runs) j i c).
  - intros a b Hab Ha. split; [by eapply other_sound|]. intros j. unfold rely. destruct (_ !! j); [by eapply other_relies|done].
  - by apply rest_sound.
  - intros i p Hp. rewrite list_lookup_fmap in Hp. destruct (runs !! i) as [r|] eqn:Er; [|done]. injection Hp as <-.
    unfold guarantee, rely. rewrite list_lookup_fmap, Er. exact (run_once (run_claim r) Hvalid _ _ _ _ w (Hplain r (list_elem_of_lookup_2 _ _ _ Er)) (rest_sound w Hw)).
Qed.

(** ** Settled alerts *)

(** Every row of the alert is settled for good, or there is none. *)
Definition settled_alert (a : Z) (w : world) : Prop :=
  a < next_id w ∧ Forall (λ r, q_id r = a → final_row r) (rows w).
Lemma settled_update a w p f : settled_alert a w →
  (∀ r, q_id (f r) = q_id r) → (∀ r, r ∈ rows w → p r = true → q_id r = a → final_row r → final_row (f r)) →
  settled_alert a (update p f w).1.
Proof.
  intros [Ha Hw] Hid Hf. rewrite Forall_forall in Hw. split; [done|]. apply Forall_map, Forall_forall. intros r Hin. cbn.
  destruct (p r) eqn:Hp; [|by apply Hw]. rewrite Hid. intros E. by apply Hf; [..|apply Hw].
Qed.
Lemma settled_frame a w w' : settled_alert a w → rows w' = rows w → next_id w' = next_id w → settled_alert a w'.
Proof. unfold settled_alert. by intros ? -> ->. Qed.
Lemma worker_settled a c fresh w w' : worker_write c fresh w w' → settled_alert a w → settled_alert a w'.
Proof.
  intros H Hw. destruct H as [w|w b|w b f Hf|w b|w entry lg _|w d ok _].
  - done.
  - unfold renew_claim. set (v := settle_unlogged c w).
    assert (Hv : settled_alert a v) by (by apply (settled_frame a w); unfold v; autorewrite with settle). clearbody v.
    apply (settled_update a v (λ r, owned b c r && status_in open_statuses r) (with_next (Some (now v + CLAIM_MARKER_MS)))) in Hv;
      [|done|intros r _ [[_ Hc]%owned_spec _]%andb_true_iff _ [? _]; congruence].
    destruct (update _ _ v) as [u n]. by destruct (n =? 0); apply (settled_frame a u).
  - unfold release. cbn. set (v := settle_unlogged c w).
    assert (Hv : settled_alert a v) by (by apply (settled_frame a w); unfold v; autorewrite with settle). clearbody v.
    apply (settled_update a v (owned b c) (λ r, with_claim None (f r))) in Hv;
      [|intros r; apply Hf|intros r _ [_ Hc]%owned_spec _ [? _]; congruence]. by apply (settled_frame a _ _ Hv).
  - apply (settled_frame a w); cbn; by autorewrite with settle.
  - unfold insert_log. destruct lg as [d|], (assoc_get c (unlogged w)) as [d'|];
      first [case_bool_decide|idtac]; apply (settled_frame a w); cbn; by autorewrite with settle.
  - unfold transmit. apply (settled_frame a w); [done|..]; destruct ok; try destruct (in_marker _ _ _); cbn; by autorewrite with settle.
Qed.
Lemma job_settled a c fresh w w' : job_write c fresh w w' → settled_alert a w → settled_alert a w'.
Proof.
  intros [v asset locked|v v' H] Hw; [|by eapply worker_settled]. unfold claim_alerts. cbn [fst].
  set (l := List.filter _ (rows v)). apply settled_update; [done..|].
  intros r Hin Hp%bool_decide_eq_true Hid [_ Hs]. exfalso. apply list_elem_of_fmap in Hp as (s & Hrs & Hin2).
  assert (s ∈ l) as [Hs' Hcl]%elem_of_lfilter.
  { rewrite <- (merge_sort_Permutation due_le). apply list_elem_of_In in Hin2. apply list_elem_of_In.
    rewrite <- (firstn_skipn 1000). apply in_or_app. by left. }
  destruct Hw as [_ Hw]. rewrite Forall_forall in Hw. destruct (Hw s Hs') as [_ E]; [congruence|].
  apply andb_true_iff in Hcl as [Hcl _]. unfold claimable, status_in in Hcl. by rewrite E in Hcl.
Qed.
Lemma other_settled a idle w w' : other_write idle w w' → settled_alert a w → settled_alert a w'.
Proof.
  intros H Hw. destruct H as [w t Ht|w user token key threshold due channels|w b seen channels|w access b channels Hs
    |w b user channels|w scope b Hidle|w token expiration|w scope keep|w p|w b status channels email whatsapp webhooks settled].
  - unfold tick. destruct (forallb _ _); by apply (settled_frame a w).
  - unfold queue_alert. destruct (existsb _ _); [done|]. destruct Hw as [Ha Hw]. split; cbn; [lia|].
    rewrite Forall_app, Forall_singleton. cbn. split; [done|lia].
  - by apply settled_update.
  - apply settled_update; [done..|]. intros r _ Hr _ [_ E]. split_guard. destruct Hs.
    assert (q_status b = "sent"%string) as -> by congruence. done.
  - apply settled_update; [done..|]. intros r _ Hr _ [_ E]. split_guard. congruence.
  - apply settled_update; [done..|]. intros r _ [_ Hr]%andb_true_iff _ [_ E].
    unfold requeueable, status_in in Hr. by rewrite E in Hr.
  - apply settled_update; [done|intros r; by destruct (status_in _ r)|]. intros r _ _ _ [_ E].
    split; [by destruct (status_in _ r)|]. unfold status_in. by rewrite E.
  - unfold suppressPendingRetiredCertificateAlerts. destruct keep; [by apply settled_update|].
    destruct Hw. split; [done|]. by apply Forall_lfilter.
  - destruct Hw. split; [done|]. by apply Forall_lfilter.
  - apply settled_update; [done..|]. intros r _ Hr _ [_ E]. unfold pagerduty_parent in Hr. split_guard.
    exfalso. by eapply (not_sent r); [eassumption| |].
Qed.

(** C11: Once an alert is settled as sent and released, nothing reopens it: not
    a worker whose claim expired, a user's retry, a bulk requeue of everything,
    the inventory or the reconcilers, in whatever order and with whatever
    failures they run. *)
Theorem sent_is_final `{DeliveryEnv} (runs : list run_of) (w w' : world) (ps : list (wprog unit)) (alert : queue_row) :
  NoDup (map q_id (rows w)) → Forall (λ r, q_id r < next_id w) (rows w) →
  alert ∈ rows w → q_status alert = "sent"%string → q_claim alert = None →
  rtc (callers_step True (other_write False)) (w, map worker_program runs) (w', ps) →
  ∀ r, r ∈ rows w' → q_id r = q_id alert → q_status r = "sent"%string ∧ q_claim r = None.
Proof.
  intros Hn Hi Hin Hs Hc Hrtc.
  assert (settled_alert (q_id alert) w) as Hw.
  { rewrite Forall_forall in Hi. split; [by apply Hi|]. apply Forall_forall. intros r Hr Hid.
    apply list_elem_of_lookup in Hr as [i Hr], Hin as [j Hj].
    assert (i = j) as -> by (eapply (NoDup_lookup (map q_id (rows w))); [done|rewrite list_lookup_fmap, Hr; cbn; by rewrite Hid|by rewrite list_lookup_fmap, Hj]).
    by replace r with alert by congruence. }
  assert (settled_alert (q_id alert) w') as [_ Hw'].
  { eapply (callers_sound True (settled_alert (q_id alert)) (λ _ _ _, True)
      (guarantee (λ c, job_write c (λ _ _, True)) (map run_claim runs)) _ (λ _ _ _, True)); [done|done|..|exact Hrtc].
    - intros i a b. unfold guarantee. destruct (_ !! i); [|done]. intros Hj Ha. split; [by eapply job_settled|done].
    - intros a b Ho Ha. split; [by eapply other_settled|done].
    - done.
    - intros i p Hp. apply emits_ensures. rewrite list_lookup_fmap in Hp. destruct (runs !! i) as [r|] eqn:Er; [|done].
      injection Hp as <-. unfold guarantee. rewrite list_lookup_fmap, Er. exact (emits_run (run_claim r) any (λ _ _, I) _ _ _ _). }
  rewrite Forall_forall in Hw'. intros r Hr Hid. destruct (Hw' r Hr Hid). done.
Qed.

(** ** What users' requests write *)

(** A retry request writes only what [retries] says, planned from an alert that
    was not settled. *)
Lemma retry_writes access id user channel :
  emits (λ w w', w' = w ∨ other_write True w w') (retry_handler access id user channel).
Proof.
  apply emits_bind; [apply emits_query; by left|]. intros [[[alert active] cooling]|]; [|done]. unfold retry_found.
  destruct (retry_refused alert) eqn:Er; [done|]. destruct (planManualRetry _ _); [|done].
  destruct active; [done|]. destruct cooling; [done|]. apply emits_bind.
  - apply emits_query. intros w. right. rewrite (surjective_pairing (retry_update _ _ _ w)). apply retries.
    intros E. unfold retry_refused in Er. cbv zeta in Er. rewrite E, (bool_decide_false ("sent"%string = "blocked"%string)) in Er by done.
    cbn [andb] in Er. by rewrite bool_decide_true in Er.
  - intros n. destruct (n =? 0); [|done]. apply emits_bind; [apply emits_query; by left|done].
Qed.
Lemma requeue_writes user : emits (λ w w', w' = w ∨ other_write True w w') (requeue_after_webhook_change user).
Proof.
  apply emits_bind; [apply emits_query; by left|]. intros alerts. induction alerts as [|a alerts IH]; cbn [requeue_webhook_alerts]; [done|].
  destruct (requeueWebhookChannel _); [|done]. apply emits_bind; [|done]. apply emits_query.
  intros w. right. rewrite (surjective_pairing (requeue_update _ _ _ w)). apply requeues.
Qed.

(** * Examples *)

(** A deployment whose hash is the identity and whose windows are unset. *)
Definition ex_env : DeliveryEnv := {|
  sha256_text := id; url_hostname := λ _, None; local_hhmm := λ _ _, None;
  window_default_start := EmptyString; window_default_end := EmptyString;
  window_deferral_ms := 60000; MAX_ATTEMPTS_PER_CHANNEL := 0;
  valid_email := λ s, negb (bool_decide (toLowerCase (trim s) = EmptyString));
  support_email := "support@your-company.com" |}.
Definition ex_context : alert_context :=
  mkContext (Arr [Obj [("id", Str "ops"); ("email_contact_ids", Arr [Str "1"; Str "2"])]]) (Arr [Str "ops"]) Null (Arr [Num (Fin 30)]) (Bool true) Null
    (Some "ws"%string) Null Null Null Null.
(** Two verified recipients; [answer]: what the mail server says of each. *)
Definition ex_inputs (answer : string → mail_answer) : inputs :=
  mkInputs (λ _, Ok None) (λ _, Ok None) (λ _, Ok ["ann@x.io"; "bob@x.io"]%string)
    (λ _, Ok (mkGate ["ann@x.io"; "bob@x.io"]%string [] true Null)) true (λ _ _, Ok (true, Null)) (λ _ _, Ok tt)
    (λ rcpt, [answer rcpt]) (λ _, Ok None) false false (λ _, Err EmptyString) (λ _, Err EmptyString) (λ _, Err EmptyString).
Definition ex_accepts (rcpt : string) : mail_answer := mail_info 1 "250 queued".
Definition ex_bob_down (rcpt : string) : mail_answer :=
  if bool_decide (rcpt = "bob@x.io"%string) then mail_throws "450 mailbox busy" else ex_accepts rcpt.
Definition ex_run (claim : string) (answer : string → mail_answer) : run_of :=
  mkRun claim (λ _, ex_context) (λ _, ex_inputs answer) (λ _, true) (λ _, false).
Definition ex_alert (status : string) : queue_row :=
  mkQueueRow 7 1 (Some 3) "token_expiry:3:30" 30 100 (Arr [Str "email"]) status None 0 0 0 0 None None 0.
Definition ex_queue (status : string) : world := mkWorld (200 * DAY_MS) [ex_alert status] 8 [] [] [] [] false.
Definition ex_sent (rcpt : string) : delivery := mkDelivery 7 "email" rcpt.

Definition ex_runs : list run_of :=
  [ex_run "a" ex_bob_down; ex_run "b" ex_accepts; ex_run "c" ex_accepts].
Definition ex_program (claim : string) (answer : string → mail_answer) : wprog unit :=
  @worker_program ex_env (ex_run claim answer).
(** The first run is half way; the second runs and finds nothing to claim; the
    first ends, its second recipient failing; the third delivers what is left. *)
Definition ex_1 := advance 9 (ex_program "a" ex_bob_down) (ex_queue "pending").
Definition ex_2 := run (ex_program "b" ex_accepts) ex_1.1.
Definition ex_3 := run ex_1.2 ex_2.1.
Definition ex_4 := run (ex_program "c" ex_accepts) ex_3.1.
Example ex_trace : in_marker "a" 7 ex_1.1 = true ∧ accepted ex_2.1 = [ex_sent "ann@x.io"] ∧ accepted ex_3.1 = [ex_sent "ann@x.io"] ∧ map q_status (rows ex_3.1) = ["failed"%string]
  ∧ accepted ex_4.1 = [ex_sent "ann@x.io"; ex_sent "bob@x.io"] ∧ map q_status (rows ex_4.1) = ["sent"%string] ∧ overrun ex_4.1 = false.
Proof. vm_compute. repeat split. Qed.
Lemma ex_order {S E A} faults env n (a b c : prog S E A) (s : S) :
  let x := advance n a s in let y := run b x.1 in let z := run x.2 y.1 in let u := run c z.1 in
  rtc (callers_step faults env) (s, [a; b; c]) (u.1, [Ret z.2; Ret y.2; Ret u.2]).
Proof.
  cbv zeta. etransitivity; [by apply (advance_callers faults env n a _ _ 0%nat)|]. cbn.
  etransitivity; [by apply (run_callers faults env b _ _ 1%nat)|]. cbn.
  etransitivity; [by apply (run_callers faults env (advance n a s).2 _ _ 0%nat)|]. cbn.
  exact (run_callers faults env c _ [_; _; c] 2%nat eq_refl).
Qed.
Lemma ex_reached (faults : Prop) env : ∃ ps,
  rtc (callers_step faults env) (ex_queue "pending", map (@worker_program ex_env) ex_runs) (ex_4.1, ps).
Proof. eexists. exact (ex_order faults env 9 (ex_program "a" ex_bob_down) _ _ _). Qed.
Lemma ex_rest status : at_rest (ex_queue status).
Proof. repeat split; [apply NoDup_singleton|by repeat constructor]. Qed.
Lemma ex_claims : NoDup (map run_claim ex_runs).
Proof. by apply (bool_decide_unpack _). Qed.
Lemma recipients_reached_once_witness :
  accepted ex_4.1 = [ex_sent "ann@x.io"; ex_sent "bob@x.io"] ∧ NoDup (List.filter recipient_delivery (accepted ex_4.1)).
Proof.
  split; [vm_compute; reflexivity|]. destruct (ex_reached False (other_write True)) as [ps Hrtc].
  apply (@recipients_reached_once ex_env ex_runs (ex_queue "pending") ex_4.1 ps).
  - intros rcpt Hv E. cbn in Hv. by rewrite bool_decide_true in Hv.
  - intros r Hr alert rcpt. apply list_elem_of_In in Hr.
    assert (plain_answer (ex_accepts rcpt)) as Hp by (intros _; vm_compute; reflexivity).
    destruct Hr as [<-|[<-|[<-|[]]]]; cbn; constructor; try constructor; unfold ex_bob_down; [case_bool_decide; [exact I|exact Hp]|exact Hp..].
  - apply ex_claims.
  - apply ex_rest.
  - exact Hrtc.
  - vm_compute. reflexivity.
Defined.
Lemma exclusive_delivery_witness :
  in_marker "a" 7 ex_1.1 = true ∧
  ∀ j s, ex_runs !! j = Some s → in_marker (run_claim s) 7 ex_1.1 = true → 0%nat = j.
Proof.
  split; [vm_compute; reflexivity|]. intros j s Hj Hm.
  refine (@exclusive_delivery ex_env ex_runs (ex_queue "pending") ex_1.1 _ ex_claims (ex_rest _) _ 0%nat j _ s 7 eq_refl Hj _ Hm).
  - exact (advance_callers True (other_write True) 9 (ex_program "a" ex_bob_down) _ (map (@worker_program ex_env) ex_runs) 0%nat eq_refl).
  - vm_compute. reflexivity.
Defined.

(** A user requeues everything while a worker runs. *)
Definition ex_requeued (w : world) : world := (requeueAlertsCore (λ _, true) true w).1.
Lemma sent_is_final_witness :
  let w := ex_queue "sent" in let w' := (run (ex_program "b" ex_accepts) (ex_requeued w)).1 in
  map q_status (rows w') = ["sent"%string] ∧
  ∀ r, r ∈ rows w' → q_id r = 7 → q_status r = "sent"%string ∧ q_claim r = None.
Proof.
  intros w w'. split; [vm_compute; reflexivity|]. intros r Hr Hid.
  refine (@sent_is_final ex_env ex_runs w w' _ (ex_alert "sent") _ _ _ eq_refl eq_refl _ r Hr Hid).
  - apply NoDup_singleton.
  - by repeat constructor.
  - by left.
  - eapply rtc_l; [eapply environment_step, (bulk_requeues False w (λ _, true) true); by intros []|].
    exact (run_callers True (other_write False) (ex_program "b" ex_accepts) _ (map (@worker_program ex_env) ex_runs) 1%nat eq_refl).
Defined.

(** Without the restriction to idle alerts, exclusive_delivery fails: requeueAlertsCore
    moves the marker of an alert a worker holds to now and leaves the claim, so
    that another worker takes it while the first is still sending. *)
Definition ex_a := advance 2 (ex_program "a" ex_bob_down) (ex_queue "failed").
Definition ex_b := advance 2 (ex_program "b" ex_accepts) (ex_requeued ex_a.1).
Lemma bulk_requeue_shares : ∃ ps,
  rtc (callers_step False (other_write False)) (ex_queue "failed", map (@worker_program ex_env) ex_runs) (ex_b.1, ps) ∧
  in_marker "a" 7 ex_b.1 = true ∧ in_marker "b" 7 ex_b.1 = true.
Proof.
  eexists. split; [|vm_compute; by split].
  etransitivity; [exact (advance_callers False _ 2 (ex_program "a" ex_bob_down) _ (map (@worker_program ex_env) ex_runs) 0%nat eq_refl)|].
  eapply rtc_l; [eapply environment_step, (bulk_requeues False _ (λ _, true) true); by intros []|].
  exact (advance_callers False _ 2 (ex_program "b" ex_accepts) _ [ex_a.2; _; _] 1%nat eq_refl).
Qed.

(** Without the condition on the mail servers, recipients_reached_once fails:
    bob's server takes the message and says so in words that read as a rate
    limit; the worker logs it as failed, and the next run sends it again. *)
Definition ex_bob_limited (rcpt : string) : mail_answer :=
  if bool_decide (rcpt = "bob@x.io"%string) then mail_info 1 "250 queued, rate limit reached" else ex_accepts rcpt.
Definition ex_l := run (ex_program "a" ex_bob_limited) (ex_queue "pending").
Lemma limited_answer_repeats :
  accepted (run (ex_program "c" ex_accepts) (tick (60 * 60 * 1000) ex_l.1)).1
    = [ex_sent "ann@x.io"; ex_sent "bob@x.io"; ex_sent "bob@x.io"] ∧
  map (λ e, dl_status (le_row e)) (log ex_l.1) = ["success"; "failed"]%string.
Proof. vm_compute. by split. Qed.
