(* ===== verification/AlertDiscovery.v ===== *)
(** Discovery of due alerts: [queueDiscoveryJob] of
    apps/worker/src/queue-manager.js, and what apps/api/services/
    alertEligibility.js tells users of the same assets beforehand.

    Discovery reads every asset with its workspace's settings and decides
    whether its expiry has entered a threshold's window ([discovery_window]);
    then it reconciles the channels of the window's alert or queues a new one,
    statement by statement.  The API folds an asset's groups into one and asks
    the evaluator of AlertEligibility.  The theorems compare the two, and
    follow an asset from the announcement to an alert a worker may claim.
    Audit events are statements without effect on the queue. *)
From S2P Require Import Prelude Dates Json Db Interleaving AlertEligibility ContactGroups DeliveryLedger AlertQueue AlertLease.
Open Scope Z_scope.

(** A row of the discovery query.  The columns both sides read are the
    evaluator's [asset]. *)
Record token_row := mkToken {
  t_token_id : Z; t_user_id : Z; t_created_by : option Z; t_owner_user_id : option Z;
  t_assigned_ids : jsval; t_asset : asset }.
(** The thresholds of the environment, for workspaces without their own. *)
Class DiscoveryEnv := { DEFAULT_THRESHOLDS : list Z }.

Definition workspaceThresholdsFromRow `{DiscoveryEnv} (a : asset) : list Z :=
  match alert_thresholds a with Arr l => finite_numbers l | _ => DEFAULT_THRESHOLDS end.
Definition assignedIdsFromRow (v : jsval) : jsval := match v with Arr _ => v | _ => Arr [] end.

(** * Discovery: what is due *)

(** The maximal runs without a comma or white space. *)
Fixpoint channel_words (s : string) : list string :=
  let separator c := is_js_space c || bool_decide (c = ","%char) in
  match s with
  | EmptyString => []
  | String c s' =>
      if separator c then channel_words s' else
      match s' with
      | String d _ =>
          if separator d then String c EmptyString :: channel_words s'
          else match channel_words s' with [] => [String c EmptyString] | w :: ws => String c w :: ws end
      | EmptyString => [String c EmptyString]
      end
  end.
Definition storedChannelsInput (value : jsval) : jsval :=
  match value with
  | Str s =>
      let trimmed := trim s in
      if bool_decide (trimmed = EmptyString) then Arr []
      else if startsWith "[" trimmed || startsWith "{" trimmed then Str trimmed
      else Arr (map Str (channel_words trimmed))
  | _ => value
  end.

Definition nonempty_text (s : string) : bool := negb (bool_decide (s = EmptyString)).
Definition webhook_named (names : list string) (webhook : jsval) : bool :=
  bool_decide (trim (js_String (js_or (get "name" webhook) (Str EmptyString))) ∈ names).
Definition channelsFromGroups (groups : list jsval) (emailEnabled : bool) (webhookUrls : jsval) : list string :=
  let names := List.filter nonempty_text (concat (map getWebhookNames (List.filter hasWebhookNames groups))) in
  let hasWebhook := match names with [] => false | _ => existsb (webhook_named names) (as_list webhookUrls) end in
  (if emailEnabled && existsb hasEmailContacts groups then ["email"%string] else [])
  ++ (if hasWebhook then ["webhooks"%string] else [])
  ++ (if existsb hasWhatsAppContacts groups then ["whatsapp"%string] else []).
Definition email_enabled (a : asset) : bool :=
  negb (match ws_email_alerts_enabled a with Bool false => true | _ => false end).

Section discovery.
Context {dp : DateParse} {lt : LocalTime} {env : DiscoveryEnv}.

Definition resolved_groups (t : token_row) : list jsval :=
  Worker.resolveContactGroupsForAsset (contact_groups (t_asset t)) (assignedIdsFromRow (t_assigned_ids t))
    (default_contact_group_id (t_asset t)).
(** The threshold whose window the asset is in, unless its certificate is
    retired or the threshold was behind at the import. *)
Definition discovery_window (t : token_row) (today : when) : option (Z * bool) :=
  let a := t_asset t in
  let workspaceThresholds := workspaceThresholdsFromRow a in
  let unionThresholds := unionEffectiveThresholds (resolved_groups t) workspaceThresholds in
  if shouldSkipRetiredCertificateAlert (cert_lifecycle_status a) then None else
  '(thresholdReached, negativeWindow) ←
    findThresholdWindow (computeDaysLeft (expiration a) today)
      (match unionThresholds with [] => workspaceThresholds | _ => unionThresholds end);
  if isStaleImportThreshold (imported_at a) (expiration a) thresholdReached then None
  else Some (thresholdReached, negativeWindow).
Definition discovery_channels (t : token_row) (thresholdReached : Z) : list string :=
  let a := t_asset t in
  channelsFromGroups (unionGroupsForThresholdWindow (resolved_groups t) (workspaceThresholdsFromRow a) thresholdReached)
    (email_enabled a) (webhook_urls a).
Definition window_key (token : Z) (thresholdReached : Z) (negativeWindow : bool) : string :=
  "token_expiry:" +:+ print_Z token +:+ (if negativeWindow then ":negwin:" else ":poswin:") +:+ print_Z thresholdReached.

(** * Discovery: the statements *)

(** contactGroupAuditFields: a null entry among the groups throws when a
    group's name is looked up. *)
Fixpoint name_lookup_ok (id : string) (groups : list jsval) : bool :=
  match groups with
  | [] => true
  | g :: groups => negb (nullish g) && (bool_decide (js_String (get "id" g) = id) || name_lookup_ok id groups)
  end.
Definition contactGroupAuditFields_ok (t : token_row) : bool :=
  match canonicalLegacyContactGroupId (assignedIdsFromRow (t_assigned_ids t)), resolved_groups t with
  | Some id, _ => name_lookup_ok id (as_list (contact_groups (t_asset t)))
  | None, g :: _ => name_lookup_ok (js_String (get "id" g)) (as_list (contact_groups (t_asset t)))
  | None, [] => true
  end.

Definition writeAudit : db_prog unit := query (λ w, (w, Ok tt)).
Definition try_ (p : db_prog unit) : db_prog unit := catch p (λ _, mret tt).
Definition clock_ : db_prog Z := read now.
Definition previous_expiration (key : string) : bool := includes PREVIOUS_EXPIRATION key.
Definition alert_of_window (key : string) (w : world) : option queue_row :=
  List.find (λ r, bool_decide (q_alert_key r = key)) (rows w).
(** The window's alert was sent, under whatever key. *)
Definition already_sent (token thresholdReached : Z) (w : world) : bool :=
  existsb (λ r, bool_decide (q_token r = Some token) && (q_threshold_days r =? thresholdReached)
                && bool_decide (q_status r = "sent"%string)
                && expiry_alert r && negb (previous_expiration (q_alert_key r))) (rows w).
Definition owner_of (t : token_row) : Z :=
  match t_owner_user_id t, t_created_by t with Some u, _ => u | None, Some u => u | None, None => t_user_id t end.

(** The alert that is queued already. *)
Definition refresh_alert (existing : queue_row) (channels : list string) : db_prog unit :=
  if negb (status_in open_statuses existing) then mret tt else
  let reconciled := reconcileDeliveryChannels (storedChannelsInput (q_channels existing)) (Arr (map Str channels)) in
  if negb (rc_changed reconciled) then mret tt else
  n ← query (λ w, let '(w, n) := update_channels (q_id existing) (q_channels existing) (rc_channels reconciled) w in (w, Ok n));
  if n =? 0 then mret tt else try_ writeAudit.
(** A new alert; [live]: the token's row, locked, still has the expiry read
    before and is not retired. *)
Definition insert_alert (live : bool) (t : token_row) (key : string) (thresholdReached due : Z) (channels : list string)
  : db_prog unit :=
  _ ← match formatCalendarDay (expiration (t_asset t)) with Ok _ => mret tt | Err _ => throw (db_failure "Invalid time value") end;
  id ← query (λ w, let '(w, id) :=
                     if live then queue_alert (owner_of t) (Some (t_token_id t)) key thresholdReached due (Arr (map Str channels)) w
                     else (w, None) in (w, Ok id));
  match id with None => mret tt | Some _ => writeAudit end.
Definition discover_token (live : bool) (t : token_row) : db_prog unit :=
  if shouldSkipRetiredCertificateAlert (cert_lifecycle_status (t_asset t)) then mret tt else
  today ← clock_;
  _ ← (if contactGroupAuditFields_ok t then mret tt else throw (db_failure "Cannot read properties of null"));
  match discovery_window t (Millis (Fin today)) with
  | None => mret tt
  | Some (thresholdReached, negativeWindow) =>
      day ← clock_;
      let alertKey := window_key (t_token_id t) thresholdReached negativeWindow in
      let channels := discovery_channels t thresholdReached in
      existing ← read (alert_of_window alertKey);
      match existing with
      | Some existing => refresh_alert existing channels
      | None =>
          sent ← read (already_sent (t_token_id t) thresholdReached);
          if sent : bool then mret tt else
          match channels with
          | [] => try_ writeAudit
          | _ => insert_alert live t alertKey thresholdReached (day / DAY_MS) channels
          end
      end
  end.
Fixpoint discover_all (live : token_row → bool) (tokens : list token_row) : db_prog unit :=
  match tokens with
  | [] => mret tt
  | t :: tokens => _ ← discover_token (live t) t; discover_all live tokens
  end.
(** [tokens]: what the query over the assets answers. *)
Definition queueDiscoveryJob (live : token_row → bool) (tokens : list token_row) : db_prog unit :=
  tokens ← query (λ w, (w, Ok tokens)); discover_all live tokens.

(** * The API's preview *)

Definition parseJsonArray (value : jsval) : list jsval :=
  match value with
  | Arr l => l
  | Str s => match JSON_parse s with Some (Arr l) => l | _ => [] end
  | _ => []
  end.
Definition unionWebhookNames (groups : list jsval) : list string :=
  dedup (List.filter nonempty_text (concat (map getWebhookNames groups))).
Definition with_groups (groups : list jsval) (group_id : jsval) (a : asset) : asset :=
  mkAsset (expiration a) (imported_at a) (Arr groups) group_id (default_contact_group_id a) (alert_thresholds a)
    (webhook_urls a) (ws_email_alerts_enabled a) (cert_lifecycle_status a).
Definition syntheticGroup (primary : jsval) (groups : list jsval) (workspaceThresholds : list Z) : jsval :=
  Obj [("id", get "id" primary); ("name", get "name" primary);
       ("thresholds", Arr (map (λ n, Num (Fin n)) (unionEffectiveThresholds groups workspaceThresholds)));
       ("email_contact_ids", Arr (unionContactIds groups "email_contact_ids"));
       ("whatsapp_contact_ids", Arr (unionContactIds groups "whatsapp_contact_ids"));
       ("webhook_names", Arr (map Str (unionWebhookNames groups)))].
(** The evaluator resolves one group: all groups of the asset, folded into
    one. *)
Definition toUnionedEligibilityAsset (a : asset) (assigned_ids : jsval) : asset :=
  let contactGroups := parseJsonArray (contact_groups a) in
  let resolvedGroups := Api.api_resolveContactGroupsForAsset (Arr contactGroups) (assignedIdsFromRow assigned_ids)
                          (default_contact_group_id a) in
  match resolvedGroups with
  | [] => with_groups contactGroups Null a
  | primary :: _ =>
      with_groups [syntheticGroup primary resolvedGroups (workspaceThresholdsFromRow a)] (get "id" primary) a
  end.
Definition buildEligibilityOnlyState (a : asset) (assigned_ids : jsval) (referenceDate : when) : result unit eligibility :=
  evaluateAlertEligibility (toUnionedEligibilityAsset a assigned_ids) DEFAULT_THRESHOLDS referenceDate.
End discovery.

(** * Settings as the product writes them *)

Definition text_id (v : jsval) : bool := match v with Str s => nonempty_text s | _ => false end.
Definition valid_group (g : jsval) : bool :=
  isString (get "id" g) && forallb text_id (as_list (get "email_contact_ids" g))
  && forallb text_id (as_list (get "whatsapp_contact_ids" g)).
Definition valid_settings `{DiscoveryEnv} (a : asset) : bool :=
  match contact_groups a with Arr gs => forallb valid_group gs | _ => false end
  && match default_contact_group_id a with Str s => bool_decide (trim s = s) | Null => true | _ => false end
  && forallb (λ w, negb (nullish w)) (as_list (webhook_urls a))
  && forallb in_threshold_range (workspaceThresholdsFromRow a).

Lemma valid_truthy g : valid_group g = true → truthy g = true.
Proof. destruct g; cbn; done. Qed.
Lemma window_ext d ts ts' : (∀ t, t ∈ ts ↔ t ∈ ts') → findThresholdWindow d ts = findThresholdWindow d ts'.
Proof.
  intros H. assert (Hs : merge_sort Z.le (dedup ts) = merge_sort Z.le (dedup ts')).
  { apply (StronglySorted_unique Z.le); [apply asc_sorted..|]. rewrite !(merge_sort_Permutation Z.le).
    apply NoDup_Permutation; [apply dedup_NoDup..|]. intros t. by rewrite !dedup_elem. }
  unfold findThresholdWindow. cbv zeta. rewrite Hs.
  destruct ts as [|x ts], ts' as [|y ts']; [done|..|done].
  - destruct (not_elem_of_nil y). apply H. by left.
  - destruct (not_elem_of_nil x). apply H. by left.
Qed.

(** ** Channels of groups *)

Lemma first_by_text_cons seen raw l : text_id raw = true → js_String raw ∉ seen →
  first_by_text seen (raw :: l) = raw :: first_by_text (js_String raw :: seen) l.
Proof.
  intros Ht Hs. destruct raw as [| | | |s| |]; try done. cbn in Ht. unfold nonempty_text in Ht. split_bool.
  cbn [first_by_text]. cbv zeta. rewrite !bool_decide_false by done. done.
Qed.
(** A list of texts is empty exactly if its union is. *)
Lemma union_nonempty groups k : forallb (λ g, forallb text_id (as_list (get k g))) groups = true →
  nonempty_array (Arr (unionContactIds groups k)) = existsb (λ g, nonempty_array (get k g)) groups.
Proof.
  unfold unionContactIds. induction groups as [|g groups IH]; [done|]. cbn [forallb existsb map concat].
  intros [Hg Hgs]%andb_true_iff. destruct (get k g) as [| | | | |[|raw l]|] eqn:E; cbn [as_list nonempty_array app orb]; try by apply IH.
  cbn [as_list forallb] in Hg. apply andb_true_iff in Hg as [Hr _]. rewrite first_by_text_cons; [done|done|apply not_elem_of_nil].
Qed.
Lemma group_names_trim g n : n ∈ getWebhookNames g → trim n = n.
Proof.
  unfold getWebhookNames. destruct (negb (truthy g)); [by intros ?%elem_of_nil|].
  assert (Hs : n ∈ (if truthy (get "webhook_name" g) then [trim (js_String (get "webhook_name" g))] else []) → trim n = n).
  { destruct (truthy _); [|by intros ?%elem_of_nil]. intros ->%list_elem_of_singleton. apply trim_trim. }
  destruct (get "webhook_names" g); try exact Hs. intros (v & -> & _)%list_elem_of_fmap. apply trim_trim.
Qed.
(** A group without webhooks names none. *)
Lemma unnamed g : hasWebhookNames g = false → getWebhookNames g = [].
Proof.
  unfold hasWebhookNames, getWebhookNames. destruct (truthy g); [|done]. cbn [andb negb].
  intros [H1 H2]%orb_false_iff. rewrite H1. by destruct (get "webhook_names" g) as [| | | | |[]|].
Qed.
Lemma named_only groups :
  concat (map getWebhookNames (List.filter hasWebhookNames groups)) = concat (map getWebhookNames groups).
Proof.
  induction groups as [|g groups IH]; [done|]. cbn. destruct (hasWebhookNames g) eqn:E; cbn; rewrite IH; [done|].
  by rewrite (unnamed g).
Qed.
Lemma some_webhook_named names l : forallb (λ w, negb (nullish w)) l = true →
  some_webhook names l = existsb (webhook_named names) l.
Proof.
  induction l as [|w l IH]; [done|]. cbn. intros [Hw Hl]%andb_true_iff. rewrite IH by done.
  by destruct (nullish w).
Qed.
Lemma webhook_named_ext names names' l : (∀ n, n ∈ names ↔ n ∈ names') →
  existsb (webhook_named names) l = existsb (webhook_named names') l.
Proof.
  intros H. induction l as [|w l IH]; [done|]. cbn [existsb]. rewrite IH. f_equal. unfold webhook_named.
  by apply bool_decide_ext.
Qed.


Section preview.
Context {dp : DateParse} {lt : LocalTime} {env : DiscoveryEnv}.
Implicit Types (t : token_row) (a : asset).

Lemma concat_elem {A B} (f : A → list B) l y : y ∈ concat (map f l) ↔ ∃ x, x ∈ l ∧ y ∈ f x.
Proof.
  induction l as [|x l IH]; cbn; [split; [by intros ?%elem_of_nil|by intros (x & ?%elem_of_nil & _)]|].
  rewrite elem_of_app, IH. setoid_rewrite elem_of_cons. naive_solver.
Qed.
Lemma named_elem groups n : n ∈ List.filter nonempty_text (concat (map getWebhookNames groups)) ↔
  n ≠ EmptyString ∧ ∃ g, g ∈ groups ∧ n ∈ getWebhookNames g.
Proof.
  rewrite list_elem_of_In, filter_In, <- list_elem_of_In, concat_elem. unfold nonempty_text.
  rewrite negb_true_iff, bool_decide_eq_false. naive_solver.
Qed.
(** The names the groups select webhooks by. *)
Lemma synthetic_names primary groups ws :
  getWebhookNames (syntheticGroup primary groups ws) = unionWebhookNames groups.
Proof.
  transitivity (map (λ name, trim (js_String name)) (List.filter truthy (map Str (unionWebhookNames groups)))); [done|].
  assert (H : Forall (λ n, trim n = n ∧ nonempty_text n = true) (unionWebhookNames groups)).
  { apply Forall_forall. intros n Hn. unfold unionWebhookNames in Hn. rewrite dedup_elem, named_elem in Hn.
    destruct Hn as (Hn & g & _ & Hg). split; [by eapply group_names_trim|]. unfold nonempty_text. by rewrite bool_decide_false. }
  induction H as [|n names [Ht Hn] _ IH]; [done|]. cbn [map List.filter]. unfold nonempty_text in Hn.
  change (truthy (Str n)) with (negb (bool_decide (n = EmptyString))). rewrite Hn. cbn [map js_String]. by rewrite Ht, IH.
Qed.
Lemma contacts_union (has : jsval → bool) k groups : forallb valid_group groups = true →
  (∀ g, has g = truthy g && nonempty_array (get k g)) →
  (∀ g, valid_group g = true → forallb text_id (as_list (get k g)) = true) →
  nonempty_array (Arr (unionContactIds groups k)) = existsb has groups.
Proof.
  intros Hg Hhas Hk. rewrite union_nonempty.
  - induction groups as [|g groups IH]; [done|]. cbn in *. apply andb_true_iff in Hg as [Hv Hg]. rewrite IH by done.
    by rewrite Hhas, (valid_truthy g).
  - induction groups as [|g groups IH]; [done|]. cbn in *. apply andb_true_iff in Hg as [Hv Hg]. rewrite (Hk g Hv). by apply IH.
Qed.
Lemma valid_ids g : valid_group g = true →
  forallb text_id (as_list (get "email_contact_ids" g)) = true ∧ forallb text_id (as_list (get "whatsapp_contact_ids" g)) = true.
Proof. unfold valid_group. rewrite !andb_true_iff. naive_solver. Qed.
(** The folded group carries the channels of all groups. *)
Lemma synthetic_channels a primary groups ws : valid_settings a = true → forallb valid_group groups = true →
  resolveEligibleChannels (with_groups [syntheticGroup primary groups ws] (get "id" primary) a)
    (syntheticGroup primary groups ws) = channelsFromGroups groups (email_enabled a) (webhook_urls a).
Proof.
  intros Ha Hg. unfold resolveEligibleChannels, channelsFromGroups. rewrite named_only, synthetic_names.
  change (hasEmailContacts (syntheticGroup primary groups ws)) with (nonempty_array (Arr (unionContactIds groups "email_contact_ids"))).
  change (hasWhatsAppContacts (syntheticGroup primary groups ws)) with (nonempty_array (Arr (unionContactIds groups "whatsapp_contact_ids"))).
  rewrite (contacts_union hasEmailContacts), (contacts_union hasWhatsAppContacts) by (done || (intros g Hv; apply (valid_ids g Hv))).
  unfold email_enabled, with_groups. cbn [ws_email_alerts_enabled webhook_urls].
  f_equal. f_equal. unfold valid_settings in Ha. rewrite !andb_true_iff in Ha. destruct Ha as [[_ Hw] _].
  rewrite some_webhook_named by done.
  change (hasWebhookNames (syntheticGroup primary groups ws)) with (nonempty_array (Arr (map Str (unionWebhookNames groups)))).
  unfold unionWebhookNames. set (names := List.filter _ _).
  rewrite (webhook_named_ext (dedup names) names) by (intros; apply dedup_elem).
  assert (nonempty_array (Arr (map Str (dedup names))) = match names with [] => false | _ => true end) as ->
    by (by destruct names). by destruct names.
Qed.

(** ** The group the evaluator resolves *)

Lemma find_group_valid id gs : forallb valid_group gs = true → find_group id gs = Ok (group_with_id gs id).
Proof.
  intros Hg. unfold group_with_id. induction gs as [|g gs IH]; [done|]. cbn in Hg. apply andb_true_iff in Hg as [Hv Hg].
  cbn [find_group List.find]. pose proof (valid_truthy g Hv) as Ht. rewrite Ht.
  assert (nullish g = false) as -> by (by destruct g). cbn [andb]. case_bool_decide; [|by apply IH].
  unfold js_or. by rewrite Ht.
Qed.
Lemma resolved_valid gs ids d : forallb valid_group gs = true → forallb valid_group (resolved gs ids d) = true.
Proof.
  intros Hg. apply forallb_forall. intros g Hin%list_elem_of_In. rewrite forallb_forall in Hg. apply Hg, list_elem_of_In.
  assert (H : ∀ ids, g ∈ existing gs ids → g ∈ gs).
  { intros l (Ht & id & _ & ->)%existing_elem. by apply group_with_id_spec. }
  unfold resolved in Hin. destruct (existing gs ids) as [|g0 rs] eqn:E.
  - unfold default_group in Hin. case_bool_decide; [by apply elem_of_nil in Hin|]. by eapply H.
  - rewrite (merge_sort_Permutation group_le), <- E in Hin. by eapply H.
Qed.
Lemma resolved_plain gs v d g : g ∈ resolved gs (normalizeAssignedGroupIds v) d → plain_id (js_String (get "id" g)).
Proof.
  assert (H : ∀ ids, Forall plain_id ids → g ∈ existing gs ids → plain_id (js_String (get "id" g))).
  { intros l Hl (Ht & id & Hid & ->)%existing_elem. rewrite (proj2 (group_with_id_spec _ _ Ht)).
    rewrite Forall_forall in Hl. by apply Hl. }
  unfold resolved. destruct (existing gs (normalizeAssignedGroupIds v)) as [|g0 rs] eqn:E.
  - unfold default_group. case_bool_decide as Hd; [by intros ?%elem_of_nil|]. apply H. repeat constructor; [|done].
    unfold trimmed_id in *. destruct (nullish d); [done|apply trim_trim].
  - rewrite (merge_sort_Permutation group_le), <- E. apply H, normalize_normal.
Qed.
Lemma preview_groups t : valid_settings (t_asset t) = true → ∃ gs, contact_groups (t_asset t) = Arr gs ∧
  forallb valid_group gs = true ∧
  resolved_groups t = resolved gs (normalizeAssignedGroupIds (assignedIdsFromRow (t_assigned_ids t))) (default_contact_group_id (t_asset t)) ∧
  Api.api_resolveContactGroupsForAsset (Arr (parseJsonArray (contact_groups (t_asset t)))) (assignedIdsFromRow (t_assigned_ids t))
    (default_contact_group_id (t_asset t)) = resolved_groups t.
Proof.
  unfold valid_settings. rewrite !andb_true_iff. intros [[[Hg Hd] _] _].
  destruct (contact_groups (t_asset t)) as [| | | | |gs|] eqn:E; try done. exists gs. split; [done|]. split; [done|].
  unfold resolved_groups. rewrite E, worker_resolves. split; [done|]. cbn [parseJsonArray]. rewrite api_resolves; [done|].
  destruct (default_contact_group_id _) as [| | | |s| |]; try done; [by right; left|].
  destruct (decide (s = EmptyString)) as [->|Hs]; [by right; right|]. left. cbn. by rewrite bool_decide_false.
Qed.

(** What the preview evaluates: the folded group, or none. *)
Lemma preview_group t : valid_settings (t_asset t) = true →
  let a := toUnionedEligibilityAsset (t_asset t) (t_assigned_ids t) in
  resolveContactGroup (contact_groups a) (contact_group_id a) (default_contact_group_id a) =
  match resolved_groups t with
  | [] => Null
  | primary :: _ => syntheticGroup primary (resolved_groups t) (workspaceThresholdsFromRow (t_asset t))
  end.
Proof.
  intros Ha. pose proof (preview_groups t Ha) as (gs & Eg & Hgs & Er & Eapi). cbv zeta. unfold toUnionedEligibilityAsset.
  cbv zeta. rewrite Eapi. destruct (resolved_groups t) as [|primary rs] eqn:E.
  - unfold resolveContactGroup, with_groups. cbn [contact_groups contact_group_id default_contact_group_id truthy andb].
    rewrite Eg. cbn [parseJsonArray as_list]. set (d := default_contact_group_id (t_asset t)) in *.
    destruct (truthy d) eqn:Ed; [|done]. rewrite (find_group_valid _ gs Hgs). cbn [mbind result_bind]. rewrite andb_false_r.
    cbn [andb]. assert (Hd : trimmed_id d = js_String d ∧ js_String d ≠ EmptyString).
    { unfold valid_settings in Ha. rewrite !andb_true_iff in Ha. destruct Ha as [[[_ Hd] _] _]. fold d in Hd.
      destruct d as [| | | |s| |]; try done. apply bool_decide_eq_true in Hd. cbn in Ed. split; [done|]. cbn. intros ->.
      by rewrite bool_decide_true in Ed. }
    destruct Hd as [Ht Hn]. symmetry in Er. unfold resolved in Er. destruct (existing gs _) as [|g rs]; [|].
    + unfold default_group in Er. rewrite Ht, bool_decide_false in Er by done. unfold existing in Er. cbn in Er.
      destruct (truthy (group_with_id gs (js_String d))) eqn:Eg'; [done|]. by rewrite (group_with_id_none _ _ Eg').
    + apply (f_equal length) in Er. by rewrite (Permutation_length (merge_sort_Permutation group_le (g :: rs))) in Er.
  - assert (Hin : primary ∈ resolved gs (normalizeAssignedGroupIds (assignedIdsFromRow (t_assigned_ids t)))
                              (default_contact_group_id (t_asset t))) by (rewrite <- Er; by left).
    pose proof (resolved_plain _ _ _ _ Hin) as [Ht Hn].
    pose proof (resolved_valid gs (normalizeAssignedGroupIds (assignedIdsFromRow (t_assigned_ids t)))
      (default_contact_group_id (t_asset t)) Hgs) as Hv. rewrite forallb_forall in Hv.
    apply list_elem_of_In, Hv in Hin. unfold valid_group in Hin. rewrite !andb_true_iff in Hin. destruct Hin as [[Hp _] _].
    unfold resolveContactGroup, with_groups. cbn [contact_groups contact_group_id default_contact_group_id as_list].
    destruct (get "id" primary) as [| | | |s| |] eqn:Es; try done. cbn [js_String] in *. rewrite Ht.
    assert (truthy (Str s) = true) as -> by (cbn; by rewrite bool_decide_false).
    assert (0 <? slen s = true) as -> by (unfold slen; destruct s; [done|apply Z.ltb_lt; cbn [String.length]; lia]). cbn [andb].
    unfold find_group, syntheticGroup. rewrite Es. cbn [nullish get default]. cbn -[unionEffectiveThresholds unionContactIds unionWebhookNames].
    by rewrite (bool_decide_true (s = s)).
Qed.

Definition union_or_default t : list Z :=
  match unionEffectiveThresholds (resolved_groups t) (workspaceThresholdsFromRow (t_asset t)) with
  | [] => workspaceThresholdsFromRow (t_asset t)
  | _ => unionEffectiveThresholds (resolved_groups t) (workspaceThresholdsFromRow (t_asset t))
  end.
Lemma Number_numbers l : omap Number_finite (map (λ n, Num (Fin n)) l) = l.
Proof. induction l as [|n l IH]; [done|]. cbn. by f_equal. Qed.
Lemma union_in_range groups ws : forallb in_threshold_range ws = true →
  ∀ n, n ∈ unionEffectiveThresholds groups ws → in_threshold_range n = true.
Proof.
  intros Hws n Hn. unfold unionEffectiveThresholds in Hn. rewrite dedup_elem, concat_elem in Hn.
  destruct Hn as (g & _ & Hn). unfold effectiveThresholds in Hn.
  destruct (validGroupThresholds (get "thresholds" g)) as [|m l] eqn:E.
  - rewrite forallb_forall in Hws. by apply Hws, list_elem_of_In.
  - rewrite <- E in Hn. unfold validGroupThresholds in Hn. rewrite dedup_elem in Hn.
    by apply list_elem_of_In, filter_In in Hn as [_ Hn].
Qed.
(** Both sides look for the window among the same thresholds. *)
Lemma preview_window t d : valid_settings (t_asset t) = true →
  let a := toUnionedEligibilityAsset (t_asset t) (t_assigned_ids t) in
  findThresholdWindow d (thresholds_of a DEFAULT_THRESHOLDS) = findThresholdWindow d (union_or_default t).
Proof.
  intros Ha. cbv zeta. apply window_ext. intros n. unfold thresholds_of. rewrite (preview_group t Ha).
  unfold resolveEffectiveThresholds. rewrite (merge_sort_Permutation ge), dedup_elem.
  assert (Hws : match alert_thresholds (toUnionedEligibilityAsset (t_asset t) (t_assigned_ids t)) with
                | Arr l => finite_numbers l | _ => DEFAULT_THRESHOLDS end = workspaceThresholdsFromRow (t_asset t)).
  { unfold toUnionedEligibilityAsset. cbv zeta. by destruct (Api.api_resolveContactGroupsForAsset _ _ _). }
  rewrite Hws. unfold union_or_default. destruct (resolved_groups t) as [|p rs] eqn:Er; [done|].
  change (get "thresholds" (syntheticGroup p (p :: rs) (workspaceThresholdsFromRow (t_asset t)))) with
    (Arr (map (λ n, Num (Fin n)) (unionEffectiveThresholds (p :: rs) (workspaceThresholdsFromRow (t_asset t))))).
  cbn [as_list]. rewrite Number_numbers, lfilter_all; [by destruct (unionEffectiveThresholds (p :: rs) _)|].
  apply Forall_forall, union_in_range. unfold valid_settings in Ha. rewrite !andb_true_iff in Ha. tauto.
Qed.

(** ** When the evaluation says due *)

Lemma evaluate_due a ts ref el n : evaluateAlertEligibility a ts ref = Ok el →
  (el_status el = due ∧ effective_threshold el = Some n ↔
   shouldSkipRetiredCertificateAlert (cert_lifecycle_status a) = false ∧
   (∃ neg, findThresholdWindow (computeDaysLeft (expiration a) ref) (thresholds_of a ts) = Some (n, neg)) ∧
   isStaleImportThreshold (imported_at a) (expiration a) n = false ∧ eligible_channels el ≠ []) ∧
  eligible_channels el = resolveEligibleChannels a
    (resolveContactGroup (contact_groups a) (contact_group_id a) (default_contact_group_id a)).
Proof.
  unfold evaluateAlertEligibility. fold (thresholds_of a ts). destruct (formatCalendarDay _) as [day|]; [|done].
  cbn [mbind result_bind]. set (chs := resolveEligibleChannels a _).
  assert (H0 : ∀ P Q R (x : status) (y : option Z), (x = due → False) ∨ y = None → (P → Q → R → False) →
    (x = due ∧ y = Some n ↔ P ∧ Q ∧ R)) by (intros P Q R x y [?| ->] ?; split; naive_solver).
  destruct (shouldSkipRetiredCertificateAlert _); [intros [= <-]; split; [|done]; apply H0; [by right|done]|].
  destruct (computeDaysLeft _ _) as [d|]; [|intros [= <-]; split; [|done]; apply H0; [by right|intros _ (? & ?); done]].
  destruct (findThresholdWindow _ _) as [[m neg]|] eqn:Ew; [|intros [= <-]; split; [|done]; apply H0; [by right|intros _ (? & ?); done]].
  destruct (isStaleImportThreshold _ _ m) eqn:Es.
  { intros [= <-]. split; [|done]. apply H0; [by left|]. intros _ (? & [= -> _]) [E _]. by rewrite Es in E. }
  destruct chs eqn:Ec; intros [= <-]; (split; [|done]); cbn.
  - apply H0; [by left|]. intros _ _ [_ []]. done.
  - split.
    + intros [_ [= <-]]. split; [done|]. split; [by exists neg|done].
    + intros (_ & (? & [= -> _]) & _). done.
Qed.

Lemma subset_exists {A} (p : A → bool) l k : l ⊆ k → existsb p l = true → existsb p k = true.
Proof.
  intros H Hl. apply existsb_exists in Hl as (x & Hx%list_elem_of_In & Hp). apply existsb_exists. exists x.
  split; [|done]. by apply list_elem_of_In, H.
Qed.
(** More groups, more channels. *)
Lemma channels_mono groups groups' b urls : groups ⊆ groups' →
  channelsFromGroups groups b urls ⊆ channelsFromGroups groups' b urls.
Proof.
  intros Hg c. unfold channelsFromGroups. rewrite !named_only, !elem_of_app.
  assert (Hif : ∀ (x y : bool) (s : string), (x = true → y = true) → c ∈ (if x then [s] else []) → c ∈ (if y then [s] else [])).
  { intros [] y s H; [rewrite H by done; done|by intros ?%elem_of_nil]. }
  intros [H|[H|H]]; [left|right; left|right; right]; (eapply Hif; [|exact H]).
  - rewrite !andb_true_iff. intros [-> He]. split; [done|]. by eapply subset_exists.
  - assert (Hn : List.filter nonempty_text (concat (map getWebhookNames groups)) ⊆
                 List.filter nonempty_text (concat (map getWebhookNames groups'))).
    { intros n. rewrite !named_elem. intros (Hn & g & Hin & Hg'). split; [done|]. exists g. by split; [apply Hg|]. }
    destruct (List.filter _ (concat (map getWebhookNames groups))) as [|n names] eqn:E; [done|].
    intros He. apply existsb_exists in He as (w & Hw & Hm). destruct (List.filter _ (concat (map getWebhookNames groups'))) as [|n' names'].
    + destruct (not_elem_of_nil n). apply Hn. by left.
    + apply existsb_exists. exists w. split; [done|]. unfold webhook_named in *. apply bool_decide_eq_true in Hm.
      apply bool_decide_eq_true. by apply Hn.
  - intros He. by eapply subset_exists.
Qed.
Lemma firing_subset groups ws n : unionGroupsForThresholdWindow groups ws n ⊆ groups.
Proof. intros g. unfold unionGroupsForThresholdWindow. rewrite !list_elem_of_In, filter_In. tauto. Qed.
Lemma preview_channels t : valid_settings (t_asset t) = true →
  let a := toUnionedEligibilityAsset (t_asset t) (t_assigned_ids t) in
  resolveEligibleChannels a (resolveContactGroup (contact_groups a) (contact_group_id a) (default_contact_group_id a)) =
  channelsFromGroups (resolved_groups t) (email_enabled (t_asset t)) (webhook_urls (t_asset t)).
Proof.
  intros Ha. pose proof (preview_groups t Ha) as (gs & Eg & Hgs & Er & Eapi). cbv zeta. rewrite (preview_group t Ha).
  unfold toUnionedEligibilityAsset. cbv zeta. rewrite Eapi. destruct (resolved_groups t) as [|p rs] eqn:E.
  - unfold resolveEligibleChannels, channelsFromGroups. cbn. rewrite !andb_false_r. done.
  - apply synthetic_channels; [done|]. rewrite Er. by apply resolved_valid.
Qed.

(** The announcement in terms of discovery's decision. *)
Lemma due_discovered t today el :
  valid_settings (t_asset t) = true → buildEligibilityOnlyState (t_asset t) (t_assigned_ids t) today = Ok el →
  (∀ n, el_status el = due ∧ effective_threshold el = Some n ↔
    (∃ neg, discovery_window t today = Some (n, neg)) ∧ eligible_channels el ≠ []) ∧
  eligible_channels el = channelsFromGroups (resolved_groups t) (email_enabled (t_asset t)) (webhook_urls (t_asset t)).
Proof.
  intros Ha He.
  assert (Hcols : let a := toUnionedEligibilityAsset (t_asset t) (t_assigned_ids t) in
     expiration a = expiration (t_asset t) ∧ imported_at a = imported_at (t_asset t) ∧
     cert_lifecycle_status a = cert_lifecycle_status (t_asset t)).
  { cbv zeta. unfold toUnionedEligibilityAsset. cbv zeta. by destruct (Api.api_resolveContactGroupsForAsset _ _ _). }
  destruct Hcols as (Hexp & Himp & Hret). unfold buildEligibilityOnlyState in He. split.
  - intros n. rewrite (proj1 (evaluate_due _ _ _ _ n He)), Hexp, Himp, Hret, (preview_window t _ Ha).
    unfold discovery_window. cbv zeta. fold (union_or_default t).
    destruct (shouldSkipRetiredCertificateAlert _); [split; [intros [? _]; done|intros [(? & ?) _]; done]|].
    destruct (findThresholdWindow _ _) as [[m neg]|]; cbn; [|split; [intros (_ & (? & ?) & _); done|intros [(? & ?) _]; done]].
    destruct (isStaleImportThreshold _ _ m) eqn:Es; split.
    + intros (_ & (? & [= -> _]) & E & _). by rewrite Es in E.
    + intros [(? & [=]) _].
    + intros (_ & (? & [= -> <-]) & _ & Hc). split; [by exists neg|done].
    + intros [(? & [= -> _]) Hc]. split; [done|]. split; [by eexists|done].
  - rewrite (proj2 (evaluate_due _ _ _ _ 0 He)). by apply preview_channels.
Qed.
Definition all_fire t (n : Z) : bool :=
  forallb (λ g, groupFiresForWindow g (workspaceThresholdsFromRow (t_asset t)) n) (resolved_groups t).
Lemma all_fire_channels t n : all_fire t n = true →
  discovery_channels t n = channelsFromGroups (resolved_groups t) (email_enabled (t_asset t)) (webhook_urls (t_asset t)).
Proof.
  intros Hf. unfold discovery_channels. f_equal. unfold unionGroupsForThresholdWindow. apply lfilter_all, Forall_forall.
  intros g Hg. unfold all_fire in Hf. rewrite forallb_forall in Hf. by apply Hf, list_elem_of_In.
Qed.

(** C13: what discovery queues is what the API announced.  With settings as
    the product writes them, an asset that discovery finds a threshold and
    channels for is announced as due at that threshold, with at least these
    channels; and one that is announced as due at a threshold all its groups
    have is found by discovery with exactly the announced channels. *)
Theorem queued_as_announced t (today : when) (el : eligibility) :
  valid_settings (t_asset t) = true → buildEligibilityOnlyState (t_asset t) (t_assigned_ids t) today = Ok el →
  (∀ threshold negative, discovery_window t today = Some (threshold, negative) → discovery_channels t threshold ≠ [] →
     el_status el = due ∧ effective_threshold el = Some threshold ∧
     discovery_channels t threshold ⊆ eligible_channels el) ∧
  (∀ threshold, el_status el = due → effective_threshold el = Some threshold → all_fire t threshold = true →
     (∃ negative, discovery_window t today = Some (threshold, negative)) ∧
     discovery_channels t threshold = eligible_channels el).
Proof.
  intros Ha He. destruct (due_discovered t today el Ha He) as [Hdue Hch]. split.
  - intros n neg Hw Hc. assert (Hsub : discovery_channels t n ⊆ eligible_channels el).
    { rewrite Hch. apply channels_mono, firing_subset. }
    destruct (proj2 (Hdue n)) as [Hs Ht]; [|done]. split; [by exists neg|]. intros E. rewrite E in Hsub.
    destruct (discovery_channels t n) as [|c cs]; [done|]. destruct (not_elem_of_nil c). apply Hsub. by left.
  - intros n Hs Ht Hf. split; [by apply Hdue|]. by rewrite Hch, all_fire_channels.
Qed.

(** * Discovery's statements *)

(** They are those of the queue's other writers. *)
Lemma discovery_writes live tokens :
  emits (λ w w', w' = w ∨ other_write True w w') (queueDiscoveryJob live tokens).
Proof.
  assert (Ha : emits (λ w w', w' = w ∨ other_write True w w') writeAudit) by (apply emits_query; by left).
  apply emits_bind; [apply emits_query; by left|]. clear tokens. intros tokens.
  induction tokens as [|t tokens IH]; [done|]. apply emits_bind; [|done]. unfold discover_token.
  destruct (shouldSkipRetiredCertificateAlert _); [done|]. apply emits_bind; [apply emits_query; by left|]. intros today.
  apply emits_bind; [by destruct (contactGroupAuditFields_ok t)|]. intros _.
  destruct (discovery_window _ _) as [[n neg]|]; [|done]. apply emits_bind; [apply emits_query; by left|]. intros day.
  apply emits_bind; [apply emits_query; by left|]. intros [r|].
  - unfold refresh_alert. destruct (negb _); [done|]. destruct (negb (rc_changed _)); [done|]. apply emits_bind.
    + apply emits_query. intros w. right. rewrite (surjective_pairing (update_channels _ _ _ w)). apply reconciles_channels.
    + intros m. destruct (m =? 0); [done|]. by apply emits_catch.
  - apply emits_bind; [apply emits_query; by left|]. intros []; [done|].
    destruct (discovery_channels t n); [by apply emits_catch|]. apply emits_bind; [by destruct (formatCalendarDay _)|].
    intros _. apply emits_bind; [|by intros []].
    apply emits_query. intros w. destruct (live t); [|by left]. right.
    rewrite (surjective_pairing (queue_alert _ _ _ _ _ _ w)). apply discovers.
Qed.

(** ** An undisturbed run *)

(** A new alert, as discovery left it. *)
Definition new_alert (w : world) (r : queue_row) : Prop :=
  q_status r = "pending"%string ∧ q_due_date r = now w / DAY_MS ∧ q_next_attempt_at r = None ∧ q_claim r = None.
(** Every alert is new or was there, with other channels perhaps. *)
Definition from_queue (w0 w : world) : Prop :=
  now w = now w0 ∧ ∀ r, r ∈ rows w →
    new_alert w0 r ∨ ∃ r0, r0 ∈ rows w0 ∧ r = with_channels (q_channels r) r0.
Definition has_alert (key : string) (w : world) : Prop := ∃ r, r ∈ rows w ∧ q_alert_key r = key.
Definition grows (w0 w w' : world) : Prop := from_queue w0 w' ∧ ∀ key, has_alert key w → has_alert key w'.

Lemma grows_refl w0 w : from_queue w0 w → grows w0 w w.
Proof. by split. Qed.
Lemma grows_trans w0 w w' w'' : grows w0 w w' → grows w0 w' w'' → grows w0 w w''.
Proof. intros [_ H1] [H2 H3]. split; [done|auto]. Qed.
Lemma claimable_new w r : new_alert w r → claimable (λ _, true) w r = true.
Proof.
  intros (Hs & Hd & Hn & Hc). unfold claimable, status_in, elapsed. rewrite Hs, Hd, Hn, Z.leb_refl.
  rewrite !bool_decide_true by (by left). by rewrite bool_decide_false.
Qed.
Lemma refresh_grows w0 w id seen channels : from_queue w0 w → grows w0 w (update_channels id seen channels w).1.
Proof.
  intros [Hn Hw]. unfold update_channels. split; [split; [done|]|].
  - intros r (x & -> & Hx)%list_elem_of_fmap. case_match; [|by apply Hw].
    destruct (Hw x Hx) as [Hx'|(r0 & Hr0 & E)]; [left; exact Hx'|]. right. exists r0. split; [done|].
    rewrite E at 1. by destruct r0.
  - intros key (r & Hr & Hk). eexists. split; [apply list_elem_of_fmap; eexists; split; [reflexivity|exact Hr]|].
    by case_match.
Qed.
Lemma insert_grows w0 w user token key n channels : from_queue w0 w →
  let w' := (queue_alert user token key n (now w / DAY_MS) channels w).1 in grows w0 w w' ∧ has_alert key w'.
Proof.
  intros [Hn Hw]. unfold queue_alert. destruct (existsb _ (rows w)) eqn:E; cbn.
  - split; [by apply grows_refl|]. apply existsb_exists in E as (r & Hr%list_elem_of_In & Hk%bool_decide_eq_true).
    by exists r.
  - split; [split; [split; [done|]|]|].
    + intros r [Hr| ->%list_elem_of_singleton]%elem_of_app; [by apply Hw|]. left. split; [done|]. split; [cbn; by rewrite Hn|done].
    + intros k (r & Hr & Hk). exists r. split; [|done]. apply elem_of_app. by left.
    + eexists. split; [apply elem_of_app; right; by apply list_elem_of_singleton|done].
Qed.
Lemma sent_before w0 w token n : from_queue w0 w → already_sent token n w0 = false → already_sent token n w = false.
Proof.
  intros [_ Hw] H. apply not_true_is_false. intros E. apply existsb_exists in E as (r & Hr%list_elem_of_In & E).
  destruct (Hw r Hr) as [(Hs & _)|(r0 & Hr0 & Er)].
  - rewrite Hs in E. rewrite (bool_decide_false ("pending"%string = "sent"%string)) in E by done.
    by rewrite andb_false_r in E.
  - assert (already_sent token n w0 = true); [|congruence]. apply existsb_exists. exists r0. split; [by apply list_elem_of_In|].
    rewrite Er in E. by destruct r0.
Qed.

(** Nothing in the asset makes discovery throw. *)
Definition evaluable t (today : when) : Prop :=
  valid_settings (t_asset t) = true ∧ ∃ el, buildEligibilityOnlyState (t_asset t) (t_assigned_ids t) today = Ok el.
Lemma names_ok id gs : forallb valid_group gs = true → name_lookup_ok id gs = true.
Proof.
  induction gs as [|g gs IH]; [done|]. cbn. intros [Hg Hgs]%andb_true_iff. rewrite IH by done.
  assert (nullish g = false) as -> by (by destruct g). cbn. by rewrite orb_true_r.
Qed.
Lemma audit_ok t : valid_settings (t_asset t) = true → contactGroupAuditFields_ok t = true.
Proof.
  intros (gs & Eg & Hgs & _)%preview_groups. unfold contactGroupAuditFields_ok. rewrite Eg. cbn [as_list].
  destruct (canonicalLegacyContactGroupId _); [by apply names_ok|]. destruct (resolved_groups t); [done|]. by apply names_ok.
Qed.
Lemma expiration_ok t today : evaluable t today → ∃ d, formatCalendarDay (expiration (t_asset t)) = Ok d.
Proof.
  intros (_ & el & H). revert H. unfold buildEligibilityOnlyState, evaluateAlertEligibility.
  assert (expiration (toUnionedEligibilityAsset (t_asset t) (t_assigned_ids t)) = expiration (t_asset t)) as ->
    by (unfold toUnionedEligibilityAsset; cbv zeta; by destruct (Api.api_resolveContactGroupsForAsset _ _ _)).
  destruct (formatCalendarDay _) as [d|]; [by exists d|done].
Qed.
(** The alert an asset is due for. *)
Definition owed_alert (live : bool) t w0 (key : string) : Prop :=
  ∃ n neg, discovery_window t (Millis (Fin (now w0))) = Some (n, neg) ∧ discovery_channels t n ≠ [] ∧ live = true ∧
    already_sent (t_token_id t) n w0 = false ∧ key = window_key (t_token_id t) n neg.
Lemma run_query {B} (q : world → world * result db_error B) w : run (query q) w = q w.
Proof. cbn. by destruct (q w). Qed.
Lemma run_refresh r channels w0 w : from_queue w0 w →
  (run (refresh_alert r channels) w).2 = Ok tt ∧ grows w0 w (run (refresh_alert r channels) w).1.
Proof.
  intros Hw. unfold refresh_alert. destruct (negb _); [split; [done|by apply grows_refl]|]. cbv zeta.
  destruct (negb (rc_changed _)); [split; [done|by apply grows_refl]|]. rewrite run_bind, run_query.
  match goal with |- context [update_channels ?a ?b ?c w] => pose proof (refresh_grows w0 w a b c Hw) as Hg end.
  destruct (update_channels _ _ _ w) as [w' n]. by destruct (n =? 0).
Qed.
Lemma run_insert t key n channels w0 w : from_queue w0 w → (∃ d, formatCalendarDay (expiration (t_asset t)) = Ok d) → ∀ live,
  let run := run (insert_alert live t key n (now w / DAY_MS) channels) w in
  run.2 = Ok tt ∧ grows w0 w run.1 ∧ (live = true → has_alert key run.1).
Proof.
  intros Hw (d & Hd) live. cbv zeta. unfold insert_alert. rewrite Hd, run_bind. cbn [run mret prog_ret].
  rewrite run_bind, run_query. destruct live; [|split; [done|]; split; [by apply grows_refl|done]].
  pose proof (insert_grows w0 w (owner_of t) (Some (t_token_id t)) key n (Arr (map Str channels)) Hw) as [Hg Hh].
  destruct (queue_alert _ _ _ _ _ _ w) as [w' id]. cbn in *. by destruct id.
Qed.
Lemma run_token live t w0 w : from_queue w0 w → evaluable t (Millis (Fin (now w0))) →
  let run := run (discover_token live t) w in
  run.2 = Ok tt ∧ grows w0 w run.1 ∧ ∀ key, owed_alert live t w0 key → has_alert key run.1.
Proof.
  intros Hw He. pose proof (audit_ok t (proj1 He)) as Ha. pose proof (expiration_ok t _ He) as Hd. cbv zeta.
  unfold discover_token, owed_alert. destruct (shouldSkipRetiredCertificateAlert _) eqn:Er.
  { split; [done|]. split; [by apply grows_refl|]. intros key (n & neg & H & _). revert H. unfold discovery_window.
    cbv zeta. by rewrite Er. }
  unfold clock_, read. rewrite run_bind, run_query, Ha. rewrite run_bind. cbn [run mret prog_ret]. destruct Hw as [Hn Hw]. rewrite Hn.
  destruct (discovery_window t _) as [[n neg]|].
  2:{ split; [done|]. split; [by apply grows_refl|]. by intros key (n & neg & [=] & _). }
  rewrite run_bind, run_query, run_bind, run_query. rewrite Hn.
  assert (Hkey : ∀ key, (∃ n' neg', Some (n, neg) = Some (n', neg') ∧ discovery_channels t n' ≠ [] ∧ live = true ∧
      already_sent (t_token_id t) n' w0 = false ∧ key = window_key (t_token_id t) n' neg') →
    discovery_channels t n ≠ [] ∧ live = true ∧ already_sent (t_token_id t) n w0 = false ∧ key = window_key (t_token_id t) n neg).
  { by intros key (n' & neg' & [= <- <-] & H). }
  destruct (alert_of_window _ w) as [r|] eqn:Ef.
  - destruct (run_refresh r (discovery_channels t n) w0 w (conj Hn Hw)) as [Hok Hg]. split; [done|]. split; [done|].
    intros key (_ & _ & _ & ->)%Hkey. apply Hg. apply find_some in Ef as [Hr%list_elem_of_In Hk%bool_decide_eq_true].
    by exists r.
  - rewrite run_bind, run_query. destruct (already_sent _ _ w) eqn:Es.
    { split; [done|]. split; [by apply grows_refl|]. intros key (_ & _ & H & _)%Hkey.
      by rewrite (sent_before w0 w _ _ (conj Hn Hw) H) in Es. }
    destruct (discovery_channels t n) as [|c cs] eqn:Ec.
    { split; [done|]. split; [by apply grows_refl|]. by intros key ([] & _)%Hkey. }
    rewrite <- Hn. destruct (run_insert t (window_key (t_token_id t) n neg) n (c :: cs) w0 w (conj Hn Hw) Hd live) as (H1 & H2 & H3).
    split; [done|]. split; [done|]. intros key (_ & Hl & _ & ->)%Hkey. by apply H3.
Qed.
Lemma run_all live w0 tokens : ∀ w, from_queue w0 w → Forall (λ t, evaluable t (Millis (Fin (now w0)))) tokens →
  let run := run (discover_all live tokens) w in
  run.2 = Ok tt ∧ grows w0 w run.1 ∧ ∀ t key, t ∈ tokens → owed_alert (live t) t w0 key → has_alert key run.1.
Proof.
  induction tokens as [|t tokens IH]; intros w Hw Hall; cbv zeta.
  { split; [done|]. split; [by apply grows_refl|]. by intros t key ?%elem_of_nil. }
  apply Forall_cons in Hall as [Ht Hall]. cbn [discover_all]. rewrite run_bind.
  destruct (run_token (live t) t w0 w Hw Ht) as (Hok & Hg & Ho). destruct (run (discover_token _ t) w) as [w1 r]. cbn in *. subst r.
  destruct (IH w1 (proj1 Hg) Hall) as (Hok' & Hg' & Ho'). split; [done|]. split; [by eapply grows_trans|].
  intros t' key [->|Hin]%elem_of_cons Hk; [|by apply (Ho' t' key)]. apply Hg'. by apply Ho.
Qed.
(** The sign of the threshold tells the kind of window. *)
Lemma window_negative d ts n neg : findThresholdWindow d ts = Some (n, neg) → neg = (n <? 0).
Proof.
  destruct d as [[z| |[]]|]; [| |..|done].
  - intros (-> & (_ & Hd & Hn) & _)%window_iff. destruct (Z.ltb_spec z 0), (Z.ltb_spec n 0); (done || lia).
  - by destruct ts.
  - unfold findThresholdWindow. destruct ts as [|t0 ts0]; [done|]. set (ts := t0 :: ts0). cbv zeta.
    destruct (List.filter _ _) as [|m l] eqn:E; [done|]. intros [= <- <-].
    assert (Hin : In m (List.filter (λ x : Z, x <? 0) (merge_sort Z.le (dedup ts)))) by (rewrite E; by left).
    apply filter_In in Hin as [_ ->]. done.
  - by destruct ts.
Qed.

(** C12: what the API announces is queued.  An undisturbed discovery run over
    assets that all have valid settings (one asset of any workspace with a null
    contact group ends the run before the assets after it) ends without an
    error, and afterwards every live asset that the API announces
    as due at a threshold of all its groups, and whose alert for that
    threshold was not sent yet, has an alert for the window: a new one that
    the next worker may claim, or the one the queue had, whose channels alone
    may have changed. *)
Theorem announced_is_queued (live : token_row → bool) (tokens : list token_row) t (w : world) (el : eligibility) (threshold : Z) :
  Forall (λ t, evaluable t (Millis (Fin (now w)))) tokens → t ∈ tokens → live t = true →
  buildEligibilityOnlyState (t_asset t) (t_assigned_ids t) (Millis (Fin (now w))) = Ok el →
  el_status el = due → effective_threshold el = Some threshold → all_fire t threshold = true →
  already_sent (t_token_id t) threshold w = false →
  let '(w', answer) := run (queueDiscoveryJob live tokens) w in
  answer = Ok tt ∧ ∃ r, r ∈ rows w' ∧ q_alert_key r = window_key (t_token_id t) threshold (threshold <? 0) ∧
    (claimable (λ _, true) w' r = true ∨ ∃ r0, r0 ∈ rows w ∧ r = with_channels (q_channels r) r0).
Proof.
  intros Hall Hin Hl He Hs Ht Hf Hsent. assert (Hw : from_queue w w).
  { split; [done|]. intros r Hr. right. exists r. split; [done|]. by destruct r. }
  unfold queueDiscoveryJob. rewrite run_bind, run_query. destruct (run_all live w tokens w Hw Hall) as (Hok & [[Hn Hg] _] & Ho).
  destruct (run (discover_all live tokens) w) as [w' answer]. cbn in *. split; [done|].
  assert (Ha : valid_settings (t_asset t) = true) by (rewrite Forall_forall in Hall; by destruct (Hall t Hin)).
  destruct (due_discovered t _ el Ha He) as [Hdue Hch]. destruct (proj1 (Hdue threshold) (conj Hs Ht)) as [[neg Hneg] Hc].
  destruct (Ho t (window_key (t_token_id t) threshold neg) Hin) as (r & Hr & Hk).
  { exists threshold, neg. split; [done|]. split; [by rewrite all_fire_channels, <- Hch|done]. }
  exists r. split; [done|]. split.
  - rewrite Hk. enough (neg = (threshold <? 0)) as -> by done. revert Hneg. unfold discovery_window. cbv zeta. destruct (shouldSkipRetiredCertificateAlert _); [done|].
    destruct (findThresholdWindow _ _) as [[m b]|] eqn:Ew; [|done]. cbn. destruct (isStaleImportThreshold _ _ m); [done|].
    intros [= -> ->]. by eapply window_negative.
  - destruct (Hg r Hr) as [Hnew|Hold]; [left|by right]. apply claimable_new. destruct Hnew as (? & ? & ? & ?).
    split; [done|]. split; [by rewrite Hn|done].
Qed.
End preview.

(** * An example *)

Definition ex_discovery : DiscoveryEnv := {| DEFAULT_THRESHOLDS := DEFAULT_ALERT_THRESHOLDS |}.
Definition ex_group (id : string) : jsval := Obj [("id", Str id); ("email_contact_ids", Arr [Str "1"])].
Definition ex_token : token_row :=
  mkToken 7 1 None (Some 2) (Arr [Str "ops"; Str "dba"])
    (mkAsset (Text "2026-09-20") Absent (Arr [ex_group "ops"; ex_group "dba"]) Null (Str "ops") Null Null Null Null).
Definition ex_morning : world := mkWorld 1789257600000 [] 1 [] [] [] [] false.
Definition ex_announced : eligibility :=
  match @buildEligibilityOnlyState iso_date_parse utc ex_discovery (t_asset ex_token) (t_assigned_ids ex_token) (Millis (Fin 1789257600000)) with
  | Ok el => el
  | Err _ => mkEligibility suppressed no_eligible_channels None None [] None None None None [] Null Null None false false
  end.

Lemma queued_as_announced_witness :
  (∃ negative, @discovery_window iso_date_parse utc ex_discovery ex_token (Millis (Fin 1789257600000)) = Some (7, negative)) ∧
  @discovery_channels ex_discovery ex_token 7 = eligible_channels ex_announced.
Proof.
  refine (proj2 (@queued_as_announced iso_date_parse utc ex_discovery ex_token (Millis (Fin 1789257600000)) ex_announced _ _) 7 _ _ _);
    vm_compute; reflexivity.
Defined.
Lemma announced_is_queued_witness :
  let '(w', answer) := run (@queueDiscoveryJob iso_date_parse utc ex_discovery (λ _, true) [ex_token]) ex_morning in
  answer = Ok tt ∧ ∃ r, r ∈ rows w' ∧ q_alert_key r = window_key 7 7 false ∧
    (claimable (λ _, true) w' r = true ∨ ∃ r0, r0 ∈ rows ex_morning ∧ r = with_channels (q_channels r) r0).
Proof.
  refine (@announced_is_queued iso_date_parse utc ex_discovery (λ _, true) [ex_token] ex_token ex_morning ex_announced 7 _ _ _ _ _ _ _ _).
  1: { constructor; [|constructor]. split; [vm_compute; reflexivity|]. exists ex_announced. vm_compute. reflexivity. }
  1: by left.
  all: vm_compute; reflexivity.
Defined.

(** An asset whose groups have thresholds of their own is announced as due
    with the channels of all its groups, while the one group that has the
    threshold reached has no channel: no alert is queued. *)
Definition ex_split : token_row :=
  mkToken 8 1 None None (Arr [Str "ops"; Str "dba"])
    (mkAsset (Text "2026-09-20") Absent
       (Arr [Obj [("id", Str "dba"); ("thresholds", Arr [Num (Fin 7)])];
             Obj [("id", Str "ops"); ("thresholds", Arr [Num (Fin 30)]); ("email_contact_ids", Arr [Str "1"])]])
       Null Null Null Null Null Null).
Lemma announced_but_not_queued :
  @valid_settings ex_discovery (t_asset ex_split) = true ∧
  (∃ el, @buildEligibilityOnlyState iso_date_parse utc ex_discovery (t_asset ex_split) (t_assigned_ids ex_split)
           (Millis (Fin 1789257600000)) = Ok el ∧ el_status el = due ∧ eligible_channels el = ["email"%string]) ∧
  rows (run (@queueDiscoveryJob iso_date_parse utc ex_discovery (λ _, true) [ex_split]) ex_morning).1 = [].
Proof. split; [vm_compute; reflexivity|]. split; [eexists; split; [vm_compute; reflexivity|done]|vm_compute; reflexivity]. Qed.
