(* ===== verification/Policy.v ===== *)
(** The agent-local policy engine: packages/agent/src/policy/index.js.

    Node's [node:path] is modelled in its POSIX form, with the working
    directory [cwd] a parameter; [new URL(u).toString()] is the parameter
    [URL_toString] ([None] when the constructor throws).  A job descriptor
    comes from JSON, so its fields are arbitrary values: a method call on a
    value that is not a string throws ([PTypeError]). *)
From S2P Require Import Prelude Json Net.
Open Scope Z_scope.

Definition TARGET_OUT_OF_SCOPE : string := "target_out_of_scope".
Definition COMMAND_NOT_ALLOWLISTED : string := "command_not_allowlisted".
Definition PATH_NOT_ALLOWLISTED : string := "path_not_allowlisted".
Definition CA_ENDPOINT_NOT_ALLOWLISTED : string := "ca_endpoint_not_allowlisted".
Definition DNS_ZONE_NOT_ALLOWLISTED : string := "dns_zone_not_allowlisted".
Definition DNS_PROVIDER_NOT_ALLOWLISTED : string := "dns_provider_not_allowlisted".
Definition KEY_EXPORT_REQUESTED : string := "key_export_requested".

Inductive policy_error :=
| PNotObject | PCommandsNotObject | PProfileNotObject | PArgvNotArray | PArgvEmpty
| PArgvElement | PArgvMetacharacter | PListNotArray | PListElement | PTypeError.
#[global] Instance policy_error_eq_dec : EqDecision policy_error.
Proof. solve_decision. Defined.

(** * [node:path], POSIX *)

(** Resolves [.], [..] and empty segments; [stack] is the reversed prefix. *)
Fixpoint normalize_segs (stack : list string) (segs : list string) : list string :=
  match segs with
  | [] => rev stack
  | s :: segs =>
      if bool_decide (s = EmptyString) || bool_decide (s = ".") then normalize_segs stack segs
      else if bool_decide (s = "..") then normalize_segs (tail stack) segs
      else normalize_segs (s :: stack) segs
  end.
(** The segments of [path.resolve(p)]. *)
Definition resolve_segs (cwd p : string) : list string :=
  if startsWith "/" p then normalize_segs [] (split_on "/" p)
  else normalize_segs [] (split_on "/" cwd ++ split_on "/" p).
Definition abs_path (segs : list string) : string := "/" +:+ join "/" segs.
(** [path.normalize(path.resolve(p))]. *)
Definition normalizeAllowedPath (cwd rawPath : string) : string :=
  abs_path (resolve_segs cwd rawPath).

Fixpoint common_prefix (a b : list string) : nat :=
  match a, b with
  | x :: a, y :: b => if bool_decide (x = y) then S (common_prefix a b) else 0
  | _, _ => 0
  end.
(** [path.relative(from, to)]. *)
Definition path_relative (cwd from to : string) : string :=
  let f := resolve_segs cwd from in
  let t := resolve_segs cwd to in
  let n := common_prefix f t in
  join "/" (replicate (length f - n) ".." ++ drop n t).

(** * Configuration *)

Definition SHELL_METACHARACTER_PATTERN (s : string) : bool :=
  sexists (λ c, existsb (λ n, code c =? n) [59; 124; 38; 36; 96; 62; 60; 13; 10]) s.
Definition isNonEmptyString (v : jsval) : bool :=
  match v with Str s => negb (bool_decide (s = EmptyString)) | _ => false end.

Definition check_argv (v : jsval) : result policy_error string :=
  match v with
  | Str s =>
      _ ← ensure (negb (bool_decide (s = EmptyString))) PArgvElement;
      _ ← ensure (negb (SHELL_METACHARACTER_PATTERN s)) PArgvMetacharacter;
      Ok s
  | _ => Err PArgvElement
  end.
Definition validateCommandProfile (rawProfile : jsval) : result policy_error (list string) :=
  match rawProfile with
  | Obj _ =>
      match get "argv" rawProfile with
      | Arr [] => Err PArgvEmpty
      | Arr l => mapM check_argv l
      | _ => Err PArgvNotArray
      end
  | _ => Err PProfileNotObject
  end.

Definition check_list_element (v : jsval) : result policy_error string :=
  match v with
  | Str s => if bool_decide (s = EmptyString) then Err PListElement else Ok s
  | _ => Err PListElement
  end.
Definition validateStringList (rawList : jsval) : result policy_error (list string) :=
  match rawList with
  | Undef => Ok []
  | Arr l => mapM check_list_element l
  | _ => Err PListNotArray
  end.

Record policyConfig := mkPolicyConfig {
  allowedCommands : list (string * list string);
  allowedPaths : list string;
  allowedCaEndpoints : list string;
  allowedDnsZones : list string;
  allowedDnsProviders : list string;
  allowedVerifyHosts : list string;
}.

Definition loadPolicyConfig (cwd : string) (raw : jsval) : result policy_error policyConfig :=
  _ ← ensure (isPlainObject raw) PNotObject;
  cmds ← match get "allowedCommands" raw with
         | Undef => Ok []
         | Obj fs => mapM (λ kv, argv ← validateCommandProfile kv.2; Ok (kv.1, argv)) fs
         | _ => Err PCommandsNotObject
         end;
  paths ← validateStringList (get "allowedPaths" raw);
  cas ← validateStringList (get "allowedCaEndpoints" raw);
  zones ← validateStringList (get "allowedDnsZones" raw);
  providers ← validateStringList (get "allowedDnsProviders" raw);
  hosts ← validateStringList (get "allowedVerifyHosts" raw);
  Ok (mkPolicyConfig cmds (map (normalizeAllowedPath cwd) paths) cas zones providers hosts).

Definition stripTrailingSlash (value : string) : string :=
  if endsWith "/" value then stake (String.length value - 1) value else value.

Definition isPathContainedIn (cwd candidate allowedRoot : string) : bool :=
  if bool_decide (candidate = allowedRoot) then true else
  let relative := path_relative cwd allowedRoot candidate in
  negb (bool_decide (relative = EmptyString)) && negb (bool_decide (relative = "..")) &&
  negb (startsWith "../" relative) && negb (startsWith "/" relative).

Definition isZoneCoveredBy (zone allowedZone : string) : bool :=
  let normalizedZone := toLowerCase zone in
  let normalizedAllowed := toLowerCase allowedZone in
  bool_decide (normalizedZone = normalizedAllowed)
  || endsWith ("." +:+ normalizedAllowed) normalizedZone.

Inductive host_class := denied | loopback | ordinary.
#[global] Instance host_class_eq_dec : EqDecision host_class.
Proof. solve_decision. Defined.

Definition slice_1_m1 (s : string) : string := stake (String.length s - 2) (sdrop 1 s).
(** An address accepted by [net.isIPv4]: its octets decide. *)
Definition classify_octets (lowered : string) : host_class :=
  match map decimal (split_on "." lowered) with
  | o0 :: o1 :: _ =>
      if o0 =? 127 then loopback else
      if o0 =? 0 then denied else
      if (o0 =? 169) && (o1 =? 254) then denied else
      if 224 <=? o0 then denied else ordinary
  | _ => ordinary
  end.
(** The capture of [/^::ffff:(\d+\.\d+\.\d+\.\d+)$/]. *)
Definition mappedMatch (lowered : string) : option string :=
  if startsWith "::ffff:" lowered then
    let rest := sdrop 7 lowered in
    match split_on "." rest with
    | [a; b; c; d] => if forallb (nonempty_all is_digit) [a; b; c; d] then Some rest else None
    | _ => None
    end
  else None.
(** [/^fe[89ab]/]. *)
Definition is_link_local (s : string) : bool :=
  existsb (λ p, startsWith p s) ["fe8"; "fe9"; "fea"; "feb"].
(** The recursive call on the embedded address of a mapped literal sees an
    IPv4 address or a name, and recurses no further: one level of fuel. *)
Definition classify_once (recurse : string → host_class) (host : string) : host_class :=
  let bare := if startsWith "[" host && endsWith "]" host then slice_1_m1 host else host in
  let lowered := toLowerCase bare in
  let ipVersion := isIP lowered in
  if ipVersion =? 4 then classify_octets lowered else
  if ipVersion =? 6 then
    match mappedMatch lowered with
    | Some v4 => recurse v4
    | None =>
        if bool_decide (lowered = "::") || bool_decide (lowered = "0:0:0:0:0:0:0:0") then denied else
        if bool_decide (lowered = "::1") || bool_decide (lowered = "0:0:0:0:0:0:0:1") then loopback else
        if is_link_local lowered then denied else
        if startsWith "ff" lowered then denied else ordinary
    end
  else if bool_decide (lowered = "localhost") || endsWith ".localhost" lowered then loopback
  else ordinary.
Definition classifyVerifyHost (host : string) : host_class :=
  classify_once (classify_once (λ _, ordinary)) host.

(** * The engine *)

(** A job descriptor; [Undef] is an absent field. *)
Record descriptor := mkDescriptor {
  requestsKeyExport : jsval;
  targetSelector : jsval;
  commandRef : jsval;
  path_ : jsval;
  caEndpoint : jsval;
  dnsZone : jsval;
  dnsProvider : jsval;
}.

Section engine.
Context (cwd : string) (URL_toString : jsval → option string).
Context (cfg : policyConfig) (declaredTargetSelectors : list string).

(** Membership of a JSON value in a set of strings. *)
Definition in_strings (v : jsval) (l : list string) : bool :=
  match v with Str s => bool_decide (s ∈ l) | _ => false end.
Definition allow_if (b : bool) (reason : string) : verdict :=
  if b then Allowed else Rejected reason.

(** Returns the profile's argv. *)
Definition checkCommandRef (ref : jsval) : verdict * option (list string) :=
  match ref with
  | Str s =>
      match assoc_get s (allowedCommands cfg) with
      | Some argv => (Allowed, Some argv)
      | None => (Rejected COMMAND_NOT_ALLOWLISTED, None)
      end
  | _ => (Rejected COMMAND_NOT_ALLOWLISTED, None)
  end.

Definition checkPath (candidatePath : jsval) : result policy_error verdict :=
  match candidatePath with
  | Str p =>
      let normalizedCandidate := normalizeAllowedPath cwd p in
      Ok (allow_if (existsb (isPathContainedIn cwd normalizedCandidate) (allowedPaths cfg))
            PATH_NOT_ALLOWLISTED)
  | _ => Err PTypeError
  end.

Definition checkCaEndpoint (url : jsval) : verdict :=
  match URL_toString url with
  | None => Rejected CA_ENDPOINT_NOT_ALLOWLISTED
  | Some u =>
      let normalizedCandidate := stripTrailingSlash u in
      allow_if (existsb (λ allowedEndpoint,
                  match URL_toString (Str allowedEndpoint) with
                  | None => false
                  | Some a => bool_decide (stripTrailingSlash a = normalizedCandidate)
                  end) (allowedCaEndpoints cfg))
        CA_ENDPOINT_NOT_ALLOWLISTED
  end.

(** With an empty allowlist no method of [zone] is called. *)
Definition checkDnsZone (zone : jsval) : result policy_error verdict :=
  match zone, allowedDnsZones cfg with
  | Str z, zones => Ok (allow_if (existsb (isZoneCoveredBy z) zones) DNS_ZONE_NOT_ALLOWLISTED)
  | _, [] => Ok (Rejected DNS_ZONE_NOT_ALLOWLISTED)
  | _, _ => Err PTypeError
  end.

Definition checkDnsProvider (providerName : jsval) : verdict :=
  allow_if (in_strings providerName (allowedDnsProviders cfg)) DNS_PROVIDER_NOT_ALLOWLISTED.

Definition verify_host_listed (loweredHost allowedHost : string) : bool :=
  let loweredAllowed := toLowerCase allowedHost in
  bool_decide (loweredAllowed = loweredHost)
  || ((isIP loweredAllowed =? 0) && (isIP loweredHost =? 0)
      && isZoneCoveredBy loweredHost loweredAllowed).
Definition checkVerifyHost (host targetReference : jsval) : verdict :=
  match host with
  | Str h =>
      if bool_decide (h = EmptyString) || (255 <? slen h) then Rejected TARGET_OUT_OF_SCOPE else
      let classification := classifyVerifyHost h in
      if bool_decide (classification = denied) then Rejected TARGET_OUT_OF_SCOPE else
      let loweredHost := toLowerCase h in
      let allowlisted := existsb (verify_host_listed loweredHost) (allowedVerifyHosts cfg) in
      if bool_decide (classification = loopback) then allow_if allowlisted TARGET_OUT_OF_SCOPE else
      if (match targetReference with
          | Str t => negb (bool_decide (t = EmptyString)) && bool_decide (toLowerCase t = loweredHost)
          | _ => false
          end) then Allowed
      else allow_if allowlisted TARGET_OUT_OF_SCOPE
  | _ => Rejected TARGET_OUT_OF_SCOPE
  end.

Definition checkTargetScope (targetSelector : jsval) : verdict :=
  allow_if (in_strings targetSelector declaredTargetSelectors) TARGET_OUT_OF_SCOPE.

Definition checkNoKeyExport (requestsKeyExport : jsval) : verdict :=
  match requestsKeyExport with Bool true => Rejected KEY_EXPORT_REQUESTED | _ => Allowed end.

(** Runs [check] when the field is present; stops at a rejection. *)
Definition when_present (v : jsval) (check : jsval → result policy_error verdict)
    (next : result policy_error verdict) : result policy_error verdict :=
  match v with
  | Undef => next
  | _ => r ← check v; match r with Allowed => next | Rejected _ => Ok r end
  end.
Definition evaluateJob (d : descriptor) : result policy_error verdict :=
  match checkNoKeyExport (requestsKeyExport d) with
  | Rejected r => Ok (Rejected r)
  | Allowed =>
      when_present (targetSelector d) (λ v, Ok (checkTargetScope v)) (
      when_present (commandRef d) (λ v, Ok (checkCommandRef v).1) (
      when_present (path_ d) checkPath (
      when_present (caEndpoint d) (λ v, Ok (checkCaEndpoint v)) (
      when_present (dnsZone d) checkDnsZone (
      when_present (dnsProvider d) (λ v, Ok (checkDnsProvider v))
      (Ok Allowed))))))
  end.
End engine.

Example classify_examples :
  map classifyVerifyHost ["169.254.169.254"; "[::ffff:169.254.169.254]"; "127.0.0.1"; "LOCALHOST";
    "a.localhost"; "fe80::1"; "ff02::1"; "10.0.0.1"; "example.com"; "::"; "0.1.2.3"; "239.1.1.1"]
  = [denied; denied; loopback; loopback; loopback; denied; denied; ordinary; ordinary; denied;
     denied; denied].
Proof. reflexivity. Qed.

(** * Path lemmas *)

Definition no_slash (s : string) : bool := sforall (λ c, negb (bool_decide (c = "/"%char))) s.
(** A segment of a normalized absolute path. *)
Definition normal_seg (s : string) : Prop :=
  s ≠ EmptyString ∧ s ≠ "." ∧ s ≠ ".." ∧ no_slash s = true.

Lemma split_on_pieces d s :
  Forall (λ w, sforall (λ c, negb (bool_decide (c = d))) w = true) (split_on d s).
Proof.
  induction s as [|c s IH]; cbn; [by constructor|]. case_bool_decide as E; [by constructor|].
  destruct (split_on d s) as [|w ws]; [by repeat constructor; cbn; rewrite bool_decide_eq_false_2|].
  apply Forall_cons in IH as [Hw Hws]. constructor; [|done]. cbn.
  by rewrite bool_decide_eq_false_2.
Qed.

Lemma normalize_segs_normal stack segs :
  Forall normal_seg stack → Forall (λ s, no_slash s = true) segs →
  Forall normal_seg (normalize_segs stack segs).
Proof.
  revert stack. induction segs as [|s segs IH]; intros stack Hst; cbn.
  { intros _. by apply Forall_rev. }
  intros [Hs Hsegs]%Forall_cons.
  destruct (bool_decide (s = EmptyString)) eqn:E1; [by apply IH|].
  destruct (bool_decide (s = ".")) eqn:E2; [by apply IH|]. cbn [orb].
  destruct (bool_decide (s = "..")) eqn:E3.
  - apply IH; [|done]. destruct stack; [done|]. by apply Forall_cons in Hst as [_ ?].
  - split_bool. apply IH; [|done]. by constructor.
Qed.
Lemma resolve_segs_normal cwd p : Forall normal_seg (resolve_segs cwd p).
Proof.
  unfold resolve_segs. case_match; apply normalize_segs_normal; try constructor.
  - apply split_on_pieces.
  - apply Forall_app. split; apply split_on_pieces.
Qed.
Lemma normalize_segs_id stack segs :
  Forall normal_seg segs → normalize_segs stack segs = rev stack ++ segs.
Proof.
  intros H. revert stack. induction H as [|s segs (H1 & H2 & H3 & _) _ IH]; intros stack; cbn.
  { by rewrite app_nil_r. }
  rewrite !bool_decide_eq_false_2 by done. cbn. rewrite IH. cbn. by rewrite <- app_assoc.
Qed.

Lemma split_join segs :
  segs ≠ [] → Forall (λ s, no_slash s = true) segs → split_on "/" (join "/" segs) = segs.
Proof.
  intros Hne H. induction H as [|s segs Hs H IH]; [done|]. destruct segs as [|s' segs].
  { cbn. by apply split_on_none. }
  change (join "/" (s :: s' :: segs)) with (s +:+ String "/" (join "/" (s' :: segs))).
  rewrite split_on_app by done. f_equal. by apply IH.
Qed.
Lemma resolve_segs_abs cwd segs : Forall normal_seg segs → resolve_segs cwd (abs_path segs) = segs.
Proof.
  intros H. unfold resolve_segs, abs_path. cbn [String.append startsWith].
  rewrite bool_decide_eq_true_2 by done. cbn [andb split_on].
  rewrite bool_decide_eq_true_2 by done. cbn [normalize_segs].
  rewrite bool_decide_eq_true_2 by done. cbn [orb].
  destruct segs as [|s segs]; [reflexivity|].
  rewrite split_join; [|done|].
  - by rewrite normalize_segs_id.
  - eapply Forall_impl; [exact H|]. by intros ? (_ & _ & _ & ?).
Qed.

Lemma common_prefix_spec a b :
  take (common_prefix a b) a = take (common_prefix a b) b ∧
  (common_prefix a b <= length a)%nat ∧
  (common_prefix a b = length a ↔ a `prefix_of` b).
Proof.
  revert b. induction a as [|x a IH]; intros [|y b]; cbn.
  - split; [done|]. split; [lia|done].
  - split; [done|]. split; [lia|]. split; [intros _; apply prefix_nil|done].
  - split; [done|]. split; [lia|]. split; [done|]. intros H. by apply prefix_nil_inv in H.
  - destruct (IH b) as (H1 & H2 & H3). case_bool_decide as E; cbn.
    + subst. rewrite H1. split; [done|]. split; [lia|]. split.
      * intros [= H]. apply prefix_cons. tauto.
      * intros H. apply prefix_cons_inv_2 in H. f_equal. tauto.
    + split; [done|]. split; [lia|]. split; [done|]. intros H. by apply prefix_cons_inv_1 in H.
Qed.

(** The text of a relative path shows whether it climbs. *)
Lemma join_climbs ws : ws ≠ [] → Forall (λ s, no_slash s = true ∧ s ≠ EmptyString) ws →
  let r := join "/" ws in
  negb (bool_decide (r = EmptyString)) && negb (bool_decide (r = ".."))
    && negb (startsWith "../" r) && negb (startsWith "/" r)
  = negb (bool_decide (head ws = Some "..")).
Proof.
  intros Hne H. destruct ws as [|w ws]; [done|]. cbv zeta. clear Hne.
  apply Forall_cons in H as [[Hns Hw] H]. cbn [head].
  assert (∀ t, startsWith "/" (w +:+ t) = false) as Habs.
  { intros t. destruct w as [|c w]; [done|]. cbn. cbn in Hns.
    apply andb_prop in Hns as [Hc _]. split_bool. by rewrite bool_decide_eq_false_2 by congruence. }
  assert (∀ t, w +:+ t ≠ EmptyString) as Hne by (by destruct w).
  destruct (decide (w = "..")) as [->|Hw2].
  - rewrite (bool_decide_eq_true_2 (Some ".." = Some "..")) by done.
    destruct ws as [|w' ws]; [done|].
    change (join "/" (".." :: w' :: ws)) with ("../" +:+ join "/" (w' :: ws)).
    rewrite startsWith_app. cbn [negb]. by rewrite andb_false_r.
  - rewrite (bool_decide_eq_false_2 (Some w = Some "..")) by congruence. cbn [negb].
    assert (∀ t, startsWith "/" t = true ∨ t = EmptyString → startsWith "../" (w +:+ t) = false) as Hup.
    { intros t Ht. apply not_true_is_false. intros Hst.
      apply startsWith_spec in Hst as [u Hu].
      destruct w as [|c1 [|c2 [|c3 w]]]; cbn in Hu.
      - done.
      - injection Hu as -> Hu. destruct Ht as [Ht| ->]; [|done].
        apply startsWith_spec in Ht as [v ->]. done.
      - by injection Hu as -> -> Hu.
      - injection Hu as -> -> -> _. cbn in Hns. done. }
    destruct ws as [|w' ws].
    + cbn [join]. specialize (Hup EmptyString (or_intror eq_refl)).
      specialize (Habs EmptyString). rewrite sapp_nil_r in *. rewrite Hup, Habs.
      by rewrite !bool_decide_eq_false_2 by done.
    + change (join "/" (w :: w' :: ws)) with (w +:+ ("/" +:+ join "/" (w' :: ws))).
      rewrite Hup by (left; apply startsWith_app). rewrite Habs.
      rewrite !bool_decide_eq_false_2; [done| |apply Hne].
      intros E. apply (f_equal (split_on "/")) in E.
      cbn [String.append] in E. rewrite split_on_app in E by done.
      change (split_on "/" "..") with [".."] in E. by injection E as -> _.
Qed.

Lemma isPathContainedIn_segs cwd c r :
  Forall normal_seg c → Forall normal_seg r →
  isPathContainedIn cwd (abs_path c) (abs_path r) = true ↔ r `prefix_of` c.
Proof.
  intros Hc Hr. unfold isPathContainedIn. case_bool_decide as E.
  { apply (f_equal (resolve_segs cwd)) in E. rewrite !resolve_segs_abs in E by done.
    split; [by intros _; subst|done]. }
  unfold path_relative. rewrite !resolve_segs_abs by done. cbv zeta.
  destruct (common_prefix_spec r c) as (Hcp & Hle & Hpre).
  set (n := common_prefix r c) in *.
  set (ws := replicate (length r - n) ".." ++ drop n c).
  assert (ws ≠ []) as Hne.
  { intros Hws. apply app_eq_nil in Hws as [H1 H2].
    assert (length r = n) as Hn by (apply (f_equal length) in H1; rewrite length_replicate in H1; cbn in H1; lia).
    apply E. f_equal. transitivity (take n c).
    - rewrite <- (take_drop n c) at 1. by rewrite H2, app_nil_r.
    - rewrite <- Hcp, <- Hn. apply firstn_all. }
  assert (Forall (λ s, no_slash s = true ∧ s ≠ EmptyString) ws) as Hok.
  { apply Forall_app. split; [by apply Forall_replicate|]. apply Forall_drop.
    eapply Forall_impl; [exact Hc|]. by intros s (? & _ & _ & ?). }
  pose proof (join_climbs ws Hne Hok) as Hj. cbv zeta in Hj. rewrite Hj.
  rewrite negb_true_iff, bool_decide_eq_false, <- Hpre.
  subst ws. destruct (length r - n)%nat as [|k] eqn:Ek; cbn.
  - split; [lia|]. intros _ Hhd. assert (normal_seg "..") as (_ & _ & ? & _); [|done].
    apply (Forall_drop _ n) in Hc. destruct (drop n c); [done|]. injection Hhd as ->.
    by apply Forall_cons in Hc as [? _].
  - split; [done|lia].
Qed.

(** Path containment cannot be escaped.  A candidate passes exactly when
    the segments of its resolved form ([.], [..] and duplicate slashes
    resolved against the working directory) extend those of an allowlisted
    path: no sibling with a common text prefix and no climb passes. *)
Theorem checkPath_spec (cwd : string) (cfg : policyConfig) (roots : list string) (p : string) :
  allowedPaths cfg = map (normalizeAllowedPath cwd) roots →
  checkPath cwd cfg (Str p) = Ok Allowed ↔
  ∃ root, root ∈ roots ∧ resolve_segs cwd root `prefix_of` resolve_segs cwd p.
Proof.
  intros Hroots. unfold checkPath, allow_if. rewrite Hroots.
  destruct (existsb _ _) eqn:E.
  - split; [intros _|done]. apply existsb_exists in E as (x & Hx & Hc).
    apply in_map_iff in Hx as (root & <- & Hin). exists root. split; [by apply list_elem_of_In|].
    eapply isPathContainedIn_segs, Hc; apply resolve_segs_normal.
  - split; [done|]. intros (root & Hin & Hpre). exfalso.
    apply not_true_iff_false in E. apply E, existsb_exists.
    exists (normalizeAllowedPath cwd root). split.
    + apply in_map_iff. exists root. split; [done|]. by apply list_elem_of_In.
    + apply isPathContainedIn_segs; [apply resolve_segs_normal..|done].
Qed.

Definition demo_policy : policyConfig :=
  mkPolicyConfig [("reload-nginx", ["systemctl"; "reload"; "nginx"])]
    [normalizeAllowedPath "/" "/etc/nginx/tls"] ["https://ca.example/directory"]
    ["example.com"] ["cloudflare"] ["localhost"].
Lemma checkPath_spec_witness :
  checkPath "/" demo_policy (Str "/etc/nginx/./tls//certs/../site.pem") = Ok Allowed ∧
  checkPath "/" demo_policy (Str "/etc/nginx/tls-evil/x") = Ok (Rejected PATH_NOT_ALLOWLISTED) ∧
  checkPath "/" demo_policy (Str "/etc/nginx/tls/../../shadow") = Ok (Rejected PATH_NOT_ALLOWLISTED).
Proof.
  split; [|split; reflexivity].
  refine (proj2 (checkPath_spec "/" demo_policy ["/etc/nginx/tls"] _ _) _); [reflexivity|].
  exists "/etc/nginx/tls". split; [apply (bool_decide_unpack _); vm_compute; exact I|].
  exists ["site.pem"]. reflexivity.
Defined.

(** * Zones *)

Definition labels (s : string) : list string := split_on "." (toLowerCase s).

Lemma join_app d ws vs :
  ws ≠ [] → vs ≠ [] → join d (ws ++ vs) = join d ws +:+ d +:+ join d vs.
Proof.
  intros Hw Hv. induction ws as [|w [|w' ws] IH]; [done| |].
  - cbn. by destruct vs.
  - change (join d ((w :: w' :: ws) ++ vs)) with (w +:+ d +:+ join d ((w' :: ws) ++ vs)).
    rewrite IH by done. change (join d (w :: w' :: ws)) with (w +:+ d +:+ join d (w' :: ws)).
    rewrite !sapp_assoc. done.
Qed.

(** DNS zone coverage is by labels: a zone is covered exactly when the
    labels of the allowed zone are its last labels, ignoring case, so that
    [evilexample.com] is not covered by [example.com]. *)
Theorem isZoneCoveredBy_labels (zone allowedZone : string) :
  isZoneCoveredBy zone allowedZone = true ↔ labels allowedZone `suffix_of` labels zone.
Proof.
  unfold isZoneCoveredBy, labels. set (z := toLowerCase zone). set (a := toLowerCase allowedZone).
  cbv zeta. rewrite orb_true_iff, bool_decide_eq_true, endsWith_spec. split.
  - intros [->|[t ->]]; [done|]. cbn [String.append]. rewrite split_on_sep. by exists (split_on "." t).
  - intros [pre E]. destruct pre as [|w pre]; [left; by apply (split_on_inj ".")|]. right.
    exists (join "." (w :: pre)). rewrite <- (join_split_on "." z), E, join_app; [|done|].
    + by rewrite join_split_on.
    + destruct (split_on_cons "." a) as (? & ? & ->). done.
Qed.

(** * Verify destinations *)

(** The verify-destination gate.  A host is probeable exactly when it is a
    non-empty string of at most 255 characters, is not of the denied class,
    and is allowlisted or, unless it is loopback, is the job's own target. *)
Theorem checkVerifyHost_spec (cfg : policyConfig) (h : string) (target : jsval) :
  checkVerifyHost cfg (Str h) target = Allowed ↔
  h ≠ EmptyString ∧ slen h <= 255 ∧ classifyVerifyHost h ≠ denied ∧
  ((∃ x, x ∈ allowedVerifyHosts cfg ∧ verify_host_listed (toLowerCase h) x = true) ∨
   (classifyVerifyHost h = ordinary ∧
    ∃ t, target = Str t ∧ t ≠ EmptyString ∧ toLowerCase t = toLowerCase h)).
Proof.
  unfold checkVerifyHost, allow_if.
  assert (existsb (verify_host_listed (toLowerCase h)) (allowedVerifyHosts cfg) = true ↔
    ∃ x, x ∈ allowedVerifyHosts cfg ∧ verify_host_listed (toLowerCase h) x = true) as Hl.
  { rewrite existsb_exists. by setoid_rewrite <- list_elem_of_In. }
  case_bool_decide as Hne; cbn [orb]; [naive_solver|].
  destruct (255 <? slen h) eqn:Hlen; split_bool; [naive_solver lia|].
  case_bool_decide as Hd; [naive_solver|]. cbv zeta.
  assert ((if existsb (verify_host_listed (toLowerCase h)) (allowedVerifyHosts cfg)
    then Allowed else Rejected TARGET_OUT_OF_SCOPE) = Allowed ↔
    ∃ x, x ∈ allowedVerifyHosts cfg ∧ verify_host_listed (toLowerCase h) x = true) as Hif.
  { rewrite <- Hl. by destruct (existsb _ _). }
  case_bool_decide as Hlo.
  { rewrite Hif. rewrite Hlo in *. naive_solver. }
  assert (classifyVerifyHost h = ordinary) as Ho by (by destruct (classifyVerifyHost h)).
  destruct target as [| | | |t| |]; try (rewrite Hif; naive_solver).
  destruct (_ && _) eqn:Ht.
  - apply andb_prop in Ht as [Ht1 Ht2]. split_bool. split; [|done]. intros _.
    repeat split; [done..|]. right. split; [done|]. by exists t.
  - rewrite Hif. split; [naive_solver|].
    intros (_ & _ & _ & [?|(_ & t' & [= <-] & H1 & H2)]); [done|].
    by rewrite (bool_decide_eq_false_2 (t = _)), bool_decide_eq_true_2 in Ht.
Qed.

(** Metadata-class destinations in dotted form are denied whatever the
    configuration and the job's target: link-local, unspecified, multicast
    and reserved IPv4 addresses, written plainly or as a mapped literal. *)
Theorem checkVerifyHost_denies_metadata (cfg : policyConfig) (target : jsval) (a b c d : Z) (p : string) :
  0 <= a <= 255 → 0 <= b <= 255 → 0 <= c <= 255 → 0 <= d <= 255 →
  a = 0 ∨ 224 <= a ∨ (a = 169 ∧ b = 254) →
  p = EmptyString ∨ p = "::ffff:" →
  checkVerifyHost cfg (Str (p +:+ dotted a b c d)) target = Rejected TARGET_OUT_OF_SCOPE.
Proof.
  intros Ha Hb Hc Hd Hrange Hp.
  assert (∀ rec, classify_once rec (dotted a b c d) = denied) as Hd4.
  { intros rec. unfold classify_once.
    assert (startsWith "[" (dotted a b c d) = false) as ->.
    { pose proof (q_plain a b c d Ha Hb Hc Hd) as Hpl. destruct (dotted a b c d) as [|x s]; [done|].
      cbn in Hpl |- *. apply andb_prop in Hpl as [Hx _].
      destruct (plain_char_facts x Hx) as (_ & Hne & _). by rewrite bool_decide_eq_false_2 by congruence. }
    cbn [andb]. cbv zeta. rewrite q_lower by done. unfold isIP. rewrite isIPv4_dotted by done.
    cbn [Z.eqb Pos.eqb]. unfold classify_octets. rewrite split_dotted by done. cbn [map].
    rewrite (decimal_print a), (decimal_print b) by done.
    destruct Hrange as [->|[Hr|[-> ->]]]; [done| |done].
    rewrite (proj2 (Z.eqb_neq a 127)), (proj2 (Z.eqb_neq a 0)), (proj2 (Z.eqb_neq a 169)) by lia.
    cbn [andb]. by rewrite (proj2 (Z.leb_le _ _)). }
  assert (classifyVerifyHost (p +:+ dotted a b c d) = denied) as Hcl.
  { destruct Hp as [->| ->]; [apply Hd4|].
    assert ("::ffff:" ∈ ipv4_carriers) as Hcar by (unfold ipv4_carriers; set_solver).
    destruct (carrier_isIP "::ffff:" a b c d Hcar Ha Hb Hc Hd) as [_ Hip].
    unfold classifyVerifyHost. unfold classify_once at 1.
    assert (startsWith "[" ("::ffff:" +:+ dotted a b c d) = false) as -> by done.
    cbn [andb]. cbv zeta.
    assert (toLowerCase ("::ffff:" +:+ dotted a b c d) = "::ffff:" +:+ dotted a b c d) as ->.
    { change (toLowerCase ("::ffff:" +:+ dotted a b c d)) with ("::ffff:" +:+ toLowerCase (dotted a b c d)).
      by rewrite q_lower. }
    rewrite Hip. cbn [Z.eqb Pos.eqb].
    assert (mappedMatch ("::ffff:" +:+ dotted a b c d) = Some (dotted a b c d)) as ->; [|apply Hd4].
    unfold mappedMatch. rewrite startsWith_app.
    change (sdrop 7 ("::ffff:" +:+ dotted a b c d)) with (dotted a b c d). cbv zeta.
    rewrite split_dotted by done. cbn [forallb]. unfold nonempty_all.
    destruct (octet_facts a Ha) as (_ & _ & -> & ? & _). destruct (octet_facts b Hb) as (_ & _ & -> & ? & _).
    destruct (octet_facts c Hc) as (_ & _ & -> & ? & _). destruct (octet_facts d Hd) as (_ & _ & -> & ? & _).
    by rewrite !bool_decide_eq_false_2. }
  unfold checkVerifyHost. destruct (_ || _); [done|]. by rewrite Hcl.
Qed.
Lemma checkVerifyHost_denies_metadata_witness :
  checkVerifyHost (mkPolicyConfig [] [] [] [] [] ["169.254.169.254"])
    (Str ("::ffff:" +:+ dotted 169 254 169 254)) (Str "::ffff:169.254.169.254") = Rejected TARGET_OUT_OF_SCOPE.
Proof.
  apply (checkVerifyHost_denies_metadata _ _ 169 254 169 254); [lia..| |by right].
  right. right. split; reflexivity.
Defined.

(** The same mapped address in hexadecimal groups, and the uncompressed
    mapped form, are not unwrapped: [::ffff:a9fe:a9fe] is the cloud metadata
    endpoint, is classified as an ordinary host and is probeable under the
    empty configuration when the job names it as its own target. *)
Theorem checkVerifyHost_hex_mapped_not_denied :
  let empty := mkPolicyConfig [] [] [] [] [] [] in
  isIP "::ffff:a9fe:a9fe" = 6 ∧
  classifyVerifyHost "::ffff:a9fe:a9fe" = ordinary ∧
  classifyVerifyHost "0:0:0:0:0:ffff:169.254.169.254" = ordinary ∧
  checkVerifyHost empty (Str "::ffff:a9fe:a9fe") (Str "::ffff:a9fe:a9fe") = Allowed.
Proof. vm_compute. done. Qed.

(** * Evaluation *)

(** A job passes the engine exactly when it does not ask for key export
    and every policy dimension it names passes its own check; so an empty
    configuration refuses every job that names any reference, and no
    configuration lets a key export through. *)
Theorem evaluateJob_allowed_iff (cwd : string) (url : jsval → option string)
    (cfg : policyConfig) (scope : list string) (d : descriptor) :
  (evaluateJob cwd url cfg scope d = Ok Allowed ↔
   requestsKeyExport d ≠ Bool true ∧
   (targetSelector d = Undef ∨ checkTargetScope scope (targetSelector d) = Allowed) ∧
   (commandRef d = Undef ∨ (checkCommandRef cfg (commandRef d)).1 = Allowed) ∧
   (path_ d = Undef ∨ checkPath cwd cfg (path_ d) = Ok Allowed) ∧
   (caEndpoint d = Undef ∨ checkCaEndpoint url cfg (caEndpoint d) = Allowed) ∧
   (dnsZone d = Undef ∨ checkDnsZone cfg (dnsZone d) = Ok Allowed) ∧
   (dnsProvider d = Undef ∨ checkDnsProvider cfg (dnsProvider d) = Allowed)) ∧
  (requestsKeyExport d = Bool true →
   evaluateJob cwd url cfg scope d = Ok (Rejected KEY_EXPORT_REQUESTED)).
Proof.
  assert (∀ v check next, when_present v check next = Ok Allowed ↔
    (v = Undef ∨ check v = Ok Allowed) ∧ next = Ok Allowed) as Hw.
  { intros v check next. unfold when_present.
    destruct v; [naive_solver|..];
      (destruct (check _) as [[]|]; cbn [mbind result_bind]; naive_solver). }
  assert (∀ x : verdict, (Ok (E:=policy_error) x = Ok Allowed ↔ x = Allowed)) as Hok
    by (intros; split; congruence).
  split.
  - unfold evaluateJob, checkNoKeyExport.
    assert (requestsKeyExport d = Bool true ∨ requestsKeyExport d ≠ Bool true) as [E|Hne].
    { destruct (requestsKeyExport d) as [| |[]| | | |]; auto; right; discriminate. }
    + rewrite E. naive_solver.
    + assert (match requestsKeyExport d with Bool true => Rejected KEY_EXPORT_REQUESTED | _ => Allowed end
        = Allowed) as ->.
      { destruct (requestsKeyExport d) as [| |[]| | | |]; congruence. }
      rewrite !Hw, !Hok. naive_solver.
  - intros E. unfold evaluateJob, checkNoKeyExport. by rewrite E.
Qed.
