(* ===== verification/Lease.v ===== *)
(** Job-lease renewal: [renewJobLeaseOrAbort] of packages/agent/src/index.js.

    Each iteration of the loop consumes one [attempt]: the control plane's
    reply and the readings of the clock made around it.  The list of attempts
    is the outside world; running out of it ([None]) means the loop is still
    waiting for a reply.  [renew_terminates] bounds the attempts needed. *)
From S2P Require Import Prelude Dates Json.
Open Scope Z_scope.

Definition DEFAULT_JOB_LEASE_MS : Z := 900 * 1000.
Definition MAX_LEASE_TRANSIENT_RETRIES : Z := 3.
Definition LEASE_TRANSIENT_BACKOFF_MS : Z := 200.

Inductive abort_reason :=
| ClientUnavailable | MandatoryFailed | PastConfirmedExpiry | TooManyFailures
| RetryPastExpiry | AgentRetired | LeaseConflict.
#[global] Instance abort_reason_eq_dec : EqDecision abort_reason.
Proof. solve_decision. Defined.

Record lease_state := mkLeaseState {
  lastConfirmedExpiresAtMs : option Z;
  consecutiveTransientFailures : Z;
  lease_abort : option abort_reason;
}.
Definition createLeaseState : lease_state := mkLeaseState None 0 None.

Inductive lease_reply := ReplyThrows | Reply (v : jsval).
Record attempt := mkAttempt {
  reply : lease_reply;
  at_reply : Z;         (* [now()] after the reply *)
  before_sleep : Z;
  after_sleep : Z;
}.

Inductive lease_result :=
| LeaseOk (skipped : bool)
| LeaseAborted (retired : bool) (reason : abort_reason).

Section lease.
Context {dp : DateParse}.

Definition extractLeaseExpiresAtMs (response : jsval) (nowMs : Z) : Z :=
  match get "leaseExpiresAt" response with
  | Str s => default (nowMs + DEFAULT_JOB_LEASE_MS) (date_parse s)
  | _ => nowMs + DEFAULT_JOB_LEASE_MS
  end.

Definition is_num_eq (n : Z) (v : jsval) : bool :=
  match v with Num (Fin z) => z =? n | _ => false end.
Definition is_false (v : jsval) : bool := match v with Bool false => true | _ => false end.
(** The refusal a reply carries: [Some retired]. *)
Definition refusal (response : jsval) : option bool :=
  if truthy response && is_false (get "ok" response) &&
     (is_num_eq 409 (get "status" response) || is_num_eq 410 (get "status" response))
  then Some (is_num_eq 410 (get "status" response)) else None.

Definition set_abort (ls : option lease_state) (r : abort_reason) : option lease_state :=
  l ← ls; Some (mkLeaseState (lastConfirmedExpiresAtMs l) (consecutiveTransientFailures l) (Some r)).
Definition set_failures (ls : option lease_state) (n : Z) : option lease_state :=
  l ← ls; Some (mkLeaseState (lastConfirmedExpiresAtMs l) n (lease_abort l)).
Definition confirm (ls : option lease_state) (expires : Z) : option lease_state :=
  _ ← ls; Some (mkLeaseState (Some expires) 0 None).

(** [sleeps] collects (start, backoff) of the waits between attempts. *)
Definition outcome : Type := lease_result * option lease_state * list (Z * Z).
Definition aborted (ls : option lease_state) (sleeps : list (Z * Z)) (retired : bool)
    (r : abort_reason) : option outcome :=
  Some (LeaseAborted retired r, set_abort ls r, sleeps).

Fixpoint renew_loop (required : bool) (ls : option lease_state) (sleeps : list (Z * Z))
    (attempts : list attempt) : option outcome :=
  match attempts with
  | [] => None
  | a :: attempts =>
      match reply a with
      | ReplyThrows =>
          if required then aborted ls sleeps false MandatoryFailed else
          let nowMs := at_reply a in
          match (l ← ls; lastConfirmedExpiresAtMs l) with
          | None => aborted ls sleeps false PastConfirmedExpiry
          | Some graceDeadline =>
              if graceDeadline <=? nowMs then aborted ls sleeps false PastConfirmedExpiry else
              let failures := match ls with Some l => consecutiveTransientFailures l + 1 | None => 1 end in
              let ls := set_failures ls failures in
              if MAX_LEASE_TRANSIENT_RETRIES <? failures then aborted ls sleeps false TooManyFailures else
              let backoff := LEASE_TRANSIENT_BACKOFF_MS * 2 ^ (failures - 1) in
              if graceDeadline <=? nowMs + backoff then aborted ls sleeps false RetryPastExpiry else
              let sleeps := sleeps ++ [(nowMs, backoff)] in
              if (after_sleep a <=? before_sleep a) && (MAX_LEASE_TRANSIENT_RETRIES <=? failures)
              then aborted ls sleeps false TooManyFailures
              else renew_loop required ls sleeps attempts
          end
      | Reply response =>
          match refusal response with
          | Some retired =>
              aborted ls sleeps retired (if retired then AgentRetired else LeaseConflict)
          | None =>
              Some (LeaseOk false,
                    confirm ls (extractLeaseExpiresAtMs response (at_reply a)), sleeps)
          end
      end
  end.

Definition renewJobLeaseOrAbort (client : bool) (claimId : option string) (required : bool)
    (ls : option lease_state) (attempts : list attempt) : option outcome :=
  if negb client then
    Some (if required then LeaseAborted false ClientUnavailable else LeaseOk true, ls, [])
  else if negb (match claimId with Some c => negb (bool_decide (c = EmptyString)) | None => false end)
  then Some (LeaseOk true, ls, [])
  else renew_loop required ls [] attempts.
End lease.

(** The lease state a component starts from. *)
Definition failures_of (ls : option lease_state) : Z :=
  match ls with Some l => consecutiveTransientFailures l | None => 0 end.

(** Renewal terminates: whatever the control plane replies and whatever the
    clock does, four replies are enough for a decision. *)
Theorem renew_terminates {dp : DateParse} (client required : bool) (claimId : option string)
    (ls : option lease_state) (attempts : list attempt) :
  0 <= failures_of ls → (4 <= length attempts)%nat →
  is_Some (renewJobLeaseOrAbort client claimId required ls attempts).
Proof.
  intros Hf Hlen. unfold renewJobLeaseOrAbort.
  destruct (negb client); [done|]. destruct (negb _); [done|].
  assert (∀ atts ls sleeps, 0 <= failures_of ls →
    MAX_LEASE_TRANSIENT_RETRIES + 1 <= failures_of ls + Z.of_nat (length atts) →
    (atts ≠ []) → is_Some (renew_loop required ls sleeps atts)) as H.
  { clear. intros atts. induction atts as [|a atts IH]; intros ls sleeps Hf Hl Hne; [done|].
    cbn [renew_loop]. destruct (reply a); [|by destruct (refusal v)].
    destruct required; [done|]. cbv zeta.
    destruct (ls ≫= _) as [g|] eqn:Eg; [|done].
    destruct (g <=? at_reply a); [done|].
    destruct ls as [l|]; [|done]. cbn [failures_of] in *.
    destruct (MAX_LEASE_TRANSIENT_RETRIES <? _) eqn:Em; [done|].
    destruct (g <=? _); [done|]. destruct (_ && _); [done|]. split_bool.
    unfold MAX_LEASE_TRANSIENT_RETRIES in *. cbn [length] in Hl.
    apply IH; cbn; try lia. intros ->. cbn in Hl. lia. }
  apply H; [done| |intros ->; cbn in Hlen; lia]. unfold MAX_LEASE_TRANSIENT_RETRIES. lia.
Qed.
Definition down (t : Z) : attempt := mkAttempt ReplyThrows t t (t + 1).
Lemma renew_terminates_witness : let dp := iso_date_parse in
  is_Some (renewJobLeaseOrAbort true (Some "c1") false (Some (mkLeaseState (Some 100000) 0 None))
             [down 1; down 300; down 900; down 2000]).
Proof. cbv zeta. apply (@renew_terminates iso_date_parse); vm_compute; [discriminate|lia]. Defined.

(** A wait between two attempts lies before the last confirmed expiry. *)
Definition wait_within (ls : option lease_state) (s : Z * Z) : Prop :=
  ∃ l g, ls = Some l ∧ lastConfirmedExpiresAtMs l = Some g ∧ 0 < s.2 ∧ s.1 + s.2 < g.
Lemma renew_loop_spec {dp : DateParse} required ls atts l0 s0 res ls' sleeps :
  renew_loop required l0 s0 atts = Some (res, ls', sleeps) →
  (l0 ≫= lastConfirmedExpiresAtMs) = (ls ≫= lastConfirmedExpiresAtMs) → 0 <= failures_of l0 →
  Forall (wait_within ls) s0 → Z.of_nat (length s0) <= MAX_LEASE_TRANSIENT_RETRIES →
  Z.of_nat (length s0) <= failures_of l0 →
  (∀ skipped, res = LeaseOk skipped → skipped = false ∧
     ∃ a v, a ∈ atts ∧ reply a = Reply v ∧ refusal v = None) ∧
  Z.of_nat (length sleeps) <= MAX_LEASE_TRANSIENT_RETRIES ∧ Forall (wait_within ls) sleeps.
Proof.
  set (P := wait_within ls). revert l0 s0.
  induction atts as [|a atts IH]; intros l0 s0 Hr Hg Hf0 HP Hlen Hls; [done|].
    cbn [renew_loop] in Hr. unfold aborted in Hr. destruct (reply a) as [|v] eqn:Ea.
    2: { destruct (refusal v) eqn:Ev; injection Hr as <- <- <-; (split; [|done]); [done|].
         intros sk [= <-]. split; [done|]. exists a, v. split; [apply list_elem_of_here|done]. }
    destruct required; [by injection Hr as <- <- <-|]. cbv zeta in Hr.
    destruct (l0 ≫= _) as [g|] eqn:Eg; [|by injection Hr as <- <- <-].
    destruct (g <=? at_reply a) eqn:E1; [by injection Hr as <- <- <-|].
    destruct l0 as [l|]; [|done]. cbn [failures_of] in *.
    destruct (MAX_LEASE_TRANSIENT_RETRIES <? _) eqn:E2; [by injection Hr as <- <- <-|].
    cbn [set_failures mbind option_bind] in Hr.
    destruct (g <=? _) eqn:E3 in Hr; [by injection Hr as <- <- <-|]. split_bool.
    set (b := LEASE_TRANSIENT_BACKOFF_MS * _) in *.
    assert (P (at_reply a, b)) as HPa.
    { destruct ls as [l1|]; [|done]. exists l1, g. cbn in Hg. repeat split; [done| |done].
      cbn. unfold b, LEASE_TRANSIENT_BACKOFF_MS. apply Z.mul_pos_pos; [lia|].
      apply Z.pow_pos_nonneg; lia. }
    assert (Forall P (s0 ++ [(at_reply a, b)])) as HP'
      by (apply Forall_app; split; [done|by constructor]).
    assert (Z.of_nat (length (s0 ++ [(at_reply a, b)])) <= consecutiveTransientFailures l + 1) as Hl'
      by (rewrite length_app; cbn; lia).
    destruct (_ && _).
    - injection Hr as <- <- <-. split; [done|]. split; [lia|done].
    - destruct (IH _ _ Hr) as (H1 & H2); [exact (eq_trans Eg Hg)|cbn; lia|done| |cbn; lia|].
      { unfold MAX_LEASE_TRANSIENT_RETRIES in *. lia. }
      split; [|done]. intros sk Hsk. destruct (H1 sk Hsk) as (? & a' & v & Hin & ?).
      split; [done|]. exists a', v. split; [by right|done].
Qed.

(** C39: fail-closed renewal.  A mandatory confirmation answers [ok] on a
    claim only from a reply that is no refusal, without any wait; an optional
    renewal gets [ok] only so, waits at most three times, and every wait
    starts and ends before the last confirmed expiry. *)
Theorem renew_fail_closed {dp : DateParse} (required : bool) (claimId : string)
    (ls : option lease_state) (attempts : list attempt)
    (res : lease_result) (ls' : option lease_state) (sleeps : list (Z * Z)) :
  claimId ≠ EmptyString → 0 <= failures_of ls →
  renewJobLeaseOrAbort true (Some claimId) required ls attempts = Some (res, ls', sleeps) →
  (∀ skipped, res = LeaseOk skipped → skipped = false ∧
     ∃ a v, a ∈ attempts ∧ reply a = Reply v ∧ refusal v = None) ∧
  (required = true → sleeps = [] ∧ ∃ a, head attempts = Some a ∧
     (res = LeaseOk false ↔ ∃ v, reply a = Reply v ∧ refusal v = None)) ∧
  Z.of_nat (length sleeps) <= MAX_LEASE_TRANSIENT_RETRIES ∧
  Forall (λ s, ∃ l g, ls = Some l ∧ lastConfirmedExpiresAtMs l = Some g ∧
                 0 < s.2 ∧ s.1 + s.2 < g) sleeps.
Proof.
  intros Hc Hf. unfold renewJobLeaseOrAbort. cbn [negb].
  rewrite bool_decide_eq_false_2 by done. cbn [negb].
  intros Hr. destruct (renew_loop_spec _ ls _ _ _ _ _ _ Hr) as (H1 & H2 & H3);
    [done|done|constructor|done|done|].
  split; [done|]. split; [|done]. intros ->.
  destruct attempts as [|a atts]; [done|]. cbn [renew_loop] in Hr.
  destruct (reply a) as [|v] eqn:Ea.
  - injection Hr as <- <- <-. split; [done|]. exists a. split; [done|].
    rewrite Ea. naive_solver.
  - destruct (refusal v) as [r|] eqn:Ev; injection Hr as <- <- <-; (split; [done|]); exists a;
      (split; [done|]); rewrite Ea; naive_solver.
Qed.
Lemma renew_fail_closed_witness : let dp := iso_date_parse in
  let r := renewJobLeaseOrAbort true (Some "c1") false (Some (mkLeaseState (Some 100000) 0 None))
             [down 1; mkAttempt (Reply (Obj [("ok", Bool true)])) 400 0 0] in
  ∃ ls', r = Some (LeaseOk false, ls', [(1, 200)]) ∧ 1 + 200 < 100000.
Proof.
  cbv zeta. eexists. split; [reflexivity|].
  pose proof (@renew_fail_closed iso_date_parse false "c1" (Some (mkLeaseState (Some 100000) 0 None))
    [down 1; mkAttempt (Reply (Obj [("ok", Bool true)])) 400 0 0] _ _ _ ltac:(done) ltac:(done) eq_refl)
    as (_ & _ & _ & H).
  apply Forall_cons in H as [(l & g & [= <-] & [= <-] & _ & H) _]. exact H.
Defined.
