(* ===== verification/Gate.v ===== *)
(** The trust chain of a claimed job: [handleClaimedJob], [handleSignedJob]
    and their helpers of packages/agent/src/index.js, on top of the signing,
    replay, clock, policy, journal and lease components.

    The agent's state is what survives between claims; [world] is what one
    claim reads from outside: clocks, outcomes of writes, the reply to the
    mandatory lease confirmation and how the execution goes.  [executeJob]
    itself is abstracted to what the chain sees of it: the stages it marks
    before each mutation, and its status, or that it throws, or that the
    process dies after some of the stages. *)
From S2P Require Import Prelude Dates Json Signing Replay Clock Journal Policy Lease.
Open Scope Z_scope.

Inductive gate_error :=
| GSigning (e : signing_error) | GReplay (e : replay_error) | GPolicy (e : policy_error)
| GJournal (e : journal_error) | GNoOutboxDir.

Definition lift {E E' A} (f : E → E') (r : result E A) : result E' A :=
  match r with Ok a => Ok a | Err e => Err (f e) end.

(** What the policy engine promises the trust chain. *)
Class JobPolicy := {
  evaluate_job : descriptor → result policy_error verdict;
  key_export_refused : ∀ d, requestsKeyExport d = Bool true →
    evaluate_job d = Ok (Rejected KEY_EXPORT_REQUESTED);
}.
Lemma evaluateJob_key_export cwd url cfg scope d :
  requestsKeyExport d = Bool true →
  evaluateJob cwd url cfg scope d = Ok (Rejected KEY_EXPORT_REQUESTED).
Proof. intros E. unfold evaluateJob, checkNoKeyExport. by rewrite E. Qed.
Definition policy_engine (cwd : string) (url : jsval → option string) (cfg : policyConfig)
    (scope : list string) : JobPolicy :=
  {| evaluate_job := evaluateJob cwd url cfg scope;
     key_export_refused := evaluateJob_key_export cwd url cfg scope |}.

Definition is_true (v : jsval) : bool := match v with Bool true => true | _ => false end.
Definition buildSignedJobPolicyDescriptor (job : jsval) : descriptor :=
  mkDescriptor
    (if is_true (get "requestsKeyExport" job) || is_true (get "exportPrivateKey" job)
        || is_true (get "keyExport" job) then Bool true else Undef)
    (get "reference" (get "target" job)) (get "commandRef" job) (get "path" job)
    (get "caEndpoint" job) (get "dnsZone" job) (get "dnsProvider" job).

(** [/^[A-Za-z0-9_.:-]{1,128}$/]. *)
Definition hasReportableJobId (value : jsval) : bool :=
  match value with Str s => matches_class is_ident_char 1 128 s | _ => false end.
Definition UNVERIFIED_JOB_ID_PLACEHOLDER : string := "unverified-no-pinned-key".
Definition localAttemptId (jobId : string) (nowMs : Z) : string :=
  "local-" +:+ jobId +:+ "-" +:+ print_Z nowMs.
Definition nonempty_str (v : jsval) : option string :=
  match v with Str s => if bool_decide (s = EmptyString) then None else Some s | _ => None end.

Record identity := mkIdentity {
  i_jobId : option string; i_claimId : option string; i_nonce : option string }.
Definition reportable_id (v : jsval) : option string :=
  if hasReportableJobId v then Some (str_of v) else None.
Definition rawBestEffortIdentity (claimed : jsval) : identity :=
  mkIdentity (reportable_id (get "jobId" claimed)) (nonempty_str (get "claimId" claimed))
    (nonempty_str (get "nonce" claimed)).
(** The identifiers and the attempt id. *)
Definition verifiedJobIdentity (job : jsval) (nowMs : Z) : identity * string :=
  let i := rawBestEffortIdentity job in
  (i, match nonempty_str (get "attemptId" job), i_claimId i with
      | Some a, _ => a
      | None, Some c => c
      | None, None => localAttemptId (default UNVERIFIED_JOB_ID_PLACEHOLDER (i_jobId i)) nowMs
      end).

(** A result handed to the outbox (or reported directly in observe-only
    mode). *)
Record report := mkReport {
  r_jobId : string; r_attemptId : string; r_claimId : option string; r_nonce : option string;
  r_status : string; r_rejectionReason : option string }.
Inductive event :=
| Executed (nonce jobId : string)
| SideEffect (jobId attemptId stage : string)
| Reported (r : report).

Record agent := mkAgent {
  a_cache : cache;
  a_journal : Dir;
  a_clock : estimator;
  a_mismatches : Z;          (* agentIdBindingMetrics.mismatches *)
  a_trace : list event;      (* newest first *)
}.
Definition emit (ev : event) (a : agent) : agent :=
  mkAgent (a_cache a) (a_journal a) (a_clock a) (a_mismatches a) (ev :: a_trace a).
Definition set_cache (c : cache) (a : agent) : agent :=
  mkAgent c (a_journal a) (a_clock a) (a_mismatches a) (a_trace a).
Definition set_journal (d : Dir) (a : agent) : agent :=
  mkAgent (a_cache a) d (a_clock a) (a_mismatches a) (a_trace a).
Definition set_clock (e : estimator) (a : agent) : agent :=
  mkAgent (a_cache a) (a_journal a) e (a_mismatches a) (a_trace a).
Definition set_mismatches (n : Z) (a : agent) : agent :=
  mkAgent (a_cache a) (a_journal a) (a_clock a) n (a_trace a).

Record config := mkConfig {
  executionEnabled : bool;
  pinnedSigningKey : option (string * string);   (* id, PEM *)
  boundAgentId : string;
  requireSignedAgentId : bool;
  clockDriftToleranceMs : Z;
  outboxDir : string;
}.

(** How an execution goes: the stages marked before mutations, each with the
    outcome of the marker's write and its timestamp; then a status, an
    exception, or the death of the process. *)
Inductive exec_end := Returns (status : string) | Throws | Dies.
Record execution := mkExecution {
  stages : list (string * bool * string);
  ending : exec_end;
  heartbeatAbort : bool;     (* the lease was lost meanwhile *)
}.
Record world := mkWorld {
  w_now : Z;                 (* Date.now() at the window check *)
  w_now_consume : Z;         (* Date.now() in the replay cache's clock *)
  w_now_local : Z;
  w_io1 : write_outcome; w_io2 : write_outcome;
  w_lease : attempt;
  w_exec : execution;
  w_clear_io : bool;
}.

Inductive outcome_status :=
| Done (status : string) (rejectionReason : option string) (retired : bool)
| Crashed
| LeasePending.

Section gate.
Context {dp : DateParse} {key : Type}
  (createPublicKey : string → option key)
  (crypto_verify : key → string → string → option bool)
  {pol : JobPolicy}.

Inductive verify_outcome :=
| no_pinned_key
| rejected (rejectionReason : string)
| verified (job : jsval).

(** Returns the outcome and the mismatch counter. *)
Definition verifyClaimedJobEnvelope (cfg : config) (mismatches : Z) (job : jsval)
  : result gate_error (verify_outcome * Z) :=
  match pinnedSigningKey cfg with
  | None => Ok (no_pinned_key, mismatches)
  | Some (kid, pem) =>
      v ← lift GSigning (verifyJobEnvelope createPublicKey crypto_verify job pem kid);
      match v with
      | Err reason => Ok (rejected reason, mismatches)
      | Ok job =>
          '(b, n) ← lift GSigning (checkAgentIdBinding mismatches job (boundAgentId cfg)
                                     (requireSignedAgentId cfg));
          Ok (match b with Rejected r => rejected r | Allowed => verified job end, n)
      end
  end.

Definition result_of (i : identity) (jobId attemptId status : string)
    (reason : option string) : report :=
  mkReport jobId attemptId (i_claimId i) (i_nonce i) status reason.
(** [persistAndTransmitOutcome], as the chain sees it. *)
Definition persistOutcome (r : report) (a : agent) : agent * result gate_error outcome_status :=
  (emit (Reported r) a, Ok (Done (r_status r) (r_rejectionReason r) false)).
Definition reportJobRejection (i : identity) (jobId attemptId reason : string) (a : agent) :=
  persistOutcome (result_of i jobId attemptId "rejected" (Some reason)) a.

Definition handleObserveOnlyJob (job : jsval) (i : identity) (jobId attemptId : string)
    (a : agent) : agent * result gate_error outcome_status :=
  match evaluate_job (buildSignedJobPolicyDescriptor job) with
  | Ok (Rejected reason) =>
      (emit (Reported (result_of i jobId attemptId "rejected" (Some reason))) a,
       Ok (Done "rejected" (Some reason) false))
  | Ok Allowed =>
      (emit (Reported (result_of i jobId attemptId "blocked" None)) a,
       Ok (Done "blocked" None false))
  | Err _ => (a, Ok (Done "failed" None false))
  end.

(** Marks and mutates stage by stage; a marker that cannot be written
    throws before the mutation.  The flag says whether all were reached. *)
Fixpoint run_stages (jobId attemptId : string) (claimId : option string)
    (ss : list (string * bool * string)) (a : agent) : agent * bool :=
  match ss with
  | [] => (a, true)
  | (stage, io, ts) :: ss =>
      match markSideEffectReached io jobId attemptId claimId stage ts (a_journal a) with
      | Ok (d, _) =>
          run_stages jobId attemptId claimId ss
            (emit (SideEffect jobId attemptId stage) (set_journal d a))
      | Err _ => (a, false)
      end
  end.

(** Everything after the lease confirmation. *)
Definition execute_and_report (w : world) (i : identity) (jobId attemptId : string)
    (a : agent) : agent * result gate_error outcome_status :=
  let a := emit (Executed (default EmptyString (i_nonce i)) jobId) a in
  let x := w_exec w in
  let '(a, reached) := run_stages jobId attemptId (i_claimId i) (stages x) a in
  match reached, ending x with
  | true, Dies => (a, Ok Crashed)
  | _, _ =>
      let status := match reached, ending x with
                    | true, Returns s =>
                        if heartbeatAbort x &&
                           (bool_decide (s = "succeeded") || bool_decide (s = "dry_run_complete"))
                        then "blocked" else s
                    | _, _ => "failed"
                    end in
      let a := emit (Reported (result_of i jobId attemptId status None)) a in
      let a := match clearJournalOnTerminal (w_clear_io w) jobId attemptId status (a_journal a) with
               | Ok (d, _) => set_journal d a
               | Err _ => a
               end in
      (a, Ok (Done status None false))
  end.

(** Runs [f] on the value of a gate, or stops with its exception. *)
Definition gate {A} (a : agent) (r : result gate_error A)
    (f : A → agent * result gate_error outcome_status)
  : agent * result gate_error outcome_status :=
  match r with Ok x => f x | Err e => (a, Err e) end.
Definition gate_verdict (i : identity) (jobId attemptId : string) (a : agent)
    (r : result gate_error verdict) (f : agent * result gate_error outcome_status)
  : agent * result gate_error outcome_status :=
  gate a r (λ v, match v with
                 | Allowed => f
                 | Rejected reason => reportJobRejection i jobId attemptId reason a
                 end).

Definition offset (a : agent) : option Z := getOffsetMs (a_clock a).
(** The replay cache's injected clock. *)
Definition cache_now (w : world) (a : agent) : Z := w_now_consume w + default 0 (offset a).

Definition confirm_lease (w : world) (i : identity) : option outcome :=
  renewJobLeaseOrAbort true (i_claimId i) true (Some createLeaseState) [w_lease w].

(** From the consumed nonce to the execution. *)
Definition after_consume (w : world) (job : jsval) (i : identity) (jobId attemptId : string)
    (a : agent) : agent * result gate_error outcome_status :=
  let materialRecoveryOnly := hasUnresolvedJournalForJob (a_journal a) jobId in
  if materialRecoveryOnly && negb (truthy (get "publication" job))
     && negb (truthy (get "materialDeployment" job)) then
    persistOutcome (result_of i jobId attemptId "orphaned_unknown_effect" None) a
  else
  match confirm_lease w i with
  | None => (a, Ok LeasePending)
  | Some (LeaseAborted retired _, _, _) =>
      (emit (Reported (result_of i jobId attemptId "blocked" None)) a,
       Ok (Done "blocked" None retired))
  | Some (LeaseOk _, _, _) => execute_and_report w i jobId attemptId a
  end.

Definition handleSignedJob (cfg : config) (w : world) (claimedJob : jsval) (a : agent)
  : agent * result gate_error outcome_status :=
  gate a (verifyClaimedJobEnvelope cfg (a_mismatches a) claimedJob) (λ vr,
  let a := set_mismatches vr.2 a in
  match vr.1 with
  | no_pinned_key =>
      let raw := rawBestEffortIdentity claimedJob in
      let jobId := default UNVERIFIED_JOB_ID_PLACEHOLDER (i_jobId raw) in
      let attemptId := default (localAttemptId jobId (w_now_local w)) (i_claimId raw) in
      if executionEnabled cfg && bool_decide (outboxDir cfg = EmptyString) then (a, Err GNoOutboxDir)
      else persistOutcome (result_of raw jobId attemptId "blocked" None) a
  | rejected reason => (a, Ok (Done "failed" (Some reason) false))
  | verified job =>
      let '(i, attemptId) := verifiedJobIdentity job (w_now_local w) in
      match i_jobId i with
      | None => (a, Ok (Done "failed" (Some "job_integrity_failed") false))
      | Some jobId =>
          if negb (executionEnabled cfg) then handleObserveOnlyJob job i jobId attemptId a else
          if bool_decide (outboxDir cfg = EmptyString) then (a, Err GNoOutboxDir) else
          gate_verdict i jobId attemptId a
            (lift GReplay (check (a_cache a) (get "nonce" job) (Str jobId) (get "expiresAt" job))) (
          gate_verdict i jobId attemptId a
            (lift GSigning (checkJobTimeWindow job (Fin (w_now w)) (offset a)
                              (Fin (clockDriftToleranceMs cfg)))) (
          gate_verdict i jobId attemptId a
            (lift GPolicy (evaluate_job (buildSignedJobPolicyDescriptor job))) (
          let '(c, r) := consume (w_io1 w) (w_io2 w) (cache_now w a) (a_cache a)
                           (get "nonce" job) (Str jobId) (get "expiresAt" job) in
          let a := set_cache c a in
          gate_verdict i jobId attemptId a (lift GReplay r)
            (after_consume w job i jobId attemptId a))))
      end
  end).
End gate.

(** * What a step can do *)

(** No execution and no mutation, only reports satisfying [P]; the journal and
    the clock are left. *)
Definition quiet (P : report → Prop) (a a' : agent) : Prop :=
  ∃ evs, a_trace a' = evs ++ a_trace a ∧
    (∀ ev, ev ∈ evs → ∃ r, ev = Reported r ∧ P r) ∧
    a_journal a' = a_journal a ∧ a_clock a' = a_clock a.

Lemma quiet_refl P a : quiet P a a.
Proof. exists []. split; [done|]. split; [set_solver|done]. Qed.
Lemma quiet_emit P a b r : P r → quiet P a b → quiet P a (emit (Reported r) b).
Proof.
  intros Hr (evs & Ht & He & Hj & Hc). exists (Reported r :: evs). cbn. rewrite Ht.
  split; [done|]. split; [|done]. intros ev [->|Hin]%elem_of_cons; eauto.
Qed.
Lemma quiet_set_cache P a b c : quiet P a b → quiet P a (set_cache c b).
Proof. by intros (evs & ? & ? & ? & ?); exists evs. Qed.
Lemma quiet_set_mismatches P a b n : quiet P a b → quiet P a (set_mismatches n b).
Proof. by intros (evs & ? & ? & ? & ?); exists evs. Qed.
Create HintDb gate.
#[export] Hint Resolve quiet_refl quiet_emit quiet_set_cache quiet_set_mismatches : gate.

Section gate_lemmas.
Context {dp : DateParse} {key : Type}
  (createPublicKey : string → option key)
  (crypto_verify : key → string → string → option bool)
  {pol : JobPolicy}.
Notation handle := (handleSignedJob createPublicKey crypto_verify).
Notation verify_claimed := (verifyClaimedJobEnvelope createPublicKey crypto_verify).

(** Every gate of the chain, passed, with the values it was passed on. *)
Record gates_passed (cfg : config) (w : world) (claimed : jsval) (a : agent)
    (job : jsval) (i : identity) (jobId : string) (n : Z) (c : cache) : Prop := {
  gp_enabled : executionEnabled cfg = true;
  gp_verified : verify_claimed cfg (a_mismatches a) claimed = Ok (verified job, n);
  gp_identity : i = rawBestEffortIdentity job;
  gp_jobId : i_jobId i = Some jobId;
  gp_replay : check (a_cache a) (get "nonce" job) (Str jobId) (get "expiresAt" job) = Ok Allowed;
  gp_window : checkJobTimeWindow job (Fin (w_now w)) (offset a) (Fin (clockDriftToleranceMs cfg))
              = Ok Allowed;
  gp_policy : evaluate_job (buildSignedJobPolicyDescriptor job) = Ok Allowed;
  gp_consume : consume (w_io1 w) (w_io2 w) (cache_now w a) (a_cache a)
                 (get "nonce" job) (Str jobId) (get "expiresAt" job) = (c, Ok Allowed);
  gp_journal : hasUnresolvedJournalForJob (a_journal a) jobId = false
               ∨ truthy (get "publication" job) = true
               ∨ truthy (get "materialDeployment" job) = true;
  gp_lease : ∃ skipped ls sleeps, confirm_lease w i = Some (LeaseOk skipped, ls, sleeps);
}.

Lemma gate_verdict_cases i jobId attemptId a r f a' o :
  gate_verdict i jobId attemptId a r f = (a', o) →
  (r = Ok Allowed ∧ f = (a', o)) ∨
  (∃ e, r = Err e ∧ a' = a ∧ o = Err e) ∨
  (∃ reason, r = Ok (Rejected reason) ∧
     a' = emit (Reported (result_of i jobId attemptId "rejected" (Some reason))) a ∧
     o = Ok (Done "rejected" (Some reason) false)).
Proof.
  unfold gate_verdict, gate, reportJobRejection, persistOutcome.
  destruct r as [[|reason]|e]; intros H.
  - by left.
  - injection H as <- <-. right. right. eauto.
  - injection H as <- <-. right. left. eauto.
Qed.

Lemma after_consume_cases (P : report → Prop) w job i jobId attemptId a a' o :
  (∀ status reason, P (result_of i jobId attemptId status reason)) →
  after_consume w job i jobId attemptId a = (a', o) →
  (quiet P a a' ∧ a_cache a' = a_cache a) ∨
  ((hasUnresolvedJournalForJob (a_journal a) jobId = false
      ∨ truthy (get "publication" job) = true ∨ truthy (get "materialDeployment" job) = true) ∧
   (∃ skipped ls sleeps, confirm_lease w i = Some (LeaseOk skipped, ls, sleeps)) ∧
   execute_and_report w i jobId attemptId a = (a', o)).
Proof.
  intros HP. unfold after_consume, persistOutcome.
  destruct (_ && _) eqn:E; [intros [= <- <-]; left; split; auto with gate|].
  destruct (confirm_lease w i) as [[[[sk|retired reason] ls] sl]|] eqn:El;
    intros H; [|injection H as <- <-; left; split; auto with gate..].
  right. split; [|split; [by eauto|done]].
  destruct (hasUnresolvedJournalForJob _ _); [|by left]. right.
  destruct (truthy (get "publication" job)); [by left|].
  destruct (truthy (get "materialDeployment" job)); [by right|done].
Qed.

(** With a pinned key the report names the job this claim proved.  Without one
    nothing can be verified, and the only report is that the job is blocked,
    under the identifiers of the claim as it came. *)
Definition bound (cfg : config) (claimed : jsval) (a : agent) (r : report) : Prop :=
  match pinnedSigningKey cfg with
  | Some _ =>
      ∃ job n, verify_claimed cfg (a_mismatches a) claimed = Ok (verified job, n) ∧
        get "jobId" job = Str (r_jobId r) ∧ r_claimId r = nonempty_str (get "claimId" job) ∧
        r_nonce r = nonempty_str (get "nonce" job)
  | None =>
      r_status r = "blocked" ∧ r_rejectionReason r = None ∧
      r_jobId r = default UNVERIFIED_JOB_ID_PLACEHOLDER (reportable_id (get "jobId" claimed)) ∧
      r_claimId r = nonempty_str (get "claimId" claimed) ∧ r_nonce r = nonempty_str (get "nonce" claimed)
  end.
Lemma verified_pinned cfg m claimed job n :
  verify_claimed cfg m claimed = Ok (verified job, n) → ∃ key, pinnedSigningKey cfg = Some key.
Proof. unfold verifyClaimedJobEnvelope. destruct (pinnedSigningKey cfg); [by eexists|done]. Qed.
Lemma verified_bound cfg claimed a job n jobId attemptId status reason :
  verify_claimed cfg (a_mismatches a) claimed = Ok (verified job, n) →
  i_jobId (rawBestEffortIdentity job) = Some jobId →
  bound cfg claimed a (result_of (rawBestEffortIdentity job) jobId attemptId status reason).
Proof.
  intros Hv Hj. unfold bound. destruct (verified_pinned _ _ _ _ _ Hv) as [k ->].
  exists job, n. split; [done|]. cbn. split; [|done]. cbn in Hj. unfold reportable_id, hasReportableJobId in Hj.
  destruct (get "jobId" job); try done. destruct (matches_class _ _ _ _); [|done]. by injection Hj as ->.
Qed.

(** A step either stays quiet, its cache unchanged or the result of one
    [consume], or it passed every gate and ran [execute_and_report]. *)
Lemma handle_cases cfg w claimed a a' o :
  handle cfg w claimed a = (a', o) →
  (quiet (bound cfg claimed a) a a' ∧ (a_cache a' = a_cache a ∨ ∃ job jobId,
     a_cache a' = (consume (w_io1 w) (w_io2 w) (cache_now w a) (a_cache a)
                     (get "nonce" job) (Str jobId) (get "expiresAt" job)).1)) ∨
  ∃ job i jobId attemptId n c,
    gates_passed cfg w claimed a job i jobId n c ∧
    execute_and_report w i jobId attemptId (set_cache c (set_mismatches n a)) = (a', o).
Proof.
  unfold handleSignedJob. destruct (verify_claimed _ _ _) as [[vr n]|e] eqn:Hv; cbn [gate].
  2: { intros [= <- <-]. left. auto with gate. }
  cbv zeta. cbn [fst snd]. destruct vr as [|reason|job].
  - assert (pinnedSigningKey cfg = None) as Hnone.
    { unfold verifyClaimedJobEnvelope in Hv. destruct (pinnedSigningKey cfg) as [[]|]; [|done].
      apply bind_ok in Hv as ([job|] & _ & Hv); [|done].
      apply bind_ok in Hv as ([[] ?] & _ & Hv); done. }
    destruct (_ && _); [intros [= <- <-]; left; auto with gate|].
    unfold persistOutcome. intros [= <- <-]. left. split; [|by left].
    apply quiet_emit; [|auto with gate]. unfold bound. by rewrite Hnone.
  - intros [= <- <-]. left. auto with gate.
  - destruct (verifiedJobIdentity job (w_now_local w)) as [i attemptId] eqn:Hi.
    assert (i = rawBestEffortIdentity job) as Hid by (by injection Hi as <- _).
    destruct (i_jobId i) as [jobId|] eqn:Hj; [|intros [= <- <-]; left; auto with gate].
    assert (∀ status reason, bound cfg claimed a (result_of i jobId attemptId status reason)) as HP.
    { intros status reason. rewrite Hid in Hj |- *. by eapply verified_bound. }
    destruct (executionEnabled cfg) eqn:Hen; cbn [negb].
    2: { unfold handleObserveOnlyJob.
         destruct (evaluate_job _) as [[|reason]|e]; intros [= <- <-]; left; split; auto with gate. }
    case_bool_decide; [intros [= <- <-]; left; auto with gate|].
    intros H1. apply gate_verdict_cases in H1
      as [[Hchk H1]|[(e & _ & -> & _)|(re & _ & -> & _)]]; [|left; split; auto with gate..].
    apply gate_verdict_cases in H1
      as [[Hwin H1]|[(e & _ & -> & _)|(re & _ & -> & _)]]; [|left; split; auto with gate..].
    apply gate_verdict_cases in H1
      as [[Hpol H1]|[(e & _ & -> & _)|(re & _ & -> & _)]]; [|left; split; auto with gate..].
    change (cache_now w (set_mismatches n a)) with (cache_now w a) in H1.
    change (a_cache (set_mismatches n a)) with (a_cache a) in *.
    change (offset (set_mismatches n a)) with (offset a) in *.
    destruct (consume _ _ _ _ _ _ _) as [c r] eqn:Hcons.
    assert (∀ b, a_cache b = c → a_cache b = (consume (w_io1 w) (w_io2 w) (cache_now w a)
      (a_cache a) (get "nonce" job) (Str jobId) (get "expiresAt" job)).1) as Hc
      by (intros b ->; by rewrite Hcons).
    apply gate_verdict_cases in H1
      as [[Hr H1]|[(e & _ & -> & _)|(re & _ & -> & _)]];
      [|left; split; [auto with gate|right; exists job, jobId; by apply Hc]..].
    apply (after_consume_cases _ _ _ _ _ _ _ _ _ HP) in H1 as [[Hq Hca]|(Hjour & Hlease & H1)].
    + left. split; [|right; exists job, jobId; by apply Hc].
      destruct Hq as (evs & ? & ? & ? & ?). by exists evs.
    + right. exists job, i, jobId, attemptId, n, c. split; [|done].
      destruct r as [[|]|]; try done. constructor; try done.
      * destruct (check _ _ _ _); cbn in Hchk; congruence.
      * destruct (checkJobTimeWindow _ _ _ _); cbn in Hwin; congruence.
      * destruct (evaluate_job _); cbn in Hpol; congruence.
Qed.
End gate_lemmas.

(** * Runs of the agent *)

Inductive gstep :=
| SHandle (w : world) (claimed : jsval)
| SDate (header : jsval) (localNowMs : Z)     (* a response's Date header *)
| SRestart (maxE : jsnum).

Section runs.
Context {dp : DateParse} {key : Type}
  (createPublicKey : string → option key)
  (crypto_verify : key → string → string → option bool)
  {pol : JobPolicy} (cfg : config).
Notation handle := (handleSignedJob createPublicKey crypto_verify cfg).

(** A restart reloads the replay store with the configured tolerance and
    starts a fresh clock estimate ([buildExecutionContext]); the journal
    directory stays. *)
Definition gstep_run (a : agent) (s : gstep) : agent :=
  match s with
  | SHandle w claimed => (handle w claimed a).1
  | SDate h now =>
      match estimateFromResponseDate (a_clock a) h (Fin now) with
      | Ok (e, _) => set_clock e a
      | Err _ => a
      end
  | SRestart m =>
      match createReplayCache "replay.json" m (Fin (clockDriftToleranceMs cfg)) (file (a_cache a)) with
      | Ok c => mkAgent c (a_journal a) (mkEstimator (Z.to_nat DEFAULT_MAX_SAMPLES) []) 0 (a_trace a)
      | Err _ => a
      end
  end.
Definition grun (a : agent) (ss : list gstep) : agent := fold_left gstep_run ss a.

(** The adjusted time of the window check. *)
Definition window_now (w : world) (a : agent) : Z := adjusted_now (w_now w) (offset a).

(** Along a run the adjusted clock readings never go back below [lo]. *)
Fixpoint clock_monotone (lo : Z) (a : agent) (ss : list gstep) : Prop :=
  match ss with
  | [] => True
  | s :: ss =>
      match s with
      | SHandle w _ => lo <= window_now w a ∧ window_now w a <= cache_now w a ∧
          clock_monotone (cache_now w a) (gstep_run a s) ss
      | _ => clock_monotone lo (gstep_run a s) ss
      end
  end.
(** The latest reading of a run. *)
Fixpoint last_reading (lo : Z) (a : agent) (ss : list gstep) : Z :=
  match ss with
  | [] => lo
  | s :: ss =>
      last_reading (match s with SHandle w _ => cache_now w a | _ => lo end) (gstep_run a s) ss
  end.

(** A consumed pair is still remembered, or its job is past its window. *)
Definition spent (e : entry) (lo : Z) (a : agent) : Prop :=
  retentionToleranceMs (a_cache a) = clockDriftToleranceMs cfg ∧
  (recorded e (a_cache a) ∨ expiresAtMs e + clockDriftToleranceMs cfg < lo).

Lemma run_stages_cache jobId attemptId claimId ss a :
  a_cache (run_stages jobId attemptId claimId ss a).1 = a_cache a ∧
  a_clock (run_stages jobId attemptId claimId ss a).1 = a_clock a.
Proof.
  revert a. induction ss as [|[[stage io] ts] ss IH]; intros a; [done|]. cbn.
  destruct (markSideEffectReached _ _ _ _ _ _ _) as [[d r]|]; [|done].
  apply (IH (emit (SideEffect jobId attemptId stage) (set_journal d a))).
Qed.
Lemma execute_cache w i jobId attemptId a :
  a_cache (execute_and_report w i jobId attemptId a).1 = a_cache a.
Proof.
  unfold execute_and_report.
  pose proof (run_stages_cache jobId attemptId (i_claimId i) (stages (w_exec w))
    (emit (Executed (default EmptyString (i_nonce i)) jobId) a)) as [Hc _].
  destruct (run_stages _ _ _ _ _) as [b reached]. cbn in Hc.
  destruct reached, (ending (w_exec w)); try done; cbn;
    (destruct (clearJournalOnTerminal _ _ _ _ _) as [[]|]; done).
Qed.
Lemma handle_cache w claimed a a' o : handle w claimed a = (a', o) →
  a_cache a' = a_cache a ∨ ∃ job jobId,
     a_cache a' = (consume (w_io1 w) (w_io2 w) (cache_now w a) (a_cache a)
                     (get "nonce" job) (Str jobId) (get "expiresAt" job)).1.
Proof.
  intros H. apply handle_cases in H as [[_ H]|(job & i & jobId & at_ & n & c & Hg & H)]; [done|].
  right. exists job, jobId. rewrite (gp_consume _ _ _ _ _ _ _ _ _ _ _ Hg). cbn.
  pose proof (execute_cache w i jobId at_ (set_cache c (set_mismatches n a))) as Hc.
  rewrite H in Hc. exact Hc.
Qed.

Lemma spent_step e lo a s :
  spent e lo a → clock_monotone lo a [s] →
  spent e (last_reading lo a [s]) (gstep_run a s).
Proof.
  intros [Ht Hs] Hm. destruct s as [w claimed|h now|m]; cbn -[estimateFromResponseDate createReplayCache] in *.
  - destruct Hm as (H1 & H2 & _).
    destruct (handle w claimed a) as [a' o] eqn:Hh. cbn.
    apply handle_cache in Hh.
    assert (∀ job jobId, retentionToleranceMs (consume (w_io1 w) (w_io2 w) (cache_now w a)
        (a_cache a) (get "nonce" job) (Str jobId) (get "expiresAt" job)).1
      = retentionToleranceMs (a_cache a)) as Htol by (intros; apply consume_tolerance).
    destruct Hh as [Hh|(job & jobId & Hh)]; unfold spent; rewrite Hh.
    + split; [done|]. destruct Hs; [by left|right; lia].
    + split; [by rewrite Htol|].
      destruct (Z.le_gt_cases (cache_now w a) (expiresAtMs e + clockDriftToleranceMs cfg));
        [|by right; lia].
      destruct Hs as [Hr|]; [|right; lia]. left. apply consume_recorded; [done|]. lia.
  - destruct (estimateFromResponseDate (a_clock a) h (Fin now)) as [[]|]; exact (conj Ht Hs).
  - unfold createReplayCache. rewrite bool_decide_eq_false_2 by done.
    cbn [ensure negb mbind result_bind].
    destruct m as [m| |]; [|by split..].
    destruct (0 <? m); cbn [ensure mbind result_bind]; [|by split].
    destruct (0 <=? _); cbn [ensure mbind result_bind]; [|by split].
    destruct (loadStore _) as [es|] eqn:Hl; cbn [mbind result_bind]; [|by split].
    split; [done|]. destruct Hs as [(Hok & Hin & es' & Hl' & Hes)|]; [left|by right].
    rewrite Hl in Hl'. injection Hl' as <-.
    split; [by apply loadStore_ok in Hl|]. split; [done|]. by exists es.
Qed.
Lemma spent_run e lo a ss :
  spent e lo a → clock_monotone lo a ss → spent e (last_reading lo a ss) (grun a ss).
Proof.
  revert lo a. induction ss as [|s ss IH]; intros lo a Hs Hm; [done|].
  cbn [last_reading]. unfold grun. cbn [fold_left]. apply IH.
  - apply (spent_step _ lo); [done|]. destruct s; cbn in *; tauto.
  - destruct s; cbn in *; tauto.
Qed.

(** What the gates say of a pair's expiry. *)
Lemma gates_expiry w claimed a job i jobId n c :
  gates_passed createPublicKey crypto_verify cfg w claimed a job i jobId n c →
  ∃ nonce s t, get "nonce" job = Str nonce ∧ get "expiresAt" job = Str s ∧
    date_parse s = Some t ∧
    assertEntryInput (get "nonce" job) (Str jobId) (get "expiresAt" job) = Ok t ∧
    window_now w a <= t + clockDriftToleranceMs cfg.
Proof.
  intros Hg. pose proof (gp_window _ _ _ _ _ _ _ _ _ _ _ Hg) as Hw.
  pose proof (gp_replay _ _ _ _ _ _ _ _ _ _ _ Hg) as Hc.
  unfold check in Hc. apply bind_ok in Hc as (t & Ha & _).
  unfold checkJobTimeWindow in Hw. destruct (_ <? 0); [done|].
  destruct (get "expiresAt" job) as [| | | |s| |] eqn:Es;
    try (destruct (negb (isPlainObject job)), (negb (date_ok (get "issuedAt" job))); done).
  pose proof Ha as Ha'. unfold assertEntryInput in Ha'.
  destruct (get "nonce" job) as [| | | |nn| |] eqn:En; try done.
  case_bool_decide; [done|]. case_bool_decide; [done|].
  destruct (date_parse s) as [t'|] eqn:Ed; [|done]. injection Ha' as ->.
  exists nn, s, t. repeat (split; [done|]).
  cbv zeta in Hw. destruct (_ || _) in Hw; [done|]. cbn [str_or_empty] in Hw. rewrite Ed in Hw.
  destruct (date_parse (str_or_empty _)) as [iss|]; [|done].
  destruct (t <? iss); [done|]. destruct (_ <? iss - _); [done|].
  destruct (_ <? adjusted_now _ _) eqn:E; [done|]. split_bool. exact E.
Qed.
End runs.

Lemma verified_job_deterministic {dp : DateParse} {key : Type} (createPublicKey : string → option key)
    (crypto_verify : key → string → string → option bool) cfg m1 m2 claimed job1 job2 n1 n2 :
  verifyClaimedJobEnvelope createPublicKey crypto_verify cfg m1 claimed = Ok (verified job1, n1) →
  verifyClaimedJobEnvelope createPublicKey crypto_verify cfg m2 claimed = Ok (verified job2, n2) →
  job1 = job2.
Proof.
  assert (∀ m job n, verifyClaimedJobEnvelope createPublicKey crypto_verify cfg m claimed
      = Ok (verified job, n) → ∃ k pem, pinnedSigningKey cfg = Some (k, pem) ∧
      verifyJobEnvelope createPublicKey crypto_verify claimed pem k = Ok (Ok job)) as H.
  { intros m job n Hv. unfold verifyClaimedJobEnvelope in Hv.
    destruct (pinnedSigningKey cfg) as [[k pem]|]; [|done]. exists k, pem. split; [done|].
    apply bind_ok in Hv as (v & Hv & H).
    destruct (verifyJobEnvelope _ _ _ _ _) as [v'|]; [|done]. injection Hv as ->.
    destruct v as [job'|]; [|done].
    apply bind_ok in H as ([b nn] & _ & H). destruct b; [|done]. by injection H as -> _. }
  intros (k & pem & Hk & H1)%H (k' & pem' & Hk' & H2)%H.
  rewrite Hk in Hk'. injection Hk' as <- <-. rewrite H1 in H2. by injection H2.
Qed.

Section gate_events.
Definition exec_event (i : identity) (jobId attemptId : string) (ev : event) : Prop :=
  (∃ st, ev = SideEffect jobId attemptId st) ∨
  (∃ status, ev = Reported (result_of i jobId attemptId status None)).

Lemma run_stages_events i jobId attemptId claimId ss a :
  ∃ evs, a_trace (run_stages jobId attemptId claimId ss a).1 = evs ++ a_trace a ∧
    ∀ ev, ev ∈ evs → exec_event i jobId attemptId ev.
Proof.
  revert a. induction ss as [|[[stage io] ts] ss IH]; intros a; cbn.
  { exists []. split; [done|set_solver]. }
  destruct (markSideEffectReached _ _ _ _ _ _ _) as [[d r]|].
  2: { exists []. split; [done|set_solver]. }
  destruct (IH (emit (SideEffect jobId attemptId stage) (set_journal d a))) as (evs & -> & H).
  exists (evs ++ [SideEffect jobId attemptId stage]). split; [by rewrite <- app_assoc|].
  intros ev [Hin|Hin]%elem_of_app; [by apply H|]. left. exists stage. set_solver.
Qed.
Lemma execute_events w i jobId attemptId a a' o :
  execute_and_report w i jobId attemptId a = (a', o) →
  ∃ evs, a_trace a' = evs ++ Executed (default EmptyString (i_nonce i)) jobId :: a_trace a ∧
    ∀ ev, ev ∈ evs → exec_event i jobId attemptId ev.
Proof.
  unfold execute_and_report.
  set (b0 := emit (Executed _ _) a).
  destruct (run_stages_events i jobId attemptId (i_claimId i) (stages (w_exec w)) b0)
    as (evs & Ht & He).
  destruct (run_stages _ _ _ _ _) as [b reached]. cbn in Ht.
  assert (∀ status b1, a_trace b1 = Reported (result_of i jobId attemptId status None) :: a_trace b →
    ∃ evs, a_trace b1 = evs ++ Executed (default EmptyString (i_nonce i)) jobId :: a_trace a ∧
    ∀ ev, ev ∈ evs → exec_event i jobId attemptId ev) as Hrep.
  { intros status b1 Hb. rewrite Hb, Ht. eexists (_ :: evs). split; [done|].
    intros ev [->|Hin]%elem_of_cons; [right; by eexists|by apply He]. }
  assert (∀ status (dir : result journal_error (Dir * bool)) b1, a_trace b1 = Reported (result_of i jobId attemptId status None) :: a_trace b →
    a_trace (match dir with Ok (d, _) => set_journal d b1 | Err _ => b1 end : agent)
    = Reported (result_of i jobId attemptId status None) :: a_trace b) as Hclr.
  { intros status dir b1 Hb. destruct dir as [[d x]|x]; exact Hb. }
  destruct reached, (ending (w_exec w)); intros [= <- <-];
    first [by exists evs | eapply Hrep, Hclr; reflexivity].
Qed.
End gate_events.

(** C2: the trust chain.  In one claim, an execution starts only after every
    gate passed on the verified job: signature and agent binding, a reportable
    id, the replay check, the time window, the local policy, the consumed
    nonce, the journal and the mandatory lease confirmation; side effects
    occur only within such an execution; and a report carries the identifiers
    of the job the signature proved when a key is pinned, while without a
    pinned key, when nothing can be verified, the only report says blocked and
    carries the raw identifiers of the claim. *)
Theorem execution_requires_every_gate {dp : DateParse} {key : Type}
    (createPublicKey : string → option key)
    (crypto_verify : key → string → string → option bool) {pol : JobPolicy}
    (cfg : config) (w : world) (claimed : jsval) (a a' : agent)
    (o : result gate_error outcome_status) (evs : list event) :
  handleSignedJob createPublicKey crypto_verify cfg w claimed a = (a', o) →
  a_trace a' = evs ++ a_trace a →
  (∀ n j, Executed n j ∈ evs → ∃ job i m c,
     gates_passed createPublicKey crypto_verify cfg w claimed a job i j m c ∧
     get "nonce" job = Str n) ∧
  (∀ j at_ st, SideEffect j at_ st ∈ evs → ∃ n, Executed n j ∈ evs) ∧
  (∀ r, Reported r ∈ evs → bound createPublicKey crypto_verify cfg claimed a r).
Proof.
  intros Hh Ht.
  apply handle_cases in Hh as [[(evs' & Ht' & He & _) _]|(job & i & jobId & at_ & n & c & Hg & Hx)].
  { rewrite Ht in Ht'. apply app_inv_tail in Ht' as <-.
    split; [|split].
    - intros n j Hin. destruct (He _ Hin) as (? & ? & _). done.
    - intros j at_ st Hin. destruct (He _ Hin) as (? & ? & _). done.
    - intros r Hin. by destruct (He _ Hin) as (? & [= <-] & ?). }
  apply execute_events in Hx as (evs' & Ht' & He).
  cbn [a_trace set_cache set_mismatches] in Ht'. rewrite Ht in Ht'.
  change (?e :: a_trace a) with ([e] ++ a_trace a) in Ht'. rewrite app_assoc in Ht'.
  apply app_inv_tail in Ht' as ->.
  assert (get "nonce" job = Str (default EmptyString (i_nonce i))) as Hn.
  { destruct (gates_expiry _ _ _ _ _ _ _ _ _ _ _ Hg) as (nonce & s & t & Hn & _ & _ & Ha & _).
    rewrite (gp_identity _ _ _ _ _ _ _ _ _ _ _ Hg), Hn. cbn. rewrite Hn in Ha |- *. cbn in Ha |- *.
    by destruct (bool_decide (nonce = EmptyString)). }
  split; [|split].
  - intros n' j [Hin|Hin]%elem_of_app.
    + destruct (He _ Hin) as [[? ?]|[? ?]]; done.
    + apply list_elem_of_singleton in Hin. injection Hin as -> ->. exists job, i, n, c. done.
  - intros j at' st [Hin|Hin]%elem_of_app.
    + destruct (He _ Hin) as [[? [= -> -> ->]]|[? ?]]; [|done].
      eexists. apply elem_of_app. right. apply list_elem_of_here.
    + by apply list_elem_of_singleton in Hin.
  - intros r [Hin|Hin]%elem_of_app; [|by apply list_elem_of_singleton in Hin].
    destruct (He _ Hin) as [[? ?]|[status [= ->]]]; [done|].
    pose proof (gp_jobId _ _ _ _ _ _ _ _ _ _ _ Hg) as Hj.
    rewrite (gp_identity _ _ _ _ _ _ _ _ _ _ _ Hg) in Hj |- *.
    eapply verified_bound; [|done]. by eapply gp_verified.
Qed.

Lemma clock_monotone_split {dp : DateParse} {key : Type} (createPublicKey : string → option key)
    (crypto_verify : key → string → string → option bool) {pol : JobPolicy} cfg ss lo a w claimed :
  clock_monotone createPublicKey crypto_verify cfg lo a (ss ++ [SHandle w claimed]) →
  clock_monotone createPublicKey crypto_verify cfg lo a ss ∧
  last_reading createPublicKey crypto_verify cfg lo a ss
    <= window_now w (grun createPublicKey crypto_verify cfg a ss).
Proof.
  revert lo a. induction ss as [|s ss IH]; intros lo a; [cbn; tauto|].
  destruct s; cbn [app clock_monotone last_reading]; unfold grun; cbn [fold_left].
  - intros (? & ? & H). apply IH in H as [? ?]. repeat split; done.
  - apply IH.
  - apply IH.
Qed.
(** Two claims that pass the gates on one signed job id are of one job id. *)
Lemma gates_same_jobId {dp : DateParse} {key : Type} (createPublicKey : string → option key)
    (crypto_verify : key → string → string → option bool) {pol : JobPolicy} cfg
    w1 w2 cl1 cl2 a1 a2 job1 job2 i1 i2 jobId1 jobId2 n1 n2 c1 c2 :
  gates_passed createPublicKey crypto_verify cfg w1 cl1 a1 job1 i1 jobId1 n1 c1 →
  gates_passed createPublicKey crypto_verify cfg w2 cl2 a2 job2 i2 jobId2 n2 c2 →
  get "jobId" job1 = get "jobId" job2 → jobId2 = jobId1.
Proof.
  intros Hg Hg2 Ej. pose proof (gp_jobId _ _ _ _ _ _ _ _ _ _ _ Hg) as Hj1.
  pose proof (gp_jobId _ _ _ _ _ _ _ _ _ _ _ Hg2) as Hj2.
  rewrite (gp_identity _ _ _ _ _ _ _ _ _ _ _ Hg) in Hj1.
  rewrite (gp_identity _ _ _ _ _ _ _ _ _ _ _ Hg2) in Hj2.
  cbn in Hj1, Hj2. rewrite Ej in Hj1. congruence.
Qed.

(** C1: no job executes twice.  Once a claim has executed a job, then through
    any later claims (of any jobs), Date headers and agent restarts, as long
    as the adjusted clock readings never go back, no claim that verifies to
    the same nonce, job id and expiry starts an execution or has a side
    effect, even after the replay cache has swept the nonce. *)
Theorem no_job_executes_twice {dp : DateParse} {key : Type}
    (createPublicKey : string → option key)
    (crypto_verify : key → string → string → option bool) {pol : JobPolicy}
    (cfg : config) (w1 w2 : world) (claimed1 claimed2 job1 job2 : jsval)
    (a0 a1 a3 : agent) (o1 o2 : result gate_error outcome_status) (evs1 evs2 : list event)
    (n1 n2 : Z) (ss : list gstep) :
  let handle := handleSignedJob createPublicKey crypto_verify cfg in
  let verify := verifyClaimedJobEnvelope createPublicKey crypto_verify cfg in
  let a2 := grun createPublicKey crypto_verify cfg a1 ss in
  entries_ok (entries (a_cache a0)) →
  retentionToleranceMs (a_cache a0) = clockDriftToleranceMs cfg →
  handle w1 claimed1 a0 = (a1, o1) → a_trace a1 = evs1 ++ a_trace a0 →
  (∃ n j, Executed n j ∈ evs1) →
  clock_monotone createPublicKey crypto_verify cfg (cache_now w1 a0) a1 (ss ++ [SHandle w2 claimed2]) →
  handle w2 claimed2 a2 = (a3, o2) → a_trace a3 = evs2 ++ a_trace a2 →
  verify (a_mismatches a0) claimed1 = Ok (verified job1, n1) →
  verify (a_mismatches a2) claimed2 = Ok (verified job2, n2) →
  get "nonce" job1 = get "nonce" job2 → get "jobId" job1 = get "jobId" job2 →
  get "expiresAt" job1 = get "expiresAt" job2 →
  ∀ ev, ev ∈ evs2 → ∃ r, ev = Reported r.
Proof.
  cbv zeta. set (a2 := grun _ _ _ _ _). intros Hok Htol H1 Ht1 Hex Hmono H2 Ht2 Hv1 Hv2 En Ej Ee.
  apply handle_cases in H1 as [[(evs' & Ht' & He & _) _]|(jobA & i & jobId & at_ & n & c & Hg & Hx)].
  { rewrite Ht1 in Ht'. apply app_inv_tail in Ht' as <-. destruct Hex as (? & ? & Hin).
    by destruct (He _ Hin) as (? & ? & _). }
  pose proof (gp_verified _ _ _ _ _ _ _ _ _ _ _ Hg) as Hv1'. rewrite Hv1 in Hv1'.
  injection Hv1' as <- <-.
  destruct (gates_expiry _ _ _ _ _ _ _ _ _ _ _ Hg) as (nn & s & t & Hn & Hs & Hd & Ha & Hw).
  pose proof (gp_consume _ _ _ _ _ _ _ _ _ _ _ Hg) as Hcons.
  rewrite Hn, Hs in Hcons. rewrite Hn, Hs in Ha.
  destruct (consume_allowed_recorded _ _ _ _ _ _ _ _ Hok Hcons) as (t' & Ha' & _ & Hrec & Htol' & _).
  rewrite Ha in Ha'. injection Ha' as <-. cbn [str_of] in Hrec.
  set (e := mkEntry nn jobId t) in *.
  assert (spent cfg e (cache_now w1 a0) a1) as Hspent.
  { pose proof (execute_cache w1 i jobId at_ (set_cache c (set_mismatches n1 a0))) as Hc.
    rewrite Hx in Hc. cbn in Hc. unfold spent. rewrite Hc. split; [congruence|by left]. }
  apply clock_monotone_split in Hmono as [Hmono Hlast]. fold a2 in Hlast.
  pose proof (spent_run _ _ _ _ _ _ _ Hspent Hmono) as [_ Hsp]. fold a2 in Hsp.
  apply handle_cases in H2 as [[(evs' & Ht' & He & _) _]|(jobB & i2 & jobId2 & at2 & m & c2 & Hg2 & Hx2)].
  { rewrite Ht2 in Ht'. apply app_inv_tail in Ht' as <-. intros ev Hin.
    destruct (He _ Hin) as (r & ? & _). by exists r. }
  exfalso.
  pose proof (gp_verified _ _ _ _ _ _ _ _ _ _ _ Hg2) as Hv2'. rewrite Hv2 in Hv2'.
  injection Hv2' as <- <-.
  destruct (gates_expiry _ _ _ _ _ _ _ _ _ _ _ Hg2) as (nn2 & s2 & t2 & Hn2 & Hs2 & Hd2 & Ha2 & Hw2).
  assert (nn2 = nn) as -> by congruence. assert (s2 = s) as -> by congruence.
  assert (t2 = t) as -> by congruence.
  assert (jobId2 = jobId) as -> by (by eapply gates_same_jobId).
  destruct Hsp as [Hr|Hlt].
  - apply recorded_has in Hr. cbn in Hr.
    pose proof (gp_replay _ _ _ _ _ _ _ _ _ _ _ Hg2) as Hchk.
    unfold check in Hchk. rewrite Ha2, Hn2 in Hchk. cbn [mbind result_bind str_of] in Hchk.
    by rewrite Hr in Hchk.
  - cbn in Hlt. lia.
Qed.

(** * Crash safety *)

Section crash.
Context {dp : DateParse} {key : Type}
  (createPublicKey : string → option key)
  (crypto_verify : key → string → string → option bool)
  {pol : JobPolicy} (cfg : config).
Notation handle := (handleSignedJob createPublicKey crypto_verify cfg).

(** A later claim keeps out of the journal file [name] of job [j]: a
    redelivery of [j] asks for no material recovery, and another job's
    attempts have other files ([Journal.journal_files_distinct] gives this
    for ids of one length). *)
Definition claim_spares (name j : string) (claimed : jsval) : Prop :=
  ∀ job m n, verifyClaimedJobEnvelope createPublicKey crypto_verify cfg m claimed
               = Ok (verified job, n) →
    (get "jobId" job = Str j → truthy (get "publication" job) = false ∧
                               truthy (get "materialDeployment" job) = false) ∧
    (∀ j' at_, get "jobId" job = Str j' → j' ≠ j → journalPathFor j' at_ ≠ Ok name).
Definition step_spares (name j : string) (s : gstep) : Prop :=
  match s with SHandle _ claimed => claim_spares name j claimed | _ => True end.

Lemma run_stages_marked name j jobId attemptId claimId ss a :
  marked name j (a_journal a) →
  marked name j (a_journal (run_stages jobId attemptId claimId ss a).1).
Proof.
  revert a. induction ss as [|[[stage io] ts] ss IH]; intros a Hm; cbn; [done|].
  pose proof (jstep_marked name j (a_journal a) (JMark io jobId attemptId claimId stage ts) I Hm) as Hm'.
  cbn [jstep] in Hm'.
  destruct (markSideEffectReached _ _ _ _ _ _ _) as [[d r]|]; [|done]. by apply IH.
Qed.

Lemma execute_marked name j w i jobId attemptId a :
  journalPathFor jobId attemptId ≠ Ok name → marked name j (a_journal a) →
  marked name j (a_journal (execute_and_report w i jobId attemptId a).1).
Proof.
  intros Hne Hm. unfold execute_and_report.
  pose proof (run_stages_marked name j jobId attemptId (i_claimId i) (stages (w_exec w))
    (emit (Executed (default EmptyString (i_nonce i)) jobId) a) Hm) as Hb.
  destruct (run_stages _ _ _ _ _) as [b reached]. cbn in Hb.
  assert (∀ status r, marked name j (a_journal
    (match clearJournalOnTerminal (w_clear_io w) jobId attemptId status (a_journal (emit r b)) with
     | Ok (d, _) => set_journal d (emit r b) | Err _ => emit r b end))) as Hclr.
  { intros status r.
    pose proof (jstep_marked name j (a_journal b) (JClear (w_clear_io w) jobId attemptId status)
      (λ H, False_ind _ (Hne H)) Hb) as Hc. cbn [jstep] in Hc. cbn [a_journal emit].
    destruct (clearJournalOnTerminal _ _ _ _ _) as [[d x]|]; done. }
  destruct reached, (ending (w_exec w)); first [done | apply Hclr].
Qed.

(** The marker survives the step and, on a redelivery, stops it. *)
Lemma handle_marked name j w claimed a a' o :
  endsWith ".json" name = true → j ≠ EmptyString → marked name j (a_journal a) →
  claim_spares name j claimed → handle w claimed a = (a', o) →
  marked name j (a_journal a') ∧
  ∀ job i c n, ¬ gates_passed createPublicKey crypto_verify cfg w claimed a job i j n c.
Proof.
  intros Hj Hne Hm Hsp Hh.
  assert (∀ job i c n, ¬ gates_passed createPublicKey crypto_verify cfg w claimed a job i j n c) as Hno.
  { intros job i c n Hg. destruct (Hsp _ _ _ (gp_verified _ _ _ _ _ _ _ _ _ _ _ Hg)) as [Hs _].
    pose proof (gp_jobId _ _ _ _ _ _ _ _ _ _ _ Hg) as Hid.
    rewrite (gp_identity _ _ _ _ _ _ _ _ _ _ _ Hg) in Hid. cbn in Hid.
    unfold reportable_id, hasReportableJobId in Hid.
    destruct (get "jobId" job) eqn:Ejob; try done. destruct (matches_class _ _ _ _); [|done].
    injection Hid as ->. destruct (Hs eq_refl) as [Hp Hd].
    pose proof (marked_unresolved _ _ _ Hj Hne Hm) as Hu.
    destruct (gp_journal _ _ _ _ _ _ _ _ _ _ _ Hg) as [?|[?|?]]; congruence. }
  split; [|done].
  apply handle_cases in Hh as [[(evs & _ & _ & -> & _) _]|(job & i & jobId & at_ & n & c & Hg & Hx)];
    [done|].
  assert (jobId ≠ j) as Hjj by (intros ->; by eapply Hno).
  destruct (Hsp _ _ _ (gp_verified _ _ _ _ _ _ _ _ _ _ _ Hg)) as [_ Hs].
  pose proof (gp_jobId _ _ _ _ _ _ _ _ _ _ _ Hg) as Hid.
  rewrite (gp_identity _ _ _ _ _ _ _ _ _ _ _ Hg) in Hid. cbn in Hid.
  unfold reportable_id, hasReportableJobId in Hid.
  destruct (get "jobId" job) eqn:Ejob; try done. destruct (matches_class _ _ _ _); [|done].
  injection Hid as ->.
  pose proof (execute_marked name j w i jobId at_ (set_cache c (set_mismatches n a))
    (Hs _ at_ eq_refl Hjj) Hm) as Hx'. by rewrite Hx in Hx'.
Qed.

Lemma grun_marked name j ss a :
  endsWith ".json" name = true → j ≠ EmptyString →
  Forall (step_spares name j) ss → marked name j (a_journal a) →
  marked name j (a_journal (grun createPublicKey crypto_verify cfg a ss)).
Proof.
  intros Hn Hj Hss. revert a. induction Hss as [|s ss Hs Hss IH]; intros a Hm; [done|].
  unfold grun. cbn [fold_left]. apply IH. destruct s as [w claimed|h now|m].
  - cbn [gstep_run]. destruct (handle w claimed a) as [a' o] eqn:Hh.
    by destruct (handle_marked _ _ _ _ _ _ _ Hn Hj Hm Hs Hh).
  - unfold gstep_run. by destruct (estimateFromResponseDate _ _ _) as [[]|].
  - unfold gstep_run. by destruct (createReplayCache _ _ _ _).
Qed.

Lemma run_stages_first_mark name i jobId attemptId ss a :
  journalPathFor jobId attemptId = Ok name → assoc_get name (a_journal a) = None →
  (∃ at_ st, SideEffect jobId at_ st ∈ a_trace (run_stages jobId attemptId (i_claimId i) ss a).1 ∧
             SideEffect jobId at_ st ∉ a_trace a) →
  marked name jobId (a_journal (run_stages jobId attemptId (i_claimId i) ss a).1).
Proof.
  intros Hn Hfresh Hex. destruct ss as [|[[stage io] ts] ss]; cbn in *.
  { by destruct Hex as (? & ? & ? & ?). }
  destruct (markSideEffectReached _ _ _ _ _ _ _) as [[d r]|] eqn:E;
    [|by destruct Hex as (? & ? & ? & ?)].
  apply run_stages_marked. cbn. unfold markSideEffectReached in E.
  apply bind_ok in E as (? & _ & E). rewrite Hn in E. cbn [mbind result_bind] in E.
  unfold assoc_has in E. rewrite Hfresh in E. rewrite bool_decide_eq_false_2 in E
    by (by intros [? ?]).
  apply bind_ok in E as (d2 & Hp & [= -> _]). destruct io; [|done]. injection Hp as <-.
  eexists. split; [apply assoc_get_set_eq|]. done.
Qed.
End crash.

(** Crash safety end to end.  If the process dies while executing a fresh
    attempt that has reached a side effect, then after any restarts, Date
    headers and claims that keep out of the attempt's journal file, no claim
    of the same job executes or has a side effect, even freshly signed with a
    new nonce, unless the job itself asks for material recovery. *)
Theorem crashed_job_not_reexecuted {dp : DateParse} {key : Type}
    (createPublicKey : string → option key)
    (crypto_verify : key → string → string → option bool) {pol : JobPolicy}
    (cfg : config) (w1 w2 : world) (claimed1 claimed2 : jsval)
    (a0 a1 a3 : agent) (o2 : result gate_error outcome_status)
    (j at_ stage name : string) (evs1 evs2 : list event) (ss : list gstep) :
  let handle := handleSignedJob createPublicKey crypto_verify cfg in
  let a2 := grun createPublicKey crypto_verify cfg a1 ss in
  handle w1 claimed1 a0 = (a1, Ok Crashed) →
  a_trace a1 = evs1 ++ a_trace a0 → SideEffect j at_ stage ∈ evs1 →
  SideEffect j at_ stage ∉ a_trace a0 →
  journalPathFor j at_ = Ok name → assoc_get name (a_journal a0) = None →
  Forall (step_spares createPublicKey crypto_verify cfg name j) (ss ++ [SHandle w2 claimed2]) →
  handle w2 claimed2 a2 = (a3, o2) → a_trace a3 = evs2 ++ a_trace a2 →
  ∀ n at' st, Executed n j ∉ evs2 ∧ SideEffect j at' st ∉ evs2.
Proof.
  cbv zeta. intros H1 Ht1 Hin Hout Hn Hfresh Hss H2 Ht2.
  destruct (journalPathFor_json _ _ _ Hn) as (Hjson & Hj & _ & _).
  apply Forall_app in Hss as [Hss Hlast]. apply Forall_cons in Hlast as [Hlast _].
  assert (marked name j (a_journal a1)) as Hm.
  { apply handle_cases in H1 as [[(evs' & Ht' & He & _) _]|(job & i & jobId & at' & n & c & Hg & Hx)].
    { rewrite Ht1 in Ht'. apply app_inv_tail in Ht' as <-. by destruct (He _ Hin) as (? & ? & _). }
    pose proof Hx as Hev. apply execute_events in Hev as (evs' & Ht' & He).
    cbn [a_trace set_cache set_mismatches] in Ht'. rewrite Ht1 in Ht'.
    change (?e :: a_trace a0) with ([e] ++ a_trace a0) in Ht'. rewrite app_assoc in Ht'.
    apply app_inv_tail in Ht' as ->. apply elem_of_app in Hin as [Hin|Hin];
      [|by apply list_elem_of_singleton in Hin].
    destruct (He _ Hin) as [[st [= <- <- <-]]|[? ?]]; [|done].
    unfold execute_and_report in Hx.
    set (b := emit _ _) in Hx.
    destruct (run_stages_first_mark name i j at_ (stages (w_exec w1)) b Hn Hfresh) as (fs & Hfs).
    - exists at_, stage. destruct (run_stages _ _ _ _ _) as [b' reached] eqn:Er.
      destruct reached, (ending (w_exec w1)); try (by injection Hx as _ Hx).
      injection Hx as <-. cbn [fst]. rewrite Ht1. split.
      + apply elem_of_app. left. apply elem_of_app. by left.
      + subst b. cbn. rewrite elem_of_cons. naive_solver.
    - destruct (run_stages _ _ _ _ _) as [b' reached] eqn:Er.
      destruct reached, (ending (w_exec w1)); try (by injection Hx as _ Hx).
      injection Hx as <-. by exists fs. }
  pose proof (grun_marked _ _ _ _ _ _ _ Hjson Hj Hss Hm) as Hm2.
  destruct (handle_marked _ _ _ _ _ _ _ _ _ _ Hjson Hj Hm2 Hlast H2) as [_ Hno].
  apply handle_cases in H2 as [[(evs' & Ht' & He & _) _]|(job & i & jobId & at' & n & c & Hg & Hx)].
  { rewrite Ht2 in Ht'. apply app_inv_tail in Ht' as <-. intros n at' st.
    split; intros Hin2; by destruct (He _ Hin2) as (? & ? & _). }
  assert (jobId ≠ j) as Hjj by (intros ->; by eapply Hno).
  apply execute_events in Hx as (evs' & Ht' & He).
  cbn [a_trace set_cache set_mismatches] in Ht'. rewrite Ht2 in Ht'.
  change (?e :: a_trace ?x) with ([e] ++ a_trace x) in Ht'. rewrite app_assoc in Ht'.
  apply app_inv_tail in Ht' as ->. intros n' at2 st.
  split; (intros [Hin2|Hin2]%elem_of_app;
    [destruct (He _ Hin2) as [[? ?]|[? ?]]; naive_solver
    |apply list_elem_of_singleton in Hin2; naive_solver]).
Qed.

(** * A concrete agent *)

Section demo.
Definition demo_v2 (job : jsval) : jsval :=
  let bytes := utf8_encode (text_of (serializeCanonical job)) in
  Obj [("envelopeVersion", Num (Fin 2)); ("payloadB64", Str (b64_encode bytes));
       ("signatureB64", Str (b64_encode (toy_sign bytes))); ("signingKeyId", Str "key-1")].
Definition timed_job (issued expires id nonce : string) : jsval :=
  Obj [("jobId", Str id); ("nonce", Str nonce); ("action", Str "noop");
       ("issuedAt", Str issued); ("expiresAt", Str expires); ("signingKeyId", Str "key-1")].
Definition gate_job : string → string → jsval :=
  timed_job "2026-01-01T00:00:00.000Z" "2026-01-01T00:10:00.000Z".
Definition later_job : string → string → jsval :=
  timed_job "2026-01-01T01:00:00.000Z" "2026-01-01T01:10:00.000Z".
Definition t0 : Z := 1767225600000.
Definition gate_policy : JobPolicy := policy_engine "/" (λ _, None) demo_policy [].
Definition gate_config : config :=
  mkConfig true (Some ("key-1", "pem")) "agent-1" false 30000 "/var/lib/agent/outbox".
Definition gate_agent : agent := mkAgent (mkCache 2 30000 [] Missing) [] (mkEstimator 5 []) 0 [].
Definition world_at (t : Z) (x : execution) : world :=
  mkWorld t t t Written Written (mkAttempt (Reply (Obj [("ok", Bool true)])) t t t) x true.
Definition exec_ok : execution := mkExecution [] (Returns "succeeded") false.
Definition exec_crash : execution := mkExecution [("keygen", true, "ts")] Dies false.
End demo.
Notation demo_handle :=
  (handleSignedJob (dp := iso_date_parse) (pol := gate_policy) toy_key toy_verify gate_config).
Definition unpinned_config : config := mkConfig true None "agent-1" false 30000 "/var/lib/agent/outbox".
Notation demo_unpinned :=
  (handleSignedJob (dp := iso_date_parse) (pol := gate_policy) toy_key toy_verify unpinned_config).
Notation demo_run :=
  (grun (dp := iso_date_parse) (pol := gate_policy) toy_key toy_verify gate_config).

Example demo_executes :
  a_trace (demo_handle (world_at (t0 + 1000) exec_ok) (demo_v2 (gate_job "job-1" "nonce-1")) gate_agent).1
  = [Reported (mkReport "job-1" ("local-job-1-" +:+ print_Z (t0 + 1000)) None (Some "nonce-1")
       "succeeded" None); Executed "nonce-1" "job-1"].
Proof. vm_compute. reflexivity. Qed.

Lemma execution_requires_every_gate_witness :
  ∃ job i m c, gates_passed (dp := iso_date_parse) (pol := gate_policy) toy_key toy_verify
    gate_config (world_at (t0 + 1000) exec_ok) (demo_v2 (gate_job "job-1" "nonce-1")) gate_agent
    job i "job-1" m c ∧ get "nonce" job = Str "nonce-1" ∧
  ∀ r, Reported r ∈ a_trace (demo_unpinned (world_at (t0 + 1000) exec_ok) (gate_job "job-1" "nonce-1") gate_agent).1 →
    r_status r = "blocked" ∧ r_jobId r = "job-1".
Proof.
  enough (∃ job i m c, (gates_passed (dp := iso_date_parse) (pol := gate_policy) toy_key toy_verify
    gate_config (world_at (t0 + 1000) exec_ok) (demo_v2 (gate_job "job-1" "nonce-1")) gate_agent
    job i "job-1" m c ∧ get "nonce" job = Str "nonce-1")) as (job & i & m & c & Hg & Hn).
  { exists job, i, m, c. split; [exact Hg|]. split; [exact Hn|]. intros r Hr.
    destruct (proj2 (proj2 (@execution_requires_every_gate iso_date_parse unit toy_key toy_verify gate_policy
      unpinned_config (world_at (t0 + 1000) exec_ok) (gate_job "job-1" "nonce-1") gate_agent
      _ _ _ (surjective_pairing _) (eq_sym (app_nil_r _)))) r Hr) as (Hs & _ & Hj & _). exact (conj Hs Hj). }
  refine (proj1 (@execution_requires_every_gate iso_date_parse unit toy_key toy_verify gate_policy
    gate_config (world_at (t0 + 1000) exec_ok) (demo_v2 (gate_job "job-1" "nonce-1")) gate_agent
    _ _ (a_trace (demo_handle (world_at (t0 + 1000) exec_ok)
           (demo_v2 (gate_job "job-1" "nonce-1")) gate_agent).1) (surjective_pairing _) _) _ _ _).
  - vm_compute. reflexivity.
  - vm_compute. right. left.
Defined.

(** A run in which the replay cache fills up and sweeps the first nonce. *)
Definition first_claim := demo_v2 (gate_job "job-1" "nonce-1").
Definition after_first : agent := (demo_handle (world_at (t0 + 1000) exec_ok) first_claim gate_agent).1.
Definition sweeping_steps : list gstep :=
  [SHandle (world_at (t0 + 2000) exec_ok) (demo_v2 (gate_job "job-2" "nonce-2"));
   SRestart (Fin 2);
   SHandle (world_at (t0 + 3660000) exec_ok) (demo_v2 (later_job "job-3" "nonce-3"))].
Example sweeping_forgets :
  assoc_has (cacheKey "nonce-1" "job-1")
    (entries (a_cache (demo_run after_first sweeping_steps))) = false.
Proof. vm_compute. reflexivity. Qed.

Lemma no_job_executes_twice_witness :
  Executed "nonce-1" "job-1" ∈ a_trace after_first ∧
  ∀ ev, ev ∈ [Reported (mkReport "job-1" ("local-job-1-" +:+ print_Z (t0 + 3661000)) None
                          (Some "nonce-1") "rejected" (Some "clock_drift_suspected"))] →
  ∃ r, ev = Reported r.
Proof.
  split; [vm_compute; right; left|].
  refine (@no_job_executes_twice iso_date_parse unit toy_key toy_verify gate_policy gate_config
    (world_at (t0 + 1000) exec_ok) (world_at (t0 + 3661000) exec_ok) first_claim first_claim
    (canon (gate_job "job-1" "nonce-1")) (canon (gate_job "job-1" "nonce-1")) gate_agent after_first
    _ _ _ (a_trace after_first) _ 0 0 sweeping_steps
    _ _ (surjective_pairing _) _ _ _ (surjective_pairing _) _ _ _ _ _ _).
  - split; constructor.
  - reflexivity.
  - vm_compute. reflexivity.
  - exists "nonce-1", "job-1". vm_compute. right. left.
  - vm_compute. repeat split; discriminate.
  - vm_compute. reflexivity.
  - vm_compute. reflexivity.
  - vm_compute. reflexivity.
  - reflexivity.
  - reflexivity.
  - reflexivity.
Defined.

(** The monotone clock is needed.  The sweep forgets an entry for good,
    but the offset-adjusted clock may go back (a restart resets the estimate,
    and the median may drop): here the same signed job executes twice. *)
Theorem clock_step_back_reexecutes :
  let a2 := demo_run after_first sweeping_steps in
  let a3 := (demo_handle (world_at (t0 + 5000) exec_ok) first_claim a2).1 in
  Executed "nonce-1" "job-1" ∈ a_trace after_first ∧
  Executed "nonce-1" "job-1" ∈ take 2 (a_trace a3) ∧
  length (a_trace a3) = (length (a_trace a2) + 2)%nat.
Proof. vm_compute. split; [|split]; [right; left|right; left|reflexivity]. Qed.

Lemma crashed_job_not_reexecuted_witness :
  SideEffect "job-1" "local-job-1-1767225601000" "keygen" ∈
    a_trace (demo_handle (world_at (t0 + 1000) exec_crash) first_claim gate_agent).1 ∧
  ∀ n at' st, Executed n "job-1" ∉ [Reported (mkReport "job-1" "local-job-1-1767225603000" None
                  (Some "nonce-9") "orphaned_unknown_effect" None)] ∧
    SideEffect "job-1" at' st ∉ [Reported (mkReport "job-1" "local-job-1-1767225603000" None
                  (Some "nonce-9") "orphaned_unknown_effect" None)].
Proof.
  split; [vm_compute; left|].
  refine (@crashed_job_not_reexecuted iso_date_parse unit toy_key toy_verify gate_policy gate_config
    (world_at (t0 + 1000) exec_crash) (world_at (t0 + 3000) exec_ok) first_claim
    (demo_v2 (gate_job "job-1" "nonce-9")) gate_agent
    (demo_handle (world_at (t0 + 1000) exec_crash) first_claim gate_agent).1 _ _
    "job-1" "local-job-1-1767225601000" "keygen" "job-1-local-job-1-1767225601000.json"
    [SideEffect "job-1" "local-job-1-1767225601000" "keygen"; Executed "nonce-1" "job-1"] _
    [SRestart (Fin 7)] _ _ _ _ _ _ _ (surjective_pairing _) _).
  - vm_compute. reflexivity.
  - vm_compute. reflexivity.
  - left.
  - vm_compute. intros H. inversion H.
  - vm_compute. reflexivity.
  - vm_compute. reflexivity.
  - constructor; [exact I|]. constructor; [|constructor].
    intros job m n Hv.
    assert (job = canon (gate_job "job-1" "nonce-9")) as ->.
    { refine (verified_job_deterministic (dp := iso_date_parse) toy_key toy_verify gate_config
        m 0 _ _ _ n 0 Hv _). vm_compute. reflexivity. }
    split; [intros _; split; reflexivity|].
    intros j' at_ Hj Hne. exfalso. apply Hne. vm_compute in Hj. congruence.
  - vm_compute. reflexivity.
Defined.
