(* ===== verification/JobSigning.v ===== *)
(** The control plane's job-signing service: apps/api/services/certops/jobSigning.js.

    The database is a record of tables; each SQL statement is a function on
    it, with the unique constraints of the schema (apps/api/migrations):
    signing_key_id, the single active key, (agent, key) of acknowledgements
    and (nonce, job) of the nonce ledger.  Operations run statement by
    statement, so an operation that throws returns the database as its
    earlier statements left it.  [now] is the database clock in milliseconds.

    Node's crypto (key generation, Ed25519, AES-256-GCM, random bytes) and the
    secret scanner of packages/log-scrub are parameters. *)
From S2P Require Import Prelude Dates Json Signing.
Open Scope Z_scope.

Inductive service_error :=
| ENCRYPTION_KEY_MISSING | SIGNING_KEY_UNAVAILABLE | SIGNING_PAYLOAD_INVALID
| SIGNING_PAYLOAD_TOO_LARGE | UniqueViolation | BadPrivateKeyPem
| InvalidTime.  (* RangeError of toISOString *)
#[global] Instance service_error_eq_dec : EqDecision service_error.
Proof. solve_decision. Defined.

Definition ENCRYPTION_VERSION : Z := 1.
Definition DEFAULT_NONCE_TTL_SECONDS : Z := 300.
Definition SWEEP_GRACE_SECONDS : Z := 3600.
Definition MAX_SIGNED_ADCS_BYTES : Z := 49152.
Definition is_nonce_char (c : ascii) : bool :=
  is_alnum c || (code c =? 95) || (code c =? 45).
Definition SERVER_NONCE_PATTERN : string → bool := matches_class is_nonce_char 16 128.
Definition is_hex (c : ascii) : bool :=
  is_digit c || in_range 97 102 c || in_range 65 70 c.
Definition ENV_KEY_PATTERN : string → bool := matches_class is_hex 64 64.

(** * Tables *)

Inductive key_status := active | retiring | retired.
#[global] Instance key_status_eq_dec : EqDecision key_status.
Proof. solve_decision. Defined.

Record key_row := mkKeyRow {
  signing_key_id : string;
  public_key_pem : string;
  private_key_encrypted : string;
  encryption_version : Z;
  status : key_status;
  supersedes_signing_key_id : option string;
  rotation_started_at : option Z;
  rotation_forced_at : option Z;
  created_at : Z;
  retired_at : option Z;
}.
Record ack_row := mkAck { ack_workspace : string; ack_agent : string; ack_key : string; acknowledged_at : Z }.
Record fleet_agent := mkFleetAgent { agent_row_id : string; agent_active : bool; diagnostic : bool }.
Record nonce_row := mkNonceRow {
  n_nonce : string; n_job : string; n_workspace : string;
  issued_to : option string; expires_at : Z; consumed_at : option Z;
}.
Record db := mkDb {
  keys : list key_row;
  acks : list ack_row;
  fleet : list fleet_agent;
  nonces : list nonce_row;
}.
Definition set_keys (ks : list key_row) (d : db) : db := mkDb ks (acks d) (fleet d) (nonces d).
Definition set_acks (l : list ack_row) (d : db) : db := mkDb (keys d) l (fleet d) (nonces d).
Definition set_nonces (l : list nonce_row) (d : db) : db := mkDb (keys d) (acks d) (fleet d) l.

Definition has_status (s : key_status) (k : key_row) : bool := bool_decide (status k = s).

Definition selectActiveKeyRow (d : db) : option key_row := List.find (has_status active) (keys d).

(** [ORDER BY rotation_started_at DESC NULLS LAST, created_at DESC]. *)
Definition sorts_before (a b : key_row) : bool :=
  match rotation_started_at a, rotation_started_at b with
  | Some x, Some y => (y <? x) || ((x =? y) && (created_at b <? created_at a))
  | Some _, None => true
  | None, Some _ => false
  | None, None => created_at b <? created_at a
  end.
Definition pick (best : option key_row) (k : key_row) : option key_row :=
  match best with
  | None => Some k
  | Some b => if sorts_before k b then Some k else Some b
  end.
Definition selectRetiringKeyRow (d : db) : option key_row :=
  fold_left pick (List.filter (has_status retiring) (keys d)) None.

Record public_info := mkPublicInfo { pi_signingKeyId : string; pi_publicKeyPem : string }.
Definition publicInfoFromRow (k : key_row) : public_info :=
  mkPublicInfo (signing_key_id k) (public_key_pem k).
Definition getActiveSigningKeyPublicInfo (d : db) : option public_info :=
  publicInfoFromRow <$> selectActiveKeyRow d.

(** A violation of the two unique constraints of the key table. *)
Definition key_conflict (ks : list key_row) (k : key_row) : bool :=
  existsb (λ x, bool_decide (signing_key_id x = signing_key_id k)) ks
  || (has_status active k && existsb (has_status active) ks).

(** * The encryption envelope *)

Definition getEncryptionKey (env_key : option string) : result service_error string :=
  match env_key with
  | Some raw => if ENV_KEY_PATTERN (trim raw) then Ok (trim raw) else Err ENCRYPTION_KEY_MISSING
  | None => Err ENCRYPTION_KEY_MISSING
  end.

Section service.
(** AES-256-GCM over hexadecimal text: key, iv and plaintext to ciphertext
    and tag; and back, failing on a wrong tag. *)
Context (aes_encrypt : string → string → string → string * string)
        (aes_decrypt : string → string → string → string → option string).
(** Ed25519: a private key object, and signing bytes. *)
Context {privkey : Type} (createPrivateKey : string → option privkey)
        (crypto_sign : privkey → string → string).
(** The scanner of private-key material. *)
Context (containsPrivateKeyMaterial : string → bool).

Definition encryptPrivateKeyPem (env_key : option string) (ivHex plaintextPem : string)
  : result service_error string :=
  k ← getEncryptionKey env_key;
  let '(encrypted, tag) := aes_encrypt k ivHex plaintextPem in
  Ok (ivHex +:+ ":" +:+ tag +:+ ":" +:+ encrypted).

Definition decryptPrivateKeyPem (env_key : option string) (ciphertext : string)
    (encryptionVersion : Z) : result service_error string :=
  _ ← ensure (encryptionVersion =? ENCRYPTION_VERSION) SIGNING_KEY_UNAVAILABLE;
  k ← getEncryptionKey env_key;
  match split_on ":" ciphertext with
  | [iv; tag; data] =>
      match aes_decrypt k iv tag data with
      | Some pem => Ok pem
      | None => Err SIGNING_KEY_UNAVAILABLE
      end
  | _ => Err SIGNING_KEY_UNAVAILABLE
  end.

(** * Key lifecycle *)

(** What key generation draws: the pair, the key id and the iv. *)
Record draw := mkDraw { d_public : string; d_private : string; d_keyId : string; d_iv : string }.

Definition ensureActiveSigningKey (env_key : option string) (x : draw) (now : Z) (d : db)
  : db * result service_error public_info :=
  match selectActiveKeyRow d with
  | Some k => (d, Ok (publicInfoFromRow k))
  | None =>
      match encryptPrivateKeyPem env_key (d_iv x) (d_private x) with
      | Err e => (d, Err e)
      | Ok enc =>
          let k := mkKeyRow (d_keyId x) (d_public x) enc ENCRYPTION_VERSION active
                     None None None now None in
          if key_conflict (keys d) k then
            (* ON CONFLICT DO NOTHING; the winner is re-selected *)
            (d, match selectActiveKeyRow d with
                | Some w => Ok (publicInfoFromRow w)
                | None => Err SIGNING_KEY_UNAVAILABLE
                end)
          else (set_keys (keys d ++ [k]) d, Ok (publicInfoFromRow k))
      end
  end.

Definition getActiveKeyWithPrivate (env_key : option string) (d : db)
  : result service_error (string * privkey) :=
  match selectActiveKeyRow d with
  | None => Err SIGNING_KEY_UNAVAILABLE
  | Some row =>
      pem ← decryptPrivateKeyPem env_key (private_key_encrypted row) (encryption_version row);
      match createPrivateKey pem with
      | Some k => Ok (signing_key_id row, k)
      | None => Err BadPrivateKeyPem
      end
  end.

Definition retire_active (now : Z) (kid : string) (k : key_row) : key_row :=
  if bool_decide (signing_key_id k = kid) && has_status active k then
    mkKeyRow (signing_key_id k) (public_key_pem k) (private_key_encrypted k)
      (encryption_version k) retiring (supersedes_signing_key_id k)
      (Some (default now (rotation_started_at k))) (rotation_forced_at k) (created_at k) (retired_at k)
  else k.

Definition beginSigningKeyRotation (env_key : option string) (x : draw) (now : Z) (d : db)
  : db * result service_error public_info :=
  match getEncryptionKey env_key with
  | Err e => (d, Err e)
  | Ok _ =>
      match selectActiveKeyRow d with
      | None => ensureActiveSigningKey env_key x now d
      | Some current =>
          match selectRetiringKeyRow d with
          | Some _ => (d, Err SIGNING_KEY_UNAVAILABLE)
          | None =>
              match encryptPrivateKeyPem env_key (d_iv x) (d_private x) with
              | Err e => (d, Err e)
              | Ok enc =>
                  let ks := map (retire_active now (signing_key_id current)) (keys d) in
                  let k := mkKeyRow (d_keyId x) (d_public x) enc ENCRYPTION_VERSION active
                             (Some (signing_key_id current)) (Some now) None now None in
                  if key_conflict ks k then (set_keys ks d, Err UniqueViolation)
                  else (set_keys (ks ++ [k]) d, Ok (publicInfoFromRow k))
              end
          end
      end
  end.

Record notice := mkNotice {
  pendingSigningKeyId : string; pendingPublicKeyPem : string;
  nt_supersedes : option string }.
(** [selectActiveKeyRow] does not select supersedes_signing_key_id, so
    [active.supersedes_signing_key_id] is [undefined] here. *)
Definition selected_supersedes (k : key_row) : option string := None.
Definition getSigningKeyRotationNotice (pinned : option string) (d : db) : option notice :=
  match selectActiveKeyRow d with
  | None => None
  | Some act =>
      if (match pinned with
          | Some p => nonempty p && bool_decide (p = signing_key_id act)
          | None => false
          end) then None else
      match selectRetiringKeyRow d, selected_supersedes act with
      | None, None => None
      | ret, sup =>
          Some (mkNotice (signing_key_id act) (public_key_pem act)
                  (match sup with Some s => Some s | None => signing_key_id <$> ret end))
      end
  end.

Definition acknowledgeSigningKey (signingKeyId agentRowId workspaceId : string) (now : Z) (d : db)
  : db * bool :=
  let kid := trim signingKeyId in
  if negb (nonempty kid && SIGNING_KEY_ID_PATTERN kid) then (d, false) else
  if negb (nonempty agentRowId && nonempty workspaceId) then (d, false) else
  let same a := bool_decide (ack_agent a = agentRowId) && bool_decide (ack_key a = kid) in
  if existsb same (acks d) then
    (set_acks (map (λ a, if same a then mkAck (ack_workspace a) (ack_agent a) (ack_key a) now else a)
                 (acks d)) d, true)
  else (set_acks (acks d ++ [mkAck workspaceId agentRowId kid now]) d, true).

(** [COUNT( * )] of the active production fleet. *)
Definition active_agents (d : db) : Z :=
  Z.of_nat (length (List.filter (λ a, agent_active a && negb (diagnostic a)) (fleet d))).
(** [COUNT(DISTINCT agent_id)] of the key's acknowledgements. *)
Definition ack_count (kid : string) (d : db) : Z :=
  Z.of_nat (length (remove_dups (map ack_agent
    (List.filter (λ a, bool_decide (ack_key a = kid)) (acks d))))).
Definition fully_acked (kid : string) (d : db) : bool :=
  (active_agents d =? 0) || (active_agents d <=? ack_count kid d).

Inductive completion :=
| NoRetiringKey
| FleetIncomplete
| Completed (forced : bool) (retiredKey activeKey : string).
Definition retire_retiring (now : Z) (force : bool) (kid : string) (k : key_row) : key_row :=
  if bool_decide (signing_key_id k = kid) && has_status retiring k then
    mkKeyRow (signing_key_id k) (public_key_pem k) (private_key_encrypted k)
      (encryption_version k) retired (supersedes_signing_key_id k) (rotation_started_at k)
      (if force then Some now else rotation_forced_at k) (created_at k) (Some now)
  else k.
Definition completeSigningKeyRotation (force : bool) (now : Z) (d : db)
  : db * result service_error completion :=
  match selectRetiringKeyRow d with
  | None => (d, Ok NoRetiringKey)
  | Some ret =>
      match selectActiveKeyRow d with
      | None => (d, Err SIGNING_KEY_UNAVAILABLE)
      | Some act =>
          let fullyAcked := fully_acked (signing_key_id act) d in
          if negb fullyAcked && negb force then (d, Ok FleetIncomplete) else
          (set_keys (map (retire_retiring now force (signing_key_id ret)) (keys d)) d,
           Ok (Completed (force && negb fullyAcked) (signing_key_id ret) (signing_key_id act)))
      end
  end.

Record rotation_status := mkRotationStatus {
  rs_active : option public_info; rs_retiring : option string;
  rs_activeAgents : Z; rs_ackCount : Z; rs_fullyAcked : bool }.
Definition getSigningKeyRotationStatus (d : db) : rotation_status :=
  let act := selectActiveKeyRow d in
  let '(n, m) := match act with
                 | Some k => (active_agents d, ack_count (signing_key_id k) d)
                 | None => (0, 0)
                 end in
  mkRotationStatus (publicInfoFromRow <$> act) (signing_key_id <$> selectRetiringKeyRow d)
    n m ((n =? 0) || (n <=? m)).

(** * Dispatch signing *)

Definition base64url (bytes : string) : string :=
  drop_end is_eq (smap (λ c, if code c =? 43 then "-"%char else if code c =? 47 then "_"%char else c)
                    (b64_encode bytes)).
(** [rnd] are the successive draws of 24 random bytes; at most 16 are used. *)
Fixpoint generateNonce (attempts : nat) (rnd : list string) : result service_error string :=
  match attempts, rnd with
  | S attempts, bytes :: rnd =>
      let nonce := base64url bytes in
      if containsPrivateKeyMaterial nonce then generateNonce attempts rnd else Ok nonce
  | _, _ => Err SIGNING_PAYLOAD_INVALID
  end.

Definition buildV2Envelope (payloadBytes signingKeyId : string) (k : privkey) : jsval :=
  Obj [("envelopeVersion", Num (Fin ENVELOPE_VERSION_2));
       ("payloadB64", Str (b64_encode payloadBytes));
       ("signatureB64", Str (b64_encode (crypto_sign k payloadBytes)));
       ("signingKeyId", Str signingKeyId)].

Definition signed_key (k : string) : Prop := k ≠ "signature"%string.
#[local] Instance signed_key_dec k : Decision (signed_key k).
Proof. unfold signed_key. apply _. Defined.
Definition without_signature (fs : list (string * jsval)) : list (string * jsval) :=
  filter (λ kv, signed_key kv.1) fs.
(** The job with the dispatch fields, without a signature. *)
Definition dispatch_fields (fs : list (string * jsval)) (nonce issuedAt expiresAt kid : string)
  : list (string * jsval) :=
  without_signature
    (assoc_set "signingKeyId" (Str kid)
      (assoc_set "expiresAt" (Str expiresAt)
        (assoc_set "issuedAt" (Str issuedAt)
          (assoc_set "nonce" (Str nonce) fs)))).

Definition is_str_of (s : string) (v : jsval) : bool :=
  match v with Str t => bool_decide (t = s) | _ => false end.
Definition nonce_conflict (l : list nonce_row) (nonce job : string) : bool :=
  existsb (λ r, bool_decide (n_nonce r = nonce) && bool_decide (n_job r = job)) l.

Definition signJobForDispatch (env_key : option string) (rnd : list string) (nowMs : Z)
    (job : jsval) (agentId : option string) (workspaceId : string)
    (nonceTtlSeconds : jsnum) (envelopeVersion : Z) (d : db)
  : db * result service_error jsval :=
  match job, get "jobId" job, nonceTtlSeconds with
  | Obj fs, Str jobId, Fin ttl =>
      if negb (nonempty jobId) || negb (nonempty workspaceId) || negb (0 <? ttl)
         || negb ((envelopeVersion =? ENVELOPE_VERSION_1) || (envelopeVersion =? ENVELOPE_VERSION_2))
      then (d, Err SIGNING_PAYLOAD_INVALID) else
      match getActiveKeyWithPrivate env_key d with
      | Err e => (d, Err e)
      | Ok (kid, k) =>
          match generateNonce 16 rnd with
          | Err e => (d, Err e)
          | Ok nonce =>
              let issuedAt := toISOString nowMs in
              let expiresAt := toISOString (nowMs + ttl * 1000) in
              let signedJob := dispatch_fields fs nonce issuedAt expiresAt kid in
              if negb (valid_time nowMs && valid_time (nowMs + ttl * 1000)) then (d, Err InvalidTime) else
              if nonce_conflict (nonces d) nonce jobId then (d, Err UniqueViolation) else
              let d := set_nonces (nonces d ++
                         [mkNonceRow nonce jobId workspaceId agentId (nowMs + ttl * 1000) None]) d in
              match canonicalizeJobPayload (Obj signedJob) with
              | Err _ => (d, Err SIGNING_PAYLOAD_INVALID)
              | Ok canonical =>
                  let bytes := utf8_encode canonical in
                  if (is_str_of "adcs" (get "issuerKind" (Obj signedJob))
                      || is_str_of "adcs-preflight" (get "action" (Obj signedJob)))
                     && (MAX_SIGNED_ADCS_BYTES <? slen bytes)
                  then (d, Err SIGNING_PAYLOAD_TOO_LARGE) else
                  if envelopeVersion =? ENVELOPE_VERSION_2 then
                    (d, Ok (buildV2Envelope bytes kid k))
                  else
                    (d, Ok (Obj (signedJob ++ [("signature", Str (b64_encode (crypto_sign k bytes)))])))
              end
          end
      end
  | _, _, _ => (d, Err SIGNING_PAYLOAD_INVALID)
  end.
End service.

(** * The nonce ledger *)

Definition REPLAYED : string := "CERTOPS_NONCE_REPLAYED".
Definition UNKNOWN_OR_EXPIRED : string := "CERTOPS_NONCE_UNKNOWN_OR_EXPIRED".

(** [$k IS NULL OR column = $k], and with a nullable column. *)
Definition matches_opt (q : option string) (v : string) : bool :=
  match q with None => true | Some s => bool_decide (s = v) end.
Definition matches_issued (q : option string) (v : option string) : bool :=
  match q, v with
  | None, _ | _, None => true
  | Some a, Some b => bool_decide (a = b)
  end.
Definition is_unconsumed (r : nonce_row) : bool :=
  match consumed_at r with None => true | Some _ => false end.
(** The binding of a ledger row. *)
Definition bound_row (nonce jobId : string) (workspaceId agentRowId : option string) (r : nonce_row) : bool :=
  bool_decide (n_nonce r = nonce) && bool_decide (n_job r = jobId)
  && matches_opt workspaceId (n_workspace r) && matches_issued agentRowId (issued_to r).
Definition consumable (now : Z) (nonce jobId : string) (workspaceId agentRowId : option string)
    (r : nonce_row) : bool :=
  bound_row nonce jobId workspaceId agentRowId r && is_unconsumed r && (now <? expires_at r).

Inductive consume_result := Consumed | NotConsumed (code : string).
#[global] Instance consume_result_eq_dec : EqDecision consume_result.
Proof. solve_decision. Defined.

Definition mark_consumed (now : Z) (r : nonce_row) : nonce_row :=
  mkNonceRow (n_nonce r) (n_job r) (n_workspace r) (issued_to r) (expires_at r) (Some now).
Definition consumeNonce (now : Z) (nonce : jsval) (jobId : string)
    (workspaceId agentRowId : option string) (d : db) : db * consume_result :=
  match nonce with
  | Str n =>
      if negb (SERVER_NONCE_PATTERN n) then (d, NotConsumed UNKNOWN_OR_EXPIRED) else
      let hit := consumable now n jobId workspaceId agentRowId in
      if existsb hit (nonces d) then
        (set_nonces (map (λ r, if hit r then mark_consumed now r else r) (nonces d)) d, Consumed)
      else
        match List.find (bound_row n jobId workspaceId agentRowId) (nonces d) with
        | Some r => (d, NotConsumed (if is_unconsumed r then UNKNOWN_OR_EXPIRED else REPLAYED))
        | None => (d, NotConsumed UNKNOWN_OR_EXPIRED)
        end
  | _ => (d, NotConsumed UNKNOWN_OR_EXPIRED)
  end.

(** Returns the new expiry, if any row was extended. *)
Definition extendJobNonceExpiry (now : Z) (jobId workspaceId : string) (agentRowId : option string)
    (nonceTtlSeconds : jsnum) (d : db) : db * option Z :=
  match nonceTtlSeconds with
  | Fin ttl =>
      if bool_decide (jobId = EmptyString) || negb (0 <? ttl) then (d, None) else
      let hit r := bool_decide (n_job r = jobId) && bool_decide (n_workspace r = workspaceId)
                   && is_unconsumed r && matches_issued agentRowId (issued_to r) in
      let e := now + ttl * 1000 in
      (set_nonces (map (λ r, if hit r then
          mkNonceRow (n_nonce r) (n_job r) (n_workspace r) (issued_to r) e (consumed_at r) else r)
          (nonces d)) d,
       if existsb hit (nonces d) then Some e else None)
  | _ => (d, None)
  end.

(** Deletes at most [n] rows satisfying [p]; which ones is the database's
    choice, here the first. *)
Fixpoint delete_up_to (n : nat) (p : nonce_row → bool) (l : list nonce_row) : list nonce_row :=
  match l, n with
  | r :: l, S n' => if p r then delete_up_to n' p l else r :: delete_up_to n p l
  | _, _ => l
  end.
Definition sweepable (now : Z) (r : nonce_row) : bool :=
  expires_at r <? now - SWEEP_GRACE_SECONDS * 1000.
(** Returns the number of deleted rows; a batch size that is not an integer is
    the default. *)
Definition sweepExpiredNonces (now : Z) (batchSize : jsnum) (d : db) : db * Z :=
  let n := match batchSize with Fin b => Z.to_nat (Z.max 1 b) | _ => 1000%nat end in
  let l := delete_up_to n (sweepable now) (nonces d) in
  (set_nonces l d, Z.of_nat (length (nonces d)) - Z.of_nat (length l)).

(** * Base64 of signatures and nonces *)

Lemma is_b64_char n : 0 <= n < 64 → is_b64 (b64_char n) = true.
Proof. apply (forall_sextet (λ n, is_b64 (b64_char n))). reflexivity. Qed.

Lemma b64_shape s :
  let e := b64_encode s in let p := drop_end is_eq e in
  sforall is_b64 p = true ∧ slen e - slen p <= 2 ∧ slen e = 4 * ((slen s + 2) / 3) ∧
  (slen s mod 3 = 0 → p = e).
Proof.
  cbv zeta. unfold slen. induction s as [|a|a b|a b c s IH] using string_ind3; [done|..].
  - pose proof (code_range a). cbn [b64_encode].
    rewrite !drop_end_cons by (apply b64_char_not_eq; sextet).
    change (drop_end is_eq "==") with EmptyString. cbn [sforall].
    rewrite !is_b64_char by sextet. cbn [andb String.length].
    split; [done|]. split; [cbn; lia|]. split; [reflexivity|done].
  - pose proof (code_range a). pose proof (code_range b). cbn [b64_encode].
    rewrite !drop_end_cons by (apply b64_char_not_eq; sextet).
    change (drop_end is_eq "=") with EmptyString. cbn [sforall].
    rewrite !is_b64_char by sextet. cbn [andb String.length].
    split; [done|]. split; [cbn; lia|]. split; [reflexivity|done].
  - pose proof (code_range a). pose proof (code_range b). pose proof (code_range c).
    cbn [b64_encode]. rewrite !drop_end_cons by (apply b64_char_not_eq; sextet).
    cbn [sforall]. rewrite !is_b64_char by sextet. cbn [andb String.length].
    destruct IH as (IH1 & IH2 & IH3 & IH4).
    rewrite !Nat2Z.inj_succ in *. split; [done|]. split; [lia|]. split.
    + rewrite IH3. set (n := Z.of_nat (String.length s)).
      replace (Z.succ (Z.succ (Z.succ n)) + 2) with (n + 2 + 1 * 3) by lia.
      rewrite Z.div_add by lia. lia.
    + intros Hm. rewrite IH4; [done|]. rewrite <- Hm.
      set (n := Z.of_nat (String.length s)).
      replace (Z.succ (Z.succ (Z.succ n))) with (n + 1 * 3) by lia.
      by rewrite Z.mod_add.
Qed.
Lemma b64_pattern s : V2_BASE64_PATTERN (b64_encode s) = true.
Proof.
  destruct (b64_shape s) as (H1 & H2 & _). unfold V2_BASE64_PATTERN. cbv zeta. rewrite H1.
  by apply Z.leb_le.
Qed.

Lemma drop_end_all p s : sforall (λ c, negb (p c)) s = true → drop_end p s = s.
Proof.
  induction s as [|c s IH]; cbn; [done|]. intros [Hc Hs]%andb_prop. rewrite (IH Hs).
  destruct s; [|done]. by destruct (p c).
Qed.
Definition url_char (c : ascii) : ascii :=
  if code c =? 43 then "-"%char else if code c =? 47 then "_"%char else c.
Lemma url_char_ok c : is_b64 c = true → is_nonce_char (url_char c) = true ∧ is_eq (url_char c) = false.
Proof.
  unfold is_b64, url_char. intros H.
  destruct (code c =? 43) eqn:E1; [done|]. destruct (code c =? 47) eqn:E2; [done|].
  rewrite !orb_false_r in H. unfold is_nonce_char. rewrite H. split; [done|].
  unfold is_eq. apply Z.eqb_neq. unfold is_alnum, is_digit, is_upper_az, is_lower_az, in_range in H.
  apply orb_prop in H as [H|H]; [apply orb_prop in H as [H|H]|];
    apply andb_prop in H as [H1 H2]; split_bool; lia.
Qed.
Lemma smap_length f s : String.length (smap f s) = String.length s.
Proof. induction s as [|c s IH]; cbn; [done|by rewrite IH]. Qed.
Lemma sforall_smap p q f s :
  (∀ c, q c = true → p (f c) = true) → sforall q s = true → sforall p (smap f s) = true.
Proof.
  intros Hpq. induction s as [|c s IH]; cbn; [done|]. intros [Hc Hs]%andb_prop.
  by rewrite (Hpq _ Hc), IH.
Qed.

(** A nonce of 24 random bytes: 32 characters both sides' patterns accept. *)
Lemma base64url_nonce bytes :
  slen bytes = 24 → SERVER_NONCE_PATTERN (base64url bytes) = true ∧ NONCE_PATTERN (base64url bytes) = true.
Proof.
  intros Hl. destruct (b64_shape bytes) as (H1 & _ & H3 & H4). cbv zeta in *.
  rewrite Hl in *. rewrite (H4 eq_refl) in H1. unfold base64url. fold url_char.
  assert (drop_end is_eq (smap url_char (b64_encode bytes)) = smap url_char (b64_encode bytes)) as ->.
  { apply drop_end_all. eapply sforall_smap, H1. intros c Hc. by rewrite (proj2 (url_char_ok c Hc)). }
  assert (sforall is_nonce_char (smap url_char (b64_encode bytes)) = true) as Hc.
  { eapply sforall_smap, H1. intros c Hc. by apply url_char_ok. }
  assert (slen (smap url_char (b64_encode bytes)) = 32) as Hs
    by (unfold slen in *; by rewrite smap_length, H3).
  unfold SERVER_NONCE_PATTERN, NONCE_PATTERN, matches_class. rewrite Hs, Hc. split; [done|].
  rewrite (sforall_impl is_nonce_char is_ident_char); [done| |done].
  intros c Hcc. unfold is_nonce_char, is_ident_char in *.
  destruct (is_alnum c), (code c =? 95), (code c =? 45); try done.
  by rewrite !orb_true_r.
Qed.

(** * What a dispatched job carries *)

Lemma assoc_set_wf k v (fs : list (string * jsval)) :
  wf v → wf (Obj fs) → wf (Obj (assoc_set k v fs)).
Proof.
  rewrite !wf_obj. intros Hv [Hnd Hw]. split; [by apply assoc_set_keys|].
  induction Hw as [|[k' v'] fs Hx Hw IH]; cbn; [by repeat constructor|].
  apply NoDup_cons in Hnd as [_ Hnd].
  case_decide; constructor; try done. by apply IH.
Qed.
Lemma filter_wf fs : wf (Obj fs) → wf (Obj (without_signature fs)).
Proof.
  rewrite !wf_obj. intros [Hnd Hw]. split; [by apply (NoDup_fst_filter signed_key)|].
  rewrite Forall_forall in *. intros kv [_ Hin]%list_elem_of_filter. by apply Hw.
Qed.
Lemma dispatch_wf fs n i e kid : wf (Obj fs) → wf (Obj (dispatch_fields fs n i e kid)).
Proof. intros H. unfold dispatch_fields. apply filter_wf. by repeat apply assoc_set_wf. Qed.

Lemma get_dispatch fs n i e kid k :
  assoc_get k (dispatch_fields fs n i e kid) =
  if decide (k = "signature") then None else
  if decide (k = "signingKeyId") then Some (Str kid) else
  if decide (k = "expiresAt") then Some (Str e) else
  if decide (k = "issuedAt") then Some (Str i) else
  if decide (k = "nonce") then Some (Str n) else assoc_get k fs.
Proof.
  unfold dispatch_fields, without_signature. rewrite (assoc_get_filter signed_key).
  unfold signed_key. destruct (decide (k = "signature")) as [->|Hs];
    [by rewrite decide_False by (intros H; by apply H)|].
  rewrite decide_True by done.
  repeat (case_decide; [subst; by rewrite assoc_get_set_eq|rewrite assoc_get_set_ne by done]).
  done.
Qed.
(** The fields the dispatch overrides, and the one the canonical text drops. *)
Definition dispatch_key (k : string) : Prop :=
  k ∈ ["nonce"; "issuedAt"; "expiresAt"; "signingKeyId"; "signature"; "__proto__"].

Lemma get_canon k fs : NoDup fs.*1 → get k (canon (Obj fs)) = canon (get k (Obj fs)).
Proof.
  intros Hnd. cbn [canon get].
  assert (assoc_get k (sort_keys (map_vals canon fs)) = assoc_get k (map_vals canon fs)) as ->.
  { apply assoc_get_perm; [|by rewrite map_vals_fst|apply sort_keys_perm].
    rewrite sort_keys_fst_perm. by rewrite map_vals_fst. }
  rewrite assoc_get_map_vals. by destruct (assoc_get k fs).
Qed.

Lemma serialize_brace fs t : serializeCanonical (Obj fs) = Ok t → ∃ u, t = String "{" u.
Proof. cbn [serializeCanonical]. intros (es & _ & [= <-])%bind_ok. by eexists. Qed.

(** One signing key pair, as the control plane and the agent hold it. *)
Record key_pair {privkey pubkey : Type} (crypto_sign : privkey → string → string)
    (createPublicKey : string → option pubkey)
    (crypto_verify : pubkey → string → string → option bool)
    (k : privkey) (pem : string) : Prop := {
  kp_verifies : ∃ pub, createPublicKey pem = Some pub ∧
    ∀ b, crypto_verify pub b (crypto_sign k b) = Some true;
  kp_length : ∀ b, slen (crypto_sign k b) = V2_SIGNATURE_DECODED_BYTES;
  kp_pem : nonempty pem = true;
}.

Section agent_side.
Context {dp : DateParse} {privkey pubkey : Type} (crypto_sign : privkey → string → string)
  (createPublicKey : string → option pubkey)
  (crypto_verify : pubkey → string → string → option bool)
  (k : privkey) (pem kid : string).
Hypothesis (Hpair : key_pair crypto_sign createPublicKey crypto_verify k pem)
           (Hkid : SIGNING_KEY_ID_PATTERN kid = true).
Notation verify := (verifyJobEnvelope createPublicKey crypto_verify).

Lemma kid_nonempty : nonempty kid = true.
Proof.
  pose proof Hkid as H. unfold SIGNING_KEY_ID_PATTERN, matches_class in H.
  destruct kid; [by rewrite andb_false_r in H|done].
Qed.
Lemma is_str_eq_refl s : is_str_eq s (Str s) = true.
Proof. unfold is_str_eq. cbn. by apply bool_decide_eq_true_2. Qed.

(** The v2 verification of a freshly built envelope, up to its size. *)
Lemma verify_built_v2 fs canonical :
  wf (Obj fs) → assoc_get "signingKeyId" fs = Some (Str kid) →
  canonicalizeJobPayload (Obj fs) = Ok canonical →
  verify (buildV2Envelope crypto_sign (utf8_encode canonical) kid k) pem kid =
  Ok (if slen (utf8_encode canonical) <=? V2_MAX_DECODED_PAYLOAD_BYTES
      then Ok (canon (Obj (covered fs))) else Err JOB_INTEGRITY_FAILED).
Proof.
  intros Hwf%covered_wf Hget [_ Hcan]%canonicalize_ok.
  rewrite <- (assoc_get_covered "signingKeyId" fs) in Hget by done. revert Hwf Hget Hcan.
  generalize (covered fs). clear fs. intros fs Hwf Hget Hcan. destruct Hpair as [(pub & Hpub & Hver) Hlen Hpem].
  set (bytes := utf8_encode canonical).
  destruct (serialize_brace _ _ Hcan) as [u Hu].
  assert (∃ u', bytes = String "{" u') as [u' Hb] by (subst bytes canonical; by eexists).
  unfold verifyJobEnvelope, buildV2Envelope. cbn [isPlainObject andb].
  change (get "envelopeVersion" _) with (Num (Fin ENVELOPE_VERSION_2)).
  change (is_version ENVELOPE_VERSION_2 (Num (Fin ENVELOPE_VERSION_2))) with true. cbv iota.
  unfold verifyV2Envelope. rewrite Hpem, kid_nonempty. cbn [ensure mbind result_bind].
  unfold decodeV2Envelope.
  change (get "payloadB64" _) with (Str (b64_encode bytes)).
  change (get "signatureB64" _) with (Str (b64_encode (crypto_sign k bytes))).
  change (get "signingKeyId" _) with (Str kid) at 1 2. cbn [isPlainObject negb str_matches str_or_empty].
  rewrite Hkid, is_str_eq_refl. cbn [negb].
  destruct (b64_shape bytes) as (_ & _ & Hl & _).
  assert (nonempty (b64_encode bytes) = true) as ->.
  { unfold nonempty. destruct (b64_encode bytes) eqn:E; [|done].
    pose proof (b64_decode_encode bytes) as Hd. rewrite E, Hb in Hd. done. }
  assert (nonempty (b64_encode (crypto_sign k bytes)) = true) as ->.
  { unfold nonempty. destruct (b64_encode (crypto_sign k bytes)) eqn:E; [|done].
    pose proof (b64_decode_encode (crypto_sign k bytes)) as Hd. rewrite E in Hd.
    pose proof (Hlen bytes) as Hx. rewrite <- Hd in Hx. done. }
  rewrite !b64_pattern. cbn [andb negb]. rewrite andb_true_r.
  assert (decodeCanonicalBase64 (b64_encode bytes) = Some bytes) as -> by (by apply decodeCanonicalBase64_Some).
  assert (decodeCanonicalBase64 (b64_encode (crypto_sign k bytes)) = Some (crypto_sign k bytes)) as ->
    by (by apply decodeCanonicalBase64_Some).
  cbn [mbind option_bind]. rewrite Hlen, Z.eqb_refl. cbn [negb].
  rewrite (Z.leb_antisym _ (slen bytes)). unfold V2_MAX_ENCODED_PAYLOAD_CHARS, V2_MAX_DECODED_PAYLOAD_BYTES.
  destruct (49152 <? slen bytes) eqn:Es; cbn [negb].
  { by destruct (slen (b64_encode bytes) <=? 98304). }
  split_bool. rewrite (proj2 (Z.leb_le _ _)).
  2: { rewrite Hl. pose proof (Z.div_mod (slen bytes + 2) 3 ltac:(lia)).
       pose proof (Z.mod_pos_bound (slen bytes + 2) 3 ltac:(lia)). lia. }
  cbn [negb]. rewrite Hpub, Hver. unfold readV2Payload.
  assert (startsWith UTF8_BOM_BYTES bytes = false) as -> by (by rewrite Hb).
  subst bytes. rewrite utf8_decode_encode. cbn [mbind option_bind].
  pose proof (strict_obj fs canonical EmptyString Hwf Hcan) as Hp.
  rewrite sapp_nil_r, decide_True in Hp by done. rewrite Hp.
  assert (get "signingKeyId" (canon (Obj fs)) = Str kid) as Hg.
  { apply wf_obj in Hwf as [Hnd _]. rewrite get_canon by done. cbn [get]. by rewrite Hget. }
  rewrite Hg. cbn [isPlainObject canon negb str_matches]. by rewrite Hkid, is_str_eq_refl.
Qed.

(** The v1 verification of a freshly signed job. *)
Lemma verify_built_v1 fs canonical nonce i e :
  canonicalizeJobPayload (Obj fs) = Ok canonical →
  assoc_get "signature" fs = None → assoc_get "signingKeyId" fs = Some (Str kid) →
  assoc_get "nonce" fs = Some (Str nonce) → NONCE_PATTERN nonce = true →
  assoc_get "issuedAt" fs = Some (Str i) → assoc_get "expiresAt" fs = Some (Str e) →
  date_ok (Str i) = true → date_ok (Str e) = true →
  assoc_get "envelopeVersion" fs = None →
  let wire := Obj (fs ++ [("signature", Str (b64_encode (crypto_sign k (utf8_encode canonical))))]) in
  verify wire pem kid = Ok (Ok wire).
Proof.
  intros Hcan Hsig Hk Hn Hnp Hi He Hid Hed Hver0 wire.
  destruct Hpair as [(pub & Hpub & Hver) Hlen Hpem].
  assert (∀ key, key ≠ "signature" → get key wire = get key (Obj fs)) as Hget.
  { intros key Hne. cbn. f_equal. clear - Hne. induction fs as [|[k' v] l IH]; cbn.
    - by rewrite decide_False.
    - case_decide; [done|]. apply IH. }
  assert (get "signature" wire = Str (b64_encode (crypto_sign k (utf8_encode canonical)))) as Hs.
  { cbn. clear - Hsig. induction fs as [|[k' v] l IH]; cbn in *; [done|].
    case_decide; [done|]. by apply IH. }
  unfold verifyJobEnvelope.
  assert (get "envelopeVersion" wire = Undef) as -> by (rewrite Hget by done; cbn; by rewrite Hver0).
  cbn [isPlainObject is_version andb negb].
  unfold verifyJobSignature. rewrite Hpem, kid_nonempty. cbn [ensure mbind result_bind].
  set (sig := b64_encode _) in *.
  destruct (b64_shape (crypto_sign k (utf8_encode canonical))) as (_ & Hd & Hl & _). fold sig in Hd, Hl.
  rewrite Hlen in Hl. change (4 * _) with 88 in Hl.
  assert (findSignedFieldProblem wire = false) as ->.
  { unfold findSignedFieldProblem. rewrite Hs, !Hget by done. cbn [get]. rewrite Hk, Hn, Hi, He.
    cbn [default]. unfold id. cbn [str_matches]. rewrite Hkid, Hnp.
    change (isPlainObject wire) with true. cbn [negb orb]. rewrite Hid, Hed. cbn [negb]. rewrite !orb_false_r. apply negb_false_iff.
    unfold signature_ok, BASE64_PATTERN. rewrite Hl. unfold sig. rewrite b64_pattern. fold sig.
    cbn [andb]. apply andb_true_intro. split; [done|]. apply Z.leb_le. lia. }
  rewrite Hget by done. cbn [get]. rewrite Hk. cbn [default]. unfold id.
  rewrite is_str_eq_refl. cbn [negb]. rewrite Hpub.
  assert (canonicalizeJobPayload wire = Ok canonical) as ->.
  { unfold canonicalizeJobPayload in *. rewrite Hget by done. unfold wire, covered in *.
    rewrite filter_app, filter_cons, decide_False by (unfold covered_key; cbn; tauto).
    cbn [filter list_filter]. by rewrite app_nil_r. }
  rewrite Hs. cbn [str_or_empty]. unfold sig. rewrite b64_decode_encode, Hver. done.
Qed.
End agent_side.

Section dispatch_lemmas.
Context {dp : DateParse} {privkey pubkey : Type}
  (aes_decrypt : string → string → string → string → option string)
  (createPrivateKey : string → option privkey) (crypto_sign : privkey → string → string)
  (containsPrivateKeyMaterial : string → bool)
  (createPublicKey : string → option pubkey)
  (crypto_verify : pubkey → string → string → option bool).
Notation sign := (signJobForDispatch aes_decrypt createPrivateKey crypto_sign containsPrivateKeyMaterial).

Lemma generateNonce_draw n rnd nonce :
  generateNonce containsPrivateKeyMaterial n rnd = Ok nonce →
  containsPrivateKeyMaterial nonce = false ∧ ∃ bytes, bytes ∈ rnd ∧ nonce = base64url bytes.
Proof.
  revert rnd. induction n as [|n IH]; intros [|b rnd]; cbn; try done.
  destruct (containsPrivateKeyMaterial (base64url b)) eqn:E.
  - intros H. destruct (IH _ H) as (? & b' & Hin & ->). split; [done|].
    exists b'. split; [by right|done].
  - intros [= <-]. split; [done|]. exists b. split; [by left|done].
Qed.

(** What a successful dispatch did. *)
Lemma sign_cases env_key rnd nowMs fs agentId ws ttl v d d' wire :
  sign env_key rnd nowMs (Obj fs) agentId ws (Fin ttl) v d = (d', Ok wire) →
  ∃ jobId kid k nonce canonical,
    assoc_get "jobId" fs = Some (Str jobId) ∧ 0 < ttl ∧
    getActiveKeyWithPrivate aes_decrypt createPrivateKey env_key d = Ok (kid, k) ∧
    generateNonce containsPrivateKeyMaterial 16 rnd = Ok nonce ∧
    valid_time nowMs = true ∧ valid_time (nowMs + ttl * 1000) = true ∧
    nonce_conflict (nonces d) nonce jobId = false ∧
    d' = set_nonces (nonces d ++ [mkNonceRow nonce jobId ws agentId (nowMs + ttl * 1000) None]) d ∧
    let signed := dispatch_fields fs nonce (toISOString nowMs) (toISOString (nowMs + ttl * 1000)) kid in
    canonicalizeJobPayload (Obj signed) = Ok canonical ∧
    ((v = ENVELOPE_VERSION_2 ∧ wire = buildV2Envelope crypto_sign (utf8_encode canonical) kid k) ∨
     (v = ENVELOPE_VERSION_1 ∧
      wire = Obj (signed ++ [("signature", Str (b64_encode (crypto_sign k (utf8_encode canonical))))]))).
Proof.
  unfold signJobForDispatch. cbn [get].
  destruct (assoc_get "jobId" fs) as [v0|] eqn:Hj; cbn [default]; [|done].
  unfold id. destruct v0 as [| | | |jobId| |]; try done.
  destruct (negb (nonempty jobId) || _ || _ || _) eqn:E; [done|]. split_bool.
  destruct (getActiveKeyWithPrivate _ _ _ _) as [[kid k]|] eqn:Hk; [|done].
  destruct (generateNonce _ _ _) as [nonce|] eqn:Hn; [|done]. cbv zeta.
  destruct (valid_time nowMs && _) eqn:Ht; cbn [negb]; [|done].
  destruct (nonce_conflict _ _ _) eqn:Hc; [done|].
  destruct (canonicalizeJobPayload _) as [canonical|] eqn:Hcan; [|done].
  destruct ((is_str_of _ _ || is_str_of _ _) && _); [done|]. apply andb_prop in Ht as [Ht1 Ht2].
  intros Hres. exists jobId, kid, k, nonce, canonical.
  destruct (v =? ENVELOPE_VERSION_2) eqn:Ev; split_bool; injection Hres as <- <-.
  - repeat (split; [done|]). by left.
  - repeat (split; [done|]). right. split; [|done].
    match goal with H : (v =? _) || _ = true |- _ => apply orb_prop in H as [H|H] end;
      split_bool; congruence.
Qed.
End dispatch_lemmas.

(** The agent's view of a dispatched wire object. *)
Lemma verify_dispatched {dp : DateParse} {privkey pubkey : Type} (crypto_sign : privkey → string → string)
    (createPublicKey : string → option pubkey) (crypto_verify : pubkey → string → string → option bool)
    fs nonce nowMs te kid (k : privkey) pem canonical v wire :
  let signed := dispatch_fields fs nonce (toISOString nowMs) (toISOString te) kid in
  key_pair crypto_sign createPublicKey crypto_verify k pem →
  SIGNING_KEY_ID_PATTERN kid = true → wf (Obj signed) → NONCE_PATTERN nonce = true →
  valid_time nowMs = true → valid_time te = true → assoc_get "envelopeVersion" fs = None →
  canonicalizeJobPayload (Obj signed) = Ok canonical →
  ((v = ENVELOPE_VERSION_2 ∧ wire = buildV2Envelope crypto_sign (utf8_encode canonical) kid k) ∨
   (v = ENVELOPE_VERSION_1 ∧
    wire = Obj (signed ++ [("signature", Str (b64_encode (crypto_sign k (utf8_encode canonical))))]))) →
  slen (b64_decode (str_or_empty (get "payloadB64" wire))) <= V2_MAX_DECODED_PAYLOAD_BYTES →
  ∃ job, verifyJobEnvelope createPublicKey crypto_verify wire pem kid = Ok (Ok job) ∧
    isPlainObject job = true ∧
    ((∀ key, key ≠ "signature" → get key job = get key (Obj signed)) ∨
     (∀ key, covered_key key → get key job = canon (get key (Obj signed)))).
Proof.
  cbv zeta. set (signed := dispatch_fields _ _ _ _ _).
  intros Hpair Hkid Hwfs Hpat Hv1 Hv2 Henv Hcan [[-> ->]|[-> ->]] Hsize.
  - exists (canon (Obj (covered signed))). split; [|split; [done|]].
    + rewrite (verify_built_v2 _ _ _ k pem kid Hpair Hkid signed canonical Hwfs);
        [|by unfold signed; rewrite get_dispatch|done].
      change (get "payloadB64" _) with (Str (b64_encode (utf8_encode canonical))) in Hsize.
      cbn [str_or_empty] in Hsize. rewrite b64_decode_encode in Hsize.
      by rewrite (proj2 (Z.leb_le _ _)).
    + right. intros key Hkey. apply covered_wf, wf_obj in Hwfs as [? _].
      rewrite get_canon by done. cbn [get]. by rewrite assoc_get_covered.
  - eexists. split; [|split; [|left]].
    + eapply verify_built_v1; try done; unfold signed; try (by rewrite get_dispatch).
      * apply date_ok_spec. do 2 eexists. split; [done|]. by apply date_parse_toISOString.
      * apply date_ok_spec. do 2 eexists. split; [done|]. by apply date_parse_toISOString.
    + done.
    + intros key Hne. cbn. f_equal. clear - Hne. induction signed as [|[k' v] l IH]; cbn.
      * by rewrite decide_False.
      * case_decide; [done|]. apply IH.
Qed.


(** A concrete service: one active key, a toy signature of 64 bytes. *)
Definition toy_row (id : string) (s : key_status) (sup : option string) : key_row :=
  mkKeyRow id ("pub-" +:+ id) "iv:tag:pem" 1 s sup None None 0 None.
Definition toy_decrypt (key iv tag data : string) : option string := Some data.
Definition toy_private (pem : string) : option unit := Some tt.
Definition toy_env : option string := Some (pad 64 0).
Definition toy_db : db := mkDb [toy_row "key-1" active None] [] [] [].
Definition toy_random : string := pad 24 0.
Definition toy_job : list (string * jsval) :=
  [("jobId", Str "job-1"); ("action", Str "noop"); ("signature", Str "old")].
Notation toy_sign_job := (signJobForDispatch toy_decrypt toy_private (λ _, toy_sign) (λ _, false)).

Lemma pad_length w n : Z.of_nat (String.length (pad w n)) = Z.of_nat w.
Proof.
  revert n. induction w as [|w IH]; intros n; [done|]. cbn [pad].
  rewrite slength_app, Nat2Z.inj_add, IH. cbn. lia.
Qed.
Lemma toy_pair : key_pair (λ _ : unit, toy_sign) toy_key toy_verify tt "pem".
Proof.
  split.
  - exists tt. split; [done|]. intros b. unfold toy_verify. by rewrite bool_decide_eq_true_2.
  - intros b. unfold toy_sign, slen. by rewrite pad_length.
  - done.
Qed.


(** The sizes of the two sides differ.  Outside AD CS jobs the control
    plane signs v2 payloads of any length, but every one above 49152 bytes is
    rejected by the agent it is dispatched to. *)
Theorem oversized_v2_dispatch_rejected {dp : DateParse} {privkey pubkey : Type}
    (aes_decrypt : string → string → string → string → option string)
    (createPrivateKey : string → option privkey) (crypto_sign : privkey → string → string)
    (containsPrivateKeyMaterial : string → bool)
    (createPublicKey : string → option pubkey)
    (crypto_verify : pubkey → string → string → option bool)
    (env_key : option string) (rnd : list string) (nowMs ttl : Z)
    (fs : list (string * jsval)) (agentId : option string) (ws kid pem : string) (k : privkey)
    (d d' : db) (wire : jsval) :
  getActiveKeyWithPrivate aes_decrypt createPrivateKey env_key d = Ok (kid, k) →
  key_pair crypto_sign createPublicKey crypto_verify k pem →
  SIGNING_KEY_ID_PATTERN kid = true → wf (Obj fs) →
  signJobForDispatch aes_decrypt createPrivateKey crypto_sign containsPrivateKeyMaterial
    env_key rnd nowMs (Obj fs) agentId ws (Fin ttl) ENVELOPE_VERSION_2 d = (d', Ok wire) →
  V2_MAX_DECODED_PAYLOAD_BYTES < slen (b64_decode (str_or_empty (get "payloadB64" wire))) →
  verifyJobEnvelope createPublicKey crypto_verify wire pem kid = Ok (Err JOB_INTEGRITY_FAILED).
Proof.
  intros Hkey Hpair Hkid Hwf Hsign Hsize.
  destruct (sign_cases _ _ _ _ _ _ _ _ _ _ _ _ _ _ _ Hsign)
    as (jobId & kid' & k' & nonce & canonical & _ & _ & Hk' & _ & _ & _ & _ & _ & Hcan & Hw).
  rewrite Hkey in Hk'. injection Hk' as <- <-. cbv zeta in Hcan, Hw.
  set (signed := dispatch_fields _ _ _ _ _) in *.
  destruct Hw as [[_ ->]|[? _]]; [|done].
  rewrite (verify_built_v2 _ _ _ k pem kid Hpair Hkid signed canonical);
    [|by apply dispatch_wf|by unfold signed; rewrite get_dispatch|done].
  change (get "payloadB64" _) with (Str (b64_encode (utf8_encode canonical))) in Hsize.
  cbn [str_or_empty] in Hsize. rewrite b64_decode_encode in Hsize.
  by rewrite (proj2 (Z.leb_gt _ _)).
Qed.
Lemma oversized_v2_dispatch_rejected_witness :
  let r := toy_sign_job toy_env [toy_random] 1767225600000
             (Obj [("jobId", Str "job-1"); ("note", Str (Nat.iter 1600 (String.append (pad 31 0)) EmptyString))])
             None "ws" (Fin 300) 2 toy_db in
  ∃ wire, r.2 = Ok wire ∧
    verifyJobEnvelope (dp := iso_date_parse) toy_key toy_verify wire "pem" "key-1"
      = Ok (Err JOB_INTEGRITY_FAILED).
Proof.
  cbv zeta.
  set (big := [("jobId", Str "job-1"); ("note", Str (Nat.iter 1600 (String.append (pad 31 0)) EmptyString))]).
  set (r := toy_sign_job toy_env [toy_random] 1767225600000 (Obj big) None "ws" (Fin 300) 2 toy_db).
  assert (match r.2 with
          | Ok wire => V2_MAX_DECODED_PAYLOAD_BYTES <? slen (b64_decode (str_or_empty (get "payloadB64" wire)))
          | Err _ => false end = true) as Hr by (vm_compute; reflexivity).
  destruct r as [d' [wire|e]] eqn:Er; cbn [snd] in Hr |- *; [|done].
  exists wire. split; [done|].
  apply (@oversized_v2_dispatch_rejected iso_date_parse unit unit toy_decrypt toy_private
    (λ _, toy_sign) (λ _, false) toy_key toy_verify toy_env [toy_random] 1767225600000 300 big None
    "ws" "key-1" "pem" tt toy_db d' wire).
  - reflexivity.
  - apply toy_pair.
  - reflexivity.
  - apply wf_obj. split; [apply (bool_decide_unpack _); vm_compute; exact I|repeat constructor].
  - exact Er.
  - apply Z.ltb_lt. exact Hr.
Defined.

(** * The ledger: single use *)

Inductive ledger_op :=
| LIssue (r : nonce_row)                     (* the INSERT of a dispatch *)
| LConsume (now : Z) (nonce jobId : string) (workspaceId agentRowId : option string)
| LExtend (now : Z) (jobId workspaceId : string) (agentRowId : option string) (ttl : jsnum)
| LSweep (now : Z) (batchSize : jsnum).
(** The database after the operation, and whether it was a consume of
    (nonce, job) that succeeded. *)
Definition ledger_step (d : db) (o : ledger_op) : db * option (string * string) :=
  match o with
  | LIssue r => (if nonce_conflict (nonces d) (n_nonce r) (n_job r) then d
                 else set_nonces (nonces d ++ [r]) d, None)
  | LConsume now n j ws ag =>
      match consumeNonce now (Str n) j ws ag d with
      | (d', Consumed) => (d', Some (n, j))
      | (d', _) => (d', None)
      end
  | LExtend now j ws ag ttl => ((extendJobNonceExpiry now j ws ag ttl d).1, None)
  | LSweep now b => ((sweepExpiredNonces now b d).1, None)
  end.
Fixpoint ledger_run (d : db) (os : list ledger_op) : db * list (string * string) :=
  match os with
  | [] => (d, [])
  | o :: os =>
      let '(d, c) := ledger_step d o in
      let '(d, cs) := ledger_run d os in
      (d, match c with Some x => x :: cs | None => cs end)
  end.

(** No row of (nonce, job) is open: there is none, or it is consumed. *)
Definition spent_nonce (n j : string) (d : db) : Prop :=
  Forall (λ r, n_nonce r = n → n_job r = j → consumed_at r ≠ None) (nonces d).
Definition not_issue (n j : string) (o : ledger_op) : Prop :=
  match o with LIssue r => ¬ (n_nonce r = n ∧ n_job r = j) | _ => True end.

Lemma elem_of_map {A B} (f : A → B) l y : y ∈ map f l → ∃ x, y = f x ∧ x ∈ l.
Proof. intros (x & -> & Hin)%list_elem_of_fmap. eauto. Qed.
Lemma elem_of_map' {A B} (f : A → B) l y : y ∈ map f l ↔ ∃ x, y = f x ∧ x ∈ l.
Proof. apply list_elem_of_fmap. Qed.
Lemma delete_up_to_sub k p l r : r ∈ delete_up_to k p l → r ∈ l.
Proof.
  revert k. induction l as [|x l IH]; intros [|k]; cbn; try done.
  destruct (p x); [intros ?%IH; by right|]. intros [->|?%IH]%elem_of_cons; [left|by right].
Qed.

Lemma consume_code now n j ws ag d :
  (consumeNonce now (Str n) j ws ag d).2 = Consumed →
  SERVER_NONCE_PATTERN n = true ∧ existsb (consumable now n j ws ag) (nonces d) = true ∧
  (consumeNonce now (Str n) j ws ag d).1 = set_nonces
    (map (λ r, if consumable now n j ws ag r then mark_consumed now r else r) (nonces d)) d.
Proof.
  unfold consumeNonce. destruct (SERVER_NONCE_PATTERN n); cbn [negb]; [|done].
  destruct (existsb _ _); [done|]. by destruct (List.find _ _).
Qed.

Lemma nonce_spent_step n j d o :
  not_issue n j o → spent_nonce n j d →
  spent_nonce n j (ledger_step d o).1 ∧ (ledger_step d o).2 ≠ Some (n, j).
Proof.
  unfold spent_nonce. intros Hni Hs. rewrite Forall_forall in Hs.
  destruct o as [r|now n' j' ws ag|now j' ws ag ttl|now b]; cbn [ledger_step].
  - split; [|done]. case_match; [by apply Forall_forall|]. cbn. apply Forall_app.
    split; [by apply Forall_forall|]. constructor; [|done]. intros. by destruct Hni.
  - destruct (consumeNonce _ _ _ _ _ _) as [d' [|code]] eqn:Hc.
    + pose proof (consume_code now n' j' ws ag d) as H. rewrite Hc in H. cbn [fst snd] in *.
      destruct (H eq_refl) as (_ & Hex & ->). split.
      * apply Forall_forall. intros r' (r & -> & Hin)%elem_of_map.
        case_match; [done|]. by apply Hs.
      * intros [= -> ->]. apply existsb_exists in Hex as (r & Hin & Hr).
        unfold consumable, bound_row in Hr. repeat (apply andb_prop in Hr as [Hr ?]). split_bool.
        apply list_elem_of_In in Hin. eapply Hs; try done. unfold is_unconsumed in *.
        by destruct (consumed_at r).
    + split; [|done]. cbn. unfold consumeNonce in Hc.
      destruct (negb _); [injection Hc as <- _; by apply Forall_forall|].
      destruct (existsb _ _); [done|].
      destruct (List.find _ _); injection Hc as <- _; by apply Forall_forall.
  - split; [|done]. unfold extendJobNonceExpiry.
    destruct ttl; try by apply Forall_forall.
    destruct (_ || _); [by apply Forall_forall|]. cbn. apply Forall_forall.
    intros r' (r & -> & Hin)%elem_of_map.
    case_match; cbn; by apply Hs.
  - split; [|done]. cbn. apply Forall_forall. intros r Hin. apply Hs.
    by eapply delete_up_to_sub.
Qed.

Lemma spent_run_none n j d os :
  Forall (not_issue n j) os → spent_nonce n j d → (n, j) ∉ (ledger_run d os).2.
Proof.
  intros Hos. revert d. induction Hos as [|o os Ho Hos IH]; intros d Hs; cbn; [apply not_elem_of_nil|].
  destruct (nonce_spent_step n j d o Ho Hs) as [Hs' Hne].
  destruct (ledger_step d o) as [d1 c]. cbn in *. specialize (IH d1 Hs').
  destruct (ledger_run d1 os) as [d2 cs]. cbn in *.
  destruct c as [x|]; [|done]. rewrite elem_of_cons. intros [E|?]; [by subst x|done].
Qed.

(** A dispatch nonce is consumed at most once.  After a successful
    consume, no sequence of consumes by any agent or workspace, lease
    extensions, sweeps and other dispatches makes a second consume of the
    same nonce and job succeed, as long as that very pair is not dispatched
    anew. *)
Theorem nonce_consumed_once (d : db) (now : Z) (n j : string) (ws ag : option string)
    (os : list ledger_op) :
  Forall (not_issue n j) os →
  Forall (λ r1, Forall (λ r2, n_nonce r1 = n_nonce r2 → n_job r1 = n_job r2 → r1 = r2) (nonces d))
    (nonces d) →
  (consumeNonce now (Str n) j ws ag d).2 = Consumed →
  (n, j) ∉ (ledger_run (consumeNonce now (Str n) j ws ag d).1 os).2.
Proof.
  intros Hos Hpk Hc. apply spent_run_none; [done|].
  destruct (consume_code now n j ws ag d Hc) as (_ & Hex & ->).
  apply existsb_exists in Hex as (r0 & Hin0 & Hr0). apply list_elem_of_In in Hin0.
  unfold spent_nonce. apply Forall_forall. cbn. intros r' (r & -> & Hin)%elem_of_map Hn Hj.
  destruct (consumable now n j ws ag r) eqn:Hr; [done|].
  assert (r = r0) as ->; [|congruence].
  rewrite Forall_forall in Hpk. specialize (Hpk r Hin). rewrite Forall_forall in Hpk.
  unfold consumable, bound_row in Hr0. repeat (apply andb_prop in Hr0 as [Hr0 ?]). split_bool.
  apply Hpk; congruence.
Qed.
Definition toy_nonce : string := base64url toy_random.
Definition ledger_db : db :=
  set_nonces [mkNonceRow toy_nonce "job-1" "ws" (Some "agent-1") 1000 None] toy_db.
Lemma nonce_consumed_once_witness :
  (toy_nonce, "job-1") ∉
    (ledger_run (consumeNonce 500 (Str toy_nonce) "job-1" (Some "ws") (Some "agent-1") ledger_db).1
       [LConsume 600 toy_nonce "job-1" None None; LExtend 700 "job-1" "ws" None (Fin 900);
        LConsume 800 toy_nonce "job-1" (Some "ws") (Some "agent-1"); LSweep 9000000 (Fin 10);
        LConsume 9000001 toy_nonce "job-1" None None]).2.
Proof.
  apply nonce_consumed_once.
  - repeat constructor.
  - repeat constructor.
  - reflexivity.
Defined.

(** The binding of a consume.  It succeeds exactly when the nonce is
    well formed and the ledger holds an unconsumed, unexpired row of this
    nonce and job, in the given workspace, issued to the given agent (or to
    nobody); and a refusal says "replayed" only of a consumed row under the
    same binding. *)
Theorem consumeNonce_spec (now : Z) (n j : string) (ws ag : option string) (d : db) :
  let r := (consumeNonce now (Str n) j ws ag d).2 in
  (r = Consumed ↔ SERVER_NONCE_PATTERN n = true ∧
     ∃ x, x ∈ nonces d ∧ n_nonce x = n ∧ n_job x = j ∧ consumed_at x = None ∧ now < expires_at x ∧
       (∀ w, ws = Some w → n_workspace x = w) ∧
       (∀ a b, ag = Some a → issued_to x = Some b → a = b)) ∧
  (r = NotConsumed REPLAYED → ∃ x, x ∈ nonces d ∧ n_nonce x = n ∧ n_job x = j ∧
     consumed_at x ≠ None ∧ (∀ w, ws = Some w → n_workspace x = w) ∧
     (∀ a b, ag = Some a → issued_to x = Some b → a = b)) ∧
  (r ≠ Consumed → (consumeNonce now (Str n) j ws ag d).1 = d).
Proof.
  cbv zeta.
  assert (∀ x, bound_row n j ws ag x = true ↔ n_nonce x = n ∧ n_job x = j ∧
    (∀ w, ws = Some w → n_workspace x = w) ∧
    (∀ a b, ag = Some a → issued_to x = Some b → a = b)) as Hb.
  { intros x. unfold bound_row, matches_opt, matches_issued.
    rewrite !andb_true_iff, !bool_decide_eq_true.
    assert ((match ws with None => true | Some s => bool_decide (s = n_workspace x) end) = true ↔
      ∀ w, ws = Some w → n_workspace x = w) as ->.
    { destruct ws; [rewrite bool_decide_eq_true|]; naive_solver. }
    assert ((match ag, issued_to x with None, _ | _, None => true
             | Some a, Some b => bool_decide (a = b) end) = true ↔
      ∀ a b, ag = Some a → issued_to x = Some b → a = b) as ->.
    { destruct ag, (issued_to x); try rewrite bool_decide_eq_true; naive_solver. }
    tauto. }
  assert (existsb (consumable now n j ws ag) (nonces d) = true ↔
    ∃ x, x ∈ nonces d ∧ n_nonce x = n ∧ n_job x = j ∧ consumed_at x = None ∧ now < expires_at x ∧
       (∀ w, ws = Some w → n_workspace x = w) ∧
       (∀ a b, ag = Some a → issued_to x = Some b → a = b)) as Hex.
  { rewrite existsb_exists. setoid_rewrite <- list_elem_of_In. apply exist_proper. intros x.
    unfold consumable. rewrite !andb_true_iff, Hb, Z.ltb_lt. unfold is_unconsumed.
    destruct (consumed_at x); naive_solver. }
  unfold consumeNonce. destruct (SERVER_NONCE_PATTERN n); cbn [negb]; [|naive_solver].
  destruct (existsb _ _) eqn:E.
  - split; [|split; [done|done]]. split; [|done]. intros _. split; [done|]. by apply Hex.
  - assert (∀ P : Prop, (false = true ↔ P) → ¬ P) as Hf by naive_solver.
    apply Hf in Hex. destruct (List.find _ _) as [x|] eqn:Ef; cbn [fst snd].
    + apply find_some in Ef as [Hin Hx]. apply list_elem_of_In in Hin. apply Hb in Hx.
      split; [naive_solver|]. split; [|done]. unfold is_unconsumed.
      destruct (consumed_at x) eqn:Ec; [|done]. intros _. exists x. rewrite Ec. naive_solver.
    + split; [naive_solver|]. done.
Qed.

(** * Key rotation *)

Definition count_status (s : key_status) (d : db) : nat := length (List.filter (has_status s) (keys d)).
(** The schema's constraints, and that at most one key is retiring. *)
Definition key_inv (d : db) : Prop :=
  NoDup (map signing_key_id (keys d)) ∧ (count_status active d <= 1)%nat ∧
  (count_status retiring d <= 1)%nat.

Lemma has_status_true s k : has_status s k = true ↔ status k = s.
Proof. apply bool_decide_eq_true. Qed.

Lemma selectActive_spec d k :
  selectActiveKeyRow d = Some k → k ∈ keys d ∧ status k = active.
Proof.
  intros [Hin Hk]%find_some. apply list_elem_of_In in Hin. by apply has_status_true in Hk.
Qed.
Lemma selectActive_none d : selectActiveKeyRow d = None → count_status active d = 0%nat.
Proof.
  unfold selectActiveKeyRow, count_status. intros H.
  destruct (List.filter _ _) as [|k l] eqn:E; [done|].
  assert (In k (List.filter (has_status active) (keys d))) as [Hin Hk]%filter_In by (rewrite E; by left).
  pose proof (find_none _ _ H k Hin). congruence.
Qed.
Lemma fold_pick_some l b : ∃ k, fold_left pick l (Some b) = Some k ∧ (k = b ∨ k ∈ l).
Proof.
  revert b. induction l as [|x l IH]; intros b; cbn; [eauto|].
  destruct (sorts_before x b); destruct (IH x) as (k & Hk & ?), (IH b) as (k' & Hk' & ?);
    [exists k|exists k']; (split; [done|]); rewrite elem_of_cons; naive_solver.
Qed.
Lemma selectRetiring_none d : selectRetiringKeyRow d = None → count_status retiring d = 0%nat.
Proof.
  unfold selectRetiringKeyRow, count_status. destruct (List.filter _ _) as [|k l]; [done|].
  cbn. destruct (fold_pick_some l k) as (x & -> & _). done.
Qed.
Lemma selectRetiring_spec d k :
  selectRetiringKeyRow d = Some k → k ∈ keys d ∧ status k = retiring.
Proof.
  unfold selectRetiringKeyRow.
  assert (∀ x, x ∈ List.filter (has_status retiring) (keys d) → x ∈ keys d ∧ status x = retiring) as H.
  { intros x Hx. apply list_elem_of_In, filter_In in Hx as [Hin Hs].
    apply list_elem_of_In in Hin. by apply has_status_true in Hs. }
  destruct (List.filter _ _) as [|x l]; [done|]. cbn.
  destruct (fold_pick_some l x) as (y & -> & [->|Hy]); intros [= <-]; apply H; [by left|by right].
Qed.

Section rotation_counts.
Context (f : key_row → key_row) (from to : key_status) (hit : key_row → bool).
Hypothesis (Hid : ∀ k, signing_key_id (f k) = signing_key_id k)
  (Hhit : ∀ k, hit k = true → status k = from ∧ status (f k) = to)
  (Hmiss : ∀ k, hit k = false → f k = k) (Hne : from ≠ to).

Lemma map_ids l : map signing_key_id (map f l) = map signing_key_id l.
Proof. rewrite map_map. apply map_ext. exact Hid. Qed.
Lemma count_to l : length (List.filter (has_status to) (map f l)) =
  (length (List.filter (has_status to) l) + length (List.filter hit l))%nat.
Proof.
  induction l as [|k l IH]; [done|]. cbn. destruct (hit k) eqn:E.
  - destruct (Hhit k E) as [H1 H2].
    rewrite (proj2 (has_status_true to (f k)) H2).
    assert (has_status to k = false) as -> by (apply bool_decide_eq_false_2; congruence).
    cbn. lia.
  - rewrite (Hmiss k E). destruct (has_status to k); cbn; lia.
Qed.
Lemma count_from l : (length (List.filter (has_status from) (map f l)) + length (List.filter hit l))%nat
  = length (List.filter (has_status from) l).
Proof.
  induction l as [|k l IH]; [done|]. cbn. destruct (hit k) eqn:E.
  - destruct (Hhit k E) as [H1 H2]. rewrite (proj2 (has_status_true from k) H1).
    assert (has_status from (f k) = false) as -> by (apply bool_decide_eq_false_2; congruence).
    cbn. lia.
  - rewrite (Hmiss k E). destruct (has_status from k); cbn; lia.
Qed.
Lemma count_other s l : s ≠ from → s ≠ to →
  length (List.filter (has_status s) (map f l)) = length (List.filter (has_status s) l).
Proof.
  intros H1 H2. induction l as [|k l IH]; [done|]. cbn. destruct (hit k) eqn:E.
  - destruct (Hhit k E) as [H3 H4].
    assert (has_status s (f k) = false ∧ has_status s k = false) as [-> ->]
      by (split; apply bool_decide_eq_false_2; congruence). done.
  - rewrite (Hmiss k E). destruct (has_status s k); cbn; lia.
Qed.
Lemma hit_le l : (length (List.filter hit l) <= length (List.filter (has_status from) l))%nat.
Proof. pose proof (count_from l). lia. Qed.
Lemma hit_in l k : k ∈ l → hit k = true → (1 <= length (List.filter hit l))%nat.
Proof.
  intros Hin Hk. assert (In k (List.filter hit l)) as H
    by (apply filter_In; split; [by apply list_elem_of_In|done]).
  destruct (List.filter hit l); [done|cbn; lia].
Qed.
End rotation_counts.

Lemma key_inv_append ks d k :
  key_conflict ks k = false → NoDup (map signing_key_id ks) → status k = active →
  (length (List.filter (has_status retiring) ks) <= 1)%nat →
  key_inv (set_keys (ks ++ [k]) d).
Proof.
  intros Hc Hnd Hk Hr. unfold key_conflict in Hc. apply orb_false_elim in Hc as [Hc1 Hc2].
  rewrite (proj2 (has_status_true active k) Hk) in Hc2. cbn in Hc2.
  assert (∀ p, existsb p ks = false → ∀ x, x ∈ ks → p x = false) as Hex.
  { intros p Hp x Hin. apply not_true_is_false. intros Hpx.
    apply not_true_iff_false in Hp. apply Hp, existsb_exists. exists x.
    split; [by apply list_elem_of_In|done]. }
  unfold key_inv, count_status. cbn. rewrite map_app, !List.filter_app, !length_app. cbn.
  rewrite (proj2 (has_status_true active k) Hk).
  assert (has_status retiring k = false) as -> by (apply bool_decide_eq_false_2; congruence).
  assert (List.filter (has_status active) ks = []) as ->.
  { destruct (List.filter (has_status active) ks) as [|x l] eqn:E; [done|].
    assert (In x (List.filter (has_status active) ks)) as [Hin Hx]%filter_In by (rewrite E; by left).
    apply list_elem_of_In in Hin. by rewrite (Hex _ Hc2 x Hin) in Hx. }
  cbn. split; [|lia]. apply NoDup_app. split; [done|]. split; [|apply NoDup_singleton].
  intros x (y & -> & Hy)%elem_of_map Hx%list_elem_of_singleton.
  pose proof (Hex _ Hc1 y Hy) as Hb. cbn in Hb. by apply bool_decide_eq_false in Hb.
Qed.

Section rotation_inv.
Context (aes_encrypt : string → string → string → string * string).

Lemma ensure_inv env_key x now d :
  key_inv d → key_inv (ensureActiveSigningKey aes_encrypt env_key x now d).1.
Proof.
  intros Hinv. unfold ensureActiveSigningKey.
  destruct (selectActiveKeyRow d); [done|]. destruct (encryptPrivateKeyPem _ _ _ _); [|done].
  destruct (key_conflict _ _) eqn:E; [done|]. destruct Hinv as (H1 & H2 & H3).
  by apply key_inv_append.
Qed.

Lemma begin_inv env_key x now d :
  key_inv d → key_inv (beginSigningKeyRotation aes_encrypt env_key x now d).1.
Proof.
  intros Hinv. unfold beginSigningKeyRotation.
  destruct (getEncryptionKey env_key); [|done].
  destruct (selectActiveKeyRow d) as [cur|] eqn:Ea; [|by apply ensure_inv].
  destruct (selectRetiringKeyRow d) eqn:Er; [done|].
  destruct (encryptPrivateKeyPem _ _ _ _); [|done].
  apply selectActive_spec in Ea as [Hin Hact]. apply selectRetiring_none in Er.
  unfold count_status in Er. destruct Hinv as (H1 & H2 & H3).
  set (f := retire_active now (signing_key_id cur)).
  set (hit := λ k, bool_decide (signing_key_id k = signing_key_id cur) && has_status active k).
  assert (∀ k, signing_key_id (f k) = signing_key_id k) as Hid
    by (intros k; unfold f, retire_active; by destruct (_ && _)).
  assert (∀ k, hit k = true → status k = active ∧ status (f k) = retiring) as Hhit.
  { intros k Hk. unfold hit in Hk. unfold f, retire_active. rewrite Hk.
    apply andb_prop in Hk as [_ Hk]. by apply has_status_true in Hk. }
  assert (∀ k, hit k = false → f k = k) as Hmiss
    by (intros k Hk; unfold hit in Hk; unfold f, retire_active; by rewrite Hk).
  pose proof (count_to f active retiring hit Hhit Hmiss ltac:(done) (keys d)) as Ct.
  pose proof (hit_le f active retiring hit Hhit Hmiss ltac:(done) (keys d)) as Hle.
  unfold count_status in H2, H3.
  cbv zeta. destruct (key_conflict _ _) eqn:Ec; cbn [fst].
  - split; [cbn; by rewrite map_ids|]. unfold count_status. cbn.
    pose proof (count_from f active retiring hit Hhit Hmiss ltac:(done) (keys d)). lia.
  - apply key_inv_append; [done|by rewrite map_ids|done|]. lia.
Qed.

Lemma complete_inv force now d :
  key_inv d → key_inv (completeSigningKeyRotation force now d).1.
Proof.
  intros Hinv. unfold completeSigningKeyRotation.
  destruct (selectRetiringKeyRow d) as [ret|]; [|done].
  destruct (selectActiveKeyRow d) as [act|]; [|done]. cbv zeta.
  destruct (_ && _); [done|]. cbn [fst]. destruct Hinv as (H1 & H2 & H3).
  unfold key_inv, count_status in *. cbn.
  set (f := retire_retiring now force (signing_key_id ret)).
  set (hit := λ k, bool_decide (signing_key_id k = signing_key_id ret) && has_status retiring k).
  assert (∀ k, signing_key_id (f k) = signing_key_id k) as Hid
    by (intros k; unfold f, retire_retiring; by destruct (_ && _)).
  assert (∀ k, hit k = true → status k = retiring ∧ status (f k) = retired) as Hhit.
  { intros k Hk. unfold hit in Hk. unfold f, retire_retiring. rewrite Hk.
    apply andb_prop in Hk as [_ Hk]. by apply has_status_true in Hk. }
  assert (∀ k, hit k = false → f k = k) as Hmiss
    by (intros k Hk; unfold hit in Hk; unfold f, retire_retiring; by rewrite Hk).
  pose proof (count_from f retiring retired hit Hhit Hmiss ltac:(done) (keys d)) as Cf.
  rewrite (map_ids f Hid).
  rewrite (count_other f retiring retired hit Hhit Hmiss active (keys d)) by done.
  split; [done|]. lia.
Qed.
Lemma ack_inv kid ag ws now d : key_inv d → key_inv (acknowledgeSigningKey kid ag ws now d).1.
Proof.
  intros H. unfold acknowledgeSigningKey. cbv zeta.
  by repeat match goal with |- context [if ?b then _ else _] => destruct b end.
Qed.
End rotation_inv.

Inductive key_op :=
| KEnsure (env_key : option string) (x : draw) (now : Z)
| KBegin (env_key : option string) (x : draw) (now : Z)
| KComplete (force : bool) (now : Z)
| KAck (signingKeyId agentRowId workspaceId : string) (now : Z).
Definition key_step (aes_encrypt : string → string → string → string * string) (d : db) (o : key_op) : db :=
  match o with
  | KEnsure ek x now => (ensureActiveSigningKey aes_encrypt ek x now d).1
  | KBegin ek x now => (beginSigningKeyRotation aes_encrypt ek x now d).1
  | KComplete force now => (completeSigningKeyRotation force now d).1
  | KAck kid ag ws now => (acknowledgeSigningKey kid ag ws now d).1
  end.

(** The rotation state machine.  Through any sequence of key creations,
    rotation starts (concurrent losers and failing inserts included),
    acknowledgements and completions, key ids stay distinct and there is at
    most one active and at most one retiring key. *)
Theorem rotation_invariant (aes_encrypt : string → string → string → string * string)
    (d : db) (os : list key_op) :
  key_inv d → key_inv (fold_left (key_step aes_encrypt) os d).
Proof.
  revert d. induction os as [|o os IH]; intros d Hd; [done|]. cbn. apply IH.
  destruct o; cbn; [by apply ensure_inv|by apply begin_inv|by apply complete_inv|by apply ack_inv].
Qed.
Definition toy_encrypt (key iv pt : string) : string * string := (pt, "tag").
Lemma rotation_invariant_witness :
  let d := fold_left (key_step toy_encrypt)
    [KEnsure toy_env (mkDraw "p1" "s1" "k1" "iv") 1; KBegin toy_env (mkDraw "p2" "s2" "k2" "iv") 2;
     KBegin toy_env (mkDraw "p3" "s3" "k3" "iv") 3; KAck "k2" "agent-1" "ws" 4; KComplete false 5]
    (mkDb [] [] [] []) in
  key_inv d ∧ map (λ k, (signing_key_id k, status k)) (keys d) = [("k1", retired); ("k2", active)].
Proof.
  split; [|reflexivity]. apply rotation_invariant. split; [constructor|]. cbn. lia.
Defined.

(** An unforced completion means the whole fleet moved.  When every
    acknowledgement comes from an active production agent, a rotation that
    completes without force has an acknowledgement of the active key from
    each of them. *)
Theorem unforced_completion_fully_acked (now : Z) (d d' : db) (rk ak : string) :
  NoDup (map agent_row_id (fleet d)) →
  (∀ a, a ∈ acks d → ack_key a = ak → ∃ g, g ∈ fleet d ∧ agent_row_id g = ack_agent a ∧
     agent_active g = true ∧ diagnostic g = false) →
  completeSigningKeyRotation false now d = (d', Ok (Completed false rk ak)) →
  ∀ g, g ∈ fleet d → agent_active g = true → diagnostic g = false →
    ∃ a, a ∈ acks d ∧ ack_agent a = agent_row_id g ∧ ack_key a = ak.
Proof.
  intros Hnd Hacks Hc g Hg Hga Hgd. unfold completeSigningKeyRotation in Hc.
  destruct (selectRetiringKeyRow d) as [ret|]; [|done].
  destruct (selectActiveKeyRow d) as [act|]; [|done]. cbv zeta in Hc.
  destruct (fully_acked (signing_key_id act) d) eqn:Hf; [|done].
  injection Hc as _ _ <-.
  set (A := remove_dups (map ack_agent (List.filter (λ a, bool_decide (ack_key a = signing_key_id act)) (acks d)))).
  set (F := map agent_row_id (List.filter (λ a, agent_active a && negb (diagnostic a)) (fleet d))).
  assert (∀ x, x ∈ A ↔ ∃ a, a ∈ acks d ∧ ack_agent a = x ∧ ack_key a = signing_key_id act) as HA.
  { intros x. unfold A. rewrite elem_of_remove_dups, elem_of_map'. split.
    - intros (a & -> & Hin). apply list_elem_of_In, filter_In in Hin as [Hin Hk].
      apply list_elem_of_In in Hin. split_bool. by exists a.
    - intros (a & Hin & <- & Hk). exists a. split; [done|].
      apply list_elem_of_In, filter_In. split; [by apply list_elem_of_In|by apply bool_decide_eq_true_2]. }
  assert (∀ x, x ∈ F ↔ ∃ h, h ∈ fleet d ∧ agent_row_id h = x ∧ agent_active h = true ∧ diagnostic h = false) as HF.
  { intros x. unfold F. rewrite elem_of_map'. split.
    - intros (h & -> & Hin). apply list_elem_of_In, filter_In in Hin as [Hin Hk].
      apply list_elem_of_In in Hin. split_bool. by exists h.
    - intros (h & Hin & <- & H1 & H2). exists h. split; [done|].
      apply list_elem_of_In, filter_In. rewrite H1, H2. split; [by apply list_elem_of_In|done]. }
  assert (A ⊆+ F) as Hsub.
  { apply NoDup_submseteq; [apply NoDup_remove_dups|]. intros x (a & Hin & <- & Hk)%HA.
    apply HF. destruct (Hacks a Hin Hk) as (h & ? & ? & ? & ?). by exists h. }
  assert (length F <= length A)%nat as Hlen.
  { unfold fully_acked, active_agents, ack_count in Hf.
    assert (length F = length (List.filter (λ a, agent_active a && negb (diagnostic a)) (fleet d))) as HlF
      by apply length_map.
    fold A in Hf. rewrite <- HlF in Hf. apply orb_prop in Hf as [Hf|Hf]; split_bool; [|lia].
    assert (agent_row_id g ∈ F) as Hin by (apply HF; by exists g).
    destruct F; [by apply not_elem_of_nil in Hin|cbn in Hf; lia]. }
  pose proof (submseteq_length_Permutation _ _ Hsub Hlen) as Hp.
  apply HA. rewrite Hp. apply HF. by exists g.
Qed.

Definition rotating_db (ack_agents : list string) : db :=
  mkDb [toy_row "k1" retiring None; toy_row "k2" active (Some "k1")]
       (map (λ a, mkAck "ws" a "k2" 7) ack_agents)
       [mkFleetAgent "agent-1" true false; mkFleetAgent "agent-2" true false;
        mkFleetAgent "probe-1" true true; mkFleetAgent "old-1" false false] [].
Lemma unforced_completion_fully_acked_witness :
  let d := rotating_db ["agent-2"; "agent-1"] in
  (∃ d', completeSigningKeyRotation false 9 d = (d', Ok (Completed false "k1" "k2"))) ∧
  ∃ a, a ∈ acks d ∧ ack_agent a = "agent-1" ∧ ack_key a = "k2".
Proof.
  set (d := rotating_db ["agent-2"; "agent-1"]).
  split; [by eexists|].
  refine (unforced_completion_fully_acked 9 d _ "k1" "k2" _ _ eq_refl
            (mkFleetAgent "agent-1" true false) _ eq_refl eq_refl).
  - apply (bool_decide_unpack _). vm_compute. exact I.
  - intros a Ha _. apply list_elem_of_In in Ha. destruct Ha as [<-|[<-|[]]].
    + exists (mkFleetAgent "agent-2" true false). split; [apply list_elem_of_In; cbn; tauto|done].
    + exists (mkFleetAgent "agent-1" true false). split; [apply list_elem_of_In; cbn; tauto|done].
  - apply list_elem_of_In. by left.
Defined.

(** The completion gate counts acknowledgements of agents the fleet count
    leaves out.  With two active production agents of which one acknowledged,
    an acknowledgement of a diagnostic (or of a deactivated) agent makes an
    unforced rotation complete: the retiring key is retired while an active
    production agent has not acknowledged the new one. *)
Theorem completion_gate_counts_outsiders :
  let d := rotating_db in
  (completeSigningKeyRotation false 9 (d ["agent-1"])).2 = Ok FleetIncomplete ∧
  (∀ outsider, (outsider = "probe-1" ∨ outsider = "old-1") →
     (completeSigningKeyRotation false 9 (d ["agent-1"; outsider])).2 = Ok (Completed false "k1" "k2") ∧
     ∀ a, a ∈ acks (d ["agent-1"; outsider]) → ack_agent a ≠ "agent-2").
Proof.
  cbv zeta. split; [reflexivity|]. intros outsider [-> | ->].
  - split; [reflexivity|]. intros a Ha%list_elem_of_In. by destruct Ha as [<-|[<-|[]]].
  - split; [reflexivity|]. intros a Ha%list_elem_of_In. by destruct Ha as [<-|[<-|[]]].
Qed.

(** Who is told of a pending rotation.  An agent gets a notice exactly
    while a key is retiring and it does not pin the active key already; the
    notice carries the active key.  In particular no agent gets one after the
    rotation completed (forced or not), although the active row records the
    key it supersedes: [selectActiveKeyRow] does not select that column. *)
Theorem rotation_notice_spec (pinned : option string) (d : db) :
  (∀ n, getSigningKeyRotationNotice pinned d = Some n ↔
     ∃ act ret, selectActiveKeyRow d = Some act ∧ selectRetiringKeyRow d = Some ret ∧
       (pinned = Some (signing_key_id act) → signing_key_id act = EmptyString) ∧
       n = mkNotice (signing_key_id act) (public_key_pem act) (Some (signing_key_id ret))) ∧
  (selectRetiringKeyRow d = None → getSigningKeyRotationNotice pinned d = None).
Proof.
  assert (∀ a : string, nonempty a = true ↔ a ≠ EmptyString) as Hne by (intros []; cbn; naive_solver).
  unfold getSigningKeyRotationNotice. split.
  - intros n. destruct (selectActiveKeyRow d) as [act|]; [|naive_solver].
    destruct (match pinned with Some p => _ | None => _ end) eqn:Ep.
    + split; [done|]. intros (a & r & [= <-] & _ & Hp & _). destruct pinned as [p|]; [|done].
      apply andb_prop in Ep as [Ep1 Ep2]. apply Hne in Ep1. split_bool. naive_solver.
    + destruct (selectRetiringKeyRow d) as [ret|]; cbn; [|naive_solver].
      split; [|naive_solver]. intros [= <-]. exists act, ret. split; [done|]. split; [done|].
      split; [|done]. intros ->. destruct (signing_key_id act) as [|c s] eqn:Es; [done|]. cbn [nonempty andb] in Ep.
      by apply bool_decide_eq_false in Ep.
  - intros ->. destruct (selectActiveKeyRow d) as [act|]; [|done].
    destruct (match pinned with Some p => _ | None => _ end); done.
Qed.
Lemma rotation_notice_spec_witness :
  let d := rotating_db [] in
  getSigningKeyRotationNotice (Some "k1") d = Some (mkNotice "k2" "pub-k2" (Some "k1")) ∧
  let d' := (completeSigningKeyRotation true 9 d).1 in
  (supersedes_signing_key_id <$> selectActiveKeyRow d') = Some (Some "k1") ∧
  getSigningKeyRotationNotice (Some "k1") d' = None.
Proof.
  cbv zeta. split; [reflexivity|]. split; [reflexivity|].
  apply (proj2 (rotation_notice_spec (Some "k1") _)). reflexivity.
Defined.

(** * The envelope of stored private keys *)

Lemma is_hex_not_colon c : is_hex c = true → negb (bool_decide (c = ":"%char)) = true.
Proof. intros Hc. apply negb_true_iff, bool_decide_eq_false_2. by intros ->. Qed.
Lemma split_colon_hex s t : sforall is_hex s = true →
  split_on ":" (s +:+ ":" +:+ t) = s :: split_on ":" t.
Proof. intros Hs. apply split_on_app. eapply sforall_impl, Hs. apply is_hex_not_colon. Qed.

(** Stored private keys round-trip.  With an AES-GCM pair that inverts
    itself and hexadecimal parts, a private key that was encrypted under a
    well-formed environment key decrypts to itself wherever the variable
    reads the same once trimmed; every other encryption version is refused,
    and so is a missing or malformed variable. *)
Theorem private_key_envelope_roundtrip
    (aes_encrypt : string → string → string → string * string)
    (aes_decrypt : string → string → string → string → option string)
    (env_key env_key' : option string) (iv pem enc : string) :
  (∀ k v pt, aes_decrypt k v (aes_encrypt k v pt).2 (aes_encrypt k v pt).1 = Some pt) →
  (∀ k v pt, sforall is_hex (aes_encrypt k v pt).1 = true ∧
             sforall is_hex (aes_encrypt k v pt).2 = true) →
  sforall is_hex iv = true →
  encryptPrivateKeyPem aes_encrypt env_key iv pem = Ok enc →
  (trim <$> env_key' = trim <$> env_key →
     decryptPrivateKeyPem aes_decrypt env_key' enc ENCRYPTION_VERSION = Ok pem) ∧
  (∀ v, v ≠ ENCRYPTION_VERSION →
     decryptPrivateKeyPem aes_decrypt env_key' enc v = Err SIGNING_KEY_UNAVAILABLE) ∧
  ((∀ raw, env_key' = Some raw → ENV_KEY_PATTERN (trim raw) = false) →
     decryptPrivateKeyPem aes_decrypt env_key' enc ENCRYPTION_VERSION = Err ENCRYPTION_KEY_MISSING).
Proof.
  intros Hinv Hhex Hiv (k & Hk & Henc)%bind_ok.
  pose proof (Hinv k iv pem) as Hd. pose proof (Hhex k iv pem) as [Hx1 Hx2].
  destruct (aes_encrypt k iv pem) as [data tag]. cbn in Hd, Hx1, Hx2. injection Henc as <-.
  assert (split_on ":" (iv +:+ ":" +:+ tag +:+ ":" +:+ data) = [iv; tag; data]) as Hs.
  { rewrite !split_colon_hex by done. do 2 f_equal. apply split_on_none.
    eapply sforall_impl, Hx1. apply is_hex_not_colon. }
  unfold decryptPrivateKeyPem. split; [|split].
  - intros He.
    assert (getEncryptionKey env_key' = Ok k) as -> by
      (rewrite <- Hk; destruct env_key as [r|], env_key' as [r'|]; try discriminate He; try done;
       injection He as He; unfold getEncryptionKey; by rewrite He).
    cbn in Hs |- *. by rewrite Hs, Hd.
  - intros v Hv. apply Z.eqb_neq in Hv. by rewrite Hv.
  - intros He. unfold getEncryptionKey. destruct env_key' as [raw|]; [|done].
    by rewrite (He raw eq_refl).
Qed.
(** A concrete cipher: the plaintext in hexadecimal. *)
Definition hex_digit (n : Z) : ascii := char_at (if n <? 10 then 48 + n else 87 + n).
Definition hex_value (c : ascii) : Z := if is_digit c then code c - 48 else code c - 87.
Fixpoint to_hex (s : string) : string :=
  match s with
  | EmptyString => EmptyString
  | String c s => String (hex_digit (code c / 16)) (String (hex_digit (code c mod 16)) (to_hex s))
  end.
Fixpoint of_hex (s : string) : string :=
  match s with
  | String a (String b s) => String (char_at (16 * hex_value a + hex_value b)) (of_hex s)
  | _ => EmptyString
  end.
Lemma of_to_hex s : of_hex (to_hex s) = s ∧ sforall is_hex (to_hex s) = true.
Proof.
  induction s as [|c s [IH1 IH2]]; [done|]. cbn [to_hex of_hex sforall]. rewrite IH1, IH2.
  split; [f_equal; clear|rewrite andb_true_r; clear];
    destruct c as [[] [] [] [] [] [] [] []]; reflexivity.
Qed.
Lemma private_key_envelope_roundtrip_witness :
  let enc k (v : string) pt := (to_hex pt, "00") in
  let dec (k v t : string) data := Some (of_hex data) in
  let env := Some (" " +:+ pad 64 0) in
  encryptPrivateKeyPem enc env "a1b2" "secret pem" = Ok "a1b2:00:7365637265742070656d" ∧
  decryptPrivateKeyPem dec toy_env "a1b2:00:7365637265742070656d" ENCRYPTION_VERSION = Ok "secret pem" ∧
  decryptPrivateKeyPem dec (Some "short") "a1b2:00:7365637265742070656d" ENCRYPTION_VERSION
    = Err ENCRYPTION_KEY_MISSING.
Proof.
  set (enc := λ (k v : string) pt, (to_hex pt, "00")).
  set (dec := λ k v t : string, λ data, Some (of_hex data)).
  set (env := Some (" " +:+ pad 64 0)). split; [reflexivity|].
  assert (∀ k v pt, dec k v (enc k v pt).2 (enc k v pt).1 = Some pt) as H1
    by (intros k v pt; unfold dec, enc; cbn; by rewrite (proj1 (of_to_hex pt))).
  assert (∀ k v pt, sforall is_hex (enc k v pt).1 = true ∧ sforall is_hex (enc k v pt).2 = true) as H2
    by (intros k v pt; split; [apply of_to_hex|reflexivity]).
  pose proof (λ env', private_key_envelope_roundtrip enc dec env env' "a1b2" "secret pem" _
    H1 H2 eq_refl eq_refl) as H.
  split; [exact (proj1 (H toy_env) eq_refl)|].
  apply (proj2 (proj2 (H (Some "short")))). by intros raw [= <-].
Defined.
