(* ===== verification/Outbox.v ===== *)
(** The durable outbox of job outcomes: packages/agent/src/outbox/index.js,
    and [persistAndTransmitOutcome] of packages/agent/src/index.js.

    The outbox directory and its dead-letter subdirectory are maps from file
    name to file; a file has the JSON value it parses to, if it does, its
    size, its modification time and whether it is a regular file.  A file the
    outbox writes parses back to the value it was written from.  Operations
    run in a state-and-exception monad; [net k] and [disk k] are the outcomes
    of the request, or the change of the file system, made at tick [k], and
    [random k] is the draw made there.  Reading directories and files does not
    fail by itself: a file that cannot be read is one without JSON.  What the
    control plane accepted is logged in [accepted], oldest first.  Errors are
    thrown objects ([jsval]); a failing disk throws [io_error].  The [onError]
    callback of a drain only logs and is left out. *)
From S2P Require Import Prelude Dates Json Signing Replay Net.
Open Scope Z_scope.

Definition ENTRY_FILE_SUFFIX : string := ".json".
Definition MAX_ENTRY_BYTES : Z := 512 * 1024.
Definition RETRY_BACKOFF_BASE_MS : Z := 15000.
Definition RETRY_BACKOFF_MAX_MS : Z := 30 * 60000.
Definition MAX_TRANSIENT_RETRY_AGE_MS : Z := 48 * 60 * 60000.
Definition MIN_ATTEMPTS_BEFORE_AGE_QUARANTINE : Z := 8.
Definition FALLBACK_MAX_ATTEMPTS_BEFORE_QUARANTINE : Z := 500.
Definition MAX_OUTBOX_ENTRIES : Z := 5000.
Definition MAX_OUTBOX_AGE_MS : Z := 7 * 24 * 60 * 60000.
Definition MAX_DEAD_LETTER_ENTRIES : Z := 5000.
Definition MAX_DEAD_LETTER_AGE_MS : Z := 30 * 24 * 60 * 60000.
Definition PRUNE_MIN_INTERVAL_MS : Z := 60 * 60000.
Definition PRUNE_RETRY_AFTER_FAILURE_MS : Z := 5 * 60000.

(** * Retry policy *)

(** [Math.random()] is [random / 2^53]; the product with the jitter factor
    [0.8 + 0.4 * Math.random()] is taken exactly and rounded half up. *)
Definition RANDOM_ONE : Z := 2 ^ 53.
Definition backoff_base (attempts : Z) : Z :=
  Z.min (RETRY_BACKOFF_BASE_MS * 2 ^ Z.max 0 attempts) RETRY_BACKOFF_MAX_MS.
Definition computeRetryBackoffMs (random : Z) (attempts : jsnum) : Z :=
  let base := backoff_base (match attempts with Fin n => n | _ => 0 end) in
  Z.max 1 ((2 * base * (8 * RANDOM_ONE + 4 * random) + 10 * RANDOM_ONE) / (20 * RANDOM_ONE)).

(** [Number(v)] of the status fields, which are absent, numbers or strings. *)
Definition to_number (v : jsval) : jsnum :=
  match v with
  | Num n => n
  | Null => Fin 0
  | Bool b => Fin (if b then 1 else 0)
  | Str s => match Number_int s with Some z => Fin z | None => NaN end
  | _ => NaN
  end.
(** [a ?? b]. *)
Definition coalesce (a b : jsval) : jsval := if nullish a then b else a.
Definition defaultIsPermanentFailure (err : jsval) : bool :=
  match to_number (coalesce (coalesce (get "statusCode" err) (get "status" err)) (get "code" err)) with
  | Fin statusCode =>
      if (statusCode <? 400) || (499 <? statusCode) then false else
      if (statusCode =? 401) || (statusCode =? 403) || (statusCode =? 408) || (statusCode =? 429)
      then false else true
  | _ => false
  end.

(** * Entries *)

Definition is_obj (v : jsval) : bool := match v with Obj _ => true | _ => false end.
Definition validateEntry (entry : jsval) : option jsval :=
  if is_obj entry
     && match get "id" entry with Str i => matches_class is_ident_char 1 128 i | _ => false end
     && match get "createdAt" entry with Str c => negb (bool_decide (c = EmptyString)) | _ => false end
     && is_obj (get "result" entry) && isArray (get "evidence" entry)
  then Some entry else None.

Definition id_of (entry : jsval) : string := str_of (get "id" entry).
Definition evidence_of (entry : jsval) : list jsval :=
  match get "evidence" entry with Arr l => l | _ => [] end.
Definition entry_name (id : string) : string := id +:+ ENTRY_FILE_SUFFIX.
(** [{ ...v, k: x }] *)
Definition with_field (k : string) (x v : jsval) : jsval :=
  match v with Obj fs => Obj (assoc_set k x fs) | _ => v end.

(** [JSON.stringify]. *)
Fixpoint stringify (v : jsval) : string :=
  match v with
  | Undef | Null | Num NaN | Num (Inf _) => "null"
  | Bool b => if b then "true" else "false"
  | Num (Fin z) => print_Z z
  | Str s => stringify_string s
  | Arr l => "[" +:+ join "," (map stringify l) +:+ "]"
  | Obj fs =>
      "{" +:+ join "," (flat_map (λ kv, match kv with
                                        | (_, Undef) => []
                                        | (k, v) => [stringify_string k +:+ ":" +:+ stringify v]
                                        end) fs) +:+ "}"
  end.
(** The bytes of an entry's line. *)
Definition serialized_bytes (v : jsval) : Z := slen (utf8_encode (stringify v)) + 1.

(** * The file system and the network *)

Record file := mkFile {
  f_json : option jsval; f_size : Z; f_mtime : Z; f_regular : bool }.
Inductive sent := Evidence (body : jsval) | Result (body : jsval).
Record box := mkBox { main : gmap string file; dead : gmap string file; accepted : list sent; tick : nat }.

Definition set_main (d : gmap string file) (b : box) : box := mkBox d (dead b) (accepted b) (tick b).
Definition set_dead (d : gmap string file) (b : box) : box := mkBox (main b) d (accepted b) (tick b).

Definition M (A : Type) : Type := box → box * result jsval A.
#[global] Instance M_ret : MRet M := λ A a b, (b, Ok a).
#[global] Instance M_bind : MBind M := λ A B f m b,
  match m b with (b', Ok a) => f a b' | (b', Err e) => (b', Err e) end.
Definition throw {A} (e : jsval) : M A := λ b, (b, Err e).
Definition try_catch {A} (m : M A) : M (result jsval A) := λ b, ((m b).1, Ok (m b).2).
Definition gets {A} (f : box → A) : M A := λ b, (b, Ok (f b)).
Definition io_error : jsval := Obj [("code", Str "EIO"); ("message", Str "i/o error")].
Definition invalid_entry : jsval := Obj [("message", Str "invalid outbox entry")].

Section outbox.
Context {dp : DateParse} (net : nat → option jsval) (disk : nat → write_outcome)
  (random : nat → Z).

(** One change of the file system, with its outcome. *)
Definition change (f : box → box) : M unit := λ b,
  let b1 := mkBox (main b) (dead b) (accepted b) (S (tick b)) in
  match disk (tick b) with
  | Written => (f b1, Ok tt)
  | NotWritten => (b1, Err io_error)
  | WrittenThenThrew => (f b1, Err io_error)
  end.
(** One request: [None] is acceptance. *)
Definition request (s : sent) : M unit := λ b,
  match net (tick b) with
  | None => (mkBox (main b) (dead b) (accepted b ++ [s]) (S (tick b)), Ok tt)
  | Some e => (mkBox (main b) (dead b) (accepted b) (S (tick b)), Err e)
  end.

Definition written (v : jsval) (nowMs : Z) : file := mkFile (Some v) (serialized_bytes v) nowMs true.
(** [writeFileAtomically] of an entry below the main directory. *)
Definition write_entry (id : string) (v : jsval) (nowMs : Z) : M unit :=
  change (λ b, set_main (<[entry_name id := written v nowMs]> (main b)) b).

Definition ensureOutboxDir : M unit := change id.

(** [freshId] is "outbox-" and 24 random hexadecimal digits. *)
Definition enqueueOutboxEntry (freshId : string) (nowMs : Z) (partial_ : jsval) : M jsval :=
  _ ← ensureOutboxDir;
  let entry := Obj [
    ("id", Str (match get "id" partial_ with
                | Str i => if bool_decide (i = EmptyString) then freshId else i
                | _ => freshId
                end));
    ("createdAt", if truthy (get "createdAt" partial_) then get "createdAt" partial_
                  else Str (toISOString nowMs));
    ("result", get "result" partial_);
    ("evidence", if isArray (get "evidence" partial_) then get "evidence" partial_ else Arr [])] in
  match validateEntry entry with
  | None => throw invalid_entry
  | Some entry =>
      if MAX_ENTRY_BYTES <? serialized_bytes entry then throw invalid_entry else
      _ ← write_entry (id_of entry) entry nowMs;
      mret entry
  end.

(** * Listing *)

Definition read_entry (nf : string * file) : option jsval :=
  if negb (endsWith ENTRY_FILE_SUFFIX nf.1) || endsWith ".tmp" nf.1 then None else
  if negb (f_regular nf.2) then None else
  if (f_size nf.2 <? 1) || (MAX_ENTRY_BYTES <? f_size nf.2) then None else
  v ← f_json nf.2; validateEntry v.
Definition readEntriesFromDir (d : gmap string file) : list jsval := omap read_entry (map_to_list d).

Definition created_of (entry : jsval) : string := str_of (get "createdAt" entry).
(** [createdAt] first, then [id]. *)
Definition entry_le (a b : jsval) : Prop :=
  str_ltb (created_of a) (created_of b) = true ∨
  created_of a = created_of b ∧ str_le (id_of a) (id_of b).
#[global] Instance entry_le_dec a b : Decision (entry_le a b).
Proof. unfold entry_le. apply _. Defined.
Definition sortEntriesByCreatedAtThenId (l : list jsval) : list jsval := merge_sort entry_le l.
Definition listOutboxEntries (b : box) : list jsval :=
  sortEntriesByCreatedAtThenId (readEntriesFromDir (main b)).
Definition listDeadLetterEntries (b : box) : list jsval :=
  sortEntriesByCreatedAtThenId (readEntriesFromDir (dead b)).

(** * Removing and quarantining *)

Definition acknowledgeOutboxEntry (id : string) : M bool :=
  f ← gets (λ b, main b !! entry_name id);
  match f with
  | None => mret false
  | Some _ =>
      _ ← change (λ b, set_main (delete (entry_name id) (main b)) b);
      mret true
  end.

(** The stamp; a failure is swallowed. *)
Definition stamp_quarantined (id : string) (f : file) (nowMs : Z) : M unit :=
  match f_json f with
  | Some (Obj fs) =>
      let stamped := with_field "quarantinedAt" (Str (toISOString nowMs)) (Obj fs) in
      if serialized_bytes stamped <=? MAX_ENTRY_BYTES then
        _ ← try_catch (write_entry id stamped nowMs); mret tt
      else mret tt
  | _ => mret tt
  end.
(** [fs.renameSync] into the dead-letter directory. *)
Definition move_to_dead (id : string) : M unit :=
  change (λ b, match main b !! entry_name id with
               | Some f => mkBox (delete (entry_name id) (main b))
                             (<[entry_name id := f]> (dead b)) (accepted b) (tick b)
               | None => b
               end).
Definition quarantineOutboxEntry (id : string) (nowMs : Z) : M bool :=
  _ ← change Datatypes.id;
  f ← gets (λ b, main b !! entry_name id);
  match f with
  | None => mret false
  | Some f =>
      _ ← stamp_quarantined id f nowMs;
      _ ← move_to_dead id;
      mret true
  end.

(** * Transmission *)

Fixpoint send_all (l : list sent) : M unit :=
  match l with
  | [] => mret tt
  | s :: l => _ ← request s; send_all l
  end.
Definition bodies (entry : jsval) : list sent :=
  map Evidence (evidence_of entry) ++ [Result (get "result" entry)].
Definition transmitOutboxEntry (entry : jsval) : M unit :=
  match validateEntry entry with
  | None => throw invalid_entry
  | Some entry => send_all (bodies entry)
  end.

(** [Date.parse] of a property that is a string or absent. *)
Definition parse_date (v : jsval) : option Z :=
  match v with Str s => date_parse s | _ => None end.
Definition isDueForRetry (entry : jsval) (nowMs : Z) : bool :=
  match get "nextRetryAt" entry with
  | Str s => match date_parse s with Some dueAtMs => dueAtMs <=? nowMs | None => true end
  | _ => true
  end.

(** [Number.isFinite(entry.attempts) && entry.attempts >= 0 ? ... : 0]. *)
Definition attempts_of (entry : jsval) : Z :=
  match get "attempts" entry with Num (Fin n) => if 0 <=? n then n else 0 | _ => 0 end.
Definition failed_entry (draw : Z) (entry err : jsval) (nowMs : Z) : jsval :=
  let priorAttempts := attempts_of entry in
  let at_ k v e := with_field k v e in
  at_ "nextRetryAt" (Str (toISOString (nowMs + computeRetryBackoffMs draw (Fin priorAttempts))))
    (at_ "lastErrorMessage" (Str (match get "message" err with
                                  | Str m => stake 500 m
                                  | _ => "unknown error"
                                  end))
      (at_ "lastAttemptAt" (Str (toISOString nowMs))
        (at_ "firstAttemptAt" (if truthy (get "firstAttemptAt" entry) then get "firstAttemptAt" entry
                               else Str (toISOString nowMs))
          (at_ "attempts" (Num (Fin (priorAttempts + 1))) entry)))).
Definition recordTransmissionFailure (entry err : jsval) (nowMs : Z) : M jsval :=
  draw ← gets (λ b, random (tick b));
  let updated := failed_entry draw entry err nowMs in
  if MAX_ENTRY_BYTES <? serialized_bytes updated then mret updated else
  _ ← try_catch (write_entry (id_of entry) updated nowMs);
  mret updated.

Definition hasExceededTransientRetryWindow (entry : jsval) (nowMs : Z) : bool :=
  let attempts := attempts_of entry in
  if FALLBACK_MAX_ATTEMPTS_BEFORE_QUARANTINE <=? attempts then true else
  if attempts <? MIN_ATTEMPTS_BEFORE_AGE_QUARANTINE then false else
  match parse_date (get "firstAttemptAt" entry) with
  | None => false
  | Some firstAttemptAtMs => MAX_TRANSIENT_RETRY_AGE_MS <=? nowMs - firstAttemptAtMs
  end.

Record counts := mkCounts { transmitted : Z; deferred : Z; quarantined : Z; remaining : Z }.

(** One entry of the pass.  [isPermanent] answers [None] when it throws. *)
Definition drain_entry (isPermanent : jsval → jsval → option bool) (nowMs : Z)
    (entry : jsval) (c : counts) : M counts :=
  if negb (isDueForRetry entry nowMs) then
    mret (mkCounts (transmitted c) (deferred c + 1) (quarantined c) (remaining c))
  else
    r ← try_catch (_ ← transmitOutboxEntry entry; acknowledgeOutboxEntry (id_of entry));
    match r with
    | Ok _ => mret (mkCounts (transmitted c + 1) (deferred c) (quarantined c) (remaining c - 1))
    | Err err =>
        updated ← recordTransmissionFailure entry err nowMs;
        let permanent := default false (isPermanent err updated) in
        if permanent || hasExceededTransientRetryWindow updated nowMs then
          moved ← quarantineOutboxEntry (id_of entry) nowMs;
          mret (if moved : bool then
                  mkCounts (transmitted c) (deferred c) (quarantined c + 1) (remaining c - 1)
                else c)
        else mret c
    end.
Fixpoint drain_loop (isPermanent : jsval → jsval → option bool) (nowMs : Z)
    (pending : list jsval) (c : counts) : M counts :=
  match pending with
  | [] => mret c
  | entry :: pending =>
      c ← drain_entry isPermanent nowMs entry c;
      drain_loop isPermanent nowMs pending c
  end.
Definition drainOutbox (isPermanent : jsval → jsval → option bool) (nowMs : Z) : M counts :=
  pending ← gets listOutboxEntries;
  drain_loop isPermanent nowMs pending (mkCounts 0 0 0 (Z.of_nat (length pending))).

(** The outcome of a job, handed over: persisted, then transmitted once. *)
Definition persistAndTransmitOutcome (freshId : string) (nowMs : Z) (result : jsval)
    (evidence : list jsval) : M (jsval * jsval) :=
  entry ← enqueueOutboxEntry freshId nowMs (Obj [("result", result); ("evidence", Arr evidence)]);
  _ ← try_catch (_ ← transmitOutboxEntry entry; acknowledgeOutboxEntry (id_of entry));
  mret (get "status" result, coalesce (get "rejectionReason" result) Null).

(** * Retention *)

(** A [Set] of ids, in insertion order. *)
Definition set_add (l : list string) (x : string) : list string :=
  if bool_decide (x ∈ l) then l else l ++ [x].
Fixpoint quarantine_all (ids : list string) (nowMs n : Z) : M Z :=
  match ids with
  | [] => mret n
  | i :: ids =>
      moved ← quarantineOutboxEntry i nowMs;
      quarantine_all ids nowMs (if moved : bool then n + 1 else n)
  end.
Definition aged_out (nowMs maxAgeMs : Z) (basis : option Z) : bool :=
  match basis with Some t => maxAgeMs <? nowMs - t | None => false end.
Definition stale_ids (nowMs : Z) (entries : list jsval) : list string :=
  let overflowCount := Z.max 0 (Z.of_nat (length entries) - MAX_OUTBOX_ENTRIES) in
  fold_left set_add
    (omap (λ ie : nat * jsval,
       if aged_out nowMs MAX_OUTBOX_AGE_MS (parse_date (get "createdAt" ie.2))
          || (Z.of_nat ie.1 <? overflowCount)
       then Some (id_of ie.2) else None)
     (imap pair entries)) [].
(** Ids of files that listing skips and that are too old. *)
Definition unreadable_ids (nowMs : Z) (b : box) : list string :=
  let readableIds := map id_of (listOutboxEntries b) in
  omap (λ nf : string * file,
    if negb (endsWith ENTRY_FILE_SUFFIX nf.1) || endsWith ".tmp" nf.1 then None else
    let i := stake (String.length nf.1 - 5) nf.1 in
    if bool_decide (i = EmptyString) || bool_decide (i ∈ readableIds) then None else
    if negb (f_regular nf.2) then None else
    if nowMs - Z.min (f_mtime nf.2) nowMs <=? MAX_OUTBOX_AGE_MS then None else Some i)
    (map_to_list (main b)).
Definition quarantineUnreadableEntries (nowMs : Z) : M Z :=
  ids ← gets (unreadable_ids nowMs);
  quarantine_all ids nowMs 0.
Definition pruneStaleOutboxEntries (nowMs : Z) : M Z :=
  entries ← gets listOutboxEntries;
  n ← quarantine_all (stale_ids nowMs entries) nowMs 0;
  m ← quarantineUnreadableEntries nowMs;
  mret (n + m).

Definition deleteDeadLetterEntry (id : string) : M bool :=
  f ← gets (λ b, dead b !! entry_name id);
  match f with
  | None => mret false
  | Some _ =>
      _ ← change (λ b, set_dead (delete (entry_name id) (dead b)) b);
      mret true
  end.
Definition first_some (l : list (option Z)) : option Z := head (omap Datatypes.id l).
Definition resolveDeadLetterAgeBasisMs (d : gmap string file) (entry : jsval) : option Z :=
  first_some [parse_date (get "quarantinedAt" entry); parse_date (get "lastAttemptAt" entry);
              f_mtime <$> d !! entry_name (id_of entry); parse_date (get "createdAt" entry)].
Definition age_le (a b : jsval * option Z) : Prop :=
  match a.2, b.2 with
  | Some x, Some y => x <= y
  | Some _, None => True
  | None, Some _ => False
  | None, None => str_le (id_of a.1) (id_of b.1)
  end.
#[global] Instance age_le_dec a b : Decision (age_le a b).
Proof. unfold age_le. destruct a.2, b.2; apply _. Defined.
Definition expired_ids (nowMs maxEntries maxAgeMs : Z) (b : box) : list string :=
  let withAgeBasis := map (λ e, (e, resolveDeadLetterAgeBasisMs (dead b) e)) (listDeadLetterEntries b) in
  let overflowCount := Z.max 0 (Z.of_nat (length withAgeBasis) - maxEntries) in
  fold_left set_add
    (omap (λ eb, if aged_out nowMs maxAgeMs eb.2 then Some (id_of eb.1) else None) withAgeBasis
     ++ map (λ eb, id_of eb.1) (take (Z.to_nat overflowCount) (merge_sort age_le withAgeBasis))) [].
Fixpoint delete_all (ids : list string) (n : Z) : M Z :=
  match ids with
  | [] => mret n
  | i :: ids =>
      gone ← deleteDeadLetterEntry i;
      delete_all ids (if gone : bool then n + 1 else n)
  end.
Definition pruneDeadLetterEntries (nowMs maxEntries maxAgeMs : Z) : M Z :=
  ids ← gets (expired_ids nowMs maxEntries maxAgeMs);
  delete_all ids 0.
(** The retention pass of the poll loop (packages/agent/src/index.js); what it
    throws is logged. *)
Definition retention_pass (nowMs : Z) : M Z :=
  n ← pruneStaleOutboxEntries nowMs;
  m ← pruneDeadLetterEntries nowMs MAX_DEAD_LETTER_ENTRIES MAX_DEAD_LETTER_AGE_MS;
  mret (n + m).
End outbox.

(** * The throttle of the retention pass: [lastPruneRunAtMs], initially
    [-Infinity] *)

Definition shouldRunPrunePass (nowMs : Z) (last : option Z) : option Z * bool :=
  match last with
  | Some t => if nowMs - t <? PRUNE_MIN_INTERVAL_MS then (last, false) else (Some nowMs, true)
  | None => (Some nowMs, true)
  end.
Definition notePrunePassFailed (nowMs : Z) : option Z :=
  Some (nowMs - (PRUNE_MIN_INTERVAL_MS - PRUNE_RETRY_AFTER_FAILURE_MS)).

(** * The evidence buffer *)

Definition createEvidenceBuffer : list jsval := [].
Definition buffer_reportEvidence (buffered : list jsval) (body : jsval) : list jsval := buffered ++ [body].
Definition takeEvidence (buffered : list jsval) : list jsval * list jsval := ([], buffered).

(** * Entries and file names *)

Lemma entry_name_inj i j : entry_name i = entry_name j → i = j.
Proof.
  unfold entry_name, ENTRY_FILE_SUFFIX. revert j. induction i as [|c i IH]; intros [|d j] H; try done.
  - exfalso. apply (f_equal String.length) in H. rewrite !slength_app in H. cbn in H. lia.
  - exfalso. apply (f_equal String.length) in H. rewrite !slength_app in H. cbn in H. lia.
  - injection H as -> H. f_equal. by apply IH.
Qed.
Lemma last_char_app s c : list_ascii_of_string (s +:+ String c EmptyString) = list_ascii_of_string s ++ [c].
Proof. induction s as [|d s IH]; [done|]. cbn. by rewrite <- IH. Qed.
Lemma entry_name_suffixes i :
  endsWith ENTRY_FILE_SUFFIX (entry_name i) = true ∧ endsWith ".tmp" (entry_name i) = false.
Proof.
  split; [apply endsWith_spec; by exists i|].
  apply not_true_is_false. intros (t & H)%endsWith_spec. unfold entry_name in H.
  change ENTRY_FILE_SUFFIX with (".jso" +:+ "n") in H. change ".tmp" with (".tm" +:+ "p") in H.
  rewrite !sapp_assoc in H. apply (f_equal list_ascii_of_string) in H.
  rewrite !last_char_app in H. by apply app_inj_tail in H as [_ [=]].
Qed.

Lemma validate_spec v w : validateEntry v = Some w → w = v ∧ validateEntry v = Some v ∧ is_obj v = true.
Proof.
  unfold validateEntry. destruct (_ && _) eqn:E; [|done]. intros [= <-].
  apply andb_prop in E as [E _]. apply andb_prop in E as [E _]. apply andb_prop in E as [E _].
  by apply andb_prop in E as [-> _].
Qed.
Lemma read_entry_spec name f v :
  read_entry (name, f) = Some v → f_json f = Some v ∧ validateEntry v = Some v.
Proof.
  unfold read_entry. cbn. destruct (_ || _); [done|]. destruct (negb _); [done|].
  destruct (_ || _); [done|]. destruct (f_json f) as [w|]; [|done].
  intros (-> & ? & _)%validate_spec. done.
Qed.

(** Fields the outbox adds; the rest of an entry is left. *)
Definition bookkeeping : list string :=
  ["quarantinedAt"; "nextRetryAt"; "lastErrorMessage"; "lastAttemptAt"; "firstAttemptAt"; "attempts"].
(** [w] is [v] up to bookkeeping. *)
Definition same_entry (v w : jsval) : Prop :=
  is_obj w = is_obj v ∧ ∀ k, k ∉ bookkeeping → get k w = get k v.
#[global] Instance same_entry_refl : Reflexive same_entry.
Proof. by intros v. Qed.
#[global] Instance same_entry_trans : Transitive same_entry.
Proof. intros u v w [H1 H2] [H3 H4]. split; [congruence|]. intros k Hk. by rewrite H4, H2. Qed.
Lemma with_field_same k x v : k ∈ bookkeeping → same_entry v (with_field k x v).
Proof.
  intros Hk. destruct v; try done. split; [done|]. intros k' Hk'. cbn.
  rewrite assoc_get_set_ne; [done|]. by intros ->.
Qed.
Lemma get_with_field k x v : is_obj v = true → get k (with_field k x v) = x.
Proof. destruct v; try done. intros _. cbn. by rewrite assoc_get_set_eq. Qed.
Lemma same_entry_fields v w : same_entry v w →
  validateEntry w = (if validateEntry v then Some w else None) ∧ id_of w = id_of v ∧
  get "result" w = get "result" v ∧ evidence_of w = evidence_of v.
Proof.
  intros [Ho Hg]. unfold validateEntry, id_of, evidence_of. rewrite Ho.
  rewrite (Hg "id"), (Hg "createdAt"), (Hg "result"), (Hg "evidence")
    by (apply (bool_decide_unpack _); vm_compute; exact I).
  by destruct (_ && _).
Qed.

Section outbox_lemmas.
Context {dp : DateParse} (net : nat → option jsval) (disk : nat → write_outcome)
  (random : nat → Z).

Lemma failed_entry_same draw e err now : same_entry e (failed_entry draw e err now).
Proof.
  unfold failed_entry. cbv zeta beta.
  repeat (etrans; [|apply with_field_same; apply (bool_decide_unpack _); vm_compute; exact I]).
  done.
Qed.

(** * Transmission only sends *)

Lemma send_all_spec l b :
  let r := send_all net l b in
  main r.1 = main b ∧ dead r.1 = dead b ∧
  ∃ post, accepted r.1 = accepted b ++ post ∧ (r.2 = Ok tt → post = l).
Proof.
  revert b. induction l as [|s l IH]; intros b; cbn.
  - split; [done|]. split; [done|]. exists []. by rewrite app_nil_r.
  - cbv [mbind M_bind request]. destruct (net (tick b)) as [e|]; cbn.
    + split; [done|]. split; [done|]. exists []. by rewrite app_nil_r.
    + specialize (IH (mkBox (main b) (dead b) (accepted b ++ [s]) (S (tick b)))).
      destruct IH as (-> & -> & post & -> & Hp). split; [done|]. split; [done|].
      exists (s :: post). cbn. rewrite <- app_assoc. split; [done|]. intros H. by rewrite Hp.
Qed.
Lemma transmit_spec e b :
  let r := transmitOutboxEntry net e b in
  main r.1 = main b ∧ dead r.1 = dead b ∧
  ∃ post, accepted r.1 = accepted b ++ post ∧ (r.2 = Ok tt → post = bodies e).
Proof.
  unfold transmitOutboxEntry. destruct (validateEntry e) as [e'|] eqn:E.
  - apply validate_spec in E as [-> _]. apply send_all_spec.
  - cbn. split; [done|]. split; [done|]. exists []. by rewrite app_nil_r.
Qed.

(** * One tracked outcome *)

(** [i] is an entry's id, [R] and [V] its result and evidence. *)
Context (i : string) (R : jsval) (V : list jsval).
Definition tracked (e : jsval) : Prop :=
  validateEntry e = Some e ∧ id_of e = i ∧ get "result" e = R ∧ evidence_of e = V.
Definition carries (f : file) : Prop :=
  f_regular f = true ∧ 1 <= f_size f <= MAX_ENTRY_BYTES ∧ ∃ v, f_json f = Some v ∧ tracked v.
(** An entry is in the file its id names. *)
Definition well_named (b : box) : Prop := ∀ name f v,
  main b !! name = Some f ∨ dead b !! name = Some f → f_json f = Some v → validateEntry v = Some v →
  name = entry_name (id_of v).
(** Everything was sent and accepted, in order and without a gap. *)
Definition delivered (b : box) : Prop :=
  ∃ pre post, accepted b = pre ++ (map Evidence V ++ [Result R]) ++ post.
Definition safe (b : box) : Prop :=
  (∀ f, main b !! entry_name i = Some f → carries f) ∧
  (delivered b ∨ is_Some (main b !! entry_name i) ∨
   ∃ f, dead b !! entry_name i = Some f ∧ carries f).
Definition kept_safe (b : box) : Prop := well_named b ∧ safe b.
Definition keeps {A} (m : M A) : Prop := ∀ b, kept_safe b → kept_safe (m b).1.

Lemma tracked_same v w : same_entry v w → tracked v → tracked w.
Proof.
  intros (H1 & H2 & H3 & H4)%same_entry_fields (T1 & T2 & T3 & T4).
  rewrite T1 in H1. unfold tracked. rewrite H1, H2, H3, H4. done.
Qed.
Lemma delivered_app b b' post : accepted b' = accepted b ++ post → delivered b → delivered b'.
Proof. intros H (pre & p & Hp). exists pre, (p ++ post). rewrite H, Hp, <- !app_assoc. done. Qed.
(** Sending more, and nothing else, is harmless. *)
Lemma kept_safe_sent b b' post :
  main b' = main b → dead b' = dead b → accepted b' = accepted b ++ post → kept_safe b → kept_safe b'.
Proof.
  intros Hm Hd Ha [Hw [Hs1 Hs2]]. split.
  - unfold well_named. rewrite Hm, Hd. exact Hw.
  - split; [by rewrite Hm|]. rewrite Hm, Hd. destruct Hs2 as [H|H]; [left|by right].
    by eapply delivered_app.
Qed.

Lemma keeps_ret {A} (a : A) : keeps (mret a).
Proof. by intros b. Qed.
Lemma keeps_throw {A} e : keeps (throw (A:=A) e).
Proof. by intros b. Qed.
Lemma keeps_try {A} (m : M A) : keeps m → keeps (try_catch m).
Proof. intros H b Hb. cbn. by apply H. Qed.
Lemma keeps_bind {A B} (m : M A) (f : A → M B) : keeps m → (∀ a, keeps (f a)) → keeps (m ≫= f).
Proof.
  intros Hm Hf b Hb. specialize (Hm b Hb). cbv [mbind M_bind].
  destruct (m b) as [b' [a|e]]; [by apply Hf|done].
Qed.
Lemma keeps_gets {A B} (f : box → A) (k : A → M B) :
  (∀ b, kept_safe b → kept_safe (k (f b) b).1) → keeps (gets f ≫= k).
Proof. intros H b Hb. cbv [mbind M_bind gets]. by apply H. Qed.
Lemma keeps_change f : (∀ b, kept_safe b → kept_safe (f b)) → keeps (change disk f).
Proof.
  intros Hf b Hb. assert (kept_safe (mkBox (main b) (dead b) (accepted b) (S (tick b)))) as Hb'
    by (eapply (kept_safe_sent b); [done..|by rewrite app_nil_r|done]).
  unfold change. destruct (disk (tick b)); cbn; auto.
Qed.
Lemma keeps_transmit e : keeps (transmitOutboxEntry net e).
Proof.
  intros b Hb. destruct (transmit_spec e b) as (Hm & Hd & post & Ha & _).
  by eapply kept_safe_sent.
Qed.

Lemma keeps_write id v now :
  validateEntry v = Some v → id_of v = id → serialized_bytes v <= MAX_ENTRY_BYTES →
  (id = i → tracked v) → keeps (write_entry disk id v now).
Proof.
  intros Hv Hid Hsz Ht. apply keeps_change. intros b [Hw [Hs1 Hs2]]. split.
  - intros name f w. cbn. intros [[[<- <-]|[Hne Hf]]%lookup_insert_Some|Hf].
    + cbn. intros [= ->] _. by rewrite Hid.
    + apply Hw. by left.
    + apply Hw. by right.
  - split; cbn.
    + intros f [[Hn <-]|[Hne Hf]]%lookup_insert_Some; [|by apply Hs1].
      apply entry_name_inj in Hn. split; [done|]. cbn.
      split; [|exists v; auto]. unfold serialized_bytes, slen in *. lia.
    + destruct (decide (id = i)) as [->|Hne].
      * right. left. rewrite lookup_insert_eq. done.
      * rewrite lookup_insert_ne by (intros H; by apply entry_name_inj in H). done.
Qed.

Lemma keeps_ack id b : (id = i → delivered b) → kept_safe b →
  kept_safe (acknowledgeOutboxEntry disk id b).1.
Proof.
  intros Hd Hb. unfold acknowledgeOutboxEntry. cbv [gets]. cbv [mbind M_bind].
  destruct (main b !! entry_name id); [|done].
  set (F := λ b, set_main (delete (entry_name id) (main b)) b).
  assert (∀ n, kept_safe (F (mkBox (main b) (dead b) (accepted b) n))) as HF.
  { intros n. destruct Hb as [Hw [Hs1 Hs2]]. split.
    - intros name g v. cbn. intros [[_ Hg]%lookup_delete_Some|Hg]; apply Hw; [by left|by right].
    - split; cbn; [intros g [_ Hg]%lookup_delete_Some; by apply Hs1|].
      destruct (decide (id = i)) as [->|Hne]; [left; by apply Hd|].
      rewrite lookup_delete_ne by (intros H; by apply entry_name_inj in H). done. }
  unfold change. fold F. destruct (disk (tick b)); cbn; try apply HF.
  by eapply (kept_safe_sent b); [..|by rewrite app_nil_r|].
Qed.

Lemma keeps_deliver e : (id_of e = i → tracked e) →
  keeps (_ ← transmitOutboxEntry net e; acknowledgeOutboxEntry disk (id_of e)).
Proof.
  intros He b Hb. cbv [mbind M_bind].
  destruct (transmit_spec e b) as (Hm & Hd & post & Ha & Hok).
  pose proof (keeps_transmit e b Hb) as Hb'.
  destruct (transmitOutboxEntry net e b) as [b' [[]|x]]; cbn in *; [|done].
  apply keeps_ack; [|done]. intros Hi. destruct (He Hi) as (_ & _ & HR & HV).
  exists (accepted b), []. by rewrite <- HR, <- HV, Ha, (Hok eq_refl), app_nil_r.
Qed.

Lemma keeps_record e err now : validateEntry e = Some e → (id_of e = i → tracked e) →
  keeps (recordTransmissionFailure disk random e err now).
Proof.
  intros Hv He. apply keeps_gets. intros b0. generalize (random (tick b0)). intros draw. revert b0.
  cbv zeta. pose proof (failed_entry_same draw e err now) as Hs.
  destruct (same_entry_fields _ _ Hs) as (H1 & H2 & _). rewrite Hv in H1.
  destruct (_ <? _) eqn:Esz; [apply keeps_ret|]. apply Z.ltb_ge in Esz.
  apply keeps_bind; [|intros; apply keeps_ret].
  apply keeps_try, keeps_write; [done|done|lia|]. intros Hi. eapply tracked_same; [done|auto].
Qed.

Lemma keeps_move id : keeps (move_to_dead disk id).
Proof.
  apply keeps_change. intros b Hb. destruct (main b !! entry_name id) as [f|] eqn:E; [|done].
  destruct Hb as [Hw [Hs1 Hs2]]. split; [|split]; cbn.
  - intros name g v. cbn.
    intros [[_ Hg]%lookup_delete_Some|[[<- <-]|[_ Hg]]%lookup_insert_Some]; apply Hw; by (left + right).
  - intros g [_ Hg]%lookup_delete_Some. by apply Hs1.
  - destruct (decide (id = i)) as [->|Hne].
    + right. right. exists f. rewrite lookup_insert_eq. auto.
    + assert (entry_name id ≠ entry_name i) by (intros H; by apply entry_name_inj in H).
      rewrite lookup_delete_ne, lookup_insert_ne by done. exact Hs2.
Qed.
Lemma keeps_stamp id f now b : main b !! entry_name id = Some f → kept_safe b →
  kept_safe (stamp_quarantined disk id f now b).1.
Proof.
  intros Hf Hb. unfold stamp_quarantined.
  destruct (f_json f) as [[| | | | | |fs]|] eqn:Ej; try done.
  set (st := with_field "quarantinedAt" _ _). destruct (_ <=? _) eqn:Esz; [|done].
  apply Z.leb_le in Esz.
  assert (same_entry (Obj fs) st) as Hst
    by (apply with_field_same; apply (bool_decide_unpack _); vm_compute; exact I).
  destruct (same_entry_fields _ _ Hst) as (H1 & H2 & _). clearbody st.
  destruct Hb as [Hw [Hs1 Hs2]].
  assert (id = i → tracked (Obj fs)) as Ht.
  { intros ->. destruct (Hs1 f Hf) as (_ & _ & v & Hv & Htv). congruence. }
  destruct (validateEntry (Obj fs)) as [w|] eqn:Ev.
  - apply validate_spec in Ev as (-> & Ev & _).
    assert (entry_name id = entry_name (id_of (Obj fs))) as Hid%entry_name_inj
      by (apply (Hw (entry_name id) f); [by left|done..]).
    refine ((keeps_bind _ _ (keeps_try _ (keeps_write id st now H1 _ Esz _))
               (λ _, keeps_ret tt)) b (conj Hw (conj Hs1 Hs2))); [congruence|].
    intros Hi. eapply tracked_same; [done|auto].
  - cbv [mbind M_bind try_catch]. unfold write_entry, change.
    assert (id ≠ i) as Hne by (intros Hi; destruct (Ht Hi) as [Hv _]; congruence).
    assert (∀ n, kept_safe (set_main (<[entry_name id:=written st now]> (main b))
                     (mkBox (main b) (dead b) (accepted b) n))) as HF.
    { intros n. split; [|split]; cbn.
      - intros name g v. cbn.
        intros [[[<- <-]|[_ Hg]]%lookup_insert_Some|Hg]; [|apply Hw; by left|apply Hw; by right].
        cbn. intros [= <-] Hv. congruence.
      - intros g [[Hn _]|[_ Hg]]%lookup_insert_Some; [by apply entry_name_inj in Hn|by apply Hs1].
      - rewrite lookup_insert_ne by (intros H; by apply entry_name_inj in H). exact Hs2. }
    destruct (disk (tick b)); cbn; try apply HF.
    by apply (kept_safe_sent b _ []); [| |cbn; rewrite app_nil_r|].
Qed.
Lemma keeps_quarantine id now : keeps (quarantineOutboxEntry disk id now).
Proof.
  unfold quarantineOutboxEntry. apply keeps_bind; [by apply keeps_change|]. intros _.
  apply keeps_gets. intros b Hb. destruct (main b !! entry_name id) as [f|] eqn:E; [|done].
  cbv [mbind M_bind]. pose proof (keeps_stamp id f now b E Hb) as Hb'.
  destruct (stamp_quarantined disk id f now b) as [b' [[]|e]]; cbn in *; [|done].
  pose proof (keeps_move id b' Hb') as Hb''.
  by destruct (move_to_dead disk id b') as [b'' [[]|e]].
Qed.
Lemma keeps_quarantine_all ids now n : keeps (quarantine_all disk ids now n).
Proof.
  revert n. induction ids as [|x ids IH]; intros n; [apply keeps_ret|]. cbn [quarantine_all].
  apply keeps_bind; [apply keeps_quarantine|]. intros moved. apply IH.
Qed.
Lemma keeps_prune now : keeps (pruneStaleOutboxEntries disk now).
Proof.
  apply keeps_gets. intros b. revert b. change (keeps (λ b, (n ← quarantine_all disk
    (stale_ids now (listOutboxEntries b)) now 0; m ← quarantineUnreadableEntries disk now; mret (n + m)) b)).
  intros b Hb. refine (keeps_bind _ _ (keeps_quarantine_all _ _ _) _ b Hb). intros n.
  apply keeps_bind; [|intros; apply keeps_ret]. apply keeps_gets. intros b' Hb'. by apply keeps_quarantine_all.
Qed.

Lemma keeps_drain_entry isP now e c : validateEntry e = Some e → (id_of e = i → tracked e) →
  keeps (drain_entry net disk random isP now e c).
Proof.
  intros Hv He. unfold drain_entry. destruct (negb _); [apply keeps_ret|].
  apply keeps_bind; [by apply keeps_try, keeps_deliver|]. intros [[]|err]; try apply keeps_ret.
  apply keeps_bind; [by apply keeps_record|]. intros updated. cbv zeta.
  destruct (_ || _); [|apply keeps_ret].
  apply keeps_bind; [apply keeps_quarantine|]. intros moved. apply keeps_ret.
Qed.
Lemma keeps_drain_loop isP now pending c :
  Forall (λ e, validateEntry e = Some e ∧ (id_of e = i → tracked e)) pending →
  keeps (drain_loop net disk random isP now pending c).
Proof.
  intros Hp. revert c. induction Hp as [|e pending [Hv He] _ IH]; intros c; [apply keeps_ret|].
  cbn [drain_loop]. apply keeps_bind; [by apply keeps_drain_entry|]. intros c'. apply IH.
Qed.
Lemma listed b e : e ∈ listOutboxEntries b ↔
  ∃ name f, main b !! name = Some f ∧ read_entry (name, f) = Some e.
Proof.
  unfold listOutboxEntries, sortEntriesByCreatedAtThenId, readEntriesFromDir.
  rewrite merge_sort_Permutation, list_elem_of_omap. setoid_rewrite elem_of_map_to_list'.
  split; [intros ([n f] & ? & ?); eauto|intros (n & f & ? & ?); by exists (n, f)].
Qed.
Lemma listed_dead b e : e ∈ listDeadLetterEntries b ↔
  ∃ name f, dead b !! name = Some f ∧ read_entry (name, f) = Some e.
Proof.
  unfold listDeadLetterEntries, sortEntriesByCreatedAtThenId, readEntriesFromDir.
  rewrite merge_sort_Permutation, list_elem_of_omap. setoid_rewrite elem_of_map_to_list'.
  split; [intros ([n f] & ? & ?); eauto|intros (n & f & ? & ?); by exists (n, f)].
Qed.
Lemma carries_listed f : carries f → ∃ e, read_entry (entry_name i, f) = Some e ∧ tracked e.
Proof.
  intros (Hr & [Hl Hu] & v & Hj & Ht). exists v. split; [|done]. unfold read_entry. cbn.
  destruct (entry_name_suffixes i) as [-> ->]. rewrite Hr, Hj. cbn.
  apply Z.ltb_ge in Hl, Hu. rewrite Hl, Hu. cbn. apply Ht.
Qed.
Lemma keeps_drain isP now : keeps (drainOutbox net disk random isP now).
Proof.
  apply keeps_gets. intros b Hb. apply keeps_drain_loop; [|done].
  apply Forall_forall. intros e (name & f & Hf & Hr)%listed. destruct Hb as [Hw [Hs _]].
  apply read_entry_spec in Hr as [Hj Hv]. split; [done|]. intros Hi.
  assert (name = entry_name i) as -> by (rewrite <- Hi; apply (Hw name f); [by left|done..]).
  destruct (Hs f Hf) as (_ & _ & v & Hv' & Ht). congruence.
Qed.

(** What a persisted entry is. *)
Lemma enqueue_spec freshId now partial_ b e b' :
  enqueueOutboxEntry disk freshId now partial_ b = (b', Ok e) →
  validateEntry e = Some e ∧ serialized_bytes e <= MAX_ENTRY_BYTES ∧
  get "result" e = get "result" partial_ ∧
  id_of e = match get "id" partial_ with
            | Str i => if bool_decide (i = EmptyString) then freshId else i
            | _ => freshId
            end ∧
  evidence_of e = (if isArray (get "evidence" partial_) then evidence_of partial_ else []) ∧
  main b' = <[entry_name (id_of e) := written e now]> (main b) ∧ dead b' = dead b ∧
  accepted b' = accepted b.
Proof.
  unfold enqueueOutboxEntry, ensureOutboxDir. cbv [mbind M_bind].
  unfold change at 1. destruct (disk (tick b)); [|done..]. cbv zeta. cbn [Datatypes.id].
  destruct (validateEntry _) as [w|] eqn:Ev; [|done].
  apply validate_spec in Ev as (-> & Ev & _).
  destruct (_ <? _) eqn:Esz; [done|]. apply Z.ltb_ge in Esz.
  unfold write_entry, change. destruct (disk _); [|done..]. cbn -[validateEntry id_of serialized_bytes].
  intros [= <- <-]. split; [done|]. split; [done|]. split; [done|].
  split; [unfold id_of; cbn; by destruct (get "id" partial_)|].
  split; [|done]. unfold evidence_of. cbn. by destruct (get "evidence" partial_).
Qed.
Lemma keeps_persist freshId now result evidence : freshId ≠ i →
  keeps (persistAndTransmitOutcome net disk freshId now result evidence).
Proof.
  intros Hne b Hb. unfold persistAndTransmitOutcome.
  set (p := Obj [("result", result); ("evidence", Arr evidence)]).
  destruct (enqueueOutboxEntry disk freshId now p b) as [b' r] eqn:E.
  assert (kept_safe b' ∧ ∀ e, r = Ok e → validateEntry e = Some e ∧ id_of e ≠ i) as [Hb' Hr].
  { split.
    - replace b' with (enqueueOutboxEntry disk freshId now p b).1
        by (by rewrite E). revert b Hb E. intros b Hb _.
      refine (keeps_bind _ _ (keeps_change _ (λ b H, H)) _ b Hb). intros _. cbv zeta.
      destruct (validateEntry _) as [w|] eqn:Ev; [|apply keeps_throw].
      apply validate_spec in Ev as (-> & Ev & _).
      destruct (_ <? _) eqn:Esz; [apply keeps_throw|]. apply Z.ltb_ge in Esz.
      apply keeps_bind; [|intros; apply keeps_ret].
      apply keeps_write; [done|done|lia|]. by intros Hi.
    - intros e ->. apply enqueue_spec in E as (H1 & _ & _ & H2 & _). rewrite H2. done. }
  cbv [mbind M_bind try_catch]. rewrite E. destruct r as [e|e]; [|done]. cbn [fst snd].
  destruct (Hr e eq_refl) as [Hv Hid].
  refine (keeps_bind _ _ (keeps_try _ (keeps_deliver e _)) (λ _, keeps_ret _) b' Hb'). done.
Qed.
End outbox_lemmas.

Section outbox_runs.
Context {dp : DateParse} (net : nat → option jsval) (disk : nat → write_outcome)
  (random : nat → Z).

Inductive outbox_op :=
| OPersist (freshId : string) (nowMs : Z) (result : jsval) (evidence : list jsval)
| ODrain (isPermanent : jsval → jsval → option bool) (nowMs : Z)
| ORetain (nowMs : Z).
Definition outbox_step (b : box) (o : outbox_op) : box :=
  match o with
  | OPersist i now r v => (persistAndTransmitOutcome net disk i now r v b).1
  | ODrain isP now => (drainOutbox net disk random isP now b).1
  | ORetain now => (retention_pass disk now b).1
  end.
Definition persists (i : string) (o : outbox_op) : Prop :=
  match o with OPersist j _ _ _ => j = i | _ => False end.

(** A dead letter past its retention: quarantined (or else last tried, or
    written) more than 30 days ago, or 5000 dead letters are no older. *)
Definition past_retention (nowMs : Z) (b : box) (e : jsval) : Prop :=
  let basis x := resolveDeadLetterAgeBasisMs (dead b) x in
  (∃ t, basis e = Some t ∧ MAX_DEAD_LETTER_AGE_MS < nowMs - t) ∨
  (∃ later, MAX_DEAD_LETTER_ENTRIES <= Z.of_nat (length later) ∧
     e :: later ⊆+ listDeadLetterEntries b ∧ Forall (λ x, age_le (e, basis e) (x, basis x)) later).
(** The operation finds the outcome among the dead letters past retention. *)
Definition retires (i : string) (R : jsval) (V : list jsval) (b : box) (o : outbox_op) : Prop :=
  match o with
  | ORetain now => ∃ b' n e, pruneStaleOutboxEntries disk now b = (b', Ok n) ∧
      e ∈ listDeadLetterEntries b' ∧ tracked i R V e ∧ past_retention now b' e
  | _ => False
  end.
(** In the course of the run the retention of dead letters gives it up. *)
Fixpoint given_up (i : string) (R : jsval) (V : list jsval) (b : box) (os : list outbox_op) : Prop :=
  match os with
  | [] => False
  | o :: os => retires i R V b o ∨ given_up i R V (outbox_step b o) os
  end.

Lemma elem_of_set_add l acc x : x ∈ fold_left set_add l acc ↔ x ∈ acc ∨ x ∈ l.
Proof.
  revert acc. induction l as [|y l IH]; intros acc; cbn; [set_solver|]. rewrite IH.
  unfold set_add. case_bool_decide; set_solver.
Qed.
#[local] Instance age_le_trans : Transitive age_le.
Proof.
  intros [a ta] [b tb] [c tc]. unfold age_le. cbn. destruct ta, tb, tc; try done; [lia|].
  by apply transitivity.
Qed.
#[local] Instance age_le_total : Total age_le.
Proof.
  intros [a ta] [b tb]. unfold age_le. cbn. destruct ta, tb; [lia|by left|by right|]. apply (total str_le).
Qed.
(** Whoever is selected for deletion is past retention. *)
Lemma expired_past now b x :
  x ∈ expired_ids now MAX_DEAD_LETTER_ENTRIES MAX_DEAD_LETTER_AGE_MS b →
  ∃ e, e ∈ listDeadLetterEntries b ∧ id_of e = x ∧ past_retention now b e.
Proof.
  unfold expired_ids. cbv zeta. rewrite elem_of_set_add, elem_of_app. intros [[]%elem_of_nil|[H|H]].
  - apply list_elem_of_omap in H as ([e t] & He & Hx). cbn in Hx.
    apply list_elem_of_In, in_map_iff in He as (e' & [= -> Ht] & He). apply list_elem_of_In in He.
    destruct (aged_out _ _ t) eqn:Ea; [|done]. injection Hx as <-. exists e. split; [done|]. split; [done|].
    left. rewrite Ht. destruct t as [t|]; [|done]. exists t. split; [done|]. by apply Z.ltb_lt in Ea.
  - set (basis := λ x, resolveDeadLetterAgeBasisMs (dead b) x) in *.
    set (l := map (λ e, (e, resolveDeadLetterAgeBasisMs (dead b) e)) (listDeadLetterEntries b)) in *.
    set (k := Z.to_nat _) in H.
    apply list_elem_of_In, in_map_iff in H as ([e t] & <- & H). cbn. apply list_elem_of_In in H.
    pose proof (merge_sort_Permutation age_le l) as Hp. pose proof (StronglySorted_merge_sort age_le l) as Hs.
    assert (length (merge_sort age_le l) = length (listDeadLetterEntries b)) as Hl
      by (rewrite Hp; unfold l; by rewrite length_map).
    assert (∀ y, y ∈ merge_sort age_le l → y.2 = basis y.1) as Hb.
    { intros y. rewrite Hp. unfold l. intros (z & <- & _)%list_elem_of_In%in_map_iff. done. }
    assert (map fst l = listDeadLetterEntries b) as Hm by (unfold l; rewrite map_map; apply map_id).
    revert Hs Hl Hb Hp. rewrite <- (take_drop k (merge_sort age_le l)).
    assert (length (take k (merge_sort age_le l)) <= k)%nat as Hk by (rewrite length_take; lia).
    revert H Hk. generalize (take k (merge_sort age_le l)) (drop k (merge_sort age_le l)).
    intros l1 l2 H Hk Hs Hl Hb Hp.
    assert (basis e = t) as Et by (symmetry; apply (Hb (e, t)); set_solver).
    assert (Forall (λ x, age_le (e, basis e) (x, basis x)) (map fst l2)) as Hlater.
    { apply Forall_map, Forall_forall. intros [x tx] Hx. cbn.
      pose proof (Hb (x, tx) ltac:(set_solver)) as Ex. cbn in Ex. rewrite <- Ex, Et.
      exact (StronglySorted_app_1_elem_of age_le l1 l2 _ _ Hs H Hx). }
    exists e. split; [|split; [done|]].
    { rewrite <- Hm. apply (list_elem_of_fmap_2' fst l (e, t)); [|done]. rewrite <- Hp. set_solver. }
    right. exists (map fst l2). split; [|split; [|exact Hlater]].
    + assert (0 < length l1)%nat by (destruct l1; [by apply elem_of_nil in H|cbn; lia]).
      rewrite length_map. rewrite length_app in Hl. unfold k, l, MAX_DEAD_LETTER_ENTRIES in *.
      rewrite length_map in Hk. lia.
    + rewrite <- Hm, <- Hp, map_app. change (e :: map fst l2) with ([e] ++ map fst l2).
      apply submseteq_app; [|done]. apply singleton_submseteq_l.
      by apply (list_elem_of_fmap_2' fst l1 (e, t)).
Qed.
Lemma keeps_delete_all i R V ids n b : kept_safe i R V b →
  (i ∈ ids → delivered R V b ∨ is_Some (main b !! entry_name i)) →
  kept_safe i R V (delete_all disk ids n b).1.
Proof.
  revert n b. induction ids as [|x ids IH]; intros n b Hb Hi; [done|]. cbn [delete_all].
  unfold deleteDeadLetterEntry. cbv [mbind M_bind gets].
  destruct (dead b !! entry_name x) as [g|]; [|apply IH; [done|set_solver]].
  set (F := λ b, set_dead (delete (entry_name x) (dead b)) b).
  assert (∀ t, kept_safe i R V (F (mkBox (main b) (dead b) (accepted b) t))) as HF.
  { intros t. destruct Hb as [Hw [Hs1 Hs2]]. split; [|split; [done|]].
    - intros name f v. cbn. intros [Hf|[_ Hf]%lookup_delete_Some]; apply Hw; [by left|by right].
    - cbn. destruct (decide (x = i)) as [->|Hne]; [|rewrite lookup_delete_ne; [exact Hs2|];
        intros E; by apply entry_name_inj in E].
      destruct (Hi (list_elem_of_here _ _)) as [Hd|Hm]; [by left|right; by left]. }
  unfold change. fold F. destruct (disk (tick b)); cbv [mret M_ret].
  - apply IH; [apply HF|]. intros H. apply Hi. by right.
  - by apply (kept_safe_sent i R V b _ []); [| |cbn; rewrite app_nil_r|].
  - apply HF.
Qed.
Lemma keeps_retention i R V now b : kept_safe i R V b →
  kept_safe i R V (retention_pass disk now b).1 ∨ retires i R V b (ORetain now).
Proof.
  intros Hb. pose proof (keeps_prune disk i R V now b Hb) as Hb'. unfold retention_pass, retires.
  cbv [mbind M_bind]. destruct (pruneStaleOutboxEntries disk now b) as [b' [n|e]]; cbn [fst] in *; [|by left].
  unfold pruneDeadLetterEntries. cbv [mbind M_bind gets].
  set (ids := expired_ids _ _ _ b').
  assert (kept_safe i R V (delete_all disk ids 0 b').1 ∨
    ∃ e, e ∈ listDeadLetterEntries b' ∧ tracked i R V e ∧ past_retention now b' e) as [H|H].
  - pose proof Hb' as [Hw [_ [Hd|[Hm|(f & Hf & Hc)]]]].
    { left. apply keeps_delete_all; auto. }
    { left. apply keeps_delete_all; auto. }
    destruct (decide (i ∈ ids)) as [(e & He & Hid & Hp)%expired_past|Hni]; [|left; by apply keeps_delete_all].
    right. exists e. split; [done|]. split; [|done].
    apply listed_dead in He as (name & g & Hg & Hr). apply read_entry_spec in Hr as [Hj Hv].
    assert (name = entry_name i) as -> by (rewrite <- Hid; apply (Hw name g); [by right|done..]).
    destruct Hc as (_ & _ & v & Hv' & Ht). congruence.
  - left. by destruct (delete_all disk ids 0 b') as [b2 [m|x]].
  - right. destruct H as (e & ? & ? & ?). by exists b', n, e.
Qed.

Lemma keeps_step i R V o b : ¬ persists i o → kept_safe i R V b →
  kept_safe i R V (outbox_step b o) ∨ retires i R V b o.
Proof.
  intros Hp Hb. destruct o; cbn [outbox_step persists] in *.
  - left. by apply keeps_persist.
  - left. by apply keeps_drain.
  - by apply keeps_retention.
Qed.
Lemma keeps_run i R V os b : (∀ o, o ∈ os → ¬ persists i o) → kept_safe i R V b →
  kept_safe i R V (fold_left outbox_step os b) ∨ given_up i R V b os.
Proof.
  revert b. induction os as [|o os IH]; intros b Hp Hb; [by left|]. cbn.
  destruct (keeps_step i R V o b) as [Hb'|Hr]; [apply Hp; by left|done| |by right; left].
  destruct (IH _ (λ x Hx, Hp x (list_elem_of_further _ _ _ Hx)) Hb') as [H|H]; [by left|right; by right].
Qed.

(** A stored copy of an outcome. *)
Definition stored (i : string) (R : jsval) (V : list jsval) (b : box) : Prop :=
  ∃ e, (e ∈ listOutboxEntries b ∨ e ∈ listDeadLetterEntries b) ∧
    id_of e = i ∧ get "result" e = R ∧ evidence_of e = V.
Lemma kept_safe_stored i R V b : kept_safe i R V b → delivered R V b ∨ stored i R V b.
Proof.
  intros [_ [Hs1 [H|[[f Hf]|(f & Hf & Hc)]]]]; [by left|right..].
  - destruct (carries_listed _ _ _ _ (Hs1 f Hf)) as (e & He & Ht). exists e.
    split; [left; apply listed; eauto|apply Ht].
  - destruct (carries_listed _ _ _ _ Hc) as (e & He & Ht). exists e.
    split; [right; apply listed_dead; eauto|apply Ht].
Qed.

Lemma persisted_kept_safe freshId now R V b b1 x :
  well_named b → persistAndTransmitOutcome net disk freshId now R V b = (b1, Ok x) →
  kept_safe freshId R V b1.
Proof.
  intros Hw H. unfold persistAndTransmitOutcome in H. cbv [mbind M_bind] in H.
  destruct (enqueueOutboxEntry _ _ _ _ b) as [b' [e|e]] eqn:E; [|done].
  apply enqueue_spec in E as (Hv & Hsz & HR & Hid & HV & Hm & Hd & Ha).
  cbn in Hid, HR, HV. assert (tracked freshId R V e) as Ht by done.
  assert (kept_safe freshId R V b') as Hb.
  { split; [|split].
    - intros name f v. rewrite Hm. rewrite Hd. intros [[[<- <-]|[_ Hf]]%lookup_insert_Some|Hf];
        [|apply Hw; by left|apply Hw; by right]. by intros [= <-] _.
    - intros f. rewrite Hm. intros [[_ <-]|[Hne _]]%lookup_insert_Some; [|by rewrite Hid in Hne].
      split; [done|]. split; [|by exists e]. cbn. unfold serialized_bytes, slen in *. lia.
    - right. left. rewrite Hm, Hid, lookup_insert_eq. done. }
  replace b1 with ((_ ← try_catch (_ ← transmitOutboxEntry net e; acknowledgeOutboxEntry disk (id_of e));
                   mret x : M (jsval * jsval)) b').1.
  - refine (keeps_bind _ _ _ _ _ (keeps_try _ _ _ _ (keeps_deliver net disk freshId R V e (λ _, Ht)))
              (λ _, keeps_ret _ _ _ x) b' Hb).
  - cbv [mbind M_bind]. by injection H as <- _.
Qed.
End outbox_runs.

(** C29: no outcome is lost.  Once [persistAndTransmitOutcome] returned, then
    after any later outcomes, drain passes and retention passes of the poll
    loop — whatever requests fail, whichever writes, renames and removals throw
    before or after they took effect, however the failures are classified and
    at whatever times — either the evidence and the result were sent and
    accepted in order, or the outbox or its dead-letter directory still lists
    an entry with exactly that result and evidence, or a retention pass of the
    run found that entry among the dead letters past their retention: there for
    more than 30 days, or with 5000 others no older. *)
Theorem no_outcome_lost {dp : DateParse} (net : nat → option jsval) (disk : nat → write_outcome)
    (random : nat → Z) (os : list outbox_op) (freshId : string) (nowMs : Z) (R : jsval) (V : list jsval)
    (b b1 : box) (x : jsval * jsval) :
  well_named b →
  persistAndTransmitOutcome net disk freshId nowMs R V b = (b1, Ok x) →
  (∀ o, o ∈ os → ¬ persists freshId o) →
  let b2 := fold_left (outbox_step net disk random) os b1 in
  delivered R V b2 ∨ stored freshId R V b2 ∨ given_up net disk random freshId R V b1 os.
Proof.
  intros Hw Hp Ho. destruct (keeps_run net disk random freshId R V os b1 Ho) as [H|H].
  - by eapply persisted_kept_safe.
  - apply kept_safe_stored in H as [H|H]; [by left|by right; left].
  - by right; right.
Qed.
Definition demo_result : jsval := Obj [("jobId", Str "job-1"); ("status", Str "succeeded")].
(** The first evidence request fails for good; the disk throws after the
    rename of the quarantine. *)
Definition demo_net (n : nat) : option jsval :=
  if (n =? 2)%nat then Some (Obj [("status", Num (Fin 503))])
  else if (n =? 3)%nat then Some (Obj [("status", Num (Fin 422)); ("message", Str "no")]) else None.
Definition demo_disk (n : nat) : write_outcome := if (n =? 7)%nat then WrittenThenThrew else Written.
Definition empty_box : box := mkBox ∅ ∅ [] 0.
Definition by_status (err _ : jsval) : option bool := Some (defaultIsPermanentFailure err).
Lemma no_outcome_lost_witness :
  let b1 := (persistAndTransmitOutcome demo_net demo_disk "outbox-1" 1767225600000 demo_result [Obj []] empty_box).1 in
  let os := [ODrain by_status 1767225700000; ORetain 1767225700000;
             OPersist "outbox-2" 1767225800000 demo_result []; ODrain by_status 1767225900000] in
  let b2 := fold_left (@outbox_step iso_date_parse demo_net demo_disk (λ _, 5)) os b1 in
  (delivered demo_result [Obj []] b2 ∨ stored "outbox-1" demo_result [Obj []] b2 ∨
   given_up (dp := iso_date_parse) demo_net demo_disk (λ _, 5) "outbox-1" demo_result [Obj []] b1 os) ∧
  main b2 = ∅ ∧ map id_of (listDeadLetterEntries b2) = ["outbox-1"].
Proof.
  split; [|split; vm_compute; reflexivity].
  refine (@no_outcome_lost iso_date_parse demo_net demo_disk (λ _, 5) _ "outbox-1" 1767225600000 demo_result
            [Obj []] empty_box _ (Str "succeeded", Null) _ _ _).
  - intros name f v H. exfalso. cbn in H. rewrite lookup_empty in H. by destruct H.
  - vm_compute. reflexivity.
  - intros o Ho. apply list_elem_of_In in Ho. destruct Ho as [<-|[<-|[<-|[<-|[]]]]]; intros H; cbn in H; first [discriminate H|done].
Defined.

(** * Retry bookkeeping *)

Section retries.
Context {dp : DateParse}.

Lemma backoff_base_range n : RETRY_BACKOFF_BASE_MS <= backoff_base n <= RETRY_BACKOFF_MAX_MS.
Proof.
  unfold backoff_base, RETRY_BACKOFF_BASE_MS, RETRY_BACKOFF_MAX_MS.
  pose proof (Z.pow_pos_nonneg 2 (Z.max 0 n) ltac:(lia) ltac:(lia)). lia.
Qed.
Lemma backoff_bounds random n : 0 <= random < RANDOM_ONE →
  let d := computeRetryBackoffMs random (Fin n) in
  8 * backoff_base n <= 10 * d + 5 ∧ 10 * d <= 12 * backoff_base n + 5 ∧ 0 < d.
Proof.
  intros Hr. pose proof (backoff_base_range n) as Hb. unfold RETRY_BACKOFF_BASE_MS in Hb.
  cbv zeta. unfold computeRetryBackoffMs. set (B := backoff_base n) in *.
  set (q := _ / _). assert (10 * q <= 12 * B + 5 ∧ 8 * B <= 10 * q + 5) as [H1 H2].
  { unfold q, RANDOM_ONE in *.
    pose proof (Z.div_mod (2 * B * (8 * 2 ^ 53 + 4 * random) + 10 * 2 ^ 53) (20 * 2 ^ 53) ltac:(lia)) as Hd.
    pose proof (Z.mod_pos_bound (2 * B * (8 * 2 ^ 53 + 4 * random) + 10 * 2 ^ 53) (20 * 2 ^ 53) ltac:(lia)) as Hm.
    set (Q := _ / _) in *. set (R := _ mod _) in *. clearbody Q R.
    assert (0 <= B * random <= B * 2 ^ 53) by nia. lia. }
  lia.
Qed.

Lemma failed_entry_fields random e err now : is_obj e = true →
  let e' := failed_entry random e err now in
  is_obj e' = true ∧
  attempts_of e' = attempts_of e + 1 ∧
  get "firstAttemptAt" e' = (if truthy (get "firstAttemptAt" e) then get "firstAttemptAt" e
                             else Str (toISOString now)) ∧
  get "nextRetryAt" e' =
    Str (toISOString (now + computeRetryBackoffMs random (Fin (attempts_of e)))).
Proof.
  destruct e as [| | | | | |fs]; try done. intros _. cbv zeta.
  assert (0 <= attempts_of (Obj fs)) as Hn
    by (unfold attempts_of; repeat case_match; split_bool; lia).
  unfold failed_entry. cbv zeta beta. set (n := attempts_of (Obj fs)) in *. clearbody n.
  split; [done|]. unfold with_field. cbn [get]. split; [|split].
  - unfold attempts_of. cbn [get]. rewrite !assoc_get_set_ne by done. rewrite assoc_get_set_eq.
    cbn. destruct (0 <=? n + 1) eqn:E; split_bool; lia.
  - rewrite !assoc_get_set_ne by done. by rewrite assoc_get_set_eq.
  - by rewrite assoc_get_set_eq.
Qed.

(** A failed attempt: its jitter, error and time. *)
Definition failure : Type := Z * jsval * Z.
Definition fail_once (e : jsval) (x : failure) : jsval := failed_entry x.1.1 e x.1.2 x.2.
Definition after_failures (e : jsval) (fs : list failure) : jsval := fold_left fail_once fs e.

Lemma toISOString_truthy t : valid_time t = true → truthy (Str (toISOString t)) = true.
Proof.
  intros Hv%read_iso_toISOString. cbn. destruct (toISOString t); [|done].
  vm_compute in Hv. discriminate Hv.
Qed.
Lemma after_failures_spec fs e t0 : is_obj e = true → valid_time t0 = true →
  get "firstAttemptAt" e = Str (toISOString t0) →
  let e' := after_failures e fs in
  is_obj e' = true ∧ attempts_of e' = attempts_of e + Z.of_nat (length fs) ∧
  get "firstAttemptAt" e' = Str (toISOString t0).
Proof.
  intros Ho Hv. revert e Ho. induction fs as [|x fs IH]; intros e Ho Hf; cbv zeta; cbn [after_failures fold_left length].
  - split; [done|]. split; [lia|done].
  - destruct (failed_entry_fields x.1.1 e x.1.2 x.2 Ho) as (H1 & H2 & H3 & _).
    assert (truthy (get "firstAttemptAt" e) = true) as Ht by (rewrite Hf; by apply toISOString_truthy).
    rewrite Ht, Hf in H3. destruct (IH (fail_once e x) H1 H3) as (H4 & H5 & H6).
    split; [done|]. split; [|done]. unfold after_failures in H5. rewrite H5. unfold fail_once. rewrite H2. lia.
Qed.
End retries.

(** When a failing entry is given up.  A fresh entry that failed at the
    successive times [t0], ... is past the transient-retry window exactly
    after 500 failures, or after at least 8 of them the last of which is at
    least 48 hours after the first ONE — however old the outcome itself is,
    and whatever the errors and the jitter were. *)
Theorem transient_retry_window {dp : DateParse} (e : jsval) (random : Z) (err : jsval) (t0 : Z)
    (fs : list failure) (nowMs : Z) :
  is_obj e = true → get "attempts" e = Undef → get "firstAttemptAt" e = Undef →
  valid_time t0 = true →
  let n := 1 + Z.of_nat (length fs) in
  hasExceededTransientRetryWindow (after_failures (failed_entry random e err t0) fs) nowMs = true ↔
  500 <= n ∨ 8 <= n ∧ t0 + 48 * 3600000 <= nowMs.
Proof.
  intros Ho Ha Hf Hv. cbv zeta.
  destruct (failed_entry_fields random e err t0 Ho) as (H1 & H2 & H3 & _).
  rewrite Hf in H3. cbn in H3.
  destruct (after_failures_spec fs _ t0 H1 Hv H3) as (_ & H5 & H6).
  unfold attempts_of in H2 at 2. rewrite Ha in H2. rewrite H2 in H5.
  unfold hasExceededTransientRetryWindow. cbv zeta. rewrite H5, H6. cbn [parse_date].
  rewrite (date_parse_toISOString t0 Hv).
  unfold FALLBACK_MAX_ATTEMPTS_BEFORE_QUARANTINE, MIN_ATTEMPTS_BEFORE_AGE_QUARANTINE, MAX_TRANSIENT_RETRY_AGE_MS.
  destruct (500 <=? _) eqn:E1; split_bool; [split; [lia|done]|].
  destruct (_ <? 8) eqn:E2; split_bool; [split; [done|lia]|].
  rewrite Z.leb_le. lia.
Qed.
Lemma transient_retry_window_witness :
  let dp := iso_date_parse in
  let e := Obj [("id", Str "outbox-1"); ("createdAt", Str "2025-01-01T00:00:00.000Z");
                ("result", demo_result); ("evidence", Arr [])] in
  let fs k := repeat (0, Obj [], 1767225600001) k in
  hasExceededTransientRetryWindow
    (after_failures (failed_entry 0 e (Obj []) 1767225600000) (fs 7%nat)) (1767225600000 + 172800000) = true ∧
  ¬ hasExceededTransientRetryWindow
    (after_failures (failed_entry 0 e (Obj []) 1767225600000) (fs 6%nat)) (1767225600000 + 172800000) = true.
Proof.
  cbv zeta. split.
  - apply (@transient_retry_window iso_date_parse); [done..|]. right. cbn. lia.
  - rewrite (@transient_retry_window iso_date_parse) by done. cbn. lia.
Defined.

(** The backoff.  After the [n]-th failure an entry is due again no earlier
    than 80% and no later than 120% of [min(15 s * 2^n, 30 min)] (to the
    half millisecond of the rounding), so always between 12 seconds and 36
    minutes later, and never before. *)
Theorem backoff_window {dp : DateParse} (e err : jsval) (random nowMs t : Z) :
  is_obj e = true → 0 <= random < RANDOM_ONE → valid_time nowMs = true →
  valid_time (nowMs + 2160000) = true →
  let e' := failed_entry random e err nowMs in
  let base := backoff_base (attempts_of e) in
  (isDueForRetry e' t = true → 10 * nowMs + 8 * base <= 10 * t + 5 ∧ nowMs + 12000 <= t) ∧
  (10 * nowMs + 12 * base + 5 <= 10 * t → isDueForRetry e' t = true) ∧
  (nowMs + 2160000 <= t → isDueForRetry e' t = true).
Proof.
  intros Ho Hr Hv Hv2. cbv zeta.
  destruct (failed_entry_fields random e err nowMs Ho) as (_ & _ & _ & Hn).
  pose proof (backoff_bounds random (attempts_of e) Hr) as (H1 & H2 & H3).
  pose proof (backoff_base_range (attempts_of e)) as Hb.
  unfold RETRY_BACKOFF_BASE_MS, RETRY_BACKOFF_MAX_MS in Hb.
  set (d := computeRetryBackoffMs _ _) in *. clearbody d.
  unfold isDueForRetry. rewrite Hn.
  rewrite date_parse_toISOString by (unfold valid_time in *; split_bool; apply andb_true_intro;
    split; apply Z.leb_le; lia).
  rewrite !Z.leb_le. lia.
Qed.
Lemma backoff_window_witness :
  let dp := iso_date_parse in
  let e' := failed_entry 0 (Obj [("attempts", Num (Fin 3))]) (Obj []) 1767225600000 in
  backoff_base 3 = 120000 ∧
  (isDueForRetry e' (1767225600000 + 144001) = true ∧ isDueForRetry e' (1767225600000 + 95999) ≠ true).
Proof.
  cbv zeta. split; [reflexivity|].
  destruct (@backoff_window iso_date_parse (Obj [("attempts", Num (Fin 3))]) (Obj []) 0 1767225600000
    (1767225600000 + 144001) eq_refl ltac:(split; [done|reflexivity]) eq_refl eq_refl) as (_ & H & _).
  destruct (@backoff_window iso_date_parse (Obj [("attempts", Num (Fin 3))]) (Obj []) 0 1767225600000
    (1767225600000 + 95999) eq_refl ltac:(split; [done|reflexivity]) eq_refl eq_refl) as (H' & _).
  split; [apply H; vm_compute; discriminate|]. intros [Hc _]%H'. vm_compute in Hc. by apply Hc.
Defined.

(** * A drain with a working network and disk *)

Section faultless.
Context {dp : DateParse} (net : nat → option jsval) (disk : nat → write_outcome)
  (random : nat → Z).
Hypothesis (Hnet : ∀ n, net n = None) (Hdisk : ∀ n, disk n = Written).

Lemma send_all_faultless l b : ∃ t,
  send_all net l b = (mkBox (main b) (dead b) (accepted b ++ l) t, Ok tt).
Proof.
  revert b. induction l as [|s l IH]; intros b; cbn.
  - exists (tick b). rewrite app_nil_r. by destruct b.
  - cbv [mbind M_bind request]. rewrite Hnet.
    destruct (IH (mkBox (main b) (dead b) (accepted b ++ [s]) (S (tick b)))) as [t ->].
    exists t. cbn. by rewrite <- app_assoc.
Qed.
Lemma deliver_faultless e b : validateEntry e = Some e → ∃ t x,
  (_ ← transmitOutboxEntry net e; acknowledgeOutboxEntry disk (id_of e)) b =
  (mkBox (delete (entry_name (id_of e)) (main b)) (dead b) (accepted b ++ bodies e) t, Ok x).
Proof.
  intros Hv. unfold transmitOutboxEntry. rewrite Hv. cbv [mbind M_bind].
  destruct (send_all_faultless (bodies e) b) as [t ->].
  unfold acknowledgeOutboxEntry. cbv [mbind M_bind gets]. cbn [main].
  destruct (main b !! _) eqn:E.
  - unfold change. cbn [tick]. rewrite Hdisk. by eexists _, _.
  - exists t, false. rewrite delete_id by done. done.
Qed.

Definition due (now : Z) (e : jsval) : bool := isDueForRetry e now.
Definition n_due (now : Z) (l : list jsval) : Z := Z.of_nat (length (List.filter (due now) l)).
Definition drop_due (now : Z) (m : gmap string file) (e : jsval) : gmap string file :=
  if due now e then delete (entry_name (id_of e)) m else m.

Lemma drain_loop_faultless isP now pending c b :
  Forall (λ e, validateEntry e = Some e) pending → ∃ t,
  drain_loop net disk random isP now pending c b =
  (mkBox (fold_left (drop_due now) pending (main b)) (dead b)
     (accepted b ++ flat_map bodies (List.filter (due now) pending)) t,
   Ok (mkCounts (transmitted c + n_due now pending)
         (deferred c + (Z.of_nat (length pending) - n_due now pending))
         (quarantined c) (remaining c - n_due now pending))).
Proof.
  intros Hp. revert c b. induction Hp as [|e pending Hv _ IH]; intros c b.
  - exists (tick b). unfold n_due. cbn. rewrite app_nil_r, !Z.add_0_r, Z.sub_0_r. by destruct b, c.
  - cbn [drain_loop]. cbv [mbind M_bind]. unfold drain_entry. change (isDueForRetry e now) with (due now e).
    unfold n_due in *. cbn [List.filter fold_left]. unfold drop_due at 2.
    destruct (due now e); cbn [negb flat_map length].
    + cbv [mbind M_bind try_catch]. destruct (deliver_faultless e b Hv) as (t & x & Hd).
      cbv [mbind M_bind] in Hd. rewrite Hd. cbn [fst snd].
      destruct (IH (mkCounts (transmitted c + 1) (deferred c) (quarantined c) (remaining c - 1))
        (mkBox (delete (entry_name (id_of e)) (main b)) (dead b) (accepted b ++ bodies e) t)) as [t' H].
      cbv [mret M_ret]. rewrite H. exists t'. cbn. rewrite <- app_assoc. do 3 f_equal; lia.
    + cbv [mret M_ret].
      destruct (IH (mkCounts (transmitted c) (deferred c + 1) (quarantined c) (remaining c)) b) as [t' H].
      rewrite H. exists t'. cbn. do 3 f_equal; lia.
Qed.
Lemma drop_due_lookup now l m name :
  fold_left (drop_due now) l m !! name =
  if existsb (λ e, due now e && bool_decide (entry_name (id_of e) = name)) l then None else m !! name.
Proof.
  revert m. induction l as [|e l IH]; intros m; [done|]. cbn. rewrite IH.
  unfold drop_due. destruct (due now e); cbn; [|done].
  destruct (existsb _ l); [by rewrite orb_true_r|]. rewrite orb_false_r.
  case_bool_decide as Hn; [subst; by rewrite lookup_delete_eq|by rewrite lookup_delete_ne].
Qed.
Lemma listed_valid b : Forall (λ e, validateEntry e = Some e) (listOutboxEntries b).
Proof.
  apply Forall_forall. intros e (n & f & _ & Hr)%listed. by apply read_entry_spec in Hr as [_ ?].
Qed.
End faultless.

(** A drain makes progress.  When the control plane accepts and the disk
    works, a pass sends exactly the due entries' evidence and results, entry
    by entry in the order of the listing; it removes exactly their files,
    leaves every other file and the dead-letter directory as they were, and
    its counts are right. *)
Theorem drain_delivers_due {dp : DateParse} (net : nat → option jsval) (disk : nat → write_outcome)
    (random : nat → Z) (isPermanent : jsval → jsval → option bool) (now : Z) (b : box) :
  (∀ n, net n = None) → (∀ n, disk n = Written) →
  let pending := listOutboxEntries b in
  let sent_now := List.filter (due now) pending in
  let k := Z.of_nat (length sent_now) in
  let r := drainOutbox net disk random isPermanent now b in
  r.2 = Ok (mkCounts k (Z.of_nat (length pending) - k) 0 (Z.of_nat (length pending) - k)) ∧
  accepted r.1 = accepted b ++ flat_map bodies sent_now ∧
  dead r.1 = dead b ∧
  ∀ name, main r.1 !! name =
    if existsb (λ e, bool_decide (entry_name (id_of e) = name)) sent_now then None else main b !! name.
Proof.
  intros Hn Hd. cbv zeta. unfold drainOutbox. cbv [mbind M_bind gets].
  destruct (drain_loop_faultless net disk random Hn Hd isPermanent now (listOutboxEntries b)
    (mkCounts 0 0 0 (Z.of_nat (length (listOutboxEntries b)))) b (listed_valid b)) as [t ->].
  cbn. split; [by rewrite !Z.add_0_l|]. split; [done|]. split; [done|]. intros name.
  rewrite drop_due_lookup.
  replace (existsb _ (List.filter _ _)) with
    (existsb (λ e, due now e && bool_decide (entry_name (id_of e) = name)) (listOutboxEntries b)); [done|].
  induction (listOutboxEntries b) as [|e l IH]; [done|]. cbn. destruct (due now e); cbn; by rewrite IH.
Qed.
Lemma drain_delivers_due_witness :
  let ok := λ _ : nat, None : option jsval in
  let works := λ _ : nat, Written in
  let down := λ _ : nat, Some (Obj [("message", Str "offline")]) : option jsval in
  let b1 := (persistAndTransmitOutcome down works "outbox-1" 1767225600000 demo_result [Obj []] empty_box).1 in
  let r := @drainOutbox iso_date_parse ok works (λ _, 5) by_status 1767225700000 b1 in
  r.2 = Ok (mkCounts 1 0 0 0) ∧ accepted r.1 = [Evidence (Obj []); Result demo_result].
Proof.
  cbv zeta. set (b1 := (persistAndTransmitOutcome _ _ _ _ _ _ _).1).
  destruct (@drain_delivers_due iso_date_parse (λ _, None) (λ _, Written) (λ _, 5) by_status 1767225700000 b1
    (λ _, eq_refl) (λ _, eq_refl)) as (H1 & H2 & _).
  split; [rewrite H1; vm_compute; reflexivity|rewrite H2; vm_compute; reflexivity].
Defined.
