(* ===== verification/Jobs.v ===== *)
(** Certificate jobs of the control plane: the status machine, the public
    metadata boundary and [updateCertificateJobStatus] of
    apps/api/services/certops/jobs.js.

    The table maps (workspace, id) to the columns the code reads or writes.
    Writers run concurrently, one SQL statement at a time: a writer is a state
    machine whose step is its next statement, and a system step lets any of
    them go on.  The detectors of packages/log-scrub are parameters; values
    are trees, as JSON gives them, so the scan's cycle check never fires. *)
From S2P Require Import Prelude Dates Json.
From stdpp Require Import relations.
Open Scope Z_scope.

Inductive job_error :=
| CERTOPS_JOB_INVALID | CERTOPS_JOB_NOT_FOUND | CERTOPS_JOB_STATUS_INVALID
| CERTOPS_JOB_STATUS_TRANSITION_INVALID | CERTOPS_JOB_METADATA_INVALID
| CERTOPS_JOB_WORKSPACE_REQUIRED | CERTOPS_JOB_MODE_INVALID
| CERTOPS_JOB_MODE_TERMINAL_INVALID | PRIVATE_KEY_MATERIAL_REJECTED
| CERTOPS_JOB_OPERATION_INVALID | CERTOPS_JOB_SOURCE_INVALID | CERTOPS_JOB_IDEMPOTENCY_CONFLICT
| CERTOPS_JOB_EXECUTION_FIELD_INVALID | CERTOPS_JOB_EXECUTION_FIELD_REQUIRED
| CERTOPS_RENEWAL_PROFILE_INVALID | CERTOPS_RENEWAL_AUTO_RENEW_DISABLED
| CERTOPS_CERTIFICATE_NOT_AGENT_DEPLOYABLE | CERTOPS_CERTIFICATE_NOT_RENEWABLE
| CERTOPS_CERTIFICATE_RETIRED | CERTOPS_PUBLICATION_TRANSACTION_REQUIRED
| CERTOPS_RENEWAL_PER_CA_CAP_EXCEEDED | OPERATOR_INTENT_STALE
(* PostgreSQL's 23505 on the idempotency index, and any other error *)
| unique_idempotency_key | other_error (code : string).
#[global] Instance job_error_eq_dec : EqDecision job_error.
Proof. solve_decision. Defined.

(** * Statuses *)

Inductive job_status :=
| pending_approval | approved | rejected | pending | claimed | running
| succeeded | failed | blocked | cancelled
| dry_run_complete | orphaned_unknown_effect | awaiting_issuer.
#[global] Instance job_status_eq_dec : EqDecision job_status.
Proof. solve_decision. Defined.
Definition JOB_STATUSES : list job_status :=
  [pending_approval; approved; rejected; pending; claimed; running; succeeded; failed; blocked;
   cancelled; dry_run_complete; orphaned_unknown_effect; awaiting_issuer].
Definition status_name (s : job_status) : string :=
  match s with
  | pending_approval => "pending_approval" | approved => "approved" | rejected => "rejected"
  | pending => "pending" | claimed => "claimed" | running => "running"
  | succeeded => "succeeded" | failed => "failed" | blocked => "blocked"
  | cancelled => "cancelled" | dry_run_complete => "dry_run_complete"
  | orphaned_unknown_effect => "orphaned_unknown_effect" | awaiting_issuer => "awaiting_issuer"
  end.
Definition TERMINAL_JOB_STATUSES : list job_status :=
  [rejected; succeeded; failed; blocked; cancelled; dry_run_complete; orphaned_unknown_effect;
   awaiting_issuer].
Definition isTerminalJobStatus (s : job_status) : bool := bool_decide (s ∈ TERMINAL_JOB_STATUSES).
Definition ACTIVE_JOB_STATUSES : list job_status :=
  List.filter (λ s, negb (isTerminalJobStatus s)) JOB_STATUSES.
Definition ACTIVE_JOB_STATUS_ORDER : list job_status :=
  [pending_approval; approved; pending; claimed; running].
(** [Map.get]: [None] is [undefined]. *)
Definition ACTIVE_JOB_STATUS_RANK (s : job_status) : option nat :=
  fst <$> list_find (s =.) ACTIVE_JOB_STATUS_ORDER.
Definition JOB_STATUS_TRANSITIONS (s : job_status) : list job_status :=
  match s with
  | pending_approval => [approved; rejected; cancelled]
  | approved => [pending; rejected; cancelled]
  | pending => [claimed; running; succeeded; failed; rejected; blocked; cancelled; dry_run_complete;
                awaiting_issuer]
  | claimed => [running; succeeded; failed; rejected; blocked; cancelled; dry_run_complete;
                orphaned_unknown_effect; awaiting_issuer]
  | running => [succeeded; failed; rejected; blocked; cancelled; dry_run_complete;
                orphaned_unknown_effect; awaiting_issuer]
  | _ => []
  end.

Inductive job_mode := real | dry_run.
#[global] Instance job_mode_eq_dec : EqDecision job_mode.
Proof. solve_decision. Defined.
Definition assertModeAllowsTerminalStatus (mode : job_mode) (status : job_status)
  : result job_error unit :=
  match mode, status with
  | dry_run, succeeded | real, dry_run_complete => Err CERTOPS_JOB_MODE_TERMINAL_INVALID
  | _, _ => Ok tt
  end.

Definition assertJobStatusTransition (fromStatus toStatus : job_status) : result job_error unit :=
  if bool_decide (fromStatus = toStatus) || bool_decide (toStatus ∈ JOB_STATUS_TRANSITIONS fromStatus)
  then Ok tt else Err CERTOPS_JOB_STATUS_TRANSITION_INVALID.

Inductive decision := Applied | Ignored (reason : string).
#[global] Instance decision_eq_dec : EqDecision decision.
Proof. solve_decision. Defined.
(** [a < b] on ranks; [undefined] compares false. *)
Definition rank_below (a b : job_status) : bool :=
  match ACTIVE_JOB_STATUS_RANK a, ACTIVE_JOB_STATUS_RANK b with
  | Some x, Some y => (x <? y)%nat
  | _, _ => false
  end.
Definition jobStatusTransitionDecision (fromStatus toStatus : job_status)
  : result job_error decision :=
  if bool_decide (fromStatus = toStatus) then
    Ok (Ignored (if isTerminalJobStatus fromStatus then "terminal_replay" else "active_replay"))
  else if isTerminalJobStatus fromStatus then Ok (Ignored "terminal_regression")
  else if bool_decide (toStatus ∈ JOB_STATUS_TRANSITIONS fromStatus) then Ok Applied
  else if bool_decide (toStatus ∈ ACTIVE_JOB_STATUSES) && rank_below toStatus fromStatus
  then Ok (Ignored "active_regression")
  else _ ← assertJobStatusTransition fromStatus toStatus; Ok Applied.

(** * Normalization of inputs *)

Definition MAX_SCAN_DEPTH : nat := 12.
Definition MAX_TEXT_LENGTH : Z := 1024.
Definition MAX_SHORT_TEXT_LENGTH : Z := 128.
Definition FORBIDDEN_KEY_BEARING_FIELD_FRAGMENTS : list string := ["pem"].

Definition normalizeEnum {A} (names : list (string * A)) (code : job_error) (fallback : option string)
    (value : jsval) : result job_error A :=
  let raw := match value, fallback with
             | (Undef | Null), Some f => Str f
             | _, _ => value
             end in
  match raw with
  | Str s => match assoc_get (trim s) names with Some a => Ok a | None => Err code end
  | _ => Err code
  end.
Definition JOB_STATUS_SET : list (string * job_status) := map (λ s, (status_name s, s)) JOB_STATUSES.
Definition JOB_MODE_SET : list (string * job_mode) := [("real", real); ("dry_run", dry_run)].
Definition normalizeJobMode (value : jsval) : result job_error job_mode :=
  match value with
  | Undef | Null | Str EmptyString => Ok real
  | _ => normalizeEnum JOB_MODE_SET CERTOPS_JOB_MODE_INVALID None value
  end.
Definition nonempty_trimmed (v : jsval) : option string :=
  match v with
  | Str s => if bool_decide (trim s = EmptyString) then None else Some (trim s)
  | _ => None
  end.
Definition normalizeWorkspaceId (v : jsval) : result job_error string :=
  match nonempty_trimmed v with Some s => Ok s | None => Err CERTOPS_JOB_WORKSPACE_REQUIRED end.
Definition normalizeRequiredId (v : jsval) : result job_error string :=
  match nonempty_trimmed v with Some s => Ok s | None => Err CERTOPS_JOB_INVALID end.

Fixpoint keep_chars (p : ascii → bool) (s : string) : string :=
  match s with
  | EmptyString => EmptyString
  | String c s => if p c then String c (keep_chars p s) else keep_chars p s
  end.
Definition normalizedFieldName (s : string) : string :=
  keep_chars (λ c, is_digit c || is_lower_az c) (toLowerCase s).

Section boundary.
Context (containsPrivateKeyMaterial : jsval → bool)
        (assertNoUnredactedGenericSecretMaterial : string → bool)
        (fieldNameLooksPrivateKeyMaterial fieldNameLooksGenericSecret : string → bool).

Definition fieldNameLooksForbidden (fieldName : string) : bool :=
  fieldNameLooksPrivateKeyMaterial fieldName || fieldNameLooksGenericSecret fieldName
  || existsb (λ fragment, includes fragment (normalizedFieldName fieldName))
       FORBIDDEN_KEY_BEARING_FIELD_FRAGMENTS.

(** The detector of generic secrets throws the same error. *)
Fixpoint assertSafePublicValue (depth : nat) (v : jsval) {struct v} : result job_error unit :=
  if (MAX_SCAN_DEPTH <? depth)%nat then Err PRIVATE_KEY_MATERIAL_REJECTED else
  if containsPrivateKeyMaterial v then Err PRIVATE_KEY_MATERIAL_REJECTED else
  match v with
  | Undef | Null | Num _ | Bool _ => Ok tt
  | Str s => ensure (assertNoUnredactedGenericSecretMaterial s) PRIVATE_KEY_MATERIAL_REJECTED
  | Arr l =>
      (fix items (l : list jsval) : result job_error unit :=
         match l with
         | [] => Ok tt
         | x :: l => _ ← assertSafePublicValue (S depth) x; items l
         end) l
  | Obj fs =>
      (fix fields (fs : list (string * jsval)) : result job_error unit :=
         match fs with
         | [] => Ok tt
         | (k, x) :: fs =>
             _ ← ensure (negb (fieldNameLooksForbidden k)) PRIVATE_KEY_MATERIAL_REJECTED;
             _ ← assertSafePublicValue (S depth) x; fields fs
         end) fs
  end.

Fixpoint cloneJsonValue (depth : nat) (v : jsval) {struct v} : result job_error jsval :=
  if (MAX_SCAN_DEPTH <? depth)%nat then Err PRIVATE_KEY_MATERIAL_REJECTED else
  match v with
  | Null | Num _ | Bool _ | Str _ => Ok v
  | Arr l =>
      l ← (fix items (l : list jsval) : result job_error (list jsval) :=
             match l with
             | [] => Ok []
             | x :: l => y ← cloneJsonValue (S depth) x; ys ← items l; Ok (y :: ys)
             end) l;
      Ok (Arr l)
  | Obj fs =>
      fs ← (fix fields (fs : list (string * jsval)) : result job_error (list (string * jsval)) :=
              match fs with
              | [] => Ok []
              | (_, Undef) :: fs => fields fs
              | (k, x) :: fs =>
                  y ← cloneJsonValue (S depth) x; ys ← fields fs;
                  (* assigning to __proto__ adds no property *)
                  Ok (if bool_decide (k = "__proto__") then ys else (k, y) :: ys)
              end) fs;
      Ok (Obj fs)
  | Undef => Err CERTOPS_JOB_METADATA_INVALID
  end.

Definition normalizePublicObject (v : jsval) : result job_error jsval :=
  match v with
  | Undef | Null => Ok (Obj [])
  | Obj _ => _ ← assertSafePublicValue 0 v; cloneJsonValue 0 v
  | _ => Err CERTOPS_JOB_METADATA_INVALID
  end.

(** [normalizeOptionalShortText], [normalizeOptionalPublicText]. *)
Definition normalizeOptionalText (maxLength : Z) (v : jsval) : result job_error (option string) :=
  match v with
  | Undef | Null => Ok None
  | Str s =>
      let trimmed := trim s in
      if bool_decide (trimmed = EmptyString) then Ok None else
      if maxLength <? slen trimmed then Err CERTOPS_JOB_INVALID else
      _ ← assertSafePublicValue 0 (Str trimmed); Ok (Some trimmed)
  | _ => Err CERTOPS_JOB_INVALID
  end.
Definition normalizeOptionalShortText : jsval → result job_error (option string) :=
  normalizeOptionalText MAX_SHORT_TEXT_LENGTH.
Definition normalizeOptionalPublicText : jsval → result job_error (option string) :=
  normalizeOptionalText MAX_TEXT_LENGTH.

(** * Rows *)

Record job_row := mkJobRow {
  j_status : job_status; j_mode : job_mode; j_enrollment : option string;
  j_resultMetadata : jsval; j_errorCode : option string; j_errorMessage : option string;
  j_updatedAt : Z; j_queuedAt : option Z; j_startedAt : option Z; j_completedAt : option Z;
  j_cancelledAt : option Z }.
Definition getJobById (d : gmap (string * string) job_row) (workspaceId jobId : string) : option job_row :=
  d !! (workspaceId, jobId).

Record lifecycle := mkLifecycle {
  queuedAt : option Z; startedAt : option Z; completedAt : option Z; cancelledAt : option Z }.
Definition or_now (explicit : option Z) (b : bool) (now : Z) : option Z :=
  match explicit with Some t => Some t | None => if b then Some now else None end.
Definition completes (s : job_status) : bool :=
  bool_decide (s ∈ [succeeded; failed; blocked; dry_run_complete; orphaned_unknown_effect; awaiting_issuer]).
Definition initialLifecycleTimestamps (options : lifecycle) (status : job_status) (now : Z) : lifecycle :=
  mkLifecycle
    (or_now (queuedAt options) (bool_decide (status ∈ ACTIVE_JOB_STATUSES)) now)
    (or_now (startedAt options) (bool_decide (status = running)) now)
    (or_now (completedAt options) (completes status) now)
    (or_now (cancelledAt options) (bool_decide (status = cancelled)) now).

(** * [updateCertificateJobStatus] *)

Record update_options := mkUpdateOptions {
  o_workspaceId : jsval; o_jobId : jsval; o_status : jsval; o_enrollmentId : jsval;
  o_resultMetadata : option jsval; o_errorCode : option jsval; o_errorMessage : option jsval }.
(** The normalized request; [None] leaves a column as it is. *)
Record update := mkUpdate {
  u_workspaceId : string; u_jobId : string; u_status : job_status;
  u_resultMetadata : option jsval; u_errorCode : option (option string);
  u_errorMessage : option (option string) }.
Definition u_key (u : update) : string * string := (u_workspaceId u, u_jobId u).

Definition normalize_own {A} (f : jsval → result job_error A) (v : option jsval)
  : result job_error (option A) :=
  match v with Some v => a ← f v; Ok (Some a) | None => Ok None end.
(** Everything before the first read of the job, the query that checks the
    bound enrollment included. *)
Definition prepare (o : update_options) (d : gmap (string * string) job_row) : result job_error update :=
  workspaceId ← normalizeWorkspaceId (o_workspaceId o);
  jobId ← normalizeRequiredId (o_jobId o);
  status ← normalizeEnum JOB_STATUS_SET CERTOPS_JOB_STATUS_INVALID None (o_status o);
  _ ← (if bool_decide (status = awaiting_issuer) then
         match o_enrollmentId o, getJobById d workspaceId jobId ≫= j_enrollment with
         | Str e, Some e' =>
             ensure (negb (bool_decide (e = EmptyString)) && bool_decide (e = e')) CERTOPS_JOB_STATUS_INVALID
         | _, _ => Err CERTOPS_JOB_STATUS_INVALID
         end
       else Ok tt);
  resultMetadata ← normalize_own normalizePublicObject (o_resultMetadata o);
  errorCode ← normalize_own normalizeOptionalShortText (o_errorCode o);
  errorMessage ← normalize_own normalizeOptionalPublicText (o_errorMessage o);
  Ok (mkUpdate workspaceId jobId status resultMetadata errorCode errorMessage).

(** [CASE WHEN b THEN COALESCE(t, NOW()) ELSE t END]. *)
Definition stamp (b : bool) (now : Z) (t : option Z) : option Z :=
  if b then Some (default now t) else t.
Definition updated_row (u : update) (now : Z) (r : job_row) : job_row :=
  let s := u_status u in
  mkJobRow s (j_mode r) (j_enrollment r)
    (default (j_resultMetadata r) (u_resultMetadata u))
    (default (j_errorCode r) (u_errorCode u))
    (default (j_errorMessage r) (u_errorMessage u))
    now
    (stamp (bool_decide (s ∈ ACTIVE_JOB_STATUS_ORDER)) now (j_queuedAt r))
    (stamp (bool_decide (s = running)) now (j_startedAt r))
    (stamp (completes s) now (j_completedAt r))
    (stamp (bool_decide (s = cancelled)) now (j_cancelledAt r)).

(** A writer between two statements. *)
Inductive writer :=
| WStart (o : update_options)
| WRead (u : update)
| WCas (u : update) (attempt : nat) (current : job_row)
| WReread (u : update) (attempt : nat)
| WDone (u : option update) (r : result job_error (job_row * decision)).

(** The head of the loop: the mode check and the decision on [current]. *)
Definition decide_update (u : update) (attempt : nat) (current : job_row) : writer :=
  match (_ ← assertModeAllowsTerminalStatus (j_mode current) (u_status u);
         jobStatusTransitionDecision (j_status current) (u_status u)) with
  | Err e => WDone (Some u) (Err e)
  | Ok Applied => WCas u attempt current
  | Ok (Ignored reason) => WDone (Some u) (Ok (current, Ignored reason))
  end.

Definition writer_step (now : Z) (d : gmap (string * string) job_row) (w : writer)
  : gmap (string * string) job_row * writer :=
  match w with
  | WStart o =>
      (d, match prepare o d with Ok u => WRead u | Err e => WDone None (Err e) end)
  | WRead u =>
      (d, match d !! u_key u with
          | Some current => decide_update u 0 current
          | None => WDone (Some u) (Err CERTOPS_JOB_NOT_FOUND)
          end)
  | WCas u attempt current =>
      match d !! u_key u with
      | Some r =>
          if bool_decide (j_status r = j_status current) then
            let r' := updated_row u now r in
            (<[u_key u := r']> d, WDone (Some u) (Ok (r', Applied)))
          else (d, WReread u attempt)
      | None => (d, WReread u attempt)
      end
  | WReread u attempt =>
      (d, match d !! u_key u with
          | Some current =>
              if (S attempt <? 2)%nat then decide_update u (S attempt) current
              else WDone (Some u) (Err CERTOPS_JOB_STATUS_TRANSITION_INVALID)
          | None => WDone (Some u) (Err CERTOPS_JOB_NOT_FOUND)
          end)
  | WDone _ _ => (d, w)
  end.

(** A call that nothing interleaves with. *)
Fixpoint run_writer (fuel : nat) (now : Z) (d : gmap (string * string) job_row) (w : writer)
  : gmap (string * string) job_row * writer :=
  match fuel, w with
  | _, WDone _ _ => (d, w)
  | O, _ => (d, w)
  | S fuel, _ => let '(d, w) := writer_step now d w in run_writer fuel now d w
  end.
Definition updateCertificateJobStatus (now : Z) (o : update_options) (d : gmap (string * string) job_row)
  : gmap (string * string) job_row * option (result job_error (job_row * decision)) :=
  match run_writer 6 now d (WStart o) with
  | (d, WDone _ r) => (d, Some r)
  | (d, _) => (d, None)
  end.

(** Concurrent writers over one table. *)
Definition sys : Type := gmap (string * string) job_row * list writer.
Inductive sys_step : sys → sys → Prop :=
| writer_goes now (i : nat) d ws w d' w' :
    ws !! i = Some w → writer_step now d w = (d', w') → sys_step (d, ws) (d', <[i := w']> ws).
End boundary.

(** * The status machine *)

(** Progress of a job: active ranks, then every terminal status. *)
Definition stage (s : job_status) : nat :=
  match ACTIVE_JOB_STATUS_RANK s with Some n => n | None => 5 end.
Lemma stage_le s : (stage s <= 5)%nat.
Proof. destruct s; vm_compute; lia. Qed.

Lemma decision_applied from to : jobStatusTransitionDecision from to = Ok Applied →
  isTerminalJobStatus from = false ∧ (stage from < stage to)%nat.
Proof. destruct from, to; vm_compute; intros [=]; (split; [done|lia]). Qed.
Lemma decision_terminal from to : isTerminalJobStatus from = true →
  ∃ reason, jobStatusTransitionDecision from to = Ok (Ignored reason).
Proof.
  intros H. unfold jobStatusTransitionDecision. rewrite H.
  case_bool_decide; [by eexists|]. by eexists.
Qed.
Lemma decision_stale from to : isTerminalJobStatus to = false → (stage to <= stage from)%nat →
  ∃ reason, jobStatusTransitionDecision from to = Ok (Ignored reason).
Proof. destruct from, to; vm_compute; intros [=] H; try lia; by eexists. Qed.

(** A path of applied transitions. *)
Fixpoint lifecycle_path (s : job_status) (ss : list job_status) : Prop :=
  match ss with
  | [] => True
  | t :: ss => jobStatusTransitionDecision s t = Ok Applied ∧ lifecycle_path t ss
  end.
Fixpoint final (s : job_status) (ss : list job_status) : job_status :=
  match ss with [] => s | t :: ss => final t ss end.
Lemma lifecycle_path_stage s ss x : lifecycle_path s ss → x ∈ s :: ss →
  (stage x <= stage (final s ss))%nat ∧ (x = final s ss ∨ isTerminalJobStatus x = false).
Proof.
  revert s x. induction ss as [|t ss IH]; intros s x Hp Hx.
  - apply list_elem_of_singleton in Hx as ->. auto.
  - destruct Hp as [Hd Hp]. cbn [final].
    apply decision_applied in Hd as [Ht Hs]. apply elem_of_cons in Hx as [->|Hx].
    + destruct (IH t t Hp ltac:(by left)) as [H1 _]. split; [lia|by right].
    + by apply IH.
Qed.
Lemma redelivery_decision s ss x : lifecycle_path s ss → x ∈ s :: ss →
  ∃ reason, jobStatusTransitionDecision (final s ss) x = Ok (Ignored reason).
Proof.
  intros Hp Hx. destruct (lifecycle_path_stage _ _ _ Hp Hx) as [Hs [->|Ht]].
  - unfold jobStatusTransitionDecision. rewrite bool_decide_eq_true_2 by done. by eexists.
  - by apply decision_stale.
Qed.

Section jobs.
Context (containsPrivateKeyMaterial : jsval → bool)
        (assertNoUnredacted : string → bool)
        (looksPrivate looksGeneric : string → bool).
Notation prepare := (prepare containsPrivateKeyMaterial assertNoUnredacted looksPrivate looksGeneric).
Notation writer_step :=
  (writer_step containsPrivateKeyMaterial assertNoUnredacted looksPrivate looksGeneric).
Notation sys_step := (sys_step containsPrivateKeyMaterial assertNoUnredacted looksPrivate looksGeneric).
Notation updateCertificateJobStatus :=
  (updateCertificateJobStatus containsPrivateKeyMaterial assertNoUnredacted looksPrivate looksGeneric).

(** * Termination *)

(** Statements a writer may still issue. *)
Definition budget (w : writer) : nat :=
  match w with
  | WStart _ => 6
  | WRead _ => 5
  | WCas _ n _ => if (n =? 0)%nat then 4 else 2
  | WReread _ n => if (n =? 0)%nat then 3 else 1
  | WDone _ _ => 0
  end.
Lemma budget_decide u n cur : (budget (decide_update u n cur) <= budget (WCas u n cur))%nat.
Proof. unfold decide_update. repeat case_match; simpl; lia. Qed.
Lemma budget_step now d w : (budget (writer_step now d w).2 <= budget w - 1)%nat.
Proof.
  destruct w as [o|u|u n cur|u n|u r]; cbn [Jobs.writer_step snd].
  - destruct (prepare o d); simpl; lia.
  - destruct (d !! u_key u); [|simpl; lia]. pose proof (budget_decide u 0 j). simpl in *; lia.
  - destruct (d !! u_key u); [|simpl; repeat case_match; lia].
    case_bool_decide; simpl; repeat case_match; lia.
  - destruct (d !! u_key u); [|simpl; repeat case_match; lia].
    pose proof (budget_decide u (S n) j). destruct n as [|n]; simpl in *; lia.
  - simpl. lia.
Qed.
Lemma budget_done w : budget w = 0%nat → ∃ u r, w = WDone u r.
Proof. destruct w as [| |u n|u n|]; simpl; repeat case_match; try done; eauto. Qed.
(** A writer stepping through whatever tables the others leave it. *)
Definition writer_run (w : writer) (ds : list (Z * gmap (string * string) job_row)) : writer :=
  fold_left (λ w nd, (writer_step nd.1 nd.2 w).2) ds w.
Lemma writer_run_budget w ds : (budget (writer_run w ds) <= budget w - length ds)%nat.
Proof.
  revert w. induction ds as [|[now d] ds IH]; intros w; cbn; [lia|].
  specialize (IH (writer_step now d w).2). pose proof (budget_step now d w). unfold writer_run in IH. lia.
Qed.

(** * What a writer can do to a row *)

Definition apply_step (r r' : job_row) : Prop := ∃ u now,
  jobStatusTransitionDecision (j_status r) (u_status u) = Ok Applied ∧
  assertModeAllowsTerminalStatus (j_mode r) (u_status u) = Ok tt ∧
  r' = updated_row u now r.
Definition mode_ok (r : job_row) : Prop :=
  (j_mode r = dry_run → j_status r ≠ succeeded) ∧ (j_mode r = real → j_status r ≠ dry_run_complete).
(** Columns that are written once. *)
Definition kept_once (a b : option Z) : Prop := ∀ t, a = Some t → b = Some t.

Lemma apply_step_row r r' : apply_step r r' →
  isTerminalJobStatus (j_status r) = false ∧ (stage (j_status r) < stage (j_status r'))%nat ∧
  j_mode r' = j_mode r ∧ j_enrollment r' = j_enrollment r ∧ mode_ok r' ∧
  kept_once (j_queuedAt r) (j_queuedAt r') ∧ kept_once (j_startedAt r) (j_startedAt r') ∧
  kept_once (j_completedAt r) (j_completedAt r') ∧ kept_once (j_cancelledAt r) (j_cancelledAt r').
Proof.
  intros (u & now & Hd & Hm & ->). apply decision_applied in Hd as [Ht Hs].
  assert (∀ b a, kept_once a (stamp b now a)) as Hk by (intros [] a t ->; done).
  repeat split; try done; try apply Hk.
  - cbn. intros E H. by rewrite E, H in Hm.
  - cbn. intros E H. by rewrite E, H in Hm.
Qed.
Lemma kept_once_trans a b c : kept_once a b → kept_once b c → kept_once a c.
Proof. unfold kept_once. auto. Qed.

(** [n] applied transitions take [r] to [r']. *)
Definition evolves (n : nat) (r r' : job_row) : Prop := nsteps apply_step n r r'.
Lemma evolves_row n r r' : evolves n r r' →
  (stage (j_status r) + n <= stage (j_status r'))%nat ∧
  (isTerminalJobStatus (j_status r) = true → r' = r) ∧
  j_mode r' = j_mode r ∧ j_enrollment r' = j_enrollment r ∧ (mode_ok r → mode_ok r') ∧
  kept_once (j_queuedAt r) (j_queuedAt r') ∧ kept_once (j_startedAt r) (j_startedAt r') ∧
  kept_once (j_completedAt r) (j_completedAt r') ∧ kept_once (j_cancelledAt r) (j_cancelledAt r').
Proof.
  induction 1 as [r|n r r1 r' Hstep _ IH].
  - split; [lia|]. unfold kept_once. naive_solver.
  - apply apply_step_row in Hstep as (T & S1 & M1 & E1 & O1 & Q1 & B1 & C1 & D1).
    destruct IH as (S2 & T2 & M2 & E2 & O2 & Q2 & B2 & C2 & D2).
    split; [lia|]. split; [congruence|]. split; [congruence|]. split; [congruence|].
    split; [auto|]. repeat split; eapply kept_once_trans; eauto.
Qed.

(** * Any interleaving of writers *)

Section interleaving.
Context (d0 : gmap (string * string) job_row).

Definition table_inv (d : gmap (string * string) job_row) : Prop := ∀ k,
  match d0 !! k with
  | Some r0 => ∃ r n, d !! k = Some r ∧ evolves n r0 r
  | None => d !! k = None
  end.
(** A writer about to compare-and-swap decided on a row of its job. *)
Definition writer_inv (w : writer) : Prop :=
  match w with
  | WCas u _ cur => ∃ r0, d0 !! u_key u = Some r0 ∧ j_mode cur = j_mode r0 ∧
      jobStatusTransitionDecision (j_status cur) (u_status u) = Ok Applied ∧
      assertModeAllowsTerminalStatus (j_mode cur) (u_status u) = Ok tt
  | _ => True
  end.
Definition sys_inv (s : sys) : Prop := table_inv s.1 ∧ Forall writer_inv s.2.

Lemma table_inv_row d k r : table_inv d → d !! k = Some r →
  ∃ r0 n, d0 !! k = Some r0 ∧ evolves n r0 r.
Proof.
  intros Hd Hk. specialize (Hd k). destruct (d0 !! k) as [r0|]; [|congruence].
  destruct Hd as (r' & n & Hr & He). assert (r' = r) as -> by congruence. eauto.
Qed.
Lemma decide_update_inv u n cur r0 :
  d0 !! u_key u = Some r0 → j_mode cur = j_mode r0 → writer_inv (decide_update u n cur).
Proof.
  intros H0 Hm. unfold decide_update.
  destruct (assertModeAllowsTerminalStatus _ _) as [[]|] eqn:Ea; [|done].
  cbn [mbind result_bind]. destruct (jobStatusTransitionDecision _ _) as [[]|] eqn:Ed; try done.
  exists r0. auto.
Qed.
Lemma sys_step_inv s s' : sys_step s s' → sys_inv s → sys_inv s'.
Proof.
  intros [now i d ws w d' w' Hi Hw] [Hd Hws]. cbn in Hd, Hws.
  assert (writer_inv w) as Hwi by (by eapply Forall_lookup_1).
  assert (table_inv d' ∧ writer_inv w') as [Hd' Hw'].
  2:{ split; [done|]. cbn. by apply Forall_insert. }
  destruct w as [o|u|u n cur|u n|u r]; cbn [Jobs.writer_step] in Hw.
  - injection Hw as <- <-. split; [done|]. by destruct (prepare o d).
  - injection Hw as <- <-. split; [done|]. destruct (d !! u_key u) as [r|] eqn:E; [|done].
    destruct (table_inv_row _ _ _ Hd E) as (r0 & m & H0 & He).
    eapply decide_update_inv; [done|]. by apply evolves_row in He as (_ & _ & ? & _).
  - destruct (d !! u_key u) as [r|] eqn:E; [|injection Hw as <- <-; done].
    case_bool_decide as Hs; [|injection Hw as <- <-; done]. injection Hw as <- <-.
    split; [|done]. destruct (table_inv_row _ _ _ Hd E) as (r0 & m & H0 & He).
    destruct Hwi as (r0' & H0' & Hm & Hdec & Hmode). assert (r0' = r0) as -> by congruence.
    intros k. destruct (decide (k = u_key u)) as [->|Hne].
    + rewrite H0, lookup_insert_eq. exists (updated_row u now r), (m + 1)%nat. split; [done|].
      eapply nsteps_trans; [exact He|]. apply nsteps_once. exists u, now.
      apply evolves_row in He as (_ & _ & Hmr & _). rewrite Hs, Hmr, <- Hm. done.
    + rewrite lookup_insert_ne by done. apply Hd.
  - injection Hw as <- <-. split; [done|]. destruct (d !! u_key u) as [r|] eqn:E; [|done].
    destruct (_ <? _)%nat; [|done]. destruct (table_inv_row _ _ _ Hd E) as (r0 & m & H0 & He).
    eapply decide_update_inv; [done|]. by apply evolves_row in He as (_ & _ & ? & _).
  - injection Hw as <- <-. done.
Qed.
Lemma sys_inv_run s s' : rtc sys_step s s' → sys_inv s → sys_inv s'.
Proof. induction 1; eauto using sys_step_inv. Qed.
Lemma table_inv_init : table_inv d0.
Proof. intros k. destruct (d0 !! k) as [r|]; [|done]. exists r, 0%nat. split; [done|constructor]. Qed.
End interleaving.

(** A call that has not issued a statement yet. *)
Definition starting (w : writer) : Prop := ∃ o, w = WStart o.
Lemma sys_inv_init d0 ws : Forall starting ws → sys_inv d0 (d0, ws).
Proof.
  intros Hw. split; [apply table_inv_init|]. cbn. eapply Forall_impl; [exact Hw|]. by intros w [o ->].
Qed.

(** * Who ends a job *)

(** The writer's terminal update was applied. *)
Definition ended (u : update) (w : writer) : Prop :=
  isTerminalJobStatus (u_status u) = true ∧ ∃ r, w = WDone (Some u) (Ok (r, Applied)).
Definition ended_inv (s : sys) : Prop :=
  (∀ i u w, s.2 !! i = Some w → ended u w →
     ∃ r, s.1 !! u_key u = Some r ∧ isTerminalJobStatus (j_status r) = true) ∧
  (∀ i j u v w x, s.2 !! i = Some w → s.2 !! j = Some x → ended u w → ended v x →
     u_key u = u_key v → i = j).

Lemma decide_not_ended v u n cur : ¬ ended v (decide_update u n cur).
Proof.
  intros [_ [r H]]. unfold decide_update in H.
  destruct (_ ← _; _) as [[]|]; by inversion H.
Qed.
(** A step either leaves the table and ends nothing new, or is a
    compare-and-swap that found the status the writer decided on. *)
Lemma writer_step_cases d0 now d w d' w' :
  writer_inv d0 w → writer_step now d w = (d', w') →
  (d' = d ∧ ∀ v, ended v w' → ended v w) ∨
  (∃ u n cur r, w = WCas u n cur ∧ d !! u_key u = Some r ∧ isTerminalJobStatus (j_status r) = false ∧
     d' = <[u_key u := updated_row u now r]> d ∧
     w' = WDone (Some u) (Ok (updated_row u now r, Applied))).
Proof.
  intros Hi Hw. destruct w as [o|u|u n cur|u n|u r]; cbn [Jobs.writer_step] in Hw.
  - injection Hw as <- <-. left. split; [done|]. intros v [_ [r H]]. by destruct (prepare o d).
  - injection Hw as <- <-. left. split; [done|]. intros v H.
    destruct (d !! u_key u); [by apply decide_not_ended in H|]. by destruct H as [_ [r H]].
  - destruct (d !! u_key u) as [r|] eqn:E.
    + case_bool_decide as Hs; injection Hw as <- <-.
      * right. exists u, n, cur, r. destruct Hi as (r0 & _ & _ & Hdec & _).
        apply decision_applied in Hdec as [Hdec _]. rewrite Hs. done.
      * left. split; [done|]. by intros v [_ [x H]].
    + injection Hw as <- <-. left. split; [done|]. by intros v [_ [x H]].
  - injection Hw as <- <-. left. split; [done|]. intros v H.
    destruct (d !! u_key u); [|by destruct H as [_ [r H]]].
    destruct (_ <? _)%nat; [by apply decide_not_ended in H|]. by destruct H as [_ [r H]].
  - injection Hw as <- <-. by left.
Qed.
Lemma ended_step d0 s s' : sys_step s s' → sys_inv d0 s → ended_inv s → ended_inv s'.
Proof.
  intros [now i d ws w d' w' Hi Hw] [_ Hws] [He Hu]. cbn in Hws, He, Hu.
  assert (writer_inv d0 w) as Hwi by (by eapply Forall_lookup_1).
  destruct (writer_step_cases _ _ _ _ _ _ Hwi Hw) as [[-> Hend]|(u & n & cur & r & -> & Hr & Ht & -> & ->)].
  - assert (∀ j v x, <[i:=w']> ws !! j = Some x → ended v x → ∃ y, ws !! j = Some y ∧ ended v y) as Hback.
    { intros j v x Hj Hx. destruct (decide (i = j)) as [<-|Hne].
      - exists w. rewrite list_lookup_insert_eq in Hj by (by eapply lookup_lt_Some).
        injection Hj as <-. auto.
      - exists x. by rewrite list_lookup_insert_ne in Hj. }
    split; cbn.
    + intros j v x Hj Hx. destruct (Hback _ _ _ Hj Hx) as (y & ? & ?). by eapply He.
    + intros j k v v' x x' Hj Hk Hx Hx' Hkey.
      destruct (Hback _ _ _ Hj Hx) as (y & ? & ?), (Hback _ _ _ Hk Hx') as (y' & ? & ?).
      by eapply Hu.
  - assert (∀ j v x, <[i:=WDone (Some u) (Ok (updated_row u now r, Applied))]> ws !! j = Some x →
      ended v x → i = j ∧ v = u ∧ isTerminalJobStatus (u_status u) = true ∨
                  i ≠ j ∧ ws !! j = Some x ∧ u_key v ≠ u_key u) as Hcase.
    { intros j v x Hj Hx. destruct (decide (i = j)) as [<-|Hne].
      - rewrite list_lookup_insert_eq in Hj by (by eapply lookup_lt_Some). injection Hj as <-.
        destruct Hx as [Hv [y Hy]]. injection Hy as <- _. by left.
      - rewrite list_lookup_insert_ne in Hj by done. right. split; [done|]. split; [done|].
        intros Heq. destruct (He _ _ _ Hj Hx) as (r' & Hr' & Ht'). rewrite Heq in Hr'. congruence. }
    split; cbn.
    + intros j v x Hj Hx. destruct (Hcase _ _ _ Hj Hx) as [(<- & -> & Hv)|(Hne & Hj' & Hk)].
      * rewrite lookup_insert_eq. by eexists.
      * rewrite lookup_insert_ne by done. by eapply He.
    + intros j k v v' x x' Hj Hk Hx Hx' Hkey.
      destruct (Hcase _ _ _ Hj Hx) as [(<- & -> & _)|(? & ? & ?)],
        (Hcase _ _ _ Hk Hx') as [(<- & -> & _)|(? & ? & ?)]; try done.
      by eapply Hu.
Qed.
Lemma ended_run d0 s s' : rtc sys_step s s' → sys_inv d0 s → ended_inv s → ended_inv s'.
Proof. induction 1; eauto using ended_step, sys_step_inv. Qed.
Lemma ended_init d ws : Forall starting ws → ended_inv (d, ws).
Proof.
  rewrite Forall_lookup. intros Hs.
  split; intros; exfalso; match goal with H : ended _ ?w, H' : _ !! _ = Some ?w |- _ =>
    destruct (Hs _ _ H') as [o ->]; by destruct H as [_ [r H]] end.
Qed.
End jobs.

(** C30: every job's history is a run of the status machine.  However many
    updates run concurrently and however their statements interleave, no job
    row appears or disappears, and each row got where it is by at most five
    transitions the machine allows, each moving it forward; a row in a
    terminal status is never changed again in any column; mode and enrollment
    never change; a dry run never ends as succeeded nor a real job as
    dry_run_complete; and each lifecycle timestamp is written once. *)
Theorem job_history_valid (detect : jsval → bool) (unredacted priv gen : string → bool)
    (d0 d : gmap (string * string) job_row) (ws0 ws : list writer) :
  Forall starting ws0 → rtc (sys_step detect unredacted priv gen) (d0, ws0) (d, ws) →
  ∀ k, match d0 !! k with
       | None => d !! k = None
       | Some r0 => ∃ r n, d !! k = Some r ∧ evolves n r0 r ∧ (n <= 5)%nat ∧
           (stage (j_status r0) + n <= stage (j_status r))%nat ∧
           (isTerminalJobStatus (j_status r0) = true → r = r0) ∧
           j_mode r = j_mode r0 ∧ j_enrollment r = j_enrollment r0 ∧ (mode_ok r0 → mode_ok r) ∧
           kept_once (j_queuedAt r0) (j_queuedAt r) ∧ kept_once (j_startedAt r0) (j_startedAt r) ∧
           kept_once (j_completedAt r0) (j_completedAt r) ∧ kept_once (j_cancelledAt r0) (j_cancelledAt r)
       end.
Proof.
  intros Hs Hrun k. apply (sys_inv_run _ _ _ _ d0) in Hrun as [Hd _]; [|by apply sys_inv_init].
  specialize (Hd k). cbn in Hd. destruct (d0 !! k) as [r0|]; [|done].
  destruct Hd as (r & n & Hr & He). exists r, n. split; [done|]. split; [done|].
  apply evolves_row in He as (H1 & H2 & H3 & H4 & H5 & H6). pose proof (stage_le (j_status r)).
  split; [lia|]. auto 10.
Qed.

(** One writer ends a job.  Of any number of concurrent updates of a job
    at most one has a terminal status applied; everyone else is told that it
    was ignored, or fails. *)
Theorem one_writer_ends_a_job (detect : jsval → bool) (unredacted priv gen : string → bool)
    (d0 d : gmap (string * string) job_row) (ws0 ws : list writer) (i j : nat) (u v : update)
    (w x : writer) :
  Forall starting ws0 → rtc (sys_step detect unredacted priv gen) (d0, ws0) (d, ws) →
  ws !! i = Some w → ws !! j = Some x → ended u w → ended v x → u_key u = u_key v → i = j.
Proof.
  intros Hs Hrun. apply (ended_run _ _ _ _ d0) in Hrun as [_ H];
    [|by apply sys_inv_init|by apply ended_init]. apply H.
Qed.

(** C40: an update always finishes: whatever the other writers make of the
    table between its statements, six statements are enough for an answer. *)
Theorem update_terminates (detect : jsval → bool) (unredacted priv gen : string → bool)
    (o : update_options) (ds : list (Z * gmap (string * string) job_row)) :
  (6 <= length ds)%nat →
  ∃ u r, writer_run detect unredacted priv gen (WStart o) ds = WDone u r.
Proof.
  intros Hl. apply budget_done.
  pose proof (writer_run_budget detect unredacted priv gen (WStart o) ds). cbn [budget] in H. lia.
Qed.

(** At-least-once, out-of-order delivery is harmless.  When a job went
    through a path of the machine, redelivering an update with any status of
    that path, in any order and whatever else it carries, is answered with the
    job as it is and changes nothing. *)
Theorem redelivery_ignored (detect : jsval → bool) (unredacted priv gen : string → bool)
    (now : Z) (o : update_options) (u : update) (d : gmap (string * string) job_row)
    (r : job_row) (s : job_status) (ss : list job_status) :
  prepare detect unredacted priv gen o d = Ok u → d !! u_key u = Some r →
  lifecycle_path s ss → j_status r = final s ss → u_status u ∈ s :: ss →
  assertModeAllowsTerminalStatus (j_mode r) (u_status u) = Ok tt →
  ∃ reason, updateCertificateJobStatus detect unredacted priv gen now o d
            = (d, Some (Ok (r, Ignored reason))).
Proof.
  intros Hp Hk Hpath Hst Hu Hm. destruct (redelivery_decision _ _ _ Hpath Hu) as [reason Hd].
  exists reason. unfold updateCertificateJobStatus. cbn [run_writer writer_step]. rewrite Hp.
  cbn [run_writer writer_step]. rewrite Hk. unfold decide_update. rewrite Hm, Hst.
  cbn [mbind result_bind]. by rewrite Hd.
Qed.

(** * Concrete runs *)

(** The run that lets the listed writers go on, in order. *)
Section schedules.
Context (detect : jsval → bool) (unredacted priv gen : string → bool).
Definition goes_on (s : sys) (ni : Z * nat) : sys :=
  match s.2 !! ni.2 with
  | Some w => let '(d, w) := writer_step detect unredacted priv gen ni.1 s.1 w in (d, <[ni.2 := w]> s.2)
  | None => s
  end.
Lemma schedule_run l s : rtc (sys_step detect unredacted priv gen) s (fold_left goes_on l s).
Proof.
  revert s. induction l as [|[now i] l IH]; intros [d ws]; [done|]. cbn [fold_left].
  etrans; [|apply IH]. unfold goes_on. cbn. destruct (ws !! i) as [w|] eqn:E; [|done].
  destruct (writer_step _ _ _ _ now d w) as [d' w'] eqn:Ew.
  apply rtc_once. by eapply writer_goes.
Qed.
End schedules.

Definition yes (_ : string) : bool := true.
Definition no {A} (_ : A) : bool := false.
Definition demo_update (status : string) : update_options :=
  mkUpdateOptions (Str "ws") (Str "job-1") (Str status) Undef None None None.
Definition demo_row (s : job_status) (m : job_mode) : job_row :=
  mkJobRow s m None (Obj []) None None 0 (Some 0) None None None.
Definition demo_table (s : job_status) : gmap (string * string) job_row :=
  {[ ("ws", "job-1") := demo_row s real ]}.
(** Two racing reports of the outcome, and a late start. *)
Definition racing : list writer :=
  [WStart (demo_update "succeeded"); WStart (demo_update "failed"); WStart (demo_update "running")].
Definition race : sys :=
  fold_left (goes_on no yes no no) [(1, 0%nat); (2, 1%nat); (3, 1%nat); (4, 0%nat); (5, 2%nat); (6, 2%nat);
    (7, 1%nat); (8, 0%nat); (9, 2%nat); (10, 0%nat); (11, 2%nat)] (demo_table pending, racing).

Lemma racing_start : Forall starting racing.
Proof. repeat constructor; by eexists. Qed.
Lemma race_run : rtc (sys_step no yes no no) (demo_table pending, racing) race.
Proof. apply schedule_run. Qed.

Lemma job_history_valid_witness :
  (∃ r, race.1 !! ("ws", "job-1") = Some r ∧ j_status r = failed ∧ j_completedAt r = Some 7 ∧ mode_ok r) ∧
  race.2 = [WDone (Some (mkUpdate "ws" "job-1" succeeded None None None))
              (Ok (updated_row (mkUpdate "ws" "job-1" failed None None None) 7 (demo_row pending real),
                   Ignored "terminal_regression"));
            WDone (Some (mkUpdate "ws" "job-1" failed None None None))
              (Ok (updated_row (mkUpdate "ws" "job-1" failed None None None) 7 (demo_row pending real), Applied));
            WDone (Some (mkUpdate "ws" "job-1" running None None None))
              (Ok (updated_row (mkUpdate "ws" "job-1" failed None None None) 7 (demo_row pending real),
                   Ignored "terminal_regression"))].
Proof.
  split; [|vm_compute; reflexivity].
  pose proof (job_history_valid no yes no no (demo_table pending) race.1 racing race.2
    racing_start race_run ("ws", "job-1")) as H.
  assert (demo_table pending !! ("ws", "job-1") = Some (demo_row pending real)) as E
    by (vm_compute; reflexivity).
  rewrite E in H. destruct H as (r & n & Hr & _ & _ & _ & _ & _ & _ & Hm & _).
  exists r. split; [exact Hr|].
  assert (race.1 !! ("ws", "job-1") =
    Some (updated_row (mkUpdate "ws" "job-1" failed None None None) 7 (demo_row pending real))) as E'
    by (vm_compute; reflexivity).
  rewrite E' in Hr. injection Hr as <-. split; [reflexivity|]. split; [reflexivity|].
  apply Hm. by split.
Defined.
Lemma one_writer_ends_a_job_witness :
  ended (mkUpdate "ws" "job-1" failed None None None) (default (WStart (demo_update "")) (race.2 !! 1%nat)) ∧
  ∀ i v x, race.2 !! i = Some x → ended v x → u_key v = ("ws", "job-1") → 1%nat = i.
Proof.
  split; [split; [reflexivity|by eexists]|]. intros i v x Hx Hv Hk.
  refine (one_writer_ends_a_job no yes no no (demo_table pending) race.1 racing race.2 1 i
    (mkUpdate "ws" "job-1" failed None None None) v _ x racing_start race_run _ Hx _ Hv _).
  - vm_compute. reflexivity.
  - split; [reflexivity|]. by eexists.
  - by rewrite Hk.
Defined.
Lemma update_terminates_witness :
  ∃ u r, writer_run no yes no no (WStart (demo_update "running"))
    [(1, ∅); (2, demo_table pending); (3, demo_table claimed); (4, demo_table claimed);
     (5, demo_table approved); (6, demo_table pending)] = WDone u r.
Proof. apply update_terminates. cbn. lia. Defined.
Lemma redelivery_ignored_witness :
  ∃ reason, updateCertificateJobStatus no yes no no 9 (demo_update " claimed ") (demo_table running)
    = (demo_table running, Some (Ok (demo_row running real, Ignored reason))).
Proof.
  apply (redelivery_ignored no yes no no 9 _ (mkUpdate "ws" "job-1" claimed None None None)
    (demo_table running) (demo_row running real) pending [claimed; running]);
    [reflexivity|vm_compute; reflexivity|by repeat split|reflexivity| |reflexivity].
  apply (bool_decide_unpack _). vm_compute. exact I.
Defined.

(** * The public metadata boundary *)

(** [x] occurs in [v], [n] levels down. *)
Inductive within : nat → jsval → jsval → Prop :=
| within_here v : within 0 v v
| within_item n x y l : y ∈ l → within n x y → within (S n) x (Arr l)
| within_field n x k y fs : (k, y) ∈ fs → within n x y → within (S n) x (Obj fs).

Section boundary_lemmas.
Context (detect : jsval → bool) (unredacted priv gen : string → bool).
Notation safe_value := (assertSafePublicValue detect unredacted priv gen).
Notation forbidden := (fieldNameLooksForbidden priv gen).

(** What may be stored. *)
Definition clean (x : jsval) : Prop :=
  x ≠ Undef ∧
  (∀ s, x = Str s → detect (Str s) = false ∧ unredacted s = true) ∧
  (∀ fs k y, x = Obj fs → (k, y) ∈ fs → forbidden k = false ∧ k ≠ "__proto__").

Lemma clean_scalar x : match x with Null | Bool _ | Num _ => True | _ => False end → clean x.
Proof. intros Hx. split; [by intros ->|]. split; [by intros s ->|by intros fs k y ->]. Qed.

Lemma clone_clean v : ∀ depth w,
  safe_value depth v = Ok tt → cloneJsonValue depth v = Ok w →
  ∀ n x, within n x w → (depth + n <= MAX_SCAN_DEPTH)%nat ∧ clean x.
Proof.
  induction v as [| |b|m|s|l IH|fs IH] using jsval_ind'; intros depth w Hs Hc n x Hx;
    cbn [assertSafePublicValue cloneJsonValue] in Hs, Hc;
    destruct (MAX_SCAN_DEPTH <? depth)%nat eqn:Ed; try done; apply Nat.ltb_ge in Ed;
    destruct (detect _) eqn:Edet; try done.
  - injection Hc as <-. inversion Hx; subst. split; [lia|by apply clean_scalar].
  - injection Hc as <-. inversion Hx; subst. split; [lia|by apply clean_scalar].
  - injection Hc as <-. inversion Hx; subst. split; [lia|by apply clean_scalar].
  - injection Hc as <-. inversion Hx; subst. split; [lia|].
    split; [done|]. split; [|done]. intros s' [= <-]. by apply ensure_ok in Hs.
  - apply bind_ok in Hc as (ws & Hws & [= <-]).
    assert (∀ y, y ∈ ws → ∀ n x, within n x y → (S depth + n <= MAX_SCAN_DEPTH)%nat ∧ clean x) as Hall.
    { clear Hx Edet. revert ws Hws Hs. induction IH as [|v l Hv _ IHl]; intros ws Hws Hs.
      - injection Hws as <-. by intros y ?%not_elem_of_nil.
      - apply bind_ok in Hws as (y & Hy & Hws). apply bind_ok in Hws as (ys & Hys & [= <-]).
        apply bind_ok in Hs as ([] & Hs1 & Hs2). intros z [->|Hz]%elem_of_cons; [by apply Hv|].
        by apply (IHl ys Hys Hs2). }
    inversion Hx as [|n' ? y l' Hy Hin|]; subst.
    + split; [lia|]. by split.
    + destruct (Hall y Hy _ _ Hin). split; [lia|done].
  - apply bind_ok in Hc as (gs & Hgs & [= <-]).
    assert (∀ k y, (k, y) ∈ gs → (forbidden k = false ∧ k ≠ "__proto__") ∧
      ∀ n x, within n x y → (S depth + n <= MAX_SCAN_DEPTH)%nat ∧ clean x) as Hall.
    { clear Hx Edet. revert gs Hgs Hs. induction IH as [|[k v] fs Hv _ IHl]; intros gs Hgs Hs.
      - injection Hgs as <-. by intros k y ?%not_elem_of_nil.
      - apply bind_ok in Hs as ([] & Hf & Hs). apply ensure_ok, negb_true_iff in Hf.
        apply bind_ok in Hs as ([] & Hs1 & Hs2).
        assert (v = Undef ∨ ∃ y ys, cloneJsonValue (S depth) v = Ok y ∧
          (fix fields (fs : list (string * jsval)) : result job_error (list (string * jsval)) :=
              match fs with
              | [] => Ok []
              | (_, Undef) :: fs => fields fs
              | (k, x) :: fs =>
                  y ← cloneJsonValue (S depth) x; ys ← fields fs;
                  Ok (if bool_decide (k = "__proto__") then ys else (k, y) :: ys)
              end) fs = Ok ys ∧ gs = if bool_decide (k = "__proto__") then ys else (k, y) :: ys) as Hcase.
        { destruct v; try (by left); right;
            (apply bind_ok in Hgs as (y & Hy & Hgs); apply bind_ok in Hgs as (ys & Hys & [= <-]); eauto). }
        destruct Hcase as [->|(y & ys & Hy & Hys & ->)].
        + by apply (IHl gs Hgs Hs2).
        + intros k' z Hz. case_bool_decide as Hk.
          * by apply (IHl ys Hys Hs2).
          * apply elem_of_cons in Hz as [[= -> ->]|Hz].
            -- split; [done|]. by apply Hv.
            -- by apply (IHl ys Hys Hs2). }
    inversion Hx as [| |n' ? k y l' Hy Hin]; subst.
    + split; [lia|]. split; [done|]. split; [done|]. intros fs' k y [= <-] Hin. by apply Hall in Hin as [? _].
    + destruct (Hall k y Hy) as [_ H]. destruct (H _ _ Hin). split; [lia|done].
Qed.
End boundary_lemmas.

Lemma public_object_within (detect : jsval → bool) (unredacted priv gen : string → bool) (v w : jsval) :
  normalizePublicObject detect unredacted priv gen v = Ok w →
  isPlainObject w = true ∧ ∀ n x, within n x w → (n <= 12)%nat ∧ clean detect unredacted priv gen x.
Proof.
  destruct v as [| | | | | |fs]; cbn [normalizePublicObject]; intros H; try done.
  - injection H as <-. split; [done|]. intros n x Hx. inversion Hx as [| |? ? ? ? ? Hin]; subst.
    + split; [lia|]. split; [done|]. split; [done|]. by intros ? ? ? [= <-] ?%not_elem_of_nil.
    + by apply not_elem_of_nil in Hin.
  - injection H as <-. split; [done|]. intros n x Hx. inversion Hx as [| |? ? ? ? ? Hin]; subst.
    + split; [lia|]. split; [done|]. split; [done|]. by intros ? ? ? [= <-] ?%not_elem_of_nil.
    + by apply not_elem_of_nil in Hin.
  - apply bind_ok in H as ([] & Hs & Hc). split.
    + cbn [cloneJsonValue] in Hc. by apply bind_ok in Hc as (gs & _ & [= <-]).
    + intros n x Hx. exact (clone_clean detect unredacted priv gen (Obj fs) 0 w Hs Hc n x Hx).
Qed.

(** C38: what crosses the metadata boundary.  An object that
    [normalizePublicObject] returns is an object at most twelve levels deep in
    which, at every depth, no field name looks forbidden (private keys,
    generic secrets, anything with "pem" in it), no string contains private
    key material or an unredacted secret, and nothing is undefined. *)
Theorem public_object_clean (detect : jsval → bool) (unredacted priv gen : string → bool) (v w : jsval) :
  normalizePublicObject detect unredacted priv gen v = Ok w →
  isPlainObject w = true ∧ ∀ n x, within n x w → (n <= 12)%nat ∧ clean detect unredacted priv gen x.
Proof. apply public_object_within. Qed.
Lemma public_object_clean_witness :
  normalizePublicObject no yes no no (Obj [("serial", Str "01:ff"); ("note", Undef); ("n", Arr [Num (Fin 3)])])
    = Ok (Obj [("serial", Str "01:ff"); ("n", Arr [Num (Fin 3)])]) ∧
  clean no yes no no (Str "01:ff") ∧
  normalizePublicObject no yes no no (Obj [("a", Obj [("chain_PEM", Str "x")])]) = Err PRIVATE_KEY_MATERIAL_REJECTED.
Proof.
  split; [reflexivity|]. split; [|reflexivity].
  refine (proj2 (proj2 (public_object_clean no yes no no
    (Obj [("serial", Str "01:ff"); ("note", Undef); ("n", Arr [Num (Fin 3)])]) _ eq_refl) 1%nat (Str "01:ff") _)).
  eapply within_field; [by left|constructor].
Defined.
