(* ===== verification/RenewalCapacity.v ===== *)
(** Per-(workspace, CA) renewal capacity:
    apps/api/services/certops/renewalCapacity.js.

    Node's URL parser is the parameter [parse_url]; PostgreSQL's text of a
    JSON object or array is [jsonb_text].  The capacity check itself is a
    statement of job creation (JobCreation); here are the cap, the buckets and
    the count. *)
From S2P Require Import Prelude Json.
Open Scope Z_scope.

Definition DEFAULT_RENEWAL_PER_CA_CAP : Z := 5.
Definition UNKNOWN_CA_BUCKET : string := "__unknown-ca__".
Definition ADCS_CA_BUCKET_PREFIX : string := "adcs-issuer:".
Definition MAX_SAFE_INTEGER : Z := 9007199254740991.
Definition is_safe (n : Z) : bool := (- MAX_SAFE_INTEGER <=? n) && (n <=? MAX_SAFE_INTEGER).

(** [Number.parseInt(s, 10)] of a trimmed string; [None] is [NaN].  Beyond
    2^53 the code gets a rounded number, which is not a safe integer either. *)
Definition parse_int (s : string) : option Z :=
  let digits t := match t with
                  | String c _ => if is_digit c then Some (read_digits 0 t).1 else None
                  | EmptyString => None
                  end in
  match s with
  | String c t => if code c =? 45 then Z.opp <$> digits t
                  else if code c =? 43 then digits t else digits s
  | EmptyString => None
  end.
(** [raw] is the environment variable CERTOPS_RENEWAL_PER_CA_CAP. *)
Definition resolveRenewalPerCaCap (raw : option string) : Z :=
  match raw with
  | None => DEFAULT_RENEWAL_PER_CA_CAP
  | Some s =>
      if bool_decide (trim s = EmptyString) then DEFAULT_RENEWAL_PER_CA_CAP else
      match parse_int (trim s) with
      | Some parsed =>
          if negb (is_safe parsed) || (parsed <=? 0) then DEFAULT_RENEWAL_PER_CA_CAP else parsed
      | None => DEFAULT_RENEWAL_PER_CA_CAP
      end
  end.

(** The parts of a [URL] object that are used. *)
Record url := mkUrl { u_protocol : string; u_host : string; u_pathname : string }.

Section buckets.
Context (parse_url : string → option url) (jsonb_text : jsval → string).

Definition adcsCaBucket (issuerId : string) : string :=
  ADCS_CA_BUCKET_PREFIX +:+ toLowerCase (trim issuerId).
Definition normalizeCaBucket (value : jsval) : string :=
  match value with
  | Str s =>
      let trimmed := trim s in
      if bool_decide (trimmed = EmptyString) || bool_decide (trimmed = UNKNOWN_CA_BUCKET)
      then UNKNOWN_CA_BUCKET
      else if startsWith ADCS_CA_BUCKET_PREFIX trimmed
      then adcsCaBucket (sdrop (String.length ADCS_CA_BUCKET_PREFIX) trimmed)
      else match parse_url trimmed with
           | None => toLowerCase trimmed
           | Some u =>
               u_protocol u +:+ "//" +:+ u_host u +:+ drop_end (λ c, code c =? 47) (u_pathname u)
           end
  | _ => UNKNOWN_CA_BUCKET
  end.
Definition caBucketFromPayload (payload : jsval) : string :=
  match get "caEndpoint" payload with
  | Str endpoint =>
      if bool_decide (trim endpoint = EmptyString) then UNKNOWN_CA_BUCKET
      else normalizeCaBucket (Str endpoint)
  | _ => UNKNOWN_CA_BUCKET
  end.

(** [payload->>'k'] of PostgreSQL. *)
Definition text_of (v : jsval) : option string :=
  match v with
  | Undef | Null => None
  | Str s => Some s
  | Bool b => Some (if b then "true" else "false")
  | Num (Fin n) => Some (print_Z n)
  | Num _ => None
  | Arr _ | Obj _ => Some (jsonb_text v)
  end.
Definition is_space (c : ascii) : bool := code c =? 32.
(** [IN_FLIGHT_BUCKET_SQL]: the issuer of the enrollment that owns the job, or
    else the job's own endpoint. *)
Definition in_flight_bucket_sql (issuer : option string) (payload : jsval) : option string :=
  match issuer with
  | Some issuer_id => Some (ADCS_CA_BUCKET_PREFIX +:+ issuer_id)
  | None =>
      match text_of (get "caEndpoint" payload) with
      | Some s => let t := trim_by is_space s in
                  if bool_decide (t = EmptyString) then None else Some t
      | None => None
      end
  end.
Definition row_bucket (issuer : option string) (payload : jsval) : string :=
  match in_flight_bucket_sql issuer payload with
  | None => UNKNOWN_CA_BUCKET
  | Some ca_bucket => normalizeCaBucket (Str ca_bucket)
  end.

(** [rows]: the non-terminal issue and renew jobs of the workspace, each with
    the issuer of its enrollment and its payload. *)
Definition in_flight (caBucket : string) (rows : list (option string * jsval)) : Z :=
  Z.of_nat (length (List.filter (λ r, bool_decide (row_bucket r.1 r.2 = caBucket)) rows)).
Definition capacity_cap (env : option string) (perCaCap : jsval) : Z :=
  match perCaCap with
  | Num (Fin n) => if is_safe n && (0 <? n) then n else resolveRenewalPerCaCap env
  | _ => resolveRenewalPerCaCap env
  end.
Definition capacity_bucket (capacityBucket payload : jsval) : string :=
  match capacityBucket with
  | Str s => if bool_decide (s = EmptyString) then caBucketFromPayload payload else s
  | _ => caBucketFromPayload payload
  end.
Definition assertRenewalPerCaCapacityAvailable (env : option string) (perCaCap capacityBucket payload : jsval)
    (rows : list (option string * jsval)) : bool :=
  in_flight (capacity_bucket capacityBucket payload) rows <? capacity_cap env perCaCap.

(** * A job is counted in the bucket it was admitted under *)

Lemma row_bucket_admitted payload :
  match get "caEndpoint" payload with Undef | Null | Str _ => true | _ => false end = true →
  row_bucket None payload = caBucketFromPayload payload.
Proof.
  unfold row_bucket, in_flight_bucket_sql, caBucketFromPayload.
  destruct (get "caEndpoint" payload) as [| |b|n|s|l|fs]; try done. intros _. cbn [text_of].
  assert (trim (trim_by is_space s) = trim s) as Ht.
  { apply trim_trim_by. intros c. unfold is_space, is_js_space. intros ->. apply orb_true_intro. left.
    apply orb_true_r. }
  case_bool_decide as E.
  - rewrite E in Ht. change (trim EmptyString) with EmptyString in Ht.
    by rewrite bool_decide_eq_true_2.
  - cbn [normalizeCaBucket]. rewrite Ht. by case_bool_decide.
Qed.
End buckets.

Lemma resolveRenewalPerCaCap_pos raw : 0 < resolveRenewalPerCaCap raw.
Proof.
  unfold resolveRenewalPerCaCap, DEFAULT_RENEWAL_PER_CA_CAP. destruct raw as [s|]; [|lia].
  case_bool_decide; [lia|]. destruct (parse_int _) as [n|]; [|lia].
  destruct (negb (is_safe n)); cbn; [lia|]. destruct (n <=? 0) eqn:E; split_bool; lia.
Qed.
Lemma capacity_cap_pos env v : 0 < capacity_cap env v.
Proof.
  pose proof (resolveRenewalPerCaCap_pos env). unfold capacity_cap.
  destruct v as [| | |[n| |]| | |]; try done. destruct (is_safe n); cbn; [|done].
  destruct (0 <? n) eqn:E; split_bool; lia.
Qed.
