(* ===== verification/JobFields.v ===== *)
(** The execution fields of a job payload: [validateExecutionFields] of
    apps/api/services/certops/jobs.js and its tables.

    Node's URL parser is a parameter ([url_protocol], [None] when [new URL]
    throws); so is [validateDistributionContract] of materialDistribution.js,
    which is not modelled: the theorems hold whatever it accepts. *)
From S2P Require Import Prelude Json Jobs.
Open Scope Z_scope.

(** [JOB_OPERATIONS]. *)
Inductive job_operation :=
| issue | renew | deploy | deploy_from_store | reload | revoke | noop | protocol_smoke
| distribute_trust | revoke_trust | continue_enrollment | adcs_preflight.
#[global] Instance job_operation_eq_dec : EqDecision job_operation.
Proof. solve_decision. Defined.
Definition JOB_OPERATION_SET : list (string * job_operation) :=
  [("issue", issue); ("renew", renew); ("deploy", deploy); ("deploy-from-store", deploy_from_store);
   ("reload", reload); ("revoke", revoke); ("noop", noop); ("protocol_smoke", protocol_smoke);
   ("distribute-trust", distribute_trust); ("revoke-trust", revoke_trust);
   ("continue-enrollment", continue_enrollment); ("adcs-preflight", adcs_preflight)].
Definition TRUST_ANCHOR_OPERATIONS : list job_operation := [distribute_trust; revoke_trust].
Definition isTrustAnchorOperation (operation : job_operation) : bool :=
  bool_decide (operation ∈ TRUST_ANCHOR_OPERATIONS).

Definition ACME_KINDS : list string := ["certbot"; "acme.sh"].
Definition JOB_KEY_MODES : list string :=
  ["agent-local"; "proxy-agent-local"; "cert-manager-managed"; "appliance-managed"; "hsm-managed";
   "vault-managed"; "os-store-managed"; "external-unknown"].
(** [/^[A-Za-z0-9_.:-]{1,n}$/]. *)
Definition COMMAND_REF_PATTERN : string → bool := matches_class is_ident_char 1 128.
Definition DNS_PROVIDER_PATTERN : string → bool := matches_class is_ident_char 1 64.
Definition RELOAD_SERVICE_PATTERN : string → bool :=
  matches_class (λ c, is_ident_char c || (code c =? 64)) 1 128.

(** [v === "s"]. *)
Definition is_str (s : string) (v : jsval) : bool :=
  match v with Str t => bool_decide (t = s) | _ => false end.
Lemma is_str_spec s v : is_str s v = true ↔ v = Str s.
Proof. destruct v; cbn; rewrite ?bool_decide_eq_true; naive_solver. Qed.
Definition a_string (ok : string → bool) (v : jsval) : bool :=
  match v with Str s => ok s | _ => false end.
Definition within (lo hi : Z) (s : string) : bool := (lo <=? slen s) && (slen s <=? hi).

Section fields.
Context (url_protocol : string → option string)
        (validateDistributionContract : string → jsval → result job_error unit).

Definition valid_caEndpoint (s : string) : bool :=
  (slen s <=? 512) &&
  match url_protocol s with
  | Some protocol => bool_decide (protocol = "https:") || bool_decide (protocol = "http:")
  | None => false
  end.
(** In the order of the object's properties. *)
Definition EXECUTION_FIELD_VALIDATORS : list (string * (jsval → bool)) :=
  [("commandRef", a_string COMMAND_REF_PATTERN);
   ("caEndpoint", a_string valid_caEndpoint);
   ("acmeKind", a_string (λ s, bool_decide (s ∈ ACME_KINDS)));
   ("keyRotation", λ v, match v with Bool _ => true | _ => false end);
   ("certPath", a_string (within 1 512));
   ("reloadService", a_string RELOAD_SERVICE_PATTERN);
   ("verifyHost", a_string (within 1 255));
   ("verifyPort", λ v, match v with Num (Fin n) => (1 <=? n) && (n <=? 65535) | _ => false end);
   ("dnsZone", a_string (within 1 255));
   ("dnsProvider", a_string DNS_PROVIDER_PATTERN);
   ("keyMode", a_string (λ s, bool_decide (s ∈ JOB_KEY_MODES)))].

Definition EXECUTION_FIELDS_BY_OPERATION (operation : job_operation) : list string :=
  match operation with
  | issue | renew =>
      ["commandRef"; "caEndpoint"; "acmeKind"; "keyRotation"; "certPath"; "reloadService";
       "verifyHost"; "verifyPort"; "dnsZone"; "dnsProvider"; "keyMode"]
  | deploy => ["certPath"; "reloadService"; "verifyHost"; "verifyPort"]
  | reload => ["reloadService"; "verifyHost"; "verifyPort"]
  | continue_enrollment => ["keyMode"]
  | _ => []
  end.
Definition allowedForOperation (operation : job_operation) : list string :=
  if bool_decide (operation = deploy_from_store) then ["keyMode"]
  else EXECUTION_FIELDS_BY_OPERATION operation.

(** [None] is [undefined]: the operation requires nothing. *)
Definition requiredExecutionFieldsForOperation (payload : jsval) (operation : job_operation)
  : option (list string) :=
  match operation with
  | issue =>
      let base := ["commandRef"; "caEndpoint"; "dnsZone"; "dnsProvider"] in
      if truthy (get "publication" payload) then Some base
      else Some (base ++ [if is_str "windows-iis" (get "type" (get "target" payload))
                           then "keyMode" else "certPath"])
  | _ => None
  end.

Definition validateIssueDeploymentTargets (payload : jsval) (operation : job_operation)
  : result job_error unit :=
  if negb (bool_decide (operation = issue)) then Ok tt else
  match get "deploymentTargets" payload with
  | Undef | Null => Ok tt
  | Arr targets => ensure (length targets <=? 1)%nat CERTOPS_JOB_EXECUTION_FIELD_INVALID
  | _ => Err CERTOPS_JOB_EXECUTION_FIELD_INVALID
  end.

Definition DISPATCH_ATTACHED_FIELD_NAMES : list string := ["issuerKind"; "enrollment"].
Definition store_managed_fields : list string :=
  ["certPath"; "keyPath"; "chainPath"; "deploymentTargets"; "reloadService"; "reloadCommandRefs";
   "verifyHost"; "verifyPort"].
Definition validate_distribution (payload : jsval) (operation : job_operation) : result job_error unit :=
  let invalid := CERTOPS_JOB_EXECUTION_FIELD_INVALID in
  if truthy (get "publication" payload) || truthy (get "materialDeployment" payload)
     || bool_decide (operation = deploy_from_store) then
    _ ← (if truthy (get "publication" payload) then
           _ ← ensure (bool_decide (operation ∈ [issue; renew])
                       && negb (truthy (get "materialDeployment" payload))) invalid;
           validateDistributionContract "publication" (get "publication" payload)
         else
           _ ← ensure (bool_decide (operation = deploy_from_store)) invalid;
           validateDistributionContract "materialDeployment" (get "materialDeployment" payload));
    ensure (is_str "vault-managed" (get "keyMode" payload)
            && forallb (λ field, nullish (get field payload)) store_managed_fields) invalid
  else Ok tt.

(** The loop over [EXECUTION_FIELD_NAMES]: the first offending field. *)
Fixpoint check_fields (payload : jsval) (allowed : list string)
    (fields : list (string * (jsval → bool))) : result job_error unit :=
  match fields with
  | [] => Ok tt
  | (fieldName, valid) :: fields =>
      if nullish (get fieldName payload) then check_fields payload allowed fields else
      _ ← ensure (bool_decide (fieldName ∈ allowed)) CERTOPS_JOB_EXECUTION_FIELD_INVALID;
      _ ← ensure (valid (get fieldName payload)) CERTOPS_JOB_EXECUTION_FIELD_INVALID;
      check_fields payload allowed fields
  end.

Definition validateExecutionFields (payload : jsval) (operation : job_operation)
  : result job_error unit :=
  _ ← ensure (negb (existsb (λ fieldName, hasOwn fieldName payload) DISPATCH_ATTACHED_FIELD_NAMES))
        CERTOPS_JOB_EXECUTION_FIELD_INVALID;
  _ ← validate_distribution payload operation;
  _ ← check_fields payload (allowedForOperation operation) EXECUTION_FIELD_VALIDATORS;
  _ ← validateIssueDeploymentTargets payload operation;
  match requiredExecutionFieldsForOperation payload operation with
  | None => Ok tt
  | Some required =>
      ensure (forallb (λ fieldName, negb (nullish (get fieldName payload))) required)
        CERTOPS_JOB_EXECUTION_FIELD_REQUIRED
  end.

(** * What is accepted *)

Lemma check_fields_ok payload allowed fields : check_fields payload allowed fields = Ok tt ↔
  Forall (λ f, nullish (get f.1 payload) = true ∨
               f.1 ∈ allowed ∧ f.2 (get f.1 payload) = true) fields.
Proof.
  induction fields as [|[k f] fields IH]; [by split|]. cbn [check_fields]. rewrite Forall_cons. cbn [fst snd].
  destruct (nullish (get k payload)) eqn:E; [rewrite IH; naive_solver|].
  case_bool_decide; cbn; [|naive_solver].
  destruct (f (get k payload)); cbn; [rewrite IH|]; naive_solver.
Qed.

(** The contract between job creation and the agent: what a stored payload
    promises the executor of [operation]. *)
Definition executable (payload : jsval) (operation : job_operation) : Prop :=
  (∀ name valid, (name, valid) ∈ EXECUTION_FIELD_VALIDATORS →
     nullish (get name payload) = true ∨
     name ∈ allowedForOperation operation ∧ valid (get name payload) = true) ∧
  hasOwn "issuerKind" payload = false ∧ hasOwn "enrollment" payload = false ∧
  (operation = issue →
     (∀ name, name ∈ default [] (requiredExecutionFieldsForOperation payload issue) →
        nullish (get name payload) = false) ∧
     match get "deploymentTargets" payload with
     | Undef | Null => True
     | Arr targets => (length targets <= 1)%nat
     | _ => False
     end).

Lemma issue_targets_ok payload operation :
  validateIssueDeploymentTargets payload operation = Ok tt ↔
  (operation = issue → match get "deploymentTargets" payload with
                       | Undef | Null => True
                       | Arr targets => (length targets <= 1)%nat
                       | _ => False
                       end).
Proof.
  unfold validateIssueDeploymentTargets. case_bool_decide as E; cbn; [|naive_solver].
  destruct (get _ payload) as [| |b|n|s|l|fs]; try naive_solver.
  rewrite ensure_ok, Nat.leb_le. naive_solver.
Qed.
Lemma required_ok payload operation :
  match requiredExecutionFieldsForOperation payload operation with
  | None => Ok tt
  | Some required =>
      ensure (forallb (λ fieldName, negb (nullish (get fieldName payload))) required)
        CERTOPS_JOB_EXECUTION_FIELD_REQUIRED
  end = Ok tt ↔
  (operation = issue → ∀ name, name ∈ default [] (requiredExecutionFieldsForOperation payload issue) →
     nullish (get name payload) = false).
Proof.
  destruct (decide (operation = issue)) as [->|Hne]; [|destruct operation; naive_solver].
  destruct (requiredExecutionFieldsForOperation payload issue) as [req|]; cbn.
  - rewrite ensure_ok, forallb_forall. setoid_rewrite list_elem_of_In. setoid_rewrite negb_true_iff.
    naive_solver.
  - split; [|done]. intros _ _ name Hn. by apply not_elem_of_nil in Hn.
Qed.

Lemma validateExecutionFields_ok payload operation :
  validateExecutionFields payload operation = Ok tt ↔
  executable payload operation ∧ validate_distribution payload operation = Ok tt.
Proof.
  unfold validateExecutionFields, executable.
  destruct (check_fields payload (allowedForOperation operation) EXECUTION_FIELD_VALIDATORS) as [[]|e] eqn:Ef.
  2:{ split; [by destruct (negb _); cbn; [destruct (validate_distribution _ _)|]|].
      intros [(Hf & _) _]. rewrite (proj2 (check_fields_ok _ _ _)) in Ef; [done|].
      apply Forall_forall. by intros [name valid] Hin; apply Hf. }
  apply check_fields_ok in Ef. rewrite Forall_forall in Ef.
  cbn [existsb DISPATCH_ATTACHED_FIELD_NAMES]. rewrite orb_false_r, negb_orb.
  destruct (hasOwn "issuerKind" payload), (hasOwn "enrollment" payload); cbn; try naive_solver.
  destruct (validate_distribution payload operation) as [[]|e]; cbn; [|naive_solver].
  pose proof (issue_targets_ok payload operation) as Ht.
  pose proof (required_ok payload operation) as Hr.
  destruct (validateIssueDeploymentTargets payload operation) as [[]|e]; cbn; [rewrite Hr|].
  - split; [|naive_solver]. intros H. split; [|done]. split; [|naive_solver].
    intros name valid Hin. by apply (Ef (name, valid)).
  - split; [done|]. intros [(_ & _ & _ & Ho) _]. destruct (proj2 Ht); [|done]. naive_solver.
Qed.
End fields.
