(* ===== verification/JobRequest.v ===== *)
(** Requests for certificate jobs: the data, the normalization of the options
    of [createCertificateJob] (apps/api/services/certops/jobs.js) and the
    fingerprint of a request.

    [options] is a JavaScript object; a [Date] among them is given by its ISO
    string or its time.  Stored JSON is the value that was inserted (jsonb may
    reorder its keys; every reader here is insensitive to that).

    Parameters ([Services]): the detectors of packages/log-scrub, Node's URL
    parser and SHA-256, PostgreSQL's text of JSON, the SQL function
    certops_is_initial_provisioning, materialDistribution.js, which is not
    modelled, and the validation of renewal profiles, which RenewalProfile
    models and RenewalPayload puts in.  The theorems hold whatever these
    answer. *)
From S2P Require Import Prelude Dates Json Jobs JobFields RenewalCapacity.
Open Scope Z_scope.

(** * Enumerations *)

Definition enum_name {A} `{EqDecision A} (names : list (string * A)) (a : A) : string :=
  match List.find (λ p, bool_decide (p.2 = a)) names with Some p => p.1 | None => EmptyString end.

Inductive job_source :=
| api | executor | system | automation | domain_monitor | endpoint_monitor | control_plane
| external | controller_provisioning.
#[global] Instance job_source_eq_dec : EqDecision job_source.
Proof. solve_decision. Defined.
Definition JOB_SOURCE_SET : list (string * job_source) :=
  [("api", api); ("executor", executor); ("system", system); ("automation", automation);
   ("domain-monitor", domain_monitor); ("endpoint-monitor", endpoint_monitor);
   ("control-plane", control_plane); ("external", external);
   ("controller_provisioning", controller_provisioning)].
Inductive executor_kind := agent | controller.
#[global] Instance executor_kind_eq_dec : EqDecision executor_kind.
Proof. solve_decision. Defined.
Definition JOB_EXECUTOR_KIND_SET : list (string * executor_kind) :=
  [("agent", agent); ("controller", controller)].
Definition SUBJECT_TYPES : list string :=
  ["managed_certificate"; "certificate_instance"; "certificate_target"; "token"; "domain";
   "endpoint"; "external"; "trust_anchor"].
Definition SUBJECT_TYPE_SET : list (string * string) := map (λ s, (s, s)) SUBJECT_TYPES.
Definition SUBJECT_REQUIRED_OPERATIONS : list job_operation :=
  [renew; deploy; deploy_from_store; reload; revoke; distribute_trust; revoke_trust].
Definition AGENT_MUTATING_OPERATIONS : list job_operation :=
  [renew; continue_enrollment; deploy; reload; revoke].
Definition AGENT_DEPLOYABLE_KEY_MODES : list string :=
  ["agent-local"; "proxy-agent-local"; "os-store-managed"].
Definition AUTO_RENEW_DISABLED_PROFILE_STATUSES : list string := ["disabled"; "archived"].
Definition RETIRED_STATUSES : list string := ["revoked"; "decommissioned"].

Definition opt_js (o : option string) : jsval := match o with Some s => Str s | None => Null end.
(** [s === v], for a string or null. *)
Definition same_js (o : option string) (v : jsval) : bool :=
  match o, v with
  | None, Null => true
  | Some s, Str t => bool_decide (s = t)
  | _, _ => false
  end.
Definition is_member (o : option string) (l : list string) : bool :=
  match o with Some s => bool_decide (s ∈ l) | None => false end.

Definition is_hex (c : ascii) : bool := is_digit c || in_range 65 70 c || in_range 97 102 c.
(** [SUBJECT_ID_UUID_PATTERN]. *)
Definition is_uuid (s : string) : bool :=
  match split_on "-" s with
  | [a; b; c; d; e] =>
      forallb (λ p, matches_class is_hex p.2 p.2 p.1) [(a, 8); (b, 4); (c, 4); (d, 4); (e, 12)]
  | _ => false
  end.

(** * [canonicalizeJson] *)

(** An array index; objects list such properties first, in numeric order. *)
Definition is_array_index (k : string) : bool :=
  match k with
  | EmptyString => false
  | String c r =>
      sforall is_digit k && (negb (code c =? 48) || bool_decide (r = EmptyString))
      && ((read_digits 0 k).1 <=? 4294967294)
  end.
Definition index_le {A} (x y : string * A) : Prop := (read_digits 0 x.1).1 <= (read_digits 0 y.1).1.
#[global] Instance index_le_dec {A} (x y : string * A) : Decision (index_le x y).
Proof. unfold index_le. apply _. Defined.
Definition Object_fromEntries {A} (fs : list (string * A)) : list (string * A) :=
  merge_sort index_le (filter (λ kv, is_array_index kv.1 = true) fs)
  ++ filter (λ kv, is_array_index kv.1 ≠ true) fs.
Fixpoint canonicalizeJson (v : jsval) : jsval :=
  match v with
  | Arr l => Arr (map canonicalizeJson l)
  | Obj fs => Obj (Object_fromEntries (sort_keys (map_vals canonicalizeJson fs)))
  | _ => v
  end.

(** * Tables *)

Record routing := mkRouting {
  executorKind : executor_kind; assignedAgentId : option string;
  requiredTargetSelector : option string; requiredDnsProvider : option string;
  requiredCommandProfile : option string }.
(** A row of certificate_jobs; the columns that creation writes or replays
    read.  [r_mode] and [r_creationRequestHash] are NULL in rows older than
    the columns. *)
Record row := mkRow {
  r_id : string; r_workspaceId : string; r_operation : job_operation; r_status : job_status;
  r_mode : option job_mode; r_source : job_source; r_routing : routing;
  r_requestedByUserId : option string; r_requestedByApiTokenId : option string;
  r_requestedByConnectionId : option string;
  r_idempotencyKey : option string; r_subjectType : option string; r_subjectId : option string;
  r_payload : jsval; r_resultMetadata : jsval; r_errorCode : option string;
  r_errorMessage : option string; r_times : lifecycle; r_creationRequestHash : option string;
  r_enrollmentId : jsval }.
(** managed_certificates joined with its profile and identity. *)
Record mc_row := mkMc {
  key_mode : option string; mc_status : option string; identity_lifecycle_status : option string;
  mc_source : option string; deployed_agent_id : option string;
  discovery_agent_id : option string; profile_status : option string }.
Record db := mkDb {
  certops_require_approval_always : gmap string bool;      (* workspace *)
  managed_certificates : gmap (string * string) mc_row;    (* workspace, id *)
  certops_agents : gmap (string * string) string;          (* workspace, agent_id: row id *)
  enrollment_issuers : gmap (string * string) string;      (* workspace, current job: issuer *)
  certificate_jobs : gmap string row }.
Definition with_jobs (j : gmap string row) (d : db) : db :=
  mkDb (certops_require_approval_always d) (managed_certificates d) (certops_agents d)
    (enrollment_issuers d) j.

Class Services := {
  containsPrivateKeyMaterial : jsval → bool;
  assertNoUnredacted : string → bool;
  looksPrivate : string → bool;
  looksGeneric : string → bool;
  parse_url : string → option url;
  sha256 : string → string;
  jsonb_text : jsval → string;
  initial_provisioning : db → string → string → job_operation → executor_kind → job_source → bool;
  validateDistributionContract : string → jsval → result job_error unit;
  validateRenewalProfile : jsval → result job_error unit;
  resolveDistributionJobDefaults : db → string → job_operation → option string → jsval → jsval →
    result job_error jsval;
  allocateMaterialVersion : db → row → result job_error unit }.

Section creation.
Context {dp : DateParse} {sv : Services}.
Notation assertSafePublicValue :=
  (assertSafePublicValue containsPrivateKeyMaterial assertNoUnredacted looksPrivate looksGeneric).
Notation normalizePublicObject :=
  (normalizePublicObject containsPrivateKeyMaterial assertNoUnredacted looksPrivate looksGeneric).
Notation normalizeOptionalText :=
  (normalizeOptionalText containsPrivateKeyMaterial assertNoUnredacted looksPrivate looksGeneric).
Notation normalizeOptionalShortText :=
  (normalizeOptionalShortText containsPrivateKeyMaterial assertNoUnredacted looksPrivate looksGeneric).
Notation normalizeOptionalPublicText :=
  (normalizeOptionalPublicText containsPrivateKeyMaterial assertNoUnredacted looksPrivate looksGeneric).
Notation validateExecutionFields :=
  (validateExecutionFields (λ s, u_protocol <$> parse_url s) validateDistributionContract).

(** * Normalization of the request *)

Definition normalizeRequesterIdentity (value : jsval) : result job_error (option string) :=
  match value with
  | Undef | Null | Str EmptyString => Ok None
  | Num (Fin n) => if is_safe n && (0 <? n) then Ok (Some (print_Z n)) else Err CERTOPS_JOB_INVALID
  | Str s =>
      let trimmed := trim s in
      if bool_decide (trimmed = EmptyString) || (MAX_SHORT_TEXT_LENGTH <? slen trimmed)
      then Err CERTOPS_JOB_INVALID
      else _ ← assertSafePublicValue 0 (Str trimmed); Ok (Some trimmed)
  | _ => Err CERTOPS_JOB_INVALID
  end.

(** [new Date(v).getTime()]; [None] is an invalid date. *)
Definition to_time (v : jsval) : option Z :=
  match v with
  | Num (Fin n) => time_clip n
  | Num _ => None
  | Bool b => Some (if b then 1 else 0)
  | _ => date_parse (js_String v)
  end.
Definition normalizeOptionalDate (value : jsval) : result job_error (option Z) :=
  match value with
  | Undef | Null | Str EmptyString => Ok None
  | _ =>
      match to_time value with
      | None => Err CERTOPS_JOB_INVALID
      | Some t => _ ← assertSafePublicValue 0 (Str (toISOString t)); Ok (Some t)
      end
  end.
Definition normalizeExplicitLifecycleTimestamps (options : jsval) : result job_error lifecycle :=
  queuedAt ← normalizeOptionalDate (get "queuedAt" options);
  startedAt ← normalizeOptionalDate (get "startedAt" options);
  completedAt ← normalizeOptionalDate (get "completedAt" options);
  cancelledAt ← normalizeOptionalDate (get "cancelledAt" options);
  Ok (mkLifecycle queuedAt startedAt completedAt cancelledAt).

Definition normalizeOptionalEnum {A} (names : list (string * A)) (code : job_error) (value : jsval)
  : result job_error (option A) :=
  match value with
  | Undef | Null | Str EmptyString => Ok None
  | _ => a ← normalizeEnum names code None value; Ok (Some a)
  end.
Definition normalizeSubject (options : jsval) (operation : job_operation)
  : result job_error (option string * option string) :=
  subjectType ← normalizeOptionalEnum SUBJECT_TYPE_SET CERTOPS_JOB_INVALID (get "subjectType" options);
  subjectId ← normalizeOptionalShortText (get "subjectId" options);
  _ ← ensure (Bool.eqb (bool_decide (is_Some subjectType)) (bool_decide (is_Some subjectId)))
        CERTOPS_JOB_INVALID;
  _ ← ensure (bool_decide (is_Some subjectType)
              || negb (bool_decide (operation ∈ SUBJECT_REQUIRED_OPERATIONS))) CERTOPS_JOB_INVALID;
  _ ← ensure (Bool.eqb (isTrustAnchorOperation operation)
                (bool_decide (subjectType = Some "trust_anchor"))) CERTOPS_JOB_INVALID;
  Ok (subjectType, subjectId).

Definition validateRenewalProfileOnPayload (payload : jsval) (operation : job_operation) (required : bool)
  : result job_error unit :=
  if negb (bool_decide (operation = renew)) then
    ensure (negb (hasOwn "renewalProfile" payload)) CERTOPS_RENEWAL_PROFILE_INVALID
  else
    let hasProfile := hasOwn "renewalProfile" payload in
    let adcs := is_str "os-store-managed" (get "keyMode" payload)
                && is_str "windows-iis" (get "type" (get "target" payload)) in
    if negb hasProfile && adcs then Ok tt else
    if negb hasProfile && negb required then Ok tt else
    validateRenewalProfile (get "renewalProfile" payload).

(** [resolveAgentJobRoutingRequirements] of agentJobEligibility.js, then this
    write path's validation. *)
Definition resolveAgentJobRoutingRequirements (assigned selector dnsProvider commandProfile payload : jsval)
  : jsval * jsval * jsval * jsval :=
  let target := get "target" payload in
  (js_coalesce (js_coalesce assigned (get "assignedAgentId" payload)) Null,
   js_coalesce selector (js_coalesce (get "targetSelector" payload)
     (js_coalesce (match target with Obj _ | Arr _ => get "reference" target | _ => Null end) Null)),
   js_coalesce dnsProvider (js_coalesce (get "dnsProvider" payload) Null),
   js_coalesce commandProfile (js_coalesce (get "commandRef" payload) Null)).
Definition resolveExecutorKindAndRouting (options : jsval) (source : job_source) (payload auto : jsval)
  : result job_error routing :=
  let provisioning := bool_decide (source = controller_provisioning) in
  kind ← normalizeEnum JOB_EXECUTOR_KIND_SET CERTOPS_JOB_INVALID
           (Some (if provisioning then "controller" else "agent")) (get "executorKind" options);
  _ ← ensure (Bool.eqb provisioning (bool_decide (kind = controller))) CERTOPS_JOB_INVALID;
  let '(rawAssigned, rawSelector, rawDns, rawCommand) :=
    resolveAgentJobRoutingRequirements
      (js_coalesce (get "assignedAgentId" options) (js_coalesce (get "assignedAgentId" payload) auto))
      (get "requiredTargetSelector" options) (get "requiredDnsProvider" options)
      (get "requiredCommandProfile" options) payload in
  assigned ← normalizeOptionalShortText rawAssigned;
  selector ← normalizeOptionalText 512 rawSelector;
  dns ← normalizeOptionalShortText rawDns;
  _ ← ensure (match dns with Some p => DNS_PROVIDER_PATTERN p | None => true end)
        CERTOPS_JOB_EXECUTION_FIELD_INVALID;
  command ← normalizeOptionalShortText rawCommand;
  _ ← ensure (match command with Some p => COMMAND_REF_PATTERN p | None => true end)
        CERTOPS_JOB_EXECUTION_FIELD_INVALID;
  Ok (mkRouting kind assigned selector dns command).
Definition routing_expected (r : routing) (e : jsval) : bool :=
  same_js (Some (enum_name JOB_EXECUTOR_KIND_SET (executorKind r))) (get "executorKind" e)
  && same_js (assignedAgentId r) (get "assignedAgentId" e)
  && same_js (requiredTargetSelector r) (get "requiredTargetSelector" e)
  && same_js (requiredDnsProvider r) (get "requiredDnsProvider" e)
  && same_js (requiredCommandProfile r) (get "requiredCommandProfile" e).

(** The operations with a dedicated entry point. *)
Definition is_true (v : jsval) : bool := match v with Bool true => true | _ => false end.
Definition operation_entry (options : jsval) (operation : job_operation) : result job_error unit :=
  match operation with
  | protocol_smoke =>
      _ ← ensure (is_true (get "allowDiagnosticOperation" options)) CERTOPS_JOB_OPERATION_INVALID;
      ensure (nullish (get "mode" options)
              || is_str "dry_run" (get "mode" options))
        CERTOPS_JOB_MODE_INVALID
  | continue_enrollment =>
      ensure (is_true (get "allowEnrollmentContinuation" options)) CERTOPS_JOB_OPERATION_INVALID
  | adcs_preflight =>
      ensure (is_true (get "allowIssuerPreflight" options)) CERTOPS_JOB_OPERATION_INVALID
  | _ => Ok tt
  end.

(** * The fingerprint of a request *)

(** The inputs of [jobCreationRequestFingerprint], normalized. *)
Record request := mkRequest {
  q_operation : job_operation; q_status : job_status; q_mode : job_mode; q_source : job_source;
  q_requestedByUserId : option string; q_requestedByApiTokenId : option string;
  q_subjectType : option string; q_subjectId : option string;
  q_payload : jsval; q_resultMetadata : jsval;
  q_errorCode : option string; q_errorMessage : option string; q_explicit : lifecycle }.
Definition iso_js (t : option Z) : jsval := match t with Some t => Str (toISOString t) | None => Null end.
Definition creation_record (q : request) : jsval :=
  Obj [("operation", Str (enum_name JOB_OPERATION_SET (q_operation q)));
       ("status", Str (status_name (q_status q)));
       ("mode", Str (enum_name JOB_MODE_SET (q_mode q)));
       ("source", Str (enum_name JOB_SOURCE_SET (q_source q)));
       ("requestedByUserId", opt_js (q_requestedByUserId q));
       ("requestedByApiTokenId", opt_js (q_requestedByApiTokenId q));
       ("subjectType", opt_js (q_subjectType q));
       ("subjectId", opt_js (q_subjectId q));
       ("payload", q_payload q);
       ("resultMetadata", q_resultMetadata q);
       ("errorCode", opt_js (q_errorCode q));
       ("errorMessage", opt_js (q_errorMessage q));
       ("queuedAt", iso_js (queuedAt (q_explicit q)));
       ("startedAt", iso_js (startedAt (q_explicit q)));
       ("completedAt", iso_js (completedAt (q_explicit q)));
       ("cancelledAt", iso_js (cancelledAt (q_explicit q)))].
Definition jobCreationRequestFingerprint (q : request) : string :=
  sha256 (JSON_stringify (canonicalizeJson (creation_record q))).

(** The check for rows that predate the fingerprint. *)
Definition legacyJobCreationIdentity (operation : job_operation) (source : job_source) (mode : option job_mode)
    (userId apiTokenId subjectType subjectId : option string) (payload : jsval)
  : result job_error string :=
  userId ← normalizeRequesterIdentity (opt_js userId);
  apiTokenId ← normalizeRequesterIdentity (opt_js apiTokenId);
  Ok (JSON_stringify (canonicalizeJson (Obj
       [("operation", Str (enum_name JOB_OPERATION_SET operation));
        ("source", Str (enum_name JOB_SOURCE_SET source));
        ("mode", Str (enum_name JOB_MODE_SET (default real mode)));
        ("requestedByUserId", opt_js userId);
        ("requestedByApiTokenId", opt_js apiTokenId);
        ("subjectType", js_or (opt_js subjectType) Null);
        ("subjectId", js_or (opt_js subjectId) Null);
        ("payload", js_or payload (Obj []))]))).
Definition isMatchingReplay (existing : row) (q : request) : result job_error bool :=
  match r_creationRequestHash existing with
  | Some (String _ _ as h) => Ok (bool_decide (h = jobCreationRequestFingerprint q))
  | _ =>
      a ← legacyJobCreationIdentity (r_operation existing) (r_source existing) (r_mode existing)
            (r_requestedByUserId existing) (r_requestedByApiTokenId existing)
            (r_subjectType existing) (r_subjectId existing) (r_payload existing);
      b ← legacyJobCreationIdentity (q_operation q) (q_source q) (Some (q_mode q))
            (q_requestedByUserId q) (q_requestedByApiTokenId q) (q_subjectType q) (q_subjectId q)
            (q_payload q);
      Ok (bool_decide (a = b))
  end.

End creation.

(** * What the fingerprint covers *)

Lemma fromEntries_perm {A} (fs : list (string * A)) : Object_fromEntries fs ≡ₚ fs.
Proof.
  unfold Object_fromEntries. rewrite (merge_sort_Permutation index_le).
  induction fs as [|x fs IH]; [done|]. rewrite !filter_cons.
  destruct (decide (is_array_index x.1 = true)) as [H|H].
  - rewrite decide_False by tauto. cbn. by rewrite IH.
  - rewrite decide_True by tauto. by rewrite <- Permutation_middle, IH.
Qed.
Lemma canonicalizeJson_wf v : wf v → wf (canonicalizeJson v).
Proof.
  induction v as [| |b|n|s|l IH|fs IH] using jsval_ind'; try done.
  - rewrite wf_arr. cbn [canonicalizeJson]. intros H. apply wf_arr, Forall_map.
    eapply Forall_impl; [apply Forall_and; exact (conj IH H)|]. cbn. naive_solver.
  - rewrite wf_obj. intros [Hnd H]. cbn [canonicalizeJson]. apply wf_obj.
    rewrite fromEntries_perm, sort_keys_perm, map_vals_fst. split; [done|].
    rewrite Forall_map_vals. eapply Forall_impl; [apply Forall_and; exact (conj IH H)|]. cbn. naive_solver.
Qed.
Lemma filter_kept_map_vals f fs : (∀ v, kept (EmptyString, f v) = kept (EmptyString, v)) →
  List.filter kept (map_vals f fs) = map_vals f (List.filter kept fs).
Proof.
  intros Hf. induction fs as [|[k v] fs IH]; [done|].
  change (map_vals f ((k, v) :: fs)) with ((k, f v) :: map_vals f fs). cbn [List.filter].
  change (kept (k, f v)) with (kept (EmptyString, f v)). rewrite (Hf v).
  change (kept (EmptyString, v)) with (kept (k, v)). rewrite IH. by destruct (kept (k, v)).
Qed.
Lemma kept_canonicalizeJson v : kept (EmptyString, canonicalizeJson v) = kept (EmptyString, v).
Proof. by destruct v. Qed.
Lemma filter_perm {A} (f : A → bool) l1 l2 : l1 ≡ₚ l2 → List.filter f l1 ≡ₚ List.filter f l2.
Proof.
  induction 1 as [|x l1 l2 _ IH|x y l|]; cbn; [done|..].
  - destruct (f x); by rewrite IH.
  - destruct (f x), (f y); try done. constructor.
  - by etransitivity.
Qed.
Lemma map_vals_perm {A B} (f : A → B) fs1 fs2 : fs1 ≡ₚ fs2 → map_vals f fs1 ≡ₚ map_vals f fs2.
Proof. intros H. unfold map_vals. by rewrite H. Qed.

Lemma canonicalizeJson_same v : wf v → canon (jsonify (canonicalizeJson v)) = canon (jsonify v).
Proof.
  induction v as [| |b|n|s|l IH|fs IH] using jsval_ind'; try done.
  - rewrite wf_arr. intros H. cbn [canonicalizeJson jsonify canon]. f_equal. rewrite !map_map.
    apply map_ext_Forall. eapply Forall_impl; [apply Forall_and; exact (conj IH H)|]. cbn. naive_solver.
  - rewrite wf_obj. intros [Hnd H]. cbn [canonicalizeJson]. rewrite !jsonify_obj. cbn [canon]. f_equal.
    assert (map_vals canon (map_vals jsonify (List.filter kept (map_vals canonicalizeJson fs))) =
            map_vals canon (map_vals jsonify (List.filter kept fs))) as <-.
    { rewrite filter_kept_map_vals by apply kept_canonicalizeJson. rewrite !map_vals_compose.
      apply map_vals_ext. apply Forall_forall. intros kv Hin%list_elem_of_In.
      apply filter_In in Hin as [Hin%list_elem_of_In _].
      rewrite Forall_forall in IH, H. by apply IH, H. }
    apply sort_keys_unique.
    + rewrite !map_vals_fst. eapply sublist_NoDup; [|apply filter_sublist_fst].
      by rewrite fromEntries_perm, sort_keys_perm, map_vals_fst.
    + apply map_vals_perm, map_vals_perm, filter_perm. by rewrite fromEntries_perm, sort_keys_perm.
Qed.
(** Key order does not matter. *)
Lemma canonicalizeJson_canon v : canonicalizeJson (canon v) = canonicalizeJson v.
Proof.
  induction v as [| |b|n|s|l IH|fs IH] using jsval_ind'; try done.
  - cbn [canon canonicalizeJson]. f_equal. rewrite map_map. by apply map_ext_Forall.
  - cbn [canon canonicalizeJson]. do 2 f_equal. rewrite <- (sort_keys_map canonicalizeJson), map_vals_compose.
    rewrite (sort_keys_id (sort_keys _)) by apply sort_keys_sorted.
    f_equal. by apply map_vals_ext.
Qed.

Lemma enum_name_operation a b : enum_name JOB_OPERATION_SET a = enum_name JOB_OPERATION_SET b → a = b.
Proof. destruct a, b; vm_compute; congruence. Qed.
Lemma enum_name_source a b : enum_name JOB_SOURCE_SET a = enum_name JOB_SOURCE_SET b → a = b.
Proof. destruct a, b; vm_compute; congruence. Qed.
Lemma enum_name_mode a b : enum_name JOB_MODE_SET a = enum_name JOB_MODE_SET b → a = b.
Proof. destruct a, b; vm_compute; congruence. Qed.
Lemma status_name_inj a b : status_name a = status_name b → a = b.
Proof. destruct a, b; vm_compute; congruence. Qed.
Lemma opt_js_inj a b : opt_js a = opt_js b → a = b.
Proof. destruct a, b; cbn; congruence. Qed.

(** The same JSON up to the order of keys. *)
Definition same_json (v1 v2 : jsval) : Prop := canon (jsonify v1) = canon (jsonify v2).
#[global] Instance same_json_equiv : Equivalence same_json.
Proof. split; [by intros v|by intros a b|]. intros a b c H1 H2. by transitivity (canon (jsonify b)). Qed.
Definition same_request (q1 q2 : request) : Prop :=
  q_operation q1 = q_operation q2 ∧ q_status q1 = q_status q2 ∧ q_mode q1 = q_mode q2 ∧
  q_source q1 = q_source q2 ∧ q_requestedByUserId q1 = q_requestedByUserId q2 ∧
  q_requestedByApiTokenId q1 = q_requestedByApiTokenId q2 ∧
  q_subjectType q1 = q_subjectType q2 ∧ q_subjectId q1 = q_subjectId q2 ∧
  same_json (q_payload q1) (q_payload q2) ∧ same_json (q_resultMetadata q1) (q_resultMetadata q2) ∧
  q_errorCode q1 = q_errorCode q2 ∧ q_errorMessage q1 = q_errorMessage q2 ∧
  iso_js (queuedAt (q_explicit q1)) = iso_js (queuedAt (q_explicit q2)) ∧
  iso_js (startedAt (q_explicit q1)) = iso_js (startedAt (q_explicit q2)) ∧
  iso_js (completedAt (q_explicit q1)) = iso_js (completedAt (q_explicit q2)) ∧
  iso_js (cancelledAt (q_explicit q1)) = iso_js (cancelledAt (q_explicit q2)).
Definition json_object (v : jsval) : Prop := isPlainObject v = true ∧ wf v.

Lemma creation_record_wf q : json_object (q_payload q) → json_object (q_resultMetadata q) →
  wf (creation_record q).
Proof.
  intros [_ Hp] [_ Hm]. apply wf_obj. split; [apply (bool_decide_unpack _); vm_compute; exact I|].
  assert (∀ o, wf (opt_js o)) as Ho by (by intros []).
  assert (∀ t, wf (iso_js t)) as Ht by (by intros []).
  repeat (apply Forall_cons; split; [cbn [snd]; first [apply Ho|apply Ht|exact I|assumption]|]). constructor.
Qed.

Definition creation_fields (q : request) : list (string * jsval) :=
  match creation_record q with Obj fs => fs | _ => [] end.
Lemma filter_kept_all fs : Forall (λ kv, kept kv = true) fs → List.filter kept fs = fs.
Proof. induction 1 as [|kv fs H _ IH]; [done|]. cbn. by rewrite H, IH. Qed.
Lemma creation_fields_kept q : json_object (q_payload q) → json_object (q_resultMetadata q) →
  Forall (λ kv, kept kv = true) (creation_fields q).
Proof.
  intros [Hp _] [Hm _].
  assert (∀ k o, kept (k, opt_js o) = true) as Ho by (by intros k []).
  assert (∀ k t, kept (k, iso_js t) = true) as Ht by (by intros k []).
  assert (∀ k v, isPlainObject v = true → kept (k, v) = true) as Hv by (by intros k []).
  repeat (apply Forall_cons; split; [first [apply Ho|apply Ht|by apply Hv|reflexivity]|]). constructor.
Qed.
Lemma record_fields q1 q2 : json_object (q_payload q1) → json_object (q_resultMetadata q1) →
  json_object (q_payload q2) → json_object (q_resultMetadata q2) →
  canon (jsonify (creation_record q1)) = canon (jsonify (creation_record q2)) → same_request q1 q2.
Proof.
  intros Hp1 Hm1 Hp2 Hm2 E.
  change (creation_record q1) with (Obj (creation_fields q1)) in E.
  change (creation_record q2) with (Obj (creation_fields q2)) in E.
  rewrite !jsonify_obj, !filter_kept_all in E by (by apply creation_fields_kept).
  assert (∀ q, NoDup (map_vals jsonify (creation_fields q)).*1) as Hnd
    by (intros q; rewrite map_vals_fst; apply (bool_decide_unpack _); vm_compute; exact I).
  rewrite canon_obj_eq in E by apply Hnd.
  assert (∀ a b, canon (jsonify (opt_js a)) = canon (jsonify (opt_js b)) → a = b) as Ho
    by (intros [] []; cbn; congruence).
  assert (∀ a b, canon (jsonify (iso_js a)) = canon (jsonify (iso_js b)) → iso_js a = iso_js b) as Ht
    by (intros [] []; cbn; congruence).
  assert (∀ a b, canon (jsonify (Str a)) = canon (jsonify (Str b)) → a = b) as Hs
    by (cbn; congruence).
  assert (∀ a b : jsval, Some a = Some b → a = b) as HS by congruence.
  repeat split.
  - apply enum_name_operation, Hs, HS. exact (E "operation").
  - apply status_name_inj, Hs, HS. exact (E "status").
  - apply enum_name_mode, Hs, HS. exact (E "mode").
  - apply enum_name_source, Hs, HS. exact (E "source").
  - apply Ho, HS. exact (E "requestedByUserId").
  - apply Ho, HS. exact (E "requestedByApiTokenId").
  - apply Ho, HS. exact (E "subjectType").
  - apply Ho, HS. exact (E "subjectId").
  - apply HS. exact (E "payload").
  - apply HS. exact (E "resultMetadata").
  - apply Ho, HS. exact (E "errorCode").
  - apply Ho, HS. exact (E "errorMessage").
  - apply Ht, HS. exact (E "queuedAt").
  - apply Ht, HS. exact (E "startedAt").
  - apply Ht, HS. exact (E "completedAt").
  - apply Ht, HS. exact (E "cancelledAt").
Qed.

(** C37: what the fingerprint of a request covers.  Two requests with the same
    fingerprint agree on operation, status, mode, source, requesters, subject,
    error fields and explicit timestamps, and on payload and result metadata
    up to the order of keys — or SHA-256 has collided.  And it covers nothing
    else of a request, nor the order of keys. *)
Theorem fingerprint_covers {sv : Services} (q1 q2 : request) :
  json_object (q_payload q1) → json_object (q_resultMetadata q1) →
  json_object (q_payload q2) → json_object (q_resultMetadata q2) →
  (jobCreationRequestFingerprint q1 = jobCreationRequestFingerprint q2 →
     same_request q1 q2 ∨ ∃ a b, a ≠ b ∧ sha256 a = sha256 b) ∧
  (canon (creation_record q1) = canon (creation_record q2) →
     jobCreationRequestFingerprint q1 = jobCreationRequestFingerprint q2).
Proof.
  intros Hp1 Hm1 Hp2 Hm2. unfold jobCreationRequestFingerprint. split.
  - intros E. set (t1 := JSON_stringify _) in *. set (t2 := JSON_stringify (canonicalizeJson (creation_record q2))) in *.
    destruct (decide (t1 = t2)) as [Et|Hne]; [left|right; by exists t1, t2].
    apply stringify_inj in Et; [|by apply canonicalizeJson_wf, creation_record_wf..].
    apply (f_equal canon) in Et. rewrite !canonicalizeJson_same in Et by (by apply creation_record_wf).
    by apply record_fields.
  - intros E. by rewrite <- (canonicalizeJson_canon (creation_record q1)), E, canonicalizeJson_canon.
Qed.

Definition demo_parse_url (s : string) : option url :=
  let s := trim s in
  if startsWith "https://" s then Some (mkUrl "https:" (sdrop 8 s) EmptyString) else None.
(** Services that accept everything; the digest is the text itself. *)
Definition demo_services : Services := {|
  containsPrivateKeyMaterial := λ _, false; assertNoUnredacted := λ _, true;
  looksPrivate := λ _, false; looksGeneric := λ _, false;
  parse_url := demo_parse_url; sha256 := λ s, "sha256:" +:+ s; jsonb_text := JSON_stringify;
  initial_provisioning := λ _ _ _ _ _ _, false;
  validateDistributionContract := λ _ _, Ok tt; validateRenewalProfile := λ _, Ok tt;
  resolveDistributionJobDefaults := λ _ _ _ _ _ a, Ok a;
  allocateMaterialVersion := λ _ _, Ok tt |}.
Definition demo_request (payload : jsval) : request :=
  mkRequest renew pending real api (Some "7") None (Some "domain") (Some "example.org") payload (Obj [])
    None None (mkLifecycle None None None None).
Lemma fingerprint_covers_witness :
  let f := @jobCreationRequestFingerprint demo_services in
  let q1 := demo_request (Obj [("a", Num (Fin 1)); ("b", Bool true)]) in
  let q2 := demo_request (Obj [("b", Bool true); ("a", Num (Fin 1))]) in
  let q3 := demo_request (Obj [("a", Num (Fin 2)); ("b", Bool true)]) in
  f q1 = f q2 ∧ f q1 ≠ f q3.
Proof.
  cbv zeta.
  assert (json_object (Obj [])) as H0 by (split; [done|apply wf_obj; by repeat constructor]).
  assert (∀ n, json_object (Obj [("a", Num (Fin n)); ("b", Bool true)])) as H1
    by (intros n; split; [done|apply wf_obj; split; [apply (bool_decide_unpack _); vm_compute; exact I|by repeat constructor]]).
  assert (json_object (Obj [("b", Bool true); ("a", Num (Fin 1))])) as H2
    by (split; [done|apply wf_obj; split; [apply (bool_decide_unpack _); vm_compute; exact I|by repeat constructor]]).
  split.
  - apply (@fingerprint_covers demo_services (demo_request (Obj [("a", Num (Fin 1)); ("b", Bool true)]))
      (demo_request (Obj [("b", Bool true); ("a", Num (Fin 1))])) (H1 1) H0 H2 H0).
    vm_compute. reflexivity.
  - intros E. apply (@fingerprint_covers demo_services) in E; [|by auto..].
    destruct E as [H|(a & b & Hne & H)].
    + destruct H as (_ & _ & _ & _ & _ & _ & _ & _ & H & _). vm_compute in H. congruence.
    + apply Hne. by apply (sapp_inj_r "sha256:") in H.
Defined.
