(* ===== verification/RenewalProfile.v ===== *)
(** Renewal profiles: apps/api/services/certops/renewalProfile.js.

    A certificate's profile says how it is renewed: names, key, CA, ACME
    client, DNS provider, deployment targets, verification.  The scheduler
    resolves the stored profile into a validated snapshot, which goes into the
    payload of the job (RenewalPayload); job creation validates it again.  The
    theorems say that what validation returns is well formed and, with one
    exception, its own validation.  Of an error its code is kept. *)
From S2P Require Import Prelude Dates Net Json Jobs JobFields RenewalCapacity JobRequest.
Open Scope Z_scope.

Inductive profile_error :=
| PROFILE_INVALID | PROFILE_INCOMPLETE | OVERRIDE_INVALID | contract_error (e : job_error).
Notation res := (result profile_error).

(** * Validated values *)

Definition RENEWAL_PROFILE_SCHEMA_VERSION : Z := 1.
Definition TARGET_TYPES : list string :=
  ["domain"; "endpoint"; "kubernetes"; "appliance"; "load-balancer"; "external"; "windows-iis"].
Definition is_letter (c : ascii) : bool := is_upper_az c || is_lower_az c.
Definition one_of (l : list Z) (c : ascii) : bool := bool_decide (code c ∈ l).
(** [/^[A-Za-z0-9 _.-]{1,64}$/] and [/^[A-Za-z0-9 _.:-]{1,256}$/]. *)
Definition WINDOWS_STORE_NAME_PATTERN : string → bool := matches_class (λ c, is_alnum c || one_of [32; 95; 46; 45] c) 1 64.
Definition WINDOWS_IIS_SITE_PATTERN : string → bool :=
  matches_class (λ c, is_alnum c || one_of [32; 95; 46; 58; 45] c) 1 256.
(** A DNS label: [/^[A-Za-z0-9]([A-Za-z0-9-]{0,61}[A-Za-z0-9])?$/]. *)
Definition is_label (s : string) : bool :=
  matches_class (λ c, is_alnum c || one_of [45] c) 1 63 s
  && match s with String c _ => is_alnum c | EmptyString => false end
  && is_alnum (default " "%char (String.get (String.length s - 1) s)).
Definition WINDOWS_SNI_HOST_PATTERN (s : string) : bool := forallb is_label (split_on "."%char s).
Definition WINDOWS_THUMBPRINT_SHA1_PATTERN : string → bool := matches_class is_hex_digit 40 40.
Definition SAN_POLICY_MODES : list string := ["exact"; "template"; "inherit"].
Definition KEY_ALGORITHMS : list string := ["rsa"; "ecdsa"].
Definition RSA_KEY_SIZES : list Z := [2048; 3072; 4096].
Definition ECDSA_KEY_SIZES : list Z := [256; 384].
(** [/^(?:\/|[A-Za-z]:[\\/]|\\\\)/]: a POSIX, drive or UNC path. *)
Definition ABSOLUTE_HOST_PATH_PATTERN (s : string) : bool :=
  match s with
  | String c s' =>
      bool_decide (code c = 47)
      || is_letter c && match s' with String d (String e _) => bool_decide (code d = 58) && one_of [92; 47] e | _ => false end
      || bool_decide (code c = 92) && match s' with String d _ => bool_decide (code d = 92) | _ => false end
  | EmptyString => false
  end.
(** [/^[A-Za-z_][A-Za-z0-9_-]{0,31}$/]. *)
Definition OWNER_GROUP_PATTERN (s : string) : bool :=
  matches_class (λ c, is_alnum c || one_of [95; 45] c) 1 32 s
  && match s with String c _ => is_letter c || one_of [95] c | EmptyString => false end.
Definition is_octal (c : ascii) : bool := in_range 48 55 c.
(** [/^0?[0-7]{3}$/]. *)
Definition FILE_MODE_STRING_PATTERN (s : string) : bool :=
  sforall is_octal s && ((slen s =? 3) || (slen s =? 4) && startsWith "0" s).

Definition as_array (v : jsval) : list jsval := match v with Arr l => l | _ => [] end.
Definition any_text (s : string) : bool := true.
(** requireString: trimmed, not empty, at most [maxLength] long. *)
Definition requireString (maxLength : Z) (pattern : string → bool) (value : jsval) : res string :=
  match value with
  | Str s => let trimmed := trim s in _ ← ensure (within 1 maxLength trimmed && pattern trimmed) PROFILE_INVALID; Ok trimmed
  | _ => Err PROFILE_INVALID
  end.
Definition requiredString (maxLength : Z) (pattern : string → bool) (value : jsval) : res jsval :=
  Str <$> requireString maxLength pattern value.
(** optionalStringOrNull, and the other optional texts. *)
Definition optionalString (maxLength : Z) (pattern : string → bool) (value : jsval) : res jsval :=
  if nullish value then Ok Null else requiredString maxLength pattern value.
Definition optionalAbsolutePath : jsval → res jsval := optionalString 512 ABSOLUTE_HOST_PATH_PATTERN.
Definition int_within (lo hi : Z) (value : jsval) : bool :=
  match value with Num (Fin n) => (lo <=? n) && (n <=? hi) | _ => false end.
Definition text_in (l : list string) (value : jsval) : bool :=
  match value with Str s => bool_decide (s ∈ l) | _ => false end.
Definition is_boolean (value : jsval) : bool := match value with Bool _ => true | _ => false end.

Definition validateKeySize (algorithm keySize : jsval) : res unit :=
  ensure (match keySize with
          | Num (Fin n) => bool_decide (n ∈ (if is_str "rsa" algorithm then RSA_KEY_SIZES else ECDSA_KEY_SIZES))
          | _ => false
          end) PROFILE_INVALID.
Definition parseFileMode (value : jsval) : res jsval :=
  if nullish value then Ok Null else
  modeInt ← match value with
            | Num (Fin n) => Ok n
            | Str s => if FILE_MODE_STRING_PATTERN (trim s) then Ok (digits_val 8 digit_val 0 (trim s)) else Err PROFILE_INVALID
            | _ => Err PROFILE_INVALID
            end;
  _ ← ensure ((0 <=? modeInt) && (modeInt <=? 511)) PROFILE_INVALID;
  _ ← ensure (Z.land modeInt 2 =? 0) PROFILE_INVALID;
  Ok (Num (Fin modeInt)).

(** * Targets *)

Definition validateWindowsBinding (value : jsval) : res (list (string * jsval)) :=
  store ← requiredString 64 WINDOWS_STORE_NAME_PATTERN (get "store" value);
  let binding := get "binding" value in
  _ ← ensure (isPlainObject binding) PROFILE_INVALID;
  site ← requiredString 256 WINDOWS_IIS_SITE_PATTERN (get "site" binding);
  _ ← ensure (int_within 1 65535 (get "port" binding)) PROFILE_INVALID;
  sniHost ← optionalString 255 WINDOWS_SNI_HOST_PATTERN (get "sniHost" binding);
  thumbprintSha1 ← optionalString 40 WINDOWS_THUMBPRINT_SHA1_PATTERN (get "thumbprintSha1" value);
  Ok [("store", store); ("binding", Obj [("site", site); ("port", get "port" binding); ("sniHost", sniHost)]);
      ("thumbprintSha1", thumbprintSha1)].
Definition retentionCount (value : jsval) : res jsval :=
  if nullish value then Ok Null else _ ← ensure (int_within 1 64 value) PROFILE_INVALID; Ok value.
(** The refs are taken over unless they are null. *)
Definition reload_refs (refs : jsval) : res (option jsval) :=
  if nullish refs then Ok None else
  _ ← ensure (isPlainObject refs) PROFILE_INVALID;
  validate ← requiredString 128 RELOAD_SERVICE_PATTERN (get "validate" refs);
  reload ← requiredString 128 RELOAD_SERVICE_PATTERN (get "reload" refs);
  Ok (Some (Obj [("validate", validate); ("reload", reload)])).
(** The optional properties of a target, in the order they are copied. *)
Definition HOST_FIELDS : list (string * (jsval → res (option jsval))) :=
  let taken parse value := Some <$> parse value in
  [("reloadService", taken (optionalString 128 RELOAD_SERVICE_PATTERN)); ("reloadCommandRefs", reload_refs);
   ("keyPath", taken optionalAbsolutePath); ("chainPath", taken optionalAbsolutePath);
   ("certMode", taken parseFileMode); ("keyMode", taken parseFileMode); ("chainMode", taken parseFileMode);
   ("owner", taken (optionalString 32 OWNER_GROUP_PATTERN)); ("group", taken (optionalString 32 OWNER_GROUP_PATTERN));
   ("backupDir", taken optionalAbsolutePath); ("backupRetentionCount", taken retentionCount)].
(** Each property is copied when the object has it itself. *)
Fixpoint own_fields (specs : list (string * (jsval → res (option jsval)))) (value : jsval) : res (list (string * jsval)) :=
  match specs with
  | [] => Ok []
  | (name, parse) :: specs =>
      x ← (if hasOwn name value then parse (get name value) else Ok None);
      rest ← own_fields specs value;
      Ok (match x with Some y => [(name, y)] | None => [] end ++ rest)
  end.
Definition validateTarget (value : jsval) : res jsval :=
  _ ← ensure (isPlainObject value) PROFILE_INVALID;
  let type := get "type" value in
  _ ← ensure (text_in TARGET_TYPES type) PROFILE_INVALID;
  reference ← requiredString 512 any_text (get "reference" value);
  if is_str "windows-iis" type then
    windowsFields ← validateWindowsBinding value;
    Ok (Obj (("type", type) :: ("reference", reference) :: windowsFields))
  else
    certPath ← optionalAbsolutePath (get "certPath" value);
    rest ← own_fields HOST_FIELDS value;
    Ok (Obj (("type", type) :: ("reference", reference) :: ("certPath", certPath) :: rest)).

(** * The profile *)

Definition isValidHttpUrl `{Services} (value : jsval) : bool :=
  a_string (valid_caEndpoint (λ s, u_protocol <$> parse_url s)) value.
Definition trimmed (value : jsval) : jsval := match value with Str s => Str (trim s) | _ => value end.
Definition placeholder_version : string := "00000000-0000-5000-8000-000000000000".
(** [{...v}]: of a string, its characters. *)
Definition spread_of (v : jsval) : list (string * jsval) :=
  match v with
  | Str s => imap (λ i c, (print_Z (Z.of_nat i), Str (String c EmptyString))) (list_ascii_of_string s)
  | _ => own_entries v
  end.
(** A publication profile's destination, for some version of the material. *)
Definition publication_of (destination : jsval) (version : string) : jsval :=
  Obj (assoc_set "materialVersionId" (Str version) (spread_of destination)).
Definition some_wildcard (sans : list string) : bool := existsb (includes "*") sans.

Definition validate_sans (sanPolicyRaw : jsval) : res jsval :=
  _ ← ensure (isPlainObject sanPolicyRaw) PROFILE_INVALID;
  _ ← ensure (text_in SAN_POLICY_MODES (get "mode" sanPolicyRaw)) PROFILE_INVALID;
  let rawSans := as_array (get "sans" sanPolicyRaw) in
  _ ← ensure ((1 <=? Z.of_nat (length rawSans)) && (Z.of_nat (length rawSans) <=? 100)) PROFILE_INCOMPLETE;
  sans ← mapM (requireString 255 any_text) rawSans;
  _ ← ensure (is_boolean (get "allowWildcards" sanPolicyRaw)) PROFILE_INVALID;
  _ ← ensure (truthy (get "allowWildcards" sanPolicyRaw) || negb (some_wildcard sans)) PROFILE_INVALID;
  Ok (Obj [("mode", get "mode" sanPolicyRaw); ("sans", Arr (map Str sans));
           ("allowWildcards", get "allowWildcards" sanPolicyRaw)]).
Definition validate_ca `{Services} (ca : jsval) : res jsval :=
  _ ← ensure (isPlainObject ca) PROFILE_INVALID;
  _ ← ensure (isValidHttpUrl (get "endpoint" ca)) PROFILE_INCOMPLETE;
  accountRef ← optionalString 128 any_text (get "accountRef" ca);
  eabRef ← optionalString 128 any_text (get "eabRef" ca);
  Ok (Obj [("endpoint", trimmed (get "endpoint" ca)); ("accountRef", accountRef); ("eabRef", eabRef)]).
Definition validate_acme (acme : jsval) : res jsval :=
  _ ← ensure (isPlainObject acme) PROFILE_INVALID;
  _ ← ensure (text_in ACME_KINDS (get "kind" acme)) PROFILE_INVALID;
  commandRef ← requiredString 128 COMMAND_REF_PATTERN (get "commandRef" acme);
  Ok (Obj [("kind", get "kind" acme); ("commandRef", commandRef)]).
Definition validate_dns (dns : jsval) : res jsval :=
  _ ← ensure (isPlainObject dns) PROFILE_INVALID;
  provider ← requiredString 64 DNS_PROVIDER_PATTERN (get "provider" dns);
  zone ← requiredString 255 any_text (get "zone" dns);
  Ok (Obj [("provider", provider); ("zone", zone)]).
(** A publication profile publishes its material and deploys nothing. *)
Definition validate_publication `{Services} (raw target : jsval) (deploymentTargets : list jsval) : res unit :=
  if negb (truthy (get "publicationDestination" raw)) then Ok tt else
  _ ← match validateDistributionContract "publication"
              (publication_of (get "publicationDestination" raw) placeholder_version) with
      | Ok _ => Ok tt | Err e => Err (contract_error e) end;
  ensure (match deploymentTargets with [] => true | _ => false end && is_str "domain" (get "type" target)
          && negb (truthy (get "certPath" target)) && negb (truthy (get "requireMatch" (get "verification" raw)))) PROFILE_INVALID.
Definition validate_verification (verification : jsval) : res jsval :=
  _ ← ensure (isPlainObject verification) PROFILE_INVALID;
  _ ← ensure (is_boolean (get "requireMatch" verification)) PROFILE_INVALID;
  host ← optionalString 255 any_text (get "host" verification);
  let port := get "port" verification in
  _ ← ensure (nullish port || int_within 1 65535 port) PROFILE_INVALID;
  _ ← ensure (negb (truthy (get "requireMatch" verification)) || truthy host) PROFILE_INCOMPLETE;
  Ok (Obj [("host", host); ("port", if nullish port then Null else port); ("requireMatch", get "requireMatch" verification)]).

Definition validateRenewalProfile `{Services} (raw : jsval) : res jsval :=
  _ ← ensure (isPlainObject raw) PROFILE_INCOMPLETE;
  _ ← ensure (match get "schemaVersion" raw with Num (Fin n) => n =? RENEWAL_PROFILE_SCHEMA_VERSION | _ => false end)
        PROFILE_INVALID;
  sanPolicy ← validate_sans (get "sanPolicy" raw);
  _ ← ensure (text_in KEY_ALGORITHMS (get "keyAlgorithm" raw)) PROFILE_INVALID;
  _ ← validateKeySize (get "keyAlgorithm" raw) (get "keySize" raw);
  let rotation := get "keyRotationPolicy" raw in
  _ ← ensure (isPlainObject rotation && is_boolean (get "rotateOnRenew" rotation)) PROFILE_INVALID;
  _ ← ensure (negb (is_str "windows-iis" (get "type" (get "target" raw)) && negb (truthy (get "rotateOnRenew" rotation))))
        PROFILE_INVALID;
  preferredChain ← optionalString 256 any_text (get "preferredChain" raw);
  ca ← validate_ca (get "ca" raw);
  acme ← validate_acme (get "acme" raw);
  dns ← validate_dns (get "dns" raw);
  let rawTargets := get "deploymentTargets" raw in
  let targets := as_array rawTargets in
  _ ← ensure (isArray rawTargets && (truthy (get "publicationDestination" raw) || (1 <=? Z.of_nat (length targets)))
              && (Z.of_nat (length targets) <=? 32)) PROFILE_INCOMPLETE;
  deploymentTargets ← mapM validateTarget targets;
  target ← validateTarget (js_or (get "target" raw) (default Undef (head deploymentTargets)));
  _ ← validate_publication raw target deploymentTargets;
  verification ← validate_verification (get "verification" raw);
  profileId ← (if nullish (get "profileId" raw) then Ok Null
               else requiredString 128 any_text (Str (js_String (get "profileId" raw))));
  profileName ← optionalString 256 any_text (get "profileName" raw);
  Ok (Obj ([("schemaVersion", Num (Fin RENEWAL_PROFILE_SCHEMA_VERSION)); ("profileId", profileId); ("profileName", profileName);
            ("sanPolicy", sanPolicy); ("keyAlgorithm", get "keyAlgorithm" raw); ("keySize", get "keySize" raw);
            ("keyRotationPolicy", Obj [("rotateOnRenew", get "rotateOnRenew" rotation)]); ("preferredChain", preferredChain);
            ("ca", ca); ("acme", acme); ("dns", dns); ("deploymentTargets", Arr deploymentTargets); ("target", target);
            ("verification", verification)]
           ++ if truthy (get "publicationDestination" raw)
              then [("publicationDestination", Obj (spread_of (get "publicationDestination" raw)))] else [])).

(** * The snapshot of a certificate *)

(** The columns of the due certificate and its profile. *)
Record certificate := mkCertificate {
  c_id : string; c_workspace_id : string; c_common_name : jsval; c_subject_alt_names : jsval; c_not_after : Z;
  c_key_mode : jsval; c_profile_id : jsval; c_profile_name : jsval; c_profile_key_mode : jsval;
  c_profile_public_metadata : jsval }.

Definition trimmed_texts (l : list string) : list string := List.filter (λ s, negb (bool_decide (s = EmptyString))) (map trim l).
Definition resolveSans (sanPolicy : jsval) (c : certificate) : list string :=
  let mode := js_or (get "mode" sanPolicy) (Str "inherit") in
  let fromCert :=
    match trimmed_texts (match c_subject_alt_names c with
                         | Arr l => map (λ v, match v with Str s => s | _ => EmptyString end) l | _ => [] end) with
    | [] => match c_common_name c with Str s => trimmed_texts [s] | _ => [] end
    | names => names
    end in
  match get "sans" sanPolicy with
  | Arr (x :: l) => if text_in ["exact"; "template"] mode then trimmed_texts (map js_String (x :: l)) else fromCert
  | _ => fromCert
  end.
Definition parseProfilePublicMetadata (value : jsval) : jsval :=
  match value with
  | Str s => match JSON_parse s with Some (Obj fs) => Obj fs | _ => Obj [] end
  | Obj fs => value
  | _ => Obj []
  end.
Definition rotation_of_key_mode (c : certificate) (candidate : jsval) : jsval :=
  let keyMode := js_or (c_key_mode c) (c_profile_key_mode c) in
  Obj [("rotateOnRenew", Bool (text_in ["agent-local"; "proxy-agent-local"] keyMode
    || is_str "os-store-managed" keyMode && is_str "windows-iis" (get "type" (get "target" candidate))))].
Definition snapshot_candidate (source : list (string * jsval)) (c : certificate) (sans : list string) : jsval :=
  let get k := get k (Obj source) in
  let candidate :=
    spread source
      [("schemaVersion", js_coalesce (get "schemaVersion") (Num (Fin RENEWAL_PROFILE_SCHEMA_VERSION)));
       ("profileId", Str (js_String (c_profile_id c)));
       ("profileName", if isString (c_profile_name c) then c_profile_name c else js_coalesce (get "profileName") Null);
       ("sanPolicy", Obj [("mode", js_or (Json.get "mode" (get "sanPolicy")) (Str "inherit")); ("sans", Arr (map Str sans));
                          ("allowWildcards", Bool (is_true (Json.get "allowWildcards" (get "sanPolicy"))))])] in
  match Json.get "keyRotationPolicy" (Obj candidate) with
  | Obj _ | Arr _ => Obj candidate
  | _ => Obj (assoc_set "keyRotationPolicy" (rotation_of_key_mode c (Obj candidate)) candidate)
  end.
Definition resolveRenewalProfileSnapshot `{Services} (c : certificate) : res jsval :=
  _ ← ensure (truthy (c_profile_id c)) PROFILE_INCOMPLETE;
  match get "renewalProfile" (parseProfilePublicMetadata (c_profile_public_metadata c)) with
  | Obj source =>
      let sans := resolveSans (get "sanPolicy" (Obj source)) c in
      _ ← ensure (match sans with [] => false | _ => true end) PROFILE_INCOMPLETE;
      validateRenewalProfile (snapshot_candidate source c sans)
  | _ => Err PROFILE_INCOMPLETE
  end.

(** * What validation returns is its own validation *)

(** What [parse] returns it returns unchanged. *)
Definition stable (parse : jsval → res jsval) : Prop := ∀ v w, parse v = Ok w → parse w = Ok w.
Lemma requireString_ok maxLength pattern v s : requireString maxLength pattern v = Ok s →
  within 1 maxLength s = true ∧ pattern s = true ∧ trim s = s.
Proof. destruct v; cbn; try done. intros H. simplify_result. split_bool. by rewrite trim_trim. Qed.
Lemma requireString_own maxLength pattern s :
  within 1 maxLength s = true → pattern s = true → trim s = s → requireString maxLength pattern (Str s) = Ok s.
Proof. intros H1 H2 Ht. cbn. by rewrite Ht, H1, H2. Qed.
Lemma requireString_stable maxLength pattern v s :
  requireString maxLength pattern v = Ok s → requireString maxLength pattern (Str s) = Ok s.
Proof. intros (? & ? & ?)%requireString_ok. by apply requireString_own. Qed.
Lemma requiredString_stable maxLength pattern : stable (requiredString maxLength pattern).
Proof.
  intros v w. unfold requiredString. destruct (requireString _ _ v) as [s|e] eqn:E; [|done].
  intros [= <-]. by rewrite (requireString_stable _ _ _ _ E).
Qed.
Lemma optionalString_stable maxLength pattern : stable (optionalString maxLength pattern).
Proof.
  intros v w. unfold optionalString at 1. destruct (nullish v); [by intros [= <-]|].
  intros H. pose proof (requiredString_stable _ _ _ _ H) as Hs. revert H. unfold requiredString.
  destruct (requireString _ _ v); [|done]. by intros [= <-].
Qed.
Lemma parseFileMode_stable : stable parseFileMode.
Proof.
  intros v w. unfold parseFileMode at 1. destruct (nullish v); [by intros [= <-]|].
  intros (n & _ & H)%bind_ok. simplify_result. cbn.
  match goal with H1 : _ = true, H2 : _ = true |- _ => by rewrite H1, H2 end.
Qed.
Lemma retentionCount_stable : stable retentionCount.
Proof.
  intros v w. unfold retentionCount. destruct (nullish v) eqn:E; [by intros [= <-]|].
  intros H. simplify_result. by rewrite E, H.
Qed.
Lemma reload_refs_stable v y : reload_refs v = Ok (Some y) → reload_refs y = Ok (Some y).
Proof.
  unfold reload_refs at 1. destruct (nullish v); [done|]. intros H. simplify_result.
  unfold reload_refs. cbn. do 2 (erewrite requiredString_stable by eassumption; cbn). done.
Qed.

Definition stable_field (spec : string * (jsval → res (option jsval))) : Prop :=
  ∀ v y, spec.2 v = Ok (Some y) → spec.2 y = Ok (Some y).
Lemma taken_stable name parse : stable parse → stable_field (name, λ v, Some <$> parse v).
Proof. intros Hp v y. cbn. destruct (parse v) as [w|e] eqn:E; [|done]. intros [= <-]. by rewrite (Hp _ _ E). Qed.
Lemma host_fields_stable : Forall stable_field HOST_FIELDS.
Proof.
  repeat constructor; first [exact reload_refs_stable|apply taken_stable];
    auto using optionalString_stable, parseFileMode_stable, retentionCount_stable; apply optionalString_stable.
Qed.
Lemma own_fields_names specs value l : own_fields specs value = Ok l → ∀ k, k ∈ l.*1 → k ∈ specs.*1.
Proof.
  revert l. induction specs as [|[name parse] specs IH]; cbn; intros l H; simplify_result; [done|].
  intros k. rewrite fmap_app, elem_of_app, elem_of_cons. intros [Hk|Hk]; [left|right; by eapply IH].
  destruct x; [|by apply not_elem_of_nil in Hk]. by apply list_elem_of_singleton in Hk.
Qed.
Lemma own_fields_stable specs value l : Forall stable_field specs → NoDup specs.*1 → own_fields specs value = Ok l →
  ∀ pre, (∀ k, k ∈ specs.*1 → k ∉ pre.*1) → own_fields specs (Obj (pre ++ l)) = Ok l.
Proof.
  intros Hs. revert l. induction Hs as [|[name parse] specs Hp Hs IH]; cbn [own_fields fmap list_fmap];
    intros l Hnd H pre Hpre; [done|].
  apply NoDup_cons in Hnd as [Hname Hnd]. apply bind_ok in H as (x & Hx & (rest & Hrest & [= <-])%bind_ok).
  assert (name ∉ pre.*1) as Hn by (apply Hpre, elem_of_cons; by left).
  destruct x as [y|]; cbn [app].
  - assert (assoc_get name (pre ++ (name, y) :: rest) = Some y) as Hg
      by (rewrite assoc_get_app, (proj2 (assoc_get_None _ _) Hn); cbn; by rewrite decide_True).
    cbn [hasOwn get]. rewrite Hg, bool_decide_eq_true_2 by done. cbn [default from_option id].
    assert (parse y = Ok (Some y)) as -> by (destruct (hasOwn name value); [by apply (Hp _ _ Hx)|done]). cbn.
    change ((name, y) :: rest) with ([(name, y)] ++ rest). rewrite app_assoc, (IH _ Hnd Hrest); [done|].
    intros k Hk. rewrite fmap_app, elem_of_app. cbn. rewrite list_elem_of_singleton.
    intros [Hin| ->]; [|done]. revert Hin. apply Hpre, elem_of_cons. by right.
  - assert (hasOwn name (Obj (pre ++ rest)) = false) as ->.
    { apply bool_decide_eq_false. rewrite assoc_get_app, (proj2 (assoc_get_None _ _) Hn), <- eq_None_not_Some.
      apply assoc_get_None. intros Hin. by apply Hname, (own_fields_names _ _ _ Hrest). }
    cbn. rewrite (IH _ Hnd Hrest); [done|]. intros k Hk. apply Hpre, elem_of_cons. by right.
Qed.
Lemma get_here k v fs : get k (Obj ((k, v) :: fs)) = v.
Proof. cbn. by rewrite decide_True. Qed.
Lemma get_there k k' v fs : k ≠ k' → get k (Obj ((k', v) :: fs)) = get k (Obj fs).
Proof. intros H. cbn. by rewrite decide_False. Qed.
#[local] Arguments get : simpl never.
#[local] Arguments text_in : simpl never.
#[local] Arguments is_str : simpl never.
#[local] Arguments int_within : simpl never.
#[local] Arguments requiredString : simpl never.
#[local] Arguments optionalString : simpl never.
#[local] Arguments own_fields : simpl never.
(** Reads the properties of the objects in the goal. *)
Ltac read_fields := repeat first [rewrite get_here|rewrite get_there by discriminate]; cbn.
Lemma validateTarget_stable : stable validateTarget.
Proof.
  intros v w. unfold validateTarget at 1.
  intros ([] & _ & ([] & Ht%ensure_ok & (reference & Hr%requiredString_stable & H)%bind_ok)%bind_ok)%bind_ok.
  destruct (is_str "windows-iis" (get "type" v)) eqn:Et.
  - apply bind_ok in H as (fs & Hw & [= <-]). unfold validateWindowsBinding in Hw.
    apply bind_ok in Hw as (store & Hst%requiredString_stable & ([] & _ & (site & Hsi%requiredString_stable & Hw)%bind_ok)%bind_ok).
    apply bind_ok in Hw as ([] & Hport%ensure_ok & (sni & Hsni%optionalString_stable & (thumb & Hth%optionalString_stable & [= <-])%bind_ok)%bind_ok).
    unfold validateTarget, validateWindowsBinding. read_fields. rewrite Ht, Et. read_fields. rewrite Hr. read_fields.
    rewrite Hst. read_fields. rewrite Hsi. read_fields. rewrite Hport. read_fields. rewrite Hsni. read_fields. by rewrite Hth.
  - apply bind_ok in H as (certPath & Hc%optionalString_stable & (rest & Hrest & [= <-])%bind_ok).
    unfold validateTarget. read_fields. rewrite Ht, Et. read_fields. rewrite Hr. read_fields. unfold optionalAbsolutePath.
    rewrite Hc. read_fields.
    change (("type", get "type" v) :: ("reference", reference) :: ("certPath", certPath) :: rest)
      with ([("type", get "type" v); ("reference", reference); ("certPath", certPath)] ++ rest).
    rewrite (own_fields_stable _ _ _ host_fields_stable ltac:(apply (bool_decide_unpack _); vm_compute; exact I) Hrest); [done|].
    intros k. cbn. set_solver.
Qed.

Lemma mapM_stable (f : jsval → res jsval) l ys : stable f → mapM f l = Ok ys → mapM f ys = Ok ys.
Proof.
  intros Hf. revert ys. induction l as [|x l IH]; intros ys.
  - intros ->%mapM_nil_ok. done.
  - intros (y & ys' & Hy & Hys & ->)%mapM_cons_ok. apply mapM_cons_ok. exists y, ys'. eauto.
Qed.
Lemma mapM_requireString_stable maxLength pattern l ss :
  mapM (requireString maxLength pattern) l = Ok ss → mapM (requireString maxLength pattern) (map Str ss) = Ok ss.
Proof.
  revert ss. induction l as [|x l IH]; intros ss.
  - intros ->%mapM_nil_ok. done.
  - intros (y & ys' & Hy & Hys & ->)%mapM_cons_ok. apply mapM_cons_ok. exists y, ys'.
    eauto using requireString_stable.
Qed.
#[local] Arguments is_boolean : simpl never.
#[local] Arguments truthy : simpl never.
#[local] Arguments ACME_KINDS : simpl never.
Lemma validate_sans_stable : stable validate_sans.
Proof.
  intros v w. unfold validate_sans at 1.
  intros ([] & _ & ([] & Hmode%ensure_ok & ([] & Hlen%ensure_ok & (sans & Hsans & H)%bind_ok)%bind_ok)%bind_ok)%bind_ok.
  apply bind_ok in H as ([] & Hb%ensure_ok & ([] & Hw%ensure_ok & [= <-])%bind_ok).
  unfold validate_sans. read_fields. rewrite Hmode. read_fields.
  rewrite length_map, (mapM_length_ok _ _ _ Hsans), Hlen. read_fields.
  rewrite (mapM_requireString_stable _ _ _ _ Hsans). read_fields. rewrite Hb. read_fields. by rewrite Hw.
Qed.
Lemma validate_acme_stable : stable validate_acme.
Proof.
  intros v w. unfold validate_acme at 1.
  intros ([] & _ & ([] & Hkind%ensure_ok & (commandRef & Hc%requiredString_stable & [= <-])%bind_ok)%bind_ok)%bind_ok.
  unfold validate_acme. read_fields. rewrite Hkind. read_fields. by rewrite Hc.
Qed.
Lemma validate_dns_stable : stable validate_dns.
Proof.
  intros v w. unfold validate_dns at 1.
  intros ([] & _ & (provider & Hp%requiredString_stable & (zone & Hz%requiredString_stable & [= <-])%bind_ok)%bind_ok)%bind_ok.
  unfold validate_dns. read_fields. rewrite Hp. read_fields. by rewrite Hz.
Qed.
Lemma validate_verification_stable : stable validate_verification.
Proof.
  intros v w. unfold validate_verification at 1.
  intros ([] & _ & ([] & Hb%ensure_ok & (host & Hh%optionalString_stable & H)%bind_ok)%bind_ok)%bind_ok.
  apply bind_ok in H as ([] & Hp%ensure_ok & ([] & Hm%ensure_ok & [= <-])%bind_ok).
  unfold validate_verification. read_fields. rewrite Hb. read_fields. rewrite Hh. read_fields.
  destruct (nullish (get "port" v)) eqn:E; cbn.
  - by rewrite Hm.
  - cbn in Hp. rewrite E, Hp. cbn. by rewrite Hm.
Qed.
Lemma validateTarget_object v w : validateTarget v = Ok w → truthy w = true ∧ ∃ t, get "type" w = Str t.
Proof.
  unfold validateTarget. intros ([] & _ & ([] & Ht%ensure_ok & (reference & _ & H)%bind_ok)%bind_ok)%bind_ok.
  assert (∃ t, get "type" v = Str t) as [t Et] by (destruct (get "type" v); try discriminate; eauto).
  destruct (is_str _ _); simplify_result; (split; [done|]); exists t; by read_fields.
Qed.
Lemma validateTarget_type v w : validateTarget v = Ok w → get "type" w = get "type" v.
Proof.
  unfold validateTarget. intros ([] & _ & ([] & _ & (reference & _ & H)%bind_ok)%bind_ok)%bind_ok.
  destruct (is_str _ _); simplify_result; by read_fields.
Qed.

(** One goal for each name of a concrete list. *)
Ltac each_name H := repeat (apply elem_of_cons in H as [->|H]); [..|by apply not_elem_of_nil in H].

Section profiles.
Context `{sv : Services}.
(** Trimming a text that [new URL] reads leaves its protocol. *)
Definition urls_trim : Prop :=
  ∀ s, is_Some (parse_url s) → u_protocol <$> parse_url (trim s) = u_protocol <$> parse_url s.
Lemma endpoint_trims s : urls_trim → isValidHttpUrl (Str s) = true → isValidHttpUrl (Str (trim s)) = true.
Proof.
  intros Hu. cbn. unfold valid_caEndpoint. intros [Hl Hp]%andb_prop.
  apply andb_true_intro. split.
  - apply Z.leb_le. apply Z.leb_le in Hl. pose proof (slen_trim s). lia.
  - destruct (parse_url s) as [u|] eqn:E; [|done]. rewrite (Hu s) by (rewrite E; by eexists). by rewrite E.
Qed.
#[local] Arguments isValidHttpUrl : simpl never.
Lemma validate_ca_stable : urls_trim → stable validate_ca.
Proof.
  intros Hu v w. unfold validate_ca at 1.
  intros ([] & _ & ([] & He%ensure_ok & (acc & Ha%optionalString_stable & (eab & Hb%optionalString_stable & [= <-])%bind_ok)%bind_ok)%bind_ok)%bind_ok.
  destruct (get "endpoint" v) as [| | | |s| |] eqn:E; try discriminate He.
  unfold validate_ca. read_fields. unfold trimmed. rewrite (endpoint_trims _ Hu He). read_fields.
  rewrite Ha. read_fields. rewrite Hb. by rewrite trim_trim.
Qed.

(** ** The profile by its parts *)

Record parts := mkParts {
  profileId : jsval; profileName : jsval; sanPolicy : jsval; keyAlgorithm : jsval; keySize : jsval; rotateOnRenew : jsval;
  preferredChain : jsval; ca : jsval; acme : jsval; dns : jsval; targets : list jsval; target : jsval;
  verification : jsval; publication : option (list (string * jsval)) }.
Definition profile_of (q : parts) : jsval :=
  Obj ([("schemaVersion", Num (Fin RENEWAL_PROFILE_SCHEMA_VERSION)); ("profileId", profileId q); ("profileName", profileName q);
        ("sanPolicy", sanPolicy q); ("keyAlgorithm", keyAlgorithm q); ("keySize", keySize q);
        ("keyRotationPolicy", Obj [("rotateOnRenew", rotateOnRenew q)]); ("preferredChain", preferredChain q);
        ("ca", ca q); ("acme", acme q); ("dns", dns q); ("deploymentTargets", Arr (targets q)); ("target", target q);
        ("verification", verification q)]
       ++ match publication q with Some destination => [("publicationDestination", Obj destination)] | None => [] end).
Definition publishes (q : parts) (destination : list (string * jsval)) : Prop :=
  validateDistributionContract "publication" (publication_of (Obj destination) placeholder_version) = Ok tt ∧
  targets q = [] ∧ is_str "domain" (get "type" (target q)) = true ∧ truthy (get "certPath" (target q)) = false ∧
  truthy (get "requireMatch" (verification q)) = false.
Record normal (q : parts) : Prop := {
  n_profileId : optionalString 128 any_text (profileId q) = Ok (profileId q);
  n_profileName : optionalString 256 any_text (profileName q) = Ok (profileName q);
  n_sans : validate_sans (sanPolicy q) = Ok (sanPolicy q);
  n_algorithm : text_in KEY_ALGORITHMS (keyAlgorithm q) = true;
  n_size : validateKeySize (keyAlgorithm q) (keySize q) = Ok tt;
  n_rotate : is_boolean (rotateOnRenew q) = true;
  n_chain : optionalString 256 any_text (preferredChain q) = Ok (preferredChain q);
  n_ca : urls_trim → validate_ca (ca q) = Ok (ca q);
  n_acme : validate_acme (acme q) = Ok (acme q);
  n_dns : validate_dns (dns q) = Ok (dns q);
  n_count : (bool_decide (is_Some (publication q)) || (1 <=? Z.of_nat (length (targets q))))
            && (Z.of_nat (length (targets q)) <=? 32) = true;
  n_targets : mapM validateTarget (targets q) = Ok (targets q);
  n_target : validateTarget (target q) = Ok (target q);
  n_verification : validate_verification (verification q) = Ok (verification q);
  n_publication : ∀ destination, publication q = Some destination → publishes q destination }.

Lemma spread_of_obj fs : spread_of (Obj fs) = fs.
Proof. done. Qed.
Lemma verification_requires v w : validate_verification v = Ok w → get "requireMatch" w = get "requireMatch" v.
Proof.
  unfold validate_verification. intros ([] & _ & ([] & _ & (host & _ & H)%bind_ok)%bind_ok)%bind_ok.
  apply bind_ok in H as ([] & _ & ([] & _ & [= <-])%bind_ok). by read_fields.
Qed.
Lemma validated_normal raw p : validateRenewalProfile raw = Ok p → ∃ q, p = profile_of q ∧ normal q.
Proof.
  intros H. unfold validateRenewalProfile in H. apply bind_ok in H as ([] & _ & ([] & _ & H)%bind_ok).
  apply bind_ok in H as (sp & Hsans%validate_sans_stable & ([] & Halg%ensure_ok & ([] & Hsize & H)%bind_ok)%bind_ok).
  apply bind_ok in H as ([] & [_ Hrot]%ensure_ok%andb_prop & ([] & _ & (chain & Hchain%optionalString_stable & H)%bind_ok)%bind_ok).
  apply bind_ok in H as (vca & Hca & (vacme & Hacme%validate_acme_stable & H)%bind_ok).
  apply bind_ok in H as (vdns & Hdns%validate_dns_stable & ([] & Hcount%ensure_ok & (ts & Hts & H)%bind_ok)%bind_ok).
  apply bind_ok in H as (t & Ht & ([] & Hpub & (ver & Hver & H)%bind_ok)%bind_ok).
  apply bind_ok in H as (pid & Hpid & (pname & Hpname%optionalString_stable & [= <-])%bind_ok).
  set (pub := if truthy (get "publicationDestination" raw) then Some (spread_of (get "publicationDestination" raw)) else None).
  exists (mkParts pid pname sp (get "keyAlgorithm" raw) (get "keySize" raw) (get "rotateOnRenew" (get "keyRotationPolicy" raw))
            chain vca vacme vdns ts t ver pub).
  split; [by unfold profile_of, pub; cbn [publication]; destruct (truthy _)|].
  pose proof (mapM_length_ok _ _ _ Hts) as Hlen. constructor; cbn; try assumption.
  - destruct (nullish (get "profileId" raw)); simplify_result; [done|].
    unfold optionalString. pose proof (requiredString_stable _ _ _ _ Hpid) as Hs.
    revert Hpid. unfold requiredString at 1. destruct (requireString _ _ _); [intros [= <-]|done]. exact Hs.
  - intros Hu. by eapply validate_ca_stable.
  - apply andb_prop in Hcount as [[_ Hc]%andb_prop Hl]. rewrite Hlen, Hl, andb_true_r. unfold pub.
    by destruct (truthy (get "publicationDestination" raw)).
  - by eapply mapM_stable, Hts; apply validateTarget_stable.
  - by eapply validateTarget_stable.
  - by eapply validate_verification_stable.
  - intros d Hd. unfold pub in Hd. unfold validate_publication in Hpub.
    destruct (truthy (get "publicationDestination" raw)); [|done]. injection Hd as <-. cbn in Hpub.
    apply bind_ok in Hpub as ([] & Hcon & Hens%ensure_ok). split_bool.
    unfold publishes. cbn [targets target verification]. rewrite (verification_requires _ _ Hver).
    split; [|by destruct ts]. unfold publication_of in *. rewrite spread_of_obj.
    by destruct (validateDistributionContract _ _) as [[]|].
Qed.

Lemma get_publication q :
  get "publicationDestination" (profile_of q) = match publication q with Some d => Obj d | None => Undef end.
Proof. unfold profile_of. cbn [app]. read_fields. by destruct (publication q); [apply get_here|]. Qed.
Lemma profile_fields q : let p := profile_of q in
  (get "schemaVersion" p = Num (Fin RENEWAL_PROFILE_SCHEMA_VERSION) ∧ get "profileId" p = profileId q ∧
   get "profileName" p = profileName q ∧ get "sanPolicy" p = sanPolicy q ∧ get "keyAlgorithm" p = keyAlgorithm q ∧
   get "keySize" p = keySize q ∧ get "keyRotationPolicy" p = Obj [("rotateOnRenew", rotateOnRenew q)]) ∧
  get "preferredChain" p = preferredChain q ∧ get "ca" p = ca q ∧ get "acme" p = acme q ∧ get "dns" p = dns q ∧
  get "deploymentTargets" p = Arr (targets q) ∧ get "target" p = target q ∧ get "verification" p = verification q.
Proof. cbv zeta. unfold profile_of. cbn [app]. repeat split; by read_fields. Qed.
Lemma normal_publishes q d : normal q → publication q = Some d →
  validate_publication (profile_of q) (target q) (targets q) = Ok tt.
Proof.
  intros Hn Hd. destruct (n_publication _ Hn _ Hd) as (Hc & Ht & Hdom & Hcert & Hreq).
  destruct (profile_fields q) as (_ & _ & _ & _ & _ & _ & _ & Hver).
  unfold validate_publication. rewrite get_publication, Hd, Ht, Hver. cbn. by rewrite Hc, Hdom, Hcert, Hreq.
Qed.
Lemma nullish_optional maxLength pattern v : optionalString maxLength pattern v = Ok v →
  v = Null ∨ ∃ s, v = Str s ∧ requireString maxLength pattern v = Ok s.
Proof.
  unfold optionalString. destruct (nullish v); [by intros [= <-]; left|]. unfold requiredString.
  destruct (requireString _ _ v) eqn:E; [|done]. intros [= <-]. by right; eexists.
Qed.
Definition is_windows_iis (profile : jsval) : bool := is_str "windows-iis" (get "type" (get "target" profile)).
(** The key is kept although the target is an IIS site. *)
Definition keeps_windows_key (profile : jsval) : bool :=
  is_windows_iis profile && negb (truthy (get "rotateOnRenew" (get "keyRotationPolicy" profile))).
Lemma profile_of_validates q : urls_trim → normal q →
  validateRenewalProfile (profile_of q) = if keeps_windows_key (profile_of q) then Err PROFILE_INVALID else Ok (profile_of q).
Proof.
  intros Hu Hn. pose proof (get_publication q) as Hg.
  destruct (profile_fields q) as ((Hv & Hid & Hname & Hsan & Halg & Hsize & Hrot) & Hchain & Hca & Hacme & Hdns & Hts & Ht & Hver).
  assert (validate_publication (profile_of q) (target q) (targets q) = Ok tt) as Hpub.
  { destruct (publication q) as [d|] eqn:E; [by eapply normal_publishes|]. unfold validate_publication. by rewrite Hg. }
  destruct (validateTarget_object _ _ (n_target _ Hn)) as [Htt _].
  unfold validateRenewalProfile. rewrite Hv, Hsan, Halg, Hsize, Hrot, Hchain, Hca, Hacme, Hdns, Hts, Ht, Hver, Hid, Hname, Hg.
  rewrite (n_sans _ Hn), (n_algorithm _ Hn), (n_size _ Hn), (n_chain _ Hn), (n_ca _ Hn Hu), (n_acme _ Hn), (n_dns _ Hn).
  unfold js_or. rewrite Htt. cbn. rewrite (n_targets _ Hn). cbn. rewrite (n_target _ Hn). cbn.
  rewrite Hpub, (n_verification _ Hn), (n_profileName _ Hn).
  unfold keeps_windows_key, is_windows_iis. rewrite Ht, Hrot, get_here, (n_rotate _ Hn).
  destruct (is_str _ _ && _); cbn; [done|].
  assert (truthy match publication q with Some d => Obj d | None => Undef end = bool_decide (is_Some (publication q))) as ->
    by (by destruct (publication q)).
  rewrite (n_count _ Hn). cbn.
  destruct (nullish_optional _ _ _ (n_profileId _ Hn)) as [E|(s & E & Es)]; rewrite E in *; cbn.
  - unfold profile_of. rewrite E. by destruct (publication q).
  - unfold requiredString. rewrite Es. cbn. unfold profile_of. rewrite E. by destruct (publication q).
Qed.

(** ** What the parts are *)

Lemma requiredString_ok maxLength pattern v w : requiredString maxLength pattern v = Ok w →
  ∃ s, w = Str s ∧ within 1 maxLength s = true ∧ pattern s = true ∧ trim s = s.
Proof.
  unfold requiredString. destruct (requireString _ _ v) as [s|] eqn:E; [|done]. intros [= <-].
  apply requireString_ok in E. by exists s.
Qed.
Lemma optionalString_ok maxLength pattern v w : optionalString maxLength pattern v = Ok w →
  w = Null ∨ ∃ s, w = Str s ∧ within 1 maxLength s = true ∧ pattern s = true ∧ trim s = s.
Proof. unfold optionalString. destruct (nullish v); [intros [= <-]; by left|]. intros H%requiredString_ok. by right. Qed.
Lemma own_fields_elem specs value l k y : Forall stable_field specs → own_fields specs value = Ok l → (k, y) ∈ l →
  ∃ parse, (k, parse) ∈ specs ∧ parse y = Ok (Some y).
Proof.
  intros Hs. revert l. induction Hs as [|[name parse] specs Hp Hs IH]; intros l H Hin.
  - injection H as <-. by apply not_elem_of_nil in Hin.
  - cbn [own_fields] in H. apply bind_ok in H as (x & Hx & (rest & Hrest & [= <-])%bind_ok).
    apply elem_of_app in Hin as [Hin|Hin].
    + destruct x as [y'|]; [|by apply not_elem_of_nil in Hin]. apply list_elem_of_singleton in Hin as [= -> ->].
      exists parse. split; [apply elem_of_cons; by left|]. destruct (hasOwn name value); [by apply (Hp _ _ Hx)|done].
    + destruct (IH _ Hrest Hin) as (parse' & ? & ?). exists parse'. split; [|done]. apply elem_of_cons. by right.
Qed.
Lemma get_In k fs : truthy (get k (Obj fs)) = true → (k, get k (Obj fs)) ∈ fs.
Proof.
  unfold get. destruct (assoc_get k fs) eqn:E; [|done]. intros _. by apply assoc_get_In.
Qed.
(** A property of a validated target that is set was read by its validator. *)
Definition path_names : list string := ["certPath"; "keyPath"; "chainPath"; "backupDir"].
Definition mode_names : list string := ["certMode"; "keyMode"; "chainMode"].
Lemma target_field name t : validateTarget t = Ok t → truthy (get name t) = true →
  name ∈ ["certPath"; "reloadService"; "reloadCommandRefs"; "keyPath"; "chainPath"; "certMode"; "keyMode"; "chainMode"; "backupDir"] →
  name = "certPath" ∧ optionalAbsolutePath (get name t) = Ok (get name t) ∨
  ∃ parse, (name, parse) ∈ HOST_FIELDS ∧ parse (get name t) = Ok (Some (get name t)).
Proof.
  intros H Htr Hname. unfold validateTarget in H.
  apply bind_ok in H as ([] & _ & ([] & _ & (reference & _ & H)%bind_ok)%bind_ok).
  destruct (is_str "windows-iis" (get "type" t)).
  - apply bind_ok in H as (fs & Hw & Ho). unfold validateWindowsBinding in Hw.
    apply bind_ok in Hw as (store & _ & ([] & _ & (site & _ & Hw)%bind_ok)%bind_ok).
    apply bind_ok in Hw as ([] & _ & (sni & _ & (thumb & _ & [= <-])%bind_ok)%bind_ok).
    exfalso. injection Ho as Ho. rewrite <- Ho in Htr.
    repeat (apply elem_of_cons in Hname as [->|Hname]; [revert Htr; by read_fields|]). by apply not_elem_of_nil in Hname.
  - apply bind_ok in H as (certPath & Hc%optionalString_stable & (rest & Hrest & Ho)%bind_ok). injection Ho as Ho.
    destruct (decide (name = "certPath")) as [->|Hne].
    + left. split; [done|]. rewrite <- Ho. by read_fields.
    + right. rewrite <- Ho in Htr |- *.
      assert (get name (Obj (("type", get "type" t) :: ("reference", reference) :: ("certPath", certPath) :: rest)) = get name (Obj rest)) as E.
      { repeat (apply elem_of_cons in Hname as [->|Hname]; [try done; by read_fields|]). by apply not_elem_of_nil in Hname. }
      rewrite Ho in E. rewrite <- Ho in E at 1. rewrite E in Htr |- *.
      by apply (own_fields_elem HOST_FIELDS t rest name), get_In; [apply host_fields_stable|..].
Qed.

(** The parser of a property by its name. *)
Ltac host_parser H :=
  unfold HOST_FIELDS in H; cbv zeta in H;
  repeat (let E := fresh in apply elem_of_cons in H as [E|H]; [first [discriminate E|injection E as ->]|]);
  [..|by apply not_elem_of_nil in H].
Lemma taken_ok {parse : jsval → res jsval} {y} : Some <$> parse y = Ok (Some y) → parse y = Ok y.
Proof. destruct (parse y) as [w|]; [|done]. by intros [= ->]. Qed.
Lemma truthy_optional maxLength pattern v : optionalString maxLength pattern v = Ok v → truthy v = true →
  ∃ s, v = Str s ∧ within 1 maxLength s = true ∧ pattern s = true ∧ trim s = s.
Proof. intros [->|H]%optionalString_ok Ht; [done|exact H]. Qed.
Lemma target_path name t : validateTarget t = Ok t → name ∈ path_names → truthy (get name t) = true →
  ∃ s, get name t = Str s ∧ within 1 512 s = true ∧ ABSOLUTE_HOST_PATH_PATTERN s = true ∧ trim s = s.
Proof.
  intros H Hname Htr. apply (truthy_optional 512 ABSOLUTE_HOST_PATH_PATTERN); [|done].
  destruct (target_field name t H Htr) as [[_ Ho]|(parse & Hin & Hp)]; [|done|].
  { revert Hname. unfold path_names. set_solver. }
  unfold path_names in Hname. each_name Hname; host_parser Hin; apply taken_ok, Hp.
Qed.
Lemma target_mode name t : validateTarget t = Ok t → name ∈ mode_names → truthy (get name t) = true →
  ∃ n, get name t = Num (Fin n) ∧ 0 <= n <= 511 ∧ Z.land n 2 = 0.
Proof.
  intros H Hname Htr. assert (parseFileMode (get name t) = Ok (get name t)) as Hp.
  { destruct (target_field name t H Htr) as [[-> _]|(parse & Hin & Hp)].
    - revert Hname. unfold mode_names. set_solver.
    - revert Hname. unfold mode_names. set_solver.
    - unfold mode_names in Hname. each_name Hname; host_parser Hin; apply taken_ok, Hp. }
  unfold parseFileMode in Hp. destruct (get name t) eqn:E; try done; cbn in Hp.
  - destruct n as [n| |]; try done. cbn in Hp.
    apply bind_ok in Hp as ([] & Hr%ensure_ok & ([] & Hw%ensure_ok & _)%bind_ok). exists n. split_bool. repeat split; [lia..|done].
  - apply bind_ok in Hp as (n & _ & ([] & _ & ([] & _ & Ho)%bind_ok)%bind_ok). done.
Qed.
Lemma target_reload t : validateTarget t = Ok t → truthy (get "reloadService" t) = true →
  ∃ s, get "reloadService" t = Str s ∧ RELOAD_SERVICE_PATTERN s = true.
Proof.
  intros H Htr. destruct (truthy_optional 128 RELOAD_SERVICE_PATTERN (get "reloadService" t)) as (s & ? & _ & ? & _); [|done|by exists s].
  destruct (target_field "reloadService" t H Htr) as [[? _]|(parse & Hin & Hp)]; [set_solver|done|].
  host_parser Hin. apply taken_ok, Hp.
Qed.

Lemma sans_facts v w : validate_sans v = Ok w → ∃ sans, get "sans" w = Arr (map Str sans) ∧
  1 <= Z.of_nat (length sans) <= 100 ∧ Forall (λ s, within 1 255 s = true ∧ trim s = s) sans ∧
  (get "allowWildcards" w = Bool false → some_wildcard sans = false) ∧ is_boolean (get "allowWildcards" w) = true.
Proof.
  unfold validate_sans.
  intros ([] & _ & ([] & _ & ([] & Hlen%ensure_ok & (sans & Hsans & H)%bind_ok)%bind_ok)%bind_ok)%bind_ok.
  apply bind_ok in H as ([] & Hb%ensure_ok & ([] & Hw%ensure_ok & [= <-])%bind_ok).
  exists sans. read_fields. rewrite (mapM_length_ok _ _ _ Hsans). split_bool. repeat split; try done; try lia.
  - clear - Hsans. revert sans Hsans. induction (as_array (get "sans" v)) as [|x l IH]; intros sans H.
    + apply mapM_nil_ok in H as ->. constructor.
    + apply mapM_cons_ok in H as (y & ys & (? & _ & ?)%requireString_ok & Hys & ->). constructor; [done|by apply IH].
  - intros E. rewrite E in Hw. cbn in Hw. by apply negb_true_iff in Hw.
Qed.
Lemma acme_facts w : validate_acme w = Ok w → text_in ACME_KINDS (get "kind" w) = true ∧
  ∃ s, get "commandRef" w = Str s ∧ COMMAND_REF_PATTERN s = true.
Proof.
  unfold validate_acme at 1.
  intros ([] & _ & ([] & Hkind%ensure_ok & (c & (s & -> & _ & Hp & _)%requiredString_ok & Ho)%bind_ok)%bind_ok)%bind_ok.
  split; [done|]. injection Ho as Ho. exists s. rewrite <- Ho. by read_fields.
Qed.
Lemma dns_facts w : validate_dns w = Ok w →
  (∃ s, get "provider" w = Str s ∧ DNS_PROVIDER_PATTERN s = true) ∧ ∃ s, get "zone" w = Str s ∧ within 1 255 s = true.
Proof.
  unfold validate_dns at 1.
  intros ([] & _ & (p & (s & -> & _ & Hp & _)%requiredString_ok & (z & (t & -> & Hz & _)%requiredString_ok & Ho)%bind_ok)%bind_ok)%bind_ok.
  injection Ho as Ho. split; [exists s|exists t]; rewrite <- Ho; by read_fields.
Qed.
Lemma ca_endpoint w : validate_ca w = Ok w → isValidHttpUrl (get "endpoint" w) = true.
Proof. unfold validate_ca at 1. by intros ([] & _ & ([] & ?%ensure_ok & _)%bind_ok)%bind_ok. Qed.
Lemma verification_facts w : validate_verification w = Ok w →
  (truthy (get "host" w) = true → ∃ s, get "host" w = Str s ∧ within 1 255 s = true) ∧
  (nullish (get "port" w) = true ∨ int_within 1 65535 (get "port" w) = true).
Proof.
  unfold validate_verification at 1. intros ([] & _ & ([] & _ & (host & Hh & H)%bind_ok)%bind_ok)%bind_ok.
  apply bind_ok in H as ([] & Hp%ensure_ok & ([] & _ & Ho)%bind_ok). split; [|by apply orb_prop].
  injection Ho as Ho. rewrite <- Ho. read_fields. intros Ht.
  apply optionalString_ok in Hh as [->|(s & -> & ? & _)]; [done|by exists s].
Qed.

(** C35: a validated profile is its own validation: job creation, which
    validates the snapshot it is given, keeps it to the letter.  The exception
    is the profile of an IIS site that names no target of its own and keeps
    its key: it is accepted once, not twice. *)
Theorem validated_profile_stable raw p : urls_trim → validateRenewalProfile raw = Ok p →
  validateRenewalProfile p = if keeps_windows_key p then Err PROFILE_INVALID else Ok p.
Proof. intros Hu (q & -> & Hn)%validated_normal. by apply profile_of_validates. Qed.

(** The paths of a target are absolute, its file modes are modes and let not
    everybody write. *)
Definition safe_target (t : jsval) : Prop :=
  (∀ name, name ∈ path_names → truthy (get name t) = true →
     ∃ s, get name t = Str s ∧ within 1 512 s = true ∧ ABSOLUTE_HOST_PATH_PATTERN s = true ∧ trim s = s) ∧
  (∀ name, name ∈ mode_names → truthy (get name t) = true →
     ∃ n, get name t = Num (Fin n) ∧ 0 <= n <= 511 ∧ Z.land n 2 = 0).
Definition safe_names (policy : jsval) : Prop :=
  ∃ sans, get "sans" policy = Arr (map Str sans) ∧ 1 <= Z.of_nat (length sans) <= 100 ∧
    Forall (λ s, within 1 255 s = true ∧ trim s = s) sans ∧
    (get "allowWildcards" policy = Bool false → some_wildcard sans = false) ∧
    is_boolean (get "allowWildcards" policy) = true.
Definition safe_key (algorithm size : jsval) : Prop :=
  ∃ n, size = Num (Fin n) ∧ (algorithm = Str "rsa" ∧ n ∈ RSA_KEY_SIZES ∨ algorithm = Str "ecdsa" ∧ n ∈ ECDSA_KEY_SIZES).
(** A profile that publishes its material deploys nothing. *)
Definition safe_deployment (p : jsval) : Prop :=
  ∃ ts, get "deploymentTargets" p = Arr ts ∧ Forall safe_target (get "target" p :: ts) ∧
    if truthy (get "publicationDestination" p)
    then ts = [] ∧ get "type" (get "target" p) = Str "domain" ∧ truthy (get "certPath" (get "target" p)) = false
    else 1 <= Z.of_nat (length ts) <= 32.
Lemma normal_target q t : normal q → t = target q ∨ t ∈ targets q → validateTarget t = Ok t.
Proof.
  intros Hn [->|Hin]; [apply (n_target _ Hn)|]. pose proof (n_targets _ Hn) as Hts. revert Hts Hin.
  generalize (targets q) as l. induction l as [|x l IH]; [by intros _ ?%not_elem_of_nil|].
  intros (y & ys & Hy & Hys & [= -> ->])%mapM_cons_ok [->|Hin]%elem_of_cons; [done|by apply IH].
Qed.
Lemma normal_key q : normal q → safe_key (keyAlgorithm q) (keySize q).
Proof.
  intros Hn. pose proof (n_algorithm _ Hn) as Ha. pose proof (n_size _ Hn) as Hs.
  destruct (keyAlgorithm q) as [| | | |a| |]; try discriminate Ha.
  unfold validateKeySize in Hs. apply ensure_ok in Hs. destruct (keySize q) as [| | |[n| |]| | |]; try discriminate Hs.
  apply bool_decide_eq_true in Hs. apply bool_decide_eq_true in Ha. unfold KEY_ALGORITHMS in Ha.
  exists n. split; [done|]. each_name Ha; [left|right]; (split; [done|exact Hs]).
Qed.
Lemma normal_deployment q : normal q → safe_deployment (profile_of q).
Proof.
  intros Hn. destruct (profile_fields q) as (_ & _ & _ & _ & _ & Hts & Ht & _).
  exists (targets q). rewrite Ht, get_publication. split; [done|]. split.
  - apply Forall_forall. intros t Hin%elem_of_cons. pose proof (normal_target q t Hn Hin) as Hok.
    split; intros name Hname Htr; [by apply target_path|by apply target_mode].
  - pose proof (n_count _ Hn) as Hc. destruct (publication q) as [d|] eqn:E; cbn.
    + destruct (n_publication _ Hn _ E) as (_ & ? & ?%is_str_spec & ? & _). done.
    + cbn in Hc. split_bool. unfold truthy. lia.
Qed.
(** C34: what a validated profile is: one to a hundred trimmed names, without a
    wildcard unless they are allowed, a key of a size its algorithm has, one to
    thirty-two targets with absolute paths and file modes that let not
    everybody write, or none when the profile publishes its material. *)
Theorem validated_profile_safe raw p : validateRenewalProfile raw = Ok p →
  safe_names (get "sanPolicy" p) ∧ safe_key (get "keyAlgorithm" p) (get "keySize" p) ∧ safe_deployment p.
Proof.
  intros (q & -> & Hn)%validated_normal.
  destruct (profile_fields q) as ((_ & _ & _ & -> & -> & -> & _) & _).
  split_and!; [exact (sans_facts _ _ (n_sans _ Hn))|by apply normal_key|by apply normal_deployment].
Qed.
End profiles.

(** * A concrete profile *)

Definition hex64 : string := "0123456789abcdef0123456789abcdef0123456789abcdef0123456789abcdef".
Definition example_services : Services := {|
  containsPrivateKeyMaterial := λ _, false; assertNoUnredacted := λ _, true;
  looksPrivate := λ _, false; looksGeneric := λ _, false;
  parse_url := demo_parse_url; sha256 := λ _, hex64; jsonb_text := JSON_stringify;
  initial_provisioning := λ _ _ _ _ _ _, false;
  validateDistributionContract := λ _ v, ensure (a_string is_uuid (get "materialVersionId" v)) CERTOPS_JOB_EXECUTION_FIELD_INVALID;
  JobRequest.validateRenewalProfile := λ _, Ok tt;
  resolveDistributionJobDefaults := λ _ _ _ _ _ a, Ok a;
  allocateMaterialVersion := λ _ _, Ok tt |}.
Lemma example_urls : @urls_trim example_services.
Proof. intros s _. cbn. unfold demo_parse_url. by rewrite trim_trim. Qed.
Definition example_source (rotate verify : bool) (targets target : list jsval) (more : list (string * jsval)) : jsval :=
  Obj ([("schemaVersion", Num (Fin 1)); ("sanPolicy", Obj [("mode", Str "inherit"); ("sans", Arr [Str " example.org "]); ("allowWildcards", Bool false)]);
        ("keyAlgorithm", Str "ecdsa"); ("keySize", Num (Fin 256)); ("keyRotationPolicy", Obj [("rotateOnRenew", Bool rotate)]);
        ("ca", Obj [("endpoint", Str " https://acme.example/directory")]);
        ("acme", Obj [("kind", Str "certbot"); ("commandRef", Str "certbot-dns")]);
        ("dns", Obj [("provider", Str "cloudflare"); ("zone", Str "example.org")]);
        ("deploymentTargets", Arr targets); ("verification", Obj [("requireMatch", Bool verify); ("host", Str "example.org")])]
       ++ map (λ t, ("target", t)) target ++ more).
Definition nginx_target : jsval :=
  Obj [("type", Str "endpoint"); ("reference", Str "web-1 "); ("certPath", Str "/etc/ssl/site.pem"); ("keyPath", Str "/etc/ssl/site.key");
       ("keyMode", Str "0640"); ("reloadService", Str "nginx"); ("reloadCommandRefs", Null)].
Definition iis_target : jsval :=
  Obj [("type", Str "windows-iis"); ("reference", Str "iis-1"); ("store", Str "My");
       ("binding", Obj [("site", Str "Default Web Site"); ("port", Num (Fin 443))])].
Definition demo_profile : jsval := example_source false true [nginx_target] [] [].
Definition iis_profile : jsval := example_source false true [iis_target] [] [].
Definition iis_validated : jsval :=
  match @validateRenewalProfile example_services iis_profile with Ok p => p | Err _ => Undef end.
(** Validation accepts an IIS site whose key is to be kept when the profile
    names no target of its own, and refuses what it returned for it. *)
Lemma kept_windows_key_accepted_once :
  @validateRenewalProfile example_services iis_profile = Ok iis_validated ∧
  is_windows_iis iis_validated = true ∧
  @validateRenewalProfile example_services iis_validated = Err PROFILE_INVALID.
Proof. vm_compute. repeat split; reflexivity. Qed.
Lemma validated_profile_stable_witness :
  @validateRenewalProfile example_services
    (match @validateRenewalProfile example_services demo_profile with Ok p => p | Err _ => Undef end)
  = @validateRenewalProfile example_services demo_profile ∧
  @validateRenewalProfile example_services iis_validated = Err PROFILE_INVALID.
Proof.
  split.
  - refine (@validated_profile_stable example_services demo_profile _ example_urls _). vm_compute. reflexivity.
  - refine (@validated_profile_stable example_services iis_profile iis_validated example_urls _). vm_compute. reflexivity.
Defined.
Definition publishing_profile : jsval :=
  example_source true false [] [Obj [("type", Str "domain"); ("reference", Str "example.org")]]
    [("publicationDestination", Obj [("groupId", Str "g1")])].
Lemma validated_profile_safe_witness :
  let check source := match @validateRenewalProfile example_services source with
    | Ok p => safe_key (get "keyAlgorithm" p) (get "keySize" p) ∧ safe_deployment p | Err _ => False end in
  check demo_profile ∧ check publishing_profile.
Proof.
  cbv zeta. split.
  - destruct (@validateRenewalProfile example_services demo_profile) as [p|e] eqn:E; [|vm_compute in E; discriminate E].
    exact (proj2 (@validated_profile_safe example_services demo_profile p E)).
  - destruct (@validateRenewalProfile example_services publishing_profile) as [p|e] eqn:E; [|vm_compute in E; discriminate E].
    exact (proj2 (@validated_profile_safe example_services publishing_profile p E)).
Defined.
