(* ===== verification/RenewalPayload.v ===== *)
(** The payload of a renewal job, the rest of
    apps/api/services/certops/renewalProfile.js: the execution fields a
    profile becomes, the version of a publication's material, the overrides of
    a manual renewal.  What the scheduler builds passes the validators of job
    creation, and an override changes the reason only. *)
From S2P Require Import Prelude Dates Net Json Jobs JobFields RenewalCapacity JobRequest RenewalProfile.
Open Scope Z_scope.
Notation res := (result profile_error).

(** * The payload of a renewal job *)

(** [if (v) fields[name] = v]. *)
Definition if_truthy (name : string) (v : jsval) : list (string * jsval) := if truthy v then [(name, v)] else [].
(** The property of the target, or of the first target that has one. *)
Definition path_field (name : string) (profile : jsval) : list (string * jsval) :=
  let targets := as_array (get "deploymentTargets" profile) in
  if truthy (get name (get "target" profile)) then [(name, get name (get "target" profile))]
  else match List.find (λ t, truthy (get name t)) targets with Some t => [(name, get name t)] | None => [] end.
Definition reference_fields (profile : jsval) : list (string * jsval) :=
  if_truthy "preferredChain" (get "preferredChain" profile)
  ++ if_truthy "accountRef" (get "accountRef" (get "ca" profile)) ++ if_truthy "eabRef" (get "eabRef" (get "ca" profile)).
Definition common_fields (profile : jsval) (target : list (string * jsval)) : list (string * jsval) :=
  [("commandRef", get "commandRef" (get "acme" profile)); ("caEndpoint", get "endpoint" (get "ca" profile));
   ("acmeKind", get "kind" (get "acme" profile)); ("keyAlgorithm", get "keyAlgorithm" profile);
   ("keySize", get "keySize" profile); ("keyRotation", get "rotateOnRenew" (get "keyRotationPolicy" profile));
   ("dnsProvider", get "provider" (get "dns" profile)); ("dnsZone", get "zone" (get "dns" profile));
   ("target", Obj ([("type", get "type" (get "target" profile)); ("reference", get "reference" (get "target" profile))] ++ target));
   ("sans", get "sans" (get "sanPolicy" profile))].
Definition windows_target_fields (profile : jsval) : list (string * jsval) :=
  let target := get "target" profile in
  [("store", get "store" target); ("binding", get "binding" target); ("thumbprintSha1", get "thumbprintSha1" target)].
Definition reload_fields (profile : jsval) : list (string * jsval) :=
  match List.find (λ t, truthy (get "reloadService" t)) (as_array (get "deploymentTargets" profile)) with
  | Some t => ("reloadService", get "reloadService" t) :: if_truthy "reloadCommandRefs" (get "reloadCommandRefs" t)
  | None => []
  end.
Definition verify_fields (profile : jsval) : list (string * jsval) :=
  let verification := get "verification" profile in
  if truthy (get "host" verification) then
    ("verifyHost", get "host" verification)
    :: if nullish (get "port" verification) then [] else [("verifyPort", get "port" verification)]
  else [].
Definition executionFieldsFromRenewalProfile (profile : jsval) : list (string * jsval) :=
  if truthy (get "publicationDestination" profile) then
    common_fields profile [] ++ [("keyMode", Str "vault-managed")] ++ reference_fields profile
  else
    common_fields profile (if is_windows_iis profile then windows_target_fields profile else [])
    ++ [("deploymentTargets", get "deploymentTargets" profile)]
    ++ (if is_windows_iis profile then [("keyMode", Str "os-store-managed")]
        else path_field "certPath" profile ++ path_field "keyPath" profile ++ path_field "chainPath" profile)
    ++ reload_fields profile ++ verify_fields profile ++ reference_fields profile.

(** The material's version: sixteen bytes of the digest, as a version 5 UUID. *)
Definition hex_char (s : string) (n : nat) : Z := hex_val (default "0"%char (String.get n s)).
Definition hex_digit_text (n : Z) : string :=
  String (default "0"%char (String.get (Z.to_nat n) "0123456789abcdef")) EmptyString.
Definition materialVersionId `{Services} (c : certificate) : string :=
  let hex := sha256 ("renew-material:" +:+ c_workspace_id c +:+ ":" +:+ c_id c +:+ ":" +:+ toISOString (c_not_after c)) in
  let part (a b : nat) := stake b (sdrop a hex) in
  (part 0 8 +:+ "-" +:+ part 8 4 +:+ "-5" +:+ part 13 3 +:+ "-"
   +:+ hex_digit_text (8 + Z.land (hex_char hex 16) 3)%Z +:+ part 17 3 +:+ "-" +:+ part 20 12)%nat.
Definition expiry_reason : string := "expiry-threshold".
Definition buildRenewalJobPayload `{Services} (c : certificate) (reason : string) : res jsval :=
  renewalProfile ← resolveRenewalProfileSnapshot c;
  let destination := get "publicationDestination" renewalProfile in
  let publication := if truthy destination then [("publication", publication_of destination (materialVersionId c))] else [] in
  Ok (Obj (spread [("certificateId", Str (c_id c)); ("notAfter", Str (toISOString (c_not_after c))); ("reason", Str reason);
                   ("renewalProfile", renewalProfile)]
             (executionFieldsFromRenewalProfile renewalProfile ++ publication))).

(** ** Manual renewals *)

Definition RENEWAL_MANUAL_OVERRIDE_FIELDS : list string := ["reason"].
Definition MAX_RENEWAL_OVERRIDE_REASON_LENGTH : Z := 256.
(** The reason a user gives, if any; nothing else may be overridden. *)
Definition validateRenewalManualOverrides (overrides : jsval) : res (option string) :=
  if nullish overrides then Ok None else
  match overrides with
  | Obj fs =>
      _ ← ensure (forallb (λ k, bool_decide (k ∈ RENEWAL_MANUAL_OVERRIDE_FIELDS)) fs.*1) OVERRIDE_INVALID;
      if nullish (get "reason" overrides) then Ok None
      else match requireString MAX_RENEWAL_OVERRIDE_REASON_LENGTH any_text (get "reason" overrides) with
           | Ok reason => Ok (Some reason)
           | Err _ => Err OVERRIDE_INVALID
           end
  | _ => Err OVERRIDE_INVALID
  end.
Definition buildManualRenewalJobPayload `{Services} (c : certificate) (defaultReason : option string) (overrides : jsval) : res jsval :=
  reason ← validateRenewalManualOverrides overrides;
  buildRenewalJobPayload c (default (default expiry_reason defaultReason) reason).

Definition windowsIisTargetAuditFields (target : jsval) : jsval :=
  let text name v := (name, if isString v then v else Null) in
  let windows := is_str "windows-iis" (get "type" target) in
  let binding := if windows then get "binding" target else Null in
  Obj [("targetType", if isString (get "type" target) then get "type" target else Null);
       text "windowsStore" (if windows then get "store" target else Null);
       text "windowsBindingSite" (get "site" binding);
       ("windowsBindingPort", match get "port" binding with Num (Fin n) => if is_safe n then Num (Fin n) else Null | _ => Null end);
       text "windowsBindingSniHost" (get "sniHost" binding)].

#[local] Arguments get : simpl never.
#[local] Arguments text_in : simpl never.
#[local] Arguments is_str : simpl never.
#[local] Arguments int_within : simpl never.
#[local] Arguments requiredString : simpl never.
#[local] Arguments optionalString : simpl never.
#[local] Arguments own_fields : simpl never.
#[local] Arguments is_boolean : simpl never.
#[local] Arguments truthy : simpl never.
#[local] Arguments ACME_KINDS : simpl never.
#[local] Arguments isValidHttpUrl : simpl never.

Section payloads.
Context `{sv : Services}.
(** ** The execution fields *)

Notation VALIDATORS := (EXECUTION_FIELD_VALIDATORS (λ s, u_protocol <$> parse_url s)).
Definition field_valid (kv : string * jsval) : Prop := ∀ valid, (kv.1, valid) ∈ VALIDATORS → valid kv.2 = true.
(** The property has no validator, or this one. *)
Ltac validator H :=
  intros ? H; unfold EXECUTION_FIELD_VALIDATORS in H; cbn [fst snd] in *;
  repeat (let E := fresh in apply elem_of_cons in H as [E|H]; [first [discriminate E|injection E as ->]|]);
  [..|by apply not_elem_of_nil in H]; cbn beta.
Lemma field_valid_if name v : (truthy v = true → field_valid (name, v)) → Forall field_valid (if_truthy name v).
Proof. intros H. unfold if_truthy. destruct (truthy v); [|constructor]. constructor; [by apply H|constructor]. Qed.
Lemma common_fields_valid q ts : urls_trim → normal q → Forall field_valid (common_fields (profile_of q) ts).
Proof.
  intros Hu Hn. destruct (profile_fields q) as ((_ & _ & _ & Hsan & Halg & Hsize & Hrot) & _ & Hca & Hacme & Hdns & _ & Ht & _).
  unfold common_fields. rewrite Hsan, Halg, Hsize, Hrot, Hca, Hacme, Hdns, Ht.
  destruct (acme_facts _ (n_acme _ Hn)) as [Hkind (c & Ec & Hc)].
  destruct (dns_facts _ (n_dns _ Hn)) as [(p & Ep & Hp) (z & Ez & Hz)].
  pose proof (ca_endpoint _ (n_ca _ Hn Hu)) as He. pose proof (n_rotate _ Hn) as Hr.
  repeat (constructor; [validator Hin|]); [..|constructor].
  - by rewrite Ec. 
  - exact He.
  - exact Hkind.
  - rewrite get_here. exact Hr.
  - by rewrite Ep.
  - by rewrite Ez.
Qed.
Lemma path_field_member name q k v : (k, v) ∈ path_field name (profile_of q) →
  k = name ∧ truthy v = true ∧ ∃ t, (t = target q ∨ t ∈ targets q) ∧ v = get name t.
Proof.
  destruct (profile_fields q) as (_ & _ & _ & _ & _ & Hts & Ht & _). unfold path_field. rewrite Hts, Ht. cbn.
  destruct (truthy (get name (target q))) eqn:E.
  - intros [= -> ->]%list_elem_of_singleton. split_and!; [done..|]. exists (target q). split; [by left|done].
  - destruct (List.find _ (targets q)) as [t|] eqn:F; [|by intros ?%not_elem_of_nil].
    apply find_some in F as [Hin Htr]. intros [= -> ->]%list_elem_of_singleton. split_and!; [done..|].
    exists t. split; [|done]. right. by apply list_elem_of_In.
Qed.
Lemma path_field_valid name q : normal q → name ∈ ["certPath"; "keyPath"; "chainPath"] →
  Forall field_valid (path_field name (profile_of q)).
Proof.
  intros Hn Hname. apply Forall_forall. intros [k v] (-> & Htr & t & Hin & ->)%path_field_member.
  destruct (target_path name t (normal_target q t Hn Hin)) as (s & Es & Hw & _); [set_solver|done|].
  each_name Hname; validator Hv; try done. by rewrite Es.
Qed.
Lemma reload_fields_valid q : normal q → Forall field_valid (reload_fields (profile_of q)).
Proof.
  intros Hn. destruct (profile_fields q) as (_ & _ & _ & _ & _ & Hts & _ & _). unfold reload_fields. rewrite Hts. cbn.
  destruct (List.find _ (targets q)) as [t|] eqn:F; [|constructor]. apply find_some in F as [Hin%list_elem_of_In Htr].
  destruct (target_reload t (normal_target q t Hn (or_intror Hin)) Htr) as (s & Es & Hp).
  constructor; [validator Hv; by rewrite Es|]. apply field_valid_if. intros _. validator Hv.
Qed.
Lemma verify_fields_valid q : normal q → Forall field_valid (verify_fields (profile_of q)).
Proof.
  intros Hn. destruct (profile_fields q) as (_ & _ & _ & _ & _ & _ & _ & Hver). unfold verify_fields. rewrite Hver.
  destruct (verification_facts _ (n_verification _ Hn)) as [Hh Hp]. destruct (truthy _); [|constructor].
  destruct Hh as (s & Es & Hw); [done|]. constructor; [validator Hv; by rewrite Es|].
  destruct (nullish _); [constructor|]. destruct Hp as [?|Hp]; [done|]. constructor; [validator Hv; exact Hp|constructor].
Qed.
Lemma reference_fields_valid p : Forall field_valid (reference_fields p).
Proof. unfold reference_fields. repeat apply Forall_app_2; apply field_valid_if; intros _; validator Hv. Qed.
Lemma execution_fields_valid q : urls_trim → normal q → Forall field_valid (executionFieldsFromRenewalProfile (profile_of q)).
Proof.
  intros Hu Hn. unfold executionFieldsFromRenewalProfile. destruct (truthy _).
  - apply Forall_app_2; [by apply common_fields_valid|]. apply Forall_app_2; [|apply reference_fields_valid].
    constructor; [validator Hv; vm_compute; reflexivity|constructor].
  - apply Forall_app_2; [by apply common_fields_valid|]. apply Forall_app_2; [constructor; [validator Hv|constructor]|].
    apply Forall_app_2; [|apply Forall_app_2; [by apply reload_fields_valid|
      apply Forall_app_2; [by apply verify_fields_valid|apply reference_fields_valid]]].
    destruct (is_windows_iis _); [constructor; [validator Hv; vm_compute; reflexivity|constructor]|].
    repeat apply Forall_app_2; apply path_field_valid; set_solver.
Qed.

Lemma part_hex a b s : sforall is_hex s = true → (a + b <= String.length s)%nat →
  sforall is_hex (stake b (sdrop a s)) = true ∧ String.length (stake b (sdrop a s)) = b.
Proof.
  revert s b. induction a as [|a IH]; intros s b.
  - cbn. revert s. induction b as [|b IH]; intros s Hs Hl; [done|]. destruct s as [|c s]; cbn in *; [lia|].
    apply andb_prop in Hs as [Hc Hs]. destruct (IH s Hs) as [E1 E2]; [lia|]. by rewrite Hc, E1, E2.
  - intros Hs Hl. destruct s as [|c s]; cbn in *; [lia|]. apply IH; [by apply andb_prop in Hs as [_ ?]|lia].
Qed.
Lemma hex_no_dash s : sforall is_hex s = true → sforall (λ c, negb (bool_decide (c = "-"%char))) s = true.
Proof.
  apply sforall_impl. intros c Hc. apply negb_true_iff, bool_decide_eq_false. intros ->. by vm_compute in Hc.
Qed.
Lemma hex_class z s : sforall is_hex s = true → Z.of_nat (String.length s) = z → matches_class is_hex z z s = true.
Proof. intros Hs <-. unfold matches_class, slen. by rewrite Hs, Z.leb_refl. Qed.
Lemma variant_digit n : sforall is_hex (hex_digit_text (8 + Z.land n 3)) = true ∧ String.length (hex_digit_text (8 + Z.land n 3)) = 1%nat.
Proof.
  pose proof (Z.land_ones n 2 ltac:(lia)) as E. change (Z.ones 2) with 3 in E.
  pose proof (Z.mod_pos_bound n (2 ^ 2) ltac:(lia)). change (2 ^ 2) with 4 in *.
  rewrite E. assert (n mod 4 = 0 ∨ n mod 4 = 1 ∨ n mod 4 = 2 ∨ n mod 4 = 3) as [->|[->|[->| ->]]] by lia; by vm_compute.
Qed.
(** The documented behaviour of what is not modelled: [new URL] ignores white
    space around a URL; the digest is 64 hexadecimal characters; the
    distribution contract asks of a version that it is a UUID. *)
Class ServiceLaws : Prop := {
  law_urls : urls_trim;
  law_digest : ∀ s, matches_class is_hex 64 64 (sha256 s) = true;
  law_contract : ∀ destination v1 v2, is_uuid v1 = true → is_uuid v2 = true →
    validateDistributionContract "publication" (publication_of destination v1) = Ok tt →
    validateDistributionContract "publication" (publication_of destination v2) = Ok tt }.
Context `{laws : ServiceLaws}.
Lemma materialVersionId_uuid c : is_uuid (materialVersionId c) = true.
Proof.
  unfold materialVersionId. set (hex := sha256 _).
  assert (sforall is_hex hex = true ∧ String.length hex = 64%nat) as [Hhex Hlen].
  { pose proof (law_digest _ : matches_class _ _ _ hex = true) as H. unfold matches_class, slen in H. split_bool. split; [done|lia]. }
  assert (∀ a b, (a + b <= 64)%nat → sforall is_hex (stake b (sdrop a hex)) = true ∧ String.length (stake b (sdrop a hex)) = b) as Hp
    by (intros a b Hab; apply part_hex; [done|lia]).
  destruct (Hp 0%nat 8%nat) as [H0 L0]; [lia|]. destruct (Hp 8%nat 4%nat) as [H1 L1]; [lia|].
  destruct (Hp 13%nat 3%nat) as [H2 L2]; [lia|]. destruct (Hp 17%nat 3%nat) as [H3 L3]; [lia|].
  destruct (Hp 20%nat 12%nat) as [H4 L4]; [lia|]. destruct (variant_digit (hex_char hex 16)) as [H5 L5].
  generalize dependent (stake 8 (sdrop 0 hex)). generalize dependent (stake 4 (sdrop 8 hex)).
  generalize dependent (stake 3 (sdrop 13 hex)). generalize dependent (stake 3 (sdrop 17 hex)).
  generalize dependent (stake 12 (sdrop 20 hex)). generalize dependent (hex_digit_text (8 + Z.land (hex_char hex 16) 3)).
  clear. intros d Hd Ld e He Le v Hv Lv u Hu Lu b Hb Lb a Ha La.
  change (is_uuid (a +:+ String "-" (b +:+ String "-" (String "5" u +:+ String "-" (d +:+ (v +:+ String "-" e))))) = true).
  rewrite sapp_assoc. unfold is_uuid.
  rewrite !split_on_app by (apply hex_no_dash; rewrite ?sforall_app; cbn [sforall]; by rewrite ?Hd, ?Hv, ?Hu).
  rewrite split_on_none by (by apply hex_no_dash). cbn [forallb fst snd].
  repeat rewrite hex_class; rewrite ?sforall_app, ?slength_app; cbn [sforall String.length];
    by rewrite ?Ha, ?Hb, ?Hu, ?Hd, ?Hv, ?He, ?La, ?Lb, ?Lu, ?Ld, ?Lv, ?Le.
Qed.

(** ** The payload *)

Lemma spread_lookup k a b :
  (∃ v, (k, v) ∈ b ∧ get k (Obj (spread a b)) = v ∧ hasOwn k (Obj (spread a b)) = true) ∨
  k ∉ b.*1 ∧ get k (Obj (spread a b)) = get k (Obj a) ∧ hasOwn k (Obj (spread a b)) = hasOwn k (Obj a).
Proof.
  unfold get, hasOwn. induction b as [|[k' v] b IH] using rev_ind; [right; split_and!; [apply not_elem_of_nil|done..]|].
  unfold spread. rewrite fold_left_app. cbn [fold_left fst snd]. fold (spread a b).
  destruct (decide (k = k')) as [->|Hne].
  - left. exists v. rewrite assoc_get_set_eq. split_and!; [|done..]. apply elem_of_app. right. by apply list_elem_of_singleton.
  - rewrite !assoc_get_set_ne by done. destruct IH as [(w & Hin & H)|(Hk & H)]; [left; exists w|right]; (split; [|exact H]).
    + apply elem_of_app. by left.
    + rewrite fmap_app, elem_of_app. cbn. rewrite list_elem_of_singleton. naive_solver.
Qed.
Definition common_names : list string :=
  ["commandRef"; "caEndpoint"; "acmeKind"; "keyAlgorithm"; "keySize"; "keyRotation"; "dnsProvider"; "dnsZone"; "target"; "sans";
   "keyMode"; "preferredChain"; "accountRef"; "eabRef"].
Definition deployment_names : list string :=
  ["deploymentTargets"; "certPath"; "keyPath"; "chainPath"; "reloadService"; "reloadCommandRefs"; "verifyHost"; "verifyPort"].
Definition named (names : list string) (fs : list (string * jsval)) : Prop := Forall (λ kv, kv.1 ∈ names) fs.
Lemma named_app names fs gs : named names fs → named names gs → named names (fs ++ gs).
Proof. apply Forall_app_2. Qed.
Lemma named_if names name v : name ∈ names → named names (if_truthy name v).
Proof. intros H. unfold if_truthy. destruct (truthy v); by repeat constructor. Qed.
Lemma named_path names name p : name ∈ names → named names (path_field name p).
Proof. intros H. unfold path_field. destruct (truthy _); [by repeat constructor|]. destruct (List.find _ _); by repeat constructor. Qed.
Ltac in_names := apply (bool_decide_unpack _); vm_compute; exact I.
Lemma common_named names p ts : common_names ⊆ names →
  named names (common_fields p ts) ∧ named names (reference_fields p).
Proof.
  intros Hs. split.
  - unfold common_fields. repeat (constructor; [apply Hs; cbn [fst]; in_names|]). constructor.
  - unfold reference_fields. repeat apply named_app; apply named_if, Hs; in_names.
Qed.
Lemma execution_named p : named (if truthy (get "publicationDestination" p) then common_names else common_names ++ deployment_names)
  (executionFieldsFromRenewalProfile p).
Proof.
  unfold executionFieldsFromRenewalProfile. destruct (truthy _).
  - destruct (common_named common_names p [] (reflexivity _)) as [Hc Hr]. apply named_app; [done|].
    apply named_app; [|done]. constructor; [in_names|constructor].
  - set (ts := if is_windows_iis p then windows_target_fields p else []).
    destruct (common_named (common_names ++ deployment_names) p ts) as [Hc Hr]; [set_solver|].
    apply named_app; [done|]. apply named_app; [constructor; [in_names|constructor]|].
    apply named_app; [|apply named_app; [|apply named_app; [|done]]].
    + destruct (is_windows_iis p); [constructor; [in_names|constructor]|]. repeat apply named_app; apply named_path; in_names.
    + unfold reload_fields. destruct (List.find _ _); [constructor; [in_names|]; apply named_if; in_names|constructor].
    + unfold verify_fields. destruct (truthy _); [|constructor]. constructor; [in_names|].
      destruct (nullish _); constructor; [in_names|constructor].
Qed.
Lemma publishing_key_mode p : truthy (get "publicationDestination" p) = true →
  "keyMode" ∈ (executionFieldsFromRenewalProfile p).*1 ∧
  ∀ v, ("keyMode", v) ∈ executionFieldsFromRenewalProfile p → v = Str "vault-managed".
Proof.
  intros H. unfold executionFieldsFromRenewalProfile. rewrite H. split.
  - rewrite !fmap_app, !elem_of_app. right. left. by apply list_elem_of_singleton.
  - intros v [Hin|[[= ->]%list_elem_of_singleton|Hin]%elem_of_app]%elem_of_app; [|done|]; exfalso.
    + unfold common_fields in Hin. repeat (apply elem_of_cons in Hin as [Hin|Hin]; [discriminate Hin|]). by apply not_elem_of_nil in Hin.
    + unfold reference_fields, if_truthy in Hin. repeat destruct (truthy _); cbn in Hin;
        repeat (apply elem_of_cons in Hin as [Hin|Hin]; [discriminate Hin|]); by apply not_elem_of_nil in Hin.
Qed.

(** What job creation asks of a payload, with this file's validation. *)
Definition profile_verdict (raw : jsval) : result job_error unit :=
  match validateRenewalProfile raw with
  | Ok _ => Ok tt
  | Err PROFILE_INCOMPLETE => Err (other_error "CERTOPS_RENEWAL_PROFILE_INCOMPLETE")
  | Err _ => Err CERTOPS_RENEWAL_PROFILE_INVALID
  end.
Definition with_profiles : Services := {|
  containsPrivateKeyMaterial := containsPrivateKeyMaterial; assertNoUnredacted := assertNoUnredacted;
  looksPrivate := looksPrivate; looksGeneric := looksGeneric; parse_url := parse_url; sha256 := sha256;
  jsonb_text := jsonb_text; initial_provisioning := initial_provisioning;
  validateDistributionContract := validateDistributionContract;
  JobRequest.validateRenewalProfile := profile_verdict;
  resolveDistributionJobDefaults := resolveDistributionJobDefaults;
  allocateMaterialVersion := allocateMaterialVersion |}.

Definition base_names : list string := ["certificateId"; "notAfter"; "reason"; "renewalProfile"].
(** A payload by its parts. *)
Definition payload_of (c : certificate) (reason : string) (q : parts) : jsval :=
  Obj (spread [("certificateId", Str (c_id c)); ("notAfter", Str (toISOString (c_not_after c))); ("reason", Str reason);
               ("renewalProfile", profile_of q)]
         (executionFieldsFromRenewalProfile (profile_of q)
          ++ match publication q with
             | Some d => [("publication", publication_of (Obj d) (materialVersionId c))] | None => [] end)).
Lemma built_payload c reason payload : buildRenewalJobPayload c reason = Ok payload →
  ∃ q, normal q ∧ payload = payload_of c reason q.
Proof.
  unfold buildRenewalJobPayload. intros (p & Hp & [= <-])%bind_ok.
  assert (∃ raw, validateRenewalProfile raw = Ok p) as [raw Hraw].
  { unfold resolveRenewalProfileSnapshot in Hp. apply bind_ok in Hp as ([] & _ & Hp).
    destruct (get "renewalProfile" _); try discriminate Hp. apply bind_ok in Hp as ([] & _ & Hp). by eexists. }
  apply validated_normal in Hraw as (q & -> & Hn). exists q. split; [done|].
  unfold payload_of. rewrite get_publication. by destruct (publication q).
Qed.
Lemma payload_lookup c reason q k :
  (∃ v, (k, v) ∈ executionFieldsFromRenewalProfile (profile_of q) ∧ get k (payload_of c reason q) = v) ∨
  (k = "publication" ∧ ∃ d, publication q = Some d ∧
     get k (payload_of c reason q) = publication_of (Obj d) (materialVersionId c)) ∨
  (k = "publication" → publication q = None) ∧ k ∉ (executionFieldsFromRenewalProfile (profile_of q)).*1 ∧
  (k ∉ base_names → get k (payload_of c reason q) = Undef ∧ hasOwn k (payload_of c reason q) = false).
Proof.
  unfold payload_of.
  match goal with |- context [spread ?a ?b] => pose proof (spread_lookup k a b) as H end.
  rewrite fmap_app, elem_of_app in H. destruct H as [(v & Hin & Hv & _)|(Hk & Hv & Ho)].
  - apply elem_of_app in Hin as [Hin|Hin]; [left; by exists v|right; left].
    destruct (publication q) as [d|]; [|by apply not_elem_of_nil in Hin]. apply list_elem_of_singleton in Hin as [= -> ->].
    split; [done|]. by exists d.
  - right. right. split_and!; [|tauto|].
    + intros ->. destruct (publication q); [|done]. exfalso. apply Hk. right. by apply list_elem_of_singleton.
    + intros Hb. rewrite Hv, Ho. unfold get, hasOwn.
      assert (∀ fs : list (string * jsval), k ∉ fs.*1 → assoc_get k fs = None) as -> by (intros fs; apply assoc_get_None).
      * by rewrite bool_decide_eq_false_2 by (by intros [? ?]).
      * exact Hb.
Qed.

#[local] Arguments publication_of : simpl never.
#[local] Arguments materialVersionId : simpl never.
#[local] Arguments payload_of : simpl never.
#[local] Arguments executionFieldsFromRenewalProfile : simpl never.
Lemma execution_name p k v : (k, v) ∈ executionFieldsFromRenewalProfile p →
  k ∈ if truthy (get "publicationDestination" p) then common_names else common_names ++ deployment_names.
Proof. intros Hin. pose proof (execution_named p) as Hn. unfold named in Hn. rewrite Forall_forall in Hn. by apply (Hn (k, v)). Qed.
Lemma payload_absent c reason q k : k ∉ "publication" :: base_names ++ common_names ++ deployment_names →
  get k (payload_of c reason q) = Undef ∧ hasOwn k (payload_of c reason q) = false.
Proof.
  intros Hk. destruct (payload_lookup c reason q k) as [(v & Hin & _)|[[-> _]|(_ & _ & H)]].
  - apply execution_name in Hin. exfalso. apply Hk. destruct (truthy _); set_solver.
  - exfalso. apply Hk. set_solver.
  - apply H. set_solver.
Qed.
Lemma payload_publication c reason q : get "publication" (payload_of c reason q) =
  match publication q with Some d => publication_of (Obj d) (materialVersionId c) | None => Undef end.
Proof.
  destruct (payload_lookup c reason q "publication") as [(v & Hin & _)|[(_ & d & -> & E)|(Hp & _ & H)]]; [|exact E|].
  - exfalso. apply execution_name in Hin. apply (bool_decide_pack _) in Hin. by destruct (truthy _).
  - rewrite Hp by done. apply H. in_names.
Qed.
Lemma payload_key_mode c reason q d : publication q = Some d → get "keyMode" (payload_of c reason q) = Str "vault-managed".
Proof.
  intros Hd. destruct (publishing_key_mode (profile_of q)) as [Hk Hv]; [by rewrite get_publication, Hd|].
  destruct (payload_lookup c reason q "keyMode") as [(v & Hin & ->)|[[? _]|(_ & Hno & _)]]; [by apply Hv|done|done].
Qed.
Lemma payload_distribution c reason q : normal q →
  validate_distribution validateDistributionContract (payload_of c reason q) renew = Ok tt.
Proof.
  intros Hn. unfold validate_distribution. rewrite payload_publication.
  rewrite (proj1 (payload_absent c reason q "materialDeployment" ltac:(in_names))).
  destruct (publication q) as [d|] eqn:Hd; [|done]. cbn.
  destruct (n_publication _ Hn _ Hd) as (Hc & _).
  rewrite (law_contract (Obj d) placeholder_version (materialVersionId c)); [|by vm_compute|apply materialVersionId_uuid|done].
  rewrite (payload_key_mode _ _ _ _ Hd). cbn.
  assert (∀ k, k ∈ store_managed_fields → nullish (get k (payload_of c reason q)) = true) as Hs.
  { intros k Hk. destruct (payload_lookup c reason q k) as [(v & Hin & _)|[(-> & _)|(_ & _ & H)]].
    - apply execution_name in Hin. rewrite get_publication, Hd in Hin. exfalso. revert Hk Hin.
      unfold store_managed_fields, common_names. set_solver.
    - exfalso. revert Hk. unfold store_managed_fields. set_solver.
    - destruct H as [-> _]; [|done]. revert Hk. unfold store_managed_fields, base_names. set_solver. }
  rewrite !Hs by in_names. done.
Qed.
Lemma payload_executable c reason q : normal q →
  executable (λ s, u_protocol <$> parse_url s) (payload_of c reason q) renew.
Proof.
  intros Hn. unfold executable. split_and!; [|apply payload_absent; in_names..|done].
  intros name valid Hin.
  assert (name ∈ allowedForOperation renew ∧ name ≠ "publication" ∧ name ∉ base_names) as (Ha & Hp & Hb).
  { assert (Forall (λ n, n ∈ allowedForOperation renew ∧ n ≠ "publication" ∧ n ∉ base_names) VALIDATORS.*1) as H by in_names.
    rewrite Forall_forall in H. apply H, list_elem_of_fmap. by exists (name, valid). }
  destruct (payload_lookup c reason q name) as [(v & Hv & ->)|[[? _]|(_ & _ & H)]]; [|done|].
  - right. split; [done|]. pose proof (execution_fields_valid q law_urls Hn) as Hf. rewrite Forall_forall in Hf.
    by apply (Hf (name, v)).
  - left. by destruct H as [-> _].
Qed.
(** C33: what the scheduler builds is what job creation accepts.  Whatever the
    stored profile and the certificate, the payload of a renewal passes the
    validation of the execution fields, and its snapshot passes the validation
    of profiles once more, except that of an IIS target whose key is to be
    kept. *)
Theorem scheduled_payload_accepted c reason payload : buildRenewalJobPayload c reason = Ok payload →
  validateExecutionFields (λ s, u_protocol <$> parse_url s) validateDistributionContract payload renew = Ok tt ∧
  ∀ required, validateRenewalProfileOnPayload (sv := with_profiles) payload renew required =
    if keeps_windows_key (get "renewalProfile" payload) then Err CERTOPS_RENEWAL_PROFILE_INVALID else Ok tt.
Proof.
  intros (q & Hn & ->)%built_payload. split.
  { apply validateExecutionFields_ok. split; [by apply payload_executable|by apply payload_distribution]. }
  intros required. unfold validateRenewalProfileOnPayload.
  assert (hasOwn "renewalProfile" (payload_of c reason q) = true ∧ get "renewalProfile" (payload_of c reason q) = profile_of q) as [-> ->].
  { unfold payload_of. match goal with |- context [spread ?a ?b] => destruct (spread_lookup "renewalProfile" a b) as [(v & Hin & _)|(_ & -> & ->)] end; [|done].
    exfalso. apply elem_of_app in Hin as [Hin|Hin].
    - apply execution_name in Hin. apply (bool_decide_pack _) in Hin. by destruct (truthy _).
    - destruct (publication q); [|by apply not_elem_of_nil in Hin]. by apply list_elem_of_singleton in Hin. }
  cbn. unfold profile_verdict. rewrite (profile_of_validates q law_urls Hn). by destruct (keeps_windows_key _).
Qed.

Lemma spread_base k a a' b : get k (Obj a) = get k (Obj a') → get k (Obj (spread a b)) = get k (Obj (spread a' b)).
Proof.
  intros H. unfold spread. revert a a' H. induction b as [|[k' v] b IH]; intros a a' H; [exact H|]. apply IH.
  unfold get in *. cbn [fst snd]. destruct (decide (k = k')) as [->|Hne]; [by rewrite !assoc_get_set_eq|].
  by rewrite !assoc_get_set_ne.
Qed.
(** A user who asks for a renewal chooses the reason and nothing else: any
    two requests for a certificate that are accepted have payloads that agree
    in every other property. *)
Theorem overrides_change_the_reason_only c default1 default2 overrides1 overrides2 payload1 payload2 :
  buildManualRenewalJobPayload c default1 overrides1 = Ok payload1 →
  buildManualRenewalJobPayload c default2 overrides2 = Ok payload2 →
  ∀ k, k ≠ "reason" → get k payload1 = get k payload2.
Proof.
  unfold buildManualRenewalJobPayload, buildRenewalJobPayload.
  intros (r1 & _ & (p & Hp & [= <-])%bind_ok)%bind_ok (r2 & _ & (p' & Hp' & [= <-])%bind_ok)%bind_ok k Hk.
  rewrite Hp in Hp'. injection Hp' as <-. apply spread_base. read_fields.
  unfold get. cbn. repeat case_decide; done.
Qed.
End payloads.

(** * A concrete payload *)

Lemma example_laws : @ServiceLaws example_services.
Proof.
  constructor; [exact example_urls|by intros s; vm_compute|].
  intros d v1 v2 H1 H2 _. apply ensure_ok. cbn. unfold publication_of, get. rewrite assoc_get_set_eq. exact H2.
Qed.
Definition example_certificate (source : jsval) : certificate :=
  mkCertificate "c1" "w1" (Str "example.org") (Arr [Str "example.org"; Str "www.example.org"]) 1767225600000
    (Str "agent-local") (Num (Fin 7)) Null Null (Obj [("renewalProfile", source)]).
Definition demo_payload : jsval :=
  match @buildRenewalJobPayload example_services (example_certificate demo_profile) expiry_reason with Ok p => p | Err _ => Undef end.
Lemma scheduled_payload_accepted_witness :
  validateExecutionFields (λ s, u_protocol <$> demo_parse_url s) (@validateDistributionContract example_services) demo_payload renew = Ok tt ∧
  @validateRenewalProfileOnPayload (@with_profiles example_services) demo_payload renew true = Ok tt ∧
  get "keyPath" demo_payload = Str "/etc/ssl/site.key" ∧
  get "sans" demo_payload = Arr [Str "example.org"; Str "www.example.org"].
Proof.
  assert (@buildRenewalJobPayload example_services (example_certificate demo_profile) expiry_reason = Ok demo_payload) as E
    by (vm_compute; reflexivity).
  destruct (@scheduled_payload_accepted example_services example_laws _ _ _ E) as [H1 H2].
  split_and!; [exact H1| |vm_compute; reflexivity..]. rewrite H2. vm_compute. reflexivity.
Defined.
Definition manual_payload (overrides : jsval) : jsval :=
  match @buildManualRenewalJobPayload example_services (example_certificate demo_profile) None overrides with Ok p => p | Err _ => Undef end.
Lemma overrides_change_the_reason_only_witness :
  get "commandRef" (manual_payload Undef) = get "commandRef" (manual_payload (Obj [("reason", Str " key leaked ")])) ∧
  get "reason" (manual_payload (Obj [("reason", Str " key leaked ")])) = Str "key leaked".
Proof.
  split; [|vm_compute; reflexivity].
  refine (@overrides_change_the_reason_only example_services (example_certificate demo_profile) None None Undef
    (Obj [("reason", Str " key leaked ")]) _ _ _ _ "commandRef" _); [vm_compute; reflexivity..|discriminate].
Defined.
(** Anything but the reason is refused. *)
Example override_refused : @buildManualRenewalJobPayload example_services (example_certificate demo_profile) None
  (Obj [("caEndpoint", Str "https://other.example")]) = Err OVERRIDE_INVALID.
Proof. vm_compute. reflexivity. Qed.
