(* ===== verification/JobCreation.v ===== *)
(** Creating certificate jobs: [createCertificateJob] of
    apps/api/services/certops/jobs.js.

    The call is a [prog] over the tables it reads and writes, one statement of
    the code per [query]; callers run interleaved (Db).  An enclosing
    transaction is the caller's: its rollback is not modelled.  The theorems
    are about any callers, any interleaving and any connection failures. *)
From stdpp Require Import relations.
From S2P Require Import Prelude Dates Json Jobs JobFields RenewalCapacity Db JobRequest.
Open Scope Z_scope.

Section creation.
Context {dp : DateParse} {sv : Services}.
Notation prog := (prog db job_error).
Notation assertSafePublicValue :=
  (assertSafePublicValue containsPrivateKeyMaterial assertNoUnredacted looksPrivate looksGeneric).
Notation normalizePublicObject :=
  (normalizePublicObject containsPrivateKeyMaterial assertNoUnredacted looksPrivate looksGeneric).
Notation normalizeOptionalText :=
  (normalizeOptionalText containsPrivateKeyMaterial assertNoUnredacted looksPrivate looksGeneric).
Notation normalizeOptionalShortText :=
  (normalizeOptionalShortText containsPrivateKeyMaterial assertNoUnredacted looksPrivate looksGeneric).
Notation normalizeOptionalPublicText :=
  (normalizeOptionalPublicText containsPrivateKeyMaterial assertNoUnredacted looksPrivate looksGeneric).
Notation validateExecutionFields :=
  (validateExecutionFields (λ s, u_protocol <$> parse_url s) validateDistributionContract).


(** * Statements *)

Definition lift {A} (r : result job_error A) : prog A := Ret r.

Definition select_requires_approval (workspaceId : string) (d : db) : bool :=
  default false (certops_require_approval_always d !! workspaceId).
Definition resolveWorkspaceRequiresApprovalAlways (workspaceId : string) (explicitOption : jsval) : prog bool :=
  fromDb ← read (select_requires_approval workspaceId);
  mret (fromDb || is_true explicitOption).

(** [$2::uuid]: PostgreSQL compares UUIDs, not their text. *)
Definition select_mc (workspaceId subjectId : string) (d : db) : option mc_row :=
  managed_certificates d !! (workspaceId, toLowerCase subjectId).
Definition assertDeployFromStoreIdentityAllowsMutation (workspaceId subjectId : string) : prog unit :=
  lifecycle ← read (select_mc workspaceId subjectId);
  lift (ensure (negb (is_member (lifecycle ≫= identity_lifecycle_status) RETIRED_STATUSES))
          CERTOPS_CERTIFICATE_RETIRED).

Definition is_uuid_subject (subjectType subjectId : option string) : option string :=
  if bool_decide (subjectType = Some "managed_certificate") then
    match subjectId with Some id => if is_uuid id then Some id else None | None => None end
  else None.
(** The checks on the certificate's row, before an agent is inferred. *)
Definition certificate_admits (source : job_source) (operation : job_operation) (r : mc_row)
  : result job_error unit :=
  _ ← ensure (negb (bool_decide (operation = renew)
                    && is_member (identity_lifecycle_status r) RETIRED_STATUSES)) CERTOPS_CERTIFICATE_RETIRED;
  _ ← ensure (negb (bool_decide (operation = renew) && is_member (mc_status r) RETIRED_STATUSES))
        CERTOPS_CERTIFICATE_NOT_RENEWABLE;
  _ ← ensure (is_member (key_mode r) AGENT_DEPLOYABLE_KEY_MODES) CERTOPS_CERTIFICATE_NOT_AGENT_DEPLOYABLE;
  ensure (negb (bool_decide (source = automation) && bool_decide (operation = renew)
                && is_member (profile_status r) AUTO_RENEW_DISABLED_PROFILE_STATUSES))
    CERTOPS_RENEWAL_AUTO_RENEW_DISABLED.
Definition resolveManagedCertificateJobDefaults (workspaceId : string) (source : job_source)
    (operation : job_operation) (subjectType subjectId : option string) (payload assignedAgentId : jsval)
  : prog jsval :=
  if truthy (get "publication" payload) || truthy (get "materialDeployment" payload) then
    query (λ d, (d, resolveDistributionJobDefaults d workspaceId operation subjectId payload assignedAgentId))
  else if bool_decide (source = controller_provisioning)
          || negb (bool_decide (operation ∈ AGENT_MUTATING_OPERATIONS)) then mret Null
  else match is_uuid_subject subjectType subjectId with
  | None => mret Null
  | Some id =>
      found ← read (select_mc workspaceId id);
      match found with
      | None => mret Null
      | Some r =>
          _ ← lift (certificate_admits source operation r);
          match mc_source r, deployed_agent_id r, discovery_agent_id r with
          | Some "agent_windows", Some (String _ _ as a), _ => mret (Str a)
          | Some "agent_filesystem", _, Some (String _ _ as a) =>
              found ← read (λ d, certops_agents d !! (workspaceId, a));
              mret (opt_js found)
          | _, _, _ => mret Null
          end
      end
  end.

Definition has_key (workspaceId key : string) (r : row) : Prop :=
  r_workspaceId r = workspaceId ∧ r_idempotencyKey r = Some key.
#[global] Instance has_key_dec workspaceId key r : Decision (has_key workspaceId key r).
Proof. unfold has_key. apply _. Defined.
(** The partial unique index on (workspace_id, idempotency_key). *)
Definition find_by_key (workspaceId key : string) (jobs : gmap string row) : option row :=
  match list_find (λ p, has_key workspaceId key p.2) (map_to_list jobs) with
  | Some (_, p) => Some p.2
  | None => None
  end.
Definition getJobByIdempotencyKey (workspaceId key : string) : prog (option row) :=
  read (λ d, find_by_key workspaceId key (certificate_jobs d)).

(** A replay of an existing job, or a conflict; [None] when the key is free. *)
Definition replay (workspaceId : string) (key : option string) (q : request) : prog (option row) :=
  match key with
  | None => mret None
  | Some key =>
      existing ← getJobByIdempotencyKey workspaceId key;
      match existing with
      | None => mret None
      | Some job =>
          matching ← lift (isMatchingReplay job q);
          if (matching : bool) then mret (Some job) else lift (Err CERTOPS_JOB_IDEMPOTENCY_CONFLICT)
      end
  end.

(** lifecycle_status and initial_provisioning of the subject's identity. *)
Definition select_identity (workspaceId id : string) (q : request) (r : routing) (d : db)
  : option (option string * bool) :=
  match select_mc workspaceId id d with
  | Some mc => Some (identity_lifecycle_status mc,
                     initial_provisioning d workspaceId id (q_operation q) (executorKind r) (q_source q))
  | None => None
  end.
Definition identity_admits (identity : option (option string * bool)) : result job_error unit :=
  match identity with
  | None => Ok tt
  | Some (lifecycle_status, initial) =>
      _ ← ensure (bool_decide (is_Some lifecycle_status) || initial) CERTOPS_JOB_INVALID;
      ensure (negb (is_member lifecycle_status RETIRED_STATUSES)) CERTOPS_CERTIFICATE_RETIRED
  end.
Definition assert_identity (workspaceId : string) (q : request) (r : routing) : prog unit :=
  match is_uuid_subject (q_subjectType q) (q_subjectId q) with
  | Some id =>
      if bool_decide (q_operation q ∈ [renew; deploy; reload]) then
        identity ← read (select_identity workspaceId id q r);
        lift (identity_admits identity)
      else mret tt
  | None => mret tt
  end.

(** The in-flight jobs that count against a CA: non-terminal issue and renew
    jobs of the workspace. *)
Definition consumes_ca (workspaceId : string) (r : row) : bool :=
  bool_decide (r_workspaceId r = workspaceId) && bool_decide (r_operation r ∈ [issue; renew])
  && negb (isTerminalJobStatus (r_status r)).
Definition select_in_flight (workspaceId : string) (d : db) : list (option string * jsval) :=
  map (λ r, (enrollment_issuers d !! (workspaceId, r_id r), r_payload r))
    (List.filter (consumes_ca workspaceId) (map snd (map_to_list (certificate_jobs d)))).
Definition assert_capacity (env : option string) (options : jsval) (workspaceId : string) (q : request)
  : prog unit :=
  if bool_decide (q_operation q ∈ [issue; renew]) then
    rows ← read (select_in_flight workspaceId);
    lift (ensure (assertRenewalPerCaCapacityAvailable parse_url jsonb_text env (get "perCaCap" options)
                    (get "capacityBucket" options) (q_payload q) rows)
            CERTOPS_RENEWAL_PER_CA_CAP_EXCEEDED)
  else mret tt.

(** [INSERT ... ON CONFLICT (workspace_id, idempotency_key) DO NOTHING
    RETURNING]; an id that exists is PostgreSQL's 23505 on the primary key. *)
Definition insert_job (r : row) (d : db) : db * result job_error (option row) :=
  match certificate_jobs d !! r_id r with
  | Some _ => (d, Err (other_error "23505"))
  | None =>
      match r_idempotencyKey r ≫= (λ key, find_by_key (r_workspaceId r) key (certificate_jobs d)) with
      | Some _ => (d, Ok None)
      | None => (with_jobs (<[r_id r := r]> (certificate_jobs d)) d, Ok (Some r))
      end
  end.
Definition job_error_is_unique (e : job_error) : bool := bool_decide (e = unique_idempotency_key).

(** * [createCertificateJob] *)

(** Everything up to the routing: the request, its idempotency key, the
    routing and the initial timestamps. *)
Record prepared := mkPrepared {
  p_workspaceId : string; p_idempotencyKey : option string; p_request : request; p_routing : routing;
  p_times : lifecycle }.
Definition prepare_job (now : Z) (options : jsval) : prog prepared :=
  let opt k := get k options in
  let material k := truthy (get k (opt "payload")) in
  _ ← lift (ensure (negb (material "publication" || material "materialDeployment"
                          || material "distributionRollout") || truthy (opt "client"))
              CERTOPS_PUBLICATION_TRANSACTION_REQUIRED);
  workspaceId ← lift (normalizeWorkspaceId (opt "workspaceId"));
  operation ← lift (normalizeEnum JOB_OPERATION_SET CERTOPS_JOB_OPERATION_INVALID None
                      (js_or (opt "operation") (opt "jobType")));
  _ ← lift (operation_entry options operation);
  let smoke := bool_decide (operation = protocol_smoke) in
  let perJobRequiresApproval := is_true (opt "requiresApproval") in
  workspaceForcesApproval ←
    (if smoke then mret false
     else resolveWorkspaceRequiresApprovalAlways workspaceId (opt "workspaceRequiresApprovalAlways"));
  _ ← lift (ensure (negb perJobRequiresApproval || nullish (opt "status")
                    || is_str "pending_approval" (opt "status"))
              CERTOPS_JOB_STATUS_INVALID);
  status ← lift (normalizeEnum JOB_STATUS_SET CERTOPS_JOB_STATUS_INVALID
                   (Some (if perJobRequiresApproval || workspaceForcesApproval
                          then "pending_approval" else "pending"))
                   (if workspaceForcesApproval then Str "pending_approval" else opt "status"));
  _ ← lift (ensure (negb (bool_decide (status = awaiting_issuer)) || truthy (opt "enrollmentId"))
              CERTOPS_JOB_STATUS_INVALID);
  mode ← lift (normalizeJobMode (if smoke then Str "dry_run" else opt "mode"));
  source ← lift (normalizeEnum JOB_SOURCE_SET CERTOPS_JOB_SOURCE_INVALID (Some "api") (opt "source"));
  _ ← lift (ensure (negb (bool_decide (source = automation) && isTrustAnchorOperation operation))
              CERTOPS_JOB_OPERATION_INVALID);
  subject ← lift (normalizeSubject options operation);
  userId ← lift (normalizeRequesterIdentity (opt "requestedByUserId"));
  apiTokenId ← lift (normalizeRequesterIdentity (opt "requestedByApiTokenId"));
  idempotencyKey ← lift (normalizeOptionalShortText (opt "idempotencyKey"));
  public ← lift (normalizePublicObject (opt "payload"));
  let payload := match public with
                 | Obj fs => Obj (assoc_set "mode" (Str (enum_name JOB_MODE_SET mode)) fs)
                 | v => v
                 end in
  _ ← lift (validateExecutionFields payload operation);
  _ ← lift (validateRenewalProfileOnPayload payload operation
              (bool_decide (source = automation) || is_true (opt "requireRenewalProfile")));
  _ ← lift (assertModeAllowsTerminalStatus mode status);
  _ ← match is_uuid_subject subject.1 subject.2 with
      | Some id => if bool_decide (operation = deploy_from_store)
                   then assertDeployFromStoreIdentityAllowsMutation workspaceId id else mret tt
      | None => mret tt
      end;
  auto ← resolveManagedCertificateJobDefaults workspaceId source operation subject.1 subject.2 payload
           (js_or (opt "assignedAgentId") (get "assignedAgentId" payload));
  routing ← lift (resolveExecutorKindAndRouting options source payload auto);
  _ ← lift (ensure (negb (truthy (opt "expectedRenewalRouting"))
                    || routing_expected routing (opt "expectedRenewalRouting")) OPERATOR_INTENT_STALE);
  resultMetadata ← lift (normalizePublicObject (opt "resultMetadata"));
  errorCode ← lift (normalizeOptionalShortText (opt "errorCode"));
  errorMessage ← lift (normalizeOptionalPublicText (opt "errorMessage"));
  explicit ← lift (normalizeExplicitLifecycleTimestamps options);
  mret (mkPrepared workspaceId idempotencyKey
          (mkRequest operation status mode source userId apiTokenId subject.1 subject.2 payload
             resultMetadata errorCode errorMessage explicit)
          routing (initialLifecycleTimestamps explicit status now)).

Definition connection_of (v : jsval) : result job_error (option string) :=
  if nullish v then Ok None
  else if is_uuid (js_String v) then Ok (Some (js_String v)) else Err CERTOPS_JOB_INVALID.
Definition new_row (freshId : string) (p : prepared) (connection : option string) (enrollment : jsval) : row :=
  let q := p_request p in
  mkRow freshId (p_workspaceId p) (q_operation q) (q_status q) (Some (q_mode q)) (q_source q) (p_routing p)
    (q_requestedByUserId q) (q_requestedByApiTokenId q) connection (p_idempotencyKey p)
    (q_subjectType q) (q_subjectId q) (q_payload q) (q_resultMetadata q) (q_errorCode q)
    (q_errorMessage q) (p_times p) (Some (jobCreationRequestFingerprint q)) (js_or enrollment Null).

(** The [try] block: the insert, and the job that was there instead. *)
Definition insert_or_replay (p : prepared) (r : row) : prog (row * bool) :=
  let q := p_request p in
  inserted ← query (insert_job r);
  match inserted with
  | Some job =>
      _ ← (if truthy (get "publication" (q_payload q))
           then query (λ d, (d, allocateMaterialVersion d job)) else mret tt);
      mret (job, true)
  | None =>
      existing ← replay (p_workspaceId p) (p_idempotencyKey p) q;
      match existing with
      | Some job => mret (job, false)
      | None => lift (Err CERTOPS_JOB_INVALID)
      end
  end.
(** [freshId] is what gen_random_uuid() gives the row; the result is
    [{ job, created }] ([options.returnOutcome] only decides whether [created]
    is dropped). *)
Definition createCertificateJob (env : option string) (now : Z) (freshId : string) (options : jsval)
  : prog (row * bool) :=
  p ← prepare_job now options;
  let q := p_request p in
  existing ← replay (p_workspaceId p) (p_idempotencyKey p) q;
  match existing with
  | Some job => mret (job, false)
  | None =>
      _ ← assert_identity (p_workspaceId p) q (p_routing p);
      _ ← assert_capacity env options (p_workspaceId p) q;
      connection ← lift (connection_of (get "requestedByConnectionId" options));
      catch (insert_or_replay p (new_row freshId p connection (get "enrollmentId" options)))
        (λ e, match p_idempotencyKey p with
              | Some _ =>
                  if job_error_is_unique e then
                    existing ← replay (p_workspaceId p) (p_idempotencyKey p) q;
                    match existing with
                    | Some job => mret (job, false)
                    | None => lift (Err e)
                    end
                  else lift (Err e)
              | None => lift (Err e)
              end)
  end.
End creation.

(** * The table *)

(** Rows are stored under their id, and the partial unique index holds. *)
Record table_ok (d : db) : Prop := {
  ids_ok : ∀ id r, certificate_jobs d !! id = Some r → r_id r = id;
  keys_unique : ∀ id1 id2 r1 r2 ws key,
    certificate_jobs d !! id1 = Some r1 → certificate_jobs d !! id2 = Some r2 →
    has_key ws key r1 → has_key ws key r2 → id1 = id2 }.
(** What no statement of the program changes in a row. *)
Definition same_creation (r r' : row) : Prop :=
  r_id r' = r_id r ∧ r_workspaceId r' = r_workspaceId r ∧ r_idempotencyKey r' = r_idempotencyKey r ∧
  r_creationRequestHash r' = r_creationRequestHash r.
#[global] Instance same_creation_refl : Reflexive same_creation.
Proof. by intros r. Qed.
#[global] Instance same_creation_trans : Transitive same_creation.
Proof. unfold same_creation. intros a b c (?&?&?&?) (?&?&?&?). repeat split; congruence. Qed.
Lemma same_creation_key r r' ws key : same_creation r r' → has_key ws key r ↔ has_key ws key r'.
Proof. unfold has_key. intros (_ & -> & -> & _). done. Qed.

(** The rows of [d] are still there; the table keeps its constraints. *)
Definition grows (d d' : db) : Prop :=
  (table_ok d → table_ok d') ∧
  ∀ id r, certificate_jobs d !! id = Some r →
    ∃ r', certificate_jobs d' !! id = Some r' ∧ same_creation r r'.
#[global] Instance grows_refl : Reflexive grows.
Proof. intros d. split; [done|]. intros id r H. by exists r. Qed.
#[global] Instance grows_trans : Transitive grows.
Proof.
  intros a b c [H1 H2] [H3 H4]. split; [auto|]. intros id r H.
  destruct (H2 id r H) as (r1 & Hr1 & Hs1). destruct (H4 id r1 Hr1) as (r2 & Hr2 & Hs2).
  exists r2. split; [done|]. by transitivity r1.
Qed.

Lemma find_by_key_Some ws key jobs r : find_by_key ws key jobs = Some r →
  ∃ id, jobs !! id = Some r ∧ has_key ws key r.
Proof.
  unfold find_by_key. destruct (list_find _ _) as [[i [id r']]|] eqn:E; [|done]. intros [= <-].
  apply list_find_Some in E as (E & Hk & _). exists id. split; [|done].
  by apply elem_of_map_to_list, list_elem_of_lookup_2 with i.
Qed.
Lemma find_by_key_None ws key jobs : find_by_key ws key jobs = None →
  ∀ id r, jobs !! id = Some r → ¬ has_key ws key r.
Proof.
  unfold find_by_key. destruct (list_find _ _) as [[i [id r']]|] eqn:E; [done|]. intros _ id r H.
  apply list_find_None in E. rewrite Forall_forall in E. apply (E (id, r)).
  by apply elem_of_map_to_list.
Qed.
Lemma find_by_key_unique d ws key id r : table_ok d → certificate_jobs d !! id = Some r →
  has_key ws key r → find_by_key ws key (certificate_jobs d) = Some r.
Proof.
  intros Hd Hr Hk. destruct (find_by_key _ _ _) as [r'|] eqn:E.
  - apply find_by_key_Some in E as (id' & Hr' & Hk').
    assert (id = id') as <- by eauto using keys_unique. congruence.
  - by destruct (find_by_key_None _ _ _ E id r).
Qed.

(** One insert of a row satisfying [P], or nothing. *)
Definition inserts (P : row → Prop) (d d' : db) : Prop :=
  d' = d ∨
  ∃ r, P r ∧ certificate_jobs d !! r_id r = None ∧
    (∀ key, r_idempotencyKey r = Some key →
       find_by_key (r_workspaceId r) key (certificate_jobs d) = None) ∧
    d' = with_jobs (<[r_id r := r]> (certificate_jobs d)) d.
#[global] Instance inserts_refl P : Reflexive (inserts P).
Proof. by left. Qed.
Lemma insert_table_ok d r :
  certificate_jobs d !! r_id r = None →
  (∀ key, r_idempotencyKey r = Some key →
     find_by_key (r_workspaceId r) key (certificate_jobs d) = None) →
  table_ok d → table_ok (with_jobs (<[r_id r := r]> (certificate_jobs d)) d).
Proof.
  intros Hf Hk [H1 H2]. split; cbn.
  - intros id r'. rewrite lookup_insert_Some. intros [[<- <-]|[_ H]]; eauto.
  - assert (∀ id r' ws key, certificate_jobs d !! id = Some r' → has_key ws key r → ¬ has_key ws key r') as Hno.
    { intros id r' ws key Hr' [<- Hkey]. eapply find_by_key_None; [|done]. by apply Hk. }
    intros id1 id2 r1 r2 ws key. rewrite !lookup_insert_Some.
    intros [[<- <-]|[_ E1]] [[<- <-]|[_ E2]] K1 K2; [done|..|eauto].
    + by destruct (Hno _ _ _ _ E2 K1).
    + by destruct (Hno _ _ _ _ E1 K2).
Qed.
Lemma inserts_grows P d d' : inserts P d d' → grows d d'.
Proof.
  intros [->|(r & _ & Hf & Hk & ->)]; [done|]. split; [by apply insert_table_ok|].
  intros id r' H. exists r'. cbn. split; [|done].
  rewrite lookup_insert_ne; [done|]. intros <-. congruence.
Qed.
Lemma insert_job_inserts (P : row → Prop) r d : P r → inserts P d (insert_job r d).1.
Proof.
  intros HP. unfold insert_job. destruct (certificate_jobs d !! r_id r) eqn:Ei; [by left|].
  destruct (r_idempotencyKey r) as [key|] eqn:Ek; cbn.
  - destruct (find_by_key _ _ _) eqn:Ef; cbn; [by left|].
    right. exists r. repeat split; try done. intros k [= <-]%(eq_trans (eq_sym Ek)). done.
  - right. exists r. repeat split; try done. intros k. congruence.
Qed.
Lemma insert_job_result r d x : (insert_job r d).2 = Ok (Some x) →
  x = r ∧ certificate_jobs (insert_job r d).1 !! r_id r = Some r.
Proof.
  unfold insert_job. destruct (certificate_jobs d !! r_id r); [done|].
  destruct (r_idempotencyKey r ≫= _); [done|]. intros [= <-]. cbn. by rewrite lookup_insert_eq.
Qed.

(** * What is admitted *)

Section lawful.
Context {dp : DateParse} {sv : Services}.
Notation prog := (prog db job_error).
Notation executable := (executable (λ s, u_protocol <$> parse_url s)).

(** An object that crossed the public metadata boundary, with the mode of the
    job set in it: twelve levels at most, and at none of them a forbidden field
    name, key material or an unredacted secret. *)
Definition public_payload (mode : job_mode) (payload : jsval) : Prop :=
  ∃ fs, payload = Obj (assoc_set "mode" (Str (enum_name JOB_MODE_SET mode)) fs) ∧
    ∀ n x, Jobs.within n x (Obj fs) →
      (n <= 12)%nat ∧ clean containsPrivateKeyMaterial assertNoUnredacted looksPrivate looksGeneric x.
(** What holds of a prepared job whatever the caller asked for.  [forced] are
    the workspaces whose certops_require_approval_always is on. *)
Record lawful (forced : string → Prop) (options : jsval) (p : prepared) : Prop := {
  law_approval : forced (p_workspaceId p) → q_operation (p_request p) ≠ protocol_smoke →
    q_status (p_request p) = pending_approval;
  law_requested : get "requiresApproval" options = Bool true →
    q_status (p_request p) = pending_approval;
  law_smoke : q_operation (p_request p) = protocol_smoke →
    q_mode (p_request p) = dry_run ∧ get "allowDiagnosticOperation" options = Bool true;
  law_mode : assertModeAllowsTerminalStatus (q_mode (p_request p)) (q_status (p_request p)) = Ok tt;
  law_trust : isTrustAnchorOperation (q_operation (p_request p)) = true ↔
    q_subjectType (p_request p) = Some "trust_anchor";
  law_automation : q_source (p_request p) = automation →
    isTrustAnchorOperation (q_operation (p_request p)) = false;
  law_lane : executorKind (p_routing p) = controller ↔ q_source (p_request p) = controller_provisioning;
  law_subject : (is_Some (q_subjectType (p_request p)) ↔ is_Some (q_subjectId (p_request p))) ∧
    (q_operation (p_request p) ∈ SUBJECT_REQUIRED_OPERATIONS → is_Some (q_subjectType (p_request p)));
  law_issuer : q_status (p_request p) = awaiting_issuer → truthy (get "enrollmentId" options) = true;
  law_public : public_payload (q_mode (p_request p)) (q_payload (p_request p));
  law_payload : executable (q_payload (p_request p)) (q_operation (p_request p)) ∧
    get "mode" (q_payload (p_request p)) = Str (enum_name JOB_MODE_SET (q_mode (p_request p)));
  law_key : normalizeWorkspaceId (get "workspaceId" options) = Ok (p_workspaceId p) ∧
    normalizeOptionalShortText containsPrivateKeyMaterial assertNoUnredacted looksPrivate looksGeneric
      (get "idempotencyKey" options) = Ok (p_idempotencyKey p) }.

Lemma normalizeEnum_forced {A} (names : list (string * A)) code fallback s a :
  normalizeEnum names code fallback (Str s) = Ok a → assoc_get (trim s) names = Some a.
Proof. unfold normalizeEnum. destruct fallback, (assoc_get _ _); congruence. Qed.
Lemma status_pending code fallback v a :
  normalizeEnum JOB_STATUS_SET code fallback v = Ok a →
  v = Str "pending_approval" ∨ nullish v = true ∧ fallback = Some "pending_approval" →
  a = pending_approval.
Proof.
  intros H [->|[Hn ->]].
  - apply normalizeEnum_forced in H. vm_compute in H. congruence.
  - destruct v; try done; vm_compute in H; congruence.
Qed.
Lemma is_true_spec v : is_true v = true ↔ v = Bool true.
Proof. destruct v as [| |[]| | | |]; cbn; naive_solver. Qed.
Lemma smoke_mode a : normalizeJobMode (Str "dry_run") = Ok a → a = dry_run.
Proof. vm_compute. congruence. Qed.
Lemma normalizePublicObject_obj v p :
  normalizePublicObject containsPrivateKeyMaterial assertNoUnredacted looksPrivate looksGeneric v = Ok p →
  ∃ fs, p = Obj fs.
Proof.
  destruct v as [| |b|n|s|l|fs]; try done; [intros [= <-]; by eexists..|].
  cbn [normalizePublicObject]. intros (u & _ & H)%bind_ok. cbn in H.
  apply bind_ok in H as (fs' & _ & [= <-]). by eexists.
Qed.
Lemma subject_lawful options operation st :
  normalizeSubject options operation = Ok st →
  (is_Some st.1 ↔ is_Some st.2) ∧ (operation ∈ SUBJECT_REQUIRED_OPERATIONS → is_Some st.1) ∧
  (isTrustAnchorOperation operation = true ↔ st.1 = Some "trust_anchor").
Proof.
  unfold normalizeSubject. intros (t & _ & (i & _ & H)%bind_ok)%bind_ok.
  apply bind_ok in H as (? & H1%ensure_ok & (? & H2%ensure_ok & (? & H3%ensure_ok & [= <-])%bind_ok)%bind_ok).
  apply eqb_prop in H1, H3. cbn. split; [|split].
  - destruct t, i; [|discriminate H1|discriminate H1|]; split; intros [? [=]]; by eexists.
  - intros Ho. apply orb_prop in H2 as [H2|H2]; [by apply bool_decide_eq_true in H2|].
    apply negb_true_iff, bool_decide_eq_false in H2. done.
  - rewrite H3. apply bool_decide_eq_true.
Qed.
Lemma routing_lawful options source payload auto r :
  resolveExecutorKindAndRouting options source payload auto = Ok r →
  executorKind r = controller ↔ source = controller_provisioning.
Proof.
  unfold resolveExecutorKindAndRouting. intros (k & _ & (? & He%ensure_ok & H)%bind_ok)%bind_ok.
  apply eqb_prop in He.
  repeat match type of H with
         | (let '_ := ?x in _) = _ => destruct x as [[[? ?] ?] ?]
         | _ ≫= _ = Ok _ => apply bind_ok in H as (? & _ & H)
         end.
  injection H as <-. cbn.
  rewrite <- (bool_decide_eq_true (k = controller)), <- He. apply bool_decide_eq_true.
Qed.
Lemma defaults_reads_only ws source op st sid payload a :
  reads_only (resolveManagedCertificateJobDefaults ws source op st sid payload a).
Proof.
  unfold resolveManagedCertificateJobDefaults. destruct (_ || _); [by split|].
  destruct (_ || _); [done|]. destruct (is_uuid_subject st sid) as [id|]; [|done].
  apply reads_only_bind; [by split|]. intros [r|]; [|done].
  apply reads_only_bind; [done|]. intros _.
  repeat case_match; try done; (apply reads_only_bind; [by split|done]).
Qed.
Lemma deploy_reads_only ws op (x : option string) :
  reads_only (match x with
              | Some id => if bool_decide (op = deploy_from_store)
                           then assertDeployFromStoreIdentityAllowsMutation ws id else mret tt
              | None => mret tt
              end).
Proof.
  destruct x; [|done]. case_bool_decide; [|done]. apply reads_only_bind; [by split|done].
Qed.

Section prepared.
Context (R G : db → db → Prop) {HRr : Reflexive R} {HRt : Transitive R} {HG : Reflexive G}.
Context (forced : string → Prop).
Hypothesis Hstable : ∀ d d' ws, R d d' → forced ws → select_requires_approval ws d = true →
  select_requires_approval ws d' = true.

Tactic Notation "next" simple_intropattern(a) simple_intropattern(H) :=
  apply holds_lift; [exact _..|intros a H|done].
Ltac silent := apply holds_silent; [exact _..| |intros ? ? ?|done].
Lemma prepare_lawful now options d :
  (∀ ws, forced ws → select_requires_approval ws d = true) →
  holds R G (λ _ r, match r with Ok p => lawful forced options p | Err _ => True end)
    (prepare_job now options) d.
Proof.
  intros Hd. unfold prepare_job. cbv zeta.
  next ? H0. next ws Hws. next op Hop. next ? Hentry.
  apply holds_bind with
    (Q1 := λ _ r, ∀ b, r = Ok b → forced ws → op ≠ protocol_smoke → b = true); [| |done|exact _].
  { case_bool_decide as Hs; [intros ? _ b [= <-]; done|].
    unfold resolveWorkspaceRequiresApprovalAlways. apply holds_read; [exact _..| |].
    2:{ intros d2 e b [=]. }
    intros d' HR. apply holds_ret. intros d2 b [= <-] Hf _.
    by rewrite (Hstable _ _ _ HR Hf (Hd ws Hf)). }
  intros d1 forces Hforces. specialize (Hforces forces eq_refl).
  next ? Hper. apply ensure_ok in Hper. next status Hst. next ? Hissuer. next mode Hm. next source Hsrc.
  next ? Haut. next subject Hsub. next user ?. next token ?. next key Hkey. next public Hpub.
  next [] Hfields. next ? ?. next ? Hmode.
  silent; [apply deploy_reads_only|]. silent; [apply defaults_reads_only|].
  next routing Hr. next ? ?. next rm ?. next ec ?. next em ?. next ex ?.
  apply holds_ret. intros _.
  destruct (subject_lawful _ _ _ Hsub) as (Hs1 & Hs2 & Hs3).
  split; cbn [p_request p_workspaceId p_routing p_idempotencyKey q_operation q_status q_mode q_source
              q_subjectType q_subjectId q_payload].
  - intros Hf Hns. rewrite (Hforces Hf Hns) in Hst. eapply status_pending; [exact Hst|by left].
  - intros Hreq. apply is_true_spec in Hreq. rewrite Hreq in Hper, Hst. cbn [negb orb] in Hper, Hst.
    eapply status_pending; [exact Hst|]. destruct forces; [by left|].
    apply orb_prop in Hper as [Hn|Hv]; [by right|left].
    by apply is_str_spec.
  - intros ->. cbn in Hentry. apply bind_ok in Hentry as (? & He%ensure_ok & _).
    rewrite bool_decide_eq_true_2 in Hm by done. split; [by apply smoke_mode|by apply is_true_spec].
  - by destruct (assertModeAllowsTerminalStatus mode status) as [[]|].
  - done.
  - intros ->. apply ensure_ok in Haut. by apply negb_true_iff in Haut.
  - by eapply routing_lawful.
  - by split.
  - intros ->. apply ensure_ok in Hissuer. done.
  - destruct (normalizePublicObject_obj _ _ Hpub) as [fs ->]. exists fs. split; [done|].
    by apply public_object_within in Hpub as [_ ?].
  - destruct (normalizePublicObject_obj _ _ Hpub) as [fs ->]. split.
    + by apply validateExecutionFields_ok in Hfields as [? _].
    + cbn. by rewrite assoc_get_set_eq.
  - done.
Qed.
End prepared.
End lawful.

(** * Concurrent creation *)

Lemma identity_reads_only {sv : Services} ws q r : reads_only (assert_identity ws q r).
Proof.
  unfold assert_identity. destruct (is_uuid_subject _ _); [|done].
  case_bool_decide; [|done]. apply reads_only_bind; [by split|done].
Qed.
Lemma capacity_reads_only {sv : Services} env o ws q : reads_only (assert_capacity env o ws q).
Proof.
  unfold assert_capacity. case_bool_decide; [|done]. apply reads_only_bind; [by split|done].
Qed.

Section concurrent.
Context {dp : DateParse} {sv : Services}.
Notation executable := (executable (λ s, u_protocol <$> parse_url s)).

(** What holds of a row that a call with [options] inserts, [freshId] being
    what gen_random_uuid() gave it. *)
Definition row_lawful (forced : string → Prop) (freshId : string) (options : jsval) (r : row) : Prop :=
  r_id r = freshId ∧
  normalizeWorkspaceId (get "workspaceId" options) = Ok (r_workspaceId r) ∧
  normalizeOptionalShortText containsPrivateKeyMaterial assertNoUnredacted looksPrivate looksGeneric
    (get "idempotencyKey" options) = Ok (r_idempotencyKey r) ∧
  (∃ m, r_mode r = Some m ∧ public_payload m (r_payload r)) ∧
  (forced (r_workspaceId r) → r_operation r ≠ protocol_smoke → r_status r = pending_approval) ∧
  (r_operation r = protocol_smoke → r_mode r = Some dry_run) ∧
  (∃ m, r_mode r = Some m ∧ assertModeAllowsTerminalStatus m (r_status r) = Ok tt ∧
     get "mode" (r_payload r) = Str (enum_name JOB_MODE_SET m)) ∧
  (isTrustAnchorOperation (r_operation r) = true ↔ r_subjectType r = Some "trust_anchor") ∧
  (r_source r = automation → isTrustAnchorOperation (r_operation r) = false) ∧
  (executorKind (r_routing r) = controller ↔ r_source r = controller_provisioning) ∧
  (is_Some (r_subjectType r) ↔ is_Some (r_subjectId r)) ∧
  (r_operation r ∈ SUBJECT_REQUIRED_OPERATIONS → is_Some (r_subjectType r)) ∧
  (r_status r = awaiting_issuer → truthy (r_enrollmentId r) = true) ∧
  executable (r_payload r) (r_operation r).
Lemma new_row_lawful forced options freshId p connection :
  lawful forced options p →
  row_lawful forced freshId options (new_row freshId p connection (get "enrollmentId" options)).
Proof.
  intros H. destruct (law_subject _ _ _ H) as [Hs1 Hs2]. destruct (law_payload _ _ _ H) as [Hp1 Hp2].
  destruct (law_key _ _ _ H) as [Hk1 Hk2].
  unfold row_lawful, new_row. cbn. split; [done|]. split; [done|]. split; [done|].
  split; [eexists; split; [done|by eapply law_public]|]. repeat split.
  - by apply (law_approval _ _ _ H).
  - intros Ho. by rewrite (proj1 (law_smoke _ _ _ H Ho)).
  - exists (q_mode (p_request p)). split; [done|]. split; [by eapply law_mode|done].
  - by apply (law_trust _ _ _ H).
  - by apply (law_trust _ _ _ H).
  - by apply (law_automation _ _ _ H).
  - by apply (law_lane _ _ _ H).
  - by apply (law_lane _ _ _ H).
  - by apply Hs1.
  - by apply Hs1.
  - done.
  - intros Ht. unfold js_or. by rewrite !(law_issuer _ _ _ H Ht).
  - by apply Hp1.
  - by apply Hp1.
  - by apply Hp1.
  - by apply Hp1.
  - by apply Hp1.
Qed.

Context (forced : string → Prop).

(** The others: rows keep their creation columns, and approval stays required
    where it is. *)
Definition rely (d d' : db) : Prop :=
  grows d d' ∧
  ∀ ws, forced ws → select_requires_approval ws d = true → select_requires_approval ws d' = true.
#[global] Instance rely_refl : Reflexive rely.
Proof. by split. Qed.
#[global] Instance rely_trans : Transitive rely.
Proof. intros a b c [H1 H2] [H3 H4]. split; [by transitivity b|]. eauto. Qed.

Definition stored (d : db) (job : row) : Prop :=
  ∃ r', certificate_jobs d !! r_id job = Some r' ∧ same_creation job r'.
Lemma stored_grows d d' job : grows d d' → stored d job → stored d' job.
Proof.
  intros [_ H] (r & Hr & Hs). destruct (H _ _ Hr) as (r' & Hr' & Hs'). exists r'. split; [done|].
  by transitivity r.
Qed.
Context (freshId : string) (options : jsval).
Definition guarantee : db → db → Prop := inserts (row_lawful forced freshId options).
Lemma guarantee_rely d d' : guarantee d d' → rely d d'.
Proof. intros H. split; [by eapply inserts_grows|]. by destruct H as [->|(r & _ & _ & _ & ->)]. Qed.
(** What a call's result tells: the job is in the table, under the call's
    workspace and idempotency key, and it is new only if it is this call's. *)
Definition call_ok (d : db) (r : result job_error (row * bool)) : Prop :=
  match r with
  | Err _ => True
  | Ok (job, created) =>
      (created = true → r_id job = freshId) ∧
      normalizeWorkspaceId (get "workspaceId" options) = Ok (r_workspaceId job) ∧
      normalizeOptionalShortText containsPrivateKeyMaterial assertNoUnredacted looksPrivate looksGeneric
        (get "idempotencyKey" options) = Ok (r_idempotencyKey job) ∧
      stored d job
  end.
Lemma rely_ok d d' : table_ok d → rely d d' → table_ok d'.
Proof. intros H [[H' _] _]. auto. Qed.

Lemma replay_holds ws key q d : table_ok d →
  holds rely guarantee (λ d r, match r with
    | Ok (Some job) => r_workspaceId job = ws ∧ r_idempotencyKey job = key ∧ stored d job
    | _ => True
    end) (replay ws key q) d.
Proof.
  intros Hd. destruct key as [key|]; [|by intros d' _].
  apply holds_read; [exact _..| |done]. intros d1 HR.
  destruct (find_by_key _ _ _) as [job|] eqn:E; [|by intros d' _].
  apply holds_lift; [|done]. intros [] _; [|by intros d' _].
  intros d2 [HR2 _]. apply find_by_key_Some in E as (id & Hr & Hk1 & Hk2).
  split; [done|]. split; [done|]. apply (stored_grows d1); [done|].
  exists job. by rewrite (ids_ok _ (rely_ok _ _ Hd HR) _ _ Hr).
Qed.
Lemma insert_holds p r d : lawful forced options p → table_ok d →
  (∃ connection, r = new_row freshId p connection (get "enrollmentId" options)) →
  holds rely guarantee call_ok (insert_or_replay p r) d.
Proof.
  intros Hp Hd [connection ->]. set (r := new_row _ _ _ _). unfold insert_or_replay.
  destruct (law_key _ _ _ Hp) as [Hws Hkey].
  assert (∀ d', guarantee d' (insert_job r d').1) as HG.
  { intros d'. by apply insert_job_inserts, new_row_lawful. }
  intros d1 HR. cbn [mbind prog_bind prog_bind_ query]. split; [done|].
  split; [|by intros e; split; intros d' _].
  pose proof (rely_ok _ _ Hd HR) as Hd1.
  pose proof (rely_ok _ _ Hd1 (guarantee_rely _ _ (HG d1))) as Hd2.
  destruct (insert_job r d1).2 as [[job|]|e] eqn:E; cbn [mbind prog_bind prog_bind_].
  - apply insert_job_result in E as [-> E].
    assert (stored (insert_job r d1).1 r) as Hst by (by exists r).
    apply holds_silent; [exact _..| | |done].
    + by destruct (truthy _).
    + intros d3 _ [HR3 _] d4 [HR4 _]. split; [done|]. split; [done|]. split; [done|].
      apply (stored_grows d3); [done|]. by apply (stored_grows _ _ _ HR3).
  - eapply holds_bind; [by apply replay_holds| |done|exact _].
    intros d3 [job|]; [|by intros _ d' _]. intros (Hw & Hk & Hst) d4 [HR4 _].
    split; [done|]. rewrite Hw, Hk. split; [done|]. split; [done|]. by apply (stored_grows d3).
  - by intros d' _.
Qed.
Lemma create_holds env now d : table_ok d →
  (∀ ws, forced ws → select_requires_approval ws d = true) →
  holds rely guarantee call_ok (createCertificateJob env now freshId options) d.
Proof.
  intros Hd Hf. unfold createCertificateJob.
  eapply holds_bind; [| |done|exact _].
  { apply holds_since; [exact _|apply guarantee_rely|done|].
    by apply (prepare_lawful rely guarantee forced); [intros ? ? ? [_ H]; apply H|]. }
  intros d1 p [HR1 Hp]. pose proof (rely_ok _ _ Hd HR1) as Hd1.
  destruct (law_key _ _ _ Hp) as [Hws Hkey]. cbv zeta.
  eapply holds_bind; [|cbn beta|done|exact _].
  { apply holds_since; [exact _|apply guarantee_rely|done|by apply replay_holds]. }
  intros d2 [job|] [HR2 Hjob].
  { destruct Hjob as (Hw & Hk & Hst). intros d3 [HR3 _]. split; [done|]. rewrite Hw, Hk.
    split; [done|]. split; [done|]. by apply (stored_grows d2). }
  apply holds_silent; [exact _..|apply identity_reads_only| |done]. intros d3 _ HR3.
  apply holds_silent; [exact _..|apply capacity_reads_only| |done]. intros d4 _ HR4.
  apply holds_lift; [|done]. intros connection _.
  assert (table_ok d4) as Hd4
    by (apply (rely_ok d3); [apply (rely_ok d2); [by apply (rely_ok d)|done]|done]).
  apply holds_catch with (Q1 := λ d' r, rely d4 d' ∧ call_ok d' r); [| |by intros ? ? [_ ?]|exact _].
  { apply holds_since; [exact _|apply guarantee_rely|done|]. apply insert_holds; [done..|by eexists]. }
  intros d5 e [HR5 _]. destruct (p_idempotencyKey p) as [key|] eqn:Ekey; [|by intros d' _].
  destruct (job_error_is_unique e); [|by intros d' _].
  eapply holds_bind; [apply replay_holds; by apply (rely_ok d4)| |done|exact _].
  intros d6 [job|]; [|by intros _ d' _]. intros (Hw & Hk & Hst) d7 [HR7 _].
  split; [done|]. rewrite Hw, Hk. split; [done|]. split; [done|]. by apply (stored_grows d6).
Qed.
End concurrent.

(** * The registry of idempotency keys *)

(** The abstract specification: (workspace, key) is registered once, for the
    job that answers every request with that key. *)
Definition registry (d : db) (k : string * string) : option string :=
  match find_by_key k.1 k.2 (certificate_jobs d) with Some r => Some (r_id r) | None => None end.
Inductive reg_step (a a' : string * string → option string) : Prop :=
| reg_silent : (∀ k, a' k = a k) → reg_step a a'
| reg_first k id : a k = None → a' k = Some id → (∀ k', k' ≠ k → a' k' = a k') → reg_step a a'.

Lemma registry_Some d k id : table_ok d →
  registry d k = Some id ↔ ∃ r, certificate_jobs d !! id = Some r ∧ has_key k.1 k.2 r.
Proof.
  intros Hd. unfold registry. split.
  - destruct (find_by_key _ _ _) as [r|] eqn:E; [|done]. intros [= <-].
    apply find_by_key_Some in E as (id & Hr & Hk). exists r. by rewrite (ids_ok _ Hd _ _ Hr).
  - intros (r & Hr & Hk). rewrite (find_by_key_unique _ _ _ _ _ Hd Hr Hk).
    by rewrite (ids_ok _ Hd _ _ Hr).
Qed.
Lemma registry_write_once d d' k id : table_ok d → grows d d' →
  registry d k = Some id → registry d' k = Some id.
Proof.
  intros Hd [Ht Hg]. rewrite !registry_Some by auto. intros (r & Hr & Hk).
  destruct (Hg _ _ Hr) as (r' & Hr' & Hs). exists r'. split; [done|]. by apply (same_creation_key _ _ _ _ Hs).
Qed.
Lemma inserts_reg_step P d d' : table_ok d → inserts P d d' → reg_step (registry d) (registry d').
Proof.
  intros Hd Hi. pose proof (inserts_grows _ _ _ Hi) as [Ht _]. specialize (Ht Hd).
  destruct Hi as [->|(r & _ & Hf & Hk & ->)]; [by apply reg_silent|].
  set (d' := with_jobs _ _) in *.
  assert (∀ k, ¬ has_key k.1 k.2 r → registry d' k = registry d k) as Hsame.
  { intros k Hn. apply option_eq. intros id. rewrite !registry_Some by done. cbn.
    setoid_rewrite lookup_insert_Some. split; [|naive_solver].
    intros (r' & [[<- <-]|[_ H]] & Hk'); [done|by exists r']. }
  destruct (r_idempotencyKey r) as [key|] eqn:Ekey.
  - apply (reg_first _ _ (r_workspaceId r, key) (r_id r)).
    + unfold registry. cbn. by rewrite Hk.
    + apply registry_Some; [done|]. exists r. cbn. by rewrite lookup_insert_eq.
    + intros [w k] Hne. apply Hsame. intros [Hw Hk2]. cbn in *. apply Hne. congruence.
  - apply reg_silent. intros k. apply Hsame. intros [_ H]. congruence.
Qed.

(** * Theorems: any callers, any interleaving, any connection failures *)

Section theorems.
Context {dp : DateParse} {sv : Services}.

(** One request to the service: the environment and time it reads, and the id
    the database would give its row. *)
Record call := mkCall { c_env : option string; c_now : Z; c_freshId : string; c_options : jsval }.
Definition start (c : call) : prog db job_error (row * bool) :=
  createCertificateJob (c_env c) (c_now c) (c_freshId c) (c_options c).

Lemma calls_hold forced calls d d' ps' :
  table_ok d → (∀ ws, forced ws → select_requires_approval ws d = true) →
  rtc (interleave (rely forced)) (d, map start calls) (d', ps') →
  rely forced d d' ∧ table_ok d' ∧
  ∀ i p, ps' !! i = Some p → ∃ c, calls !! i = Some c ∧
    holds (rely forced) (guarantee forced (c_freshId c) (c_options c)) (call_ok (c_freshId c) (c_options c)) p d'.
Proof.
  intros Hd Hf Hr.
  destruct (interleaving_sound (rely forced)
    (λ i, match calls !! i with Some c => guarantee forced (c_freshId c) (c_options c) | None => λ _ _, False end)
    (λ i, match calls !! i with Some c => call_ok (c_freshId c) (c_options c) | None => λ _ _, True end)
    (rely forced) d (map start calls) d' ps') as [HR H].
  - exact _.
  - exact _.
  - intros i a b. destruct (calls !! i); [apply guarantee_rely|done].
  - auto.
  - intros i p. rewrite list_lookup_fmap. destruct (calls !! i) as [c|] eqn:E; [|done].
    intros Hp. assert (p = start c) as -> by (by injection Hp).
    exact (create_holds forced (c_freshId c) (c_options c) (c_env c) (c_now c) d Hd Hf).
  - exact Hr.
  - split; [done|]. split; [by eapply rely_ok|]. intros i p Hi. specialize (H i p Hi).
    destruct (calls !! i) as [c|] eqn:E; [by exists c|].
    apply interleave_length in Hr. cbn in Hr. rewrite length_map in Hr.
    apply lookup_lt_Some in Hi. apply lookup_ge_None in E. lia.
Qed.
End theorems.

(** Any other code: rows keep the columns of their creation. *)
Definition other_code {sv : Services} : db → db → Prop := rely (λ _, False).

(** C31: job creation implements a write-once registry of idempotency keys.
    While any number of calls run interleaved with any other code, and their
    connections fail anywhere, before or after a statement took effect: a
    registered key keeps its job; a call's next statement registers at most
    one key, which was free; and every call that returned a job for a key
    returned the registered one. *)
Theorem creation_refines_registry {dp : DateParse} {sv : Services} (calls : list call) (d d' : db)
    (ps : list (prog db job_error (row * bool))) :
  table_ok d → rtc (interleave other_code) (d, map start calls) (d', ps) →
  (∀ k id, registry d k = Some id → registry d' k = Some id) ∧
  (∀ i p d2 p2, ps !! i = Some p → prog_step d' p d2 p2 → reg_step (registry d') (registry d2)) ∧
  (∀ i job created key, ps !! i = Some (Ret (Ok (job, created))) → r_idempotencyKey job = Some key →
     registry d' (r_workspaceId job, key) = Some (r_id job)).
Proof.
  intros Hd Hr. destruct (calls_hold (λ _, False) calls d d' ps) as ([HR _] & Hd' & H); [done..|].
  split; [intros k id; by apply registry_write_once|]. split.
  - intros i p d2 p2 Hi Hs. destruct (H i p Hi) as (c & _ & Hp).
    destruct (holds_step _ _ _ _ _ _ _ _ Hp Hs) as [[->|HG] _]; [by apply reg_silent|].
    by eapply inserts_reg_step.
  - intros i job created key Hi Hk. destruct (H i _ Hi) as (c & _ & Hp).
    destruct (Hp d') as (_ & _ & _ & r' & Hr' & Hs); [done|].
    apply registry_Some; [done|]. exists r'. split; [done|].
    apply (same_creation_key _ _ _ _ Hs). by split.
Qed.

(** One job per idempotency key.  Of any calls running interleaved, those
    that name the same workspace and key and return a job return the same job,
    and at most one of them reports that it created it. *)
Theorem one_job_per_idempotency_key {dp : DateParse} {sv : Services} (calls : list call) (d d' : db)
    (ps : list (prog db job_error (row * bool))) i j ci cj job_i job_j created_i created_j key :
  table_ok d → NoDup (map c_freshId calls) →
  rtc (interleave other_code) (d, map start calls) (d', ps) →
  calls !! i = Some ci → calls !! j = Some cj →
  get "workspaceId" (c_options ci) = get "workspaceId" (c_options cj) →
  get "idempotencyKey" (c_options ci) = get "idempotencyKey" (c_options cj) →
  ps !! i = Some (Ret (Ok (job_i, created_i))) → ps !! j = Some (Ret (Ok (job_j, created_j))) →
  r_idempotencyKey job_i = Some key →
  r_id job_i = r_id job_j ∧ (created_i = true → created_j = true → i = j).
Proof.
  intros Hd Hnd Hr Hci Hcj Ew Ek Hi Hj Hkey.
  destruct (calls_hold (λ _, False) calls d d' ps) as ([HR _] & Hd' & H); [done..|].
  destruct (H i _ Hi) as (ci' & Hci' & Hpi). destruct (H j _ Hj) as (cj' & Hcj' & Hpj).
  assert (ci' = ci) as -> by congruence. assert (cj' = cj) as -> by congruence.
  destruct (Hpi d') as (Hfi & Hwi & Hki & ri & Hri & Hsi); [done|].
  destruct (Hpj d') as (Hfj & Hwj & Hkj & rj & Hrj & Hsj); [done|].
  assert (r_id job_i = r_id job_j) as E.
  { eapply (keys_unique d' Hd' _ _ ri rj (r_workspaceId job_i) key); [done..| |].
    - apply (same_creation_key _ _ _ _ Hsi). by split.
    - apply (same_creation_key _ _ _ _ Hsj). split; congruence. }
  split; [done|]. intros H1 H2. specialize (Hfi H1). specialize (Hfj H2).
  eapply (NoDup_lookup (map c_freshId calls)); [done|..].
  - rewrite list_lookup_fmap, Hci. cbn. reflexivity.
  - rewrite list_lookup_fmap, Hcj. cbn. congruence.
Qed.

(** C32: no job enters unlawfully.  Whatever the options of any calls, and
    however they interleave with code that leaves certops_require_approval_always
    on where it is on: a statement of a call leaves the tables as they are or
    inserts one row under a free id.  The row has the workspace and the
    idempotency key of the call's own request; its payload crossed the public
    metadata boundary, with the job's mode set in it, and is one its operation
    can execute; in a workspace that requires approval the row waits for it
    unless it is a diagnostic; a diagnostic is a dry run; a dry run never
    starts as succeeded; trust-anchor jobs have trust-anchor subjects and are
    never created by automation; and the controller lane is exactly that of
    controller provisioning. *)
Theorem rows_enter_lawfully {dp : DateParse} {sv : Services} (forced : string → Prop)
    (calls : list call) (d d1 : db) (ps : list (prog db job_error (row * bool))) i p d2 p2 :
  table_ok d → (∀ ws, forced ws → select_requires_approval ws d = true) →
  rtc (interleave (rely forced)) (d, map start calls) (d1, ps) →
  ps !! i = Some p → prog_step d1 p d2 p2 →
  d2 = d1 ∨
  ∃ c r, calls !! i = Some c ∧ row_lawful forced (c_freshId c) (c_options c) r ∧
    certificate_jobs d1 !! r_id r = None ∧
    d2 = with_jobs (<[r_id r := r]> (certificate_jobs d1)) d1.
Proof.
  intros Hd Hf Hr Hi Hs. destruct (calls_hold forced calls d d1 ps) as (_ & _ & H); [done..|].
  destruct (H i p Hi) as (c & Hc & Hp).
  destruct (holds_step _ _ _ _ _ _ _ _ Hp Hs) as [[->|[->|(r & Hl & Hn & _ & ->)]] _]; [by left..|].
  right. by exists c, r.
Qed.


(** * An execution: two callers, one key *)

Definition cert_id : string := "11111111-2222-3333-4444-555555555555".
Definition demo_db : db :=
  mkDb {["w1" := true]}
    {[("w1", cert_id) := mkMc (Some "agent-local") (Some "active") (Some "active")
                           (Some "agent_filesystem") None (Some "host-a") None]}
    {[("w1", "host-a") := "agent-7"]} ∅ ∅.
Definition demo_options (assigned : jsval) : jsval :=
  Obj [("workspaceId", Str "w1"); ("operation", Str "renew"); ("status", Str "running");
       ("subjectType", Str "managed_certificate"); ("subjectId", Str cert_id);
       ("idempotencyKey", Str "k1"); ("assignedAgentId", assigned);
       ("payload", Obj [("caEndpoint", Str "https://ca.example/dir")])].
Definition demo_calls : list call :=
  [mkCall None 1767225600000 "job-1" (demo_options Undef);
   mkCall None 1767225700000 "job-2" (demo_options (Str "agent-9"))].
Definition demo_start : call → prog db job_error (row * bool) := @start iso_date_parse demo_services.
(** Each call runs undisturbed, one after the other. *)
Definition demo_run (i : nat) (c : call) (x : db * list (prog db job_error (row * bool)))
  : db * list (prog db job_error (row * bool)) :=
  ((run (demo_start c) x.1).1, <[i := Ret (run (demo_start c) x.1).2]> x.2).
Definition demo_first : db * list (prog db job_error (row * bool)) :=
  demo_run 0 (mkCall None 1767225600000 "job-1" (demo_options Undef)) (demo_db, map demo_start demo_calls).
Definition demo_end : db * list (prog db job_error (row * bool)) :=
  demo_run 1 (mkCall None 1767225700000 "job-2" (demo_options (Str "agent-9"))) demo_first.
Lemma demo_db_ok : table_ok demo_db.
Proof. split; intros *; cbn; by rewrite lookup_empty. Qed.
Lemma demo_reaches env : rtc (interleave env) (demo_db, map demo_start demo_calls) demo_end.
Proof. transitivity demo_first; by apply run_interleave. Qed.
(** The job a finished call returned. *)
Definition returned (i : nat) (x : db * list (prog db job_error (row * bool))) : option (row * bool) :=
  match x.2 !! i with Some (Ret (Ok r)) => Some r | _ => None end.
Definition demo_job (i : nat) : row :=
  match returned i demo_end with Some r => r.1 | None => mkRow "" "" noop pending None api
    (mkRouting agent None None None None) None None None None None None Undef Undef None None
    (mkLifecycle None None None None) None Undef end.
Lemma creation_refines_registry_witness :
  registry demo_end.1 ("w1", "k1") = Some "job-1" ∧ r_status (demo_job 1) = pending_approval.
Proof.
  split; [|vm_compute; reflexivity].
  destruct (@creation_refines_registry iso_date_parse demo_services demo_calls demo_db demo_end.1 demo_end.2)
    as (_ & _ & H); [apply demo_db_ok|apply demo_reaches|].
  exact (H 1%nat (demo_job 1) false "k1" ltac:(vm_compute; reflexivity) ltac:(vm_compute; reflexivity)).
Defined.
Lemma one_job_per_idempotency_key_witness :
  r_id (demo_job 0) = r_id (demo_job 1) ∧ assignedAgentId (r_routing (demo_job 1)) = Some "agent-7".
Proof.
  split; [|vm_compute; reflexivity].
  apply (@one_job_per_idempotency_key iso_date_parse demo_services demo_calls demo_db demo_end.1 demo_end.2
    0 1 (mkCall None 1767225600000 "job-1" (demo_options Undef))
    (mkCall None 1767225700000 "job-2" (demo_options (Str "agent-9")))
    (demo_job 0) (demo_job 1) true false "k1" demo_db_ok); try reflexivity.
  - apply (bool_decide_unpack _). vm_compute. exact I.
  - apply demo_reaches.
Defined.
(** The first call up to its insert, and the insert. *)
Definition demo_p : prog db job_error (row * bool) :=
  demo_start (mkCall None 1767225600000 "job-1" (demo_options Undef)).
Definition demo_before : db * prog db job_error (row * bool) := advance 6 demo_p demo_db.
Definition demo_after : db * prog db job_error (row * bool) := advance 7 demo_p demo_db.
Lemma rows_enter_lawfully_witness :
  ∃ r, @row_lawful demo_services (λ ws, ws = "w1") "job-1" (demo_options Undef) r ∧
    certificate_jobs demo_after.1 !! "job-1" = Some r ∧
    r_status r = pending_approval.
Proof.
  destruct (@rows_enter_lawfully iso_date_parse demo_services (λ ws, ws = "w1") demo_calls demo_db
    demo_before.1 (<[0%nat := demo_before.2]> (map demo_start demo_calls)) 0 demo_before.2
    demo_after.1 demo_after.2) as [E|(c & r & [= <-] & Hl & Hn & E)].
  - apply demo_db_ok.
  - intros ws ->. vm_compute. reflexivity.
  - by apply (advance_interleave _ 6).
  - reflexivity.
  - apply (stmt_runs (insert_job (demo_job 0))).
  - apply (f_equal (λ d, certificate_jobs d !! "job-1")) in E. vm_compute in E. discriminate E.
  - exists r. split; [done|].
    assert (certificate_jobs demo_after.1 !! "job-1" = Some (demo_job 0)) as Hj by (vm_compute; reflexivity).
    assert (r = demo_job 0) as ->; [|split; [done|vm_compute; reflexivity]].
    rewrite E in Hj. cbn in Hj. apply lookup_insert_Some in Hj as [[_ Hj]|[_ Hj]]; [done|].
    vm_compute in Hj. discriminate Hj.
Defined.
