(* ===== verification/JobReplay.v ===== *)
(** Job creation, undisturbed: replays of a request and the capacity of a CA.
    The calls are those of JobCreation, run to completion one at a time (the
    capacity check holds the CA's advisory lock to the end of its
    transaction). *)
From stdpp Require Import relations.
From S2P Require Import Prelude Dates Json Jobs JobFields RenewalCapacity Db JobRequest JobCreation.
Open Scope Z_scope.

(** * What a request is, given the options *)

Section determined.
Context {dp : DateParse} {sv : Services}.
Notation normalizePublicObject :=
  (normalizePublicObject containsPrivateKeyMaterial assertNoUnredacted looksPrivate looksGeneric).
Notation normalizeOptionalShortText :=
  (normalizeOptionalShortText containsPrivateKeyMaterial assertNoUnredacted looksPrivate looksGeneric).
Notation normalizeOptionalPublicText :=
  (normalizeOptionalPublicText containsPrivateKeyMaterial assertNoUnredacted looksPrivate looksGeneric).

Lemma flag_reads_only op ws v :
  reads_only (if bool_decide (op = protocol_smoke) then mret false
              else resolveWorkspaceRequiresApprovalAlways ws v).
Proof. case_bool_decide; [done|]. apply reads_only_bind; [by split|done]. Qed.
Lemma prepare_reads_only now options : reads_only (prepare_job now options).
Proof.
  unfold prepare_job. cbv zeta.
  repeat first
    [ exact I
    | apply reads_only_bind; [first
        [ exact I
        | apply deploy_reads_only
        | apply defaults_reads_only
        | apply flag_reads_only ]|intros ?] ].
Qed.

(** [flag]: whether the call found approval required in its workspace. *)
Definition effective_status (o : jsval) (flag : bool) (op : job_operation) : result job_error job_status :=
  let forces := negb (bool_decide (op = protocol_smoke))
                && (flag || is_true (get "workspaceRequiresApprovalAlways" o)) in
  normalizeEnum JOB_STATUS_SET CERTOPS_JOB_STATUS_INVALID
    (Some (if is_true (get "requiresApproval" o) || forces then "pending_approval" else "pending"))
    (if forces then Str "pending_approval" else get "status" o).
Record determined (o : jsval) (flag : bool) (p : prepared) : Prop := {
  det_ws : normalizeWorkspaceId (get "workspaceId" o) = Ok (p_workspaceId p);
  det_op : normalizeEnum JOB_OPERATION_SET CERTOPS_JOB_OPERATION_INVALID None
             (js_or (get "operation" o) (get "jobType" o)) = Ok (q_operation (p_request p));
  det_status : effective_status o flag (q_operation (p_request p)) = Ok (q_status (p_request p));
  det_mode : normalizeJobMode (if bool_decide (q_operation (p_request p) = protocol_smoke)
                               then Str "dry_run" else get "mode" o) = Ok (q_mode (p_request p));
  det_source : normalizeEnum JOB_SOURCE_SET CERTOPS_JOB_SOURCE_INVALID (Some "api") (get "source" o) =
             Ok (q_source (p_request p));
  det_subject : normalizeSubject o (q_operation (p_request p)) =
             Ok (q_subjectType (p_request p), q_subjectId (p_request p));
  det_user : normalizeRequesterIdentity (get "requestedByUserId" o) = Ok (q_requestedByUserId (p_request p));
  det_token : normalizeRequesterIdentity (get "requestedByApiTokenId" o) =
             Ok (q_requestedByApiTokenId (p_request p));
  det_key : normalizeOptionalShortText (get "idempotencyKey" o) = Ok (p_idempotencyKey p);
  det_payload : ∃ public, normalizePublicObject (get "payload" o) = Ok public ∧
    q_payload (p_request p) = match public with
      | Obj fs => Obj (assoc_set "mode" (Str (enum_name JOB_MODE_SET (q_mode (p_request p)))) fs)
      | v => v
      end;
  det_meta : normalizePublicObject (get "resultMetadata" o) = Ok (q_resultMetadata (p_request p));
  det_code : normalizeOptionalShortText (get "errorCode" o) = Ok (q_errorCode (p_request p));
  det_msg : normalizeOptionalPublicText (get "errorMessage" o) = Ok (q_errorMessage (p_request p));
  det_times : normalizeExplicitLifecycleTimestamps o = Ok (q_explicit (p_request p)) }.

Ltac pull H a E := apply run_lift_ok in H as (a & E & H).
Lemma prepare_determined now o d p : (run (prepare_job now o) d).2 = Ok p →
  determined o (select_requires_approval (p_workspaceId p) d) p.
Proof.
  unfold prepare_job. cbv zeta. intros H.
  pull H a0 E0. pull H ws Ews. pull H op Eop. pull H a1 E1.
  apply run_reads_ok in H as (forces & Ef & H); [|apply flag_reads_only].
  pull H a2 E2. pull H status Est. pull H a3 E3. pull H mode Em. pull H source Es. pull H a4 E4.
  pull H subject Esub. pull H user Eu. pull H token Et. pull H key Ek. pull H public Ep.
  pull H a5 E5. pull H a6 E6. pull H a7 E7.
  apply run_reads_ok in H as (a8 & _ & H); [|apply deploy_reads_only].
  apply run_reads_ok in H as (auto & _ & H); [|apply defaults_reads_only].
  pull H rt Er. pull H a9 E9. pull H rm Erm. pull H ec Eec. pull H em Eem. pull H tms Etms.
  injection H as <-. destruct subject as [st sid].
  split; cbn [p_request p_workspaceId p_idempotencyKey q_operation q_status q_mode q_source q_subjectType
    q_subjectId q_requestedByUserId q_requestedByApiTokenId q_payload q_resultMetadata q_errorCode
    q_errorMessage q_explicit fst snd]; try done.
  - unfold effective_status. destruct (bool_decide (op = protocol_smoke)); cbn [negb andb].
    + injection Ef as <-. exact Est.
    + unfold resolveWorkspaceRequiresApprovalAlways, read in Ef. cbn in Ef. injection Ef as <-. exact Est.
  - by exists public.
Qed.

(** The options that only route the job. *)
Definition ROUTING_OPTIONS : list string :=
  ["assignedAgentId"; "executorKind"; "requiredTargetSelector"; "requiredDnsProvider";
   "requiredCommandProfile"; "expectedRenewalRouting"].
Definition same_but_routing (o o' : jsval) : Prop := ∀ k, k ∉ ROUTING_OPTIONS → get k o = get k o'.
Lemma same_get o o' k : same_but_routing o o' → bool_decide (k ∈ ROUTING_OPTIONS) = false →
  get k o = get k o'.
Proof. intros H Hk%bool_decide_eq_false. by apply H. Qed.
Lemma determined_same o o' flag p p' : same_but_routing o o' →
  determined o flag p → determined o' flag p' →
  p_request p = p_request p' ∧ p_workspaceId p = p_workspaceId p' ∧ p_idempotencyKey p = p_idempotencyKey p'.
Proof.
  intros Hs H H'.
  pose proof (λ k, same_get o o' k Hs) as G.
  destruct H as [H1 H2 H3 H4 H5 H6 H7 H8 H9 (pub & H10 & H10') H11 H12 H13 H14],
    H' as [I1 I2 I3 I4 I5 I6 I7 I8 I9 (pub' & I10 & I10') I11 I12 I13 I14].
  unfold effective_status, normalizeSubject, normalizeExplicitLifecycleTimestamps in *.
  destruct p as [ws key [] rt tms], p' as [ws' key' [] rt' tms']. cbn in *.
  rewrite <- !G in * by reflexivity. simplify_eq.
  repeat match goal with
         | H : ?x = Ok _, I : ?x = Ok _ |- _ => rewrite H in I; simplify_eq
         end.
  by repeat split.
Qed.
End determined.

(** * Replays *)

Section replays.
Context {dp : DateParse} {sv : Services}.

Lemma replay_reads_only ws key q : reads_only (replay ws key q).
Proof.
  destruct key as [key|]; [|done]. apply reads_only_bind; [by split|]. intros [job|]; [|done].
  apply reads_only_bind; [done|]. by intros [].
Qed.
Lemma run_insert_created p r d job : (run (insert_or_replay p r) d).2 = Ok (job, true) → job = r.
Proof.
  unfold insert_or_replay. rewrite run_bind. cbn [run query].
  destruct (insert_job r d) as [d' [[x|]|e]] eqn:E; cbn [run]; [| |done].
  - pose proof (insert_job_result r d x) as Hx. rewrite E in Hx. destruct (Hx eq_refl) as [-> _].
    rewrite run_bind. destruct (run _ d') as [d2 [[]|e]]; [|done]. by intros [= ->].
  - intros H. apply run_reads_ok in H as ([y|] & _ & H); [done|done|apply replay_reads_only].
Qed.
Lemma run_created env now freshId options d job :
  (run (createCertificateJob env now freshId options) d).2 = Ok (job, true) →
  ∃ p connection, (run (prepare_job now options) d).2 = Ok p ∧
    job = new_row freshId p connection (get "enrollmentId" options).
Proof.
  unfold createCertificateJob. cbv zeta. intros H.
  apply run_reads_ok in H as (p & Hp & H); [|apply prepare_reads_only].
  apply run_reads_ok in H as ([y|] & _ & H); [done| |apply replay_reads_only].
  apply run_reads_ok in H as (? & _ & H); [|apply identity_reads_only].
  apply run_reads_ok in H as (? & _ & H); [|apply capacity_reads_only].
  apply run_lift_ok in H as (connection & _ & H).
  exists p, connection. split; [done|]. rewrite run_catch in H.
  pose proof (run_insert_created p (new_row freshId p connection (get "enrollmentId" options)) d job) as Hi.
  destruct (run (insert_or_replay _ _) d) as [d' [a|e]]; cbn in Hi, H; [by apply Hi|].
  exfalso. destruct (p_idempotencyKey p); [|done]. destruct (job_error_is_unique e); [|done].
  apply run_reads_ok in H as ([y|] & _ & H); [done|done|apply replay_reads_only].
Qed.

(** A request whose fingerprint is stored is answered by the stored job. *)
Lemma run_matching_replay ws key q d job h : table_ok d →
  certificate_jobs d !! r_id job = Some job → has_key ws key job →
  r_creationRequestHash job = Some h → h = jobCreationRequestFingerprint q → h ≠ EmptyString →
  run (replay ws (Some key) q) d = (d, Ok (Some job)).
Proof.
  intros Hd Hr Hk Hh -> Hne. cbn. rewrite (find_by_key_unique _ _ _ _ _ Hd Hr Hk).
  unfold isMatchingReplay. rewrite Hh. destruct (jobCreationRequestFingerprint q) eqn:E; [done|].
  cbn. by rewrite bool_decide_eq_true_2.
Qed.
End replays.

(** Replays stay valid after the job moved on.  When a call created a job
    under a key, then on any later database where the row still has the
    columns of its creation, whatever became of its status, claim and
    payload: a call with the same options that passes the admission checks
    again, made where approval is required as it was before, returns that row
    and changes nothing.  The options that only route the job — the agent it
    is pinned to, the executor lane and the required capabilities — may
    differ: the fingerprint does not cover them, and the replay still gets
    the first job. *)
Theorem replay_returns_first_job {dp : DateParse} {sv : Services}
    env now id o d job env' now' id' o' d' row' p' key :
  (∀ s, sha256 s ≠ EmptyString) →
  (run (createCertificateJob env now id o) d).2 = Ok (job, true) →
  r_idempotencyKey job = Some key →
  table_ok d' → certificate_jobs d' !! r_id job = Some row' → same_creation job row' →
  same_but_routing o o' →
  select_requires_approval (r_workspaceId job) d' = select_requires_approval (r_workspaceId job) d →
  (run (prepare_job now' o') d').2 = Ok p' →
  run (createCertificateJob env' now' id' o') d' = (d', Ok (row', false)).
Proof.
  intros Hsha Hc Hkey Hd' Hrow Hsame Ho Hflag Hp'.
  destruct (run_created _ _ _ _ _ _ Hc) as (p & connection & Hp & ->). cbn in Hkey, Hflag, Hrow.
  pose proof (prepare_determined _ _ _ _ Hp) as D. pose proof (prepare_determined _ _ _ _ Hp') as D'.
  assert (p_workspaceId p' = p_workspaceId p) as Ew.
  { pose proof (det_ws _ _ _ D) as H1. pose proof (det_ws _ _ _ D') as H2.
    rewrite <- (same_get o o' "workspaceId" Ho eq_refl) in H2. congruence. }
  rewrite Ew, Hflag in D'. destruct (determined_same _ _ _ _ _ Ho D D') as (Eq & _ & Ek).
  unfold createCertificateJob. cbv zeta. rewrite (run_reads_eq _ _ _ _ (prepare_reads_only _ _) Hp').
  destruct Hsame as (H1 & H2 & H3 & H4). cbn in H1, H2, H3, H4.
  rewrite run_bind, <- Ek, Ew, Hkey.
  rewrite (run_matching_replay _ _ _ _ row' (jobCreationRequestFingerprint (p_request p))); try done.
  - by rewrite H1.
  - split; congruence.
  - by rewrite Eq.
  - apply Hsha.
Qed.

(** * Per-CA capacity *)

Section capacity.
Context {dp : DateParse} {sv : Services}.
Notation in_flight := (in_flight parse_url jsonb_text).
Notation row_bucket := (row_bucket parse_url jsonb_text).

(** The in-flight orders of a workspace against a CA. *)
Definition load (ws bucket : string) (d : db) : Z := in_flight bucket (select_in_flight ws d).
Definition counted (ws bucket : string) (d : db) (r : row) : bool :=
  consumes_ca ws r
  && bool_decide (row_bucket (enrollment_issuers d !! (ws, r_id r)) (r_payload r) = bucket).
Lemma length_filter_map {A B C} (k : A → B) (h : B → C) (p : C → bool) (q : B → bool) l :
  length (List.filter p (map h (List.filter q (map k l)))) =
  length (List.filter (λ x, q (k x) && p (h (k x))) l).
Proof.
  induction l as [|x l IH]; [done|]. cbn. destruct (q (k x)); cbn; [|done].
  destruct (p (h (k x))); cbn; by rewrite IH.
Qed.
Lemma load_counted ws bucket d : load ws bucket d =
  Z.of_nat (length (List.filter (λ kv, counted ws bucket d kv.2) (map_to_list (certificate_jobs d)))).
Proof.
  unfold load, in_flight, select_in_flight.
  rewrite (length_filter_map snd (λ r, (enrollment_issuers d !! (ws, r_id r), r_payload r))
    (λ r, bool_decide (row_bucket r.1 r.2 = bucket)) (consumes_ca ws)). done.
Qed.

Lemma load_insert ws bucket d r : certificate_jobs d !! r_id r = None →
  load ws bucket (with_jobs (<[r_id r := r]> (certificate_jobs d)) d) =
  load ws bucket d + (if counted ws bucket d r then 1 else 0).
Proof.
  intros Hf. rewrite !load_counted. cbn [certificate_jobs with_jobs].
  rewrite (Permutation_length (filter_perm _ _ _ (map_to_list_insert (certificate_jobs d) _ r Hf))).
  cbn [List.filter snd].
  change (counted ws bucket (with_jobs (<[r_id r := r]> (certificate_jobs d)) d)) with (counted ws bucket d).
  destruct (counted ws bucket d r); cbn [length]; lia.
Qed.

(** The life of jobs after their creation: an order, once terminal, stays so. *)
Definition lifecycle_step (d d' : db) : Prop :=
  enrollment_issuers d' = enrollment_issuers d ∧
  ∀ id r', certificate_jobs d' !! id = Some r' → ∃ r, certificate_jobs d !! id = Some r ∧
    r_id r' = r_id r ∧ r_workspaceId r' = r_workspaceId r ∧ r_operation r' = r_operation r ∧
    get "caEndpoint" (r_payload r') = get "caEndpoint" (r_payload r) ∧
    (isTerminalJobStatus (r_status r) = true → isTerminalJobStatus (r_status r') = true).
Lemma counted_before ws bucket d d' r r' :
  enrollment_issuers d' = enrollment_issuers d →
  r_id r' = r_id r → r_workspaceId r' = r_workspaceId r → r_operation r' = r_operation r →
  get "caEndpoint" (r_payload r') = get "caEndpoint" (r_payload r) →
  (isTerminalJobStatus (r_status r) = true → isTerminalJobStatus (r_status r') = true) →
  counted ws bucket d' r' = true → counted ws bucket d r = true.
Proof.
  intros He H1 H2 H3 H4 H5. unfold counted, consumes_ca, RenewalCapacity.row_bucket, in_flight_bucket_sql.
  rewrite He, H1, H2, H3, H4. destruct (isTerminalJobStatus (r_status r)); [|].
  - rewrite H5 by done. rewrite !andb_false_r. done.
  - rewrite !andb_true_r. destruct (isTerminalJobStatus _); [by rewrite !andb_false_r|by rewrite !andb_true_r].
Qed.
Lemma load_lifecycle ws bucket d d' : lifecycle_step d d' → load ws bucket d' <= load ws bucket d.
Proof.
  intros [He Hr]. rewrite !load_counted. apply inj_le.
  rewrite <- !(length_fmap fst). apply submseteq_length, NoDup_submseteq.
  - eapply sublist_NoDup; [|apply filter_sublist_fst]. apply NoDup_fst_map_to_list.
  - intros id. rewrite !list_elem_of_fmap.
    intros ([id' r'] & -> & Hin). apply list_elem_of_In, filter_In in Hin as [Hin Hc].
    apply list_elem_of_In, elem_of_map_to_list in Hin.
    destruct (Hr _ _ Hin) as (r & Hl & H1 & H2 & H3 & H4 & H5).
    exists (id', r). split; [done|]. apply list_elem_of_In, filter_In. split.
    + by apply list_elem_of_In, elem_of_map_to_list.
    + by eapply (counted_before ws bucket d d' r r').
Qed.

Lemma run_insert_state p r d : (run (insert_or_replay p r) d).1 = (insert_job r d).1.
Proof.
  unfold insert_or_replay. rewrite run_bind. cbn [run query].
  destruct (insert_job r d) as [d' [[x|]|e]]; cbn [run fst]; [| |done].
  - apply run_reads. apply reads_only_bind; [by destruct (truthy _)|done].
  - apply run_reads. apply reads_only_bind; [apply replay_reads_only|]. by intros [].
Qed.
Lemma insert_job_state r d : (insert_job r d).1 = d ∨
  certificate_jobs d !! r_id r = None ∧
  (insert_job r d).1 = with_jobs (<[r_id r := r]> (certificate_jobs d)) d.
Proof.
  unfold insert_job. destruct (certificate_jobs d !! r_id r); [by left|].
  destruct (r_idempotencyKey r ≫= _); [by left|by right].
Qed.
(** What a call does to the jobs: nothing, or one insert behind the capacity
    check. *)
Lemma run_create_state env now id o d :
  let d' := (run (createCertificateJob env now id o) d).1 in
  d' = d ∨ ∃ p connection, (run (prepare_job now o) d).2 = Ok p ∧
    (run (assert_capacity env o (p_workspaceId p) (p_request p)) d).2 = Ok tt ∧
    certificate_jobs d !! id = None ∧
    d' = with_jobs (<[id := new_row id p connection (get "enrollmentId" o)]> (certificate_jobs d)) d.
Proof.
  cbv zeta. unfold createCertificateJob. cbv zeta. rewrite run_bind.
  pose proof (run_reads _ d (prepare_reads_only now o)) as Hs.
  destruct (run (prepare_job now o) d) as [d1 [p|e]]; cbn in Hs; subst d1; [|by left].
  set (cap := assert_capacity env o (p_workspaceId p) (p_request p)).
  rewrite run_bind. pose proof (run_reads _ d (replay_reads_only (p_workspaceId p) (p_idempotencyKey p) (p_request p))) as Hs.
  destruct (run (replay _ _ _) d) as [d1 [[y|]|e]]; cbn in Hs; subst d1; [by left| |by left].
  rewrite run_bind. pose proof (run_reads _ d (identity_reads_only (p_workspaceId p) (p_request p) (p_routing p))) as Hs.
  destruct (run (assert_identity _ _ _) d) as [d1 [[]|e]]; cbn in Hs; subst d1; [|by left].
  rewrite run_bind. pose proof (run_reads cap d (capacity_reads_only _ _ _ _)) as Hs.
  destruct (run cap d) as [d1 [[]|e]] eqn:Ec; cbn in Hs; subst d1; [|by left].
  rewrite run_bind. change (run (lift ?x) d) with (d, x). cbv iota beta.
  destruct (connection_of _) as [connection|e]; [|by left].
  rewrite run_catch. set (r := new_row _ _ _ _).
  pose proof (run_insert_state p r d) as Hi.
  destruct (insert_job_state r d) as [E|[Hn E]]; rewrite E in Hi;
    destruct (run (insert_or_replay p r) d) as [d1 [a|e]]; cbn in Hi; subst d1; cbn [fst].
  - by left.
  - left. apply run_reads. destruct (p_idempotencyKey p); [|done]. destruct (job_error_is_unique e); [|done].
    apply reads_only_bind; [apply replay_reads_only|]. by intros [].
  - right. exists p, connection. split; [done|]. split; [exact (f_equal snd Ec)|]. by split.
  - right. exists p, connection. split; [done|]. split; [exact (f_equal snd Ec)|]. split; [done|].
    apply run_reads. destruct (p_idempotencyKey p); [|done]. destruct (job_error_is_unique e); [|done].
    apply reads_only_bind; [apply replay_reads_only|]. by intros [].
Qed.

Lemma run_prepare_lawful now o d p : (run (prepare_job now o) d).2 = Ok p → lawful (λ _, False) o p.
Proof.
  intros H. pose proof (holds_run eq eq
    (λ _ r, match r with Ok p => lawful (λ _, False) o p | Err _ => True end) (prepare_job now o) d) as Hr.
  rewrite H in Hr. apply Hr; [exact _|].
  apply (prepare_lawful eq eq (λ _, False)); [by intros ? ? ? _ []|by intros ? []].
Qed.
(** The row is counted in the bucket whose capacity was checked. *)
Lemma new_row_bucket forced o p : lawful forced o p → q_operation (p_request p) ∈ [issue; renew] →
  row_bucket None (q_payload (p_request p)) = caBucketFromPayload parse_url (q_payload (p_request p)).
Proof.
  intros H _. apply row_bucket_admitted. destruct (law_payload _ _ _ H) as [[Hf _] _].
  destruct (Hf "caEndpoint" (a_string (valid_caEndpoint (λ s, u_protocol <$> parse_url s)))) as [Hn|[_ Hv]].
  - apply list_elem_of_In. right. by left.
  - by destruct (get "caEndpoint" _).
  - by destruct (get "caEndpoint" _).
Qed.
End capacity.

(** The executions the capacity is about: calls that hold the CA's advisory
    lock run one at a time; in between, jobs only live on. *)
Inductive capacity_step {dp : DateParse} {sv : Services} (cap : Z) : db → db → Prop :=
| capacity_create env now id o d :
    (∀ ws, enrollment_issuers d !! (ws, id) = None) →
    truthy (get "capacityBucket" o) = false →
    capacity_cap env (get "perCaCap" o) <= cap →
    capacity_step cap d (run (createCertificateJob env now id o) d).1
| capacity_other d d' : lifecycle_step d d' → capacity_step cap d d'.

(** C36: no CA is overloaded.  While every call runs with a cap of at most
    [cap] and counts against the CA its payload names, no workspace ever has more than [cap] orders in flight against any
    CA — however the same CA's endpoint is written — unless it had more at the
    start. *)
Theorem capacity_never_exceeded {dp : DateParse} {sv : Services} (cap : Z) (d d' : db) (ws bucket : string) :
  rtc (capacity_step cap) d d' → load ws bucket d <= cap → load ws bucket d' <= cap.
Proof.
  induction 1 as [d|d d1 d2 Hst _ IH]; [done|]. intros Hl. apply IH. clear IH.
  destruct Hst as [env now id o d Hfree Hbucket Hcap|d d1 Hl1].
  2:{ pose proof (load_lifecycle ws bucket _ _ Hl1). lia. }
  destruct (run_create_state env now id o d) as [->|(p & connection & Hp & Hc & Hn & ->)]; [done|].
  set (r := new_row _ _ _ _). change id with (r_id r). rewrite load_insert by done.
  destruct (counted ws bucket d r) eqn:Ec; [|lia].
  unfold counted, consumes_ca in Ec. change (r_id r) with id in Ec. rewrite (Hfree ws) in Ec. cbn in Ec.
  apply andb_prop in Ec as [[[Hw Hop]%andb_prop _]%andb_prop Hb].
  apply bool_decide_eq_true in Hw, Hop, Hb.
  rewrite (new_row_bucket _ _ _ (run_prepare_lawful _ _ _ _ Hp) Hop) in Hb.
  unfold assert_capacity in Hc. rewrite bool_decide_eq_true_2 in Hc by done. cbn in Hc.
  apply ensure_ok in Hc. unfold assertRenewalPerCaCapacityAvailable in Hc. apply Z.ltb_lt in Hc.
  assert (capacity_bucket parse_url (get "capacityBucket" o) (q_payload (p_request p)) = bucket) as E.
  { rewrite <- Hb. unfold capacity_bucket. destruct (get "capacityBucket" o); try done.
    cbn in Hbucket. by destruct (bool_decide (s = EmptyString)). }
  rewrite E, Hw in Hc. unfold load in *. lia.
Qed.


(** * Executions *)

Definition with_status (s : job_status) (r : row) : row :=
  mkRow (r_id r) (r_workspaceId r) (r_operation r) s (r_mode r) (r_source r) (r_routing r)
    (r_requestedByUserId r) (r_requestedByApiTokenId r) (r_requestedByConnectionId r)
    (r_idempotencyKey r) (r_subjectType r) (r_subjectId r) (r_payload r) (r_resultMetadata r)
    (r_errorCode r) (r_errorMessage r) (r_times r) (r_creationRequestHash r) (r_enrollmentId r).
(** The job of the first call, once it succeeded. *)
Definition demo_done : row := with_status succeeded (demo_job 0).
Definition demo_later : db := with_jobs {["job-1" := demo_done]} demo_db.
Lemma demo_same_but_routing a b : same_but_routing (demo_options a) (demo_options b).
Proof.
  intros k Hk. unfold demo_options, get. cbn.
  repeat (case_decide; [done|]). case_decide as E; [|done]. subst k. exfalso. apply Hk. left.
Qed.
Lemma replay_returns_first_job_witness :
  let create := @createCertificateJob iso_date_parse demo_services None in
  run (create 1767225900000 "job-3" (demo_options (Str "agent-9"))) demo_later =
    (demo_later, Ok (demo_done, false)) ∧
  assignedAgentId (r_routing demo_done) = Some "agent-7".
Proof.
  cbv zeta. split; [|vm_compute; reflexivity].
  destruct (run (@prepare_job iso_date_parse demo_services 1767225900000 (demo_options (Str "agent-9")))
    demo_later).2 as [p'|e] eqn:Ep; [|vm_compute in Ep; discriminate Ep].
  apply (@replay_returns_first_job iso_date_parse demo_services None 1767225600000 "job-1"
    (demo_options Undef) demo_db (demo_job 0) None 1767225900000 "job-3" (demo_options (Str "agent-9"))
    demo_later demo_done p' "k1").
  - intros s. done.
  - vm_compute. reflexivity.
  - vm_compute. reflexivity.
  - split; cbn.
    + intros id r [<- <-]%lookup_singleton_Some. vm_compute. reflexivity.
    + by intros id1 id2 r1 r2 ws key [<- <-]%lookup_singleton_Some [<- <-]%lookup_singleton_Some.
  - vm_compute. reflexivity.
  - vm_compute. by repeat split.
  - apply demo_same_but_routing.
  - vm_compute. reflexivity.
  - exact Ep.
Defined.

Definition demo_order (key endpoint : string) : jsval :=
  Obj [("workspaceId", Str "w1"); ("operation", Str "renew"); ("idempotencyKey", Str key);
       ("subjectType", Str "domain"); ("subjectId", Str "example.org");
       ("payload", Obj [("caEndpoint", Str endpoint)])].
(** One order per CA: the second, for the same endpoint written differently,
    is refused. *)
Lemma capacity_never_exceeded_witness :
  let create id o d := run (@createCertificateJob iso_date_parse demo_services (Some "1") 1767225600000 id o) d in
  let d1 := (create "job-1" (demo_order "k1" "https://ca.example/dir") demo_db).1 in
  let r2 := create "job-2" (demo_order "k2" " https://ca.example/dir ") d1 in
  @load demo_services "w1" "https://ca.example/dir" r2.1 <= 1 ∧
  @load demo_services "w1" "https://ca.example/dir" d1 = 1 ∧ r2.2 = Err CERTOPS_RENEWAL_PER_CA_CAP_EXCEEDED.
Proof.
  cbv zeta. split; [|split; vm_compute; reflexivity].
  set (d1 := (run (createCertificateJob _ _ _ _) demo_db).1).
  apply (@capacity_never_exceeded iso_date_parse demo_services 1 demo_db).
  - apply (rtc_l _ _ d1); [|apply rtc_once].
    + apply (@capacity_create iso_date_parse demo_services 1 (Some "1")); [|done|vm_compute; discriminate].
      intros ws. apply lookup_empty.
    + apply (@capacity_create iso_date_parse demo_services 1 (Some "1")); [|done|vm_compute; discriminate].
      intros ws. assert (enrollment_issuers d1 = ∅) as E by (vm_compute; reflexivity).
      rewrite E. apply lookup_empty.
  - vm_compute. discriminate.
Defined.
