(* ===== verification/Eligibility.v ===== *)
(** Which agent may claim which job: apps/api/services/certops/
    agentJobEligibility.js, and the provider identities of
    packages/contracts/certops/material-provider.cjs it reads.

    [evaluateAgentJobEligibility] is the authoritative predicate of dispatch;
    the theorems say exactly when it admits an agent and that its explanation
    never hides a second problem. *)
From S2P Require Import Prelude Json Jobs JobFields RenewalCapacity JobRequest.
Open Scope Z_scope.

(** * Providers of secret material *)

Definition VAULT_SOFT_DELETE : string := "vault-kv2-soft-delete".
Definition cleanupOperationOf (intent : jsval) : option string :=
  let operation := get "operation" intent in
  let undefined := match operation with Undef => true | _ => false end in
  if negb undefined && negb (is_str "soft-delete" operation) && negb (is_str VAULT_SOFT_DELETE operation)
  then None
  else if is_str VAULT_SOFT_DELETE (get "type" intent) || is_str "soft-delete" operation
          || is_str VAULT_SOFT_DELETE operation
  then Some VAULT_SOFT_DELETE
  else None.
(** [===] of two values that are not both objects. *)
Definition strict_eq (a b : jsval) : bool :=
  match a, b with
  | Str s, Str t => bool_decide (s = t)
  | Bool x, Bool y => Bool.eqb x y
  | Num (Fin m), Num (Fin n) => m =? n
  | Num (Inf x), Num (Inf y) => Bool.eqb x y
  | Undef, Undef | Null, Null => true
  | _, _ => false
  end.
(** Without a [provider] the type itself is the provider, and no mismatch. *)
Definition providerOf (intent : jsval) : jsval :=
  let type := get "type" intent in
  let legacyCleanup := is_str VAULT_SOFT_DELETE type in
  let cleanup := bool_decide (cleanupOperationOf intent = Some VAULT_SOFT_DELETE) in
  let provider :=
    js_coalesce (get "provider" intent)
      (js_coalesce (if legacyCleanup then Str "vault-kv2" else type) (Str "vault-kv2")) in
  if (cleanup && negb (is_str "vault-kv2" provider))
     || (truthy type && negb legacyCleanup && negb (nullish (get "provider" intent))
         && negb (strict_eq type provider))
     || (legacyCleanup && negb cleanup)
  then Null else provider.

(** The names a plain object inherits: looking one of them up in the table
    finds a function, which is no capability. *)
Definition inherited_names : list string :=
  ["constructor"; "__defineGetter__"; "__defineSetter__"; "hasOwnProperty"; "__lookupGetter__";
   "__lookupSetter__"; "isPrototypeOf"; "propertyIsEnumerable"; "toString"; "valueOf"; "__proto__";
   "toLocaleString"].
Definition providerCapability (provider : jsval) : option string :=
  let name := js_String provider in
  if bool_decide (name = "vault-kv2") then Some "material-store-vault-kv2-v1"
  else if bool_decide (name = "openbao-kv2") then Some "material-store-openbao-kv2-v1"
  else if bool_decide (name = "azure-key-vault") then Some "material-store-azure-key-vault-v1"
  else if bool_decide (name ∈ inherited_names) then None
  else Some "material-store-unsupported".

(** * Capabilities *)

Definition EVIDENCE_CLAIM_BINDING_CAPABILITY : string := "evidence-claim-binding-v1".
Definition TRUST_ANCHOR_DEPLOY_CAPABILITY : string := "trust-anchor-deploy-v1".
Definition ADCS_ENROLL_CAPABILITY : string := "adcs-enroll-v1".
Definition DEFAULT_CERTOPS_CAPABILITY_FRESHNESS_MS : Z := 600000.

Definition operation_name (o : job_operation) : string := enum_name JOB_OPERATION_SET o.
Definition wireActionForOperation (operation : job_operation) : string :=
  match operation with issue => "renew" | o => operation_name o end.

Definition text_entries (l : list jsval) : list string :=
  omap (λ v, match v with Str s => Some s | _ => None end) l.
(** [None] when the persisted value is no array. *)
Definition persistedTextArray (value : jsval) : option (list string) :=
  match value with
  | Arr l => Some (text_entries l)
  | Str s => match JSON_parse s with Some (Arr l) => Some (text_entries l) | _ => None end
  | v => if nullish v then Some [] else None
  end.

(** [Number.parseInt(env.NAME, 10)]; [None] is [NaN]. *)
Definition env_int (raw : option string) : option Z :=
  match raw with Some s => parse_int (trim s) | None => None end.
Definition certopsCapabilityFreshnessMs (raw : option string) : option Z :=
  match raw with
  | None | Some EmptyString => Some DEFAULT_CERTOPS_CAPABILITY_FRESHNESS_MS
  | Some s => env_int (Some s)
  end.
Definition hasFreshCapability (env : option string) (now : Z) (declaredCapabilities : jsval)
    (capabilitiesUpdatedAt : option Z) (capability : string) : bool :=
  match persistedTextArray declaredCapabilities, capabilitiesUpdatedAt with
  | Some capabilities, Some updatedAtMs =>
      bool_decide (capability ∈ capabilities)
      && ((now - updatedAtMs <? 0)
          || match certopsCapabilityFreshnessMs env with
             | Some bound => now - updatedAtMs <=? bound
             | None => false
             end)
  | _, _ => false
  end.

(** * Eligibility *)

Record agent_facts := mkAgentFacts {
  ag_id : string; ag_retired : bool; ag_platform : jsval; ag_diagnostic : bool;
  supportedOperations : jsval; targetSelectors : jsval; dnsProviders : jsval;
  commandProfiles : jsval; declaredCapabilities : jsval; capabilitiesUpdatedAt : option Z }.
Record job_facts := mkJobFacts {
  jf_operation : job_operation; jf_executorKind : executor_kind;
  jf_assignedAgentId : jsval; jf_requiredTargetSelector : jsval; jf_requiredDnsProvider : jsval;
  jf_requiredCommandProfile : jsval; subjectIsProvisioning : bool; jf_payload : jsval;
  issuerIsAdcs : bool }.

Inductive reason :=
| facts_unavailable | executor_lane_mismatch | agent_retired | compatibility_unknown
| compatibility_blocked | assigned_agent_mismatch | persisted_capabilities_invalid
| operation_unsupported | material_capability_unavailable | claim_bound_evidence_unavailable
| trust_anchor_deploy_capability_unavailable | adcs_enroll_capability_unavailable
| target_selector_unsupported | dns_provider_unsupported | command_profile_unsupported
| agent_kind_mismatch | eligible.
#[global] Instance reason_eq_dec : EqDecision reason.
Proof. solve_decision. Defined.
(** The [determinate] flag of a verdict. *)
Definition determinate (r : reason) : bool :=
  negb (bool_decide (r ∈ [facts_unavailable; compatibility_unknown; persisted_capabilities_invalid])).

(** [compatibilityState]; [None] when the compatibility could not be
    computed. *)
Inductive compatibility := compatible | outdated | blocked_state.
#[global] Instance compatibility_eq_dec : EqDecision compatibility.
Proof. solve_decision. Defined.

(** The requirement [required] (falsy: none) against a persisted array. *)
Definition requirement (required persisted : jsval) (unsupported : reason) : option reason :=
  if negb (truthy required) then None else
  match persistedTextArray persisted with
  | None => Some persisted_capabilities_invalid
  | Some l => match required with
              | Str s => if bool_decide (s ∈ l) then None else Some unsupported
              | _ => Some unsupported
              end
  end.

Section eligibility.
Context (env : option string) (now : Z).

Definition fresh (a : agent_facts) (capability : string) : bool :=
  hasFreshCapability env now (declaredCapabilities a) (capabilitiesUpdatedAt a) capability.
Definition materialCapabilities (a : agent_facts) (j : job_facts) : list (option string) :=
  let publication := get "publication" (jf_payload j) in
  let material := providerCapability (providerOf (js_or publication (get "materialDeployment" (jf_payload j)))) in
  if truthy publication then
    [material; Some "certificate-publication-v1"; Some EVIDENCE_CLAIM_BINDING_CAPABILITY]
  else if bool_decide (jf_operation j = deploy_from_store) then
    [material; Some "deploy-from-store-v1"; Some EVIDENCE_CLAIM_BINDING_CAPABILITY]
    ++ (if is_str "win32" (ag_platform a)
        then map Some ["windows-material-iis-v1"; "windows-cert-store-v1"; "iis-binding-v1"] else [])
  else [].
Definition holds_all (a : agent_facts) (capabilities : list (option string)) : bool :=
  forallb (λ c, match c with Some c => fresh a c | None => false end) capabilities.

Definition needsClaimBoundEvidence (j : job_facts) : bool :=
  bool_decide (jf_operation j = issue) || subjectIsProvisioning j.

(** The facts are present (dispatch passes both records); the verdict's
    [eligible] is the reason [eligible]. *)
Definition evaluateAgentJobEligibility (a : agent_facts) (j : job_facts) (c : option compatibility) : reason :=
  let '(assigned, selector, dnsProvider, commandProfile) :=
    resolveAgentJobRoutingRequirements (jf_assignedAgentId j) (jf_requiredTargetSelector j)
      (jf_requiredDnsProvider j) (jf_requiredCommandProfile j) (jf_payload j) in
  if bool_decide (jf_executorKind j ≠ agent) then executor_lane_mismatch else
  if ag_retired a then agent_retired else
  match c with
  | None => compatibility_unknown
  | Some c =>
      if bool_decide (c = blocked_state) then compatibility_blocked else
      if negb (nullish assigned) && negb (bool_decide (js_String assigned = ag_id a))
      then assigned_agent_mismatch else
      match persistedTextArray (supportedOperations a) with
      | None => persisted_capabilities_invalid
      | Some operations =>
          if negb (bool_decide (wireActionForOperation (jf_operation j) ∈ operations))
          then operation_unsupported else
          let material := materialCapabilities a j in
          if negb (bool_decide (material = [])) && (negb (truthy assigned) || negb (holds_all a material))
          then material_capability_unavailable else
          if needsClaimBoundEvidence j && negb (fresh a EVIDENCE_CLAIM_BINDING_CAPABILITY)
          then claim_bound_evidence_unavailable else
          if isTrustAnchorOperation (jf_operation j) && negb (fresh a TRUST_ANCHOR_DEPLOY_CAPABILITY)
          then trust_anchor_deploy_capability_unavailable else
          if issuerIsAdcs j && negb (fresh a ADCS_ENROLL_CAPABILITY)
          then adcs_enroll_capability_unavailable else
          match requirement selector (targetSelectors a) target_selector_unsupported,
                requirement dnsProvider (dnsProviders a) dns_provider_unsupported,
                requirement commandProfile (commandProfiles a) command_profile_unsupported with
          | Some r, _, _ | None, Some r, _ | None, None, Some r => r
          | None, None, None =>
              if bool_decide (jf_operation j = protocol_smoke) && negb (ag_diagnostic a)
                 || bool_decide (jf_operation j ≠ protocol_smoke) && ag_diagnostic a
              then agent_kind_mismatch
              else eligible
          end
      end
  end.

Definition without_adcs (j : job_facts) : job_facts :=
  mkJobFacts (jf_operation j) (jf_executorKind j) (jf_assignedAgentId j) (jf_requiredTargetSelector j)
    (jf_requiredDnsProvider j) (jf_requiredCommandProfile j) (subjectIsProvisioning j) (jf_payload j) false.
Definition explainAgentJobEligibility (a : agent_facts) (j : job_facts) (c : option compatibility) : reason :=
  let evaluation := evaluateAgentJobEligibility a j c in
  if negb (bool_decide (evaluation = adcs_enroll_capability_unavailable)) then evaluation else
  let withoutGate := evaluateAgentJobEligibility a (without_adcs j) c in
  if bool_decide (withoutGate = eligible) then evaluation else withoutGate.
End eligibility.

(** * Exactly who is admitted *)

(** [required] is absent or listed. *)
Definition meets (required persisted : jsval) : Prop :=
  truthy required = true → ∃ s l, required = Str s ∧ persistedTextArray persisted = Some l ∧ s ∈ l.
Lemma requirement_None required persisted r : requirement required persisted r = None ↔ meets required persisted.
Proof.
  unfold requirement, meets. destruct (truthy required) eqn:E; cbn; [|naive_solver].
  destruct (persistedTextArray persisted) as [l|]; [|naive_solver].
  destruct required as [| | | |s| |]; try naive_solver. case_bool_decide; naive_solver.
Qed.
Lemma requirement_reason required persisted r x :
  requirement required persisted r = Some x → x = r ∨ x = persisted_capabilities_invalid.
Proof.
  unfold requirement. destruct (truthy required); cbn; [|done].
  destruct (persistedTextArray persisted); [|naive_solver].
  destruct required; try naive_solver. case_bool_decide; naive_solver.
Qed.

(** The rules of dispatch, one per line: the lane, the agent, its assignment,
    the action, the material capabilities, the fresh proofs, the selectors and
    the kind of the agent. *)
Record admits (env : option string) (now : Z) (a : agent_facts) (j : job_facts) (c : option compatibility)
  : Prop := {
  adm_lane : jf_executorKind j = agent;
  adm_retired : ag_retired a = false;
  adm_compatible : ∃ c', c = Some c' ∧ c' ≠ blocked_state;
  adm_assigned : ∀ r, resolveAgentJobRoutingRequirements (jf_assignedAgentId j) (jf_requiredTargetSelector j)
      (jf_requiredDnsProvider j) (jf_requiredCommandProfile j) (jf_payload j) = r →
    (nullish r.1.1.1 = true ∨ js_String r.1.1.1 = ag_id a) ∧
    (materialCapabilities a j ≠ [] →
       truthy r.1.1.1 = true ∧ holds_all env now a (materialCapabilities a j) = true) ∧
    meets r.1.1.2 (targetSelectors a) ∧ meets r.1.2 (dnsProviders a) ∧ meets r.2 (commandProfiles a);
  adm_action : ∃ l, persistedTextArray (supportedOperations a) = Some l ∧
    wireActionForOperation (jf_operation j) ∈ l;
  adm_evidence : needsClaimBoundEvidence j = true → fresh env now a EVIDENCE_CLAIM_BINDING_CAPABILITY = true;
  adm_trust : isTrustAnchorOperation (jf_operation j) = true →
    fresh env now a TRUST_ANCHOR_DEPLOY_CAPABILITY = true;
  adm_adcs : issuerIsAdcs j = true → fresh env now a ADCS_ENROLL_CAPABILITY = true;
  adm_kind : jf_operation j = protocol_smoke ↔ ag_diagnostic a = true }.

(** One guard of the cascade. *)
Lemma guard_eligible (b : bool) (r k : reason) : r ≠ eligible →
  (if b then r else k) = eligible ↔ b = false ∧ k = eligible.
Proof. destruct b; naive_solver. Qed.
Lemma implb_false (b f : bool) : b && negb f = false ↔ (b = true → f = true).
Proof. destruct b, f; naive_solver. Qed.

Section spec.
Context (env : option string) (now : Z).
Notation evaluate := (evaluateAgentJobEligibility env now).

Lemma evaluate_sound a j c : evaluate a j c = eligible → admits env now a j c.
Proof.
  unfold evaluateAgentJobEligibility.
  destruct (resolveAgentJobRoutingRequirements _ _ _ _ _) as [[[assigned selector] dns] command] eqn:Er.
  rewrite !guard_eligible by done. intros (Hlane & Hret & H).
  destruct c as [c|]; [|done]. rewrite !guard_eligible in H by done. destruct H as (Hc & Ha & H).
  destruct (persistedTextArray (supportedOperations a)) as [l|] eqn:El; [|done].
  rewrite !guard_eligible in H by done. destruct H as (Hop & Hm & He & Ht & Hx & H).
  destruct (requirement selector _ _) eqn:E1; [by apply requirement_reason in E1 as [-> | ->]|].
  destruct (requirement dns _ _) eqn:E2; [by apply requirement_reason in E2 as [-> | ->]|].
  destruct (requirement command _ _) eqn:E3; [by apply requirement_reason in E3 as [-> | ->]|].
  apply requirement_None in E1, E2, E3. rewrite guard_eligible in H by done. destruct H as [Hk _].
  apply bool_decide_eq_false in Hlane, Hc. rewrite implb_false in He, Ht, Hx.
  split; try done.
  - by destruct (decide (jf_executorKind j = agent)).
  - eauto.
  - intros r Hr. rewrite Er in Hr. subst r. cbn [fst snd]. split_and!; try done.
    + destruct (nullish assigned); [by left|right]. cbn [negb andb] in Ha.
      by apply negb_false_iff, bool_decide_eq_true in Ha.
    + intros Hne. rewrite (bool_decide_eq_false_2 _ Hne) in Hm. cbn in Hm.
      by destruct (truthy assigned), (holds_all env now a _).
  - exists l. split; [done|]. by apply negb_false_iff, bool_decide_eq_true in Hop.
  - destruct (ag_diagnostic a); repeat case_bool_decide; naive_solver.
Qed.
Lemma evaluate_complete a j c : admits env now a j c → evaluate a j c = eligible.
Proof.
  intros [Hlane Hret (c' & -> & Hc) Hr (l & Hl & Hop) He Ht Hx Hk]. specialize (Hr _ eq_refl).
  unfold evaluateAgentJobEligibility.
  destruct (resolveAgentJobRoutingRequirements _ _ _ _ _) as [[[assigned selector] dns] command].
  destruct Hr as (Ha & Hm & H1 & H2 & H3). cbn [fst snd] in *.
  rewrite Hlane, Hret, Hl, (bool_decide_eq_false_2 _ Hc), (bool_decide_eq_true_2 _ Hop). cbn [negb].
  rewrite !guard_eligible by done. split_and!.
  - apply bool_decide_eq_false_2. naive_solver.
  - destruct Ha as [->|E]; [done|]. rewrite bool_decide_eq_true_2 by done. apply andb_false_r.
  - case_bool_decide; [done|]. by destruct (Hm ltac:(done)) as [-> ->].
  - by apply implb_false.
  - by apply implb_false.
  - by apply implb_false.
  - apply requirement_None with (r := target_selector_unsupported) in H1.
    apply requirement_None with (r := dns_provider_unsupported) in H2.
    apply requirement_None with (r := command_profile_unsupported) in H3.
    rewrite H1, H2, H3, guard_eligible by done. split; [|done].
    destruct (ag_diagnostic a); repeat case_bool_decide; naive_solver.
Qed.

(** The AD CS gate comes last before the requirements. *)
Lemma never_adcs a j c : evaluate a (without_adcs j) c ≠ adcs_enroll_capability_unavailable.
Proof.
  unfold evaluateAgentJobEligibility. cbn [issuerIsAdcs without_adcs andb].
  repeat case_match; try done; subst;
    repeat match goal with
    | H : requirement _ _ _ = Some _ |- _ => apply requirement_reason in H as [-> | ->]
    end; done.
Qed.
Lemma only_adcs a j c : evaluate a j c ≠ eligible → evaluate a (without_adcs j) c = eligible →
  evaluate a j c = adcs_enroll_capability_unavailable.
Proof.
  intros Hn He. destruct (issuerIsAdcs j && negb (fresh env now a ADCS_ENROLL_CAPABILITY)) eqn:Eg.
  - apply evaluate_sound in He as [Hlane Hret (c' & -> & Hc) Hr (l & Hl & Hop) He Ht _ _].
    specialize (Hr _ eq_refl). clear Hn. unfold evaluateAgentJobEligibility.
    change (materialCapabilities a (without_adcs j)) with (materialCapabilities a j) in Hr.
    change (needsClaimBoundEvidence (without_adcs j)) with (needsClaimBoundEvidence j) in He.
    cbn [without_adcs jf_operation jf_executorKind jf_assignedAgentId jf_requiredTargetSelector
         jf_requiredDnsProvider jf_requiredCommandProfile jf_payload] in *.
    destruct (resolveAgentJobRoutingRequirements _ _ _ _ _) as [[[assigned selector] dns] command].
    destruct Hr as (Ha & Hm & _). cbn [fst snd] in *.
    assert (bool_decide (jf_executorKind j ≠ agent) = false) as Hl0 by (apply bool_decide_eq_false_2; naive_solver).
    rewrite Hl0, Hret, Hl, (bool_decide_eq_false_2 _ Hc), (bool_decide_eq_true_2 _ Hop), Eg. cbn [negb].
    rewrite <- implb_false in He, Ht. rewrite He, Ht.
    assert (negb (bool_decide (materialCapabilities a j = []))
      && (negb (truthy assigned) || negb (holds_all env now a (materialCapabilities a j))) = false) as ->.
    { destruct (decide (materialCapabilities a j = [])) as [E|E].
      - by rewrite (bool_decide_eq_true_2 _ E).
      - destruct (Hm E) as [-> ->]. by rewrite andb_false_r. }
    destruct Ha as [->|E]; [done|]. by rewrite (bool_decide_eq_true_2 _ E), andb_false_r.
  - exfalso. apply Hn. apply evaluate_sound in He as []. apply evaluate_complete. split; try done.
    by apply implb_false.
Qed.
End spec.

(** Who may claim a job.  The predicate admits an agent exactly when every
    rule of dispatch holds; and the explanation of a refusal names the AD CS
    gate exactly when that gate is the only obstacle — any other obstacle is
    reported instead, and a job is explained as eligible exactly when it is. *)
Theorem eligibility_spec (env : option string) (now : Z) (a : agent_facts) (j : job_facts)
    (c : option compatibility) :
  (evaluateAgentJobEligibility env now a j c = eligible ↔ admits env now a j c) ∧
  (explainAgentJobEligibility env now a j c = eligible ↔ admits env now a j c) ∧
  (explainAgentJobEligibility env now a j c = adcs_enroll_capability_unavailable ↔
     ¬ admits env now a j c ∧ admits env now a (without_adcs j) c).
Proof.
  assert (E : ∀ j, evaluateAgentJobEligibility env now a j c = eligible ↔ admits env now a j c).
  { intros j'. split; [apply evaluate_sound|apply evaluate_complete]. }
  rewrite <- !E. unfold explainAgentJobEligibility. cbv zeta. split; [done|].
  destruct (bool_decide (evaluateAgentJobEligibility env now a j c = _)) eqn:E1; cbn [negb].
  - apply bool_decide_eq_true in E1. rewrite E1. case_bool_decide as E2; [naive_solver|]. split; [naive_solver|].
    split; [|naive_solver]. intros E3.
    assert (evaluateAgentJobEligibility env now a (without_adcs j) c ≠ adcs_enroll_capability_unavailable) as F;
      [|done]. apply never_adcs.
  - apply bool_decide_eq_false in E1. split; [done|]. split; [done|]. intros [H1 H2]. exfalso. apply E1.
    by apply only_adcs.
Qed.
