(* ===== verification/AlertPolicy.v ===== *)
(** Which terminal transitions notify an operator: apps/api/services/certops/
    renewalAlertPolicy.js, and [enqueueOutboxEvent] of outbox.js, which records
    the intent to notify in the transaction that made the transition. *)
From S2P Require Import Prelude Json Jobs JobFields.
Open Scope Z_scope.

(** [TRANSITION_ORIGINS]. *)
Inductive origin :=
| AGENT_RESULT | EXECUTOR_EVENT | APPROVAL_REJECTION | OPERATOR_CANCEL | LEASE_REAPER | STALE_AGENT
| FORCED_RETIREMENT.
#[global] Instance origin_eq_dec : EqDecision origin.
Proof. solve_decision. Defined.
Definition origin_name (o : origin) : string :=
  match o with
  | AGENT_RESULT => "agent_result" | EXECUTOR_EVENT => "executor_event"
  | APPROVAL_REJECTION => "approval_rejection" | OPERATOR_CANCEL => "operator_cancel"
  | LEASE_REAPER => "lease_reaper" | STALE_AGENT => "stale_agent"
  | FORCED_RETIREMENT => "forced_retirement"
  end.

Definition RENEWAL_ALERTING_OPERATIONS : list job_operation := [renew].
Definition NON_ALERTING_STATUSES : list job_status :=
  [succeeded; dry_run_complete; awaiting_issuer; pending; approved; claimed; running].
Definition HUMAN_DECISION_ORIGINS : list origin := [APPROVAL_REJECTION; OPERATOR_CANCEL].

Record classification := mkClassification {
  alertWorthy : bool; c_reason : string; c_priority : option string }.
Definition silent (reason : string) : classification := mkClassification false reason None.
Definition classifyTerminalTransition (operation : job_operation) (status : job_status) (o : option origin)
  : classification :=
  if negb (bool_decide (operation ∈ RENEWAL_ALERTING_OPERATIONS)) then silent "operation_not_alerting" else
  if bool_decide (status ∈ NON_ALERTING_STATUSES) then silent "status_not_alerting" else
  match o with
  | Some APPROVAL_REJECTION | Some OPERATOR_CANCEL =>
      silent ("deliberate_" +:+ match o with Some o => origin_name o | None => EmptyString end)
  | _ =>
      match status with
      | cancelled =>
          match o with
          | Some o => mkClassification true ("cancelled_by_" +:+ origin_name o) None
          | None => silent "cancelled_unknown_origin"
          end
      | orphaned_unknown_effect => mkClassification true "orphaned_unknown_effect" (Some "high")
      | failed | blocked | rejected =>
          mkClassification true
            (status_name status +:+ "_" +:+ match o with Some o => origin_name o | None => "unknown_origin" end)
            None
      | _ => silent "status_not_alerting"
      end
  end.

(** * The intent to notify *)

Record event := mkEvent { e_workspaceId : string; e_type : string; e_key : string; e_payload : jsval }.
Definition same_event (e e' : event) : bool :=
  bool_decide (e_workspaceId e = e_workspaceId e') && bool_decide (e_type e = e_type e')
  && bool_decide (e_key e = e_key e').
Definition RENEWAL_ALERT_REQUESTED : string := "renewal_alert_requested".
Definition DISTRIBUTION_APPROVAL_GRANTED : string := "distribution_approval_granted".
Definition DEDUPE_KEY_MAX_LENGTH : Z := 256.

(** [validPayload] is [assertValidPayload] not throwing; [None] is a throw. *)
Definition enqueueOutboxEvent (validPayload : string → jsval → bool) (e : event) (outbox : list event)
  : option (list event) :=
  let key := trim (e_key e) in
  if bool_decide (e_workspaceId e = EmptyString) || bool_decide (key = EmptyString)
     || (DEDUPE_KEY_MAX_LENGTH <? slen key) || negb (validPayload (e_type e) (e_payload e))
  then None
  else let e := mkEvent (e_workspaceId e) (e_type e) key (e_payload e) in
       Some (if existsb (same_event e) outbox then outbox else outbox ++ [e]).

Definition recorded (workspaceId type key : string) (outbox : list event) : Prop :=
  ∃ e, e ∈ outbox ∧ e_workspaceId e = workspaceId ∧ e_type e = type ∧ e_key e = trim key.

Lemma enqueue_recorded valid e outbox outbox' : enqueueOutboxEvent valid e outbox = Some outbox' →
  recorded (e_workspaceId e) (e_type e) (e_key e) outbox'.
Proof.
  unfold enqueueOutboxEvent. case_match; [done|]. intros [= <-].
  destruct (existsb _ outbox) eqn:E.
  - apply existsb_exists in E as (x & Hx%list_elem_of_In & Hs). unfold same_event in Hs. cbn in Hs.
    apply andb_prop in Hs as [[H1%bool_decide_eq_true H2%bool_decide_eq_true]%andb_prop H3%bool_decide_eq_true].
    exists x. by rewrite H1, H2, H3.
  - exists (mkEvent (e_workspaceId e) (e_type e) (trim (e_key e)) (e_payload e)). split; [|done].
    apply elem_of_app. right. by apply list_elem_of_singleton.
Qed.
Lemma enqueue_keeps valid e outbox outbox' : enqueueOutboxEvent valid e outbox = Some outbox' →
  ∀ x, x ∈ outbox → x ∈ outbox'.
Proof.
  unfold enqueueOutboxEvent. case_match; [done|]. intros [= <-] x Hx.
  destruct (existsb _ outbox); [done|]. apply elem_of_app. by left.
Qed.

(** At most one intent per workspace, type and key: the unique index. *)
Definition events_unique (outbox : list event) : Prop :=
  NoDup (map (λ e, (e_workspaceId e, e_type e, e_key e)) outbox).
Lemma enqueue_unique valid e outbox outbox' : enqueueOutboxEvent valid e outbox = Some outbox' →
  events_unique outbox → events_unique outbox'.
Proof.
  unfold enqueueOutboxEvent. case_match; [done|]. intros [= <-] Hu.
  destruct (existsb _ outbox) eqn:E; [done|]. unfold events_unique. rewrite map_app. apply NoDup_app.
  split; [done|]. split; [|apply NoDup_singleton].
  intros y Hy1 ->%list_elem_of_singleton. apply list_elem_of_fmap in Hy1 as (x & Heq & Hx).
  apply not_true_iff_false in E. apply E. apply existsb_exists. exists x.
  split; [by apply list_elem_of_In|]. cbn in Heq. injection Heq as -> -> ->.
  unfold same_event. cbn. by rewrite !bool_decide_eq_true_2.
Qed.
