(* ===== verification/Dispatch.v ===== *)
(** The agent side of the job table: apps/api/services/certops/
    agentDispatch.js.  This file holds the tables, the transactions, the
    sequence check, [renewJobLease] and the lease timing of leaseTiming.js;
    Ingest has [ingestResult], Claim has [claimJobs], Reaper what the worker
    does to expired leases, and ClaimSystem the theorems about all of them
    together.

    Every handler is one transaction that locks the rows it decides on, so it
    is one function on the tables; a thrown error rolls it back.  The tables
    the handlers only pass on (distribution, trust anchors, enrollments,
    certificates, log streams) are the type [W] of the class [Others], and what
    other services do to them are its operations.  Times are in milliseconds. *)
From S2P Require Import Prelude Dates Json Jobs JobFields RenewalCapacity JobSigning JobRequest.
From S2P Require Import Eligibility AlertPolicy.
Open Scope Z_scope.

Inductive dispatch_error :=
| CERTOPS_AGENT_SEQUENCE_REGRESSION | CERTOPS_AGENT_JOB_NOT_FOUND
| CERTOPS_AGENT_CLAIM_OWNERSHIP_MISMATCH | CERTOPS_AGENT_RESULT_NONCE_REJECTED (nonceCode : string)
| CERTOPS_AGENT_RESULT_STATUS_INVALID | CERTOPS_AGENT_LEASE_INVALID
| CERTOPS_AGENT_COMPATIBILITY_BLOCKED | CERTOPS_AGENT_DEPLOY_CERT_UNAVAILABLE
| CERTOPS_MATERIAL_RECEIPT_UNEXPECTED | CERTOPS_MATERIAL_RECEIPT_REQUIRED
| outbox_rejected | signing_failed (e : service_error) | other_failure (code : string).

(** * Lease timing *)

Definition DEFAULT_JOB_LEASE_SECONDS : Z := 900.
Definition NONCE_TTL_GRACE_SECONDS : Z := 300.
Definition DEFAULT_LEASE_HARD_GRACE_MS : Z := 3600000.
(** CERTOPS_JOB_LEASE_SECONDS, CERTOPS_LEASE_HARD_GRACE_MS and
    CERTOPS_CAPABILITY_FRESHNESS_MS of the environment. *)
Record environment := mkEnv {
  env_lease : option string; env_grace : option string; env_freshness : option string;
  env_signing_key : option string }.
Definition positive_or (default : Z) (raw : option string) (ok : Z → bool) : Z :=
  match env_int raw with Some n => if ok n && (0 <? n) then n else default | None => default end.
Definition jobLeaseSeconds (e : environment) : Z :=
  positive_or DEFAULT_JOB_LEASE_SECONDS (env_lease e) (λ _, true).
Definition leaseHardGraceMs (e : environment) : Z :=
  positive_or DEFAULT_LEASE_HARD_GRACE_MS (env_grace e) is_safe.
(** [Math.ceil(ms / 1000)]. *)
Definition leaseHardGraceSeconds (e : environment) : Z := - (- leaseHardGraceMs e / 1000).
Definition dispatchNonceTtlSeconds (e : environment) : Z :=
  jobLeaseSeconds e + leaseHardGraceSeconds e + NONCE_TTL_GRACE_SECONDS.

Lemma positive_or_pos default raw ok : 0 < default → 0 < positive_or default raw ok.
Proof.
  intros H. unfold positive_or. destruct (env_int raw) as [n|]; [|done].
  destruct (ok n && (0 <? n)) eqn:E; [|done]. apply andb_prop in E as [_ E]. by apply Z.ltb_lt.
Qed.
Lemma jobLeaseSeconds_pos e : 0 < jobLeaseSeconds e.
Proof. by apply positive_or_pos. Qed.
Lemma leaseHardGrace_pos e : 0 < leaseHardGraceMs e.
Proof. by apply positive_or_pos. Qed.
Lemma leaseHardGraceSeconds_covers e : leaseHardGraceMs e <= leaseHardGraceSeconds e * 1000.
Proof. unfold leaseHardGraceSeconds. pose proof (Z.mul_div_le (- leaseHardGraceMs e) 1000). lia. Qed.
Lemma dispatchNonceTtl_pos e : 0 < dispatchNonceTtlSeconds e.
Proof.
  unfold dispatchNonceTtlSeconds, NONCE_TTL_GRACE_SECONDS. pose proof (jobLeaseSeconds_pos e).
  pose proof (leaseHardGraceSeconds_covers e). pose proof (leaseHardGrace_pos e). lia.
Qed.

(** * Tables *)

(** The claim columns of certificate_jobs. *)
Record claim := mkClaim {
  claimed_by_agent_id : option string; claim_id : option string;
  lease_expires_at : option Z; lease_renewed_at : option Z }.
Definition no_claim : claim := mkClaim None None None None.
Record approval := mkApproval {
  approved_at : option Z; approved_payload_hash : option string;
  approved_canonical_intent_hash : option string }.
Definition no_approval : approval := mkApproval None None None.
Record job := mkJob {
  j_row : JobRequest.row;                      (* the columns creation writes *)
  j_claim : claim; attempt_count : Z; max_attempts : Z;
  scheduled_for : option Z; next_attempt_at : option Z;
  j_approval : approval; j_created_at : Z;
  needs_operator_reconciliation : bool; reconciliation_reason : option string }.
(** A row as creation inserts it: the other columns have their defaults. *)
Definition fresh_job (createdAt : Z) (r : JobRequest.row) : job :=
  mkJob r no_claim 0 3 None None no_approval createdAt false None.

Definition j_id (j : job) : string := r_id (j_row j).
Definition j_operation (j : job) : job_operation := r_operation (j_row j).
Definition j_state (j : job) : job_status := r_status (j_row j).
Definition j_payload (j : job) : jsval := r_payload (j_row j).
Definition claimed_by (j : job) : option string := claimed_by_agent_id (j_claim j).

(** The row of an ended or moved job: status, error, result, times. *)
Definition with_outcome (status : job_status) (errorCode errorMessage : option string) (meta : jsval)
    (times : lifecycle) (r : JobRequest.row) : JobRequest.row :=
  mkRow (r_id r) (r_workspaceId r) (r_operation r) status (r_mode r) (r_source r) (r_routing r)
    (r_requestedByUserId r) (r_requestedByApiTokenId r) (r_requestedByConnectionId r)
    (r_idempotencyKey r) (r_subjectType r) (r_subjectId r) (r_payload r) meta errorCode errorMessage
    times (r_creationRequestHash r) (r_enrollmentId r).
Definition with_state (status : job_status) (r : JobRequest.row) : JobRequest.row :=
  with_outcome status (r_errorCode r) (r_errorMessage r) (r_resultMetadata r) (r_times r) r.
(** [COALESCE(column, NOW())]. *)
Definition coalesce (o : option Z) (now : Z) : option Z := Some (default now o).
Definition complete (now : Z) (t : lifecycle) : lifecycle :=
  mkLifecycle (queuedAt t) (startedAt t) (coalesce (completedAt t) now) (cancelledAt t).
Definition start_time (now : Z) (t : lifecycle) : lifecycle :=
  mkLifecycle (queuedAt t) (coalesce (startedAt t) now) (completedAt t) (cancelledAt t).
Definition queue_time (now : Z) (t : lifecycle) : lifecycle :=
  mkLifecycle (coalesce (queuedAt t) now) (startedAt t) (completedAt t) (cancelledAt t).
Definition cancel_time (now : Z) (t : lifecycle) : lifecycle :=
  mkLifecycle (queuedAt t) (startedAt t) (completedAt t) (coalesce (cancelledAt t) now).
Definition with_times (f : lifecycle → lifecycle) (r : JobRequest.row) : JobRequest.row :=
  with_outcome (r_status r) (r_errorCode r) (r_errorMessage r) (r_resultMetadata r) (f (r_times r)) r.

(** A row with other row and claim columns. *)
Definition set_job (f : JobRequest.row → JobRequest.row) (c : claim) (j : job) : job :=
  mkJob (f (j_row j)) c (attempt_count j) (max_attempts j) (scheduled_for j) (next_attempt_at j)
    (j_approval j) (j_created_at j) (needs_operator_reconciliation j) (reconciliation_reason j).
Definition reconcile (needs : bool) (reason : option string) (j : job) : job :=
  mkJob (j_row j) (j_claim j) (attempt_count j) (max_attempts j) (scheduled_for j) (next_attempt_at j)
    (j_approval j) (j_created_at j) needs reason.

Inductive agent_status := agent_active | agent_offline | agent_retired_status | agent_other.
#[global] Instance agent_status_eq_dec : EqDecision agent_status.
Proof. solve_decision. Defined.
(** certops_agents. *)
Record agent_row := mkAgentRow {
  last_sequence : Z; a_status : agent_status; a_diagnostic : bool; a_platform : jsval;
  declared_target_selectors : jsval; declared_command_profile_names : jsval;
  supported_dns_providers : jsval; supported_operations : jsval; a_capabilities : jsval;
  capabilities_updated_at : option Z; last_seen_at : option Z; a_created_at : Z }.
(** The authenticated caller: the agent of the credential. *)
Record caller := mkCaller {
  c_id : string; c_workspaceId : string; c_agentId : string; c_retired : bool }.

(** A row of certificate_job_log, and a CERTOPS_JOB_FAILED audit event. *)
Record log_row := mkLog { l_job : string; l_event : string; l_status : job_status }.
Record failure := mkFailure {
  f_job : string; f_status : job_status; f_errorCode : option string; f_reconciliation : bool }.

(** managed_certificates, as far as a deploy dispatch reads it. *)
Record certificate_row := mkCertificateRow {
  certificate_pem : jsval; fingerprint_sha256 : jsval; common_name : jsval; subject_alt_names : jsval }.
(** certops_job_approvals. *)
Inductive verdict := granted | refused | invalidated.
Record decision_row := mkDecision {
  v_job : string; v_decision : verdict; v_by : option string;
  v_payloadHash : option string; v_intentHash : option string }.

(** The clock of PostgreSQL (NOW() of the transaction) and of Node. *)
Record clock := mkClock { db_now : Z; app_now : Z }.

Class Others := {
  W : Type;
  (* certops_guard_job_identity_start and certops_guard_management_job_claim *)
  start_blocked : W → job → job → bool;
  retirement_overlaps : W → job → job → bool;
  (* utils/secretMaterial, outbox.js *)
  redact : string → string;
  validPayload : string → jsval → bool;
  (* materialDistribution.js *)
  resolveDistributionJob : W → job → result string unit;
  acceptPublicationReceipt : W → caller → job → jsval → result string W;
  acceptDeploymentReceipt : W → caller → job → jsval → result string (W * (bool * bool));
  failDeployment : W → caller → job → job_status → W;
  (* what retryDistributionJob asks of the group, the rollout and its authority *)
  lockGroup : W → job → result string unit;
  retryAuthority : W → job → result string W;
  resetDeployment : W → job → W;
  (* certificateEnrollments.js *)
  recordEnrollmentResult : W → job → jsval → result string W;
  recordPreflightResult : W → job → jsval → job_status → result string W;
  attachEnrollment : W → job → result string (W * option (list (string * jsval)));
  (* trustAnchors.js *)
  revalidateTrustJob : W → job → W * result string (jsval * jsval);
  ingestTrustJobResult : W → job → jsval → result string W;
  onTrustJobTerminalTransition : W → job → job_status → result string W;
  (* this file's reconciliation of certificates with evidence *)
  reconcileCertificates : W → caller → job → result string W;
  (* agentJobLogs.js, jobApprovals.js, operator/jobAuthority.js, managementClaim.js *)
  closeClaimStream : W → job → W;
  openStream : W → caller → job → W;
  requestApprovable : W → job → bool;
  assistantReview : W → job → option string;
  jobAuthority : W → job → bool;
  connectionActive : W → Z → job → bool;
  managementAdmits : W → job → bool;
  (* managed_certificates, rollouts and periods as claimJobs selects on them *)
  subjectProvisioning : W → job → bool;
  candidate : W → Z → job → bool;
  managedCertificate : W → string → jsval → option certificate_row;
  hasPrivateKeyMaterial : string → bool;
  (* workspaceKillSwitch.js: paused or disabled, or busy *)
  workspaceAdmits : W → string → result string bool;
  requiresApprovalAlways : W → string → bool;
  agentCompatibility : caller → option compatibility }.

Section dispatch.
Context {ot : Others}.

Record db := mkDispatch {
  jobs : gmap string job; agents : gmap string agent_row; signing : JobSigning.db;
  decisions : list decision_row; job_log : list log_row; failures : list failure; outbox : list event; others : W }.
Definition set_jobs (m : gmap string job) (d : db) : db :=
  mkDispatch m (agents d) (signing d) (decisions d) (job_log d) (failures d) (outbox d) (others d).
Definition set_agents (m : gmap string agent_row) (d : db) : db :=
  mkDispatch (jobs d) m (signing d) (decisions d) (job_log d) (failures d) (outbox d) (others d).
Definition set_signing (s : JobSigning.db) (d : db) : db :=
  mkDispatch (jobs d) (agents d) s (decisions d) (job_log d) (failures d) (outbox d) (others d).
Definition set_outbox (l : list event) (d : db) : db :=
  mkDispatch (jobs d) (agents d) (signing d) (decisions d) (job_log d) (failures d) l (others d).
Definition set_others (w : W) (d : db) : db :=
  mkDispatch (jobs d) (agents d) (signing d) (decisions d) (job_log d) (failures d) (outbox d) w.
Definition add_log (l : log_row) (d : db) : db :=
  mkDispatch (jobs d) (agents d) (signing d) (decisions d) (job_log d ++ [l]) (failures d) (outbox d) (others d).
Definition add_decision (v : decision_row) (d : db) : db :=
  mkDispatch (jobs d) (agents d) (signing d) (decisions d ++ [v]) (job_log d) (failures d) (outbox d) (others d).
Definition add_failure (f : failure) (d : db) : db :=
  mkDispatch (jobs d) (agents d) (signing d) (decisions d) (job_log d) (failures d ++ [f]) (outbox d) (others d).

(** * Transactions *)

(** A transaction in progress: it throws, or goes on with the tables. *)
Definition tx (A : Type) : Type := db → result dispatch_error (db * A).
#[global] Instance tx_ret : MRet tx := λ A a d, Ok (d, a).
#[global] Instance tx_bind : MBind tx := λ A B f m d,
  match m d with Ok (d, a) => f a d | Err e => Err e end.
Definition fail {A} (e : dispatch_error) : tx A := λ _, Err e.
Definition check (b : bool) (e : dispatch_error) : tx unit := λ d, if b then Ok (d, tt) else Err e.
Definition read {A} (f : db → A) : tx A := λ d, Ok (d, f d).
Definition modify (f : db → db) : tx unit := λ d, Ok (f d, tt).
(** A service call that only touches the other tables. *)
Definition service {A} (f : W → result string (W * A)) : tx A := λ d,
  match f (others d) with
  | Ok (w, a) => Ok (set_others w d, a)
  | Err code => Err (other_failure code)
  end.
Definition service_ (f : W → result string W) : tx unit :=
  service (λ w, match f w with Ok w => Ok (w, tt) | Err code => Err code end).

(** [withTransaction]: COMMIT, or ROLLBACK and rethrow. *)
Definition withTransaction {A} (m : tx A) (d : db) : db * result dispatch_error A :=
  match m d with Ok (d', a) => (d', Ok a) | Err e => (d, Err e) end.

Lemma tx_bind_ok {A B} (m : tx A) (f : A → tx B) d d' b :
  (m ≫= f) d = Ok (d', b) ↔ ∃ d1 a, m d = Ok (d1, a) ∧ f a d1 = Ok (d', b).
Proof.
  unfold mbind, tx_bind. destruct (m d) as [[d1 a]|e]; [naive_solver|].
  split; [done|]. by intros (? & ? & ? & _).
Qed.
Lemma withTransaction_ok {A} (m : tx A) d d' a : withTransaction m d = (d', Ok a) ↔ m d = Ok (d', a).
Proof. unfold withTransaction. destruct (m d) as [[]|]; naive_solver. Qed.
Lemma withTransaction_err {A} (m : tx A) d d' e : withTransaction m d = (d', Err e) → d' = d.
Proof. unfold withTransaction. destruct (m d) as [[]|]; naive_solver. Qed.

(** UPDATE certificate_jobs ... WHERE id = $1 RETURNING *, with the triggers
    before it: they refuse a start, or add a reconciliation. *)
Definition update_job (id : string) (f : job → job) : tx job := λ d,
  match jobs d !! id with
  | None => Err (other_failure "no row")
  | Some old =>
      if start_blocked (others d) old (f old) then Err (other_failure "55000") else
      let new := if retirement_overlaps (others d) old (f old)
                 then reconcile true
                        (Some (default "certificate_retirement_overlapped_execution"
                                 (reconciliation_reason (f old)))) (f old)
                 else f old in
      Ok (set_jobs (<[id := new]> (jobs d)) d, new)
  end.

(** [enqueueOutboxEvent] on the transaction's connection. *)
Definition record_event (ev : event) : tx unit := λ d,
  match enqueueOutboxEvent validPayload ev (outbox d) with
  | Some l => Ok (set_outbox l d, tt)
  | None => Err outbox_rejected
  end.

(** * The message sequence of an agent *)

Definition envelopeSequence (envelope : jsval) : option Z :=
  match get "sequence" envelope with
  | Num (Fin n) => if 1 <=? n then Some n else None
  | _ => None
  end.
Definition with_sequence (n : Z) (a : agent_row) : agent_row :=
  mkAgentRow n (a_status a) (a_diagnostic a) (a_platform a) (declared_target_selectors a)
    (declared_command_profile_names a) (supported_dns_providers a) (supported_operations a)
    (a_capabilities a) (capabilities_updated_at a) (last_seen_at a) (a_created_at a).
Definition enforceAgentSequence (agentRowId : string) (envelope : jsval) : tx unit := λ d,
  match envelopeSequence envelope with
  | None =>
      let lastSequence := match agents d !! agentRowId with Some a => last_sequence a | None => 0 end in
      if 0 <? lastSequence then Err CERTOPS_AGENT_SEQUENCE_REGRESSION else Ok (d, tt)
  | Some sequence =>
      match agents d !! agentRowId with
      | Some a =>
          if last_sequence a <? sequence
          then Ok (set_agents (<[agentRowId := with_sequence sequence a]> (agents d)) d, tt)
          else Err CERTOPS_AGENT_SEQUENCE_REGRESSION
      | None => Err CERTOPS_AGENT_SEQUENCE_REGRESSION
      end
  end.

(** * [renewJobLease] *)

(** [String(column || "") === String(value)]. *)
Definition column_is (column : option string) (value : string) : bool :=
  bool_decide (default EmptyString column = value).
(** The row of [WHERE id = $1 AND workspace_id = $2 FOR UPDATE]. *)
Definition select_job (jobId workspaceId : string) : tx job := λ d,
  match jobs d !! toLowerCase jobId with
  | Some j => if bool_decide (r_workspaceId (j_row j) = workspaceId)
              then Ok (d, j) else Err CERTOPS_AGENT_JOB_NOT_FOUND
  | None => Err CERTOPS_AGENT_JOB_NOT_FOUND
  end.
Definition nonempty_text (v : jsval) : option string :=
  match v with Str EmptyString => None | Str s => Some s | _ => None end.
Definition is_material (j : job) : bool :=
  truthy (get "publication" (j_payload j)) || truthy (get "materialDeployment" (j_payload j)).
Definition in_lease (s : job_status) : bool := bool_decide (s = claimed) || bool_decide (s = running).

Record lease_reply := mkLeaseReply {
  lr_jobId : string; lr_claimId : string; lr_leaseExpiresAt : Z; lr_nonceExpiresAt : option Z }.
Definition renew_row (k : clock) (e : environment) (j : job) : job :=
  set_job (λ r, with_times (start_time (db_now k)) (with_state running r))
    (mkClaim (claimed_by j) (claim_id (j_claim j))
       (Some (db_now k + jobLeaseSeconds e * 1000)) (Some (db_now k))) j.
Definition extend_nonce (k : clock) (e : environment) (c : caller) (jobId : string) : tx (option Z) := λ d,
  let '(s, expiresAt) := extendJobNonceExpiry (db_now k) jobId (c_workspaceId c) (Some (c_id c))
                           (Fin (dispatchNonceTtlSeconds e)) (signing d) in
  Ok (set_signing s d, expiresAt).
Definition renewJobLease (k : clock) (e : environment) (c : caller) (jobId claimId envelope : jsval)
  : tx lease_reply :=
  match nonempty_text jobId, nonempty_text claimId with
  | Some jobId, Some claimId =>
      _ ← enforceAgentSequence (c_id c) envelope;
      j ← select_job jobId (c_workspaceId c);
      _ ← check (bool_decide (executorKind (r_routing (j_row j)) = agent)) CERTOPS_AGENT_JOB_NOT_FOUND;
      _ ← check (column_is (claimed_by j) (c_id c) && column_is (claim_id (j_claim j)) claimId)
            CERTOPS_AGENT_CLAIM_OWNERSHIP_MISMATCH;
      _ ← check (in_lease (j_state j)) CERTOPS_AGENT_LEASE_INVALID;
      _ ← (if is_material j then
             _ ← check (app_now k <? default 0 (lease_expires_at (j_claim j))) CERTOPS_AGENT_LEASE_INVALID;
             service (λ w, match resolveDistributionJob w j with Ok _ => Ok (w, tt) | Err code => Err code end)
           else mret tt);
      updated ← update_job (j_id j) (renew_row k e);
      nonceExpiresAt ← extend_nonce k e c (j_id j);
      mret (mkLeaseReply (j_id updated) (default EmptyString (claim_id (j_claim updated)))
              (default 0 (lease_expires_at (j_claim updated))) nonceExpiresAt)
  | _, _ => fail CERTOPS_AGENT_LEASE_INVALID
  end.
End dispatch.
