(* ===== verification/EnrollmentLifecycle.v ===== *)
(** The life of a certificate enrollment at an asynchronous CA:
    apps/api/services/certops/enrollmentLifecycle.js.

    Everything here is pure: the state machine ([FORWARD]) and the search over
    it that result ingestion uses, the decision what to do with an enrollment
    whose poll date has come ([decideContinuation]), the issuer configuration
    frozen into it, and the fields its jobs carry.  The database around it is
    in Enrollments.  The schema validator (Ajv) and SHA-256 are the class
    [Contracts]. *)
From S2P Require Import Prelude Net Json Signing JobRequest.
From stdpp Require Import relations.
Open Scope Z_scope.

Inductive enrollment_error :=
| CERTOPS_ISSUER_KIND_INVALID | CERTOPS_SNAPSHOT_INVALID | CERTOPS_ENROLLMENT_TRANSITION_INVALID
| CERTOPS_SIGNING_PAYLOAD_TOO_LARGE | CERTOPS_ENROLLMENT_DISPATCH_ONLY
| CERTOPS_ISSUER_NOT_FOUND | CERTOPS_PREFLIGHT_RATE_LIMITED | CERTOPS_ENROLLMENT_OPEN
| CERTOPS_PROFILE_NOT_FOUND | CERTOPS_PROFILE_ISSUER_NOT_SELECTED | CERTOPS_PROFILE_ISSUER_MISMATCH
| CERTOPS_ISSUER_REVALIDATION_REQUIRED | CERTOPS_ENROLLMENT_REPLAY | CERTOPS_ENROLLMENT_UNBOUND
| CERTOPS_ENROLLMENT_NOT_FOUND | CERTOPS_AGENT_RESULT_STATUS_INVALID | CERTOPS_CERTIFICATE_RETIRED
| CERTOPS_ENROLLMENT_JOB_ACTIVE | CERTOPS_ENROLLMENT_RECOVERY_ACK_REQUIRED
| CERTOPS_ENROLLMENT_RECOVERY_REASON_INVALID
(* a TypeError, and an error of another service *)
| type_error | other_failure (code : string).
#[global] Instance enrollment_error_eq_dec : EqDecision enrollment_error.
Proof. solve_decision. Defined.

(** * Breadth-first search *)

Section search.
Context {A : Type} `{EqDecision A} (next : A → list A).

(** The inner loop over the successors of one node: [None] when [goal] is
    among them before the loop ends. *)
Fixpoint visit (goal : A) (succs seen queue : list A) : option (list A * list A) :=
  match succs with
  | [] => Some (seen, queue)
  | x :: succs =>
      if bool_decide (x = goal) then None
      else if bool_decide (x ∈ seen) then visit goal succs seen queue
      else visit goal succs (seen ++ [x]) (queue ++ [x])
  end.
(** The outer loop; [None] is out of fuel. *)
Fixpoint bfs (fuel : nat) (goal : A) (seen queue : list A) : option bool :=
  match fuel, queue with
  | _, [] => Some false
  | O, _ => None
  | S fuel, current :: queue =>
      match visit goal (next current) seen queue with
      | None => Some true
      | Some (seen, queue) => bfs fuel goal seen queue
      end
  end.

Notation edge := (λ x y, y ∈ next x).

(** What a pass over the successors adds. *)
Lemma visit_spec goal succs seen queue :
  match visit goal succs seen queue with
  | None => goal ∈ succs
  | Some (seen', queue') => goal ∉ succs ∧ ∃ new, seen' = seen ++ new ∧ queue' = queue ++ new ∧
      (∀ x, x ∈ new → x ∈ succs) ∧ (∀ x, x ∈ succs → x ∈ seen') ∧ (NoDup seen → NoDup seen')
  end.
Proof.
  revert seen queue. induction succs as [|x succs IH]; intros seen queue; cbn.
  - split; [by apply not_elem_of_nil|]. exists []. rewrite !app_nil_r. split_and!; [done..|set_solver|set_solver|done].
  - case_bool_decide as Hg; [subst; by left|]. case_bool_decide as Hs.
    + specialize (IH seen queue). destruct (visit _ _ _ _) as [[s q]|]; [|by right].
      destruct IH as (Hn & new & -> & -> & H1 & H2 & H3). split; [set_solver|]. exists new.
      split_and!; [done|done|set_solver| |done]. intros y [->|Hy]%elem_of_cons; [set_solver|by apply H2].
    + specialize (IH (seen ++ [x]) (queue ++ [x])). destruct (visit _ _ _ _) as [[s q]|]; [|by right].
      destruct IH as (Hn & new & -> & -> & H1 & H2 & H3). split; [set_solver|].
      exists (x :: new). rewrite <- !app_assoc. split_and!; [done|done|set_solver| |].
      * intros y [->|Hy]%elem_of_cons; [set_solver|]. specialize (H2 y Hy). by rewrite <- app_assoc in H2.
      * intros Hd. rewrite <- app_assoc in H3. apply H3. apply NoDup_app. split_and!; [done|set_solver|by apply NoDup_singleton].
Qed.

(** What was seen is reachable; what is no longer queued is explored. *)
Record searching (from goal : A) (seen queue : list A) : Prop := {
  se_start : from ∈ seen;
  se_reached : ∀ x, x ∈ seen → rtc edge from x;
  se_queue : ∀ x, x ∈ queue → x ∈ seen;
  se_goal : goal ∉ seen;
  se_closed : ∀ x, x ∈ seen → x ∉ queue → ∀ y, y ∈ next x → y ∈ seen }.

Lemma searching_step from goal seen queue current :
  searching from goal seen (current :: queue) →
  match visit goal (next current) seen queue with
  | None => rtc edge from goal
  | Some (seen', queue') => searching from goal seen' queue'
  end.
Proof.
  intros [H0 H1 H2 H3 H4]. pose proof (visit_spec goal (next current) seen queue) as Hv.
  assert (Hc : rtc edge from current) by (apply H1, H2; by left).
  destruct (visit _ _ _ _) as [[s q]|].
  - destruct Hv as (Hn & new & -> & -> & N1 & N2 & _). constructor.
    + set_solver.
    + intros x [Hx|Hx]%elem_of_app; [by apply H1|]. eapply rtc_r; [exact Hc|by apply N1].
    + set_solver.
    + set_solver.
    + intros x Hx Hq y Hy. destruct (decide (x = current)) as [->|Hne]; [by apply N2|].
      apply elem_of_app. left. apply (H4 x); [set_solver|set_solver|done].
  - eapply rtc_r; [exact Hc|exact Hv].
Qed.

(** Once the queue is empty, everything reachable was seen. *)
Lemma searching_done from goal seen : searching from goal seen [] → ¬ rtc edge from goal.
Proof.
  intros [H0 _ _ H3 H4] Hr. apply H3. clear H3. induction Hr as [x|x y z Hxy _ IH]; [done|].
  apply IH. by apply (H4 x); [|apply not_elem_of_nil|].
Qed.

Lemma bfs_sound fuel from goal seen queue b : searching from goal seen queue →
  bfs fuel goal seen queue = Some b → b = true ↔ rtc edge from goal.
Proof.
  revert seen queue. induction fuel as [|fuel IH]; intros seen [|current queue] Hs; cbn; try done.
  - intros [= <-]. split; [done|]. intros Hr. by destruct (searching_done _ _ _ Hs).
  - intros [= <-]. split; [done|]. intros Hr. by destruct (searching_done _ _ _ Hs).
  - apply searching_step in Hs. destruct (visit _ _ _ _) as [[s q]|]; [by apply IH|]. by intros [= <-].
Qed.

(** Every node enters the queue once, so the nodes not seen and the queue are
    a measure. *)
Lemma bfs_total (all : list A) fuel goal seen queue : NoDup seen → seen ⊆ all →
  (∀ x, x ∈ all → next x ⊆ all) → queue ⊆ all →
  (length all + length queue <= fuel + length seen)%nat → is_Some (bfs fuel goal seen queue).
Proof.
  intros Hd Hs Ha. revert seen queue Hd Hs. induction fuel as [|fuel IH]; intros seen [|current queue] Hd Hs Hq Hl; cbn; try by eexists.
  - exfalso. pose proof (submseteq_length _ _ (NoDup_submseteq _ _ Hd Hs)). cbn in Hl. lia.
  - pose proof (visit_spec goal (next current) seen queue) as Hv.
    destruct (visit _ _ _ _) as [[s q]|]; [|by eexists].
    destruct Hv as (_ & new & -> & -> & N1 & _ & N3).
    assert (new ⊆ all) as Hna by (intros x Hx; apply (Ha current); [apply Hq; by left|by apply N1]).
    apply IH; [by apply N3|set_solver|set_solver|]. rewrite !length_app. cbn in Hl. lia.
Qed.
End search.

(** * States *)

Inductive enrollment_state :=
| requested | prepared | submitting | pending_issuance | submission_uncertain | issued
| validation_deferred | validated | installing | installed | install_failed | denied
| rejected_invalid | validation_expired | refused | abandoned | expired | cancelled.
#[global] Instance enrollment_state_eq_dec : EqDecision enrollment_state.
Proof. solve_decision. Defined.
Definition ENROLLMENT_STATES : list enrollment_state :=
  [requested; prepared; submitting; pending_issuance; submission_uncertain; issued;
   validation_deferred; validated; installing; installed; install_failed; denied;
   rejected_invalid; validation_expired; refused; abandoned; expired; cancelled].
Definition state_name (s : enrollment_state) : string :=
  match s with
  | requested => "requested" | prepared => "prepared" | submitting => "submitting"
  | pending_issuance => "pending_issuance" | submission_uncertain => "submission_uncertain"
  | issued => "issued" | validation_deferred => "validation_deferred" | validated => "validated"
  | installing => "installing" | installed => "installed" | install_failed => "install_failed"
  | denied => "denied" | rejected_invalid => "rejected_invalid"
  | validation_expired => "validation_expired" | refused => "refused" | abandoned => "abandoned"
  | expired => "expired" | cancelled => "cancelled"
  end.
Definition FORWARD (s : enrollment_state) : list enrollment_state :=
  match s with
  | requested => [prepared; refused; cancelled]
  | prepared => [submitting; refused; cancelled]
  | submitting => [pending_issuance; issued; denied; submission_uncertain; refused; cancelled]
  | submission_uncertain => [pending_issuance; issued; abandoned; refused; cancelled]
  | pending_issuance => [issued; denied; expired; cancelled; refused]
  | issued => [validated; rejected_invalid; validation_deferred; refused]
  | validation_deferred => [validated; rejected_invalid; validation_expired; refused]
  | validated => [installing; refused]
  | installing => [installed; install_failed]
  | install_failed => [installed]
  | _ => []
  end.
Definition TERMINAL : list enrollment_state :=
  [refused; denied; abandoned; expired; cancelled; rejected_invalid; validation_expired; installed].
Definition CONTINUATION_STATES : list enrollment_state :=
  [installing; pending_issuance; submitting; submission_uncertain; validation_deferred; cancelled;
   expired; abandoned].
Definition ISSUER_KINDS : list string := ["acme"; "adcs"].
Definition assertIssuerKind (kind : string) : result enrollment_error string :=
  if bool_decide (kind ∈ ISSUER_KINDS) then Ok kind else Err CERTOPS_ISSUER_KIND_INVALID.

(** Every state enters the queue at most once: as much fuel as there are states. *)
Definition search_fuel : nat := length ENROLLMENT_STATES.
Definition canReachEnrollmentState (from to : enrollment_state) : bool :=
  if bool_decide (from = to) then true
  else default false (bfs FORWARD search_fuel to [from] [from]).
Definition assertForwardTransition (from to : enrollment_state) : result enrollment_error unit :=
  if canReachEnrollmentState from to then Ok tt else Err CERTOPS_ENROLLMENT_TRANSITION_INVALID.
Definition assertDirectTransition (from to : enrollment_state) : result enrollment_error unit :=
  if bool_decide (to ∈ FORWARD from) then Ok tt else Err CERTOPS_ENROLLMENT_TRANSITION_INVALID.

(** * Values *)

Definition UNREACHABLE_ERROR : string := "ADCS_CA_UNREACHABLE".
Definition DISPOSITION_UNKNOWN : string := "ADCS_DISPOSITION_UNKNOWN".
Definition REQUEST_ID_MAX : Z := 2147483647.
Definition in_request_range (n : Z) : bool := (1 <=? n) && (n <=? REQUEST_ID_MAX).
(** A number in the model is an integer or not finite; there are no bigints. *)
Definition parseRequestId (value : jsval) : option Z :=
  match value with
  | Num (Fin n) => if in_request_range n then Some n else None
  | Str s =>
      if nonempty_all is_digit s then
        let parsed := decimal s in if in_request_range parsed then Some parsed else None
      else None
  | _ => None
  end.
(** Times in milliseconds. *)
Definition nextPollAt (now seconds : Z) : Z := now + seconds * 1000.

(** [out[key] = ...] in sorted order; assigning "__proto__" makes no property. *)
Definition canonicalize : jsval → jsval :=
  fix go (v : jsval) : jsval :=
    match v with
    | Arr l => Arr (map go l)
    | Obj fs => Obj (Object_fromEntries (List.filter (λ kv, negb (bool_decide (kv.1 = "__proto__"%string)))
                       (sort_keys (map_vals go fs))))
    | _ => v
    end.

(** * The frozen issuer configuration *)

Class Contracts := {
  validateSnapshot : jsval → bool;            (* Ajv, on enrollment-snapshot.schema.json *)
  sha256_hex : string → string }.             (* of bytes *)

Record snapshot_input := mkInput {
  in_issuerId : jsval; in_issuerVersion : jsval; in_caConfig : jsval; in_caKeySha256 : jsval;
  in_template : jsval; in_transport : jsval; in_authorizedDnsNames : jsval; in_keyAlgorithm : jsval;
  in_keySize : jsval; in_policyVersion : jsval; in_pollInterval : jsval; in_pendingTimeout : jsval;
  in_minimumRemainingValidity : jsval; in_requireLaterNotAfter : jsval }.
Definition DEFAULT_POLL_INTERVAL_SECONDS : Z := 900.
Definition DEFAULT_PENDING_TIMEOUT_SECONDS : Z := 14 * 24 * 60 * 60.
(** [v === undefined ? d : v]. *)
Definition or_default (v d : jsval) : jsval := match v with Undef => d | _ => v end.
Definition snapshot_of (i : snapshot_input) : list (string * jsval) :=
  [("schemaVersion", Num (Fin 1)); ("kind", Str "adcs"); ("issuerId", in_issuerId i);
   ("issuerVersion", in_issuerVersion i); ("caConfig", in_caConfig i);
   ("caKeySha256", in_caKeySha256 i); ("template", in_template i);
   ("transport", js_or (in_transport i) (Str "dcom"));
   ("authorizedDnsNames", in_authorizedDnsNames i); ("keyAlgorithm", in_keyAlgorithm i);
   ("keySize", in_keySize i); ("policyVersion", js_or (in_policyVersion i) (Num (Fin 1)));
   ("pollInterval", or_default (in_pollInterval i) (Num (Fin DEFAULT_POLL_INTERVAL_SECONDS)));
   ("pendingTimeout", or_default (in_pendingTimeout i) (Num (Fin DEFAULT_PENDING_TIMEOUT_SECONDS)));
   ("minimumRemainingValidity", or_default (in_minimumRemainingValidity i) (Num (Fin 0)));
   ("requireLaterNotAfter", or_default (in_requireLaterNotAfter i) (Bool false))].

Record frozen := mkFrozen { fz_snapshot : jsval; fz_bytes : string; fz_sha256 : string; fz_b64 : string }.
Definition freezeSnapshot {ct : Contracts} (input : snapshot_input) : result enrollment_error frozen :=
  let snapshot := Obj (snapshot_of input) in
  _ ← ensure (same_js (Some "dcom"%string) (get "transport" snapshot)) CERTOPS_SNAPSHOT_INVALID;
  _ ← ensure (match get "authorizedDnsNames" snapshot with Arr (_ :: _) => true | _ => false end)
        CERTOPS_SNAPSHOT_INVALID;
  let text := JSON_stringify (canonicalize snapshot) in
  let bytes := utf8_encode text in
  _ ← ensure (slen bytes <=? 28 * 1024) CERTOPS_SNAPSHOT_INVALID;
  match JSON_parse text with
  | None => Err type_error
  | Some parsed =>
      _ ← ensure (validateSnapshot parsed) CERTOPS_SNAPSHOT_INVALID;
      Ok (mkFrozen snapshot bytes (sha256_hex bytes) (b64_encode bytes))
  end.

(** [JSON.parse(Buffer.from(bytes).toString("utf8"))]. *)
Definition read_snapshot (bytes : string) : option jsval := text ← utf8_decode bytes; JSON_parse text.

(** * What to do with an enrollment whose poll date has come *)

(** [enrollmentView] of certificateEnrollments.js. *)
Record view := mkView {
  v_id : string; v_state : enrollment_state; v_attempt : Z; v_snapshotB64 : string;
  v_snapshotSha256 : string; v_operatorRequestId : option Z; v_pendingSince : option Z;
  v_nextPollAt : option Z; v_lastErrorCode : option string; v_activeJob : bool;
  v_certificateId : option string; v_agentId : option string; v_deployTarget : jsval }.
Inductive continuation_reason :=
| retrieve_reconciliation | pending_timeout | resume_installation | unreachable | reconcile
| free_key | poll.
#[global] Instance continuation_reason_eq_dec : EqDecision continuation_reason.
Proof. solve_decision. Defined.
Inductive continuation := Move (state : enrollment_state) (reason : continuation_reason)
| Dispatch (reason : continuation_reason).
#[global] Instance continuation_eq_dec : EqDecision continuation.
Proof. solve_decision. Defined.
Definition num_opt (o : option Z) : jsval := match o with Some n => Num (Fin n) | None => Null end.

(** The pending timeout is in seconds; its contract makes it an integer. *)
Definition decideContinuation (e : view) (pendingTimeout : jsval) (now : Z) : option continuation :=
  if negb (bool_decide (v_state e ∈ CONTINUATION_STATES)) then None else
  if v_activeJob e then None else
  let overdue := match v_state e, v_pendingSince e, pendingTimeout with
                 | pending_issuance, Some since, Num (Fin seconds) => since + seconds * 1000 <=? now
                 | _, _, _ => false
                 end in
  if overdue then
    if bool_decide (v_lastErrorCode e = Some DISPOSITION_UNKNOWN)
    then Some (Move submission_uncertain retrieve_reconciliation)
    else Some (Move expired pending_timeout)
  else if match v_nextPollAt e with Some next => now <? next | None => false end then None else
  match v_state e with
  | installing => Some (Dispatch resume_installation)
  | submitting => if bool_decide (v_lastErrorCode e = Some UNREACHABLE_ERROR) then Some (Dispatch unreachable) else None
  | submission_uncertain =>
      match parseRequestId (num_opt (v_operatorRequestId e)) with
      | None => None
      | Some _ => Some (Dispatch reconcile)
      end
  | cancelled | expired | abandoned => Some (Dispatch free_key)
  | pending_issuance | validation_deferred => Some (Dispatch poll)
  | _ => None
  end.

(** * The job payload *)

Definition ADCS_METADATA_MAX_BYTES : Z := 4096.
(** [metadata] is [None] when the caller gives none.  The code's own check of
    [issuerKind] and [enrollment] comes after building the object, which has
    neither. *)
Definition storedAdcsPayload (certificateId target : jsval) (metadata : option jsval)
  : result enrollment_error (list (string * jsval)) :=
  let payload := [("schemaVersion", Num (Fin 1)); ("certificateId", certificateId);
                  ("keyMode", Str "os-store-managed"); ("target", target)] in
  match metadata with
  | None => Ok payload
  | Some metadata =>
      if nullish metadata then Ok payload else
      _ ← ensure (utf8_length (JSON_stringify metadata) <=? ADCS_METADATA_MAX_BYTES) CERTOPS_SIGNING_PAYLOAD_TOO_LARGE;
      Ok (payload ++ [("metadata", metadata)])
  end.

Definition RECONCILE_HINT : string := "adcs.reconcileRequestId".
Definition hint (requestId : Z) : jsval := Obj [("name", Str RECONCILE_HINT); ("value", Num (Fin requestId))].
Definition is_hint (entry : jsval) : bool := truthy entry && same_js (Some RECONCILE_HINT) (get "name" entry).
Definition cleanup_state (s : enrollment_state) : bool := bool_decide (s ∈ [expired; cancelled; abandoned]).
(** [stored] is the payload of the job row, an object. *)
Definition attachEnrollmentDispatch (stored : list (string * jsval)) (e : view)
  : result enrollment_error (list (string * jsval)) :=
  if truthy (get "issuerKind" (Obj stored)) || truthy (get "enrollment" (Obj stored))
  then Err CERTOPS_ENROLLMENT_DISPATCH_ONLY else
  let kept_entries := match get "metadata" (Obj stored) with
                      | Arr l => List.filter (λ entry, negb (is_hint entry)) l
                      | _ => []
                      end in
  let requestId := parseRequestId (num_opt (v_operatorRequestId e)) in
  let metadata := kept_entries ++ match requestId with Some n => [hint n] | None => [] end in
  let enrollment := Obj (
    [("enrollmentId", Str (v_id e)); ("attempt", Num (Fin (v_attempt e)));
     ("snapshotB64", Str (v_snapshotB64 e)); ("snapshotSha256", Str (v_snapshotSha256 e))]
    ++ match v_state e, requestId with
       | submission_uncertain, Some n => [("reconcileRequestId", Num (Fin n))]
       | _, _ => []
       end
    ++ (if cleanup_state (v_state e) then [("terminalState", Str (state_name (v_state e)))] else [])) in
  let fields := assoc_set "enrollment" enrollment (assoc_set "issuerKind" (Str "adcs") stored) in
  Ok (match metadata with [] => fields | _ => assoc_set "metadata" (Arr metadata) fields end).
Definition assertPayloadHasNoEnrollmentFields (payload : jsval) : result enrollment_error unit :=
  if hasOwn "issuerKind" payload || hasOwn "enrollment" payload
  then Err CERTOPS_ENROLLMENT_DISPATCH_ONLY else Ok tt.

Definition is_safe_verdict (check : jsval) : bool := same_js (Some "safe"%string) (get "verdict" check).
(** [preflight] of an issuer row: an object or null. *)
Definition confirmedKeyAllowed (preflight : jsval) (caKeySha256 : string) : bool :=
  truthy preflight && is_safe_verdict (get "templateCheck" preflight) && is_safe_verdict (get "caCheck" preflight)
  && existsb (λ cert, truthy cert && same_js (Some caKeySha256) (get "keySha256" cert))
       (match get "caCertificates" preflight with Arr l => l | _ => [] end).

(** * The state machine *)

Lemma all_states s : s ∈ ENROLLMENT_STATES.
Proof. apply (bool_decide_unpack _). destruct s; reflexivity. Qed.
Lemma search_ends from to : is_Some (bfs FORWARD search_fuel to [from] [from]).
Proof.
  apply (bfs_total FORWARD ENROLLMENT_STATES).
  - apply NoDup_singleton.
  - intros x _. apply all_states.
  - intros x _ y _. apply all_states.
  - intros x _. apply all_states.
  - unfold search_fuel. cbn [length]. lia.
Qed.
Definition forward (s t : enrollment_state) : Prop := t ∈ FORWARD s.
#[global] Instance forward_dec s t : Decision (forward s t).
Proof. unfold forward. apply _. Defined.

Lemma canReach_iff from to : canReachEnrollmentState from to = true ↔ rtc forward from to.
Proof.
  unfold canReachEnrollmentState. case_bool_decide as E; [by subst|].
  destruct (search_ends from to) as [b Hb]. rewrite Hb. cbn. eapply bfs_sound; [|exact Hb].
  constructor; set_solver.
Qed.
(** The states in an order that every transition respects. *)
Definition rank (s : enrollment_state) : Z :=
  match s with
  | requested => 0 | prepared => 1 | submitting => 2 | submission_uncertain => 3
  | pending_issuance => 4 | issued => 5 | validation_deferred => 6 | validated => 7
  | installing => 8 | install_failed => 9 | _ => 10
  end.
Lemma forward_rank s t : forward s t → rank s < rank t.
Proof. unfold forward. intros H. destruct s; cbn in H; repeat (apply elem_of_cons in H as [->|H]; [cbn; lia|]); by apply elem_of_nil in H. Qed.
Lemma reach_rank s t : rtc forward s t → s = t ∨ rank s < rank t.
Proof.
  induction 1 as [s|s u t Hsu _ IH]; [by left|]. right. apply forward_rank in Hsu. destruct IH as [->|]; lia.
Qed.
Lemma terminal_iff s : s ∈ TERMINAL ↔ FORWARD s = [].
Proof. apply (bool_decide_unpack _). destruct s; vm_compute; exact I. Qed.
Lemma terminal_reach s t : s ∈ TERMINAL → rtc forward s t → t = s.
Proof.
  intros Hs%terminal_iff Hr. inversion Hr as [|? u ? Hsu]; subst; [done|].
  unfold forward in Hsu. rewrite Hs in Hsu. by apply elem_of_nil in Hsu.
Qed.

(** * The frozen configuration is read back *)

Lemma canonicalize_obj fs : canonicalize (Obj fs) =
  Obj (Object_fromEntries (List.filter (λ kv, negb (bool_decide (kv.1 = "__proto__"%string))) (sort_keys (map_vals canonicalize fs)))).
Proof. reflexivity. Qed.
Lemma filter_perm_keys {A} (f : string * A → bool) l : NoDup l.*1 → NoDup (List.filter f l).*1.
Proof. intros H. by eapply sublist_NoDup; [|apply filter_sublist_fst]. Qed.
Lemma canonical_keys (fs : list (string * jsval)) : NoDup fs.*1 →
  NoDup (Object_fromEntries (List.filter (λ kv, negb (bool_decide (kv.1 = "__proto__"%string))) (sort_keys fs))).*1.
Proof. intros H. rewrite fromEntries_perm. apply filter_perm_keys. by rewrite sort_keys_perm. Qed.
Lemma canonicalize_wf v : wf v → wf (canonicalize v).
Proof.
  induction v as [| |b|num|s|l IH|fs IH] using jsval_ind'; try done.
  - rewrite wf_arr. intros H. change (wf (Arr (map canonicalize l))). apply wf_arr, Forall_map.
    rewrite Forall_forall in *. auto.
  - rewrite wf_obj. intros [Hnd H]. rewrite canonicalize_obj, wf_obj. split.
    + apply canonical_keys. by rewrite map_vals_fst.
    + rewrite fromEntries_perm. rewrite Forall_forall in *. intros kv Hkv.
      apply list_elem_of_In, filter_In in Hkv as [Hkv _]. apply list_elem_of_In in Hkv. rewrite sort_keys_perm in Hkv.
      apply list_elem_of_fmap in Hkv as ([k x] & -> & Hx). cbn. apply (IH _ Hx). by apply (H _ Hx).
Qed.
(** A field that is not [undefined], in the text's value. *)
Lemma canonical_field fs k v : NoDup fs.*1 → (k, v) ∈ fs → k ≠ "__proto__"%string → kept (k, canonicalize v) = true →
  get k (jsonify (canonicalize (Obj fs))) = jsonify (canonicalize v).
Proof.
  intros Hnd Hin Hk Hv. rewrite canonicalize_obj, jsonify_obj. cbn [get].
  set (L := map_vals jsonify _).
  assert (NoDup L.*1) as HL.
  { unfold L. rewrite map_vals_fst. apply filter_perm_keys, canonical_keys. by rewrite map_vals_fst. }
  assert ((k, jsonify (canonicalize v)) ∈ L) as HinL.
  { unfold L. apply list_elem_of_fmap. exists (k, canonicalize v). split; [done|].
    apply list_elem_of_In, filter_In. split; [|done]. apply list_elem_of_In. rewrite fromEntries_perm.
    apply list_elem_of_In, filter_In. cbn. split; [|by rewrite bool_decide_eq_false_2].
    apply list_elem_of_In. rewrite sort_keys_perm. apply list_elem_of_fmap. by exists (k, v). }
  by rewrite (proj2 (assoc_get_Some_NoDup k _ L HL) HinL).
Qed.
Lemma snapshot_keys i : NoDup (snapshot_of i).*1 ∧ "__proto__"%string ∉ (snapshot_of i).*1.
Proof. split; apply (bool_decide_unpack _); vm_compute; exact I. Qed.
Lemma freeze_ok {ct : Contracts} i fz : freezeSnapshot i = Ok fz → wf (Obj (snapshot_of i)) →
  ∃ p, read_snapshot (fz_bytes fz) = Some p ∧ validateSnapshot p = true ∧ fz_sha256 fz = sha256_hex (fz_bytes fz) ∧
    slen (fz_bytes fz) <= 28 * 1024 ∧
    ∀ k v, (k, v) ∈ snapshot_of i → kept (k, canonicalize v) = true → get k p = jsonify (canonicalize v).
Proof.
  intros H Hwf. unfold freezeSnapshot in H. cbv zeta in H.
  apply bind_ok in H as (u1 & _ & H). apply bind_ok in H as (u2 & _ & H). apply bind_ok in H as (u3 & Hlen & H).
  apply ensure_ok, Z.leb_le in Hlen. rewrite JSON_parse_stringify in H by (by apply canonicalize_wf).
  apply bind_ok in H as (u4 & Hval & H). apply ensure_ok in Hval. apply (f_equal (λ r, match r with Ok a => a | Err _ => fz end)) in H.
  subst fz.
  eexists. unfold read_snapshot. cbn [fz_bytes fz_sha256]. rewrite utf8_decode_encode. cbn [mbind option_bind].
  rewrite JSON_parse_stringify by (by apply canonicalize_wf). split; [done|]. split; [done|]. split; [done|]. split; [done|].
  intros k v Hin Hk. destruct (snapshot_keys i) as [Hnd Hp]. apply canonical_field; [done..| |done].
  intros ->. apply Hp. apply list_elem_of_fmap. by eexists (_, v).
Qed.

(** C21: The search of result ingestion ends within its fuel for every pair of
    states and admits a report exactly when the reported state can be reached
    from the current one by transitions of the table; no two different states
    reach each other, and nothing is reached from a terminal state. *)
Theorem forward_transitions_exact from to :
  is_Some (bfs FORWARD search_fuel to [from] [from]) ∧
  (assertForwardTransition from to = Ok tt ↔ rtc forward from to) ∧
  (rtc forward from to → rtc forward to from → from = to) ∧
  (from ∈ TERMINAL → assertForwardTransition from to = Ok tt → to = from).
Proof.
  assert (assertForwardTransition from to = Ok tt ↔ rtc forward from to) as H.
  { rewrite <- canReach_iff. unfold assertForwardTransition. by destruct (canReachEnrollmentState from to). }
  split_and!; [|exact H| |].
  - apply search_ends.
  - intros H1%reach_rank H2%reach_rank. destruct H1 as [E|H1]; [exact E|]. destruct H2 as [E|H2]; [by symmetry|lia].
  - intros Ht Hr%H. by eapply terminal_reach.
Qed.

(** What the comment of [attachEnrollmentDispatch] rules out: a hint of the
    stored payload goes out although the row has no proposal. *)
Lemma stale_hint_dispatched e n : parseRequestId (num_opt (v_operatorRequestId e)) = None →
  ∃ fields, attachEnrollmentDispatch [("metadata", Arr [hint n])] e = Ok fields ∧
    get "metadata" (Obj fields) = Arr [hint n].
Proof.
  intros H. unfold attachEnrollmentDispatch. rewrite H. cbn. eexists. split; [done|]. done.
Qed.
