(* ===== verification/Enrollments.v ===== *)
(** Certificate enrollments at an AD CS issuer:
    apps/api/services/certops/certificateEnrollments.js.

    Issuers with their confirmed versions, enrollments, and the jobs that
    carry them out.  Each operation is one transaction on the rows it locks
    ([txn]); only the agent's report reads and writes without a lock, so it is
    two statements ([read_report], [write_report]).  Jobs are rows of Dispatch;
    they are created through the interface [JobService], which EnrollmentJobs
    discharges for [createCertificateJob].  Audit events are left out.  Times
    are in milliseconds. *)
From S2P Require Import Prelude Dates Net Json Jobs JobFields RenewalCapacity Signing Db JobRequest.
From S2P Require Import Eligibility Dispatch EnrollmentLifecycle.
Open Scope Z_scope.

(** * Tables *)

(** What an INSERT sets for good. *)
Record fixed := mkFixed {
  certificate_id : option string; issuer_id : string; issuer_version : Z; agent_id : option string;
  snapshot_bytes : string; snapshot_sha256 : string; deploy_target : jsval }.
(** certificate_enrollments. *)
Record enrollment := mkEnrollment {
  e_fixed : fixed; e_state : enrollment_state; e_attempt : Z; request_id : option Z;
  operator_request_id : option Z; last_error_code : option string; pending_since : option Z;
  next_poll_at : option Z; current_job_id : option string; installed_at : option Z }.
(** certificate_issuers and certificate_issuer_versions. *)
Record issuer := mkIssuer {
  i_kind : string; i_name : string; current_version : Z; revalidation_required : bool;
  last_preflight : jsval; last_preflight_job_id : option string; preflight_seq : Z }.
Record version := mkVersion { ca_config : jsval; template : jsval; ca_key_sha256 : option string }.
Notation key := (string * string)%type.
(** Keys are (workspace, id). [identities] is the lifecycle status of the
    identity of a managed certificate. *)
Record db := mkDb {
  issuers : gmap key issuer; versions : gmap (string * string * Z) version;
  enrollments : gmap key enrollment; jobs : gmap string job; job_preflight_seq : gmap string Z;
  profiles : gmap key (option string); identities : gmap key string }.

Definition set_issuers m (d : db) : db :=
  mkDb m (versions d) (enrollments d) (jobs d) (job_preflight_seq d) (profiles d) (identities d).
Definition set_versions m (d : db) : db :=
  mkDb (issuers d) m (enrollments d) (jobs d) (job_preflight_seq d) (profiles d) (identities d).
Definition set_enrollments m (d : db) : db :=
  mkDb (issuers d) (versions d) m (jobs d) (job_preflight_seq d) (profiles d) (identities d).
Definition set_jobs m (d : db) : db :=
  mkDb (issuers d) (versions d) (enrollments d) m (job_preflight_seq d) (profiles d) (identities d).
Definition set_seqs m (d : db) : db :=
  mkDb (issuers d) (versions d) (enrollments d) (jobs d) m (profiles d) (identities d).

(** UPDATEs of an enrollment. *)
Definition with_poll (at_ : option Z) (e : enrollment) : enrollment :=
  mkEnrollment (e_fixed e) (e_state e) (e_attempt e) (request_id e) (operator_request_id e)
    (last_error_code e) (pending_since e) at_ (current_job_id e) (installed_at e).
Definition move_to (s : enrollment_state) (at_ : option Z) (e : enrollment) : enrollment :=
  mkEnrollment (e_fixed e) s (e_attempt e) (request_id e) (operator_request_id e)
    (last_error_code e) (pending_since e) at_ (current_job_id e) (installed_at e).
Definition with_job (attempt : Z) (jobId : string) (e : enrollment) : enrollment :=
  mkEnrollment (e_fixed e) (e_state e) attempt (request_id e) (operator_request_id e)
    (last_error_code e) (pending_since e) (next_poll_at e) (Some jobId) (installed_at e).
Definition with_operator (requestId : option Z) (at_ : option Z) (e : enrollment) : enrollment :=
  mkEnrollment (e_fixed e) (e_state e) (e_attempt e) (request_id e) requestId
    (last_error_code e) (pending_since e) at_ (current_job_id e) (installed_at e).
Definition with_error (code : option string) (e : enrollment) : enrollment :=
  mkEnrollment (e_fixed e) (e_state e) (e_attempt e) (request_id e) (operator_request_id e)
    code (pending_since e) (next_poll_at e) (current_job_id e) (installed_at e).
Definition first_attempt (e : enrollment) : enrollment :=
  mkEnrollment (e_fixed e) (e_state e) 1 (request_id e) (operator_request_id e)
    (last_error_code e) (pending_since e) (next_poll_at e) (current_job_id e) (installed_at e).

Definition put (k : key) (f : enrollment → enrollment) (d : db) : db :=
  set_enrollments (alter f k (enrollments d)) d.

(** * The interface to job creation *)

Class JobService := {
  (* [createCertificateJob] on the transaction's connection: the row and
     [created] *)
  create_job : Z → jsval → gmap string job → result string (job * bool) }.
(** PostgreSQL's input function of type uuid. *)
Class Postgres := { uuid_in : string → option string }.

Definition unstarted (s : job_status) : Prop := s = Jobs.pending_approval ∨ s = Jobs.pending.
(** What job creation promises, to callers that leave the status to it. *)
Class JobServiceLaws (js : JobService) := {
  create_new now o m j : create_job now o m = Ok (j, true) → nullish (get "status" o) = true →
    m !! j_id j = None ∧ unstarted (j_state j) ∧ j_created_at j = now ∧
    r_enrollmentId (j_row j) = js_or (get "enrollmentId" o) Null ∧
    (∀ name, get "operation" o = Str name → trim name ≠ EmptyString →
       trim name = enum_name JOB_OPERATION_SET (j_operation j)) ∧
    (∀ ws, get "workspaceId" o = Str ws → r_workspaceId (j_row j) = trim ws);
  create_old now o m j : create_job now o m = Ok (j, false) → truthy (get "idempotencyKey" o) = true }.

Definition opt_text (o : option string) : jsval := match o with Some s => Str s | None => Null end.

Section enrollments.
Context {ct : Contracts} {js : JobService} {pg : Postgres}.
Notation txn := (txn db enrollment_error).

(** A service's error; the transaction is rolled back. *)
Definition creating (now : Z) (options : jsval) : txn (job * bool) := λ d,
  match create_job now options (jobs d) with
  | Ok (j, true) => Ok (set_jobs (<[j_id j := j]> (jobs d)) d, (j, true))
  | Ok (j, false) => Ok (d, (j, false))
  | Err code => Err (other_failure code)
  end.

(** * Reading *)

Definition OPEN_ENROLLMENT_STATES : list enrollment_state :=
  [requested; prepared; submitting; pending_issuance; submission_uncertain; issued;
   validation_deferred; validated; installing; install_failed].
Definition is_open (e : enrollment) : bool := bool_decide (e_state e ∈ OPEN_ENROLLMENT_STATES).
(** The comparison [certificate_id = $2] reads its argument as a uuid. *)
Definition has_certificate (ws cert : string) (k : key) (e : enrollment) : bool :=
  bool_decide (k.1 = ws) && bool_decide (certificate_id (e_fixed e) = uuid_in cert)
  && bool_decide (is_Some (uuid_in cert)).
Definition findOpenEnrollment (ws cert : string) (d : db) : bool :=
  existsb (λ p, has_certificate ws cert p.1 p.2 && is_open p.2) (map_to_list (enrollments d)).
Definition identityRetired (ws : string) (cert : option string) (d : db) : bool :=
  match cert with
  | Some cert =>
      is_uuid cert &&
      match identities d !! (ws, cert) with
      | Some s => bool_decide (s ∈ RETIRED_STATUSES)
      | None => false
      end
  | None => false
  end.

(** The job an enrollment points at. *)
Definition job_in (ws id : string) (d : db) : option job :=
  j ← jobs d !! id; if bool_decide (r_workspaceId (j_row j) = ws) then Some j else None.
Definition job_status_of (ws : string) (e : enrollment) (d : db) : option job_status :=
  id ← current_job_id e; j ← job_in ws id d; Some (j_state j).
Definition is_active (s : option job_status) : bool :=
  match s with Some s => bool_decide (s ∈ ACTIVE_JOB_STATUSES) | None => false end.
Definition enrollmentView (id : string) (e : enrollment) (jobStatus : option job_status) : view :=
  let f := e_fixed e in
  mkView id (e_state e) (e_attempt e) (b64_encode (snapshot_bytes f)) (snapshot_sha256 f)
    (parseRequestId (num_opt (operator_request_id e))) (pending_since e) (next_poll_at e)
    (last_error_code e) (is_active jobStatus) (certificate_id f) (agent_id f) (deploy_target f).
Definition loadEnrollment (ws id : string) : txn enrollment :=
  e ← reads (λ d, enrollments d !! (ws, id)); of_result (match e with Some e => Ok e | None => Err CERTOPS_ENROLLMENT_NOT_FOUND end).

(** A number field of the snapshot, or its default when it is falsy. *)
Definition snapshot_number (k : string) (default : Z) (snapshot : jsval) : Z :=
  match get k snapshot with Num (Fin n) => if n =? 0 then default else n | _ => default end.

(** * Issuers *)

Definition createIssuer (ws id kind name : string) : txn issuer :=
  kind ← of_result (assertIssuerKind kind);
  let row := mkIssuer kind name 0 false Null None 0 in
  _ ← writes (λ d, set_issuers (<[(ws, id) := row]> (issuers d)) d);
  mret row.
Definition discardUnconfiguredIssuer (ws id : string) : txn unit :=
  free ← reads (λ d,
    match issuers d !! (ws, id) with
    | Some i => bool_decide (current_version i = 0)
        && negb (existsb (λ p, bool_decide (p.1.1 = ws) && bool_decide (issuer_id (e_fixed p.2) = id))
                   (map_to_list (enrollments d)))
    | None => false
    end);
  _ ← guard_tx free CERTOPS_ISSUER_NOT_FOUND;
  writes (λ d, set_issuers (delete (ws, id) (issuers d)) d).

Definition PREFLIGHT_PER_HOUR : Z := 20.
Definition HOUR_MS : Z := 3600000.
Definition recent_preflight (ws : string) (now : Z) (j : job) : bool :=
  bool_decide (r_workspaceId (j_row j) = ws) && bool_decide (j_operation j = adcs_preflight)
  && (now - HOUR_MS <? j_created_at j).
Definition recent_preflights (ws : string) (now : Z) (d : db) : Z :=
  Z.of_nat (length (List.filter (λ p, recent_preflight ws now p.2) (map_to_list (jobs d)))).
Definition set_preflight_seq (n : Z) (i : issuer) : issuer :=
  mkIssuer (i_kind i) (i_name i) (current_version i) (revalidation_required i) (last_preflight i)
    (last_preflight_job_id i) n.
(** The workspace's advisory lock is held from the count to the commit. *)
Definition dispatchPreflight (ws issuerId : string) (agentId caConfig tmpl : jsval) (now : Z) : txn job :=
  recent ← reads (recent_preflights ws now);
  _ ← guard_tx (recent <? PREFLIGHT_PER_HOUR) CERTOPS_PREFLIGHT_RATE_LIMITED;
  created ← creating now (Obj
    [("workspaceId", Str ws); ("operation", Str "adcs-preflight"); ("allowIssuerPreflight", Bool true);
     ("source", Str "api"); ("subjectType", Str "external"); ("subjectId", Str issuerId);
     ("assignedAgentId", agentId);
     ("payload", Obj [("schemaVersion", Num (Fin 1)); ("action", Str "adcs-preflight"); ("mode", Str "real");
                      ("caConfig", caConfig); ("template", tmpl); ("transport", Str "dcom"); ("issuerId", Str issuerId)])]);
  found ← reads (λ d, issuers d !! (ws, issuerId));
  i ← of_result (match found with Some i => Ok i | None => Err CERTOPS_ISSUER_NOT_FOUND end);
  let seq := preflight_seq i + 1 in
  _ ← writes (λ d, set_issuers (<[(ws, issuerId) := set_preflight_seq seq i]> (issuers d)) d);
  _ ← writes (λ d, set_seqs (<[j_id created.1 := seq]> (job_preflight_seq d)) d);
  mret created.1.

(** [a && a !== b], for an optional argument. *)
Definition differs (a b : jsval) : bool := truthy a && negb (strict_eq a b).
Definition confirm_version (n : Z) (i : issuer) : issuer :=
  mkIssuer (i_kind i) (i_name i) n false (last_preflight i) (last_preflight_job_id i) (preflight_seq i).
Definition confirmIssuerKey (ws id caKeySha256 : string) (caConfig tmpl : jsval) : txn Z :=
  found ← reads (λ d, issuers d !! (ws, id));
  i ← of_result (match found with Some i => Ok i | None => Err CERTOPS_ISSUER_NOT_FOUND end);
  _ ← guard_tx (bool_decide (i_kind i = "adcs"%string)) CERTOPS_ISSUER_KIND_INVALID;
  let preflight := last_preflight i in
  _ ← guard_tx (confirmedKeyAllowed preflight caKeySha256) CERTOPS_SNAPSHOT_INVALID;
  _ ← guard_tx (negb (differs caConfig (get "caConfig" preflight))) CERTOPS_SNAPSHOT_INVALID;
  _ ← guard_tx (negb (differs tmpl (get "template" preflight))) CERTOPS_SNAPSHOT_INVALID;
  let n := current_version i + 1 in
  (* the unique constraint on (workspace_id, issuer_id, version) *)
  taken ← reads (λ d, bool_decide (is_Some (versions d !! (ws, id, n))));
  _ ← guard_tx (negb taken) (other_failure "23505");
  _ ← writes (λ d, set_versions (<[(ws, id, n) :=
        mkVersion (get "caConfig" preflight) (get "template" preflight) (Some caKeySha256)]> (versions d)) d);
  _ ← writes (λ d, set_issuers (<[(ws, id) := confirm_version n i]> (issuers d)) d);
  mret n.

(** [preflightPayloadOf]; the column is JSON. *)
Definition preflightPayloadOf (j : job) : option jsval :=
  match j_payload j with
  | Str s => JSON_parse s
  | Obj _ as v | Arr _ as v => Some v
  | _ => None
  end.
(** The dispatch order of preflights: their sequence, then the job id. *)
Definition not_older (m : gmap string Z) (incoming stored : string) : bool :=
  match m !! incoming, m !! stored with
  | Some a, Some b => (b <? a) || ((a =? b) && negb (str_ltb incoming stored))
  | _, _ => false
  end.
Definition store_preflight (preflight : jsval) (jobId : string) (i : issuer) : issuer :=
  mkIssuer (i_kind i) (i_name i) (current_version i) (revalidation_required i) preflight (Some jobId)
    (preflight_seq i).
(** The WHERE clause of the UPDATE. *)
Definition accepts_preflight (ws jobId : string) (i : issuer) (d : db) : bool :=
  bool_decide (is_Some (job_in ws jobId d)) && bool_decide (is_Some (job_preflight_seq d !! jobId))
  && match last_preflight_job_id i with
     | None => true
     | Some stored => negb (bool_decide (is_Some (job_in ws stored d)))
                      || not_older (job_preflight_seq d) jobId stored
     end.
Definition recordPreflightResult (ws : string) (j : job) (preflightResult : jsval) (resultStatus : job_status)
    (contract_ok : bool) : txn unit :=
  _ ← guard_tx contract_ok CERTOPS_SNAPSHOT_INVALID;
  _ ← guard_tx (bool_decide (resultStatus = succeeded) && bool_decide (j_operation j = adcs_preflight))
        CERTOPS_AGENT_RESULT_STATUS_INVALID;
  payload ← of_result (match preflightPayloadOf j with Some p => Ok p | None => Err CERTOPS_SNAPSHOT_INVALID end);
  _ ← guard_tx (strict_eq (get "caConfig" payload) (get "caConfig" preflightResult)
                && strict_eq (get "template" payload) (get "template" preflightResult)) CERTOPS_SNAPSHOT_INVALID;
  match r_subjectId (j_row j) with
  | None | Some EmptyString => mret tt
  | Some issuerId =>
      writes (λ d, match issuers d !! (ws, issuerId) with
        | Some i => if accepts_preflight ws (j_id j) i d
                    then set_issuers (<[(ws, issuerId) := store_preflight preflightResult (j_id j) i]> (issuers d)) d
                    else d
        | None => d
        end)
  end.

(** * Creation *)

Record creation := mkCreation {
  cr_workspaceId : string; cr_issuerId : option string; cr_certificateId : option string;
  cr_agentId : option string; cr_target : jsval; cr_fields : snapshot_input; cr_profileId : option string;
  cr_automation : bool; cr_mode : jsval; cr_idempotencyKey : option string; cr_actor : jsval }.
Definition certificate_text (c : creation) : string := default EmptyString (cr_certificateId c).
(** The renewal profile decides the issuer; an empty identifier is none. *)
Definition resolve_issuer (c : creation) (d : db) : result enrollment_error (option string) :=
  match cr_profileId c with
  | None | Some EmptyString => Ok (cr_issuerId c)
  | Some profileId =>
      if negb (is_uuid profileId) then Err CERTOPS_PROFILE_NOT_FOUND else
      match profiles d !! (cr_workspaceId c, profileId) with
      | None => Err CERTOPS_PROFILE_NOT_FOUND
      | Some None => Err CERTOPS_PROFILE_ISSUER_NOT_SELECTED
      | Some (Some profileIssuerId) =>
          match cr_issuerId c with
          | None | Some EmptyString => Ok (Some profileIssuerId)
          | Some issuerId => if bool_decide (issuerId = profileIssuerId) then Ok (Some profileIssuerId)
                             else Err CERTOPS_PROFILE_ISSUER_MISMATCH
          end
      end
  end.
(** The confirmed current version of an issuer. *)
Definition confirmed_version (ws : string) (id : option string) (d : db) : option (string * issuer * version) :=
  id ← id; i ← issuers d !! (ws, id); v ← versions d !! (ws, id, current_version i);
  if bool_decide (is_Some (ca_key_sha256 v)) then Some (id, i, v) else None.
Definition freeze_input (c : creation) (id : string) (i : issuer) (v : version) : snapshot_input :=
  let f := cr_fields c in
  mkInput (Str id) (Num (Fin (current_version i))) (ca_config v) (opt_text (ca_key_sha256 v)) (template v) Undef
    (in_authorizedDnsNames f) (in_keyAlgorithm f) (in_keySize f) Undef (in_pollInterval f)
    (in_pendingTimeout f) (in_minimumRemainingValidity f) (in_requireLaterNotAfter f).
Definition iis_target (target : jsval) : bool := same_js (Some "windows-iis"%string) (get "type" target).
(** [freshId] is what gen_random_uuid() gives the row; [allowed_in] is what
    [lockWorkspaceForCertOpsSideEffect] says. *)
Definition createEnrollment (freshId : string) (allowed_in : result enrollment_error unit) (now : Z) (c : creation)
  : txn (string * string) :=
  let ws := cr_workspaceId c in
  _ ← guard_tx (iis_target (cr_target c) && truthy (get "binding" (cr_target c))) CERTOPS_SNAPSHOT_INVALID;
  _ ← of_result (if cr_automation c then allowed_in else Ok tt);
  open ← reads (λ d, is_uuid (certificate_text c) && findOpenEnrollment ws (certificate_text c) d);
  _ ← guard_tx (negb open) CERTOPS_ENROLLMENT_OPEN;
  resolved ← (λ d, of_result (resolve_issuer c d) d);
  found ← reads (confirmed_version ws resolved);
  civ ← of_result (match found with Some x => Ok x | None => Err CERTOPS_ISSUER_NOT_FOUND end);
  let '(id, i, v) := civ in
  _ ← guard_tx (negb (revalidation_required i)) CERTOPS_ISSUER_REVALIDATION_REQUIRED;
  _ ← of_result (assertIssuerKind (i_kind i));
  fz ← of_result (freezeSnapshot (freeze_input c id i v));
  (* the primary key, and the uuid the certificate id is read as *)
  taken ← reads (λ d, bool_decide (is_Some (enrollments d !! (ws, freshId))));
  _ ← guard_tx (negb taken) (other_failure "23505");
  certificate ← of_result (match cr_certificateId c with
                           | None => Ok None
                           | Some s => match uuid_in s with Some u => Ok (Some u) | None => Err (other_failure "22P02") end
                           end);
  let row := mkEnrollment (mkFixed certificate id (current_version i) (cr_agentId c) (fz_bytes fz) (fz_sha256 fz) (cr_target c))
               requested 0 None None None None None None None in
  _ ← writes (λ d, set_enrollments (<[(ws, freshId) := row]> (enrollments d)) d);
  payload ← of_result (storedAdcsPayload (opt_text (cr_certificateId c)) (cr_target c) None);
  created ← creating now (Obj
    [("workspaceId", Str ws); ("operation", Str "renew");
     ("source", Str (if cr_automation c then "automation" else "api")); ("mode", cr_mode c);
     ("requestedByUserId", cr_actor c); ("idempotencyKey", opt_text (cr_idempotencyKey c));
     ("subjectType", Str "managed_certificate"); ("subjectId", opt_text (cr_certificateId c));
     ("assignedAgentId", opt_text (cr_agentId c)); ("payload", Obj payload); ("enrollmentId", Str freshId);
     ("capacityBucket", Str (adcsCaBucket id))]);
  (* [created] is only returned to a caller that gave a key *)
  _ ← guard_tx (negb (truthy (opt_text (cr_idempotencyKey c)) && negb created.2)) CERTOPS_ENROLLMENT_REPLAY;
  _ ← writes (put (ws, freshId) (λ e, with_job (e_attempt e) (j_id created.1) e));
  mret (freshId, j_id created.1).

(** * The agent's report *)

(** enrollmentResult, as its contract gives it. *)
Record report := mkReport {
  rp_enrollmentId : string; rp_attempt : Z; rp_state : enrollment_state; rp_requestId : option Z;
  rp_errorCode : option string }.
Definition job_enrollment (j : job) : option string := nonempty_text (r_enrollmentId (j_row j)).

(** Everything before the UPDATE; its result is the row as read and the
    snapshot. *)
Definition read_report (ws : string) (j : job) (contract_ok : bool) (r : report) (d : db)
  : result enrollment_error (enrollment * jsval) :=
  _ ← ensure contract_ok CERTOPS_ENROLLMENT_TRANSITION_INVALID;
  match job_enrollment j with
  | None => Err CERTOPS_ENROLLMENT_UNBOUND
  | Some id =>
      _ ← ensure (bool_decide (rp_enrollmentId r = id)) CERTOPS_ENROLLMENT_UNBOUND;
      e ← match enrollments d !! (ws, id) with Some e => Ok e | None => Err CERTOPS_ENROLLMENT_NOT_FOUND end;
      _ ← ensure ((rp_attempt r =? e_attempt e) || (e_attempt e =? 0)) CERTOPS_ENROLLMENT_UNBOUND;
      _ ← assertForwardTransition (e_state e) (rp_state r);
      match read_snapshot (snapshot_bytes (e_fixed e)) with
      | Some snapshot => Ok (e, snapshot)
      | None => Err type_error
      end
  end.
Definition retries_candidate (e : enrollment) (r : report) : bool :=
  bool_decide (rp_state r = submission_uncertain)
  && bool_decide (is_Some (parseRequestId (num_opt (operator_request_id e)))).
Definition keeps_polling (e : enrollment) (r : report) : bool :=
  retries_candidate e r || bool_decide (rp_state r ∈ [pending_issuance; validation_deferred; installing])
  || (bool_decide (rp_state r = submitting) && bool_decide (rp_errorCode r = Some UNREACHABLE_ERROR)).
(** The SET clause, from the row as it was read; [id] and installed_at are
    those of the row as it is now. *)
Definition reported (e : enrollment) (snapshot : jsval) (r : report) (now : Z) (current : enrollment) : enrollment :=
  let pendingSince := match rp_state r, pending_since e with
                      | pending_issuance, None => Some now
                      | _, p => p
                      end in
  let nextAt := if keeps_polling e r
                then Some (nextPollAt now (snapshot_number "pollInterval" DEFAULT_POLL_INTERVAL_SECONDS snapshot))
                else None in
  mkEnrollment (e_fixed current) (rp_state r) (e_attempt current)
    (match rp_requestId r with Some n => Some n | None => request_id current end)
    (operator_request_id current)
    (match rp_errorCode r with Some EmptyString => None | c => c end)
    pendingSince nextAt (current_job_id current)
    (if bool_decide (rp_state r = installed) then Dispatch.coalesce (installed_at current) now else installed_at current).
Definition require_revalidation (i : issuer) : issuer :=
  mkIssuer (i_kind i) (i_name i) (current_version i) true (last_preflight i) (last_preflight_job_id i) (preflight_seq i).
Definition CA_KEY_CHANGED : string := "ADCS_CA_KEY_CHANGED".
(** The UPDATE of a row still in the state that was read, and that of its
    issuer. *)
Definition write_report (ws : string) (r : report) (now : Z) (e : enrollment) (snapshot : jsval) : txn unit := λ d,
  let k := (ws, rp_enrollmentId r) in
  match enrollments d !! k with
  | Some current =>
      if bool_decide (e_state current = e_state e) then
        let d := put k (reported e snapshot r now) d in
        let ik := (ws, issuer_id (e_fixed current)) in
        Ok (if bool_decide (rp_errorCode r = Some CA_KEY_CHANGED)
            then set_issuers (alter require_revalidation ik (issuers d)) d else d, tt)
      else Err CERTOPS_ENROLLMENT_TRANSITION_INVALID
  | None => Err CERTOPS_ENROLLMENT_TRANSITION_INVALID
  end.
(** Both statements, when nothing comes between them. *)
Definition recordEnrollmentResult (ws : string) (j : job) (contract_ok : bool) (r : report) (now : Z) : txn unit := λ d,
  match read_report ws j contract_ok r d with
  | Ok (e, snapshot) => write_report ws r now e snapshot d
  | Err e => Err e
  end.

(** * Operator decisions *)

(** [seen] is the row as an unlocked SELECT before the transaction gave it. *)
Definition proposeReconcileRequestId (ws id : string) (requestId : jsval) (seen : option enrollment) (now : Z) : txn unit :=
  e0 ← of_result (match seen with Some e => Ok e | None => Err CERTOPS_ENROLLMENT_NOT_FOUND end);
  _ ← guard_tx (bool_decide (e_state e0 = submission_uncertain)) CERTOPS_ENROLLMENT_TRANSITION_INVALID;
  parsed ← of_result (match parseRequestId requestId with Some n => Ok n | None => Err CERTOPS_ENROLLMENT_TRANSITION_INVALID end);
  e ← loadEnrollment ws id;
  _ ← guard_tx (bool_decide (e_state e = submission_uncertain)) CERTOPS_ENROLLMENT_TRANSITION_INVALID;
  retired ← reads (identityRetired ws (certificate_id (e_fixed e)));
  _ ← guard_tx (negb retired) CERTOPS_CERTIFICATE_RETIRED;
  writes (put (ws, id) (with_operator (Some parsed) (Some now))).

Definition RUNNING_JOB : list job_status := [Jobs.claimed; Jobs.running].
Definition UNSTARTED_JOB : list job_status := [Jobs.pending; Jobs.pending_approval; Jobs.approved].
Definition cancel_job (now : Z) (j : job) : job :=
  if bool_decide (j_state j ∈ UNSTARTED_JOB) then
    set_job (λ r, with_times (λ t, mkLifecycle (queuedAt t) (startedAt t) (completedAt t) (Some now))
                    (with_state Jobs.cancelled r)) (j_claim j) j
  else j.
Definition before_ca (s : enrollment_state) : bool := bool_decide (s ∈ [requested; prepared]).
Definition cancelEnrollment (ws id : string) (now : Z) : txn unit :=
  e ← loadEnrollment ws id;
  status ← reads (job_status_of ws e);
  _ ← guard_tx (match status with Some s => negb (bool_decide (s ∈ RUNNING_JOB)) | None => true end)
        CERTOPS_ENROLLMENT_JOB_ACTIVE;
  _ ← of_result (assertDirectTransition (e_state e) cancelled);
  _ ← writes (put (ws, id) (move_to cancelled (if before_ca (e_state e) then None else Some now)));
  match current_job_id e, status with
  | Some jobId, Some _ => writes (λ d, set_jobs (alter (cancel_job now) jobId (jobs d)) d)
  | _, _ => mret tt
  end.
Definition abandonEnrollment (ws id : string) (now : Z) : txn unit :=
  e ← loadEnrollment ws id;
  _ ← of_result (assertDirectTransition (e_state e) abandoned);
  writes (put (ws, id) (move_to abandoned (Some now))).
Definition countInstalledEnrollments (ws : string) (d : db) : Z :=
  Z.of_nat (length (List.filter (λ p, bool_decide (p.1.1 = ws) && bool_decide (e_state p.2 = installed))
                      (map_to_list (enrollments d)))).

(** * Continuations *)

Definition continuation_options (ws id : string) (e : enrollment) (payload : list (string * jsval)) (extra : list (string * jsval))
  : jsval :=
  Obj ([("workspaceId", Str ws); ("operation", Str "continue-enrollment"); ("allowEnrollmentContinuation", Bool true)]
       ++ extra ++
       [("subjectType", Str "managed_certificate"); ("subjectId", opt_text (certificate_id (e_fixed e)));
        ("assignedAgentId", opt_text (agent_id (e_fixed e))); ("payload", Obj payload); ("enrollmentId", Str id)]).
Definition operator_fields (actor : jsval) : list (string * jsval) :=
  [("source", Str "api"); ("requestedByUserId", js_or actor Null)].
(** A new job for the enrollment: the payload, the job, and the row's next
    attempt. *)
Definition continue_with (now : Z) (ws id : string) (e : enrollment) (metadata : option jsval)
    (extra : list (string * jsval)) (f : enrollment → enrollment) : txn string :=
  let attempt := e_attempt e + 1 in
  payload ← of_result (storedAdcsPayload (opt_text (certificate_id (e_fixed e))) (deploy_target (e_fixed e)) metadata);
  created ← creating now (continuation_options ws id e payload extra);
  _ ← writes (put (ws, id) (λ e, f (with_job attempt (j_id created.1) e)));
  mret (j_id created.1).
Definition has_target (e : enrollment) : bool :=
  iis_target (deploy_target (e_fixed e)) && match agent_id (e_fixed e) with None | Some EmptyString => false | _ => true end.

(** The current job is read again under the enrollment's lock. *)
Definition bound_job (ws id jobId : string) (d : db) : option job :=
  j ← job_in ws jobId d; if same_js (Some id) (r_enrollmentId (j_row j)) then Some j else None.
Definition retryEnrollmentInstallation (ws id : string) (actor : jsval) (allowed_in : result enrollment_error unit) (now : Z)
  : txn (string * bool) :=
  _ ← of_result allowed_in;
  e ← loadEnrollment ws id;
  _ ← guard_tx (bool_decide (e_state e = install_failed)) CERTOPS_ENROLLMENT_TRANSITION_INVALID;
  running ← (match current_job_id e with
             | Some jobId =>
                 current ← reads (bound_job ws id jobId);
                 j ← of_result (match current with Some j => Ok j | None => Err CERTOPS_ENROLLMENT_UNBOUND end);
                 mret (if is_active (Some (j_state j)) then Some jobId else None)
             | None => mret None
             end);
  match running with
  | Some jobId => mret (jobId, false)
  | None =>
      _ ← guard_tx (has_target e) CERTOPS_SNAPSHOT_INVALID;
      retired ← reads (identityRetired ws (certificate_id (e_fixed e)));
      _ ← guard_tx (negb retired) CERTOPS_CERTIFICATE_RETIRED;
      jobId ← continue_with now ws id e None (operator_fields actor) (with_poll None);
      mret (jobId, true)
  end.

(** Control characters. *)
Definition is_control (c : ascii) : bool := in_range 0 31 c || (code c =? 127).
Definition recovery_reason_ok (reason : jsval) : bool :=
  match reason with
  | Str s => (1 <=? slen (trim s)) && (slen (trim s) <=? 500) && sforall (λ c, negb (is_control c)) s
  | _ => false
  end.
Definition RECOVERY_HINT : string := "adcs.recoveryFromJobId".
Definition recovery_link (orphanedJobId : string) : jsval :=
  Obj [("name", Str RECOVERY_HINT); ("value", Str orphanedJobId)].
Definition links_to (orphanedJobId : string) (j : job) : bool :=
  match get "metadata" (j_payload j) with
  | Arr items => existsb (λ item, same_js (Some RECOVERY_HINT) (get "name" item)
                                  && same_js (Some orphanedJobId) (get "value" item)) items
  | _ => false
  end.
Definition recovery_states : list enrollment_state :=
  [requested; prepared; submitting; pending_issuance; submission_uncertain; issued; validation_deferred;
   validated; installing].
Definition agent_continuation (e : enrollment) (j : job) : bool :=
  bool_decide (r_mode (j_row j) = Some real) && bool_decide (executorKind (r_routing (j_row j)) = agent)
  && bool_decide (assignedAgentId (r_routing (j_row j)) = agent_id (e_fixed e)).
Definition awaits_recovery (e : enrollment) (j : job) : bool :=
  bool_decide (j_state j = orphaned_unknown_effect) && needs_operator_reconciliation j && agent_continuation e j
  && bool_decide (j_operation j ∈ [renew; continue_enrollment]).
Definition recoverOrphanedEnrollment (ws id : string) (orphanedJobId acknowledge reason actor : jsval)
    (allowed_in : result enrollment_error unit) (now : Z) : txn (string * bool) :=
  match orphanedJobId with
  | Str s =>
      _ ← guard_tx (is_uuid s) CERTOPS_ENROLLMENT_UNBOUND;
      let orphan := toLowerCase s in
      _ ← guard_tx (is_true acknowledge) CERTOPS_ENROLLMENT_RECOVERY_ACK_REQUIRED;
      _ ← guard_tx (recovery_reason_ok reason) CERTOPS_ENROLLMENT_RECOVERY_REASON_INVALID;
      _ ← of_result allowed_in;
      e ← loadEnrollment ws id;
      _ ← guard_tx (bool_decide (e_state e ∈ recovery_states)) CERTOPS_ENROLLMENT_TRANSITION_INVALID;
      original ← reads (bound_job ws id orphan);
      current ← reads (λ d, jobId ← current_job_id e; bound_job ws id jobId d);
      _ ← guard_tx (match original with Some j => awaits_recovery e j | None => false end) CERTOPS_ENROLLMENT_UNBOUND;
      if negb (bool_decide (current_job_id e = Some orphan)) then
        match current with
        | Some j =>
            if links_to orphan j && bool_decide (j_operation j = continue_enrollment) && agent_continuation e j
               && is_active (Some (j_state j))
            then mret (j_id j, false) else raise CERTOPS_ENROLLMENT_JOB_ACTIVE
        | None => raise CERTOPS_ENROLLMENT_JOB_ACTIVE
        end
      else
        _ ← guard_tx (has_target e) CERTOPS_SNAPSHOT_INVALID;
        retired ← reads (identityRetired ws (certificate_id (e_fixed e)));
        _ ← guard_tx (negb retired) CERTOPS_CERTIFICATE_RETIRED;
        jobId ← continue_with now ws id e (Some (Arr [recovery_link orphan])) (operator_fields actor) (with_poll None);
        mret (jobId, true)
  | _ => raise CERTOPS_ENROLLMENT_UNBOUND
  end.

(** The enrollment of a claimed job, at its first dispatch attempt 1. *)
Definition loadDispatchEnrollment (ws id : string) : txn (option view) :=
  found ← reads (λ d, enrollments d !! (ws, id));
  match found with
  | None => mret None
  | Some e =>
      status ← reads (job_status_of ws e);
      let v := enrollmentView id e status in
      let attempt := if 0 <? v_attempt v then v_attempt v else 1 in
      _ ← (if v_attempt v =? 0
           then writes (put (ws, id) first_attempt)
           else mret tt);
      mret (Some (mkView (v_id v) (v_state v) attempt (v_snapshotB64 v) (v_snapshotSha256 v) (v_operatorRequestId v)
        (v_pendingSince v) (v_nextPollAt v) (v_lastErrorCode v) (v_activeJob v) (v_certificateId v) (v_agentId v)
        (v_deployTarget v)))
  end.

(** * The maintenance sweep *)

Definition due_at (now : Z) (e : enrollment) : bool :=
  match next_poll_at e with Some t => t <=? now | None => false end.
Definition claimDueEnrollment (ws id : string) (now : Z) : txn bool := λ d,
  match enrollments d !! (ws, id) with
  | Some e => if due_at now e then Ok (put (ws, id) (with_poll None) d, true) else Ok (d, false)
  | None => Ok (d, false)
  end.
Definition RETRIEVAL_RECONCILIATION : string := "ADCS_RETRIEVAL_RECONCILIATION_REQUIRED".
Definition needs_reconciliation (e : enrollment) : enrollment :=
  move_to submission_uncertain None (with_operator None None (with_error (Some RETRIEVAL_RECONCILIATION) e)).
(** A dispatch that can retrieve and install. *)
Definition can_install (c : continuation) : bool :=
  match c with Dispatch r => negb (bool_decide (r = free_key)) | Move _ _ => false end.
Definition expire (e : enrollment) : enrollment := move_to expired (next_poll_at e) e.
Definition keeps_retry_date (c : continuation) : bool :=
  match c with
  | Move _ _ => true
  | Dispatch r => bool_decide (r ∈ [free_key; reconcile; resume_installation])
  end.
(** A candidate that gets a continuation job, or none because its identity is
    retired. *)
Definition sweep_continue (now : Z) (ws id : string) (e : enrollment) (interval : Z) (c : continuation)
  : txn (option (string * Z)) :=
  retired ← reads (identityRetired ws (certificate_id (e_fixed e)));
  if can_install c && retired then
    _ ← claimDueEnrollment ws id now; mret None
  else
    _ ← guard_tx (iis_target (deploy_target (e_fixed e))) CERTOPS_SNAPSHOT_INVALID;
    claimed ← claimDueEnrollment ws id now;
    if negb claimed then mret None else
    _ ← writes (match c with Move _ _ => put (ws, id) expire | Dispatch _ => λ d, d end);
    let requestId := parseRequestId (num_opt (operator_request_id e)) in
    jobId ← continue_with now ws id e (option_map (λ n, Arr [hint n]) requestId) []
              (if keeps_retry_date c then with_poll (Some (nextPollAt now interval)) else (λ e, e));
    mret (Some (jobId, e_attempt e + 1)).
(** One candidate; [None] when there is nothing to do for it. *)
Definition sweep_row (now : Z) (ws id : string) : txn (option (string * Z)) :=
  found ← reads (λ d, enrollments d !! (ws, id));
  match found with
  | None => mret None
  | Some e =>
      status ← reads (job_status_of ws e);
      snapshot ← of_result (match read_snapshot (snapshot_bytes (e_fixed e)) with Some s => Ok s | None => Err type_error end);
      match decideContinuation (enrollmentView id e status) (get "pendingTimeout" snapshot) now with
      | None => mret None
      | Some (Move submission_uncertain _) =>
          claimed ← claimDueEnrollment ws id now;
          _ ← writes (if (claimed : bool) then put (ws, id) needs_reconciliation else λ d, d);
          mret None
      | Some c =>
          sweep_continue now ws id e (snapshot_number "pollInterval" DEFAULT_POLL_INTERVAL_SECONDS snapshot) c
      end
  end.
(** The candidates are read first; each row is its own transaction, and an
    error skips it.  [busy] are rows locked by others. *)
Definition due_enrollments (now : Z) (d : db) : list key :=
  map fst (List.filter (λ p, due_at now p.2) (map_to_list (enrollments d))).
Fixpoint sweep_rows (now : Z) (busy : key → bool) (candidates : list key) (d : db) : db * list (key * (string * Z)) :=
  match candidates with
  | [] => (d, [])
  | k :: candidates =>
      if busy k then sweep_rows now busy candidates d else
      let '(d, r) := transact (sweep_row now k.1 k.2) d in
      let '(d, created) := sweep_rows now busy candidates d in
      (d, match r with Ok (Some dispatched) => (k, dispatched) :: created | _ => created end)
  end.
Definition scheduleDueEnrollments (now : Z) (busy : key → bool) (d : db) : db * list (key * (string * Z)) :=
  sweep_rows now busy (due_enrollments now d) d.
End enrollments.
