(* ===== verification/EnrollmentJobs.v ===== *)
(** [createCertificateJob] as the job service of the enrollments.

    Its program is run undisturbed on the rows of the job table, as its
    statements run inside the caller's transaction; what JobReplay knows of a
    run gives the laws the enrollments rely on. *)
From S2P Require Import Prelude Dates Net Json Jobs JobFields RenewalCapacity Db JobRequest JobCreation JobReplay.
From S2P Require Import Eligibility Dispatch EnrollmentLifecycle Enrollments.
Open Scope Z_scope.

Section service.
Context {dp : DateParse} {sv : Services}.
(** The other tables, the configured cap, and gen_random_uuid(). *)
Context (tables : JobRequest.db) (env : option string) (newId : gmap string job → string).

Definition creation_failed : string := "job creation refused".
Definition certificate_job_service : JobService := {|
  create_job now o m :=
    match (run (createCertificateJob env now (newId m) o) (with_jobs (j_row <$> m) tables)).2 with
    | Ok (r, true) => Ok (fresh_job now r, true)
    | Ok (r, false) => match m !! r_id r with Some j => Ok (j, false) | None => Err creation_failed end
    | Err _ => Err creation_failed
    end |}.

Lemma key_replay p r d job : (run (insert_or_replay p r) d).2 = Ok (job, false) → r_idempotencyKey r = p_idempotencyKey p →
  p_idempotencyKey p ≠ None.
Proof.
  unfold insert_or_replay. rewrite run_bind. cbn [run query]. intros H Hr Hn. rewrite Hn in *.
  unfold insert_job in H. destruct (certificate_jobs d !! r_id r); [done|]. rewrite Hr in H. cbn in H.
  destruct (truthy _); cbn in H; [|done]. by destruct (allocateMaterialVersion _ _).
Qed.
Lemma run_keyed env' now freshId options d job :
  (run (createCertificateJob env' now freshId options) d).2 = Ok (job, false) →
  ∃ p key, (run (prepare_job now options) d).2 = Ok p ∧ p_idempotencyKey p = Some key.
Proof.
  unfold createCertificateJob. cbv zeta. intros H.
  apply run_reads_ok in H as (p & Hp & H); [|apply prepare_reads_only]. exists p.
  destruct (p_idempotencyKey p) as [key|] eqn:Ek; [by exists key|]. exfalso.
  apply run_reads_ok in H as ([y|] & Hy & H); [done| |done].
  apply run_reads_ok in H as (? & _ & H); [|apply identity_reads_only].
  apply run_reads_ok in H as (? & _ & H); [|apply capacity_reads_only].
  apply run_lift_ok in H as (connection & _ & H). rewrite run_catch in H.
  pose proof (key_replay p (new_row freshId p connection (get "enrollmentId" options)) d job) as Hk.
  destruct (run (insert_or_replay _ _) d) as [d' [a|e]]; cbn in Hk, H; [|done]. injection H as ->. by apply Hk.
Qed.

Lemma status_default (b c : bool) a v :
  normalizeEnum JOB_STATUS_SET CERTOPS_JOB_STATUS_INVALID
    (Some (if b then "pending_approval"%string else "pending"%string)) (if c then Str "pending_approval" else v) = Ok a →
  nullish v = true → unstarted a.
Proof.
  intros H Hv. unfold unstarted. destruct c; [apply normalizeEnum_forced in H; vm_compute in H; left; congruence|].
  destruct v; try done; destruct b; vm_compute in H; (left; congruence) || (right; congruence).
Qed.
Lemma enum_trim name a : normalizeEnum JOB_OPERATION_SET CERTOPS_JOB_OPERATION_INVALID None (Str name) = Ok a →
  trim name = enum_name JOB_OPERATION_SET a.
Proof.
  unfold normalizeEnum. cbn -[JOB_OPERATION_SET assoc_get]. generalize (trim name). intros t.
  cbn. repeat (case_decide as Ht; [intros [= <-]; by rewrite Ht|clear Ht]). done.
Qed.
(** The laws hold when generated ids are new. *)
Lemma certificate_job_laws : (∀ m, m !! newId m = None) → JobServiceLaws certificate_job_service.
Proof.
  intros Hnew. constructor; cbn [create_job certificate_job_service]; intros now o m j.
  - destruct (run _ _) as [d' [[r []]|e]] eqn:Erun; cbn [snd]; [|by destruct (m !! r_id r)|done]. intros [= <-] Hst.
    destruct (run_created env now (newId m) o (with_jobs (j_row <$> m) tables) r) as (p & connection & Hp & ->); [by rewrite Erun|].
    apply prepare_determined in Hp. cbn. split; [done|]. split.
    { pose proof (det_status _ _ _ Hp) as Hs. unfold effective_status in Hs. by eapply status_default. }
    do 2 (split; [done|]). split.
    + intros name Hname Hne. pose proof (det_op _ _ _ Hp) as Ho. rewrite Hname in Ho.
      assert (js_or (Str name) (get "jobType" o) = Str name) as E by (by destruct name).
      rewrite E in Ho. by apply enum_trim in Ho.
    + intros ws Hws. pose proof (det_ws _ _ _ Hp) as Hw. rewrite Hws in Hw. unfold normalizeWorkspaceId in Hw. cbn in Hw.
      case_bool_decide; congruence.
  - destruct (run _ _) as [d' [[r []]|e]] eqn:Erun; cbn [snd]; [done| |done]. intros _.
    destruct (run_keyed env now (newId m) o (with_jobs (j_row <$> m) tables) r) as (p & key & Hp & Hk); [by rewrite Erun|].
    apply prepare_determined in Hp. pose proof (det_key _ _ _ Hp) as Hn. rewrite Hk in Hn.
    destruct (get "idempotencyKey" o) as [| |b|n|t|l|fs]; try done. by destruct t.
Qed.
End service.
