(* ===== verification/EnrollmentMoves.v ===== *)
(** What the transactions of Enrollments do, row by row.

    [committed] is a transaction that went through; [moved] is what it did to
    an enrollment, with the condition under which the code does it.  The
    theorems of EnrollmentSafety are about sequences of these. *)
From stdpp Require Import relations.
From S2P Require Import Prelude Dates Net Json Jobs JobFields RenewalCapacity Signing Db JobRequest.
From S2P Require Import Eligibility Dispatch EnrollmentLifecycle Enrollments.
Open Scope Z_scope.

(** Ids of rows are generated, workspaces are uuids. *)
Definition key_ok (k : key) : Prop := trim k.1 = k.1 ∧ k.2 ≠ EmptyString.

Section moves.
Context {ct : Contracts} {js : JobService} {pg : Postgres}.

(** A transaction of the service; [P] restricts what is created. *)
Inductive committed (P : creation → Prop) (d d' : db) : Prop :=
| by_issuer ws id kind name a : issuers d !! (ws, id) = None → createIssuer ws id kind name d = Ok (d', a) → committed P d d'
| by_discard ws id a : discardUnconfiguredIssuer ws id d = Ok (d', a) → committed P d d'
| by_preflight ws id agentId caConfig tmpl now a : trim ws = ws →
    dispatchPreflight ws id agentId caConfig tmpl now d = Ok (d', a) → committed P d d'
| by_confirm ws id caKey caConfig tmpl a : confirmIssuerKey ws id caKey caConfig tmpl d = Ok (d', a) → committed P d d'
| by_creation freshId allowed_in now c a : key_ok (cr_workspaceId c, freshId) → P c →
    createEnrollment freshId allowed_in now c d = Ok (d', a) → committed P d d'
| by_proposal ws id requestId seen now a : proposeReconcileRequestId ws id requestId seen now d = Ok (d', a) → committed P d d'
| by_cancel ws id now a : cancelEnrollment ws id now d = Ok (d', a) → committed P d d'
| by_abandon ws id now a : abandonEnrollment ws id now d = Ok (d', a) → committed P d d'
| by_retry ws id actor allowed_in now a : retryEnrollmentInstallation ws id actor allowed_in now d = Ok (d', a) → committed P d d'
| by_recovery ws id orphan ack reason actor allowed_in now a :
    recoverOrphanedEnrollment ws id orphan ack reason actor allowed_in now d = Ok (d', a) → committed P d d'
| by_dispatch ws id a : loadDispatchEnrollment ws id d = Ok (d', a) → committed P d d'
| by_sweep now ws id a : sweep_row now ws id d = Ok (d', a) → committed P d d'.

(** A job created for an enrollment. *)
Record new_job (k : key) (d d' : db) (j : job) : Prop := {
  nj_fresh : jobs d !! j_id j = None;
  nj_jobs : jobs d' = <[j_id j := j]> (jobs d);
  nj_state : unstarted (j_state j);
  nj_bound : job_enrollment j = Some k.2;
  nj_workspace : r_workspaceId (j_row j) = k.1;
  nj_operation : j_operation j ≠ adcs_preflight }.
Definition idle (k : key) (e : enrollment) (d : db) : Prop := is_active (job_status_of k.1 e d) = false.
Definition retired_in (k : key) (e : enrollment) (d : db) : bool := identityRetired k.1 (certificate_id (e_fixed e)) d.
Definition poll_seconds (e : enrollment) (n : Z) : Prop :=
  ∃ s, read_snapshot (snapshot_bytes (e_fixed e)) = Some s ∧ n = snapshot_number "pollInterval" DEFAULT_POLL_INTERVAL_SECONDS s.
(** The decision of the sweep. *)
Definition decides (k : key) (e : enrollment) (d : db) (now : Z) (c : continuation) : Prop :=
  ∃ s, read_snapshot (snapshot_bytes (e_fixed e)) = Some s ∧
    decideContinuation (enrollmentView k.2 e (job_status_of k.1 e d)) (get "pendingTimeout" s) now = Some c.

Inductive moved (d d' : db) (k : key) (e : enrollment) : enrollment → Prop :=
| mv_cancel now : forward (e_state e) cancelled →
    (∀ s, job_status_of k.1 e d = Some s → s ∉ RUNNING_JOB) →
    jobs d' = match current_job_id e, job_status_of k.1 e d with
              | Some id, Some _ => alter (cancel_job now) id (jobs d)
              | _, _ => jobs d
              end →
    moved d d' k e (move_to cancelled (if before_ca (e_state e) then None else Some now) e)
| mv_abandon now : forward (e_state e) abandoned → jobs d' = jobs d → moved d d' k e (move_to abandoned (Some now) e)
| mv_propose now n : e_state e = submission_uncertain → retired_in k e d = false → jobs d' = jobs d →
    moved d d' k e (with_operator (Some n) (Some now) e)
| mv_first : e_attempt e = 0 → jobs d' = jobs d → moved d d' k e (first_attempt e)
| mv_continue j : e_state e ∈ install_failed :: recovery_states → retired_in k e d = false → idle k e d → new_job k d d' j →
    moved d d' k e (with_poll None (with_job (e_attempt e + 1) (j_id j) e))
| mv_hold now c : decides k e d now c → can_install c = true → due_at now e = true → retired_in k e d = true →
    jobs d' = jobs d → moved d d' k e (with_poll None e)
| mv_reconcile now r : decides k e d now (Move submission_uncertain r) → due_at now e = true → jobs d' = jobs d →
    moved d d' k e (needs_reconciliation (with_poll None e))
| mv_expire now n r j : decides k e d now (Move expired r) → due_at now e = true → poll_seconds e n → new_job k d d' j →
    moved d d' k e (with_poll (Some (nextPollAt now n)) (with_job (e_attempt e + 1) (j_id j) (expire (with_poll None e))))
| mv_sweep now n r j : decides k e d now (Dispatch r) → due_at now e = true → poll_seconds e n →
    (r ≠ free_key → retired_in k e d = false) → new_job k d d' j →
    moved d d' k e ((if keeps_retry_date (Dispatch r) then with_poll (Some (nextPollAt now n)) else λ e, e)
                (with_job (e_attempt e + 1) (j_id j) (with_poll None e))).

(** ** Statements *)

Lemma put_Some k f d e : enrollments d !! k = Some e → put k f d = set_enrollments (<[k := f e]> (enrollments d)) d.
Proof.
  intros H. unfold put. f_equal. apply map_eq. intros k'. destruct (decide (k = k')) as [<-|Hne].
  - by rewrite lookup_alter_eq, lookup_insert_eq, H.
  - by rewrite lookup_alter_ne, lookup_insert_ne.
Qed.
Lemma put_put k f g d : put k g (put k f d) = put k (λ e, g (f e)) d.
Proof. unfold put, set_enrollments. cbn. f_equal. apply map_eq. intros k'. destruct (decide (k = k')) as [<-|Hne].
  - rewrite !lookup_alter_eq. by destruct (_ !! _).
  - by rewrite !lookup_alter_ne.
Qed.
Lemma found_ok {A} (o : option A) (err : enrollment_error) a :
  match o with Some e => Ok e | None => Err err end = Ok a ↔ o = Some a.
Proof. destruct o; naive_solver. Qed.

Lemma enum_continue op : enum_name JOB_OPERATION_SET op = "continue-enrollment"%string → op = continue_enrollment.
Proof. by destruct op. Qed.
Lemma enum_renew op : enum_name JOB_OPERATION_SET op = "renew"%string → op = renew.
Proof. by destruct op. Qed.
Lemma extra_get k (l1 l2 l3 : list (string * jsval)) v : k ∉ l2.*1 → k ∉ l1.*1 → get k (Obj l3) = v →
  get k (Obj (l1 ++ l2 ++ l3)) = v.
Proof.
  intros H2 H1 <-. unfold get. f_equal. rewrite app_assoc. assert (k ∉ (l1 ++ l2).*1) as H by (rewrite fmap_app; set_solver).
  clear H1 H2. induction (l1 ++ l2) as [|[k' v'] l IH]; [done|]. cbn in *. rewrite not_elem_of_cons in H. destruct H as [Hne H].
  rewrite decide_False by done. auto.
Qed.

Context {laws : JobServiceLaws js}.
(** Creation for an enrollment, with the status left to it. *)
Lemma creating_new k now o d d' j op : creating now o d = Ok (d', (j, true)) → key_ok k →
  nullish (get "status" o) = true → get "workspaceId" o = Str k.1 → get "enrollmentId" o = Str k.2 →
  get "operation" o = Str op → op ∈ ["renew"; "continue-enrollment"]%string →
  new_job k d d' j ∧ enrollments d' = enrollments d ∧ issuers d' = issuers d ∧ versions d' = versions d ∧
  job_preflight_seq d' = job_preflight_seq d.
Proof.
  unfold creating. intros H [Hk1 Hk2] Hst Hws Hen Hop Ho. destruct (create_job _ _ _) as [[j0 []]|] eqn:E; [|done..].
  injection H as <- ->. destruct (create_new now o _ j E Hst) as (H1 & H2 & H3 & H4 & H5 & H6).
  split; [|done]. constructor; [done|done|done| | |].
  - unfold job_enrollment. rewrite H4, Hen. destruct (k.2) as [|c s]; [done|]. done.
  - by rewrite (H6 _ Hws).
  - specialize (H5 _ Hop). rewrite !elem_of_cons, elem_of_nil in Ho. destruct Ho as [->|[->|[]]].
    + assert (j_operation j = renew) as -> by (apply enum_renew; symmetry; by apply H5). done.
    + assert (j_operation j = continue_enrollment) as -> by (apply enum_continue; symmetry; by apply H5). done.
Qed.

(** The options of a continuation that are not its own. *)
Definition plain_extra (extra : list (string * jsval)) : Prop :=
  extra = [] ∨ ∃ actor, extra = operator_fields actor.
Lemma continue_ok now ws id e meta extra f d d' jobId e0 : continue_with now ws id e meta extra f d = Ok (d', jobId) →
  key_ok (ws, id) → plain_extra extra → enrollments d !! (ws, id) = Some e0 →
  ∃ j, new_job (ws, id) d d' j ∧ j_id j = jobId ∧
    enrollments d' = <[(ws, id) := f (with_job (e_attempt e + 1) jobId e0)]> (enrollments d) ∧
    issuers d' = issuers d ∧ versions d' = versions d ∧ job_preflight_seq d' = job_preflight_seq d.
Proof.
  intros H Hk Hx He. unfold continue_with in H. cbv zeta in H. open_tx H.
  destruct a0 as [j b].
  set (o := continuation_options ws id e a extra) in *.
  assert (get "status" o = Undef ∧ get "workspaceId" o = Str ws ∧ get "enrollmentId" o = Str id ∧
    get "operation" o = Str "continue-enrollment" ∧ get "idempotencyKey" o = Undef) as (O1 & O2 & O3 & O4 & O5)
    by (destruct Hx as [->|[actor ->]]; by vm_compute).
  destruct b.
  - destruct (creating_new (ws, id) now o d s j "continue-enrollment") as (Hj & He' & Hi & Hv & Hs);
      [done|done|by rewrite O1|done..|set_solver|].
    exists j. split; [by destruct Hj|]. split; [done|]. rewrite (put_Some _ _ _ e0) by (by rewrite He'). cbn. by rewrite He'.
  - exfalso. unfold creating in H1. destruct (create_job _ _ _) as [[j0 []]|] eqn:E; [done|..|done].
    apply create_old in E. by rewrite O5 in E.
Qed.

(** ** Operations *)

#[local] Opaque continue_with claimDueEnrollment creating.

(** What is left alone by everything that moves an enrollment. *)
Definition same_issuers (d d' : db) : Prop :=
  issuers d' = issuers d ∧ versions d' = versions d ∧ job_preflight_seq d' = job_preflight_seq d.
(** At most one enrollment moves. *)
Definition moves_one (d d' : db) : Prop :=
  same_issuers d d' ∧
  (enrollments d' = enrollments d ∧ jobs d' = jobs d ∨
   ∃ k e e', enrollments d !! k = Some e ∧ moved d d' k e e' ∧ enrollments d' = <[k := e']> (enrollments d)).
Definition keys_ok (d : db) : Prop := ∀ k e, enrollments d !! k = Some e → key_ok k.

Lemma moves_none d : moves_one d d.
Proof. split; [done|]. by left. Qed.
Lemma moves_put d k f e : enrollments d !! k = Some e → moved d (put k f d) k e (f e) → moves_one d (put k f d).
Proof. intros He Hm. split; [done|]. right. exists k, e, (f e). split_and!; [done..|]. by rewrite (put_Some _ _ _ e). Qed.

Lemma propose_moves ws id requestId seen now d d' a :
  proposeReconcileRequestId ws id requestId seen now d = Ok (d', a) → moves_one d d'.
Proof.
  intros H. unfold proposeReconcileRequestId in H. open_tx H. apply found_ok in H3 as He.
  split_bool. eapply moves_put; [done|]. eapply mv_propose; [done|done|done].
Qed.
Lemma direct_ok s t u : assertDirectTransition s t = Ok u → forward s t.
Proof. unfold assertDirectTransition. by case_bool_decide. Qed.
Lemma cancel_moves ws id now d d' a : cancelEnrollment ws id now d = Ok (d', a) → moves_one d d'.
Proof.
  intros H. unfold cancelEnrollment in H. open_tx H. apply found_ok in H0 as He.
  apply direct_ok in H2. set (e' := move_to cancelled (if before_ca (e_state a0) then None else Some now) a0).
  assert (∀ s, job_status_of (ws, id).1 a0 d = Some s → s ∉ RUNNING_JOB) as Hr.
  { intros s Hs. cbn in Hs. rewrite Hs in H1. by split_bool. }
  assert (∀ m, m = match current_job_id a0, job_status_of ws a0 d with
                   | Some jobId, Some _ => alter (cancel_job now) jobId (jobs d) | _, _ => jobs d end →
    moves_one d (set_jobs m (put (ws, id) (move_to cancelled (if before_ca (e_state a0) then None else Some now)) d))) as Hm.
  { intros m ->. rewrite (put_Some _ _ _ a0) by done. split; [done|]. right. exists (ws, id), a0, e'.
    split_and!; [done|apply mv_cancel; [done..|]|done]. cbn. by repeat case_match. }
  destruct (current_job_id a0) as [jobId|]; [destruct (job_status_of ws a0 d)|]; open_tx H.
  - by apply Hm.
  - specialize (Hm _ eq_refl). by rewrite (put_Some _ _ _ a0) in * by done.
  - specialize (Hm _ eq_refl). by rewrite (put_Some _ _ _ a0) in * by done.
Qed.
Lemma abandon_moves ws id now d d' a : abandonEnrollment ws id now d = Ok (d', a) → moves_one d d'.
Proof.
  intros H. unfold abandonEnrollment in H. open_tx H. apply found_ok in H0 as He. apply direct_ok in H1.
  eapply moves_put; [done|]. by apply mv_abandon.
Qed.
Lemma dispatch_moves ws id d d' a : loadDispatchEnrollment ws id d = Ok (d', a) → moves_one d d'.
Proof.
  intros H. unfold loadDispatchEnrollment in H. open_tx H.
  destruct (enrollments d !! (ws, id)) as [e|] eqn:He; [|open_tx H; apply moves_none].
  open_tx H. cbn [v_attempt enrollmentView] in *. destruct (e_attempt e =? 0) eqn:E; open_tx H0; [|apply moves_none].
  eapply moves_put; [done|]. apply mv_first; [by apply Z.eqb_eq|done].
Qed.
(** A continuation of a row as it is. *)
Lemma continue_moves now ws id e meta extra f d d' jobId : continue_with now ws id e meta extra f d = Ok (d', jobId) →
  keys_ok d → plain_extra extra → enrollments d !! (ws, id) = Some e →
  (∀ j, new_job (ws, id) d d' j → moved d d' (ws, id) e (f (with_job (e_attempt e + 1) (j_id j) e))) →
  moves_one d d'.
Proof.
  intros H Hk Hx He Hm. destruct (continue_ok _ _ _ _ _ _ _ _ _ _ e H (Hk _ _ He) Hx He) as (j & Hj & <- & He' & Hi & Hv & Hs).
  split; [done|]. right. eexists _, _, _. split_and!; [exact He|by apply Hm|done].
Qed.
Lemma bound_job_in ws id jobId d j : bound_job ws id jobId d = Some j → job_in ws jobId d = Some j.
Proof. unfold bound_job. destruct (job_in ws jobId d); [|done]. cbn. by case_match. Qed.
Lemma retry_moves ws id actor allowed_in now d d' a : keys_ok d →
  retryEnrollmentInstallation ws id actor allowed_in now d = Ok (d', a) → moves_one d d'.
Proof.
  intros Hk H. unfold retryEnrollmentInstallation in H. apply txn_bind_ok in H as (s & u & H1 & H).
  apply of_result_ok in H1 as [_ ->]. apply txn_bind_ok in H as (s & e & H1 & H). open_tx H1. apply found_ok in H1 as He; clear H1.
  apply txn_bind_ok in H as (s & u1 & H1 & H). apply guard_tx_ok in H1 as [Hst ->]. split_bool.
  apply txn_bind_ok in H as (s & running & H1 & H).
  assert (s = d ∧ (running = None → idle (ws, id) e d)) as [-> Hidle].
  { unfold idle, job_status_of. cbn [fst]. destruct (current_job_id e) as [jobId|]; open_tx H1; [|done].
    split; [done|]. destruct (bound_job ws id jobId d) as [j|] eqn:Ej; [|done]. injection H0 as <-.
    apply bound_job_in in Ej. cbn [mbind option_bind]. rewrite Ej. cbn [mbind option_bind]. by destruct (is_active _). }
  destruct running as [jobId|]; open_tx H; [apply moves_none|]. split_bool.
  eapply continue_moves; [done|done|right; by eexists|done|]. intros j Hj.
  apply mv_continue; [rewrite Hst; apply elem_of_cons; by left|done|by apply Hidle|done].
Qed.
Lemma recover_moves ws id orphan ack reason actor allowed_in now d d' a : keys_ok d →
  recoverOrphanedEnrollment ws id orphan ack reason actor allowed_in now d = Ok (d', a) → moves_one d d'.
Proof.
  intros Hk H. unfold recoverOrphanedEnrollment in H. destruct orphan as [| | | |s| |]; try done. cbv zeta in H.
  apply txn_bind_ok in H as (d0 & u & H1 & H). apply guard_tx_ok in H1 as [_ ->].
  apply txn_bind_ok in H as (d0 & u1 & H1 & H). apply guard_tx_ok in H1 as [_ ->].
  apply txn_bind_ok in H as (d0 & u2 & H1 & H). apply guard_tx_ok in H1 as [_ ->].
  apply txn_bind_ok in H as (d0 & u3 & H1 & H). apply of_result_ok in H1 as [_ ->].
  apply txn_bind_ok in H as (d0 & e & H1 & H). open_tx H1. apply found_ok in H1 as He; clear H1.
  apply txn_bind_ok in H as (d0 & u4 & H2 & H). apply guard_tx_ok in H2 as [Hst ->]. split_bool.
  apply txn_bind_ok in H as (d0 & original & H2 & H). apply reads_ok in H2 as [-> ->].
  apply txn_bind_ok in H as (d0 & current & H2 & H). apply reads_ok in H2 as [-> ->].
  apply txn_bind_ok in H as (d0 & u5 & H2 & H). apply guard_tx_ok in H2 as [Ho ->].
  destruct (negb _) eqn:Ecur.
  { destruct (current_job_id e ≫= _) as [j|]; [|done]. case_match; [open_tx H; apply moves_none|done]. }
  split_bool. open_tx H. split_bool. eapply continue_moves; [done|done|right; by eexists|done|]. intros j Hj.
  apply mv_continue; [apply elem_of_cons; by right|done| |done]. unfold idle, job_status_of. rewrite Ecur. cbn [mbind option_bind fst].
  destruct (bound_job ws id _ d) as [o|] eqn:Eo; [|done]. apply bound_job_in in Eo. rewrite Eo. cbn.
  unfold awaits_recovery in Ho. split_bool. unfold is_active.
  match goal with H : j_state o = _ |- _ => by rewrite H end.
Qed.
Lemma claim_due_ok ws id now e d d' b : enrollments d !! (ws, id) = Some e → claimDueEnrollment ws id now d = Ok (d', b) →
  b = due_at now e ∧ d' = if b then put (ws, id) (with_poll None) d else d.
Proof.
  intros He. with_strategy transparent [claimDueEnrollment] unfold claimDueEnrollment. rewrite He.
  destruct (due_at now e); by intros [= <- <-].
Qed.
(** The decision in what it depends on. *)
Lemma decides_spec k e d now c : decides k e d now c → e_state e ∈ CONTINUATION_STATES ∧ idle k e d ∧
  match c with
  | Move s r => e_state e = pending_issuance ∧
      (s = submission_uncertain ∧ r = retrieve_reconciliation ∨ s = expired ∧ r = pending_timeout)
  | Dispatch r => r = free_key ↔ cleanup_state (e_state e) = true
  end.
Proof.
  intros (s & _ & H). unfold decideContinuation in H. cbn [v_state v_activeJob enrollmentView v_pendingSince] in H.
  case_bool_decide as Hc; [|done]. unfold idle. cbn [negb] in H. destruct (is_active _); [done|]. do 2 (split; [done|]).
  match type of H with (if ?b then _ else _) = _ => destruct b eqn:Eo end.
  - destruct (e_state e); try done. case_bool_decide; injection H as <-; naive_solver.
  - match type of H with (if ?b then _ else _) = _ => destruct b; [done|] end.
    destruct (e_state e); repeat case_match; try done; injection H as <-; by cbn.
Qed.
Lemma sweep_continue_moves now ws id e s c d d' a : keys_ok d → enrollments d !! (ws, id) = Some e →
  read_snapshot (snapshot_bytes (e_fixed e)) = Some s → decides (ws, id) e d now c →
  (∀ r, c ≠ Move submission_uncertain r) →
  sweep_continue now ws id e (snapshot_number "pollInterval" DEFAULT_POLL_INTERVAL_SECONDS s) c d = Ok (d', a) →
  moves_one d d'.
Proof.
  intros Hk He Hs Hd Hc H. set (n := snapshot_number _ _ s) in *. assert (poll_seconds e n) as Hn by (by exists s).
  unfold sweep_continue in H. apply txn_bind_ok in H as (d0 & u & H1 & H). apply reads_ok in H1 as [-> ->].
  fold (retired_in (ws, id) e d) in H. destruct (can_install c && _) eqn:Er.
  { open_tx H. destruct (claim_due_ok _ _ _ _ _ _ _ He H0) as [-> ->]. destruct (due_at now e) eqn:Edue; [|apply moves_none].
    split_bool. eapply moves_put; [done|]. by eapply mv_hold. }
  apply txn_bind_ok in H as (d0 & u & H1 & H). apply guard_tx_ok in H1 as [_ ->].
  apply txn_bind_ok in H as (d0 & u1 & H1 & H). destruct (claim_due_ok _ _ _ _ _ _ _ He H1) as [-> ->].
  destruct (due_at now e) eqn:Edue; cbn [negb] in H; [|open_tx H; apply moves_none].
  apply txn_bind_ok in H as (d1 & u1 & H2 & H). apply writes_ok in H2 as ->. open_tx H.
  set (g := match c with Move _ _ => expire | Dispatch _ => λ e, e end).
  assert (∃ d1, enrollments d1 = <[(ws, id) := g (with_poll None e)]> (enrollments d) ∧ jobs d1 = jobs d ∧ same_issuers d d1 ∧
    match c with Move _ _ => put (ws, id) expire | Dispatch _ => λ d, d end (put (ws, id) (with_poll None) d) = d1)
    as (d1 & He1 & Hj1 & Hi1 & E).
  { eexists. split_and!; [..|done]; unfold g; destruct c; rewrite ?put_put, (put_Some _ _ _ e) by done; done. }
  rewrite E in H0. edestruct (continue_ok _ _ _ _ _ _ _ _ _ _ (g (with_poll None e)) H0) as (j & Hj & <- & He' & Hi & Hv & Hsq);
    [by eapply Hk|by left|by rewrite He1, lookup_insert_eq|].
  assert (new_job (ws, id) d s0 j) as Hj'.
  { destruct Hj as [F1 F2 F3 F4 F5 F6]. rewrite Hj1 in F1, F2. by constructor. }
  split; [destruct Hi1 as (I1 & I2 & I3); unfold same_issuers; by rewrite Hi, Hv, Hsq, I1, I2, I3|].
  right. eexists _, _, _. split; [exact He|]. rewrite He', He1, insert_insert_eq. split; [|done].
  destruct (decides_spec _ _ _ _ _ Hd) as (_ & _ & Hc'). destruct c as [st r|r].
  - destruct Hc' as [_ [[-> _]|[-> ->]]]; [by destruct (Hc r)|]. by eapply mv_expire.
  - eapply mv_sweep; try done. intros Hr. cbn in Er. by rewrite bool_decide_eq_false_2 in Er.
Qed.
Lemma sweep_moves now ws id d d' a : keys_ok d → sweep_row now ws id d = Ok (d', a) → moves_one d d'.
Proof.
  intros Hk H. unfold sweep_row in H. apply txn_bind_ok in H as (d0 & found & H1 & H). apply reads_ok in H1 as [-> ->].
  destruct (enrollments d !! (ws, id)) as [e|] eqn:He; [|open_tx H; apply moves_none].
  apply txn_bind_ok in H as (d0 & status & H1 & H). apply reads_ok in H1 as [-> ->].
  apply txn_bind_ok in H as (d0 & s & H1 & H). apply of_result_ok in H1 as [Hs ->]. apply found_ok in Hs.
  destruct (decideContinuation _ _ _) as [c|] eqn:Ec; [|open_tx H; apply moves_none].
  assert (decides (ws, id) e d now c) as Hd by (by exists s).
  destruct (decides_spec _ _ _ _ _ Hd) as (_ & _ & Hc).
  assert ((∃ r, c = Move submission_uncertain r) ∨ ∀ r, c ≠ Move submission_uncertain r) as [[r ->]|Hne].
  { destruct c as [st r|r]; [|by right]. destruct Hc as [_ [[-> _]|[-> _]]]; [left; by exists r|by right]. }
  - apply txn_bind_ok in H as (d0 & b & H1 & H). destruct (claim_due_ok _ _ _ _ _ _ _ He H1) as [-> ->]. open_tx H.
    destruct (due_at now e) eqn:Edue; [|apply moves_none]. rewrite put_put. eapply moves_put; [done|]. by eapply mv_reconcile.
  - apply (sweep_continue_moves now ws id e s c d d' a); try done.
    destruct c as [st r|r]; [|done]. destruct Hc as [_ [[-> _]|[-> _]]]; [by destruct (Hne r)|done].
Qed.

(** A job refused by the services that build it. *)
Definition refused_job (c : enrollment_error) : Prop := c = CERTOPS_SIGNING_PAYLOAD_TOO_LARGE ∨ ∃ code, c = other_failure code.
Lemma continue_answers now ws id e meta extra f d :
  match continue_with now ws id e meta extra f d with Ok _ => True | Err c => refused_job c end.
Proof.
  with_strategy transparent [continue_with creating] unfold continue_with, creating, mbind, txn_bind, of_result, writes, mret, txn_ret.
  destruct (storedAdcsPayload _ _ _) as [p|c] eqn:E.
  - destruct (create_job _ _ _) as [[j []]|c]; [done..|]. right. by eexists.
  - left. unfold storedAdcsPayload in E. destruct meta as [m|]; [|done]. destruct (nullish m); [done|].
    unfold ensure, mbind, result_bind in E. destruct (_ <=? _); cbn in E; [done|by injection E as <-].
Qed.
(** The sweep does not pass over an idle enrollment with a key to free. *)
Lemma sweep_cleanup now ws id e d n : enrollments d !! (ws, id) = Some e → cleanup_state (e_state e) = true → due_at now e = true →
  idle (ws, id) e d → poll_seconds e n → iis_target (deploy_target (e_fixed e)) = true →
  match sweep_row now ws id d with
  | Ok (_, Some (_, attempt)) => attempt = e_attempt e + 1
  | Ok (_, None) => False
  | Err c => refused_job c
  end.
Proof.
  intros He Hc Hdue Hidle (s & Hs & _) Ht.
  assert (decideContinuation (enrollmentView id e (job_status_of ws e d)) (get "pendingTimeout" s) now = Some (Dispatch free_key)) as Hd.
  { unfold decideContinuation. cbn [v_state v_activeJob v_pendingSince v_nextPollAt enrollmentView]. unfold idle in Hidle. cbn in Hidle. rewrite Hidle.
    unfold due_at in Hdue. destruct (next_poll_at e) as [t|]; [|done]. apply Z.leb_le in Hdue.
    unfold cleanup_state in Hc. apply bool_decide_eq_true in Hc. rewrite (proj2 (Z.ltb_ge now t) Hdue).
    repeat (apply elem_of_cons in Hc as [->|Hc]; [done|]). by apply elem_of_nil in Hc. }
  unfold sweep_row. unfold mbind, txn_bind, reads, of_result. rewrite He, Hs, Hd. unfold sweep_continue, mbind, txn_bind, reads, guard_tx.
  cbn [can_install negb bool_decide andb]. rewrite bool_decide_eq_true_2 by done. cbn [negb andb]. rewrite Ht.
  with_strategy transparent [claimDueEnrollment] unfold claimDueEnrollment. rewrite He, Hdue. cbn [negb]. unfold writes.
  match goal with |- context [continue_with ?a ?b ?c ?d0 ?e0 ?f ?g ?h] => pose proof (continue_answers a b c d0 e0 f g h) as H;
    destruct (continue_with a b c d0 e0 f g h) as [[d' j]|c']; [done|done] end.
Qed.

(** What creation does: a fresh open row, frozen from the confirmed version of
    its issuer, and its first job. *)
Record created (c : creation) (d d' : db) (k : key) (e : enrollment) : Prop := {
  cd_key : key_ok k;
  cd_workspace : cr_workspaceId c = k.1;
  cd_certificate : certificate_id (e_fixed e) = cr_certificateId c ≫= uuid_in;
  cd_readable : is_Some (cr_certificateId c) → is_Some (certificate_id (e_fixed e));
  cd_none_open : is_uuid (certificate_text c) = true → findOpenEnrollment k.1 (certificate_text c) d = false;
  cd_state : e_state e = requested ∧ e_attempt e = 0 ∧ next_poll_at e = None;
  cd_issuer : ∃ id i v fz, confirmed_version k.1 (Some id) d = Some (id, i, v) ∧
    freezeSnapshot (freeze_input c id i v) = Ok fz ∧ revalidation_required i = false ∧
    issuer_id (e_fixed e) = id ∧ issuer_version (e_fixed e) = current_version i ∧
    snapshot_bytes (e_fixed e) = fz_bytes fz ∧ snapshot_sha256 (e_fixed e) = fz_sha256 fz;
  cd_job : ∃ j, new_job k d d' j ∧ current_job_id e = Some (j_id j);
  cd_same : same_issuers d d' }.
Lemma confirmed_id ws o d id i v : confirmed_version ws o d = Some (id, i, v) → confirmed_version ws (Some id) d = Some (id, i, v).
Proof.
  unfold confirmed_version. destruct o as [id'|]; [|done]. cbn. intros H. assert (id' = id) as ->; [|done].
  destruct (issuers d !! _) as [i'|]; [|done]. cbn in H. destruct (versions d !! _); [|done]. cbn in H. case_match; [|done]. by injection H.
Qed.
Lemma created_true b now o d d' j cr : creating now o d = Ok (d', (j, cr)) → truthy (get "idempotencyKey" o) = b →
  b && negb cr = false → cr = true.
Proof.
  intros H <- Hb. destruct cr; [done|]. revert H. with_strategy transparent [creating] unfold creating.
  destruct (create_job _ _ _) as [[j0 []]|] eqn:E; [done|..|done]. apply create_old in E. by rewrite E in Hb.
Qed.
Lemma create_ok freshId allowed_in now c d d' a : key_ok (cr_workspaceId c, freshId) →
  createEnrollment freshId allowed_in now c d = Ok (d', a) →
  ∃ e, enrollments d !! (cr_workspaceId c, freshId) = None ∧
    enrollments d' = <[(cr_workspaceId c, freshId) := e]> (enrollments d) ∧ created c d d' (cr_workspaceId c, freshId) e.
Proof.
  intros Hk H. unfold createEnrollment in H. cbv zeta in H. set (ws := cr_workspaceId c) in *. open_tx H.
  destruct a4 as [[id i] v]. apply found_ok in H4. apply confirmed_id in H4. open_tx H. split_bool.
  match type of H11 with creating now ?o (set_enrollments (<[_ := ?r]> _) _) = _ => set (opts := o) in *; set (row := r) in * end.
  destruct a11 as [j b]. apply (created_true (truthy (opt_text (cr_idempotencyKey c)))) in H11 as Hb; [|done|done]. subst b.
  destruct (creating_new (ws, freshId) now opts _ s j "renew" H11 Hk) as (Hj & He & Hi & Hv & Hs); [done..|set_solver|].
  assert (enrollments d !! (ws, freshId) = None) as Hnone by (by apply eq_None_not_Some).
  exists (with_job 0 (j_id j) row). split; [done|].
  rewrite (put_Some _ _ _ row) by (by rewrite He; cbn; rewrite lookup_insert_eq). cbn [fst snd enrollments set_enrollments] in *.
  split; [by rewrite He, insert_insert_eq|]. constructor; try done.
  - cbn. destruct (cr_certificateId c) as [t|]; cbn in *; [destruct (uuid_in t); [|done]|]; by injection H9 as <-.
  - cbn. intros [t Ht]. rewrite Ht in H9. destruct (uuid_in t); [|done]. injection H9 as <-. by eexists.
  - intros Hu. by rewrite Hu in H2.
  - exists id, i, v, a6. split_and!; done.
  - exists j. split; [|done]. by destruct Hj.
Qed.

(** What a preflight adds: a job that no enrollment owns, next in the order of
    its issuer. *)
Record preflighted (ws id : string) (now : Z) (d d' : db) (j : job) : Prop := {
  pf_rate : recent_preflights ws now d < PREFLIGHT_PER_HOUR;
  pf_fresh : jobs d !! j_id j = None;
  pf_jobs : jobs d' = <[j_id j := j]> (jobs d);
  pf_row : r_workspaceId (j_row j) = ws ∧ j_operation j = adcs_preflight ∧ j_created_at j = now ∧ job_enrollment j = None;
  pf_seq : ∃ i, issuers d !! (ws, id) = Some i ∧
    issuers d' = <[(ws, id) := set_preflight_seq (preflight_seq i + 1) i]> (issuers d) ∧
    job_preflight_seq d' = <[j_id j := preflight_seq i + 1]> (job_preflight_seq d);
  pf_same : enrollments d' = enrollments d ∧ versions d' = versions d }.
Lemma enum_preflight op : enum_name JOB_OPERATION_SET op = "adcs-preflight"%string → op = adcs_preflight.
Proof. by destruct op. Qed.
Lemma preflight_ok ws id agentId caConfig tmpl now d d' j : trim ws = ws →
  dispatchPreflight ws id agentId caConfig tmpl now d = Ok (d', j) → preflighted ws id now d d' j.
Proof.
  intros Hws H. unfold dispatchPreflight in H. cbv zeta in H. open_tx H. apply Z.ltb_lt in H0. apply found_ok in H2.
  match type of H1 with creating now ?o _ = _ => set (opts := o) in * end.
  revert H1. with_strategy transparent [creating] unfold creating.
  destruct (create_job _ _ _) as [[j0 []]|] eqn:E; [|apply create_old in E; by vm_compute in E|done].
  intros [= <- <-]. destruct (create_new now opts _ j0 E) as (F1 & F2 & F3 & F4 & F5 & F6); [done|].
  constructor; try done.
  - cbn [fst]. split_and!; [by rewrite (F6 ws)|apply enum_preflight; by rewrite <- (F5 "adcs-preflight"%string)|done|unfold job_enrollment; by rewrite F4].
  - cbn in *. by exists a1.
Qed.
Lemma record_preflight_ok ws j r st ok d d' u : recordPreflightResult ws j r st ok d = Ok (d', u) →
  d' = d ∨ ∃ id i, r_subjectId (j_row j) = Some id ∧ issuers d !! (ws, id) = Some i ∧
    accepts_preflight ws (j_id j) i d = true ∧
    d' = set_issuers (<[(ws, id) := store_preflight r (j_id j) i]> (issuers d)) d.
Proof.
  intros H. unfold recordPreflightResult in H. open_tx H.
  destruct (r_subjectId _) as [[|c t]|]; open_tx H; [by left| |by left].
  destruct (issuers d !! _) as [i|] eqn:Ei; [|by left]. destruct (accepts_preflight _ _ _ _) eqn:Ea; [|by left].
  right. by exists (String c t), i.
Qed.
End moves.
