(* ===== verification/EnrollmentSafety.v ===== *)
(** What holds of certificate enrollments however the operations, the agents'
    reports and other code interleave.

    A state is the tables, the reports that were read and not yet written, and
    the preflight results that were accepted so far; a step is one committed
    transaction, one half of a report, or a change of the job table by other
    code ([jobs_evolve]). *)
From stdpp Require Import relations.
From S2P Require Import Prelude Dates Net Json Jobs JobFields RenewalCapacity Signing Db JobRequest.
From S2P Require Import Eligibility Dispatch EnrollmentLifecycle Enrollments EnrollmentMoves.
Open Scope Z_scope.

Section system.
Context {ct : Contracts} {js : JobService} {pg : Postgres}.

(** A report between its SELECT and its UPDATE. *)
Record report_in_flight := mkInFlight { if_ws : string; if_report : report; if_row : enrollment; if_snapshot : jsval }.
Record sys := mkSys { s_db : db; s_reports : list report_in_flight; s_preflights : list (key * jsval) }.
(** What other code may do to the jobs: rows stay, keep their enrollment and
    do not come back from a terminal status; new rows belong to no enrollment
    and are no preflights. *)
Record kept_job (j j' : job) : Prop := {
  kj_id : j_id j' = j_id j; kj_workspace : r_workspaceId (j_row j') = r_workspaceId (j_row j);
  kj_enrollment : job_enrollment j' = job_enrollment j; kj_operation : j_operation j' = j_operation j;
  kj_created : j_created_at j' = j_created_at j;
  kj_terminal : isTerminalJobStatus (j_state j) = true → isTerminalJobStatus (j_state j') = true }.
Definition jobs_evolve (m m' : gmap string job) : Prop :=
  (∀ id j, m !! id = Some j → ∃ j', m' !! id = Some j' ∧ kept_job j j') ∧
  (∀ id j', m !! id = None → m' !! id = Some j' →
     j_id j' = id ∧ job_enrollment j' = None ∧ j_operation j' ≠ adcs_preflight).

Inductive sys_step (P : creation → Prop) : sys → sys → Prop :=
| st_commit d d' rs ps : committed P d d' → sys_step P (mkSys d rs ps) (mkSys d' rs ps)
| st_preflight ws j r st ok d d' u rs ps : wf r → recordPreflightResult ws j r st ok d = Ok (d', u) →
    sys_step P (mkSys d rs ps) (mkSys d' rs (ps ++ [((ws, default EmptyString (r_subjectId (j_row j))), r)]))
| st_read ws j ok r d e s rs ps : read_report ws j ok r d = Ok (e, s) →
    sys_step P (mkSys d rs ps) (mkSys d (rs ++ [mkInFlight ws r e s]) ps)
| st_write ws r e s now d d' u rs1 rs2 ps : write_report ws r now e s d = Ok (d', u) →
    sys_step P (mkSys d (rs1 ++ mkInFlight ws r e s :: rs2) ps) (mkSys d' (rs1 ++ rs2) ps)
| st_rollback r d rs1 rs2 ps : sys_step P (mkSys d (rs1 ++ r :: rs2) ps) (mkSys d (rs1 ++ rs2) ps)
| st_jobs m d rs ps : jobs_evolve (jobs d) m → sys_step P (mkSys d rs ps) (mkSys (set_jobs m d) rs ps)
| st_others profiles' identities' d rs ps :
    sys_step P (mkSys d rs ps)
      (mkSys (mkDb (issuers d) (versions d) (enrollments d) (jobs d) (job_preflight_seq d) profiles' identities') rs ps).

Lemma sys_step_mono (P Q : creation → Prop) s s' : (∀ c, P c → Q c) → sys_step P s s' → sys_step Q s s'.
Proof.
  intros H []; [|by eapply st_preflight|by eapply st_read|by eapply st_write|by eapply st_rollback|by eapply st_jobs|by eapply st_others].
  apply st_commit. destruct H0; [by eapply by_issuer|by eapply by_discard|eapply by_preflight; eassumption|by eapply by_confirm
    |eapply by_creation; [done|by apply H|done]|by eapply by_proposal|by eapply by_cancel|by eapply by_abandon|by eapply by_retry
    |by eapply by_recovery|by eapply by_dispatch|by eapply by_sweep].
Qed.

(** The step that writes a report for an enrollment. *)
Inductive report_written (k : key) : sys → sys → Prop :=
| rw_written ws r e s now d d' u rs1 rs2 ps : k = (ws, rp_enrollmentId r) → write_report ws r now e s d = Ok (d', u) →
    report_written k (mkSys d (rs1 ++ mkInFlight ws r e s :: rs2) ps) (mkSys d' (rs1 ++ rs2) ps).
(** What a step does to a row: nothing, a move, or a report. *)
Definition row_change (s s' : sys) (k : key) (e e' : enrollment) : Prop :=
  e' = e ∨ moved (s_db s) (s_db s') k e e' ∨
  report_written k s s' ∧ ∃ f now, f ∈ s_reports s ∧ k = (if_ws f, rp_enrollmentId (if_report f)) ∧ e_state e = e_state (if_row f) ∧
    e' = reported (if_row f) (if_snapshot f) (if_report f) now e.
Definition rows_step (P : creation → Prop) (s s' : sys) : Prop :=
  (∀ k e, enrollments (s_db s) !! k = Some e → ∃ e', enrollments (s_db s') !! k = Some e' ∧ row_change s s' k e e') ∧
  (∀ k e', enrollments (s_db s) !! k = None → enrollments (s_db s') !! k = Some e' →
     ∃ c, P c ∧ created c (s_db s) (s_db s') k e') ∧
  (∀ k1 k2, enrollments (s_db s) !! k1 = None → enrollments (s_db s) !! k2 = None →
     is_Some (enrollments (s_db s') !! k1) → is_Some (enrollments (s_db s') !! k2) → k1 = k2).

Lemma same_rows P s s' : enrollments (s_db s') = enrollments (s_db s) → rows_step P s s'.
Proof.
  intros H. unfold rows_step. rewrite H. split_and!; [intros k e He; exists e; split; [done|by left]|congruence|].
  intros k1 k2 H1 _ [e He]. congruence.
Qed.
Lemma one_row P s s' k e e' : enrollments (s_db s) !! k = Some e → enrollments (s_db s') = <[k := e']> (enrollments (s_db s)) →
  row_change s s' k e e' → rows_step P s s'.
Proof.
  intros Hk H Hc. unfold rows_step. rewrite H. split_and!.
  - intros k' e1 H1. destruct (decide (k = k')) as [<-|Hne].
    + rewrite lookup_insert_eq. simplify_eq. by exists e'.
    + rewrite lookup_insert_ne by done. exists e1. split; [done|by left].
  - intros k' e1 H1. rewrite lookup_insert_ne by congruence. congruence.
  - intros k1 k2 H1 _ [e1 H2]. rewrite lookup_insert_ne in H2 by congruence. congruence.
Qed.
Lemma new_row_step P s s' k e' c : enrollments (s_db s) !! k = None → enrollments (s_db s') = <[k := e']> (enrollments (s_db s)) →
  P c → created c (s_db s) (s_db s') k e' → rows_step P s s'.
Proof.
  intros Hk H HP Hc. unfold rows_step. rewrite H. split_and!.
  - intros k' e1 H1. rewrite lookup_insert_ne by congruence. exists e1. split; [done|by left].
  - intros k' e1 H1. destruct (decide (k = k')) as [<-|Hne]; [|rewrite lookup_insert_ne by done; congruence].
    rewrite lookup_insert_eq. intros [= <-]. by exists c.
  - assert (∀ k', enrollments (s_db s) !! k' = None → is_Some (<[k:=e']> (enrollments (s_db s)) !! k') → k' = k) as Hx.
    { intros k' Hn [e1 H1]. destruct (decide (k' = k)); [done|]. rewrite lookup_insert_ne in H1 by done. congruence. }
    intros k1 k2 N1 N2 S1 S2. by rewrite (Hx _ N1 S1), (Hx _ N2 S2).
Qed.
Lemma one_moved P d d' rs ps : moves_one d d' → rows_step P (mkSys d rs ps) (mkSys d' rs ps).
Proof.
  intros [_ [[H _]|(k & e & e' & Hk & Hm & H)]]; [by apply same_rows|].
  eapply (one_row _ _ _ k e e'); [done|done|]. by right; left.
Qed.
Lemma write_ok ws r now e s d d' u : write_report ws r now e s d = Ok (d', u) → ∃ current,
  enrollments d !! (ws, rp_enrollmentId r) = Some current ∧ e_state current = e_state e ∧
  enrollments d' = <[(ws, rp_enrollmentId r) := reported e s r now current]> (enrollments d) ∧
  jobs d' = jobs d ∧ versions d' = versions d ∧ job_preflight_seq d' = job_preflight_seq d ∧
  (issuers d' = issuers d ∨ issuers d' = alter require_revalidation (ws, issuer_id (e_fixed current)) (issuers d)).
Proof.
  unfold write_report. destruct (enrollments d !! _) as [current|] eqn:E; [|done]. case_bool_decide as Hs; [|done].
  intros [= <-]. exists current. cbv zeta. rewrite (put_Some _ _ _ current) by done.
  destruct (bool_decide (rp_errorCode r = Some CA_KEY_CHANGED)); split_and!; try done; [by right|by left].
Qed.

Context {laws : JobServiceLaws js}.
#[local] Opaque continue_with claimDueEnrollment creating.
Lemma commit_rows P d d' rs ps : keys_ok d → committed P d d' → rows_step P (mkSys d rs ps) (mkSys d' rs ps).
Proof.
  intros Hk [].
  - apply same_rows. unfold createIssuer in *. by open_tx H0.
  - apply same_rows. unfold discardUnconfiguredIssuer in *. by open_tx H.
  - apply same_rows. by destruct (preflight_ok _ _ _ _ _ _ _ _ _ H H0) as [_ _ _ _ _ [? _]].
  - apply same_rows. unfold confirmIssuerKey in *. by open_tx H.
  - destruct (create_ok _ _ _ _ _ _ _ H H1) as (e & Hn & He & Hc). by eapply new_row_step.
  - by eapply one_moved, propose_moves.
  - by eapply one_moved, cancel_moves.
  - by eapply one_moved, abandon_moves.
  - by eapply one_moved, retry_moves.
  - by eapply one_moved, recover_moves.
  - by eapply one_moved, dispatch_moves.
  - by eapply one_moved, sweep_moves.
Qed.
Lemma step_rows P s s' : keys_ok (s_db s) → sys_step P s s' → rows_step P s s'.
Proof.
  intros Hk Hs. destruct Hs; cbn in Hk.
  - by apply commit_rows.
  - apply same_rows. by destruct (record_preflight_ok _ _ _ _ _ _ _ _ H0) as [->|(id & i & _ & _ & _ & ->)].
  - by apply same_rows.
  - destruct (write_ok _ _ _ _ _ _ _ _ H) as (cur & Hc & Hst & He & _). eapply one_row; [exact Hc|exact He|].
    right; right. split; [by econstructor|]. eexists _, now. split; [apply elem_of_app; right; by left|]. done.
  - by apply same_rows.
  - by apply same_rows.
  - by apply same_rows.
Qed.

(** * Rows and reports *)

Definition report_ok (f : report_in_flight) : Prop := rtc forward (e_state (if_row f)) (rp_state (if_report f)).
Record sys_ok (s : sys) : Prop := { so_keys : keys_ok (s_db s); so_reports : Forall report_ok (s_reports s) }.
Lemma read_report_ok ws j ok r d e s : read_report ws j ok r d = Ok (e, s) → report_ok (mkInFlight ws r e s).
Proof.
  unfold read_report, report_ok. cbn. intros H. simplify_result. destruct (job_enrollment j); [|done]. simplify_result.
  destruct (read_snapshot _); [|done]. simplify_result. apply canReach_iff.
  match goal with H : assertForwardTransition _ _ = _ |- _ => unfold assertForwardTransition in H; by destruct (canReachEnrollmentState _ _) end.
Qed.
Lemma step_ok P s s' : sys_ok s → sys_step P s s' → sys_ok s'.
Proof.
  intros [Hk Hr] Hs. pose proof (step_rows _ _ _ Hk Hs) as (_ & Hn & _). constructor.
  - intros k e' He'. destruct (enrollments (s_db s) !! k) as [e|] eqn:He; [by eapply Hk|].
    destruct (Hn _ _ He He') as (c & _ & Hc). by apply Hc.
  - destruct Hs; cbn in *; try done; rewrite ?Forall_app, ?Forall_cons in *; try naive_solver.
    split; [done|]. split; [by eapply read_report_ok|done].
Qed.
Lemma steps_ok P s s' : sys_ok s → rtc (sys_step P) s s' → sys_ok s'.
Proof. intros H Hr. induction Hr; [done|]. eauto using step_ok. Qed.

(** * The life of an enrollment *)

(** [FORWARD], and the way back that only the maintenance sweep takes. *)
Definition machine (s t : enrollment_state) : Prop :=
  forward s t ∨ s = pending_issuance ∧ t = submission_uncertain.
Lemma machine_terminal s t : s ∈ TERMINAL → rtc machine s t → t = s.
Proof.
  intros Hs Hr. inversion Hr as [|? u ? [Hsu|[-> _]]]; subst; [done| |by apply terminal_iff in Hs].
  apply terminal_iff in Hs. unfold forward in Hsu. rewrite Hs in Hsu. by apply elem_of_nil in Hsu.
Qed.
Lemma change_effect s s' k e e' : sys_ok s → row_change s s' k e e' →
  e_fixed e' = e_fixed e ∧ e_attempt e <= e_attempt e' ∧ rtc machine (e_state e) (e_state e').
Proof.
  intros [_ Hr] [->|[Hm|(_ & f & now & Hf & _ & Hs & ->)]]; [done| |].
  - destruct Hm as [now H|now H|now n H| |j|now c|now r Hd|now n r j Hd _ _ Hj|now n r j Hd].
    + split_and!; [done..|by apply rtc_once; left].
    + split_and!; [done..|by apply rtc_once; left].
    + done.
    + split_and!; [done|cbn; lia|done].
    + split_and!; [done|cbn; lia|done].
    + done.
    + destruct (decides_spec _ _ _ _ _ Hd) as (_ & _ & Hp & _). split_and!; [done..|]. apply rtc_once. by right.
    + destruct (decides_spec _ _ _ _ _ Hd) as (_ & _ & Hp & _). split_and!; [done|cbn; lia|].
      apply rtc_once. left. cbn. rewrite Hp. by apply (bool_decide_unpack _).
    + destruct (keeps_retry_date _); (split_and!; [done|cbn; lia|done]).
  - split_and!; [done..|]. cbn. rewrite Hs. rewrite Forall_forall in Hr. eapply rtc_subrel, Hr, Hf. by left.
Qed.
Lemma row_history P s s' k e : sys_ok s → rtc (sys_step P) s s' → enrollments (s_db s) !! k = Some e →
  ∃ e', enrollments (s_db s') !! k = Some e' ∧
    e_fixed e' = e_fixed e ∧ e_attempt e <= e_attempt e' ∧ rtc machine (e_state e) (e_state e').
Proof.
  intros Hok Hr. revert e. induction Hr as [s|s s1 s' Hs _ IH]; intros e He; [by exists e|].
  destruct (step_rows _ _ _ (so_keys _ Hok) Hs) as [H _]. destruct (H _ _ He) as (e1 & He1 & Hc).
  destruct (change_effect _ _ _ _ _ Hok Hc) as (F1 & F2 & F3).
  destruct (IH (step_ok _ _ _ Hok Hs) _ He1) as (e' & He' & G1 & G2 & G3). exists e'.
  split_and!; [done|congruence|lia|by etrans].
Qed.

(** * One open enrollment per certificate *)

Definition canonical_certificate (c : creation) : Prop :=
  ∀ t, cr_certificateId c = Some t → is_uuid t = true.
Definition unique_open (d : db) : Prop := ∀ k1 k2 e1 e2 cert,
  enrollments d !! k1 = Some e1 → enrollments d !! k2 = Some e2 → k1.1 = k2.1 →
  certificate_id (e_fixed e1) = Some cert → certificate_id (e_fixed e2) = Some cert →
  is_open e1 = true → is_open e2 = true → k1 = k2.

Lemma open_iff s : s ∈ OPEN_ENROLLMENT_STATES ↔ s ∉ TERMINAL.
Proof. apply (bool_decide_unpack _). by destruct s. Qed.
Lemma is_open_iff e : is_open e = true ↔ e_state e ∉ TERMINAL.
Proof. unfold is_open. rewrite bool_decide_eq_true. apply open_iff. Qed.
Lemma stays_closed e e' : rtc machine (e_state e) (e_state e') → is_open e' = true → is_open e = true.
Proof.
  rewrite !is_open_iff. intros Hr Hn Ht. by rewrite (machine_terminal _ _ Ht Hr) in Hn.
Qed.
Lemma none_open ws t d k e : findOpenEnrollment ws t d = false → enrollments d !! k = Some e → k.1 = ws →
  certificate_id (e_fixed e) = uuid_in t → is_Some (uuid_in t) → is_open e = false.
Proof.
  unfold findOpenEnrollment. rewrite <- not_true_iff_false, existsb_exists. intros H He Hk Hc Hi.
  destruct (is_open e) eqn:E; [|done]. exfalso. apply H. exists (k, e). split; [by apply list_elem_of_In, elem_of_map_to_list|].
  cbn. unfold has_certificate. by rewrite !bool_decide_eq_true_2, E.
Qed.
Lemma unique_step s s' : sys_ok s → unique_open (s_db s) → sys_step canonical_certificate s s' → unique_open (s_db s').
Proof.
  intros Hok Hu Hs. destruct (step_rows _ _ _ (so_keys _ Hok) Hs) as (Ho & Hn & H1n).
  (* a row of the next state is an earlier open one, or the created one *)
  assert (∀ k e, enrollments (s_db s') !! k = Some e → is_open e = true →
    (∃ e0, enrollments (s_db s) !! k = Some e0 ∧ e_fixed e = e_fixed e0 ∧ is_open e0 = true) ∨
    enrollments (s_db s) !! k = None ∧ ∀ t k0 e0, certificate_id (e_fixed e) = Some t → enrollments (s_db s) !! k0 = Some e0 →
      k0.1 = k.1 → certificate_id (e_fixed e0) = Some t → is_open e0 = false) as Hrow.
  { intros k e He Hop. destruct (enrollments (s_db s) !! k) as [e0|] eqn:E0.
    - left. destruct (Ho _ _ E0) as (e1 & He1 & Hc). simplify_eq. destruct (change_effect _ _ _ _ _ Hok Hc) as (Hf & _ & Hr).
      exists e0. split; [done|]. split; [done|]. by eapply stays_closed.
    - right. split; [done|]. intros t k0 e0 Ht He0 Hk Ht0. destruct (Hn _ _ E0 He) as (c & Hcan & Hc).
      pose proof (cd_certificate _ _ _ _ _ Hc) as Hcert. rewrite Ht in Hcert.
      destruct (cr_certificateId c) as [x|] eqn:Ex; [|done]. cbn in Hcert.
      assert (certificate_text c = x) as Hx by (unfold certificate_text; by rewrite Ex).
      eapply (none_open k.1 x); [|done|done|by rewrite <- Hcert|by eexists].
      rewrite <- Hx. apply (cd_none_open _ _ _ _ _ Hc). rewrite Hx. by apply Hcan. }
  intros k1 k2 e1 e2 cert H1 H2 Hws C1 C2 O1 O2.
  destruct (Hrow _ _ H1 O1) as [(d1 & D1 & F1 & P1)|[N1 B1]], (Hrow _ _ H2 O2) as [(d2 & D2 & F2 & P2)|[N2 B2]].
  - apply (Hu k1 k2 d1 d2 cert); congruence.
  - rewrite F1 in C1. by rewrite (B2 _ _ _ C2 D1 Hws C1) in P1.
  - rewrite F2 in C2. by rewrite (B1 _ _ _ C1 D2 (eq_sym Hws) C2) in P2.
  - apply H1n; [done|done|by eexists..].
Qed.
Lemma unique_steps s s' : sys_ok s → unique_open (s_db s) → rtc (sys_step canonical_certificate) s s' →
  unique_open (s_db s').
Proof. intros Hok Hu Hr. induction Hr; [done|]. eauto using step_ok, unique_step. Qed.

(** * One live job per enrollment *)

(** Jobs of an enrollment belong to an existing row, which points at the one
    that is not over. *)
Definition owned (d : db) : Prop := ∀ jid j, jobs d !! jid = Some j → j_id j = jid ∧
  ∀ id, job_enrollment j = Some id → ∃ e, enrollments d !! (r_workspaceId (j_row j), id) = Some e ∧
    (is_active (Some (j_state j)) = true → current_job_id e = Some jid).

Lemma active_terminal s : is_active (Some s) = negb (isTerminalJobStatus s).
Proof. by destruct s. Qed.
Lemma current_status ws e d jid j : current_job_id e = Some jid → jobs d !! jid = Some j → r_workspaceId (j_row j) = ws →
  job_status_of ws e d = Some (j_state j).
Proof. unfold job_status_of, job_in. intros -> H <-. cbn. rewrite H. cbn. by rewrite bool_decide_eq_true_2. Qed.
Lemma owned_rows d d' : owned d → jobs d' = jobs d →
  (∀ k e, enrollments d !! k = Some e → ∃ e', enrollments d' !! k = Some e' ∧ current_job_id e' = current_job_id e) → owned d'.
Proof.
  intros Ho Hj He jid j. rewrite Hj. intros H. destruct (Ho _ _ H) as [Hid Hb]. split; [done|].
  intros id Hi. destruct (Hb _ Hi) as (e & H1 & H2). destruct (He _ _ H1) as (e' & H3 & H4). exists e'. by rewrite H4.
Qed.
(** When the current job of an idle row is replaced by a new one. *)
Lemma owned_new d d' k e e' j : owned d → enrollments d !! k = Some e → idle k e d → new_job k d d' j →
  enrollments d' = <[k := e']> (enrollments d) → current_job_id e' = Some (j_id j) → owned d'.
Proof.
  intros Ho He Hidle Hj He' Hcur jid j1. rewrite (nj_jobs _ _ _ _ Hj), He'.
  destruct (decide (j_id j = jid)) as [<-|Hne].
  - rewrite lookup_insert_eq. intros [= <-]. split; [done|]. rewrite (nj_bound _ _ _ _ Hj), (nj_workspace _ _ _ _ Hj).
    intros id [= <-]. exists e'. destruct k as [ws id]. by rewrite lookup_insert_eq.
  - rewrite lookup_insert_ne by done. intros H. destruct (Ho _ _ H) as [Hid Hb]. split; [done|].
    intros id Hi. destruct (Hb _ Hi) as (e1 & H1 & H2). destruct (decide (k = (r_workspaceId (j_row j1), id))) as [->|Hk].
    + rewrite lookup_insert_eq. exists e'. split; [done|]. intros Ha. simplify_eq. exfalso.
      unfold idle in Hidle. cbn [fst] in Hidle. rewrite (current_status _ _ _ _ _ (H2 Ha) H eq_refl) in Hidle. congruence.
    + rewrite lookup_insert_ne by done. by exists e1.
Qed.
Lemma cancel_job_kept now j : kept_job j (cancel_job now j).
Proof. unfold cancel_job. case_bool_decide; by constructor. Qed.
Lemma kept_active j j' : kept_job j j' → is_active (Some (j_state j')) = true → is_active (Some (j_state j)) = true.
Proof. intros H. rewrite !active_terminal, !negb_true_iff, <- !not_true_iff_false. intros Hn Ht. by apply Hn, H. Qed.
Lemma owned_evolve d d' : owned d → jobs_evolve (jobs d) (jobs d') →
  (∀ k e, enrollments d !! k = Some e → ∃ e', enrollments d' !! k = Some e' ∧ current_job_id e' = current_job_id e) → owned d'.
Proof.
  intros Ho [Hold Hnew] He jid j' Hj'. destruct (jobs d !! jid) as [j|] eqn:Hj.
  - destruct (Hold _ _ Hj) as (j1 & H1 & Hk). simplify_eq. destruct (Ho _ _ Hj) as [Hid Hb].
    split; [by rewrite (kj_id _ _ Hk)|]. intros id. rewrite (kj_enrollment _ _ Hk), (kj_workspace _ _ Hk). intros Hi.
    destruct (Hb _ Hi) as (e & H2 & H3). destruct (He _ _ H2) as (e' & H4 & H5). exists e'. split; [done|].
    rewrite H5. intros Ha. apply H3. by eapply kept_active.
  - destruct (Hnew _ _ Hj Hj') as (Hid & Hn & _). split; [done|]. rewrite Hn. done.
Qed.
Lemma evolve_refl m : jobs_evolve m m.
Proof. split; [|congruence]. intros id j H. exists j. split; [done|]. by constructor. Qed.
Lemma evolve_cancel now id m : jobs_evolve m (alter (cancel_job now) id m).
Proof.
  split.
  - intros jid j H. destruct (decide (id = jid)) as [<-|Hne].
    + exists (cancel_job now j). rewrite lookup_alter_eq, H. split; [done|apply cancel_job_kept].
    + exists j. rewrite lookup_alter_ne by done. split; [done|]. by constructor.
  - intros jid j H. destruct (decide (id = jid)) as [<-|Hne]; [rewrite lookup_alter_eq, H|rewrite lookup_alter_ne, H]; done.
Qed.

(** What a step may do to the jobs: evolve, or gain one. *)
Inductive jobs_change (d d' : db) : Prop :=
| jc_evolve : jobs_evolve (jobs d) (jobs d') → jobs_change d d'
| jc_enrollment k j : new_job k d d' j → jobs_change d d'
| jc_preflight ws id now j : preflighted ws id now d d' j → jobs_change d d'.
Lemma same_jobs d d' : jobs d' = jobs d → jobs_change d d'.
Proof. intros H. apply jc_evolve. rewrite H. apply evolve_refl. Qed.
Lemma moved_jobs d d' k e e' : moved d d' k e e' → jobs_change d d'.
Proof.
  intros H. destruct H as [now _ _ Hj| | | | | | | | ]; eauto using same_jobs, jc_enrollment. apply jc_evolve. rewrite Hj.
  destruct (current_job_id e) as [id|]; [|apply evolve_refl]. destruct (job_status_of _ _ _); [apply evolve_cancel|apply evolve_refl].
Qed.
Lemma moves_jobs d d' : moves_one d d' → jobs_change d d'.
Proof. intros [_ [[_ Hj]|(k & e & e' & _ & Hm & _)]]; [by apply same_jobs|by eapply moved_jobs]. Qed.
Lemma commit_jobs P d d' : keys_ok d → committed P d d' → jobs_change d d'.
Proof.
  intros Hk [].
  - apply same_jobs. unfold createIssuer in *. by open_tx H0.
  - apply same_jobs. unfold discardUnconfiguredIssuer in *. by open_tx H.
  - by eapply jc_preflight, preflight_ok.
  - apply same_jobs. unfold confirmIssuerKey in *. by open_tx H.
  - destruct (create_ok _ _ _ _ _ _ _ H H1) as (e & _ & _ & Hc). destruct (cd_job _ _ _ _ _ Hc) as (j & Hj & _). by eapply jc_enrollment.
  - by eapply moves_jobs, propose_moves.
  - by eapply moves_jobs, cancel_moves.
  - by eapply moves_jobs, abandon_moves.
  - by eapply moves_jobs, retry_moves.
  - by eapply moves_jobs, recover_moves.
  - by eapply moves_jobs, dispatch_moves.
  - by eapply moves_jobs, sweep_moves.
Qed.
Lemma step_jobs P s s' : sys_ok s → sys_step P s s' → jobs_change (s_db s) (s_db s').
Proof.
  intros [Hk _] Hs. destruct Hs; cbn in *; try (by apply same_jobs).
  - by eapply commit_jobs.
  - apply same_jobs. by destruct (record_preflight_ok _ _ _ _ _ _ _ _ H0) as [->|(id & i & _ & _ & _ & ->)].
  - apply same_jobs. by destruct (write_ok _ _ _ _ _ _ _ _ H) as (cur & _ & _ & _ & Hj & _).
  - by apply jc_evolve.
Qed.
(** Jobs stay; a new one of an enrollment is not started. *)
Lemma jobs_stay d d' jid : jobs_change d d' → is_Some (jobs d !! jid) → is_Some (jobs d' !! jid).
Proof.
  assert (∀ j, is_Some (jobs d !! jid) → is_Some (<[j_id j := j]> (jobs d) !! jid)) as Hi.
  { intros j H. destruct (decide (j_id j = jid)) as [<-|Hne]; [rewrite lookup_insert_eq; by eexists|by rewrite lookup_insert_ne]. }
  intros [[Ho _]|k j Hj|ws id now j Hj] [j0 H].
  - destruct (Ho _ _ H) as (j' & H' & _). by exists j'.
  - rewrite (nj_jobs _ _ _ _ Hj). apply Hi. by exists j0.
  - rewrite (pf_jobs _ _ _ _ _ _ Hj). apply Hi. by exists j0.
Qed.
Lemma new_unstarted d d' jid j id : jobs_change d d' → jobs d !! jid = None → jobs d' !! jid = Some j →
  job_enrollment j = Some id → unstarted (j_state j).
Proof.
  intros [[_ Hn]|k j1 Hj|ws id1 now j1 Hj] Hnone H He.
  - destruct (Hn _ _ Hnone H) as (_ & Hx & _). congruence.
  - rewrite (nj_jobs _ _ _ _ Hj) in H. destruct (decide (j_id j1 = jid)) as [<-|Hne].
    + rewrite lookup_insert_eq in H. injection H as <-. apply Hj.
    + rewrite lookup_insert_ne in H by done. congruence.
  - rewrite (pf_jobs _ _ _ _ _ _ Hj) in H. destruct (decide (j_id j1 = jid)) as [<-|Hne].
    + rewrite lookup_insert_eq in H. injection H as <-. destruct (pf_row _ _ _ _ _ _ Hj) as (_ & _ & _ & Hx). congruence.
    + rewrite lookup_insert_ne in H by done. congruence.
Qed.

Lemma owned_moved d d' k e e' : owned d → enrollments d !! k = Some e → moved d d' k e e' →
  enrollments d' = <[k := e']> (enrollments d) → owned d'.
Proof.
  intros Ho He Hm He'.
  assert (jobs_evolve (jobs d) (jobs d') → current_job_id e' = current_job_id e → owned d') as Hsame.
  { intros Hj Hc. apply (owned_evolve d); [done..|]. intros k0 e0 H0. rewrite He'. destruct (decide (k = k0)) as [<-|Hne].
    - rewrite lookup_insert_eq. simplify_eq. by exists e'.
    - rewrite lookup_insert_ne by done. by exists e0. }
  assert (∀ j, idle k e d → new_job k d d' j → current_job_id e' = Some (j_id j) → owned d') as Hnew by (intros; by eapply owned_new).
  destruct Hm as [now _ _ Hj|now _ Hj|now n _ _ Hj|_ Hj|j _ _ Hi Hj|now c _ _ _ _ Hj|now r _ _ Hj|now n r j Hd _ _ Hj|now n r j Hd _ _ _ Hj].
  - apply Hsame; [|done]. rewrite Hj. destruct (current_job_id e) as [id|]; [|apply evolve_refl].
    destruct (job_status_of _ _ _); [apply evolve_cancel|apply evolve_refl].
  - apply Hsame; [|done]. rewrite Hj. apply evolve_refl.
  - apply Hsame; [|done]. rewrite Hj. apply evolve_refl.
  - apply Hsame; [|done]. rewrite Hj. apply evolve_refl.
  - by apply (Hnew j).
  - apply Hsame; [|done]. rewrite Hj. apply evolve_refl.
  - apply Hsame; [|done]. rewrite Hj. apply evolve_refl.
  - apply (Hnew j); [by eapply decides_spec|done|done].
  - apply (Hnew j); [by eapply decides_spec|done|by destruct (keeps_retry_date _)].
Qed.
Lemma owned_moves_one d d' : owned d → moves_one d d' → owned d'.
Proof.
  intros Ho [_ [[He Hj]|(k & e & e' & He & Hm & He')]]; [|by eapply owned_moved].
  apply (owned_rows d); [done..|]. intros k e H. rewrite He. by exists e.
Qed.
Lemma owned_unbound d d' j : owned d → jobs d' = <[j_id j := j]> (jobs d) → job_enrollment j = None →
  enrollments d' = enrollments d → owned d'.
Proof.
  intros Ho Hj Hn He jid j1. rewrite Hj, He. destruct (decide (j_id j = jid)) as [<-|Hne].
  - rewrite lookup_insert_eq. intros [= <-]. split; [done|]. by rewrite Hn.
  - rewrite lookup_insert_ne by done. apply Ho.
Qed.
Lemma owned_created d d' k e c : owned d → enrollments d !! k = None → enrollments d' = <[k := e]> (enrollments d) →
  created c d d' k e → owned d'.
Proof.
  intros Ho Hn He Hc. destruct (cd_job _ _ _ _ _ Hc) as (j & Hj & Hcur). intros jid j1. rewrite (nj_jobs _ _ _ _ Hj), He.
  destruct (decide (j_id j = jid)) as [<-|Hne].
  - rewrite lookup_insert_eq. intros [= <-]. split; [done|]. rewrite (nj_bound _ _ _ _ Hj), (nj_workspace _ _ _ _ Hj).
    intros id [= <-]. exists e. destruct k as [ws id]. by rewrite lookup_insert_eq.
  - rewrite lookup_insert_ne by done. intros H. destruct (Ho _ _ H) as [Hid Hb]. split; [done|].
    intros id Hi. destruct (Hb _ Hi) as (e1 & H1 & H2). exists e1. by rewrite lookup_insert_ne by congruence.
Qed.
Lemma owned_commit P d d' : keys_ok d → owned d → committed P d d' → owned d'.
Proof.
  intros Hk Ho [].
  - unfold createIssuer in *. by open_tx H0.
  - unfold discardUnconfiguredIssuer in *. by open_tx H.
  - destruct (preflight_ok _ _ _ _ _ _ _ _ _ H H0) as [_ _ Hj (_ & _ & _ & Hn) _ [He _]]. by eapply owned_unbound.
  - unfold confirmIssuerKey in *. by open_tx H.
  - destruct (create_ok _ _ _ _ _ _ _ H H1) as (e & Hn & He & Hc). by eapply owned_created.
  - by eapply owned_moves_one, propose_moves.
  - by eapply owned_moves_one, cancel_moves.
  - by eapply owned_moves_one, abandon_moves.
  - by eapply owned_moves_one, retry_moves.
  - by eapply owned_moves_one, recover_moves.
  - by eapply owned_moves_one, dispatch_moves.
  - by eapply owned_moves_one, sweep_moves.
Qed.
Lemma owned_step P s s' : sys_ok s → owned (s_db s) → sys_step P s s' → owned (s_db s').
Proof.
  intros [Hk _] Ho Hs. destruct Hs; cbn in *; try done.
  - by eapply owned_commit.
  - by destruct (record_preflight_ok _ _ _ _ _ _ _ _ H0) as [->|(id & i & _ & _ & _ & ->)].
  - destruct (write_ok _ _ _ _ _ _ _ _ H) as (cur & Hc & _ & He & Hj & _). apply (owned_rows d); [done..|].
    intros k0 e0 H0. rewrite He. destruct (decide ((ws, rp_enrollmentId r) = k0)) as [<-|Hne].
    + rewrite lookup_insert_eq. simplify_eq. by eexists.
    + rewrite lookup_insert_ne by done. by exists e0.
  - apply (owned_evolve d); [done..|]. intros k0 e0 H0. by exists e0.
Qed.
Lemma owned_steps P s s' : sys_ok s → owned (s_db s) → rtc (sys_step P) s s' → owned (s_db s').
Proof. intros Hok Ho Hr. induction Hr; [done|]. eauto using step_ok, owned_step. Qed.

(** The job a row points at is in the table. *)
Definition pointed (d : db) : Prop := ∀ k e jid, enrollments d !! k = Some e → current_job_id e = Some jid → is_Some (jobs d !! jid).
Lemma moved_current d d' k e e' : moved d d' k e e' →
  current_job_id e' = current_job_id e ∨ ∃ j, new_job k d d' j ∧ current_job_id e' = Some (j_id j).
Proof. intros []; eauto. right. exists j. split; [done|]. by destruct (keeps_retry_date _). Qed.
Lemma new_in k d d' j : new_job k d d' j → is_Some (jobs d' !! j_id j).
Proof. intros H. rewrite (nj_jobs _ _ _ _ H), lookup_insert_eq. by eexists. Qed.
Lemma pointed_step P s s' : sys_ok s → pointed (s_db s) → sys_step P s s' → pointed (s_db s').
Proof.
  intros Hok Hp Hs k e' jid He' Hjid. destruct (step_rows _ _ _ (so_keys _ Hok) Hs) as (Ho & Hn & _).
  pose proof (step_jobs _ _ _ Hok Hs) as Hj. destruct (enrollments (s_db s) !! k) as [e|] eqn:He.
  - destruct (Ho _ _ He) as (e1 & He1 & Hc). simplify_eq. destruct Hc as [->|[Hm|(_ & f & now & _ & _ & _ & ->)]].
    + eapply jobs_stay; [done|by eapply Hp].
    + destruct (moved_current _ _ _ _ _ Hm) as [Hsame|(j & Hj' & Hcur)].
      * eapply jobs_stay; [done|]. eapply Hp; [done|congruence].
      * rewrite Hcur in Hjid. injection Hjid as <-. by eapply new_in.
    + eapply jobs_stay; [done|by eapply Hp].
  - destruct (Hn _ _ He He') as (c & _ & Hc). destruct (cd_job _ _ _ _ _ Hc) as (j & Hj' & Hcur).
    rewrite Hcur in Hjid. injection Hjid as <-. by eapply new_in.
Qed.
Lemma pointed_steps P s s' : sys_ok s → pointed (s_db s) → rtc (sys_step P) s s' → pointed (s_db s').
Proof. intros Hok H Hr. induction Hr; [done|]. eauto using step_ok, pointed_step. Qed.

(** * Retired certificates and the clean-up of keys *)

Lemma moved_job d d' k e e' : moved d d' k e e' → current_job_id e' ≠ current_job_id e →
  retired_in k e d = true → cleanup_state (e_state e') = true.
Proof.
  intros Hm Hj Hr. destruct Hm as [| | | |j _ Hn| | |now n r j Hd|now n r j Hd _ _ Hn _]; try done.
  - congruence.
  - destruct (decide (r = free_key)) as [->|Hne]; [|rewrite Hn in Hr by done; done].
    cbn. apply decides_spec in Hd as (_ & _ & Hd). by apply Hd.
Qed.
Lemma cleanup_moved d d' k e e' : moved d d' k e e' → cleanup_state (e_state e) = true → is_Some (next_poll_at e) →
  e_state e' = e_state e ∧ is_Some (next_poll_at e').
Proof.
  intros Hm Hc Hp.
  assert (e_state e ∈ TERMINAL ∧ e_state e ∉ install_failed :: recovery_states ∧ e_state e ∉ [submission_uncertain; pending_issuance])
    as (Ht & Hrec & Hpend) by (revert Hc; apply (bool_decide_unpack _); destruct (e_state e); vm_compute; exact I).
  destruct Hm as [now Hf|now Hf|now n Hs| |j Hs|now c Hd Hi|now r Hd|now n r j Hd|now n r j Hd]; try done.
  - apply terminal_iff in Ht. unfold forward in Hf. rewrite Ht in Hf. by apply elem_of_nil in Hf.
  - apply terminal_iff in Ht. unfold forward in Hf. rewrite Ht in Hf. by apply elem_of_nil in Hf.
  - apply decides_spec in Hd as (_ & _ & Hd). destruct c as [s r|r]; [done|]. apply Hd in Hc. by subst.
  - apply decides_spec in Hd as (_ & _ & Hd & _). destruct Hpend. rewrite Hd. set_solver.
  - apply decides_spec in Hd as (_ & _ & Hd & _). destruct Hpend. rewrite Hd. set_solver.
  - apply decides_spec in Hd as (_ & _ & Hd). apply Hd in Hc as ->. split; [done|]. by eexists.
Qed.
Lemma cleanup_steps P k s s' e : sys_ok s →
  rtc (λ a b, sys_step P a b ∧ ¬ report_written k a b) s s' →
  enrollments (s_db s) !! k = Some e → cleanup_state (e_state e) = true → is_Some (next_poll_at e) →
  ∃ e', enrollments (s_db s') !! k = Some e' ∧ e_fixed e' = e_fixed e ∧ e_state e' = e_state e ∧ is_Some (next_poll_at e').
Proof.
  intros Hok Hr. revert e. induction Hr as [s|s s1 s' [Hs Hn] _ IH]; intros e He Hc Hp; [by exists e|].
  destruct (step_rows _ _ _ (so_keys _ Hok) Hs) as [H _]. destruct (H _ _ He) as (e1 & He1 & Hch).
  destruct (change_effect _ _ _ _ _ Hok Hch) as (F1 & _).
  assert (e_state e1 = e_state e ∧ is_Some (next_poll_at e1)) as [Hs1 Hp1].
  { destruct Hch as [->|[Hm|[Hw _]]]; [done|by eapply cleanup_moved|done]. }
  destruct (IH (step_ok _ _ _ Hok Hs) _ He1) as (e' & He' & G1 & G2 & G3); [by rewrite Hs1|done|].
  exists e'. split_and!; [done|congruence|congruence|done].
Qed.
End system.
