(* ===== verification/EnrollmentIssuers.v ===== *)
(** AD CS issuers: which CA key an enrollment is pinned to, and how often the
    CA is probed.

    The operator confirms a key from a preflight result; every enrollment is
    frozen from a confirmed version.  The invariant [pinned] traces the frozen
    key back to an accepted preflight result. *)
From stdpp Require Import relations.
From S2P Require Import Prelude Dates Net Json Jobs JobFields RenewalCapacity Signing Db JobRequest.
From S2P Require Import Eligibility Dispatch EnrollmentLifecycle Enrollments EnrollmentMoves EnrollmentSafety.
Open Scope Z_scope.

Section issuers.
Context {ct : Contracts} {js : JobService} {pg : Postgres} {laws : JobServiceLaws js}.
Notation log := (list (key * jsval)).

(** * Where a pinned key comes from *)

Definition confirmed_from (l : log) (k : key) (caKey : string) (config tmpl : jsval) : Prop :=
  ∃ p, (k, p) ∈ l ∧ wf p ∧ confirmedKeyAllowed p caKey = true ∧ config = get "caConfig" p ∧ tmpl = get "template" p.
Definition issuer_logged (l : log) (k : key) (i : issuer) : Prop :=
  last_preflight i = Null ∨ (k, last_preflight i) ∈ l.
Definition version_logged (l : log) (k : string * string * Z) (v : version) : Prop :=
  ∀ caKey, ca_key_sha256 v = Some caKey → confirmed_from l k.1 caKey (ca_config v) (template v).
Definition text_field (k : string) (v : jsval) (snapshot : jsval) : Prop := ∀ t, v = Str t → get k snapshot = Str t.
(** The frozen bytes say what was confirmed. *)
Definition frozen_logged (l : log) (k : key) (f : fixed) : Prop :=
  ∃ caKey config tmpl snapshot, confirmed_from l (k.1, issuer_id f) caKey config tmpl ∧
    read_snapshot (snapshot_bytes f) = Some snapshot ∧ snapshot_sha256 f = sha256_hex (snapshot_bytes f) ∧
    validateSnapshot snapshot = true ∧
    get "caKeySha256" snapshot = Str caKey ∧ text_field "caConfig" config snapshot ∧ text_field "template" tmpl snapshot.
Record pinned (s : sys) : Prop := {
  pn_log : Forall (λ kp, wf kp.2) (s_preflights s);
  pn_issuers : map_Forall (issuer_logged (s_preflights s)) (issuers (s_db s));
  pn_versions : map_Forall (version_logged (s_preflights s)) (versions (s_db s));
  pn_enrollments : ∀ k e, enrollments (s_db s) !! k = Some e → frozen_logged (s_preflights s) k (e_fixed e) }.

(** JavaScript values have no duplicate properties. *)
Definition creation_wf (c : creation) : Prop :=
  let f := cr_fields c in
  wf (in_authorizedDnsNames f) ∧ wf (in_keyAlgorithm f) ∧ wf (in_keySize f) ∧ wf (in_pollInterval f) ∧
  wf (in_pendingTimeout f) ∧ wf (in_minimumRemainingValidity f) ∧ wf (in_requireLaterNotAfter f).

Lemma confirmed_mono l l' k caKey config tmpl : confirmed_from l k caKey config tmpl → confirmed_from (l ++ l') k caKey config tmpl.
Proof. intros (p & Hp & H). exists p. split; [apply elem_of_app; by left|done]. Qed.
Lemma frozen_mono l l' k f : frozen_logged l k f → frozen_logged (l ++ l') k f.
Proof. intros (caKey & config & tmpl & sn & H & H'). exists caKey, config, tmpl, sn. split; [by apply confirmed_mono|done]. Qed.

Lemma snapshot_wf c id i v : creation_wf c → wf (ca_config v) → wf (template v) → wf (Obj (snapshot_of (freeze_input c id i v))).
Proof.
  intros (H1 & H2 & H3 & H4 & H5 & H6 & H7) Hc Ht. apply wf_obj. split; [by apply snapshot_keys|].
  assert (∀ a b, wf a → wf b → wf (or_default a b)) as Hd by (by intros []).
  unfold snapshot_of. repeat (apply Forall_cons; split; [cbn [snd]; try done|]); [..|constructor].
  all: try (by apply Hd). cbn. by destruct (ca_key_sha256 v).
Qed.
Lemma canonicalize_text v t : v = Str t → jsonify (canonicalize v) = Str t ∧ kept (EmptyString, canonicalize v) = true.
Proof. by intros ->. Qed.

Lemma created_frozen c d d' k e l : creation_wf c → map_Forall (version_logged l) (versions d) → created c d d' k e →
  frozen_logged l k (e_fixed e).
Proof.
  intros Hwf Hv Hc. destruct (cd_issuer _ _ _ _ _ Hc) as (id & i & v & fz & Hcv & Hfz & _ & Hid & _ & Hb & Hs).
  unfold confirmed_version in Hcv. cbn in Hcv. destruct (issuers d !! _) as [i'|]; [|done]. cbn in Hcv.
  destruct (versions d !! _) as [v'|] eqn:Ev; [|done]. cbn in Hcv. case_bool_decide as Hk; [|done]. injection Hcv as -> ->.
  destruct Hk as [caKey Hk]. pose proof (Hv _ _ Ev caKey Hk) as Hconf. cbn in Hconf.
  assert (wf (ca_config v) ∧ wf (template v)) as [W1 W2].
  { destruct Hconf as (p & _ & Hp & _ & -> & ->). split; by apply get_wf. }
  destruct (freeze_ok _ _ Hfz (snapshot_wf c id i v Hwf W1 W2)) as (p & Hp & Hval & Hsha & _ & Hget).
  exists caKey, (ca_config v), (template v), p. rewrite Hid, Hb, Hs. split; [done|]. do 3 (split; [done|]).
  assert (∀ name x, (name, x) ∈ snapshot_of (freeze_input c id i v) → text_field name x p) as Htext.
  { intros name x Hin t Ht. destruct (canonicalize_text _ _ Ht) as [<- Hkept]. by apply Hget. }
  split_and!.
  - apply (Htext _ (opt_text (ca_key_sha256 v))); [unfold snapshot_of; cbn; set_solver|by rewrite Hk].
  - apply Htext. unfold snapshot_of. cbn. set_solver.
  - apply Htext. unfold snapshot_of. cbn. set_solver.
Qed.

(** What each step does to issuers and versions. *)
Definition tables_logged (l : log) (d : db) : Prop :=
  map_Forall (issuer_logged l) (issuers d) ∧ map_Forall (version_logged l) (versions d).
Lemma same_logged l d d' : same_issuers d d' → tables_logged l d → tables_logged l d'.
Proof. intros (H1 & H2 & _). unfold tables_logged. by rewrite H1, H2. Qed.
Lemma issuer_logged_alter (l : log) (f : issuer → issuer) (k : key) (m : gmap key issuer) : (∀ i, last_preflight (f i) = last_preflight i) →
  map_Forall (issuer_logged l) m → map_Forall (issuer_logged l) (alter f k m).
Proof.
  intros Hf H k' i' Hi. destruct (decide (k = k')) as [<-|Hne].
  - rewrite lookup_alter_eq in Hi. apply fmap_Some in Hi as (i & Hi & ->). unfold issuer_logged. rewrite Hf. by apply H.
  - rewrite lookup_alter_ne in Hi by done. by apply H.
Qed.
Lemma issuer_logged_insert (l : log) (k : key) (i i' : issuer) (m : gmap key issuer) : m !! k = Some i → last_preflight i' = last_preflight i →
  map_Forall (issuer_logged l) m → map_Forall (issuer_logged l) (<[k := i']> m).
Proof. intros Hi Hl H. apply map_Forall_insert_2; [|done]. unfold issuer_logged. rewrite Hl. by apply H. Qed.
Lemma confirm_logged l ws id caKey caConfig tmpl d d' n : Forall (λ kp, wf kp.2) l →
  confirmIssuerKey ws id caKey caConfig tmpl d = Ok (d', n) → tables_logged l d → tables_logged l d'.
Proof.
  intros Hl H [Hi Hv]. unfold confirmIssuerKey in H. cbv zeta in H. open_tx H. apply found_ok in H0. cbn in *. split.
  - by apply (issuer_logged_insert _ _ a).
  - apply map_Forall_insert_2; [|done]. intros k [= <-]. cbn.
    destruct (Hi _ _ H0) as [Hnull|Hin]; [by rewrite Hnull in H2|]. exists (last_preflight a). split; [done|].
    split_and!; [|done..]. rewrite Forall_forall in Hl. by apply (Hl _ Hin).
Qed.
#[local] Opaque continue_with claimDueEnrollment creating.
Lemma commit_logged P l d d' : Forall (λ kp, wf kp.2) l → keys_ok d → tables_logged l d → committed P d d' → tables_logged l d'.
Proof.
  intros Hl Hk Hd Hc. destruct Hc.
  - unfold createIssuer in *. open_tx H0. split; [|apply Hd]. apply map_Forall_insert_2; [by left|apply Hd].
  - unfold discardUnconfiguredIssuer in *. open_tx H. split; [apply map_Forall_delete, Hd|apply Hd].
  - destruct (preflight_ok _ _ _ _ _ _ _ _ _ H H0) as [_ _ _ _ (i & Hi & Hi' & _) [_ Hv]]. unfold tables_logged.
    rewrite Hi', Hv. split; [by apply (issuer_logged_insert _ _ i); [..|apply Hd]|apply Hd].
  - by eapply confirm_logged.
  - destruct (create_ok _ _ _ _ _ _ _ H H1) as (e & _ & _ & Hc). eapply same_logged; [apply Hc|done].
  - eapply same_logged; [by eapply propose_moves|done].
  - eapply same_logged; [by eapply cancel_moves|done].
  - eapply same_logged; [by eapply abandon_moves|done].
  - eapply same_logged; [by eapply retry_moves|done].
  - eapply same_logged; [by eapply recover_moves|done].
  - eapply same_logged; [by eapply dispatch_moves|done].
  - eapply same_logged; [by eapply sweep_moves|done].
Qed.
Lemma logged_mono l l' d : tables_logged l d → tables_logged (l ++ l') d.
Proof.
  intros [Hi Hv]. split; intros k x Hx.
  - destruct (Hi _ _ Hx) as [?|?]; [by left|right; apply elem_of_app; by left].
  - intros caKey Hk. apply confirmed_mono. by apply (Hv _ _ Hx).
Qed.
Lemma step_logged P s s' : sys_ok s → pinned s → sys_step P s s' →
  Forall (λ kp, wf kp.2) (s_preflights s') ∧ tables_logged (s_preflights s') (s_db s') ∧
  ∃ l, s_preflights s' = s_preflights s ++ l.
Proof.
  intros [Hk _] [Hl Hi Hv _] Hs. assert (tables_logged (s_preflights s) (s_db s)) as Hd by done. clear Hi Hv.
  assert (∀ l : log, ∃ l0, l = l ++ l0) as Hnil by (intros l; exists []; by rewrite app_nil_r).
  destruct Hs; cbn in *.
  - split; [done|]. split; [by eapply commit_logged|done].
  - rewrite Forall_app, Forall_singleton. split; [done|]. split; [|by eexists].
    destruct (record_preflight_ok _ _ _ _ _ _ _ _ H0) as [->|(id & i & Hsub & Hi & _ & ->)]; [by apply logged_mono|].
    destruct (logged_mono _ [((ws, default EmptyString (r_subjectId (j_row j))), r)] _ Hd) as [Hi' Hv']. split; [|done]. cbn.
    apply map_Forall_insert_2; [|done]. right. cbn. rewrite Hsub. apply elem_of_app. right. by left.
  - by split_and!.
  - split; [done|]. split; [|done]. destruct (write_ok _ _ _ _ _ _ _ _ H) as (cur & _ & _ & _ & _ & Hv & _ & Hi).
    split; [|rewrite Hv; apply Hd]. destruct Hi as [Hi|Hi]; rewrite Hi; [apply Hd|apply issuer_logged_alter; [done|apply Hd]].
  - by split_and!.
  - by split_and!.
  - by split_and!.
Qed.
Lemma pinned_step P s s' : (∀ c, P c → creation_wf c) → sys_ok s → pinned s → sys_step P s s' → pinned s'.
Proof.
  intros HP Hok Hp Hs. destruct (step_logged _ _ _ Hok Hp Hs) as (Hl & [Hi Hv] & l & El). constructor; [done..|].
  destruct (step_rows _ _ _ (so_keys _ Hok) Hs) as (Ho & Hn & _). intros k e' He'.
  destruct (enrollments (s_db s) !! k) as [e|] eqn:He.
  - destruct (Ho _ _ He) as (e1 & He1 & Hc). simplify_eq. destruct (change_effect _ _ _ _ _ Hok Hc) as (-> & _).
    rewrite El. apply frozen_mono. by apply (pn_enrollments _ Hp).
  - destruct (Hn _ _ He He') as (c & Hc1 & Hc). rewrite El. apply frozen_mono.
    eapply created_frozen; [by apply HP|apply Hp|done].
Qed.
Lemma pinned_steps P s s' : (∀ c, P c → creation_wf c) → sys_ok s → pinned s → rtc (sys_step P) s s' → pinned s'.
Proof. intros HP Hok Hp Hr. induction Hr; [done|]. eauto using step_ok, pinned_step. Qed.

(** * How often a workspace probes its CA *)

Definition probes (ws : string) (lo hi : Z) (j : job) : Prop :=
  r_workspaceId (j_row j) = ws ∧ j_operation j = adcs_preflight ∧ lo < j_created_at j <= hi.
(** At most [PREFLIGHT_PER_HOUR] preflight jobs were created in any hour. *)
Definition rate_bounded (m : gmap string job) : Prop := ∀ ws t (ids : list string), NoDup ids →
  (∀ id, id ∈ ids → ∃ j, m !! id = Some j ∧ probes ws (t - HOUR_MS) t j) → Z.of_nat (length ids) <= PREFLIGHT_PER_HOUR.

Lemma rate_evolve m m' : rate_bounded m → jobs_evolve m m' → rate_bounded m'.
Proof.
  intros H [Ho Hn] ws t ids Hd Hids. apply (H ws t ids Hd). intros id Hin. destruct (Hids _ Hin) as (j' & Hj' & H1 & H2 & H3).
  destruct (m !! id) as [j|] eqn:Hj.
  - destruct (Ho _ _ Hj) as (j1 & Hj1 & Hk). simplify_eq. exists j. split; [done|]. destruct Hk. unfold probes. split_and!; congruence || lia.
  - destruct (Hn _ _ Hj Hj') as (_ & _ & Hne). done.
Qed.
Lemma rate_insert_other m j : rate_bounded m → j_operation j ≠ adcs_preflight → rate_bounded (<[j_id j := j]> m).
Proof.
  intros H Hj ws t ids Hd Hids. apply (H ws t ids Hd). intros id Hin. destruct (Hids _ Hin) as (j' & Hj' & Hp).
  apply lookup_insert_Some in Hj' as [[_ <-]|[_ Hj']]; [by destruct Hp as (_ & ? & _)|by exists j'].
Qed.
Lemma recent_length ws now d ids : NoDup ids →
  (∀ id, id ∈ ids → ∃ j, jobs d !! id = Some j ∧ recent_preflight ws now j = true) →
  Z.of_nat (length ids) <= recent_preflights ws now d.
Proof.
  intros Hd H. unfold recent_preflights. set (L := List.filter _ _). rewrite <- (length_fmap fst L). apply inj_le.
  apply submseteq_length, NoDup_submseteq; [done|]. intros id Hin. destruct (H _ Hin) as (j & Hj & Hr).
  apply list_elem_of_fmap. exists (id, j). split; [done|]. apply list_elem_of_In, filter_In. split; [|done].
  by apply list_elem_of_In, elem_of_map_to_list.
Qed.
Lemma rate_preflight ws id now d d' j : rate_bounded (jobs d) → preflighted ws id now d d' j → rate_bounded (jobs d').
Proof.
  intros H [Hrate Hfresh Hjobs (Hws & Hop & Hat & _) _ _]. rewrite Hjobs. intros w t ids Hd Hids.
  destruct (decide (j_id j ∈ ids)) as [Hin|Hnin].
  - destruct (Hids _ Hin) as (j1 & Hj1 & P1 & _ & P2 & P3). rewrite lookup_insert_eq in Hj1. injection Hj1 as <-.
    apply list_elem_of_split in Hin as (l1 & l2 & ->).
    assert (Z.of_nat (length (l1 ++ l2)) <= recent_preflights ws now d) as Hlen.
    { apply recent_length.
      - apply NoDup_app in Hd as (N1 & N2 & N3). apply NoDup_cons in N3 as [N3 N4]. apply NoDup_app. split_and!; [done|set_solver|done].
      - intros id' Hin'. assert (id' ≠ j_id j) as Hne.
        { intros ->. rewrite NoDup_app, NoDup_cons in Hd. set_solver. }
        destruct (Hids id') as (j2 & Hj2 & Q1 & Q2 & Q3 & Q4); [set_solver|]. rewrite lookup_insert_ne in Hj2 by done.
        exists j2. split; [done|]. unfold recent_preflight. rewrite !bool_decide_eq_true_2 by congruence. cbn.
        apply Z.ltb_lt. lia. }
    rewrite length_app in *. cbn. unfold PREFLIGHT_PER_HOUR in *. lia.
  - apply (H w t ids Hd). intros id' Hin'. destruct (Hids _ Hin') as (j2 & Hj2 & Hp).
    rewrite lookup_insert_ne in Hj2 by set_solver. by exists j2.
Qed.

Lemma rate_step P s s' : sys_ok s → rate_bounded (jobs (s_db s)) → sys_step P s s' → rate_bounded (jobs (s_db s')).
Proof.
  intros Hok H Hs. destruct (step_jobs _ _ _ Hok Hs) as [Hj|k j Hj|ws id now j Hj]; [by eapply rate_evolve| |by eapply rate_preflight].
  rewrite (nj_jobs _ _ _ _ Hj). apply rate_insert_other; [done|apply Hj].
Qed.
Lemma rate_steps P s s' : sys_ok s → rate_bounded (jobs (s_db s)) → rtc (sys_step P) s s' → rate_bounded (jobs (s_db s')).
Proof. intros Hok H Hr. induction Hr; [done|]. eauto using step_ok, rate_step. Qed.
End issuers.
