(* ===== verification/EnrollmentExample.v ===== *)
(** An enrollment from the issuer to the CA's queue, by computation.

    The operations of Enrollments run on the job service of EnrollmentJobs;
    the witnesses of EnrollmentGuarantees use the states of this run. *)
From stdpp Require Import relations.
From S2P Require Import Prelude Dates Net Json Jobs JobFields RenewalCapacity Signing Db JobRequest JobCreation.
From S2P Require Import Eligibility Dispatch EnrollmentLifecycle Enrollments EnrollmentJobs EnrollmentMoves EnrollmentSafety.
Open Scope Z_scope.

(** Ids longer than every id in the table. *)
Fixpoint longest (ids : list string) : nat :=
  match ids with [] => 0 | id :: ids => Nat.max (String.length id) (longest ids) end%nat.
Fixpoint id_of_length (n : nat) : string := match n with O => "j" | S n => String "j" (id_of_length n) end.
Definition next_id (m : gmap string job) : string := id_of_length (longest (map fst (map_to_list m))).
Lemma next_id_new m : m !! next_id m = None.
Proof.
  apply eq_None_not_Some. intros [j Hj]. unfold next_id in Hj. set (ids := map fst _) in Hj.
  assert (∀ n, String.length (id_of_length n) = S n) as Hlen by (induction n; cbn; congruence).
  assert (∀ id, id ∈ ids → (String.length id <= longest ids)%nat) as Hmax.
  { generalize ids. intros l. induction l as [|x l IH]; intros id Hid; [by apply elem_of_nil in Hid|].
    apply elem_of_cons in Hid as [->|Hid]; cbn; [lia|]. specialize (IH _ Hid). lia. }
  assert (id_of_length (longest ids) ∈ ids) as Hin.
  { apply list_elem_of_fmap. exists (id_of_length (longest ids), j). split; [done|]. by apply elem_of_map_to_list. }
  apply Hmax in Hin. rewrite Hlen in Hin. lia.
Qed.
#[global] Instance demo_contracts : Contracts := {|
  validateSnapshot := λ s, negb (nullish (get "kind" s)); sha256_hex := λ s, "sha256:" +:+ s |}.
#[global] Instance demo_postgres : Postgres := {| uuid_in := λ s, if is_uuid s then Some (toLowerCase s) else None |}.
Definition demo_tables : JobRequest.db :=
  JobRequest.mkDb {["w1" := true]}
    {[("w1", cert_id) := mkMc (Some "os-store-managed") (Some "active") (Some "active")
                           (Some "agent_filesystem") None (Some "host-a") None]}
    {[("w1", "host-a") := "agent-7"]} ∅ ∅.
#[global] Instance demo_jobs : JobService := @certificate_job_service iso_date_parse demo_services demo_tables None next_id.
#[global] Instance demo_laws : JobServiceLaws demo_jobs.
Proof. apply certificate_job_laws, next_id_new. Qed.

(** The state after a transaction that goes through. *)
Definition after {A} (t : txn db enrollment_error A) (d : db) : db := (transact t d).1.
Definition goes_through {A} (t : txn db enrollment_error A) (d : db) : bool := is_ok (t d).
Lemma goes_ok {A} (t : txn db enrollment_error A) d : goes_through t d = true → ∃ a, t d = Ok (after t d, a).
Proof. unfold goes_through, after, transact. destruct (t d) as [[d' a]|]; [|done]. by exists a. Qed.

Definition t0 : Z := 1767225600000.
Definition ca_key : string := "ca-key".
Definition ca_config : jsval := Str "ca.example\CA".
Definition ca_template : jsval := Str "WebServer".
Definition preflight_result : jsval :=
  Obj [("caConfig", ca_config); ("template", ca_template); ("templateCheck", Obj [("verdict", Str "safe")]);
       ("caCheck", Obj [("verdict", Str "safe")]); ("caCertificates", Arr [Obj [("keySha256", Str ca_key)]])].
Definition demo_target : jsval := Obj [("type", Str "windows-iis"); ("binding", Obj [("site", Str "Default")])].
Definition demo_creation : creation :=
  mkCreation "w1" (Some "issuer-1") (Some cert_id) (Some "agent-7") demo_target
    (mkInput Undef Undef Undef Undef Undef Undef (Arr [Str "www.example.org"]) (Str "RSA") (Num (Fin 3072)) Undef
       Undef Undef Undef Undef) None false Undef None (Num (Fin 7)).

Definition empty_db : db := mkDb ∅ ∅ ∅ ∅ ∅ ∅ {[("w1", cert_id) := "active"]}.
Definition d1 : db := after (createIssuer "w1" "issuer-1" "adcs" "Corporate CA") empty_db.
Definition demo_preflight : txn db enrollment_error job :=
  dispatchPreflight "w1" "issuer-1" (Str "agent-7") ca_config ca_template t0.
Definition d2 : db := after demo_preflight d1.
Definition job_at (id : string) (d : db) : job := default (fresh_job 0 (demo_job 0)) (jobs d !! id).
Definition row_at (d : db) : enrollment :=
  default (mkEnrollment (mkFixed None EmptyString 0 None EmptyString EmptyString Undef) refused 0 None None None None None None None)
    (enrollments d !! ("w1", "enr-1")).
Definition demo_record : txn db enrollment_error unit :=
  recordPreflightResult "w1" (job_at "j" d2) preflight_result succeeded true.
Definition d3 : db := after demo_record d2.
Definition demo_confirm : txn db enrollment_error Z := confirmIssuerKey "w1" "issuer-1" ca_key ca_config ca_template.
Definition d4 : db := after demo_confirm d3.
Definition demo_create : txn db enrollment_error (string * string) := createEnrollment "enr-1" (Ok tt) t0 demo_creation.
Definition d5 : db := after demo_create d4.
(** The first dispatch; then the job ends, in other code. *)
Definition demo_dispatch : txn db enrollment_error (option view) := loadDispatchEnrollment "w1" "enr-1".
Definition d6 : db := after demo_dispatch d5.
Definition ended (id : string) (d : db) : db := set_jobs (alter (set_job (with_state succeeded) no_claim) id (jobs d)) d.
Definition d7 : db := ended "jj" d6.
Definition pending_report : report := mkReport "enr-1" 1 pending_issuance (Some 4711) None.
Definition read_result : result enrollment_error (enrollment * jsval) := read_report "w1" (job_at "jj" d7) true pending_report d7.
Definition read_snapshot_of : jsval := match read_result with Ok (_, s) => s | _ => Undef end.
Definition demo_write : txn db enrollment_error unit := write_report "w1" pending_report t0 (row_at d7) read_snapshot_of.
Definition d8 : db := after demo_write d7.
(** A poll is due after [DEFAULT_POLL_INTERVAL_SECONDS]. *)
Definition t1 : Z := t0 + 900000.
Definition demo_sweep (d : db) : db := after (sweep_row t1 "w1" "enr-1") d.
Definition d9 : db := demo_sweep d8.
(** The operator cancels, the certificate is retired, and the key is freed. *)
Definition demo_cancel : txn db enrollment_error unit := cancelEnrollment "w1" "enr-1" t0.
Definition d10 : db := after demo_cancel d8.
Definition d11 : db := mkDb (issuers d10) (versions d10) (enrollments d10) (jobs d10) (job_preflight_seq d10) (profiles d10)
  {[("w1", cert_id) := "decommissioned"]}.
Definition d12 : db := demo_sweep d11.

(** The run as steps of the system. *)
Notation step := (sys_step (λ c, c = demo_creation)).
Definition logged : list (key * jsval) := [(("w1", "issuer-1"), preflight_result)]%string.
Lemma step_1 : step (mkSys empty_db [] []) (mkSys d1 [] []).
Proof. destruct (goes_ok (createIssuer "w1" "issuer-1" "adcs" "Corporate CA") empty_db) as [a H]; [by vm_compute|].
  apply st_commit, (by_issuer _ _ _ "w1" "issuer-1" "adcs" "Corporate CA" a); [by vm_compute|exact H]. Qed.
Lemma step_2 : step (mkSys d1 [] []) (mkSys d2 [] []).
Proof. destruct (goes_ok demo_preflight d1) as [a H]; [by vm_compute|].
  apply st_commit, (by_preflight _ _ _ "w1" "issuer-1" (Str "agent-7") ca_config ca_template t0 a); [by vm_compute|exact H]. Qed.
Lemma step_3 : step (mkSys d2 [] []) (mkSys d3 [] logged).
Proof. destruct (goes_ok demo_record d2) as [a H]; [by vm_compute|].
  assert (logged = [("w1", default EmptyString (r_subjectId (j_row (job_at "j" d2))), preflight_result)]%string) as E by (by vm_compute).
  rewrite E. apply (st_preflight _ "w1" (job_at "j" d2) preflight_result succeeded true d2 d3 a [] []); [|exact H].
  cbn. repeat split; apply (bool_decide_unpack _); vm_compute; exact I. Qed.
Lemma step_4 : step (mkSys d3 [] logged) (mkSys d4 [] logged).
Proof. destruct (goes_ok demo_confirm d3) as [a H]; [by vm_compute|].
  exact (st_commit _ d3 d4 _ _ (by_confirm _ d3 d4 "w1" "issuer-1" ca_key ca_config ca_template a H)). Qed.
Lemma step_5 : step (mkSys d4 [] logged) (mkSys d5 [] logged).
Proof. destruct (goes_ok demo_create d4) as [a H]; [by vm_compute|].
  apply st_commit, (by_creation _ _ _ "enr-1" (Ok tt) t0 demo_creation a); [by split|done|exact H]. Qed.
Lemma step_6 : step (mkSys d5 [] logged) (mkSys d6 [] logged).
Proof. destruct (goes_ok demo_dispatch d5) as [a H]; [by vm_compute|]. exact (st_commit _ d5 d6 _ _ (by_dispatch _ d5 d6 "w1" "enr-1" a H)). Qed.
Lemma evolve_alter (f : job → job) id m : (∀ j, kept_job j (f j)) → jobs_evolve m (alter f id m).
Proof.
  intros Hf. split; intros jid j H; (destruct (decide (id = jid)) as [<-|Hne]; [rewrite lookup_alter_eq, H|rewrite lookup_alter_ne, H by done]); try done.
  - by eexists.
  - eexists. split; [done|]. by constructor.
Qed.
Lemma step_7 : step (mkSys d6 [] logged) (mkSys d7 [] logged).
Proof. apply st_jobs, evolve_alter. intros j. by constructor. Qed.
Definition demo_reading : report_in_flight := mkInFlight "w1" pending_report (row_at d7) read_snapshot_of.
Lemma step_read : step (mkSys d7 [] logged) (mkSys d7 [demo_reading] logged).
Proof. apply (st_read _ "w1" (job_at "jj" d7) true pending_report d7 (row_at d7) read_snapshot_of [] logged). by vm_compute. Qed.
Lemma step_8 : step (mkSys d7 [demo_reading] logged) (mkSys d8 [] logged).
Proof. destruct (goes_ok demo_write d7) as [a H]; [by vm_compute|].
  exact (st_write _ "w1" pending_report (row_at d7) read_snapshot_of t0 d7 d8 a [] [] logged H). Qed.
Lemma step_9 : step (mkSys d8 [] logged) (mkSys d9 [] logged).
Proof. destruct (goes_ok (sweep_row t1 "w1" "enr-1") d8) as [a H]; [by vm_compute|]. exact (st_commit _ d8 d9 _ _ (by_sweep _ d8 d9 t1 "w1" "enr-1" a H)). Qed.
Lemma step_10 : step (mkSys d8 [] logged) (mkSys d10 [] logged).
Proof. destruct (goes_ok demo_cancel d8) as [a H]; [by vm_compute|]. exact (st_commit _ d8 d10 _ _ (by_cancel _ d8 d10 "w1" "enr-1" t0 a H)). Qed.
Lemma step_11 : step (mkSys d10 [] logged) (mkSys d11 [] logged).
Proof. apply st_others. Qed.
Lemma step_12 : step (mkSys d11 [] logged) (mkSys d12 [] logged).
Proof. destruct (goes_ok (sweep_row t1 "w1" "enr-1") d11) as [a H]; [by vm_compute|]. exact (st_commit _ d11 d12 _ _ (by_sweep _ d11 d12 t1 "w1" "enr-1" a H)). Qed.
Lemma run_5 : rtc step (mkSys empty_db [] []) (mkSys d5 [] logged).
Proof. apply (rtc_l _ _ _ _ step_1), (rtc_l _ _ _ _ step_2), (rtc_l _ _ _ _ step_3), (rtc_l _ _ _ _ step_4), (rtc_once _ _ step_5). Qed.
Lemma run_5_8 : rtc step (mkSys d5 [] logged) (mkSys d8 [] logged).
Proof. apply (rtc_l _ _ _ _ step_6), (rtc_l _ _ _ _ step_7), (rtc_l _ _ _ _ step_read), (rtc_once _ _ step_8). Qed.
Lemma run_8_11 : rtc step (mkSys d8 [] logged) (mkSys d11 [] logged).
Proof. apply (rtc_l _ _ _ _ step_10), (rtc_once _ _ step_11). Qed.
Lemma run_11 : rtc step (mkSys empty_db [] []) (mkSys d11 [] logged).
Proof. etrans; [apply run_5|]. etrans; [apply run_5_8|apply run_8_11]. Qed.
