(* ===== verification/EnrollmentGuarantees.v ===== *)
(** What certificate enrollments promise.

    Statements about every state the system of EnrollmentSafety reaches from
    empty tables; the witnesses are states of the run of EnrollmentExample. *)
From stdpp Require Import relations.
From S2P Require Import Prelude Dates Net Json Jobs JobFields RenewalCapacity Signing Db JobRequest JobCreation.
From S2P Require Import Eligibility Dispatch EnrollmentLifecycle Enrollments EnrollmentJobs EnrollmentMoves.
From S2P Require Import EnrollmentSafety EnrollmentIssuers EnrollmentExample.
Open Scope Z_scope.

Section guarantees.
Context {ct : Contracts} {js : JobService} {pg : Postgres}.

Definition initial (d : db) : Prop := issuers d = ∅ ∧ versions d = ∅ ∧ enrollments d = ∅ ∧ jobs d = ∅.
(** [P] holds of every creation of the run. *)
Definition reachable (P : creation → Prop) (s : sys) : Prop :=
  ∃ d, initial d ∧ rtc (sys_step P) (mkSys d [] []) s.

Lemma initial_ok d : initial d → sys_ok (mkSys d [] []).
Proof. intros (_ & _ & H & _). split; [|done]. intros k e He. cbn in He. by rewrite H in He. Qed.

Context {laws : JobServiceLaws js}.
Lemma reachable_ok P s : reachable P s → sys_ok s.
Proof. intros (d & Hd & Hr). eapply steps_ok; [by apply initial_ok|done]. Qed.
Lemma reachable_owned P s : reachable P s → owned (s_db s) ∧ pointed (s_db s).
Proof.
  intros (d & Hd & Hr). pose proof (initial_ok _ Hd). destruct Hd as (_ & _ & He & Hj). split.
  - eapply owned_steps; [done| |done]. intros jid j H1. cbn in H1. by rewrite Hj in H1.
  - eapply pointed_steps; [done| |done]. intros k e jid H1. cbn in H1. by rewrite He in H1.
Qed.

(** C16: A certificate enrollment is never deleted; whatever its operations,
    the agent's reports and the sweep do, in any order, what it was created
    with stays, its attempt counter never falls, its state moves along the
    transitions of the lifecycle or from pending issuance back to an uncertain
    submission, and a terminal state is final. *)
Theorem enrollment_history P s s' k e : reachable P s → rtc (sys_step P) s s' → enrollments (s_db s) !! k = Some e →
  ∃ e', enrollments (s_db s') !! k = Some e' ∧ e_fixed e' = e_fixed e ∧ e_attempt e <= e_attempt e' ∧
    rtc machine (e_state e) (e_state e') ∧ (e_state e ∈ TERMINAL → e_state e' = e_state e).
Proof.
  intros Hs Hr He. destruct (row_history _ _ _ _ _ (reachable_ok _ _ Hs) Hr He) as (e' & He' & H1 & H2 & H3).
  exists e'. split_and!; [done..|]. intros Ht. by eapply machine_terminal.
Qed.

(** C17: At no time does a certificate have two open enrollments, when the
    certificate ids given to creation are uuids. *)
Theorem one_open_enrollment s k1 k2 e1 e2 cert : reachable canonical_certificate s →
  enrollments (s_db s) !! k1 = Some e1 → enrollments (s_db s) !! k2 = Some e2 → k1.1 = k2.1 →
  certificate_id (e_fixed e1) = Some cert → certificate_id (e_fixed e2) = Some cert →
  e_state e1 ∈ OPEN_ENROLLMENT_STATES → e_state e2 ∈ OPEN_ENROLLMENT_STATES → k1 = k2.
Proof.
  intros (d & Hd & Hr) H1 H2 Hw C1 C2 O1 O2. assert (unique_open (s_db s)) as Hu.
  { eapply unique_steps; [by apply initial_ok| |done]. destruct Hd as (_ & _ & He & _). intros k k' e e' c H. cbn in H. by rewrite He in H. }
  apply (Hu k1 k2 e1 e2 cert); [done..| |]; by apply bool_decide_eq_true_2.
Qed.

(** C18: An enrollment never has two jobs that are not over, and the one it has
    is its current job. *)
Theorem one_live_job P s jid1 jid2 j1 j2 id : reachable P s →
  jobs (s_db s) !! jid1 = Some j1 → jobs (s_db s) !! jid2 = Some j2 →
  r_workspaceId (j_row j1) = r_workspaceId (j_row j2) →
  job_enrollment j1 = Some id → job_enrollment j2 = Some id →
  isTerminalJobStatus (j_state j1) = false → isTerminalJobStatus (j_state j2) = false →
  jid1 = jid2 ∧ ∃ e, enrollments (s_db s) !! (r_workspaceId (j_row j1), id) = Some e ∧ current_job_id e = Some jid1.
Proof.
  intros Hs H1 H2 Hw B1 B2 A1 A2. destruct (reachable_owned _ _ Hs) as [Ho _].
  destruct (proj2 (Ho _ _ H1) _ B1) as (e1 & E1 & C1), (proj2 (Ho _ _ H2) _ B2) as (e2 & E2 & C2).
  rewrite active_terminal, A1 in C1. rewrite active_terminal, A2 in C2. rewrite Hw in E1. simplify_eq.
  specialize (C1 eq_refl). specialize (C2 eq_refl). split; [congruence|]. rewrite Hw. by exists e1.
Qed.

(** When the certificate of an enrollment is retired, a step that gives
    the enrollment a job leaves it expired, cancelled or abandoned: no
    operation has a retired certificate retrieved or installed, only its key
    freed. *)
Theorem retired_only_cleans_up P s s' jid j id e : reachable P s → sys_step P s s' →
  jobs (s_db s) !! jid = None → jobs (s_db s') !! jid = Some j → job_enrollment j = Some id →
  enrollments (s_db s) !! (r_workspaceId (j_row j), id) = Some e →
  identityRetired (r_workspaceId (j_row j)) (certificate_id (e_fixed e)) (s_db s) = true →
  ∃ e', enrollments (s_db s') !! (r_workspaceId (j_row j), id) = Some e' ∧ current_job_id e' = Some jid ∧
    e_state e' ∈ [expired; cancelled; abandoned].
Proof.
  intros Hs Hst Hn Hj Hb He Hret. pose proof (reachable_ok _ _ Hs) as Hok. destruct (reachable_owned _ _ Hs) as [Ho Hp].
  assert (owned (s_db s')) as Ho' by (by eapply owned_step).
  destruct (proj2 (Ho' _ _ Hj) _ Hb) as (e' & He' & Hcur).
  assert (current_job_id e' = Some jid) as Hjid.
  { apply Hcur. destruct (new_unstarted _ _ _ _ _ (step_jobs _ _ _ Hok Hst) Hn Hj Hb) as [-> | ->]; done. }
  assert (current_job_id e ≠ Some jid) as Hne by (intros H; destruct (Hp _ _ _ He H) as [? ?]; congruence).
  destruct (step_rows _ _ _ (so_keys _ Hok) Hst) as [Hrow _]. destruct (Hrow _ _ He) as (e1 & He1 & Hc). simplify_eq.
  eexists. split_and!; [done..|]. destruct Hc as [->|[Hm|(_ & f & now & _ & _ & _ & ->)]]; [done| |done].
  assert (cleanup_state (e_state e') = true) as Hcl by (eapply (moved_job _ _ _ _ _ Hm); [congruence|done]). by apply bool_decide_eq_true in Hcl.
Qed.

(** C19: An expired, cancelled or abandoned enrollment with a poll date keeps
    its state and a poll date until a report about it is written, whatever
    else happens; and whenever the date has come and no job of it is live, the
    sweep gives it a job, unless the services that build the job refuse. *)
Theorem cleanup_never_forgotten P ws id s s' e : reachable P s →
  rtc (λ a b, sys_step P a b ∧ ¬ report_written (ws, id) a b) s s' → enrollments (s_db s) !! (ws, id) = Some e →
  e_state e ∈ [expired; cancelled; abandoned] → is_Some (next_poll_at e) →
  ∃ e', enrollments (s_db s') !! (ws, id) = Some e' ∧ e_state e' = e_state e ∧ is_Some (next_poll_at e') ∧
    ∀ now n, due_at now e' = true → is_active (job_status_of ws e' (s_db s')) = false → poll_seconds e' n →
      iis_target (deploy_target (e_fixed e')) = true →
      match sweep_row now ws id (s_db s') with
      | Ok (_, dispatched) => ∃ jobId, dispatched = Some (jobId, e_attempt e' + 1)
      | Err c => refused_job c
      end.
Proof.
  intros Hs Hr He Hc Hp. assert (cleanup_state (e_state e) = true) as Hc1 by (by apply bool_decide_eq_true_2).
  destruct (cleanup_steps _ _ _ _ _ (reachable_ok _ _ Hs) Hr He Hc1 Hp) as (e' & He' & _ & Hst & Hp').
  exists e'. split_and!; [done..|]. intros now n Hdue Hidle Hn Ht.
  pose proof (sweep_cleanup now ws id e' (s_db s') n He') as H. rewrite Hst in H.
  specialize (H Hc1 Hdue Hidle Hn Ht). destruct (sweep_row now ws id (s_db s')) as [[d' [[jobId a]|]]|c]; [|done..].
  exists jobId. by rewrite H.
Qed.

(** C20: The CA key an enrollment is pinned to was confirmed: it was among the
    certificates of a preflight result of the same issuer, with a safe
    template and a safe CA, that was accepted before; CA and template of the
    frozen configuration are those of that result, and the digest is the
    digest of the frozen bytes. *)
Theorem pinned_keys_confirmed s k e : reachable creation_wf s → enrollments (s_db s) !! k = Some e →
  ∃ caKey preflight snapshot, ((k.1, issuer_id (e_fixed e)), preflight) ∈ s_preflights s ∧
    confirmedKeyAllowed preflight caKey = true ∧
    read_snapshot (snapshot_bytes (e_fixed e)) = Some snapshot ∧
    snapshot_sha256 (e_fixed e) = sha256_hex (snapshot_bytes (e_fixed e)) ∧ validateSnapshot snapshot = true ∧
    get "caKeySha256" snapshot = Str caKey ∧
    (∀ t, get "caConfig" preflight = Str t → get "caConfig" snapshot = Str t) ∧
    (∀ t, get "template" preflight = Str t → get "template" snapshot = Str t).
Proof.
  intros (d & Hd & Hr) He. assert (pinned s) as Hp.
  { eapply (pinned_steps creation_wf); [done|by apply initial_ok| |done]. destruct Hd as (Hi & Hv & He0 & _).
    constructor; cbn; rewrite ?Hi, ?Hv, ?He0; [done|apply map_Forall_empty..|done]. }
  destruct (pn_enrollments _ Hp _ _ He) as (caKey & config & tmpl & sn & (p & Hin & _ & Hok & -> & ->) & H1 & H2 & H3 & H4 & H5 & H6).
  by exists caKey, p, sn.
Qed.

(** A workspace never creates more than twenty preflight jobs within an
    hour. *)
Theorem preflight_rate_bounded P s ws t ids : reachable P s → NoDup ids →
  (∀ id, id ∈ ids → ∃ j, jobs (s_db s) !! id = Some j ∧ r_workspaceId (j_row j) = ws ∧ j_operation j = adcs_preflight ∧
     t - HOUR_MS < j_created_at j <= t) →
  (length ids <= 20)%nat.
Proof.
  intros (d & Hd & Hr) Hnd Hids. assert (rate_bounded (jobs (s_db s))) as Hb.
  { eapply rate_steps; [by apply initial_ok| |done]. destruct Hd as (_ & _ & _ & Hj). cbn. rewrite Hj.
    intros w x [|i l] _ H; [done|]. destruct (H i) as (j & H1 & _); [by left|done]. }
  specialize (Hb ws t ids Hnd Hids). unfold PREFLIGHT_PER_HOUR in Hb. lia.
Qed.
End guarantees.

(** * Witnesses *)

Lemma demo_reachable (P : creation → Prop) s : P demo_creation → rtc step (mkSys empty_db [] []) s → reachable P s.
Proof.
  intros HP Hr. exists empty_db. split; [done|]. eapply rtc_subrel; [|exact Hr].
  intros a b. apply sys_step_mono. by intros c ->.
Qed.
Lemma demo_d8 : rtc step (mkSys empty_db [] []) (mkSys d8 [] logged).
Proof. etrans; [apply run_5|apply run_5_8]. Qed.

Lemma enrollment_history_witness : e_state (row_at d8) = pending_issuance ∧ ∃ e',
  enrollments d11 !! ("w1", "enr-1")%string = Some e' ∧ e_fixed e' = e_fixed (row_at d8) ∧
  rtc machine (e_state (row_at d8)) (e_state e').
Proof.
  split; [by vm_compute|].
  destruct (enrollment_history (λ c, c = demo_creation) (mkSys d8 [] logged) (mkSys d11 [] logged) ("w1", "enr-1") (row_at d8))
    as (e' & H1 & H2 & _ & H3 & _).
  - apply demo_reachable; [done|apply demo_d8].
  - apply run_8_11.
  - by vm_compute.
  - exists e'. split; [exact H1|split; [exact H2|exact H3]].
Defined.
(** A second enrollment of the certificate is refused. *)
Lemma one_open_enrollment_witness :
  createEnrollment "enr-2" (Ok tt) t0 demo_creation d5 = Err CERTOPS_ENROLLMENT_OPEN ∧
  ∀ k e, enrollments d5 !! k = Some e → k.1 = "w1"%string → certificate_id (e_fixed e) = Some cert_id →
    e_state e ∈ OPEN_ENROLLMENT_STATES → k = ("w1", "enr-1")%string.
Proof.
  split; [by vm_compute|]. intros k e He Hk Hc Ho.
  apply (one_open_enrollment (mkSys d5 [] logged) k ("w1", "enr-1")%string e (row_at d5) cert_id); [|done|by vm_compute|done..|by vm_compute|done|].
  - apply demo_reachable; [|apply run_5]. intros t [= <-]. by vm_compute.
  - apply (bool_decide_unpack _). by vm_compute.
Defined.
Lemma one_live_job_witness : isTerminalJobStatus (j_state (job_at "jj" d5)) = false ∧
  ∃ e, enrollments d5 !! ("w1", "enr-1")%string = Some e ∧ current_job_id e = Some "jj"%string.
Proof.
  split; [by vm_compute|].
  destruct (one_live_job (λ c, c = demo_creation) (mkSys d5 [] logged) "jj" "jj" (job_at "jj" d5) (job_at "jj" d5) "enr-1")
    as [_ (e & He & Hj)]; [apply demo_reachable; [done|apply run_5]|by vm_compute..|].
  exists e. split; [exact He|exact Hj].
Defined.
(** The sweep frees the key of the cancelled enrollment of a retired certificate. *)
Lemma retired_only_cleans_up_witness : jobs d11 !! "jjj"%string = None ∧ ∃ e',
  enrollments d12 !! ("w1", "enr-1")%string = Some e' ∧ current_job_id e' = Some "jjj"%string ∧
  e_state e' ∈ [expired; cancelled; abandoned].
Proof.
  split; [by vm_compute|].
  apply (retired_only_cleans_up (λ c, c = demo_creation) (mkSys d11 [] logged) (mkSys d12 [] logged) "jjj" (job_at "jjj" d12) "enr-1" (row_at d11));
    [apply demo_reachable; [done|apply run_11]|apply step_12|by vm_compute..].
Defined.
Lemma cleanup_never_forgotten_witness : match sweep_row t1 "w1" "enr-1" d11 with
  | Ok (_, dispatched) => ∃ jobId, dispatched = Some (jobId, 2) | Err c => refused_job c end.
Proof.
  destruct (cleanup_never_forgotten (λ c, c = demo_creation) "w1" "enr-1" (mkSys d11 [] logged) (mkSys d11 [] logged) (row_at d11))
    as (e' & He' & _ & _ & H).
  - apply demo_reachable; [done|apply run_11].
  - done.
  - by vm_compute.
  - apply (bool_decide_unpack _). by vm_compute.
  - vm_compute. by eexists.
  - assert (enrollments d11 !! ("w1", "enr-1")%string = Some (row_at d11)) as E by (by vm_compute).
    cbn [s_db] in He', H. rewrite E in He'. apply (inj Some) in He'. subst e'.
    assert (e_attempt (row_at d11) + 1 = 2) as Ha by (by vm_compute). rewrite Ha in H.
    apply (H t1 900); [by vm_compute|by vm_compute| |by vm_compute].
    eexists. split; [vm_compute; reflexivity|by vm_compute].
Defined.
Lemma pinned_keys_confirmed_witness : ∃ caKey demo_preflight snapshot, (("w1", "issuer-1"), demo_preflight)%string ∈ logged ∧
  confirmedKeyAllowed demo_preflight caKey = true ∧ read_snapshot (snapshot_bytes (e_fixed (row_at d5))) = Some snapshot ∧
  get "caKeySha256" snapshot = Str caKey.
Proof.
  destruct (pinned_keys_confirmed (mkSys d5 [] logged) ("w1", "enr-1")%string (row_at d5)) as (caKey & p & sn & H1 & H2 & H3 & _ & _ & H4 & _).
  - apply demo_reachable; [by repeat split|apply run_5].
  - by vm_compute.
  - exists caKey, p, sn. split; [|split; [exact H2|split; [exact H3|exact H4]]]. assert (issuer_id (e_fixed (row_at d5)) = "issuer-1"%string) as E by (by vm_compute). by rewrite E in H1.
Defined.
Lemma preflight_rate_bounded_witness : (∃ j, jobs d5 !! "j"%string = Some j ∧ j_operation j = adcs_preflight) ∧ (length ["j"%string] <= 20)%nat.
Proof.
  assert (jobs d5 !! "j"%string = Some (job_at "j" d5)) as E by (by vm_compute).
  split; [exists (job_at "j" d5); split; [done|by vm_compute]|].
  apply (preflight_rate_bounded (λ c, c = demo_creation) (mkSys d5 [] logged) "w1" t0).
  - apply demo_reachable; [done|apply run_5].
  - apply NoDup_singleton.
  - intros id ->%list_elem_of_singleton. exists (job_at "j" d5). split; [exact E|].
    split; [vm_compute; reflexivity|]. split; [vm_compute; reflexivity|].
    split; [vm_compute; reflexivity|vm_compute; discriminate].
Defined.

(** * What the model showed *)

(** The sweep consumes the poll date of a pending enrollment whose certificate
    was retired, so that its timeout, which the comment there keeps, is not
    seen by any later sweep; without that sweep it expires. *)
Definition d13 : db := mkDb (issuers d8) (versions d8) (enrollments d8) (jobs d8) (job_preflight_seq d8) (profiles d8)
  {[("w1", cert_id) := "decommissioned"]}.
Definition t_late : Z := t0 + 20 * 24 * 60 * 60 * 1000.
Definition nobody (k : key) : bool := false.
Lemma retired_timeout_lost :
  e_state (row_at (scheduleDueEnrollments t_late nobody d13).1) = expired ∧
  let d := (scheduleDueEnrollments t1 nobody d13).1 in
  e_state (row_at (scheduleDueEnrollments t_late nobody d).1) = pending_issuance ∧
  next_poll_at (row_at (scheduleDueEnrollments t_late nobody d).1) = None.
Proof. split; [vm_compute; reflexivity|]. split; vm_compute; reflexivity. Qed.

(** A report that was read before the operator proposed a request id and is
    written after it erases the poll date of the proposal. *)
Definition uncertain_report : report := mkReport "enr-1" 1 submission_uncertain None None.
Definition d14 : db := after (recordEnrollmentResult "w1" (job_at "jj" d7) true uncertain_report t0) d7.
Definition d15 : db := after (proposeReconcileRequestId "w1" "enr-1" (Num (Fin 4711)) (Some (row_at d14)) t0) d14.
Definition d16 : db := after (write_report "w1" uncertain_report t0 (row_at d14) read_snapshot_of) d15.
Lemma proposal_poll_lost :
  is_ok (read_report "w1" (job_at "jj" d7) true uncertain_report d14) = true ∧
  next_poll_at (row_at d15) = Some t0 ∧
  e_state (row_at d16) = submission_uncertain ∧ operator_request_id (row_at d16) = Some 4711 ∧ next_poll_at (row_at d16) = None.
Proof. repeat split; vm_compute; reflexivity. Qed.
