(* ===== verification/Approvals.v ===== *)
(** The per-job approval gate: apps/api/services/certops/jobApprovals.js.

    An approval binds the SHA-256 of the canonical payload and of the canonical
    execution intent; dispatch recomputes both.  The assistant's review and the
    state of an operator request are services of [Others]. *)
From S2P Require Import Prelude Dates Json Jobs JobFields RenewalCapacity JobSigning JobRequest.
From S2P Require Import Eligibility AlertPolicy Dispatch.
Open Scope Z_scope.

Inductive approval_error :=
| CERTOPS_APPROVAL_JOB_NOT_FOUND | CERTOPS_APPROVAL_JOB_NOT_PENDING_APPROVAL
| CERTOPS_APPROVAL_SELF_APPROVAL_FORBIDDEN | CERTOPS_APPROVAL_REQUEST_STALE | REVIEW_STALE
| REVIEW_REQUIRED | RENEWAL_PROFILE (e : job_error) | SIGNING (e : canon_error) | ROLLED_BACK (e : dispatch_error).

Section approvals.
Context {sv : Services} {ot : Others}.

Definition plain_object (v : jsval) : jsval := match v with Obj _ => v | _ => Obj [] end.
Definition computeJobPayloadApprovalHash (payload : jsval) : result canon_error string :=
  canonical ← canonicalizeJobPayload (plain_object payload); Ok (sha256 canonical).

Definition buildCanonicalExecutionIntent (j : job) : jsval :=
  let r := j_row j in
  let payload := plain_object (r_payload r) in
  let field k := js_or (get k payload) Null in
  let rt := r_routing r in
  Obj ([("operation", Str (operation_name (r_operation r)));
        ("subjectType", js_or (opt_js (r_subjectType r)) Null);
        ("subjectId", js_or (opt_js (r_subjectId r)) Null);
        ("targetId", js_or (get "targetId" payload) (js_or (get "id" (get "target" payload)) Null));
        ("profileId", js_or (get "profileId" payload) (js_or (get "id" (get "profile" payload)) Null));
        ("profileSnapshot", js_or (get "profileSnapshot" payload) (js_or (get "profile" payload) Null));
        ("commandRef", field "commandRef"); ("action", field "action")]
       ++ match r_requestedByConnectionId r with
          | Some (String _ _) =>
              [("operatorRouting", Obj [
                  ("assignedAgentId", opt_js (assignedAgentId rt));
                  ("requiredTargetSelector", opt_js (requiredTargetSelector rt));
                  ("requiredDnsProvider", opt_js (requiredDnsProvider rt));
                  ("requiredCommandProfile", opt_js (requiredCommandProfile rt))])]
          | _ => []
          end
       ++ [("payload", payload)]).
Definition computeCanonicalIntentHash (j : job) : result canon_error string :=
  canonical ← canonicalizeJobPayload (buildCanonicalExecutionIntent j); Ok (sha256 canonical).

(** * Decisions *)

Definition set_approval (a : approval) (j : job) : job :=
  mkJob (j_row j) (j_claim j) (attempt_count j) (max_attempts j) (scheduled_for j) (next_attempt_at j)
    a (j_created_at j) (needs_operator_reconciliation j) (reconciliation_reason j).
(** jsonb equality. *)
Definition jsonb_eq (a b : jsval) : bool :=
  bool_decide (JSON_stringify (canon (jsonify a)) = JSON_stringify (canon (jsonify b))).
(** The columns the compare-and-swap of [approveJob] re-checks. *)
Definition unchanged (seen current : job) : bool :=
  let r := j_row seen in let r' := j_row current in
  bool_decide (j_state current = pending_approval) && jsonb_eq (r_payload r) (r_payload r')
  && bool_decide (default real (r_mode r) = default real (r_mode r'))
  && bool_decide (r_operation r = r_operation r')
  && bool_decide (r_subjectType r = r_subjectType r') && bool_decide (r_subjectId r = r_subjectId r')
  && bool_decide (r_requestedByConnectionId r = r_requestedByConnectionId r')
  && bool_decide (r_requestedByUserId r = r_requestedByUserId r')
  && bool_decide (assignedAgentId (r_routing r) = assignedAgentId (r_routing r'))
  && bool_decide (requiredTargetSelector (r_routing r) = requiredTargetSelector (r_routing r'))
  && bool_decide (requiredDnsProvider (r_routing r) = requiredDnsProvider (r_routing r'))
  && bool_decide (requiredCommandProfile (r_routing r) = requiredCommandProfile (r_routing r')).
Definition approved_row (now : Z) (hash intent : string) (j : job) : job :=
  set_approval (mkApproval (Some now) (Some hash) (Some intent))
    (set_job (λ r, with_times (queue_time now) (with_state pending r)) (j_claim j) j).

(** What [approveJob] decides on the row it has loaded, before its UPDATE. *)
Definition may_approve (w : W) (seen : job) (approverUserId : string) (reviewHash : option string)
  : result approval_error (string * string) :=
  let r := j_row seen in
  _ ← ensure (bool_decide (j_state seen = pending_approval)) CERTOPS_APPROVAL_JOB_NOT_PENDING_APPROVAL;
  _ ← ensure (negb (bool_decide (r_requestedByUserId r = Some approverUserId)))
        CERTOPS_APPROVAL_SELF_APPROVAL_FORBIDDEN;
  _ ← ensure (requestApprovable w seen) CERTOPS_APPROVAL_REQUEST_STALE;
  _ ← match r_requestedByConnectionId r with
      | Some (String _ _) =>
          match assistantReview w seen with
          | None => Err REVIEW_STALE
          | Some current =>
              ensure (match reviewHash with
                      | Some (String _ _ as h) => bool_decide (h = current)
                      | _ => false
                      end) REVIEW_REQUIRED
          end
      | _ => Ok tt
      end;
  _ ← (if bool_decide (r_operation r = renew)
       then match validateRenewalProfileOnPayload (r_payload r) renew true with
            | Ok _ => Ok tt
            | Err e => Err (RENEWAL_PROFILE e)
            end
       else Ok tt);
  match computeJobPayloadApprovalHash (r_payload r), computeCanonicalIntentHash seen with
  | Err e, _ | _, Err e => Err (SIGNING e)
  | Ok hash, Ok intent => Ok (hash, intent)
  end.
(** [seen] is the row the transaction loaded without a lock; the UPDATE is a
    compare-and-swap on the row as it is now. *)
Definition approveJob (k : clock) (seen : job) (approverUserId : string) (reviewHash : option string)
    (d : db) : db * result approval_error unit :=
  match may_approve (others d) seen approverUserId reviewHash with
  | Err e => (d, Err e)
  | Ok (hash, intent) =>
      match jobs d !! j_id seen with
      | Some current =>
          if unchanged seen current && bool_decide (r_workspaceId (j_row seen) = r_workspaceId (j_row current)) then
            match withTransaction
              (_ ← update_job (j_id seen) (approved_row (db_now k) hash intent);
               _ ← modify (add_decision (mkDecision (j_id seen) granted (Some approverUserId) (Some hash)
                                           (Some intent)));
               _ ← (if truthy (get "distributionRollout" (j_payload seen))
                    then record_event (mkEvent (r_workspaceId (j_row seen)) DISTRIBUTION_APPROVAL_GRANTED (j_id seen)
                                         (Obj [("jobId", Str (j_id seen))]))
                    else mret tt);
               modify (add_log (mkLog (j_id seen) "approval.granted" pending))) d with
            | (d, Ok _) => (d, Ok tt)
            | (d, Err e) => (d, Err (ROLLED_BACK e))
            end
          else (d, Err CERTOPS_APPROVAL_JOB_NOT_PENDING_APPROVAL)
      | None => (d, Err CERTOPS_APPROVAL_JOB_NOT_PENDING_APPROVAL)
      end
  end.

Definition rejected_row (now : Z) (reason : option string) (j : job) : job :=
  set_job (λ r, with_outcome rejected (Some "CERTOPS_APPROVAL_REJECTED") reason (r_resultMetadata r)
                  (complete now (r_times r)) r) (j_claim j) j.
Definition rejectJob (k : clock) (jobId workspaceId approverUserId : string) (reason : option string)
    (d : db) : db * result approval_error unit :=
  match jobs d !! jobId with
  | None => (d, Err CERTOPS_APPROVAL_JOB_NOT_FOUND)
  | Some j =>
      if negb (bool_decide (r_workspaceId (j_row j) = workspaceId)) then (d, Err CERTOPS_APPROVAL_JOB_NOT_FOUND) else
      if negb (bool_decide (j_state j = pending_approval))
      then (d, Err CERTOPS_APPROVAL_JOB_NOT_PENDING_APPROVAL) else
      match withTransaction
        (updated ← update_job jobId (rejected_row (db_now k) reason);
         _ ← service_ (λ w, onTrustJobTerminalTransition w updated rejected);
         _ ← modify (add_decision (mkDecision jobId refused (Some approverUserId) None None));
         modify (add_log (mkLog jobId "approval.rejected" rejected))) d with
      | (d, Ok _) => (d, Ok tt)
      | (d, Err e) => (d, Err (ROLLED_BACK e))
      end
  end.

(** [invalidateApprovalForClaim], inside the claim's transaction. *)
Definition invalidated_row (j : job) : job :=
  set_approval no_approval (set_job (with_state pending_approval) (j_claim j) j).
Definition invalidateApprovalForClaim (jobId : string) (currentHash : string) : tx unit :=
  _ ← update_job jobId invalidated_row;
  _ ← modify (add_decision (mkDecision jobId invalidated None (Some currentHash) None));
  modify (add_log (mkLog jobId "approval.invalidated" pending_approval)).
End approvals.
