(* ===== verification/Ingest.v ===== *)
(** Results of agents: [ingestResult] of apps/api/services/certops/
    agentDispatch.js, the only way an agent's outcome enters the job table. *)
From S2P Require Import Prelude Dates Json Jobs JobFields RenewalCapacity JobSigning JobRequest.
From S2P Require Import Eligibility AlertPolicy Dispatch.
Open Scope Z_scope.

(** * What a result says *)

Definition RESULT_STATUS_TO_JOB_STATUS : list (string * job_status) :=
  [("succeeded", succeeded); ("failed", failed); ("rejected", rejected); ("blocked", blocked);
   ("dry_run_complete", dry_run_complete); ("orphaned_unknown_effect", orphaned_unknown_effect);
   ("awaiting_issuer", awaiting_issuer)].
Definition TRUST_JOB_TERMINAL_NEGATIVE_STATUSES : list job_status := [rejected; cancelled; failed; blocked].
Definition RECONCILIATION_REASON_MAX_LENGTH : nat := 1024.
Definition FALLBACK_ORPHANED_RECONCILIATION_REASON : string := "agent_reported_orphaned_unknown_effect".

Definition is_slug_char (c : ascii) : bool := is_digit c || in_range 97 122 c || (code c =? 95).
Fixpoint take_slug (s : string) : string :=
  match s with
  | String c t => if is_slug_char c then String c (take_slug t) else EmptyString
  | EmptyString => EmptyString
  end.
(** The first match of [/reconciliationReason=([a-z0-9_]+)/]. *)
Fixpoint reconciliation_slug (s : string) : option string :=
  let here := if startsWith "reconciliationReason=" s
              then take_slug (sdrop (String.length "reconciliationReason=") s) else EmptyString in
  match here, s with
  | EmptyString, String _ t => reconciliation_slug t
  | EmptyString, EmptyString => None
  | slug, _ => Some slug
  end.
Fixpoint includes (p s : string) : bool :=
  startsWith p s || match s with String _ t => includes p t | EmptyString => false end.
(** needsOperatorReconciliation and reconciliationReason. *)
Definition parseReconciliationFromErrorMessage (errorMessage : jsval) : bool * option string :=
  match errorMessage with
  | Str (String _ _ as s) => (includes "needsOperatorReconciliation=true" s, reconciliation_slug s)
  | _ => (false, None)
  end.
Definition boundReconciliationReason (reason : string) : option string :=
  match reason with EmptyString => None | _ => Some (stake RECONCILIATION_REASON_MAX_LENGTH reason) end.

Definition isFailure (s : job_status) : bool :=
  negb (bool_decide (s ∈ [succeeded; dry_run_complete; awaiting_issuer])).
Definition toUpperCase (s : string) : string :=
  smap (λ c, if in_range 97 122 c then char_at (code c - 32) else c) s.
Definition result_error_code (status : job_status) (body payload : jsval) : option string :=
  if negb (isFailure status) then None
  else if truthy (get "rejectionReason" body) then Some (js_String (get "rejectionReason" body))
  else if truthy (get "materialDeployment" payload) && is_str "material_drift_detected" (get "errorMessage" body)
  then Some "CERTOPS_MATERIAL_DRIFT_DETECTED"
  else Some ("AGENT_RESULT_" +:+ toUpperCase (status_name status)).

Definition when_some (b : bool) (fs : list (string * jsval)) : list (string * jsval) := if b then fs else [].
Definition or_null (v : jsval) : jsval := js_coalesce v Null.
(** [(preflightResult.caCertificates ?? []).map((ca) => ca.keySha256)]; [None]
    is a TypeError. *)
Definition ca_keys (v : jsval) : option jsval :=
  match js_coalesce v (Arr []) with
  | Arr l => if existsb nullish l then None else Some (Arr (map (get "keySha256") l))
  | _ => None
  end.
Definition result_metadata (operation : job_operation) (body : jsval) : option jsval :=
  let rejectionReason := get "rejectionReason" body in
  let keyRotated := get "keyRotated" body in
  let enrollment := get "enrollmentResult" body in
  let preflight := get "preflightResult" body in
  let trust := get "trustResult" body in
  let has_preflight := truthy preflight && bool_decide (operation = adcs_preflight) in
  keys ← (if has_preflight then ca_keys (get "caCertificates" preflight) else Some Undef);
  Some (jsonify (Obj (
    when_some (negb (nullish rejectionReason)) [("rejectionReason", rejectionReason)]
    ++ when_some (negb (nullish keyRotated)) [("keyRotated", keyRotated)]
    ++ when_some (truthy enrollment) [("enrollmentResult", enrollment)]
    ++ when_some has_preflight
         [("preflightVerdict", Obj [
             ("templateCheck", or_null (get "verdict" (get "templateCheck" preflight)));
             ("caCheck", or_null (get "verdict" (get "caCheck" preflight)));
             ("caConfig", or_null (get "caConfig" preflight));
             ("template", or_null (get "template" preflight));
             ("caKeySha256s", keys)])]
    ++ when_some (truthy trust)
         (map (λ k, (k, or_null (get k trust)))
            ["outcome"; "mutationAttempted"; "mutationPerformed"; "failureCategory";
             "observedFingerprintBefore"; "observedFingerprintAfter"; "store"; "transitionGeneration"])))).

(** Which statuses a result may report for a job of this mode. *)
Definition mode_allows (mode : option job_mode) (status : job_status) : bool :=
  match default real mode, status with
  | dry_run, (succeeded | orphaned_unknown_effect | awaiting_issuer) | real, dry_run_complete => false
  | _, _ => true
  end.

(** * [ingestResult] *)

Section ingest.
Context {ot : Others}.

Record result_reply := mkResultReply {
  rr_jobId : string; rr_status : job_status; rr_errorCode : option string;
  rr_completedAt : option Z; rr_duplicate : bool }.

Definition consume (k : clock) (c : caller) (jobId : string) (nonce : jsval) : tx consume_result := λ d,
  let '(s, outcome) := consumeNonce (db_now k) nonce jobId (Some (c_workspaceId c)) (Some (c_id c)) (signing d) in
  Ok (set_signing s d, outcome).

(** The enrollment and preflight parts of a result. *)
Definition record_reports (c : caller) (j : job) (status : job_status) (body : jsval) : tx unit :=
  let enrollmentResult := get "enrollmentResult" body in
  _ ← (if bool_decide (status = awaiting_issuer) || negb (nullish enrollmentResult) then
         _ ← check (truthy (r_enrollmentId (j_row j))) CERTOPS_AGENT_RESULT_STATUS_INVALID;
         if nullish enrollmentResult then mret tt
         else service_ (λ w, recordEnrollmentResult w j enrollmentResult)
       else mret tt);
  if negb (nullish (get "preflightResult" body)) && bool_decide (j_operation j = adcs_preflight)
  then service_ (λ w, recordPreflightResult w j (get "preflightResult" body) status)
  else mret tt.

(** The receipts of material jobs: retirementConflict and historicalOnly of an
    accepted deployment. *)
Definition accept_receipts (c : caller) (j : job) (status : job_status) (body : jsval) : tx (option (bool * bool)) :=
  let publication := truthy (get "publication" (j_payload j)) in
  let deployment := truthy (get "materialDeployment" (j_payload j)) in
  let receipt := get "deploymentReceipt" body in
  _ ← check (negb (negb publication && (truthy (get "publicationReceipt" body)
                                        || truthy (get "publicationCertificatePem" body))
                   || negb deployment && truthy receipt))
        CERTOPS_MATERIAL_RECEIPT_UNEXPECTED;
  _ ← (if bool_decide (status = succeeded) && publication
       then service_ (λ w, acceptPublicationReceipt w c j body) else mret tt);
  if truthy receipt then
    accepted ← service (λ w, acceptDeploymentReceipt w c j body);
    mret (Some accepted)
  else if bool_decide (status = succeeded) && deployment then fail CERTOPS_MATERIAL_RECEIPT_REQUIRED
  else if deployment && negb (bool_decide (status ∈ [succeeded; dry_run_complete]))
  then _ ← service_ (λ w, Ok (failDeployment w c j status)); mret None
  else mret None.

(** The UPDATE of the job. *)
Definition result_row (now : Z) (status : job_status) (errorCode errorMessage : option string) (meta : jsval)
    (setNeeds : bool) (reason : option string) (clear : bool) (j : job) : job :=
  let c := j_claim j in
  reconcile (if setNeeds then true else if clear then false else needs_operator_reconciliation j)
    (if setNeeds then reason else if clear then None else reconciliation_reason j)
    (set_job (λ r, with_outcome status errorCode errorMessage meta (complete now (r_times r)) r)
       (mkClaim (claimed_by_agent_id c) (claim_id c) None (lease_renewed_at c)) j).

Definition settle_trust (c : caller) (j : job) (status : job_status) (trustResult : jsval) : tx unit :=
  let performed := match get "mutationPerformed" trustResult with Bool true => true | _ => false end in
  let negative := bool_decide (status ∈ TRUST_JOB_TERMINAL_NEGATIVE_STATUSES) in
  if isTrustAnchorOperation (j_operation j) then
    if bool_decide (status = succeeded) || negative && performed
    then service_ (λ w, ingestTrustJobResult w j trustResult)
    else if negative then service_ (λ w, onTrustJobTerminalTransition w j status)
    else mret tt
  else mret tt.

Definition alert (j : job) (status : job_status) (errorCode : option string) (o : origin) : tx unit :=
  let c := classifyTerminalTransition (j_operation j) status (Some o) in
  if alertWorthy c then
    record_event (mkEvent (r_workspaceId (j_row j)) RENEWAL_ALERT_REQUESTED (j_id j)
      (Obj [("jobId", Str (j_id j)); ("operation", Str (operation_name (j_operation j)));
            ("jobStatus", Str (status_name status)); ("origin", Str (origin_name o));
            ("classificationReason", Str (c_reason c)); ("priority", opt_js (c_priority c));
            ("errorCode", opt_js errorCode); ("subjectType", opt_js (r_subjectType (j_row j)));
            ("subjectId", opt_js (r_subjectId (j_row j)))]))
  else mret tt.

(** Everything after the nonce and the sequence were accepted. *)
Definition apply_result (k : clock) (c : caller) (j : job) (status : job_status) (body : jsval) : tx result_reply :=
  _ ← check (in_lease (j_state j)) CERTOPS_AGENT_CLAIM_OWNERSHIP_MISMATCH;
  accepted ← accept_receipts c j status body;
  let failing := isFailure status in
  let errorCode := result_error_code status body (j_payload j) in
  let errorMessage := match get "errorMessage" body with
                      | Str s => if failing then Some (stake 1024 (redact s)) else None
                      | _ => None
                      end in
  let clear := bool_decide (status = succeeded)
               && (truthy (get "publication" (j_payload j))
                   || match accepted with Some (_, historicalOnly) => negb historicalOnly | None => false end) in
  let conflict := match accepted with Some (conflict, _) => conflict | None => false end in
  let orphaned := bool_decide (status = orphaned_unknown_effect) in
  let reason := if orphaned
                then boundReconciliationReason
                       (default FALLBACK_ORPHANED_RECONCILIATION_REASON
                          (parseReconciliationFromErrorMessage (get "errorMessage" body)).2)
                else if conflict then Some "certificate_retirement_overlapped_execution" else None in
  match result_metadata (j_operation j) body with
  | None => fail (other_failure "TypeError")
  | Some meta =>
      updated ← update_job (j_id j)
        (result_row (db_now k) status errorCode errorMessage meta (conflict || orphaned) reason clear);
      _ ← (match claim_id (j_claim j) with
           | Some _ => service_ (λ w, Ok (closeClaimStream w j))
           | None => mret tt
           end);
      _ ← modify (add_log (mkLog (j_id j) (if failing then "job.failed" else "job.completed") status));
      _ ← settle_trust c j status (js_or (get "trustResult" body) Null);
      _ ← (if bool_decide (status = succeeded) && negb (is_material j)
           then service_ (λ w, reconcileCertificates w c j) else mret tt);
      _ ← (if failing then modify (add_failure (mkFailure (j_id j) status errorCode
                                     (needs_operator_reconciliation updated))) else mret tt);
      _ ← alert j status errorCode AGENT_RESULT;
      mret (mkResultReply (j_id updated) (j_state updated) (r_errorCode (j_row updated))
              (completedAt (r_times (j_row updated))) false)
  end.

Definition ingestResult (k : clock) (c : caller) (envelope body : jsval) : tx result_reply :=
  match assoc_get (js_String (get "status" body)) RESULT_STATUS_TO_JOB_STATUS, get "jobId" body with
  | None, _ => fail CERTOPS_AGENT_RESULT_STATUS_INVALID
  | Some _, (Undef | Null | Bool _ | Num _ | Arr _ | Obj _) => fail CERTOPS_AGENT_JOB_NOT_FOUND
  | Some status, Str jobId =>
      j ← select_job jobId (c_workspaceId c);
      _ ← check (column_is (claimed_by j) (c_id c)
                 && column_is (claim_id (j_claim j)) (js_String (js_or (get "claimId" body) (Str EmptyString))))
            CERTOPS_AGENT_CLAIM_OWNERSHIP_MISMATCH;
      _ ← check (mode_allows (r_mode (j_row j)) status) CERTOPS_AGENT_RESULT_STATUS_INVALID;
      _ ← record_reports c j status body;
      outcome ← consume k c jobId (get "nonce" body);
      match outcome with
      | NotConsumed nonceCode =>
          if bool_decide (nonceCode = REPLAYED) && bool_decide (j_state j = status)
             && bool_decide (is_Some (completedAt (r_times (j_row j))))
          then mret (mkResultReply (j_id j) (j_state j) (r_errorCode (j_row j))
                       (completedAt (r_times (j_row j))) true)
          else fail (CERTOPS_AGENT_RESULT_NONCE_REJECTED nonceCode)
      | Consumed =>
          _ ← enforceAgentSequence (c_id c) envelope;
          apply_result k c j status body
      end
  end.
End ingest.
