(* ===== verification/Claim.v ===== *)
(** Dispatch: [claimJobs] of apps/api/services/certops/agentDispatch.js, from
    the poll of an agent to the signed jobs it gets.

    [candidate], [connectionActive] and the locks of the authority checks are
    services of [Others]; [sign] is [signJobForDispatch] of JobSigning with its
    cryptography.  Rows another transaction holds are skipped: [busy]. *)
From S2P Require Import Prelude Dates Json Jobs JobFields RenewalCapacity Signing JobSigning.
From S2P Require Import JobRequest Eligibility AlertPolicy Dispatch Approvals.
Open Scope Z_scope.

Definition SIGNED_PAYLOAD_B64_CAPABILITY : string := "signed-payload-b64-v1".

(** Node's crypto, as [signJobForDispatch] uses it. *)
Class Crypto := {
  privkey : Type;
  aes_decrypt : string → string → string → string → option string;
  createPrivateKey : string → option privkey;
  crypto_sign : privkey → string → string;
  looksLikeKeyMaterial : string → bool }.

Definition created_le (a b : job) : Prop := j_created_at a <= j_created_at b.
#[global] Instance created_le_dec a b : Decision (created_le a b).
Proof. unfold created_le. apply _. Defined.

Definition jsonbTextArray (value : jsval) : list string :=
  match value with Arr l => text_entries l | _ => [] end.
Definition normalizeStringList (value : jsval) (maxItems : nat) : list string :=
  match value with
  | Arr l => take maxItems (List.filter (λ s, negb (bool_decide (s = EmptyString))) (text_entries l))
  | _ => []
  end.
Definition claim_maxJobs (body : jsval) : nat :=
  match get "maxJobs" body with
  | Num (Fin n) => if (1 <=? n) && (n <=? 16) then Z.to_nat n else 1%nat
  | _ => 1%nat
  end.

(** The public part of a certificate that a deploy job carries. *)
Record public_certificate := mkPublicCertificate {
  pc_pem : string; pc_sha256 : string; pc_fingerprint : jsval; pc_commonName : option string;
  pc_sans : list string }.

Section claim.
Context {sv : Services} {ot : Others} {cr : Crypto}.

(** * The candidates of a poll *)

(** What the poll offers: the parameters of the SELECT. *)
Record offer := mkOffer {
  of_actions : list string; of_selectors : list string; of_dns : list string; of_profiles : list string;
  of_bindsEvidence : bool; of_diagnostic : bool; of_trustAnchors : bool; of_adcs : bool }.
Definition null_or_in (required : option string) (l : list string) : bool :=
  match required with None => true | Some s => bool_decide (s ∈ l) end.
Definition is_due (now : Z) (t : option Z) : bool := match t with None => true | Some t => t <=? now end.
Definition waiting (w : W) (now : Z) (j : job) : bool :=
  bool_decide (j_state j = pending) && is_due now (scheduled_for j) && is_due now (next_attempt_at j)
  && connectionActive w now j.
(** The same agent reclaims its expired claim that was never renewed. *)
Definition reclaimable (now : Z) (agentRowId : string) (j : job) : bool :=
  bool_decide (j_state j = claimed) && bool_decide (claimed_by j = Some agentRowId)
  && match lease_expires_at (j_claim j) with Some t => t <? now | None => false end
  && bool_decide (lease_renewed_at (j_claim j) = None)
  && (attempt_count j <? max_attempts j).
Definition selectable (w : W) (now : Z) (c : caller) (o : offer) (j : job) : bool :=
  let rt := r_routing (j_row j) in
  bool_decide (r_workspaceId (j_row j) = c_workspaceId c) && bool_decide (executorKind rt = agent)
  && candidate w now j
  && (waiting w now j || reclaimable now (c_id c) j)
  && bool_decide (wireActionForOperation (j_operation j) ∈ of_actions o)
  && match assignedAgentId rt with None => true | Some a => bool_decide (a = c_id c) end
  && (of_bindsEvidence o || bool_decide (j_operation j ≠ issue) && negb (subjectProvisioning w j))
  && null_or_in (requiredTargetSelector rt) (of_selectors o)
  && null_or_in (requiredDnsProvider rt) (of_dns o)
  && null_or_in (requiredCommandProfile rt) (of_profiles o)
  && Bool.eqb (of_diagnostic o) (bool_decide (j_operation j = protocol_smoke))
  && (negb (isTrustAnchorOperation (j_operation j)) || of_trustAnchors o)
  && (nullish (r_enrollmentId (j_row j)) || of_adcs o).
Definition select_candidates (busy : string → bool) (now : Z) (c : caller) (o : offer) (limit : nat) (d : db)
  : list job :=
  take limit (merge_sort created_le
    (List.filter (λ j, negb (busy (j_id j)) && selectable (others d) now c o j)
       (map snd (map_to_list (jobs d))))).

(** * One candidate *)

Definition resolveDeployPublicCertificate (w : W) (j : job) : result dispatch_error public_certificate :=
  let r := j_row j in let payload := r_payload r in
  let subject := if bool_decide (r_subjectType r = Some "managed_certificate")
                 then opt_js (r_subjectId r) else Bool false in
  let id := js_or subject (js_or (get "certificateId" payload)
              (js_or (get "managedCertificateId" (get "target" payload)) Null)) in
  if negb (truthy id) then Err CERTOPS_AGENT_DEPLOY_CERT_UNAVAILABLE else
  match managedCertificate w (r_workspaceId r) id with
  | None => Err CERTOPS_AGENT_DEPLOY_CERT_UNAVAILABLE
  | Some row =>
      let pem := match certificate_pem row with Str s => trim s | _ => EmptyString end in
      if negb (startsWith "-----BEGIN CERTIFICATE-----" pem) then Err CERTOPS_AGENT_DEPLOY_CERT_UNAVAILABLE else
      if hasPrivateKeyMaterial pem then Err (other_failure "PRIVATE_KEY_MATERIAL_REJECTED") else
      Ok (mkPublicCertificate pem (sha256 pem) (js_or (fingerprint_sha256 row) Null)
            (match common_name row with Str (String _ _ as s) => Some s | _ => None end)
            (match subject_alt_names row with
             | Arr l => List.filter (λ s, negb (bool_decide (s = EmptyString))) (text_entries l)
             | _ => []
             end))
  end.
(** The deploy fields of the signed payload. *)
Definition payload_target (fs : list (string * jsval)) : list (string * jsval) :=
  match get "target" (Obj fs) with Obj t => t | _ => [] end.
Definition attach_fingerprint (fingerprint : jsval) (target : list (string * jsval)) : list (string * jsval) :=
  if truthy fingerprint && negb (truthy (get "fingerprintSha256" (Obj target)))
  then assoc_set "fingerprintSha256" fingerprint target else target.
Definition attach_sans (sans : list string) (fs : list (string * jsval)) : list (string * jsval) :=
  match get "sans" (Obj fs), sans with
  | Arr (_ :: _), _ | _, [] => fs
  | _, sans => assoc_set "sans" (Arr (map Str sans)) fs
  end.
Definition attach_reference (commonName : option string) (target fs : list (string * jsval)) : list (string * jsval) :=
  match commonName with
  | Some commonName =>
      if isString (get "reference" (Obj target)) then fs else
      assoc_set "target"
        (Obj (assoc_set "reference" (Str commonName)
                (assoc_set "type" (js_or (get "type" (Obj target)) (Str "domain")) target))) fs
  | None => fs
  end.
Definition attach_certificate (pc : public_certificate) (fs : list (string * jsval)) : list (string * jsval) :=
  let fs := assoc_set "certificatePem" (Str (pc_pem pc)) fs in
  let fs := assoc_set "certificatePemSha256" (Str (pc_sha256 pc)) fs in
  let target := attach_fingerprint (pc_fingerprint pc) (payload_target fs) in
  attach_reference (pc_commonName pc) target (attach_sans (pc_sans pc) (assoc_set "target" (Obj target) fs)).

Definition claimed_row (k : clock) (e : environment) (agentRowId claimId : string) (j : job) : job :=
  mkJob (with_times (queue_time (db_now k)) (with_state claimed (j_row j)))
    (mkClaim (Some agentRowId) (Some claimId) (Some (db_now k + jobLeaseSeconds e * 1000)) None)
    (attempt_count j + 1) (max_attempts j) (scheduled_for j) (next_attempt_at j) (j_approval j)
    (j_created_at j) (needs_operator_reconciliation j) (reconciliation_reason j).
(** [basePayload]: the stored payload with the fields of this claim. *)
Definition claim_fields (c : caller) (j : job) : list (string * jsval) :=
  let claimId := Str (default EmptyString (claim_id (j_claim j))) in
  let mode := match r_mode (j_row j) with
              | Some m => Str (enum_name JOB_MODE_SET m)
              | None => js_or (get "mode" (j_payload j)) (Str "real")
              end in
  [("jobId", Str (j_id j)); ("workspaceId", Str (c_workspaceId c)); ("agentId", Str (c_agentId c));
   ("action", Str (wireActionForOperation (j_operation j))); ("mode", mode); ("claimId", claimId);
   ("attemptId", claimId); ("leaseExpiresAt", iso_js (lease_expires_at (j_claim j)));
   ("attemptCount", Num (Fin (attempt_count j)))].
Definition set_fields (l fs : list (string * jsval)) : list (string * jsval) :=
  foldl (λ fs kv, assoc_set kv.1 kv.2 fs) fs l.
Definition base_payload (c : caller) (j : job) : list (string * jsval) :=
  set_fields (claim_fields c j) (match j_payload j with Obj fs => fs | _ => [] end).
Definition set_unless (present : bool) (k : string) (v : jsval) (fs : list (string * jsval)) :=
  if present then fs else assoc_set k v fs.
Definition set_defined (k : string) (v : jsval) (fs : list (string * jsval)) :=
  match v with Undef => fs | _ => assoc_set k v fs end.
Definition dispatch_payload (c : caller) (j : job) (pc : option public_certificate) (trust : jsval * jsval)
    (enrollment : list (string * jsval)) : list (string * jsval) :=
  let fs := base_payload c j in
  let fs := match pc with Some pc => attach_certificate pc fs | None => fs end in
  let fs := match is_member (r_subjectType (j_row j)) ["managed_certificate"], r_subjectId (j_row j) with
            | true, Some (String _ _ as id) =>
                set_unless (truthy (get "certificateId" (Obj fs))) "certificateId" (Str id) fs
            | _, _ => fs
            end in
  let fs := set_unless (negb (truthy trust.1)) "pem" trust.1 fs in
  let fs := set_defined "transitionGeneration" trust.2 fs in
  let fs := set_unless (truthy (get "requestedAt" (Obj fs))) "requestedAt" (Str (toISOString (j_created_at j))) fs in
  set_fields enrollment fs.

Definition sign (k : clock) (e : environment) (c : caller) (rnd : list string) (version : Z)
    (fs : list (string * jsval)) : tx jsval := λ d,
  match signJobForDispatch aes_decrypt createPrivateKey crypto_sign looksLikeKeyMaterial
          (env_signing_key e) rnd (app_now k) (Obj fs) (Some (c_id c)) (c_workspaceId c)
          (Fin (dispatchNonceTtlSeconds e)) version (signing d) with
  | (s, Ok signed) => Ok (set_signing s d, signed)
  | (_, Err err) => Err (signing_failed err)
  end.

Definition failed_row (status : job_status) (code message : string) (now : Z) (j : job) : job :=
  set_job (λ r, with_outcome status (Some code) (Some message) (r_resultMetadata r)
                  (complete now (r_times r)) r) (j_claim j) j.

(** The approval recorded for the row still binds what would be dispatched;
    [Some hash] is the current hash when it does not. *)
Definition approval_void (j : job) : result canon_error (option string) :=
  match approved_payload_hash (j_approval j) with
  | Some (String _ _ as approved) =>
      currentHash ← computeJobPayloadApprovalHash (j_payload j);
      currentIntent ← computeCanonicalIntentHash j;
      let intentMismatch := match approved_canonical_intent_hash (j_approval j) with
                            | Some (String _ _ as intent) => negb (bool_decide (intent = currentIntent))
                            | _ => false
                            end in
      Ok (if negb (bool_decide (currentHash = approved)) || intentMismatch then Some currentHash else None)
  | _ => Ok None
  end.

Definition facts_of (w : W) (j : job) : job_facts :=
  let rt := r_routing (j_row j) in
  mkJobFacts (j_operation j) (executorKind rt) (opt_js (assignedAgentId rt))
    (opt_js (requiredTargetSelector rt)) (opt_js (requiredDnsProvider rt))
    (opt_js (requiredCommandProfile rt)) (subjectProvisioning w j)
    (Obj [("publication", get "publication" (j_payload j));
          ("materialDeployment", get "materialDeployment" (j_payload j))])
    (truthy (r_enrollmentId (j_row j))).

(** The trust anchor of a trust job, or the rejection of the job. *)
Definition revalidate_trust (k : clock) (j : job) : tx (option (jsval * jsval)) := λ d,
  if isTrustAnchorOperation (j_operation j) then
    let '(w, verdict) := revalidateTrustJob (others d) j in
    let d := set_others w d in
    match verdict with
    | Ok trust => Ok (d, Some trust)
    | Err reason =>
        (if bool_decide (j_state j ∈ [pending; claimed])
         then _ ← update_job (j_id j)
                    (failed_row rejected "CERTOPS_TRUST_ANCHOR_DISPATCH_REVALIDATION_FAILED"
                       ("Trust job dispatch revalidation failed: " +:+ reason) (db_now k));
              mret None
         else mret None) d
    end
  else Ok (d, Some (Undef, Undef)).

(** The checks that may refuse a candidate, in order; the answer is what its
    payload needs, [None] a refusal. *)
Definition admit_candidate (k : clock) (e : environment) (c : caller) (a : agent_facts) (j : job)
  : tx (option (option public_certificate * (jsval * jsval))) := λ d,
  let w := others d in
  if bool_decide (j_state j = pending) && negb (jobAuthority w j) then Ok (d, None) else
  if negb (managementAdmits w j) then Ok (d, None) else
  if negb (bool_decide (evaluateAgentJobEligibility (env_freshness e) (app_now k) a (facts_of w j)
                          (agentCompatibility c) = eligible)) then Ok (d, None) else
  match (if is_material j then resolveDistributionJob w j else Ok tt) with
  | Err code => if startsWith "CERTOPS_" code then Ok (d, None) else Err (other_failure code)
  | Ok _ =>
      (trust ← revalidate_trust k j;
       match trust with
       | None => mret None
       | Some trust =>
           match approval_void j with
           | Err _ => fail (other_failure "canonical")
           | Ok (Some currentHash) => _ ← invalidateApprovalForClaim (j_id j) currentHash; mret None
           | Ok None =>
               if bool_decide (j_operation j = deploy) then λ d,
                 match resolveDeployPublicCertificate (others d) j with
                 | Ok pc => Ok (d, Some (Some pc, trust))
                 | Err CERTOPS_AGENT_DEPLOY_CERT_UNAVAILABLE =>
                     (_ ← update_job (j_id j)
                            (failed_row blocked "CERTOPS_AGENT_DEPLOY_CERT_UNAVAILABLE"
                               "Public certificate material is unavailable for this deploy job" (db_now k));
                      mret None) d
                 | Err err => Err err
                 end
               else mret (Some (None, trust))
           end
       end) d
  end.

(** A dispatched job: the row as claimed, and what the agent gets. *)
Record dispatched := mkDispatched { dd_job : job; dd_signed : jsval }.
Definition dispatch_candidate (k : clock) (e : environment) (c : caller) (claimId : string) (rnd : list string)
    (version : Z) (j : job) (needs : option public_certificate * (jsval * jsval)) : tx dispatched :=
  updated ← update_job (j_id j) (claimed_row k e (c_id c) claimId);
  enrollment ← (if truthy (r_enrollmentId (j_row updated)) then
                  attached ← service (λ w, attachEnrollment w updated);
                  match attached with
                  | Some fs => mret fs
                  | None => fail CERTOPS_AGENT_JOB_NOT_FOUND
                  end
                else mret []);
  signed ← sign k e c rnd version (dispatch_payload c updated needs.1 needs.2 enrollment);
  _ ← service_ (λ w, Ok (openStream w c updated));
  mret (mkDispatched updated signed).

(** The loop over the selected rows; [fresh] draws gen_random_uuid() and the
    random bytes of the nonce for a row. *)
Fixpoint claim_rows (k : clock) (e : environment) (c : caller) (a : agent_facts) (version : Z)
    (fresh : string → string * list string) (rows : list job) : tx (list dispatched) :=
  match rows with
  | [] => mret []
  | j :: rows =>
      needs ← admit_candidate k e c a j;
      match needs with
      | None => claim_rows k e c a version fresh rows
      | Some needs =>
          x ← dispatch_candidate k e c (fresh (j_id j)).1 (fresh (j_id j)).2 version j needs;
          xs ← claim_rows k e c a version fresh rows;
          mret (x :: xs)
      end
  end.

(** * [claimJobs] *)

(** Claiming is a sign of life, and refreshes the capabilities. *)
Definition seen_row (now : Z) (supportedActions dns : list string) (a : agent_row) : agent_row :=
  if bool_decide (a_status a = agent_retired_status) then a else
  mkAgentRow (last_sequence a)
    (if bool_decide (a_status a = agent_offline) then agent_active else a_status a)
    (a_diagnostic a) (a_platform a) (declared_target_selectors a) (declared_command_profile_names a)
    (match dns with [] => supported_dns_providers a | _ => Arr (map Str dns) end)
    (Arr (map Str supportedActions)) (a_capabilities a) (capabilities_updated_at a) (Some now)
    (a_created_at a).
Definition touch_agent (now : Z) (id : string) (supportedActions dns : list string) : tx unit :=
  modify (λ d, set_agents (alter (seen_row now supportedActions dns) id (agents d)) d).
Definition no_caps : agent_row :=
  mkAgentRow 0 agent_other false Undef Undef Undef Undef Undef Undef None None 0.

(** What the poll says, completed by what the agent's row says. *)
Definition poll_actions (body : jsval) : list string :=
  match get "supportedActions" body with Arr l => text_entries l | _ => [] end.
Definition poll_dns (body : jsval) : list string := normalizeStringList (get "supportedDnsProviders" body) 64.
Definition polling_agent (c : caller) (caps : agent_row) (body : jsval) : agent_facts :=
  let texts l := Arr (map Str l) in
  mkAgentFacts (c_id c) (c_retired c) (a_platform caps) (a_diagnostic caps) (texts (poll_actions body))
    (texts (jsonbTextArray (declared_target_selectors caps)))
    (texts (match poll_dns body with [] => jsonbTextArray (supported_dns_providers caps) | dns => dns end))
    (texts (jsonbTextArray (declared_command_profile_names caps)))
    (a_capabilities caps) (capabilities_updated_at caps).
Definition poll_offer (k : clock) (e : environment) (caps : agent_row) (body : jsval) : offer :=
  let fresh_capability := hasFreshCapability (env_freshness e) (app_now k) (a_capabilities caps)
                            (capabilities_updated_at caps) in
  mkOffer (poll_actions body) (jsonbTextArray (declared_target_selectors caps))
    (match poll_dns body with [] => jsonbTextArray (supported_dns_providers caps) | dns => dns end)
    (jsonbTextArray (declared_command_profile_names caps))
    (fresh_capability EVIDENCE_CLAIM_BINDING_CAPABILITY) (a_diagnostic caps)
    (fresh_capability TRUST_ANCHOR_DEPLOY_CAPABILITY) (fresh_capability ADCS_ENROLL_CAPABILITY).

Definition claimJobs (k : clock) (e : environment) (busy : string → bool)
    (fresh : string → string * list string) (c : caller) (envelope body : jsval) : tx (list dispatched) :=
  _ ← enforceAgentSequence (c_id c) envelope;
  _ ← check (negb (bool_decide (agentCompatibility c = Some blocked_state))) CERTOPS_AGENT_COMPATIBILITY_BLOCKED;
  admitted ← service (λ w, match workspaceAdmits w (c_workspaceId c) with
                           | Ok b => Ok (w, b) | Err code => Err code end);
  if negb admitted then mret [] else
  _ ← touch_agent (db_now k) (c_id c) (poll_actions body) (poll_dns body);
  match poll_actions body with
  | [] => mret []
  | _ =>
      caps ← read (λ d, default no_caps (agents d !! c_id c));
      rows ← read (select_candidates busy (db_now k) c (poll_offer k e caps body) (claim_maxJobs body));
      claim_rows k e c (polling_agent c caps body)
        (if hasFreshCapability (env_freshness e) (app_now k) (a_capabilities caps) (capabilities_updated_at caps)
              SIGNED_PAYLOAD_B64_CAPABILITY
         then ENVELOPE_VERSION_2 else ENVELOPE_VERSION_1) fresh rows
  end.
End claim.
