(* ===== verification/Reaper.v ===== *)
(** What happens to leases without their agent: [reapExpiredLeases] of
    apps/worker/src/certops-worker.js, and [fenceAgentInFlightWork] of
    apps/api/services/certops/agentRegistry.js for an agent that is retired by
    force.  A job whose lease was renewed may have had side effects: it is
    never queued again, but left to an operator. *)
From S2P Require Import Prelude Dates Json Jobs JobFields RenewalCapacity JobSigning JobRequest.
From S2P Require Import Eligibility AlertPolicy Dispatch Ingest.
Open Scope Z_scope.

Definition BACKOFF_BASE_MS : Z := 60000.
Definition BACKOFF_MAX_MS : Z := 1800000.
Definition computeBackoffMs (attemptCount : Z) : Z :=
  Z.min BACKOFF_MAX_MS (BACKOFF_BASE_MS * 2 ^ (Z.max 1 attemptCount - 1)).

Definition lease_le (a b : job) : Prop :=
  default 0 (lease_expires_at (j_claim a)) <= default 0 (lease_expires_at (j_claim b)).
#[global] Instance lease_le_dec a b : Decision (lease_le a b).
Proof. unfold lease_le. apply _. Defined.

Inductive reaped := deferred | requeued | reaped_failed.
#[global] Instance reaped_eq_dec : EqDecision reaped.
Proof. solve_decision. Defined.

Section reaper.
Context {ot : Others}.

(** * The lease reaper *)

Definition expired_lease (now : Z) (j : job) : bool :=
  in_lease (j_state j) && bool_decide (executorKind (r_routing (j_row j)) = agent)
  && match lease_expires_at (j_claim j) with Some t => t <? now | None => false end.
Definition agent_alive (now offlineAfterMs : Z) (d : db) (j : job) : bool :=
  match claimed_by j ≫= (λ id, agents d !! id) with
  | Some a => bool_decide (a_status a = agent_active)
              && (now - offlineAfterMs <=? default (a_created_at a) (last_seen_at a))
  | None => false
  end.
Definition past_hard_grace (now hardGraceMs : Z) (j : job) : bool :=
  match lease_expires_at (j_claim j) with Some t => t <? now - hardGraceMs | None => false end.
Definition sideEffectsPossible (j : job) : bool :=
  bool_decide (j_state j = running) || bool_decide (is_Some (lease_renewed_at (j_claim j))).
Definition hasRetryBudget (j : job) : bool :=
  negb (sideEffectsPossible j) && bool_decide (j_state j = claimed) && (attempt_count j <? max_attempts j).

Definition requeued_row (now : Z) (j : job) : job :=
  mkJob (with_state pending (j_row j)) no_claim (attempt_count j) (max_attempts j) (scheduled_for j)
    (Some (now + computeBackoffMs (attempt_count j))) (j_approval j) (j_created_at j)
    (needs_operator_reconciliation j) (reconciliation_reason j).
Definition orphaned_row (now : Z) (j : job) : job :=
  reconcile true (Some "lease_expired_after_side_effect_window_agent_unresponsive")
    (set_job (λ r, with_outcome orphaned_unknown_effect (Some "effects_unknown")
        (Some "Lease expired after renew; side effects are unknown and require manual reconciliation")
        (r_resultMetadata r) (complete now (r_times r)) r)
      (mkClaim None None None (lease_renewed_at (j_claim j))) j).
Definition expired_row (errorCode : string) (now : Z) (j : job) : job :=
  set_job (λ r, with_outcome failed (Some errorCode) (Some "Agent lease expired and the job cannot be retried")
             (r_resultMetadata r) (complete now (r_times r)) r) no_claim j.

(** The end of a job by this worker: the stream closed, the row written, the
    log, the trust hook, the audit event and the alert. *)
Definition end_job (j : job) (f : job → job) (status : job_status) (errorCode : string) (o : origin)
    (trust : bool) : tx unit :=
  _ ← service_ (λ w, Ok (closeClaimStream w j));
  updated ← update_job (j_id j) f;
  _ ← (if trust && isTrustAnchorOperation (j_operation j)
       then service_ (λ w, onTrustJobTerminalTransition w j status) else mret tt);
  _ ← modify (add_log (mkLog (j_id j) "job.failed" status));
  _ ← modify (add_failure (mkFailure (j_id j) status (Some errorCode)
                (bool_decide (status = orphaned_unknown_effect))));
  alert j status (Some errorCode) o.

Definition reap_row (now offlineAfterMs hardGraceMs : Z) (j : job) : tx reaped := λ d,
  let alive := agent_alive now offlineAfterMs d j in
  if alive && negb (past_hard_grace now hardGraceMs j) then Ok (d, deferred) else
  (if hasRetryBudget j then
     _ ← service_ (λ w, Ok (closeClaimStream w j));
     _ ← update_job (j_id j) (requeued_row now);
     _ ← modify (add_log (mkLog (j_id j) "job.status_updated" pending));
     mret requeued
   else if sideEffectsPossible j then
     _ ← end_job j (orphaned_row now) orphaned_unknown_effect "effects_unknown" LEASE_REAPER false;
     mret reaped_failed
   else
     let errorCode := if alive then "lease_expired" else "agent_offline" in
     _ ← end_job j (expired_row errorCode now) failed errorCode LEASE_REAPER true;
     mret reaped_failed) d.
Fixpoint reap_rows (now offlineAfterMs hardGraceMs : Z) (rows : list job) : tx (list reaped) :=
  match rows with
  | [] => mret []
  | j :: rows =>
      x ← reap_row now offlineAfterMs hardGraceMs j;
      xs ← reap_rows now offlineAfterMs hardGraceMs rows;
      mret (x :: xs)
  end.
(** The summary: what became of each scanned row. *)
Definition reapExpiredLeases (k : clock) (busy : string → bool) (batchSize : nat) (offlineAfterMs hardGraceMs : Z)
  : tx (list reaped) :=
  rows ← read (λ d, take batchSize (merge_sort lease_le
    (List.filter (λ j, negb (busy (j_id j)) && expired_lease (db_now k) j) (map snd (map_to_list (jobs d))))));
  reap_rows (db_now k) offlineAfterMs hardGraceMs rows.

(** * Forced retirement *)

Definition fenced (now : Z) (agentRowId : string) (status : job_status) (j : job) : bool :=
  bool_decide (claimed_by j = Some agentRowId) && bool_decide (j_state j = status)
  && match lease_expires_at (j_claim j) with Some t => now <? t | None => false end.
Definition with_lease (t : Z) (c : claim) : claim :=
  mkClaim (claimed_by_agent_id c) (claim_id c) (Some t) (lease_renewed_at c).
Definition fence_cancelled (now : Z) (reason : string) (j : job) : job :=
  set_job (λ r, with_outcome cancelled (Some "CERTOPS_AGENT_FORCE_RETIRED") (Some reason) (r_resultMetadata r)
                  (cancel_time now (complete now (r_times r))) r) (with_lease now (j_claim j)) j.
Definition fence_orphaned (now : Z) (reason : string) (j : job) : job :=
  reconcile true (Some reason)
    (set_job (λ r, with_outcome orphaned_unknown_effect (Some "CERTOPS_AGENT_FORCE_RETIRED_UNKNOWN_EFFECT")
                     (Some reason) (r_resultMetadata r) (complete now (r_times r)) r)
       (with_lease now (j_claim j)) j).
Fixpoint each {A} (f : A → tx unit) (l : list A) : tx unit :=
  match l with [] => mret tt | x :: l => _ ← f x; each f l end.
Definition fence_selected (now : Z) (agentRowId : string) (status : job_status) (d : db) : list job :=
  List.filter (fenced now agentRowId status) (map snd (map_to_list (jobs d))).
Definition fenceAgentInFlightWork (k : clock) (agentRowId reason : string) : tx unit :=
  let now := db_now k in
  held ← read (fence_selected now agentRowId claimed);
  _ ← each (λ j, _ ← update_job (j_id j) (fence_cancelled now reason); mret tt) held;
  started ← read (fence_selected now agentRowId running);
  _ ← each (λ j, _ ← update_job (j_id j) (fence_orphaned now reason); mret tt) started;
  _ ← each (λ j,
         _ ← service_ (λ w, onTrustJobTerminalTransition w j cancelled);
         alert j cancelled (Some "CERTOPS_AGENT_FORCE_RETIRED") FORCED_RETIREMENT) held;
  each (λ j, alert j orphaned_unknown_effect (Some "CERTOPS_AGENT_FORCE_RETIRED_UNKNOWN_EFFECT")
               FORCED_RETIREMENT) started.
End reaper.
