(* ===== verification/Retry.v ===== *)
(** The retry of a material job by an operator: [retryDistributionJob] of
    apps/api/services/certops/distributionOperations.js, the only code that
    takes an ended job back to the queue. *)
From S2P Require Import Prelude Dates Json Jobs JobFields RenewalCapacity JobSigning JobRequest.
From S2P Require Import Eligibility AlertPolicy Dispatch Approvals.
Open Scope Z_scope.

(** [normalizeDistributionId]: a uuid of versions 1 to 8, in lower case. *)
Definition char_in (i : nat) (ok : ascii → bool) (s : string) : bool :=
  match String.get i s with Some c => ok c | None => false end.
Definition is_version (c : ascii) : bool := in_range 49 56 c.
Definition is_variant (c : ascii) : bool := bool_decide (c ∈ ["8"; "9"; "a"; "b"; "A"; "B"]%char).
Definition normalizeDistributionId (value : jsval) : option string :=
  match value with
  | Str s => if is_uuid s && char_in 14 is_version s && char_in 19 is_variant s then Some (toLowerCase s) else None
  | _ => None
  end.

Definition retryable (s : job_status) : bool := bool_decide (s ∈ [failed; blocked; orphaned_unknown_effect]).
(** The literal bound of the retry, whatever the row's [max_attempts]. *)
Definition RETRY_ATTEMPTS : Z := 3.
(** The claim, the times of the run and the error are cleared; the payload,
    the attempts and the approval stay. *)
Definition retried_row (status : job_status) (j : job) : job :=
  let t := r_times (j_row j) in
  mkJob (with_outcome status None None (r_resultMetadata (j_row j))
           (mkLifecycle (queuedAt t) None None (cancelledAt t)) (j_row j))
    no_claim (attempt_count j) (max_attempts j) (scheduled_for j) None (j_approval j) (j_created_at j)
    (needs_operator_reconciliation j) (reconciliation_reason j).

Record retry_reply := mkRetryReply { rt_jobId : string; rt_status : job_status; rt_materialVersionId : jsval }.

Section retry.
Context {sv : Services} {ot : Others}.

(** The approval, if the row has one, is of the payload as it is. *)
Definition approval_stale (j : job) : result canon_error bool :=
  match approved_payload_hash (j_approval j) with
  | Some (String _ _ as approved) =>
      current ← computeJobPayloadApprovalHash (j_payload j); Ok (negb (bool_decide (current = approved)))
  | _ => Ok false
  end.
Definition has_approval (j : job) : bool :=
  match approved_payload_hash (j_approval j) with Some (String _ _) => true | _ => false end.

(** A workspace that is paused, or a deployment with CertOps disabled, throws. *)
Definition retryDistributionJob (workspaceId : string) (jobId : jsval) : tx retry_reply :=
  match normalizeDistributionId jobId with
  | None => fail (other_failure "CERTOPS_MATERIAL_CONTRACT_INVALID")
  | Some id =>
      admitted ← service (λ w, match workspaceAdmits w workspaceId with
                               | Ok b => Ok (w, b) | Err code => Err code end);
      _ ← check admitted (other_failure "CERTOPS_WORKSPACE_PAUSED");
      found ← read (λ d, match jobs d !! id with
                         | Some j => if bool_decide (r_workspaceId (j_row j) = workspaceId) && is_material j
                                     then Some j else None
                         | None => None
                         end);
      match found with
      | None => fail (other_failure "CERTOPS_MATERIAL_JOB_NOT_FOUND")
      | Some j =>
          _ ← service_ (λ w, match lockGroup w j with Ok _ => Ok w | Err code => Err code end);
          _ ← check (retryable (j_state j) && (attempt_count j <? RETRY_ATTEMPTS))
                (other_failure "CERTOPS_MATERIAL_RETRY_UNAVAILABLE");
          _ ← service_ (λ w, retryAuthority w j);
          match approval_stale j with
          | Err _ => fail (other_failure "canonical")
          | Ok stale =>
              _ ← check (negb stale) (other_failure "CERTOPS_MATERIAL_RETRY_AUTHORIZATION_STALE");
              always ← read (λ d, requiresApprovalAlways (others d) workspaceId);
              let status := if always && negb (has_approval j) then pending_approval else pending in
              _ ← update_job id (retried_row status);
              _ ← (if truthy (get "materialDeployment" (j_payload j))
                   then service_ (λ w, Ok (resetDeployment w j)) else mret tt);
              mret (mkRetryReply id status
                      (get "materialVersionId" (js_or (get "publication" (j_payload j))
                                                  (get "materialDeployment" (j_payload j)))))
          end
      end
  end.
End retry.
