(* ===== verification/ClaimExample.v ===== *)
(** A concrete control plane for the witnesses of the dispatch theorems: one
    agent, one approved renewal job, services that accept everything, and the
    toy signature of JobSigning. *)
From S2P Require Import Prelude Dates Json Jobs JobFields RenewalCapacity Gate Signing JobSigning.
From S2P Require Import JobRequest Eligibility AlertPolicy Dispatch Approvals Ingest Claim Reaper Retry.
Open Scope Z_scope.

#[global] Instance quiet_others : Others := {|
  W := unit;
  start_blocked _ _ _ := false; retirement_overlaps _ _ _ := false;
  redact s := s; validPayload _ _ := true;
  resolveDistributionJob _ _ := Ok tt;
  acceptPublicationReceipt w _ _ _ := Ok w;
  acceptDeploymentReceipt w _ _ _ := Ok (w, (false, false));
  failDeployment w _ _ _ := w;
  lockGroup _ _ := Ok tt; retryAuthority w _ := Ok w; resetDeployment w _ := w;
  recordEnrollmentResult w _ _ := Ok w; recordPreflightResult w _ _ _ := Ok w;
  attachEnrollment w _ := Ok (w, Some []);
  revalidateTrustJob w _ := (w, Ok (Str "pem", Undef));
  ingestTrustJobResult w _ _ := Ok w; onTrustJobTerminalTransition w _ _ := Ok w;
  reconcileCertificates w _ _ := Ok w;
  closeClaimStream w _ := w; openStream w _ _ := w;
  requestApprovable _ _ := true; assistantReview _ _ := None; jobAuthority _ _ := true;
  connectionActive _ _ _ := true; managementAdmits _ _ := true;
  subjectProvisioning _ _ := false; candidate _ _ _ := true;
  managedCertificate _ _ _ := None; hasPrivateKeyMaterial _ := false;
  workspaceAdmits _ _ := Ok true; requiresApprovalAlways _ _ := false; agentCompatibility _ := Some compatible |}.
#[global] Instance toy_crypto : Crypto := {|
  privkey := unit; aes_decrypt := toy_decrypt; createPrivateKey := toy_private;
  crypto_sign _ := toy_sign; looksLikeKeyMaterial _ := false |}.

Definition ex_env : environment := mkEnv None None None toy_env.
(** 2026-01-01T00:00:00Z and [s] seconds. *)
Definition at_s (s : Z) : Z := 1767225600000 + s * 1000.
Definition ex_clock (s : Z) : clock := mkClock (at_s s) (at_s s).
Definition ex_caller : caller := mkCaller "a1" "ws" "agent-1" false.
Definition ex_row : JobRequest.row :=
  mkRow "j1" "ws" renew pending (Some real) api (mkRouting agent None None None None) (Some "7") None None
    None (Some "domain") (Some "example.org") (Obj [("reason", Str "expiring")]) (Obj []) None None
    (mkLifecycle None None None None) None Null.
Definition ex_agent : agent_row :=
  mkAgentRow 0 Dispatch.agent_active false (Str "linux") (Arr []) (Arr []) (Arr []) (Arr [Str "renew"]) (Obj []) None
    None (at_s 0).
Definition ex_db : db :=
  mkDispatch {["j1" := fresh_job (at_s 0) ex_row]} {["a1" := ex_agent]} toy_db [] [] [] [] tt.
Definition ex_message (n : Z) : jsval := Obj [("sequence", Num (Fin n))].
Definition ex_poll : jsval := Obj [("supportedActions", Arr [Str "renew"]); ("maxJobs", Num (Fin 4))].
Definition ex_fresh (id : string) : string * list string := ("claim-of-" +:+ id, [toy_random]).
Definition ex_result (status : string) : jsval :=
  Obj [("jobId", Str "j1"); ("claimId", Str "claim-of-j1"); ("status", Str status); ("nonce", Str toy_nonce);
       ("errorMessage", Str "acme: rate limited")].

(** The poll, the renewal and the result, at 10, 60 and 300 seconds. *)
Definition ex_claimed : db * result dispatch_error (list dispatched) :=
  withTransaction (claimJobs (sv := demo_services) (ex_clock 10) ex_env (λ _, false) ex_fresh ex_caller
                     (ex_message 1) ex_poll) ex_db.
Definition ex_renewed : db * result dispatch_error lease_reply :=
  withTransaction (renewJobLease (ex_clock 60) ex_env ex_caller (Str "j1") (Str "claim-of-j1") (ex_message 2))
    ex_claimed.1.
Definition ex_ended (status : string) : db * result dispatch_error result_reply :=
  withTransaction (ingestResult (ex_clock 300) ex_caller (ex_message 3) (ex_result status)) ex_renewed.1.

(** A material job: claimed at 10 seconds, reported failed, retried by an
    operator, and claimed again at 400 seconds. *)
Definition material_id : string := "00000000-0000-4000-8000-000000000001".
Definition material_row : JobRequest.row :=
  mkRow material_id "ws" renew pending (Some real) api (mkRouting agent (Some "a1"%string) None None None) (Some "7") None None
    None (Some "domain") (Some "example.org")
    (Obj [("publication", Obj [("groupId", Str "g1"); ("materialVersionId", Str "v1")])]) (Obj []) None None
    (mkLifecycle None None None None) None Null.
Definition material_agent : agent_row :=
  mkAgentRow 0 Dispatch.agent_active false (Str "linux") (Arr []) (Arr []) (Arr []) (Arr [Str "renew"])
    (Arr [Str "material-store-vault-kv2-v1"; Str "certificate-publication-v1"; Str "evidence-claim-binding-v1"])
    (Some (at_s 0)) None (at_s 0).
Definition material_db : db :=
  mkDispatch {[material_id := fresh_job (at_s 0) material_row]} {["a1" := material_agent]}
    toy_db [] [] [] [] tt.
Definition material_result : jsval :=
  Obj [("jobId", Str material_id); ("claimId", Str "first-claim"); ("status", Str "failed"); ("nonce", Str toy_nonce)].
Definition material_claimed : db * result dispatch_error (list dispatched) :=
  withTransaction (claimJobs (sv := demo_services) (ex_clock 10) ex_env (λ _, false)
                     (λ _, ("first-claim"%string, [toy_random])) ex_caller (ex_message 1) ex_poll) material_db.
Definition material_failed : db * result dispatch_error result_reply :=
  withTransaction (ingestResult (ex_clock 300) ex_caller (ex_message 2) material_result) material_claimed.1.
Definition material_retried : db * result dispatch_error retry_reply :=
  withTransaction (retryDistributionJob (sv := demo_services) "ws" (Str material_id)) material_failed.1.
Definition material_again : db * result dispatch_error (list dispatched) :=
  withTransaction (claimJobs (sv := demo_services) (ex_clock 400) ex_env (λ _, false)
                     (λ _, ("second-claim"%string, [pad 24 1])) ex_caller (ex_message 3) ex_poll)
    material_retried.1.
