(* ===== verification/Evolution.v ===== *)
(** How the tables evolve under the transactions of the claim protocol: what
    every handler only adds to, and what it leaves alone.

    [preserves R m] says that a transaction [m], when it commits, relates the
    tables before and after by [R]; it is proved for the statements the
    handlers are made of and composed along [bind]. *)
From stdpp Require Import relations.
From S2P Require Import Prelude Dates Json Jobs JobFields RenewalCapacity Signing JobSigning.
From S2P Require Import JobRequest Eligibility AlertPolicy Dispatch Approvals Ingest Claim Reaper.
Open Scope Z_scope.

Section preserves.
Context {ot : Others}.

Definition preserves (R : relation db) {A} (m : tx A) : Prop := ∀ d d' a, m d = Ok (d', a) → R d d'.

(** A relation that does not look at the jobs, the other services' tables and
    the logs, but for additions to them. *)
Class Loose (R : relation db) := {
  loose_order :: PreOrder R;
  loose_jobs d m : R d (set_jobs m d);
  loose_others d w : R d (set_others w d);
  loose_log d l : R d (add_log l d);
  loose_failure d l : R d (add_failure l d);
  loose_decision d l : R d (add_decision l d) }.

Section loose.
Context (R : relation db) `{!Loose R}.
Lemma preserves_refl {A} (m : tx A) : (∀ d d' a, m d = Ok (d', a) → d' = d) → preserves R m.
Proof. intros H d d' a Hm. rewrite (H _ _ _ Hm). reflexivity. Qed.
Lemma preserves_ret {A} (a : A) : preserves R (mret a).
Proof. apply preserves_refl. by intros d d' x [= <- <-]. Qed.
Lemma preserves_fail {A} err : preserves R (@fail ot A err).
Proof. done. Qed.
Lemma preserves_bind {A B} (m : tx A) (f : A → tx B) : preserves R m → (∀ a, preserves R (f a)) →
  preserves R (m ≫= f).
Proof.
  intros Hm Hf d d' b (d1 & a & H1 & H2)%tx_bind_ok. etrans; [by eapply Hm|by eapply Hf].
Qed.
Lemma preserves_check b err : preserves R (check b err).
Proof. apply preserves_refl. intros d d' u. unfold check. destruct b; [|done]. by intros [= <- <-]. Qed.
Lemma preserves_read {A} (f : db → A) : preserves R (read f).
Proof. apply preserves_refl. by intros d d' a [= <- <-]. Qed.
Lemma preserves_select jobId ws : preserves R (select_job jobId ws).
Proof. apply preserves_refl. intros d d' j. unfold select_job. repeat case_match; try done. by intros [= <- <-]. Qed.
Lemma preserves_service {A} (f : W → result string (W * A)) : preserves R (service f).
Proof.
  intros d d' a. unfold service. destruct (f _) as [[w x]|]; [|done]. intros [= <- <-]. apply loose_others.
Qed.
Lemma preserves_service_ f : preserves R (service_ f).
Proof. apply preserves_service. Qed.
Lemma preserves_log l : preserves R (modify (add_log l)).
Proof. intros d d' a [= <- <-]. apply loose_log. Qed.
Lemma preserves_failure l : preserves R (modify (add_failure l)).
Proof. intros d d' a [= <- <-]. apply loose_failure. Qed.
Lemma preserves_decision l : preserves R (modify (add_decision l)).
Proof. intros d d' a [= <- <-]. apply loose_decision. Qed.
Lemma preserves_update id f : preserves R (update_job id f).
Proof.
  intros d d' a. unfold update_job. destruct (jobs d !! id); [|done]. case_match; [done|]. intros [= <- <-].
  apply loose_jobs.
Qed.
Lemma preserves_if {A} (b : bool) (m1 m2 : tx A) : preserves R m1 → preserves R m2 → preserves R (if b then m1 else m2).
Proof. by destruct b. Qed.
Lemma preserves_each {A} (f : A → tx unit) l : (∀ x, preserves R (f x)) → preserves R (each f l).
Proof. intros Hf. induction l as [|x l IH]; cbn; [apply preserves_ret|]. apply preserves_bind; auto. Qed.
(** A statement that reads the tables. *)
Lemma preserves_read_then {A} (f : db → tx A) : (∀ d, preserves R (f d)) → preserves R (λ d, f d d).
Proof. intros H d d' a Hm. by eapply (H d). Qed.
Lemma preserves_after {A} (g : db → db) (m : tx A) : (∀ d, R d (g d)) → preserves R m → preserves R (λ d, m (g d)).
Proof. intros Hg Hm d d' a H. etrans; [apply Hg|by eapply Hm]. Qed.
End loose.
End preserves.

Create HintDb preserves.
#[export] Hint Resolve preserves_ret preserves_fail preserves_check preserves_read preserves_select
  preserves_service preserves_service_ preserves_log preserves_failure preserves_decision preserves_update
  : preserves.
#[export] Hint Extern 0 (Loose _) => apply _ : preserves.
Ltac preserves_tac := repeat first
  [ progress intros | solve [eauto with preserves] | progress cbv zeta | apply preserves_bind
  | apply preserves_if | apply preserves_each
  | match goal with |- preserves _ (match ?x with _ => _ end) => destruct x end ].

(** * Every handler, from its statements *)

Section handlers.
Context {sv : Services} {ot : Others} {cr : Crypto} (R : relation db) `{!Loose R}.
Hypothesis (Hseq : ∀ id envelope, preserves R (enforceAgentSequence id envelope))
  (Halert : ∀ j s code o, preserves R (alert j s code o))
  (Hconsume : ∀ k c id n, preserves R (consume k c id n))
  (Hextend : ∀ k e c id, preserves R (extend_nonce k e c id))
  (Hsign : ∀ k e c rnd v fs, preserves R (sign k e c rnd v fs))
  (Htouch : ∀ now id actions dns, preserves R (touch_agent now id actions dns)).
Hint Resolve Hseq Halert Hconsume Hextend Hsign Htouch : preserves.

Lemma renew_preserves k e c jobId claimId envelope : preserves R (renewJobLease k e c jobId claimId envelope).
Proof. unfold renewJobLease. preserves_tac. Qed.
Lemma apply_preserves k c j s body : preserves R (apply_result k c j s body).
Proof. unfold apply_result, accept_receipts, settle_trust. preserves_tac. Qed.
Lemma record_preserves c j s body : preserves R (record_reports c j s body).
Proof. unfold record_reports. preserves_tac. Qed.
Lemma ingest_preserves k c envelope body : preserves R (ingestResult k c envelope body).
Proof. unfold ingestResult. pose proof apply_preserves. pose proof record_preserves. preserves_tac. Qed.
Lemma revalidate_preserves k j : preserves R (revalidate_trust k j).
Proof.
  intros d d' a. unfold revalidate_trust. destruct (isTrustAnchorOperation _); [|intros [= <- <-]; reflexivity].
  destruct (revalidateTrustJob _ _) as [w [trust|reason]]; [intros [= <- <-]; apply loose_others|].
  intros H. etrans; [apply (loose_others (R := R) d w)|]. revert H.
  assert (∀ m : tx (option (jsval * jsval)), preserves R m → m (set_others w d) = Ok (d', a) →
    R (set_others w d) d') as Hm by (intros m Hm; apply Hm). apply Hm. preserves_tac.
Qed.
Lemma admit_preserves k e c a j : preserves R (admit_candidate k e c a j).
Proof.
  intros d. unfold admit_candidate. cbv zeta.
  assert (∀ m : tx (option (option public_certificate * (jsval * jsval))), preserves R m →
    ∀ d' x, m d = Ok (d', x) → R d d') as Hm by (intros m Hm d' x; apply Hm).
  intros d' x. repeat (match goal with |- (if ?b then _ else _) = _ → _ => destruct b end;
    [intros [= <- <-]; reflexivity|]).
  destruct (if is_material j then _ else _) as [[]|code]; [|case_match; [intros [= <- <-]; reflexivity|done]].
  apply Hm. pose proof revalidate_preserves. unfold invalidateApprovalForClaim. preserves_tac.
  intros d1 d2 y. destruct (resolveDeployPublicCertificate _ _) as [pc|err]; [intros [= <- <-]; reflexivity|].
  destruct err; try done. match goal with |- ?m d1 = _ → _ => assert (preserves R m) as Hp by preserves_tac end.
  apply Hp.
Qed.
Lemma dispatch_preserves k e c cid rnd v j needs : preserves R (dispatch_candidate k e c cid rnd v j needs).
Proof. unfold dispatch_candidate. preserves_tac. Qed.
Lemma rows_preserves k e c a v fresh rows : preserves R (claim_rows k e c a v fresh rows).
Proof.
  induction rows as [|j rows IH]; cbn [claim_rows]; [by apply preserves_ret|].
  pose proof admit_preserves. pose proof dispatch_preserves. preserves_tac.
Qed.
Lemma claim_preserves k e busy fresh c envelope body : preserves R (claimJobs k e busy fresh c envelope body).
Proof. unfold claimJobs. pose proof rows_preserves. preserves_tac. Qed.
Lemma reap_row_preserves now off grace j : preserves R (reap_row now off grace j).
Proof.
  intros d d' x. unfold reap_row. cbv zeta. destruct (agent_alive _ _ _ _ && _); [intros [= <- <-]; reflexivity|].
  match goal with |- ?m d = _ → _ => assert (preserves R m) as Hp end; [|apply Hp].
  unfold end_job. preserves_tac.
Qed.
Lemma reap_preserves k busy n off grace : preserves R (reapExpiredLeases k busy n off grace).
Proof.
  unfold reapExpiredLeases. preserves_tac.
  match goal with |- preserves R (reap_rows _ _ _ ?rows) => generalize rows end.
  intros rows. pose proof reap_row_preserves. induction rows; cbn [reap_rows]; preserves_tac.
Qed.
Lemma fence_preserves k a reason : preserves R (fenceAgentInFlightWork k a reason).
Proof. unfold fenceAgentInFlightWork. cbv zeta. preserves_tac. Qed.
End handlers.

(** * What only grows *)

Section grows.
Context {sv : Services} {ot : Others} {cr : Crypto}.

(** The signing keys stay, an agent's last sequence never goes back, and the
    logs and the outbox are append-only. *)
Record evolves (d d' : db) : Prop := {
  ev_keys : keys (signing d') = keys (signing d);
  ev_sequence id a : agents d !! id = Some a → ∃ a', agents d' !! id = Some a' ∧ last_sequence a <= last_sequence a';
  ev_outbox : outbox d `prefix_of` outbox d';
  ev_log : job_log d `prefix_of` job_log d';
  ev_failures : failures d `prefix_of` failures d';
  ev_decisions : decisions d `prefix_of` decisions d' }.
Lemma same_agents (d d' : db) : agents d' = agents d → ∀ id a, agents d !! id = Some a →
  ∃ a', agents d' !! id = Some a' ∧ last_sequence a <= last_sequence a'.
Proof. intros ->. eauto with lia. Qed.
Lemma raised_agents (d d' : db) i a0 a1 : agents d !! i = Some a0 → agents d' = <[i := a1]> (agents d) →
  last_sequence a0 <= last_sequence a1 → ∀ id a, agents d !! id = Some a →
  ∃ a', agents d' !! id = Some a' ∧ last_sequence a <= last_sequence a'.
Proof.
  intros H0 -> Hle id a Ha. destruct (decide (i = id)) as [->|Hne].
  - rewrite lookup_insert_eq. exists a1. split; [done|]. congruence.
  - rewrite lookup_insert_ne by done. eauto with lia.
Qed.
#[global] Instance evolves_loose : Loose evolves.
Proof.
  split; [split|..].
  - intros d. by split; [|apply same_agents|..].
  - intros d1 d2 d3 [H1 H2 H3 H4 H5 H6] [G1 G2 G3 G4 G5 G6].
    split; [congruence| |by etrans..]. intros id a (a2 & Ha2 & Hle)%H2. apply G2 in Ha2 as (a3 & Ha3 & Hle').
    exists a3. split; [done|lia].
  - intros d m. by split; [|apply same_agents|..].
  - intros d w. by split; [|apply same_agents|..].
  - intros d l. split; [done|by apply same_agents|done|by eexists|done..].
  - intros d l. split; [done|by apply same_agents|done..|by eexists|done].
  - intros d l. split; [done|by apply same_agents|done..|by eexists].
Qed.

Lemma sequence_evolves id envelope : preserves evolves (enforceAgentSequence id envelope).
Proof.
  intros d d' u. unfold enforceAgentSequence. destruct (envelopeSequence envelope) as [n|].
  - destruct (agents d !! id) as [a|] eqn:Ha; [|done]. destruct (last_sequence a <? n) eqn:E; [|done].
    intros [= <- <-]. split; try done. eapply raised_agents; [done..|]. cbn. lia.
  - cbv zeta. case_match; [done|]. intros [= <- <-]. reflexivity.
Qed.
Lemma enqueue_prefix valid ev l l' : enqueueOutboxEvent valid ev l = Some l' → l `prefix_of` l'.
Proof.
  unfold enqueueOutboxEvent. case_match; [done|]. intros [= <-]. destruct (existsb _ l); [done|by eexists].
Qed.
Lemma record_event_evolves ev : preserves evolves (record_event ev).
Proof.
  intros d d' u. unfold record_event. destruct (enqueueOutboxEvent _ _ _) as [l|] eqn:E; [|done].
  intros [= <- <-]. apply enqueue_prefix in E. by split; [|apply same_agents|..].
Qed.
Lemma alert_evolves j s code o : preserves evolves (alert j s code o).
Proof.
  unfold alert. cbv zeta. apply preserves_if; [apply record_event_evolves|]. apply preserves_ret, _.
Qed.
Lemma signing_evolves d s : keys s = keys (signing d) → evolves d (set_signing s d).
Proof. intros H. by split; [|apply same_agents|..]. Qed.
Lemma consume_keys now n id ws ag s : keys (consumeNonce now n id ws ag s).1 = keys s.
Proof. unfold consumeNonce. repeat case_match; done. Qed.
Lemma extend_keys now id ws ag ttl s : keys (extendJobNonceExpiry now id ws ag ttl s).1 = keys s.
Proof. unfold extendJobNonceExpiry. repeat case_match; done. Qed.
Lemma consume_evolves k c id n : preserves evolves (consume k c id n).
Proof.
  intros d d' o. unfold consume. destruct (consumeNonce _ _ _ _ _ _) as [s x] eqn:E. intros [= <- <-].
  apply signing_evolves. change s with (s, x).1. rewrite <- E. apply consume_keys.
Qed.
Lemma extend_evolves k e c id : preserves evolves (extend_nonce k e c id).
Proof.
  intros d d' o. unfold extend_nonce. destruct (extendJobNonceExpiry _ _ _ _ _ _) as [s x] eqn:E. intros [= <- <-].
  apply signing_evolves. change s with (s, x).1. rewrite <- E. apply extend_keys.
Qed.
(** Signing enters one nonce. *)
Lemma sign_ok k e c rnd v fs d d' wire : sign k e c rnd v fs d = Ok (d', wire) →
  ∃ jobId nonce, assoc_get "jobId" fs = Some (Str jobId) ∧ generateNonce looksLikeKeyMaterial 16 rnd = Ok nonce ∧
    d' = set_signing (set_nonces (nonces (signing d) ++ [mkNonceRow nonce jobId (c_workspaceId c) (Some (c_id c))
           (app_now k + dispatchNonceTtlSeconds e * 1000) None]) (signing d)) d.
Proof.
  unfold sign. destruct (signJobForDispatch _ _ _ _ _ _ _ _ _ _ _ _ _) as [s [w|]] eqn:E; [|done].
  intros [= <- <-]. apply sign_cases in E as (jobId & kid & pk & nonce & can & Hj & _ & _ & Hn & _ & _ & _ & -> & _).
  by exists jobId, nonce.
Qed.
Lemma sign_evolves k e c rnd v fs : preserves evolves (sign k e c rnd v fs).
Proof. intros d d' x (jobId & nonce & _ & _ & ->)%sign_ok. by apply signing_evolves. Qed.
Lemma touch_evolves now id actions dns : preserves evolves (touch_agent now id actions dns).
Proof.
  intros d d' u [= <- <-]. split; try done. intros i a Ha. cbn. rewrite lookup_alter. case_decide as Hid.
  - subst i. rewrite Ha. cbn. eexists. split; [done|]. unfold seen_row. by case_bool_decide.
  - rewrite Ha. eauto with lia.
Qed.
End grows.
#[export] Hint Resolve sequence_evolves record_event_evolves alert_evolves consume_evolves extend_evolves sign_evolves touch_evolves
  : preserves.

Section evolution.
Context {sv : Services} {ot : Others} {cr : Crypto}.
Lemma renew_evolves k e c jobId claimId envelope : preserves evolves (renewJobLease k e c jobId claimId envelope).
Proof. apply renew_preserves; auto with preserves. Qed.
Lemma apply_evolves k c j s body : preserves evolves (apply_result k c j s body).
Proof. apply apply_preserves; auto with preserves. Qed.
Lemma record_evolves c j s body : preserves evolves (record_reports c j s body).
Proof. apply record_preserves; auto with preserves. Qed.
Lemma ingest_evolves k c envelope body : preserves evolves (ingestResult k c envelope body).
Proof. apply ingest_preserves; auto with preserves. Qed.
Lemma rows_evolves k e c a v fresh rows : preserves evolves (claim_rows k e c a v fresh rows).
Proof. apply rows_preserves; auto with preserves. Qed.
Lemma claim_evolves k e busy fresh c envelope body : preserves evolves (claimJobs k e busy fresh c envelope body).
Proof. apply claim_preserves; auto with preserves. Qed.
Lemma reap_evolves k busy n off grace : preserves evolves (reapExpiredLeases k busy n off grace).
Proof. apply reap_preserves; auto with preserves. Qed.
Lemma fence_evolves k a reason : preserves evolves (fenceAgentInFlightWork k a reason).
Proof. apply fence_preserves; auto with preserves. Qed.
End evolution.
#[export] Hint Resolve renew_evolves apply_evolves record_evolves ingest_evolves rows_evolves claim_evolves reap_evolves
  fence_evolves : preserves.
