(* ===== verification/ClaimSystem.v ===== *)
(** The life of a job row under everything that writes it: polls, renewals,
    results, the lease reaper, forced retirement, approvals, retries of
    operators, the controller lane, and all other code.

    A step of the system is one transaction; [moves] says what it did to each
    row, and the theorems of ClaimSafety are about sequences of moves. *)
From stdpp Require Import relations.
From S2P Require Import Prelude Dates Json Jobs JobFields RenewalCapacity Signing JobSigning.
From S2P Require Import JobRequest Eligibility AlertPolicy Dispatch Approvals Ingest Claim Reaper Retry.
Open Scope Z_scope.

(** * What a transaction does to the job table *)

Section frames.
Context {ot : Others}.

Definition quiet {A} (m : tx A) : Prop := ∀ d d' a, m d = Ok (d', a) → jobs d' = jobs d.
Lemma quiet_ret {A} (a : A) : quiet (mret a).
Proof. by intros d d' x [= <- <-]. Qed.
Lemma quiet_fail {A} e : quiet (@fail ot A e).
Proof. done. Qed.
Lemma quiet_bind {A B} (m : tx A) (f : A → tx B) : quiet m → (∀ a, quiet (f a)) → quiet (m ≫= f).
Proof.
  intros Hm Hf d d' b (d1 & a & H1 & H2)%tx_bind_ok. rewrite (Hf a _ _ _ H2). by eapply Hm.
Qed.
Lemma quiet_check b e : quiet (check b e).
Proof. intros d d' u. unfold check. destruct b; [|done]. by intros [= <- <-]. Qed.
Lemma quiet_read {A} (f : db → A) : quiet (read f).
Proof. by intros d d' a [= <- <-]. Qed.
Lemma quiet_service {A} (f : W → result string (W * A)) : quiet (service f).
Proof. intros d d' a. unfold service. destruct (f _) as [[w x]|]; [|done]. by intros [= <- <-]. Qed.
Lemma quiet_service_ f : quiet (service_ f).
Proof. apply quiet_service. Qed.
Lemma quiet_log l : quiet (modify (add_log l)).
Proof. by intros d d' a [= <- <-]. Qed.
Lemma quiet_failure l : quiet (modify (add_failure l)).
Proof. by intros d d' a [= <- <-]. Qed.
Lemma quiet_decision l : quiet (modify (add_decision l)).
Proof. by intros d d' a [= <- <-]. Qed.
Lemma quiet_sequence id envelope : quiet (enforceAgentSequence id envelope).
Proof.
  intros d d' u. unfold enforceAgentSequence. repeat case_match; try done; by intros [= <- <-].
Qed.
Lemma quiet_select jobId ws : quiet (select_job jobId ws).
Proof. intros d d' j. unfold select_job. repeat case_match; try done. by intros [= <- <-]. Qed.
Lemma quiet_event ev : quiet (record_event ev).
Proof. intros d d' u. unfold record_event. repeat case_match; try done; by intros [= <- <-]. Qed.
Lemma quiet_if {A} (b : bool) (m1 m2 : tx A) : quiet m1 → quiet m2 → quiet (if b then m1 else m2).
Proof. by destruct b. Qed.
Lemma quiet_alert j s c o : quiet (alert j s c o).
Proof. unfold alert. cbv zeta. apply quiet_if; [apply quiet_event|apply quiet_ret]. Qed.

Lemma select_job_ok jobId ws d d' j : select_job jobId ws d = Ok (d', j) →
  d' = d ∧ jobs d !! toLowerCase jobId = Some j ∧ r_workspaceId (j_row j) = ws.
Proof.
  unfold select_job. destruct (jobs d !! _) as [x|]; [|done]. case_bool_decide; [|done]. by intros [= <- <-].
Qed.
Lemma check_ok b e d d' u : check b e d = Ok (d', u) → b = true ∧ d' = d.
Proof. unfold check. destruct b; [|done]. by intros [= <- <-]. Qed.

(** An UPDATE writes [f old], possibly with a reconciliation added by the
    triggers. *)
Definition updates (f : job → job) (j j' : job) : Prop :=
  j' = f j ∨ ∃ reason, j' = reconcile true reason (f j).
Lemma update_job_ok id f d d' j' : update_job id f d = Ok (d', j') →
  ∃ j, jobs d !! id = Some j ∧ updates f j j' ∧ jobs d' = <[id := j']> (jobs d) ∧
    agents d' = agents d ∧ signing d' = signing d ∧ outbox d' = outbox d.
Proof.
  unfold update_job. destruct (jobs d !! id) as [j|]; [|done]. case_match; [done|]. intros [= <- <-].
  exists j. split; [done|]. split; [|done]. unfold updates. case_match; [right; by eexists|by left].
Qed.
End frames.

Create HintDb quiet.
#[export] Hint Resolve quiet_ret quiet_fail quiet_check quiet_read quiet_service quiet_service_ quiet_log
  quiet_failure quiet_decision quiet_sequence quiet_select quiet_event quiet_alert : quiet.
Ltac quiet_tac := repeat first
  [ progress intros | apply quiet_bind | apply quiet_if | solve [auto with quiet]
  | match goal with |- quiet (match ?x with _ => _ end) => destruct x end ].

Section quiet_services.
Context {ot : Others}.
Lemma quiet_receipts c j s body : quiet (accept_receipts c j s body).
Proof. unfold accept_receipts. quiet_tac. Qed.
Lemma quiet_reports c j s body : quiet (record_reports c j s body).
Proof. unfold record_reports. quiet_tac. Qed.
Lemma quiet_trust c j s v : quiet (settle_trust c j s v).
Proof. unfold settle_trust. quiet_tac. Qed.
Lemma quiet_consume k c j n : quiet (consume k c j n).
Proof. intros d d' o. unfold consume. case_match. by intros [= <- <-]. Qed.
Lemma quiet_extend k e c j : quiet (extend_nonce k e c j).
Proof. intros d d' o. unfold extend_nonce. case_match. by intros [= <- <-]. Qed.
End quiet_services.
#[export] Hint Resolve quiet_receipts quiet_reports quiet_trust quiet_consume quiet_extend : quiet.

(** * Moves of a row *)

(** What an agent or a poll sees: a claim given out, a renewal or a result
    accepted; a controller that takes a command; and what users do: an
    approval granted, an ended job retried. *)
Inductive label :=
| LClaim (jobId agentRowId claimId : string)
| LRenew (jobId agentRowId claimId : string)
| LResult (jobId agentRowId claimId : string)
| LTake (jobId : string)
| LApprove (jobId userId : string)
| LRetry (jobId : string).

(** Who holds a row: agent and claim, empty when the column is NULL. *)
Definition holder (j : job) : string * string :=
  (default EmptyString (claimed_by j), default EmptyString (claim_id (j_claim j))).

Section moves.
Context {sv : Services} {ot : Others}.

Definition lane (j : job) : executor_kind := executorKind (r_routing (j_row j)).
(** The columns that other code leaves alone, and the status changes it
    makes: the transitions of updateCertificateJobStatus, and the end of work
    that has not started (cancelled, or a rollout request that is executed or
    stale).  The payload may change; the approval is dropped at most, with
    the end of the job. *)
Record left_alone (j j' : job) : Prop := {
  la_id : j_id j' = j_id j;
  la_lane : lane j' = lane j;
  la_holder : claimed_by j' = claimed_by j ∧ claim_id (j_claim j') = claim_id (j_claim j)
              ∧ lease_renewed_at (j_claim j') = lease_renewed_at (j_claim j);
  la_lease : lease_expires_at (j_claim j') = lease_expires_at (j_claim j) ∨ isTerminalJobStatus (j_state j') = true;
  la_attempts : attempt_count j' = attempt_count j;
  la_max : max_attempts j' = max_attempts j;
  la_approval : j_approval j' = j_approval j ∨ j_approval j' = no_approval ∧ isTerminalJobStatus (j_state j') = true;
  la_state : j_state j' = j_state j ∨ jobStatusTransitionDecision (j_state j) (j_state j') = Ok Applied
             ∨ j_state j ∈ [pending_approval; approved; pending] ∧ isTerminalJobStatus (j_state j') = true }.
(** The polls of controllers (controllerProvisioning.js) on the jobs of their
    lane: a waiting one is claimed, one in progress is delivered again, and an
    invalid one is blocked.  They have a column of their own for who holds the
    job, and set its claim id and lease. *)
Record controlled (j : job) (ls : list label) (j' : job) : Prop := {
  cn_id : j_id j' = j_id j;
  cn_lane : lane j = controller ∧ lane j' = controller;
  cn_agent : claimed_by j' = claimed_by j;
  cn_max : max_attempts j' = max_attempts j;
  cn_approval : j_approval j' = j_approval j;
  cn_state :
    ls = [LTake (j_id j)] ∧ j_state j = pending ∧ j_state j' = claimed ∧ attempt_count j' = attempt_count j + 1 ∨
    ls = [] ∧ attempt_count j' = attempt_count j ∧
      (in_lease (j_state j) = true ∧ j_state j' = j_state j ∨
       (in_lease (j_state j) = true ∨ j_state j = pending) ∧ j_state j' = blocked) }.

(** What no end of a job changes. *)
Record kept (j' j : job) : Prop := {
  kp_id : j_id j' = j_id j;
  kp_lane : lane j' = lane j;
  kp_holder : holder j' = holder j ∧ claimed_by j' = claimed_by j ∨ claimed_by j' = None;
  kp_attempts : attempt_count j' = attempt_count j;
  kp_max : max_attempts j' = max_attempts j;
  kp_approval : j_approval j' = j_approval j }.

Inductive move (now : Z) (e : environment) : job → list label → job → Prop :=
| move_claim k a c j j' :
    db_now k = now → lane j = agent → j_state j = pending ∨ reclaimable now a j = true →
    approval_void j = Ok None → updates (claimed_row k e a c) j j' →
    move now e j [LClaim (j_id j) a c] j'
| move_renew k a c j j' :
    db_now k = now → lane j = agent → a ≠ EmptyString → holder j = (a, c) → in_lease (j_state j) = true →
    updates (renew_row k e) j j' → move now e j [LRenew (j_id j) a c] j'
| move_result a c s code message meta needs reason clear j j' :
    a ≠ EmptyString → holder j = (a, c) → in_lease (j_state j) = true → mode_allows (r_mode (j_row j)) s = true →
    s ∈ map snd RESULT_STATUS_TO_JOB_STATUS →
    updates (result_row now s code message meta needs reason clear) j j' →
    move now e j [LResult (j_id j) a c] j'
| move_requeue j j' :
    hasRetryBudget j = true → updates (requeued_row now) j j' → move now e j [] j'
| move_end f j j' :
    in_lease (j_state j) = true ∨ j_state j = pending → isTerminalJobStatus (j_state (f j)) = true →
    kept (f j) j → updates f j j' → move now e j [] j'
| move_invalidate a j j' :
    j_state j = pending ∨ reclaimable now a j = true → updates invalidated_row j j' → move now e j [] j'
| move_approve seen w user reviewHash hash intent j j' :
    j_state j = pending_approval → may_approve w seen user reviewHash = Ok (hash, intent) →
    unchanged seen j = true → j_id seen = j_id j → updates (approved_row now hash intent) j j' →
    move now e j [LApprove (j_id j) user] j'
| move_reject reason j j' :
    j_state j = pending_approval → updates (rejected_row now reason) j j' → move now e j [] j'
| move_retry status j j' :
    is_material j = true → retryable (j_state j) = true → attempt_count j < RETRY_ATTEMPTS →
    status ∈ [pending_approval; pending] → updates (retried_row status) j j' → move now e j [LRetry (j_id j)] j'
| move_controlled j ls j' : controlled j ls j' → move now e j ls j'
| move_other j j' : left_alone j j' → move now e j [] j'.

Lemma updates_id f j j' : updates f j j' → j_id (f j) = j_id j → j_id j' = j_id j.
Proof. by intros [->|[reason ->]]. Qed.
Lemma move_id now e j ls j' : move now e j ls j' → j_id j' = j_id j.
Proof. destruct 1; [..|by eapply cn_id|by apply la_id]; (eapply updates_id; [eassumption|]);
  by first [done|apply kp_id]. Qed.

(** Sequences of moves on a table; rows are only added. *)
Inductive moves (now : Z) (e : environment) : gmap string job → list label → gmap string job → Prop :=
| moves_nil m : moves now e m [] m
| moves_one m id j ls j' ls' m' :
    m !! id = Some j → move now e j ls j' → moves now e (<[id := j']> m) ls' m' →
    moves now e m (ls ++ ls') m'
| moves_new m id r t ls m' :
    m !! id = None → r_id r = id → moves now e (<[id := fresh_job t r]> m) ls m' → moves now e m ls m'.
Lemma moves_app now e m1 l1 m2 l2 m3 :
  moves now e m1 l1 m2 → moves now e m2 l2 m3 → moves now e m1 (l1 ++ l2) m3.
Proof.
  induction 1 as [m|m id j ls j' ls' m' Hm Hs _ IH|m id r t ls m' Hm Hr _ IH]; intros H2; [done|..].
  - rewrite <- (assoc_L app). econstructor; eauto.
  - eapply moves_new; eauto.
Qed.
Lemma moves_single now e m id j ls j' : m !! id = Some j → move now e j ls j' → moves now e m ls (<[id := j']> m).
Proof. intros Hm Hs. rewrite <- (app_nil_r ls). econstructor; [done..|constructor]. Qed.

(** Rows are stored under their id. *)
Definition ids_ok (m : gmap string job) : Prop := ∀ id j, m !! id = Some j → j_id j = id.
Lemma ids_ok_insert m id j : ids_ok m → j_id j = id → ids_ok (<[id := j]> m).
Proof. intros H Hj i x. rewrite lookup_insert_Some. intros [[<- <-]|[_ Hx]]; [done|by apply H]. Qed.
Lemma moves_ids now e m ls m' : moves now e m ls m' → ids_ok m → ids_ok m'.
Proof.
  induction 1 as [|m id j ls j' ls' m' Hm Hs _ IH|m id r t ls m' Hm Hr _ IH]; intros H; [done|..];
    apply IH, ids_ok_insert; try done.
  rewrite (move_id _ _ _ _ _ Hs). by apply H.
Qed.
End moves.

(** * Each handler is a sequence of moves *)

Ltac tx_step H d a E := apply tx_bind_ok in H as (d & a & E & H).
(** A step that leaves the jobs alone. *)
Ltac tx_quiet H d a :=
  let E := fresh "E" in apply tx_bind_ok in H as (d & a & E & H);
  match type of E with
  | ?m _ = Ok _ => let Q := fresh "Q" in assert (Q : quiet m) by quiet_tac; apply Q in E; clear Q
  end.
Ltac tx_check H Hb :=
  let d := fresh "d" in let u := fresh "u" in let E := fresh "E" in
  apply tx_bind_ok in H as (d & u & E & H); apply check_ok in E as [Hb ->].

Section handlers.
Context {sv : Services} {ot : Others} {cr : Crypto}.

Lemma column_is_holder j a c :
  column_is (claimed_by j) a && column_is (claim_id (j_claim j)) c = true → holder j = (a, c).
Proof.
  intros [H1%bool_decide_eq_true H2%bool_decide_eq_true]%andb_prop. unfold holder. by rewrite H1, H2.
Qed.
Lemma updates_renew_claim k e j j' : updates (renew_row k e) j j' → claim_id (j_claim j') = claim_id (j_claim j).
Proof. by intros [->|[reason ->]]. Qed.

Lemma renew_moves k e c jobId claimId envelope d d' r : c_id c ≠ EmptyString → ids_ok (jobs d) →
  renewJobLease k e c jobId claimId envelope d = Ok (d', r) →
  moves (db_now k) e (jobs d) [LRenew (lr_jobId r) (c_id c) (lr_claimId r)] (jobs d').
Proof.
  intros Hc Hids. unfold renewJobLease.
  destruct (nonempty_text jobId) as [id|]; [|done]. destruct (nonempty_text claimId) as [cid|]; [|done].
  intros H. tx_quiet H d1 u1. tx_step H d2 j Ej. apply select_job_ok in Ej as (-> & Hj & _).
  tx_check H Hk. apply bool_decide_eq_true in Hk. tx_check H Hown. tx_check H Hst. tx_quiet H d3 u3.
  tx_step H d4 updated Eu. apply update_job_ok in Eu as (j0 & Hj0 & Hup & Hjobs & _).
  tx_quiet H d5 n. injection H as <- <-. cbn [lr_jobId lr_claimId].
  rewrite E1, Hjobs, E0, E. rewrite E in Hj. rewrite E0, E in Hj0.
  pose proof (Hids _ _ Hj) as Hid. rewrite Hid, Hj in Hj0. injection Hj0 as <-. rewrite Hid.
  apply column_is_holder in Hown.
  rewrite (updates_id _ _ _ Hup eq_refl), (updates_renew_claim _ _ _ _ Hup).
  replace (default EmptyString (claim_id (j_claim j))) with cid by (unfold holder in Hown; congruence).
  apply moves_single with (j := j); [done|]. by apply move_renew with k.
Qed.

Lemma apply_result_ok k c j s body d d' r : jobs d !! j_id j = Some j →
  apply_result k c j s body d = Ok (d', r) →
  in_lease (j_state j) = true ∧ rr_duplicate r = false ∧ rr_jobId r = j_id j ∧
  ∃ code message meta needs reason clear j',
    updates (result_row (db_now k) s code message meta needs reason clear) j j' ∧
    jobs d' = <[j_id j := j']> (jobs d).
Proof.
  intros Hj. unfold apply_result. intros H. tx_check H Hst. tx_quiet H d1 accepted.
  destruct (result_metadata _ _) as [meta|]; [|done].
  tx_step H d2 updated Eu. apply update_job_ok in Eu as (j0 & Hj0 & Hup & Hjobs & _).
  rewrite E in Hj0. rewrite Hj in Hj0. injection Hj0 as <-.
  tx_quiet H d3 u3. tx_quiet H d4 u4. tx_quiet H d5 u5. tx_quiet H d6 u6. tx_quiet H d7 u7. tx_quiet H d8 u8.
  injection H as <- <-. cbn [rr_duplicate rr_jobId].
  split; [done|]. split; [done|]. split; [by rewrite (updates_id _ _ _ Hup eq_refl)|].
  eexists _, _, _, _, _, _, updated. split; [exact Hup|].
  by rewrite E5, E4, E3, E2, E1, E0, Hjobs, E.
Qed.

(** The claim a result names. *)
Definition body_claim (body : jsval) : string := js_String (js_or (get "claimId" body) (Str EmptyString)).
Definition result_labels (c : caller) (body : jsval) (r : result_reply) : list label :=
  if rr_duplicate r then [] else [LResult (rr_jobId r) (c_id c) (body_claim body)].
Lemma assoc_get_snd {A} k (l : list (string * A)) a : assoc_get k l = Some a → a ∈ map snd l.
Proof.
  induction l as [|[k' a'] l IH]; cbn [assoc_get map]; [done|]. destruct (decide (k = k')) as [_|_].
  - intros [= ->]. by left.
  - intros Ha. right. by apply IH.
Qed.
Lemma ingest_moves k e c envelope body d d' r : c_id c ≠ EmptyString → ids_ok (jobs d) →
  ingestResult k c envelope body d = Ok (d', r) →
  moves (db_now k) e (jobs d) (result_labels c body r) (jobs d').
Proof.
  intros Hc Hids. unfold ingestResult.
  destruct (assoc_get _ RESULT_STATUS_TO_JOB_STATUS) as [s|] eqn:Es; [|done].
  destruct (get "jobId" body) as [| | | |jobId| |]; try done.
  intros H. tx_step H d1 j Ej. apply select_job_ok in Ej as (-> & Hj & _).
  tx_check H Hown. tx_check H Hmode. tx_quiet H d2 u2. tx_quiet H d3 outcome.
  destruct outcome as [|nonceCode].
  - tx_quiet H d4 u4. pose proof (Hids _ _ Hj) as Hid. rewrite <- Hid in Hj.
    assert (jobs d4 = jobs d) as Ed by congruence.
    destruct (apply_result_ok k c j s body d4 d' r) as (Hst & Hdup & Hrid & H'); [by rewrite Ed|done|].
    destruct H' as (code & message & meta & needs & reason & clear & j' & Hup & Hjobs).
    unfold result_labels. rewrite Hdup, Hrid, Hjobs, Ed. apply moves_single with (j := j); [done|].
    eapply move_result; [done|by apply column_is_holder|done|done|by eapply assoc_get_snd|exact Hup].
  - unfold result_labels. case_match; [|done]. injection H as <- <-. cbn [rr_duplicate].
    assert (jobs d3 = jobs d) as -> by congruence. constructor.
Qed.

Lemma quiet_sign k e c rnd v fs : quiet (sign k e c rnd v fs).
Proof. intros d d' x. unfold sign. case_match. case_match; [|done]. by intros [= <- <-]. Qed.
Lemma quiet_touch now id actions dns : quiet (touch_agent now id actions dns).
Proof. by intros d d' u [= <- <-]. Qed.

(** A candidate may be dispatched. *)
Definition dispatchable (now : Z) (a : string) (j : job) : Prop :=
  lane j = agent ∧ (j_state j = pending ∨ reclaimable now a j = true).
Lemma dispatchable_live now a j : dispatchable now a j → in_lease (j_state j) = true ∨ j_state j = pending.
Proof.
  intros [_ [H|H]]; [by right|left]. unfold reclaimable in H.
  destruct (bool_decide (j_state j = claimed)) eqn:E; [|done]. apply bool_decide_eq_true in E. by rewrite E.
Qed.
(** A renewal that ended without success. *)
Definition alarming (j : job) : Prop :=
  j_operation j = renew ∧ j_state j ∈ [failed; rejected; blocked; cancelled; orphaned_unknown_effect].
(** What refusing a candidate may do to it. *)
Definition refused_moves (now : Z) (e : environment) (j : job) (m m' : gmap string job) : Prop :=
  m' = m ∨ ∃ j', m' = <[j_id j := j']> m ∧ move now e j [] j' ∧ ¬ alarming j'.
Lemma updates_state f j j' : updates f j j' → j_state j' = j_state (f j) ∧ j_operation j' = j_operation (f j).
Proof. by intros [->|[reason ->]]. Qed.
Lemma not_renew f j j' : updates f j j' → j_operation (f j) ≠ renew → ¬ alarming j'.
Proof. intros [_ Ho]%updates_state Hne [H _]. congruence. Qed.

Lemma failed_move now e s code message j j' : isTerminalJobStatus s = true →
  in_lease (j_state j) = true ∨ j_state j = pending →
  updates (failed_row s code message now) j j' → move now e j [] j'.
Proof. intros Hs Hl Hup. apply move_end with (failed_row s code message now); try done. split; try done. by left. Qed.
Lemma revalidate_ok k e a j d d' r : jobs d !! j_id j = Some j → dispatchable (db_now k) a j →
  revalidate_trust k j d = Ok (d', r) →
  match r with
  | Some _ => jobs d' = jobs d
  | None => refused_moves (db_now k) e j (jobs d) (jobs d')
  end.
Proof.
  intros Hj Hd. unfold revalidate_trust. destruct (isTrustAnchorOperation _) eqn:Ht; [|by intros [= <- <-]].
  destruct (revalidateTrustJob _ _) as [w [trust|reason]]; [by intros [= <- <-]|].
  case_bool_decide as Hs; [|intros [= <- <-]; by left]. intros H. tx_step H d1 j' Eu. injection H as <- <-.
  apply update_job_ok in Eu as (j0 & Hj0 & Hup & Hjobs & _). cbn in Hj0, Hjobs. rewrite Hj in Hj0.
  injection Hj0 as <-. right. exists j'. split; [done|]. split.
  - eapply failed_move; [| |exact Hup]; [done|by eapply dispatchable_live].
  - eapply not_renew; [exact Hup|]. change (j_operation j ≠ renew). by intros E%(f_equal isTrustAnchorOperation); rewrite Ht in E.
Qed.
Lemma invalidate_ok now e a j hash d d' r : jobs d !! j_id j = Some j → dispatchable now a j →
  invalidateApprovalForClaim (j_id j) hash d = Ok (d', r) → refused_moves now e j (jobs d) (jobs d').
Proof.
  intros Hj Hd H. unfold invalidateApprovalForClaim in H. tx_step H d1 j' Eu.
  apply update_job_ok in Eu as (j0 & Hj0 & Hup & Hjobs & _). rewrite Hj in Hj0. injection Hj0 as <-.
  tx_quiet H d2 u2. injection H as <- _. right. exists j'. cbn. rewrite E, Hjobs. split; [done|].
  split; [apply move_invalidate with a; [apply Hd|done]|]. intros [_ H].
  rewrite (proj1 (updates_state _ _ _ Hup)) in H. by apply (bool_decide_pack _) in H.
Qed.
Lemma admit_ok k e c a j d d' r : jobs d !! j_id j = Some j → dispatchable (db_now k) (c_id c) j →
  admit_candidate k e c a j d = Ok (d', r) →
  match r with
  | Some _ => jobs d' = jobs d ∧ approval_void j = Ok None ∧
      jobAuthority (others d) j || negb (bool_decide (j_state j = pending)) = true ∧
      managementAdmits (others d) j = true ∧
      evaluateAgentJobEligibility (env_freshness e) (app_now k) a (facts_of (others d) j)
        (agentCompatibility c) = eligible
  | None => refused_moves (db_now k) e j (jobs d) (jobs d')
  end.
Proof.
  intros Hj Hd. unfold admit_candidate. cbv zeta.
  destruct (bool_decide (j_state j = pending) && negb (jobAuthority (others d) j)) eqn:E1;
    [intros [= <- <-]; by left|].
  destruct (managementAdmits (others d) j) eqn:E2; [|intros [= <- <-]; by left]. cbn [negb].
  destruct (bool_decide (evaluateAgentJobEligibility _ _ _ _ _ = _)) eqn:E3; [|intros [= <- <-]; by left].
  apply bool_decide_eq_true in E3. cbn [negb].
  assert (jobAuthority (others d) j || negb (bool_decide (j_state j = pending)) = true) as E1'.
  { by destruct (bool_decide (j_state j = pending)), (jobAuthority (others d) j). }
  destruct (if is_material j then _ else _) as [[]|code];
    [|case_match; [|done]; intros [= <- <-]; by left].
  intros H. tx_step H d1 trust Et. apply (revalidate_ok k e (c_id c)) in Et; [|done|done].
  destruct trust as [trust|]; [|by injection H as <- <-].
  destruct (approval_void j) as [[hash|]|] eqn:Ev; [| |done].
  - tx_step H d2 u2 Ei. injection H as <- <-.
    apply (invalidate_ok (db_now k) e (c_id c)) in Ei; [|by rewrite Et|done]. by rewrite Et in Ei.
  - case_bool_decide as Hop; [|by injection H as <- <-].
    destruct (resolveDeployPublicCertificate (others d1) j) as [pc|[]]; try done; [by injection H as <- <-|].
    tx_step H d2 j' Eu. injection H as <- <-. apply update_job_ok in Eu as (j0 & Hj0 & Hup & Hjobs & _).
    rewrite Et, Hj in Hj0. injection Hj0 as <-. right. exists j'. rewrite Hjobs, Et. split; [done|]. split.
    + eapply failed_move; [| |exact Hup]; [done|by eapply dispatchable_live].
    + eapply not_renew; [exact Hup|]. change (j_operation j ≠ renew). by rewrite Hop.
Qed.
Lemma dispatch_ok k e c cid rnd v j needs d d' x : jobs d !! j_id j = Some j →
  dispatch_candidate k e c cid rnd v j needs d = Ok (d', x) →
  jobs d' = <[j_id j := dd_job x]> (jobs d) ∧ updates (claimed_row k e (c_id c) cid) j (dd_job x).
Proof.
  intros Hj H. unfold dispatch_candidate in H. tx_step H d1 updated Eu.
  apply update_job_ok in Eu as (j0 & Hj0 & Hup & Hjobs & _). rewrite Hj in Hj0. injection Hj0 as <-.
  tx_quiet H d2 enrollment. tx_step H d3 signed Es. apply quiet_sign in Es. tx_quiet H d4 u4.
  injection H as <- <-. cbn [dd_job]. split; [congruence|done].
Qed.

Definition job_claim (j : job) : string := default EmptyString (claim_id (j_claim j)).
Definition claim_labels (c : caller) (xs : list dispatched) : list label :=
  map (λ x, LClaim (j_id (dd_job x)) (c_id c) (job_claim (dd_job x))) xs.
Lemma updates_claimed k e a cid j j' : updates (claimed_row k e a cid) j j' →
  j_id j' = j_id j ∧ job_claim j' = cid.
Proof. by intros [->|[reason ->]]. Qed.

(** The rows still to be looked at are as they were selected. *)
Definition pending_rows (now : Z) (a : string) (rows : list job) (m : gmap string job) : Prop :=
  NoDup (map j_id rows) ∧ Forall (λ j, m !! j_id j = Some j ∧ dispatchable now a j) rows.
Lemma pending_rows_insert now a j j' rows m : pending_rows now a (j :: rows) m →
  pending_rows now a rows (<[j_id j := j']> m).
Proof.
  intros [Hnd Hf]. cbn in Hnd. apply NoDup_cons in Hnd as [Hj Hnd]. apply Forall_cons in Hf as [_ Hf].
  split; [done|]. rewrite Forall_forall in *. intros x Hx. destruct (Hf x Hx) as [Hm Hd]. split; [|done].
  rewrite lookup_insert_ne; [done|]. intros E. apply Hj. rewrite E. by apply list_elem_of_fmap_2.
Qed.
Lemma pending_rows_tail now a j rows m : pending_rows now a (j :: rows) m → pending_rows now a rows m.
Proof. intros [Hnd Hf]. split; [by inversion Hnd|by inversion Hf]. Qed.

(** Induction over the loop: a refused row, or a row that is given out. *)
Lemma claim_rows_ind k e c a v fresh (P : list job → db → list dispatched → db → Prop) :
  (∀ d, P [] d [] d) →
  (∀ j rows d d1 xs d', jobs d !! j_id j = Some j → dispatchable (db_now k) (c_id c) j → j_id j ∉ map j_id rows →
     admit_candidate k e c a j d = Ok (d1, None) → refused_moves (db_now k) e j (jobs d) (jobs d1) →
     P rows d1 xs d' → P (j :: rows) d xs d') →
  (∀ j rows d d1 d2 needs x xs d', jobs d !! j_id j = Some j → dispatchable (db_now k) (c_id c) j →
     j_id j ∉ map j_id rows →
     admit_candidate k e c a j d = Ok (d1, Some needs) → jobs d1 = jobs d →
     dispatch_candidate k e c (fresh (j_id j)).1 (fresh (j_id j)).2 v j needs d1 = Ok (d2, x) →
     jobs d2 = <[j_id j := dd_job x]> (jobs d) → updates (claimed_row k e (c_id c) (fresh (j_id j)).1) j (dd_job x) →
     P rows d2 xs d' → P (j :: rows) d (x :: xs) d') →
  ∀ rows d d' xs, pending_rows (db_now k) (c_id c) rows (jobs d) → claim_rows k e c a v fresh rows d = Ok (d', xs) →
    P rows d xs d'.
Proof.
  intros P0 P1 P2 rows. induction rows as [|j rows IH]; intros d d' xs Hp H; cbn [claim_rows] in H.
  { injection H as <- <-. apply P0. }
  pose proof Hp as [Hnd Hf]. apply Forall_cons in Hf as [[Hj Hd] _]. cbn in Hnd. apply NoDup_cons in Hnd as [Hni _].
  tx_step H d1 needs Ea. pose proof (admit_ok k e c a j d d1 needs Hj Hd Ea) as Hok. destruct needs as [needs|].
  - destruct Hok as (Ej & _). tx_step H d2 x Ex. tx_step H d3 ys Ey. injection H as <- <-.
    pose proof Ex as [Ejx Hup]%dispatch_ok; [|by rewrite Ej]. rewrite Ej in Ejx.
    eapply P2; try done. apply IH; [|done]. rewrite Ejx. by apply pending_rows_insert.
  - eapply P1; try done. apply IH; [|done].
    destruct Hok as [->|(j' & -> & _)]; [by eapply pending_rows_tail|by apply pending_rows_insert].
Qed.
Lemma claim_rows_moves k e c a v fresh rows d d' xs :
  pending_rows (db_now k) (c_id c) rows (jobs d) → claim_rows k e c a v fresh rows d = Ok (d', xs) →
  moves (db_now k) e (jobs d) (claim_labels c xs) (jobs d').
Proof.
  apply (claim_rows_ind k e c a v fresh
    (λ _ d xs d', moves (db_now k) e (jobs d) (claim_labels c xs) (jobs d'))); clear.
  - constructor.
  - intros j rows d d1 xs d' Hj _ _ _ [->|(j' & -> & Hm & _)] IH; [done|].
    change (claim_labels c xs) with ([] ++ claim_labels c xs). by eapply moves_one.
  - intros j rows d d1 d2 needs x xs d' Hj Hd _ Ha Ej _ Ejx Hup IH.
    apply (admit_ok k e c a j d d1 (Some needs) Hj Hd) in Ha as (_ & Hv & _). rewrite Ejx in IH.
    cbn [claim_labels map]. change (?l :: ?ls) with ([l] ++ ls). eapply moves_one; [exact Hj| |exact IH].
    destruct (updates_claimed _ _ _ _ _ _ Hup) as [Hid Hcid]. rewrite Hid, Hcid.
    destruct Hd. by apply move_claim with k.
Qed.

(** The rows a SELECT returns: distinct, as they are in the table, and
    satisfying its condition. *)
Lemma table_rows (m : gmap string job) : ids_ok m →
  map j_id (map snd (map_to_list m)) = map fst (map_to_list m) ∧
  Forall (λ j, m !! j_id j = Some j) (map snd (map_to_list m)).
Proof.
  intros Hids.
  assert (H : Forall (λ p, m !! p.1 = Some p.2) (map_to_list m)).
  { apply Forall_forall. intros [id j] Hp. by apply elem_of_map_to_list in Hp. }
  induction H as [|[id j] l Hj _ [IH1 IH2]]; [done|]. cbn in *. pose proof (Hids _ _ Hj) as Hid.
  split; [by rewrite Hid, IH1|]. constructor; [by rewrite Hid|done].
Qed.
Lemma filter_map_sublist {A B} (f : A → B) (p : A → bool) l : map f (List.filter p l) `sublist_of` map f l.
Proof. induction l as [|x l IH]; cbn; [done|]. destruct (p x); by constructor. Qed.
Lemma chosen_rows (le : job → job → Prop) `{!∀ a b, Decision (le a b)} (p : job → bool) n (m : gmap string job) :
  ids_ok m →
  let rows := take n (merge_sort le (List.filter p (map snd (map_to_list m)))) in
  NoDup (map j_id rows) ∧ Forall (λ j, m !! j_id j = Some j ∧ p j = true) rows.
Proof.
  intros Hids. cbv zeta. destruct (table_rows m Hids) as [Hk Hf].
  pose proof (merge_sort_Permutation le (List.filter p (map snd (map_to_list m)))) as Hperm. split.
  - rewrite <- firstn_map. eapply sublist_NoDup; [|apply sublist_take].
    apply (Permutation_map j_id) in Hperm. rewrite Hperm.
    eapply sublist_NoDup with (map j_id (map snd (map_to_list m))).
    + rewrite Hk. apply NoDup_fst_map_to_list.
    + apply filter_map_sublist.
  - apply Forall_take. rewrite Hperm. rewrite Forall_forall in *. intros j Hj.
    apply list_elem_of_In, filter_In in Hj as [Hj Hp]. split; [|done]. apply Hf. by apply list_elem_of_In.
Qed.
Lemma selectable_dispatchable w now c o j : selectable w now c o j = true → dispatchable now (c_id c) j.
Proof.
  unfold selectable. intros H. repeat (apply andb_prop in H as [H ?]).
  split; [by eapply bool_decide_eq_true|].
  match goal with H : waiting _ _ _ || reclaimable _ _ _ = true |- _ => apply orb_prop in H as [H|H] end;
    [left|by right].
  unfold waiting in *. repeat match goal with H : _ && _ = true |- _ => apply andb_prop in H as [H ?] end.
  by eapply bool_decide_eq_true.
Qed.
Lemma candidates_pending busy now c o n d : ids_ok (jobs d) →
  pending_rows now (c_id c) (select_candidates busy now c o n d) (jobs d).
Proof.
  intros Hids. destruct (chosen_rows created_le (λ j, negb (busy (j_id j)) && selectable (others d) now c o j) n
    (jobs d) Hids) as [Hnd Hf].
  split; [exact Hnd|]. eapply Forall_impl; [exact Hf|]. cbn. intros j [Hj [_ Hp]%andb_prop].
  split; [done|by eapply selectable_dispatchable].
Qed.
Lemma claim_moves k e busy fresh c envelope body d d' xs : ids_ok (jobs d) →
  claimJobs k e busy fresh c envelope body d = Ok (d', xs) →
  moves (db_now k) e (jobs d) (claim_labels c xs) (jobs d').
Proof.
  intros Hids H. unfold claimJobs in H. tx_quiet H d1 u1. tx_check H Hcompat. tx_quiet H d2 admitted.
  assert (Q : ∀ d3, jobs d3 = jobs d → (mret [] : tx (list dispatched)) d3 = Ok (d', xs) →
    moves (db_now k) e (jobs d) (claim_labels c xs) (jobs d')).
  { intros d3 E3 [= <- <-]. rewrite E3. constructor. }
  destruct admitted; cbn [negb] in H; [|by apply (Q d2); [congruence|]].
  tx_step H d3 u3 Et. apply quiet_touch in Et.
  destruct (poll_actions body) as [|action actions]; [by apply (Q d3); [congruence|]|].
  tx_step H d4 caps Ec. injection Ec as <- <-. tx_step H d5 rows Er. injection Er as <- <-.
  assert (jobs d3 = jobs d) as Ej by congruence. rewrite <- Ej.
  eapply claim_rows_moves; [|exact H]. apply candidates_pending. by rewrite Ej.
Qed.

(** The reaper: an expired lease is held, and its row is as selected. *)
Lemma expired_live now j : expired_lease now j = true → in_lease (j_state j) = true.
Proof. unfold expired_lease. by intros [[? _]%andb_prop _]%andb_prop. Qed.
Lemma end_job_ok now e j f s code o trust d d' u : jobs d !! j_id j = Some j →
  in_lease (j_state j) = true → j_state (f j) = s → isTerminalJobStatus s = true → kept (f j) j →
  end_job j f s code o trust d = Ok (d', u) →
  ∃ j', jobs d' = <[j_id j := j']> (jobs d) ∧ move now e j [] j'.
Proof.
  intros Hj Hl Hs Ht Hk H. unfold end_job in H. tx_quiet H d1 u1. tx_step H d2 j' Eu.
  apply update_job_ok in Eu as (j0 & Hj0 & Hup & Hjobs & _). rewrite E, Hj in Hj0. injection Hj0 as <-.
  tx_quiet H d3 u3. tx_quiet H d4 u4. tx_quiet H d5 u5. apply quiet_alert in H.
  exists j'. split; [by rewrite H, E2, E1, E0, Hjobs, E|].
  apply move_end with f; try done; [by left|by rewrite Hs].
Qed.
Lemma reap_row_ok e now off grace j d d' x : jobs d !! j_id j = Some j → expired_lease now j = true →
  reap_row now off grace j d = Ok (d', x) →
  jobs d' = jobs d ∨ ∃ j', jobs d' = <[j_id j := j']> (jobs d) ∧ move now e j [] j'.
Proof.
  intros Hj Hx%expired_live. unfold reap_row. cbv zeta.
  destruct (agent_alive now off d j && negb (past_hard_grace now grace j)); [intros [= <- <-]; by left|].
  destruct (hasRetryBudget j) eqn:Eb; [|destruct (sideEffectsPossible j)].
  - intros H. tx_quiet H d1 u1. tx_step H d2 j' Eu. apply update_job_ok in Eu as (j0 & Hj0 & Hup & Hjobs & _).
    rewrite E, Hj in Hj0. injection Hj0 as <-. tx_quiet H d3 u3. injection H as <- <-.
    right. exists j'. split; [congruence|]. by apply move_requeue.
  - intros H. tx_step H d1 u1 E. injection H as <- <-. right. eapply end_job_ok in E; try done. split; try done. by right.
  - intros H. tx_step H d1 u1 E. injection H as <- <-. right. eapply end_job_ok in E; try done. split; try done. by right.
Qed.
(** A loop whose body changes at most the row it is at. *)
Lemma rows_silent now e (rows : list job) (step : job → tx unit) (P : job → Prop) d d' u :
  NoDup (map j_id rows) → Forall (λ j, jobs d !! j_id j = Some j ∧ P j) rows →
  (∀ j d d' u, jobs d !! j_id j = Some j → P j → step j d = Ok (d', u) →
     jobs d' = jobs d ∨ ∃ j', jobs d' = <[j_id j := j']> (jobs d) ∧ move now e j [] j') →
  each step rows d = Ok (d', u) → moves now e (jobs d) [] (jobs d').
Proof.
  intros Hnd Hf Hstep. revert d Hf. induction rows as [|j rows IH]; intros d Hf H; cbn [each] in H.
  { injection H as <- <-. constructor. }
  apply NoDup_cons in Hnd as [Hj Hnd]. apply Forall_cons in Hf as [[Hm HP] Hf].
  tx_step H d1 u1 Ej. destruct (Hstep j d d1 u1 Hm HP Ej) as [E|(j' & E & Hmove)].
  - rewrite <- E. apply IH; try done. by rewrite E.
  - change (@nil label) with (@nil label ++ []). eapply moves_one; [exact Hm|exact Hmove|].
    rewrite <- E. apply IH; try done. rewrite E. rewrite Forall_forall in *. intros x Hx.
    rewrite lookup_insert_ne; [by apply Hf|]. intros Eid. apply Hj. rewrite Eid. by apply list_elem_of_fmap_2.
Qed.
Lemma reap_rows_each now off grace rows d d' xs : reap_rows now off grace rows d = Ok (d', xs) →
  each (λ j, _ ← reap_row now off grace j; mret tt) rows d = Ok (d', tt).
Proof.
  revert d xs. induction rows as [|j rows IH]; intros d xs H; cbn [reap_rows] in H; [by injection H as <- <-|].
  tx_step H d1 x Ex. tx_step H d2 ys Ey. injection H as <- <-. cbn [each]. apply tx_bind_ok.
  exists d1, tt. split; [|by eapply IH]. apply tx_bind_ok. by exists d1, x.
Qed.
Lemma reap_moves k e busy n off grace d d' xs : ids_ok (jobs d) →
  reapExpiredLeases k busy n off grace d = Ok (d', xs) → moves (db_now k) e (jobs d) [] (jobs d').
Proof.
  intros Hids H. unfold reapExpiredLeases in H. tx_step H d1 rows Er. injection Er as <- <-.
  apply reap_rows_each in H.
  destruct (chosen_rows lease_le (λ j, negb (busy (j_id j)) && expired_lease (db_now k) j) n _ Hids) as [Hnd Hf].
  eapply (rows_silent _ _ _ _ (λ j, expired_lease (db_now k) j = true)); [exact Hnd| | |exact H].
  - eapply Forall_impl; [exact Hf|]. cbn. by intros j [Hj [_ Hp]%andb_prop].
  - intros j d2 d3 [] Hj Hp Ej. tx_step Ej d4 x Ex. injection Ej as <-. by eapply reap_row_ok.
Qed.

(** Forced retirement. *)
Lemma fence_update_ok now e reason s f j d d' u : jobs d !! j_id j = Some j → fenced now reason s j = true →
  s ∈ [claimed; running] → isTerminalJobStatus (j_state (f j)) = true → kept (f j) j →
  (_ ← update_job (j_id j) f; mret tt) d = Ok (d', u) →
  jobs d' = jobs d ∨ ∃ j', jobs d' = <[j_id j := j']> (jobs d) ∧ move now e j [] j'.
Proof.
  intros Hj Hf Hs Ht Hk H. tx_step H d1 j' Eu. injection H as <- _.
  apply update_job_ok in Eu as (j0 & Hj0 & Hup & Hjobs & _). rewrite Hj in Hj0. injection Hj0 as <-.
  right. exists j'. split; [done|]. apply move_end with f; try done. left.
  unfold fenced in Hf. apply andb_prop in Hf as [[_ Hst]%andb_prop _]. apply bool_decide_eq_true in Hst.
  rewrite Hst. unfold in_lease. apply elem_of_cons in Hs as [->|Hs]; [done|]. apply list_elem_of_singleton in Hs as ->. done.
Qed.
Lemma fence_rows now s a d : ids_ok (jobs d) →
  NoDup (map j_id (fence_selected now a s d)) ∧
  Forall (λ j, jobs d !! j_id j = Some j ∧ fenced now a s j = true) (fence_selected now a s d).
Proof.
  intros Hids. destruct (table_rows _ Hids) as [Hk Hf]. unfold fence_selected. split.
  - eapply sublist_NoDup; [|apply filter_map_sublist]. rewrite Hk. apply NoDup_fst_map_to_list.
  - rewrite Forall_forall in *. intros j [Hj Hp]%list_elem_of_In%filter_In. split; [|done].
    apply Hf. by apply list_elem_of_In.
Qed.
Lemma quiet_each {A} (f : A → tx unit) l : (∀ x, quiet (f x)) → quiet (each f l).
Proof. intros Hf. induction l as [|x l IH]; cbn; quiet_tac. Qed.
(** One of its two UPDATEs. *)
Lemma fence_pass now e a s f d d' u : ids_ok (jobs d) → s ∈ [claimed; running] →
  (∀ j, isTerminalJobStatus (j_state (f j)) = true ∧ kept (f j) j) →
  each (λ j, _ ← update_job (j_id j) f; mret tt) (fence_selected now a s d) d = Ok (d', u) →
  moves now e (jobs d) [] (jobs d').
Proof.
  intros Hids Hs Hf H. destruct (fence_rows now s a d Hids) as [Hnd Hrows].
  eapply (rows_silent _ _ _ _ (λ j, fenced now a s j = true)); [exact Hnd|exact Hrows| |exact H].
  intros j d1 d2 u2 Hj Hp Hu. destruct (Hf j). by eapply fence_update_ok.
Qed.
Lemma fence_moves k e a reason d d' u : ids_ok (jobs d) →
  fenceAgentInFlightWork k a reason d = Ok (d', u) → moves (db_now k) e (jobs d) [] (jobs d').
Proof.
  intros Hids H. unfold fenceAgentInFlightWork in H. cbv zeta in H.
  tx_step H d1 held Er. injection Er as <- <-. tx_step H d2 u2 E2. tx_step H d3 started Er. injection Er as <- <-.
  tx_step H d4 u4 E4. tx_step H d5 u5 E5.
  assert (jobs d' = jobs d4) as ->.
  { match type of E5 with ?m _ = _ => assert (Q5 : quiet m) by (apply quiet_each; quiet_tac) end.
    match type of H with ?m _ = _ => assert (Q6 : quiet m) by (apply quiet_each; quiet_tac) end.
    apply Q5 in E5. apply Q6 in H. congruence. }
  apply (fence_pass (db_now k) e) in E2; [|done|by left|by split; [|split; first [done|left]]].
  apply (fence_pass (db_now k) e) in E4; [|by eapply moves_ids|by right; left|by split; [|split; first [done|left]]].
  exact (moves_app _ _ _ _ _ _ _ E2 E4).
Qed.
End handlers.

(** A retry reopens its job. *)
Lemma lane_retry_moves {sv : Services} {ot : Others} {cr : Crypto} now e ws jobId d d' r : ids_ok (jobs d) →
  retryDistributionJob ws jobId d = Ok (d', r) → moves now e (jobs d) [LRetry (rt_jobId r)] (jobs d').
Proof.
  intros Hids H. unfold retryDistributionJob in H. destruct (normalizeDistributionId jobId) as [id|]; [|done].
  tx_quiet H d1 admitted. tx_check H Had. tx_step H d2 found Ef. injection Ef as <- <-.
  destruct (jobs d1 !! id) as [j|] eqn:Hj; [|done].
  destruct (bool_decide _ && is_material j) eqn:Em; [|done]. apply andb_prop in Em as [_ Hm].
  tx_quiet H d3 u3. tx_check H Hr. apply andb_prop in Hr as [Hr Ha%Z.ltb_lt]. tx_quiet H d4 u4.
  destruct (approval_stale j) as [stale|]; [|done]. tx_check H Hst. tx_step H d5 always Ea. injection Ea as <- <-.
  tx_step H d6 j' Eu. apply update_job_ok in Eu as (j0 & Hj0 & Hup & Hjobs & _).
  tx_quiet H d7 u7. injection H as <- <-. cbn [rt_jobId].
  rewrite E in Hj. pose proof (Hids _ _ Hj) as Hid. rewrite E1, E0, E, Hj in Hj0. injection Hj0 as <-.
  rewrite E2, Hjobs, E1, E0, E. eapply moves_single; [done|]. rewrite <- Hid.
  eapply move_retry; [done|done|done| |exact Hup]. case_match; [by left|by right; left].
Qed.

(** * The rows of a poll *)

(** The sign of life changes nothing that decides on the agent. *)
Lemma polling_agent_touched now c body (m : gmap string agent_row) :
  polling_agent c (default no_caps (alter (seen_row now (poll_actions body) (poll_dns body)) (c_id c) m !! c_id c)) body
  = polling_agent c (default no_caps (m !! c_id c)) body.
Proof.
  rewrite lookup_alter_eq. destruct (m !! c_id c) as [a|]; [|done]. cbn. unfold seen_row.
  case_bool_decide; [done|]. unfold polling_agent. cbn. by destruct (poll_dns body).
Qed.
Lemma sequence_agent {ot : Others} id envelope d d' u c body : enforceAgentSequence id envelope d = Ok (d', u) →
  polling_agent c (default no_caps (agents d' !! id)) body = polling_agent c (default no_caps (agents d !! id)) body.
Proof.
  unfold enforceAgentSequence. destruct (envelopeSequence envelope) as [n|].
  - destruct (agents d !! id) as [a|] eqn:Ha; [|done]. case_match; [|done]. intros [= <- <-].
    cbn. by rewrite lookup_insert_eq.
  - cbv zeta. case_match; [done|]. by intros [= <- <-].
Qed.
Lemma sequence_signing {ot : Others} id envelope d d' u : enforceAgentSequence id envelope d = Ok (d', u) →
  signing d' = signing d.
Proof. unfold enforceAgentSequence. repeat case_match; try done; by intros [= <- <-]. Qed.
Lemma sequence_others {ot : Others} id envelope d d' u : enforceAgentSequence id envelope d = Ok (d', u) →
  others d' = others d.
Proof. unfold enforceAgentSequence. repeat case_match; try done; by intros [= <- <-]. Qed.
Lemma admission_others {ot : Others} ws d d' (b : bool) :
  service (λ w, match workspaceAdmits w ws with Ok b => Ok (w, b) | Err code => Err code end) d = Ok (d', b) →
  others d' = others d.
Proof. unfold service. destruct (workspaceAdmits _ _) as [x|]; [|done]. by intros [= <- <-]. Qed.
Lemma service_frame {ot : Others} {A} (f : W → result string (W * A)) d d' a : service f d = Ok (d', a) →
  agents d' = agents d ∧ signing d' = signing d.
Proof. unfold service. destruct (f _) as [[w x]|]; [|done]. by intros [= <- <-]. Qed.
(** A poll that gives out jobs runs over rows it selected. *)
Lemma poll_rows {sv : Services} {ot : Others} {cr : Crypto} k e busy fresh c envelope body d d' xs :
  claimJobs k e busy fresh c envelope body d = Ok (d', xs) →
  xs = [] ∧ jobs d' = jobs d ∨ ∃ o v d3, jobs d3 = jobs d ∧ signing d3 = signing d ∧ others d3 = others d ∧
    claim_rows k e c (polling_agent c (default no_caps (agents d !! c_id c)) body) v fresh
      (select_candidates busy (db_now k) c o (claim_maxJobs body) d3) d3 = Ok (d', xs).
Proof.
  intros H. unfold claimJobs in H.
  tx_step H d1 u1 Es. pose proof (sequence_agent _ _ _ _ _ c body Es) as Ha. pose proof (sequence_signing _ _ _ _ _ Es) as Hs.
  pose proof (sequence_others _ _ _ _ _ Es) as Ho. apply quiet_sequence in Es.
  tx_check H Hc. tx_step H d2 admitted Ew. destruct (service_frame _ _ _ _ Ew) as [Ha2 Hs2].
  pose proof (admission_others _ _ _ _ Ew) as Ho2. apply quiet_service in Ew.
  assert (Hnil : ∀ d3, jobs d3 = jobs d → (mret [] : tx (list dispatched)) d3 = Ok (d', xs) → xs = [] ∧ jobs d' = jobs d)
    by (by intros d3 Ed [= <- <-]).
  destruct admitted; cbn [negb] in H; [|left; eapply Hnil, H; congruence]. tx_step H d3 u3 Et.
  destruct (decide (poll_actions body = [])) as [Ea|Hne].
  { rewrite Ea in H. left. injection Et as <- _. eapply Hnil, H. cbn. congruence. }
  assert (Hm : ∀ A (x y : A), match poll_actions body with [] => x | _ => y end = y)
    by (intros; by destruct (poll_actions body)).
  rewrite Hm in H. injection Et as <- _. tx_step H d4 caps Ec. injection Ec as <- <-. tx_step H d5 rows Er. injection Er as <- <-.
  right. cbn [agents set_agents] in H. rewrite polling_agent_touched, Ha2, Ha in H.
  eexists _, _, _. split_and!; [| | |exact H]; cbn; congruence.
Qed.

(** What a SELECT of the poll returns. *)
Lemma candidates_of {sv : Services} {ot : Others} {cr : Crypto} busy now c o n d j : ids_ok (jobs d) →
  j ∈ select_candidates busy now c o n d →
  busy (j_id j) = false ∧ jobs d !! j_id j = Some j ∧ r_workspaceId (j_row j) = c_workspaceId c.
Proof.
  intros Hids Hj. destruct (chosen_rows created_le (λ j, negb (busy (j_id j)) && selectable (others d) now c o j) n
    (jobs d) Hids) as [_ Hf].
  rewrite Forall_forall in Hf. destruct (Hf j Hj) as [Hm [Hb Hs]%andb_prop]. split; [by apply negb_true_iff|].
  split; [done|]. unfold selectable in Hs. repeat (apply andb_prop in Hs as [Hs _]). by eapply bool_decide_eq_true.
Qed.
