(* ===== verification/ClaimSafety.v ===== *)
(** What the claim protocol guarantees, whatever the agents, the reaper, the
    operators and the rest of the program do in between: until an operator
    retries it, a job has effects under one claim only; and it is given out a
    bounded number of times. *)
From stdpp Require Import relations.
From S2P Require Import Prelude Dates Json Jobs JobFields RenewalCapacity Signing JobSigning.
From S2P Require Import JobRequest Eligibility AlertPolicy Dispatch Approvals Ingest Claim Reaper Retry.
From S2P Require Import ClaimExample ClaimSystem.
Open Scope Z_scope.

(** * The system *)

Section system.
Context {sv : Services} {ot : Others} {cr : Crypto} (e : environment).

(** The reply's labels, of a committed transaction. *)
Definition labels_of {A} (f : A → list label) (r : result dispatch_error A) : list label :=
  match r with Ok a => f a | Err _ => [] end.
Definition approve_labels (seen : job) (user : string) (r : result approval_error unit) : list label :=
  match r with Ok _ => [LApprove (j_id seen) user] | Err _ => [] end.
(** One transaction at database time [t], of any request with any arguments;
    other code changes one row at a time, inserts a row, or leaves the job
    table alone.  The id of an authenticated agent is not empty. *)
Inductive sys_step (t : Z) : db → list label → db → Prop :=
| sys_claim k busy fresh c envelope body d d' r : db_now k = t →
    withTransaction (claimJobs k e busy fresh c envelope body) d = (d', r) →
    sys_step t d (labels_of (claim_labels c) r) d'
| sys_renew k c jobId claimId envelope d d' r : db_now k = t → c_id c ≠ EmptyString →
    withTransaction (renewJobLease k e c jobId claimId envelope) d = (d', r) →
    sys_step t d (labels_of (λ x, [LRenew (lr_jobId x) (c_id c) (lr_claimId x)]) r) d'
| sys_result k c envelope body d d' r : db_now k = t → c_id c ≠ EmptyString →
    withTransaction (ingestResult k c envelope body) d = (d', r) →
    sys_step t d (labels_of (result_labels c body) r) d'
| sys_reap k busy n off d d' r : db_now k = t →
    withTransaction (reapExpiredLeases k busy n off (leaseHardGraceMs e)) d = (d', r) → sys_step t d [] d'
| sys_fence k a reason d d' r : db_now k = t →
    withTransaction (fenceAgentInFlightWork k a reason) d = (d', r) → sys_step t d [] d'
| sys_approve k seen user reviewHash d d' r : db_now k = t →
    approveJob k seen user reviewHash d = (d', r) → sys_step t d (approve_labels seen user r) d'
| sys_reject k jobId ws user reason d d' r : db_now k = t →
    rejectJob k jobId ws user reason d = (d', r) → sys_step t d [] d'
| sys_retry ws jobId d d' r :
    withTransaction (retryDistributionJob ws jobId) d = (d', r) →
    sys_step t d (labels_of (λ x, [LRetry (rt_jobId x)]) r) d'
| sys_controlled id j ls j' d d' : jobs d !! id = Some j → controlled j ls j' → jobs d' = <[id := j']> (jobs d) →
    sys_step t d ls d'
| sys_other id j j' d d' : jobs d !! id = Some j → left_alone j j' → jobs d' = <[id := j']> (jobs d) →
    sys_step t d [] d'
| sys_insert id created r d d' : jobs d !! id = None → r_id r = id →
    jobs d' = <[id := fresh_job created r]> (jobs d) → sys_step t d [] d'
| sys_elsewhere d d' : jobs d' = jobs d → sys_step t d [] d'.

Inductive sys_run : db → list label → db → Prop :=
| sys_nil d : sys_run d [] d
| sys_cons t d ls d1 ls' d' : sys_step t d ls d1 → sys_run d1 ls' d' → sys_run d (ls ++ ls') d'.

(** A property of moves is a property of runs. *)
Lemma tx_moves {A} (m : tx A) t f d d' r : (∀ a, m d = Ok (d', a) → moves t e (jobs d) (f a) (jobs d')) →
  withTransaction m d = (d', r) → moves t e (jobs d) (labels_of f r) (jobs d').
Proof.
  intros Hm H. destruct r as [a|err].
  - apply Hm. by apply withTransaction_ok.
  - apply withTransaction_err in H as ->. constructor.
Qed.
(** An approval is an UPDATE of the row it names, as decided on the row seen. *)
Lemma approve_ok k seen user h d d' r : approveJob k seen user h d = (d', r) →
  match r with
  | Ok _ => ∃ hash intent j j', may_approve (others d) seen user h = Ok (hash, intent) ∧
      jobs d !! j_id seen = Some j ∧ unchanged seen j = true ∧
      updates (approved_row (db_now k) hash intent) j j' ∧ jobs d' = <[j_id seen := j']> (jobs d)
  | Err _ => d' = d
  end.
Proof.
  unfold approveJob.
  destruct (may_approve _ _ _ _) as [[hash intent]|] eqn:Hma; [|by intros [= <- <-]].
  destruct (jobs d !! j_id seen) as [current|] eqn:Hj; [|by intros [= <- <-]].
  destruct (unchanged seen current && _) eqn:Hu; [|by intros [= <- <-]]. apply andb_prop in Hu as [Hu _].
  destruct (withTransaction _ d) as [d1 [u|err]] eqn:E; [|intros [= <- <-]; by apply withTransaction_err in E].
  apply withTransaction_ok in E. intros [= <- <-]. tx_step E d2 j' Eu. tx_quiet E d3 u3. tx_quiet E d4 u4.
  apply quiet_log in E. apply update_job_ok in Eu as (j & Hj0 & Hup & Hjobs & _). rewrite Hj in Hj0.
  injection Hj0 as <-. exists hash, intent, current, j'. do 4 (split; [done|]). congruence.
Qed.
Lemma approve_moves k seen user h d d' r : ids_ok (jobs d) → approveJob k seen user h d = (d', r) →
  moves (db_now k) e (jobs d) (approve_labels seen user r) (jobs d').
Proof.
  intros Hids H%approve_ok. destruct r as [u|err]; [|subst d'; constructor].
  destruct H as (hash & intent & j & j' & Hma & Hj & Hu & Hup & ->). eapply moves_single; [done|].
  cbn [approve_labels]. rewrite <- (Hids _ _ Hj).
  eapply move_approve; [|exact Hma|exact Hu|by rewrite (Hids _ _ Hj)|exact Hup].
  unfold unchanged in Hu. repeat (apply andb_prop in Hu as [Hu _]). by eapply bool_decide_eq_true.
Qed.
Lemma reject_moves k id ws user reason d d' r : ids_ok (jobs d) → rejectJob k id ws user reason d = (d', r) →
  moves (db_now k) e (jobs d) [] (jobs d').
Proof.
  intros Hids. unfold rejectJob. destruct (jobs d !! id) as [j|] eqn:Hj; [|intros [= <- <-]; constructor].
  destruct (negb _); [intros [= <- <-]; constructor|].
  destruct (bool_decide (j_state j = pending_approval)) eqn:Es; cbn [negb]; [|intros [= <- <-]; constructor].
  destruct (withTransaction _ d) as [d1 [u|err]] eqn:E; [|intros [= <- <-];
    apply withTransaction_err in E as ->; constructor].
  apply withTransaction_ok in E. intros [= <- <-]. tx_step E d2 j' Eu. tx_quiet E d3 u3. tx_quiet E d4 u4.
  apply quiet_log in E. apply update_job_ok in Eu as (j0 & Hj0 & Hup & Hjobs & _). rewrite Hj in Hj0.
  injection Hj0 as <-. rewrite E, E1, E0, Hjobs. eapply moves_single; [done|].
  eapply move_reject; [by apply bool_decide_eq_true in Es|exact Hup].
Qed.
Lemma step_moves t d ls d' : ids_ok (jobs d) → sys_step t d ls d' → moves t e (jobs d) ls (jobs d').
Proof.
  intros Hids. destruct 1 as [k busy fresh c envelope body d d' r Hk H|k c jobId claimId envelope d d' r Hk Hc H|
    k c envelope body d d' r Hk Hc H|k busy n off d d' r Hk H|k a reason d d' r Hk H|k seen user h d d' r Hk H|
    k id ws user reason d d' r Hk H|ws jobId d d' r H|id j ls j' d d' Hj Hn E|id j j' d d' Hj Hl E|id created r d d' Hj Hr E|d d' E];
    try rewrite E; try rewrite <- Hk.
  - eapply tx_moves; [|exact H]. intros xs. by apply claim_moves.
  - eapply tx_moves; [|exact H]. intros x. by apply renew_moves.
  - eapply tx_moves; [|exact H]. intros x. by apply ingest_moves.
  - replace [] with (labels_of (λ _, []) r) by (by destruct r). eapply tx_moves; [|exact H].
    intros x. by apply reap_moves.
  - replace [] with (labels_of (λ _, []) r) by (by destruct r). eapply tx_moves; [|exact H].
    intros x. by apply fence_moves.
  - by eapply approve_moves.
  - by eapply reject_moves.
  - eapply tx_moves; [|exact H]. intros x. by apply lane_retry_moves.
  - eapply moves_single; [done|by apply move_controlled].
  - eapply moves_single; [done|by apply move_other].
  - eapply moves_new; [done|done|constructor].
  - constructor.
Qed.

(** Induction over the moves of a run. *)
Lemma run_moves_ind (P : gmap string job → list label → gmap string job → Prop) :
  (∀ m, P m [] m) →
  (∀ t m id j ls j' ls' m', m !! id = Some j → j_id j = id → move t e j ls j' →
     P (<[id := j']> m) ls' m' → P m (ls ++ ls') m') →
  (∀ m id r t ls m', m !! id = None → r_id r = id → P (<[id := fresh_job t r]> m) ls m' → P m ls m') →
  ∀ d ls d', ids_ok (jobs d) → sys_run d ls d' → P (jobs d) ls (jobs d').
Proof.
  intros H0 H1 H2.
  assert (Hm : ∀ t m ls m1, moves t e m ls m1 → ids_ok m → ∀ ls' m', P m1 ls' m' → P m (ls ++ ls') m').
  { induction 1 as [|m id j ls j' ls1 m1 Hj Hs Hms IH|m id r tt ls m1 Hj Hr Hms IH]; intros Hids ls' m' HP; [done|..].
    - rewrite <- (assoc_L app). eapply H1; [done|by apply Hids|done|]. apply IH; [|done].
      apply ids_ok_insert; [done|]. rewrite (move_id _ _ _ _ _ Hs). by apply Hids.
    - eapply H2; [done..|]. apply IH; [|done]. by apply ids_ok_insert. }
  intros d ls d' Hids Hr. induction Hr as [d|t d ls d1 ls' d' Hs Hr IH]; [apply H0|].
  pose proof (step_moves _ _ _ _ Hids Hs) as Hms. eapply Hm; [exact Hms|done|]. apply IH. by eapply moves_ids.
Qed.
End system.

(** * The abstract claim machine *)

(** A job is queued, held by an agent under a claim, held with possible
    effects, or at its end; after a failure an operator may retry it.  The jobs
    of controllers are in a lane of their own. *)
Inductive phase :=
| Queued | Held (h : string * string) | Effective (h : string * string) | Failed | Closed | Foreign.
Definition phase_of (j : job) : phase :=
  match lane j with
  | controller => Foreign
  | agent =>
      match j_state j with
      | pending_approval | approved | pending => Queued
      | claimed => Held (holder j)
      | running => Effective (holder j)
      | failed | blocked | orphaned_unknown_effect => Failed
      | _ => Closed
      end
  end.
Definition live (p : phase) : Prop :=
  match p with Queued | Held _ | Effective _ => True | Failed | Closed | Foreign => False end.
Definition ended (p : phase) : Prop := p = Failed ∨ p = Closed.
(** The rules of one job: its label names who acted.  Only a retry leads out
    of the end of a job, and only out of a failure. *)
Inductive rule (id : string) : phase → list label → phase → Prop :=
| rule_claim a c : rule id Queued [LClaim id a c] (Held (a, c))
| rule_reclaim a c0 c : rule id (Held (a, c0)) [LClaim id a c] (Held (a, c))
| rule_renew a c : rule id (Held (a, c)) [LRenew id a c] (Effective (a, c))
| rule_renew_again a c : rule id (Effective (a, c)) [LRenew id a c] (Effective (a, c))
| rule_result a c p q : p = Held (a, c) ∨ p = Effective (a, c) → ended q → rule id p [LResult id a c] q
| rule_approve user : rule id Queued [LApprove id user] Queued
| rule_retry : rule id Failed [LRetry id] Queued
| rule_release h : rule id (Held h) [] Queued
| rule_start h : rule id (Held h) [] (Effective h)
| rule_other h : rule id Queued [] (Held h)
| rule_other_start h : rule id Queued [] (Effective h)
| rule_end p q : live p → ended q → rule id p [] q
| rule_foreign l : l = LTake id ∨ (∃ user, l = LApprove id user) ∨ l = LRetry id → rule id Foreign [l] Foreign
| rule_stay p : rule id p [] p.
Inductive machine : gmap string phase → list label → gmap string phase → Prop :=
| machine_nil m : machine m [] m
| machine_rule m id p ls p' ls' m' : m !! id = Some p → rule id p ls p' → machine (<[id := p']> m) ls' m' →
    machine m (ls ++ ls') m'
| machine_new m id p ls m' : m !! id = None → machine (<[id := p]> m) ls m' → machine m ls m'.

(** What an UPDATE writes is what its function says, in every column the
    machine looks at. *)
Lemma updates_same f j j' : updates f j j' →
  j_state j' = j_state (f j) ∧ holder j' = holder (f j) ∧ attempt_count j' = attempt_count (f j)
  ∧ max_attempts j' = max_attempts (f j).
Proof. by intros [->|[reason ->]]. Qed.
Lemma phase_eq j j' : lane j' = lane j → j_state j' = j_state j → holder j' = holder j → phase_of j' = phase_of j.
Proof. unfold phase_of. by intros -> -> ->. Qed.
Lemma terminal_ended j : lane j = agent → isTerminalJobStatus (j_state j) = true → ended (phase_of j).
Proof. unfold phase_of, ended. intros ->. destruct (j_state j); try done; intros _; first [by left|by right]. Qed.
Lemma phase_foreign j : lane j = controller → phase_of j = Foreign.
Proof. unfold phase_of. by intros ->. Qed.
Lemma reclaimable_held now a j : reclaimable now a j = true →
  j_state j = claimed ∧ claimed_by j = Some a ∧ attempt_count j < max_attempts j.
Proof.
  unfold reclaimable. intros H. repeat (apply andb_prop in H as [H ?]).
  split_and!; [by eapply bool_decide_eq_true..|by apply Z.ltb_lt].
Qed.
Lemma lease_phase j h : lane j = agent → holder j = h → in_lease (j_state j) = true →
  phase_of j = Held h ∨ phase_of j = Effective h.
Proof. unfold phase_of. intros -> ->. destruct (j_state j); try done; [by left|by right]. Qed.

Section machine.
Context {sv : Services} {ot : Others} {cr : Crypto} (e : environment).

(** A row of the controller lane has no agent, and stays in its lane. *)
Definition lane_ok (j : job) : Prop := lane j = controller → claimed_by j = None.
Lemma updates_lane f j j' : updates f j j' → lane j' = lane (f j) ∧ claimed_by j' = claimed_by (f j).
Proof. by intros [->|[reason ->]]. Qed.
Lemma move_lane t j ls j' : move t e j ls j' → lane j' = lane j ∧ (lane_ok j → lane_ok j').
Proof.
  unfold lane_ok. intros Hmv.
  destruct Hmv as [k a c j j' Hk Hag Hd Hv Hup|k a c j j' Hk Hag Ha Hh Hl Hup|a c s co ms meta ne re cl j j' Ha Hh Hl Hm Hs Hup|
    j j' Hb Hup|f j j' Hl Ht Hkp Hup|a j j' Hd Hup|seen w user rh hash intent j j' Hs Hma Hun Hsid Hup|reason j j' Hs Hup|
    status j j' Hm Hr Hat Hs Hup|j ls j' Hc|j j' Hla];
    try (pose proof (updates_lane _ _ _ Hup) as [-> ->]); try done.
  - change (lane (claimed_row _ _ _ _ _)) with (lane j). by rewrite Hag.
  - destruct Hkp as [_ Hla Hag _ _ _]. rewrite Hla. split; [done|]. intros H Hf. destruct Hag as [[_ ->]| ->]; auto.
  - destruct Hc as [_ [-> ->] -> _ _ _]. done.
  - destruct Hla as [_ -> (-> & _) _ _ _ _ _]. done.
Qed.
Lemma foreign_rule t j ls j' : move t e j ls j' → lane_ok j → lane j = controller → rule (j_id j) Foreign ls Foreign.
Proof.
  intros Hmv Hok Hf. specialize (Hok Hf).
  destruct Hmv as [k a c j j' Hk Hag Hd Hv Hup|k a c j j' Hk Hag Ha Hh Hl Hup|a c s co ms meta ne re cl j j' Ha Hh Hl Hm Hs Hup|
    | | | | | |j ls j' Hc| ]; try congruence; try (by constructor; eauto).
  - unfold holder in Hh. rewrite Hok in Hh. cbn in Hh. congruence.
  - destruct (cn_state _ _ _ Hc) as [(-> & _)|(-> & _)]; [|apply rule_stay]. apply rule_foreign. by left.
Qed.

Lemma left_alone_rule id j j' : lane j = agent → left_alone j j' → rule id (phase_of j) [] (phase_of j').
Proof.
  intros Hag [_ Hln (H1 & H2 & _) _ _ _ _ Hs]. rewrite Hag in Hln.
  assert (Hh : holder j' = holder j) by (unfold holder; by rewrite H1, H2).
  destruct Hs as [Hs|[Hs|[Hq Ht]]].
  - rewrite (phase_eq j j'); [apply rule_stay|congruence|done..].
  - unfold phase_of. rewrite Hag, Hln, Hh.
    destruct (j_state j), (j_state j'); vm_compute in Hs; try done;
      first [apply rule_stay|apply rule_start|apply rule_other|apply rule_other_start
            |apply rule_end; [done|first [by left|by right]]].
  - apply rule_end; [|by apply terminal_ended]. unfold phase_of. rewrite Hag.
    apply (bool_decide_pack _) in Hq. by destruct (j_state j).
Qed.
Lemma dispatchable_rule t a c j : lane j = agent → j_state j = pending ∨ reclaimable t a j = true →
  rule (j_id j) (phase_of j) [LClaim (j_id j) a c] (Held (a, c)).
Proof.
  intros Hag [H|(H & Ha & _)%reclaimable_held]; unfold phase_of; rewrite Hag, H; [constructor|].
  unfold holder. rewrite Ha. cbn. constructor.
Qed.
Lemma release_rule t a j : lane j = agent → j_state j = pending ∨ reclaimable t a j = true →
  rule (j_id j) (phase_of j) [] Queued.
Proof. intros Hag [H|(H & _ & _)%reclaimable_held]; unfold phase_of; rewrite Hag, H;
  [apply rule_stay|apply rule_release]. Qed.
Lemma live_phase j : lane j = agent → in_lease (j_state j) = true ∨ j_state j = pending → live (phase_of j).
Proof. unfold phase_of. intros -> [H|H]; destruct (j_state j); done. Qed.
Lemma move_rule t j ls j' : lane_ok j → move t e j ls j' → rule (j_id j) (phase_of j) ls (phase_of j').
Proof.
  intros Hok Hmv. pose proof (move_lane _ _ _ _ Hmv) as [Hln _]. destruct (lane j) eqn:Hag; cycle 1.
  { rewrite (phase_foreign j), (phase_foreign j') by done. by eapply foreign_rule. }
  destruct Hmv as [k a c j j' Hk _ Hd Hv Hup|k a c j j' Hk _ _ Hh Hl Hup|a c s co ms meta ne re cl j j' Ha Hh Hl Hm Hs Hup|
    j j' Hb Hup|f j j' Hl Ht Hkp Hup|a j j' Hd Hup|seen w user rh hash intent j j' Hs Hma Hun Hsid Hup|reason j j' Hs Hup|
    status j j' Hm Hr Hat Hs Hup|j ls j' Hc|j j' Hla];
    try (pose proof (updates_same _ _ _ Hup) as (Hst & Hho & _)).
  - replace (phase_of j') with (Held (a, c)); [by eapply dispatchable_rule|].
    unfold phase_of. by rewrite Hln, Hst, Hho.
  - replace (phase_of j') with (Effective (a, c)).
    + destruct (lease_phase j _ Hag Hh Hl) as [-> | ->]; constructor.
    + unfold phase_of. rewrite Hln, Hst, Hho. cbn. by rewrite <- Hh.
  - constructor; [by apply lease_phase|]. unfold phase_of. rewrite Hln, Hst. cbn in Hs |- *. unfold ended.
    apply (bool_decide_pack _) in Hs. destruct s; try done; first [by left|by right].
  - unfold hasRetryBudget in Hb. apply andb_prop in Hb as [[_ Hc]%andb_prop _]. apply bool_decide_eq_true in Hc.
    unfold phase_of. rewrite Hag, Hln, Hst, Hc. constructor.
  - apply rule_end; [by apply live_phase|]. apply terminal_ended; [done|by rewrite Hst].
  - replace (phase_of j') with Queued; [by eapply release_rule|]. unfold phase_of. by rewrite Hln, Hst.
  - unfold phase_of. rewrite Hag, Hln, Hst, Hs. constructor.
  - unfold phase_of. rewrite Hag, Hln, Hst, Hs. by apply rule_end; [|right].
  - replace (phase_of j) with Failed; [replace (phase_of j') with Queued; [constructor|]|].
    + unfold phase_of. rewrite Hln, Hst. apply (bool_decide_pack _) in Hs. by destruct status.
    + unfold phase_of, retryable in *. rewrite Hag. by destruct (j_state j).
  - destruct Hc as [_ [Hc _] _ _ _ _]. congruence.
  - by apply left_alone_rule.
Qed.
Definition lanes (m : gmap string job) : Prop := ∀ id j, m !! id = Some j → lane_ok j.
Lemma lanes_insert m id j : lanes m → lane_ok j → lanes (<[id := j]> m).
Proof. intros H Hj i x. rewrite lookup_insert_Some. intros [[_ <-]|[_ Hx]]; [done|by eapply H]. Qed.
Lemma run_machine d ls d' : ids_ok (jobs d) → lanes (jobs d) → sys_run e d ls d' →
  machine (phase_of <$> jobs d) ls (phase_of <$> jobs d').
Proof.
  intros Hids Hl Hr. revert Hl. revert d ls d' Hids Hr.
  apply (run_moves_ind e (λ m ls m', lanes m → machine (phase_of <$> m) ls (phase_of <$> m'))).
  - constructor.
  - intros t m id j ls1 j' ls2 m' Hj Hid Hmv IH Hl. pose proof (Hl _ _ Hj) as Hok.
    rewrite fmap_insert in IH. pose proof (move_rule _ _ _ _ Hok Hmv) as Hrule. rewrite Hid in Hrule.
    eapply machine_rule; [by rewrite lookup_fmap, Hj|exact Hrule|]. apply IH, lanes_insert; [done|].
    by apply (move_lane _ _ _ _ Hmv).
  - intros m id r t ls1 m' Hj _ IH Hl. rewrite fmap_insert in IH. eapply machine_new; [by rewrite lookup_fmap, Hj|].
    apply IH, lanes_insert; done.
Qed.
End machine.

(** The labels of a job that show an effect: a renewal or a result; and those
    that give it out. *)
Definition effect_of (id : string) (l : label) : option (string * string) :=
  match l with
  | LRenew i a c | LResult i a c => if bool_decide (i = id) then Some (a, c) else None
  | _ => None
  end.
Definition is_claim_of (id : string) (l : label) : bool :=
  match l with LClaim i _ _ | LTake i => bool_decide (i = id) | _ => false end.

(** Once effective under [h] a job stays so, until it has ended; and ended,
    until it is retried. *)
Definition settled (h : string * string) (p : phase) : Prop := p = Effective h ∨ ended p.
Definition under (id : string) (h : string * string) (l : label) : Prop :=
  is_claim_of id l = false ∧ ∀ x, effect_of id l = Some x → x = h.
Lemma rule_length id p ls p' : rule id p ls p' → (length ls <= 1)%nat.
Proof. destruct 1; cbn; lia. Qed.
Lemma rule_other_labels id i p ls p' : rule i p ls p' → i ≠ id →
  Forall (λ l, effect_of id l = None ∧ is_claim_of id l = false) ls.
Proof.
  intros Hr Hne. destruct Hr as [| | | | | | | | | | | |l Hl|]; try destruct Hl as [->|[[user ->]| ->]];
    repeat constructor; cbn; by rewrite ?bool_decide_eq_false_2.
Qed.
Lemma rule_settled id h p ls p' : rule id p ls p' → settled h p →
  Forall (under id h) ls ∧ (ls !! 0%nat ≠ Some (LRetry id) → settled h p').
Proof.
  unfold settled, under, ended. intros Hr Hp.
  destruct Hr as [a c|a c0 c|a c|a c|a c p q Hq He|user| |h'|h'|h'|h'|p q Hl He|l Hl|p];
    try (destruct Hp as [?|[?|?]]; naive_solver);
    (split; [repeat constructor; cbn; rewrite ?bool_decide_eq_true_2 by done|]); naive_solver.
Qed.
Lemma machine_settled id h m ls m' : machine m ls m' → (∃ p, m !! id = Some p ∧ settled h p) →
  ∀ k l, ls !! k = Some l → (∀ n, (n < k)%nat → ls !! n ≠ Some (LRetry id)) → under id h l.
Proof.
  induction 1 as [m|m i p ls p' ls' m' Hp Hr _ IH|m i p ls m' Hp _ IH]; intros (p0 & Hp0 & Hs) k l Hk Hn; [done|..].
  - pose proof (rule_length _ _ _ _ Hr) as Hlen. destruct (decide (k < length ls)%nat) as [Hin|Hin].
    + rewrite lookup_app_l in Hk by done. destruct (decide (i = id)) as [->|Hne].
      * rewrite Hp in Hp0. injection Hp0 as ->. destruct (rule_settled id h _ _ _ Hr Hs) as [Hf _].
        by eapply Forall_lookup_1 in Hf.
      * pose proof (rule_other_labels id i p ls p' Hr Hne) as Ho. eapply Forall_lookup_1 in Ho as [H1 H2]; [|exact Hk].
        unfold under. by rewrite H1, H2.
    + rewrite lookup_app_r in Hk by lia. eapply IH; [|exact Hk|].
      * destruct (decide (i = id)) as [->|Hne]; [|rewrite lookup_insert_ne by done; by exists p0].
        rewrite Hp in Hp0. injection Hp0 as ->. exists p'. rewrite lookup_insert_eq. split; [done|].
        destruct (rule_settled id h _ _ _ Hr Hs) as [_ H]. apply H. destruct ls as [|l0 ls]; [done|].
        apply (Hn 0%nat). cbn in Hin. lia.
      * intros n Hlt. specialize (Hn (length ls + n)%nat). rewrite lookup_app_r in Hn by lia.
        replace (length ls + n - length ls)%nat with n in Hn by lia. apply Hn. lia.
  - eapply IH; [|done..]. exists p0. split; [|done]. rewrite lookup_insert_ne; [done|]. naive_solver.
Qed.
Lemma rule_effect id i h p ls p' : rule i p ls p' → ls !! 0%nat ≫= effect_of id = Some h → i = id ∧ settled h p'.
Proof.
  unfold settled. destruct 1 as [| | | | | | | | | | | |l Hl|]; try destruct Hl as [->|[[user ->]| ->]];
    cbn; try done; case_bool_decide; try done; intros [= <-]; naive_solver.
Qed.
(** After an effect under [h] and before a retry: only effects under [h], and
    no claim. *)
Lemma machine_after_effect id h m ls m' i : machine m ls m' → ls !! i ≫= effect_of id = Some h →
  ∀ k l, (i < k)%nat → ls !! k = Some l → (∀ n, (i < n < k)%nat → ls !! n ≠ Some (LRetry id)) → under id h l.
Proof.
  intros Hm. revert i. induction Hm as [m|m n p ls p' ls' m' Hp Hr Hms IH|m n p ls m' Hp _ IH]; intros i Hi k l Hk Hl Hno.
  - by rewrite lookup_nil in Hl.
  - pose proof (rule_length _ _ _ _ Hr) as Hlen. rewrite lookup_app_r in Hl by lia.
    assert (Hshift : ∀ x, ls' !! x = (ls ++ ls') !! (length ls + x)%nat).
    { intros x. rewrite lookup_app_r by lia. f_equal. lia. }
    destruct (decide (i < length ls)%nat) as [Hin|Hin].
    + assert (i = 0%nat) as -> by lia. rewrite lookup_app_l in Hi by done.
      destruct (rule_effect id _ h _ _ _ Hr Hi) as [-> Hs]. eapply machine_settled; [exact Hms| |exact Hl|].
      * exists p'. by rewrite lookup_insert_eq.
      * intros x Hx. rewrite Hshift. apply Hno. lia.
    + rewrite lookup_app_r in Hi by lia. eapply IH; [exact Hi| |exact Hl|]; [lia|].
      intros x Hx. rewrite Hshift. apply Hno. lia.
  - by eapply IH.
Qed.

(** The example as a run: a poll, a renewal and a failed result. *)
Definition ex_trace : list label :=
  [LClaim "j1" "a1" "claim-of-j1"; LRenew "j1" "a1" "claim-of-j1"; LResult "j1" "a1" "claim-of-j1"].
Lemma ex_ids : ids_ok (jobs ex_db).
Proof. intros id j. cbn. by intros [<- <-]%lookup_singleton_Some. Qed.
Lemma ex_run : sys_run (sv := demo_services) ex_env ex_db ex_trace (ex_ended "failed").1.
Proof.
  apply (sys_cons _ (at_s 10) _ [LClaim "j1" "a1" "claim-of-j1"] ex_claimed.1 [_; _]).
  { refine (sys_claim _ (at_s 10) (ex_clock 10) (λ _, false) ex_fresh ex_caller (ex_message 1) ex_poll _ _
              ex_claimed.2 eq_refl _). apply surjective_pairing. }
  apply (sys_cons _ (at_s 60) _ [LRenew "j1" "a1" "claim-of-j1"] ex_renewed.1 [_]).
  { refine (sys_renew _ (at_s 60) (ex_clock 60) ex_caller (Str "j1") (Str "claim-of-j1") (ex_message 2) _ _
              ex_renewed.2 eq_refl _ _); [done|]. apply surjective_pairing. }
  apply (sys_cons _ (at_s 300) _ [LResult "j1" "a1" "claim-of-j1"] (ex_ended "failed").1 []); [|constructor].
  refine (sys_result _ (at_s 300) (ex_clock 300) ex_caller (ex_message 3) (ex_result "failed") _ _
            (ex_ended "failed").2 eq_refl _ _); [done|]. apply surjective_pairing.
Qed.
Lemma ex_lanes : lanes (jobs ex_db).
Proof. intros id j. cbn. by intros [<- <-]%lookup_singleton_Some. Qed.

(** A material job fails under its first claim, is retried, and is given out
    under a second one. *)
Definition retried_trace : list label :=
  [LClaim material_id "a1" "first-claim"; LResult material_id "a1" "first-claim"; LRetry material_id;
   LClaim material_id "a1" "second-claim"].
Lemma material_ids : ids_ok (jobs material_db).
Proof. intros id j. cbn. by intros [<- <-]%lookup_singleton_Some. Qed.
Lemma material_lanes : lanes (jobs material_db).
Proof. intros id j. cbn. by intros [<- <-]%lookup_singleton_Some. Qed.
Lemma retried_run : sys_run (sv := demo_services) ex_env material_db retried_trace material_again.1.
Proof.
  apply (sys_cons _ (at_s 10) _ [LClaim material_id "a1" "first-claim"] material_claimed.1 [_; _; _]).
  { refine (sys_claim _ (at_s 10) (ex_clock 10) (λ _, false) (λ _, ("first-claim", [toy_random])) ex_caller
              (ex_message 1) ex_poll _ _ material_claimed.2 eq_refl _). apply surjective_pairing. }
  apply (sys_cons _ (at_s 300) _ [LResult material_id "a1" "first-claim"] material_failed.1 [_; _]).
  { refine (sys_result _ (at_s 300) (ex_clock 300) ex_caller (ex_message 2) material_result _ _
              material_failed.2 eq_refl _ _); [done|]. apply surjective_pairing. }
  apply (sys_cons _ (at_s 350) _ [LRetry material_id] material_retried.1 [_]).
  { refine (sys_retry _ (at_s 350) "ws" (Str material_id) _ _ material_retried.2 _). apply surjective_pairing. }
  apply (sys_cons _ (at_s 400) _ [LClaim material_id "a1" "second-claim"] material_again.1 []); [|constructor].
  refine (sys_claim _ (at_s 400) (ex_clock 400) (λ _, false) (λ _, ("second-claim", [pad 24 1])) ex_caller
            (ex_message 3) ex_poll _ _ material_again.2 eq_refl _). apply surjective_pairing.
Qed.

(** C5: dispatch implements a claim machine.  Every run of the system — polls,
    renewals and results of any agents, the lease reaper, forced retirement,
    approvals and rejections, retries by operators, the polls of controllers,
    and any status changes, cancellations and insertions by other code, each
    request with any arguments and each transaction committed or rolled back —
    is, job by job, a run of the machine.  In it a queued job of the agents'
    lane is given to one agent under one claim, only its own agent reclaims it,
    renewals and results are accepted from the holder only, an effective job
    does not return to the queue but by its end; a retry reopens a job that
    failed, was blocked or has unknown effects, and nothing else reopens an
    ended job; and a controller's job is never given to an agent, renewed or
    reported on by one. *)
Theorem dispatch_refines_claims {sv : Services} {ot : Others} {cr : Crypto} (e : environment)
    (d d' : db) (ls : list label) :
  ids_ok (jobs d) → lanes (jobs d) → sys_run e d ls d' →
  machine (phase_of <$> jobs d) ls (phase_of <$> jobs d').
Proof. apply run_machine. Qed.
Lemma dispatch_refines_claims_witness :
  machine {[material_id := Queued]} retried_trace {[material_id := Held ("a1", "second-claim")]}.
Proof.
  replace {[material_id := Queued]} with (phase_of <$> jobs material_db) by (vm_compute; reflexivity).
  replace {[material_id := Held ("a1", "second-claim")]} with (phase_of <$> jobs material_again.1)
    by (vm_compute; reflexivity).
  apply (dispatch_refines_claims (sv := demo_services) ex_env); [exact material_ids|exact material_lanes|exact retried_run].
Defined.

(** C4: until an operator retries it, a job has effects under one claim only.
    In every run, after a renewal or a result of a job was accepted from an
    agent under a claim, and as long as no operator has retried the job since,
    renewals and results of that job are accepted only from the same agent
    under the same claim, and the job is given to nobody. *)
Theorem one_effective_claim {sv : Services} {ot : Others} {cr : Crypto} (e : environment)
    (d d' : db) (ls : list label) (id : string) (h : string * string) (i k : nat) (l : label) :
  ids_ok (jobs d) → lanes (jobs d) → sys_run e d ls d' →
  ls !! i ≫= effect_of id = Some h → (i < k)%nat → ls !! k = Some l →
  (∀ n, (i < n < k)%nat → ls !! n ≠ Some (LRetry id)) →
  is_claim_of id l = false ∧ ∀ h', effect_of id l = Some h' → h' = h.
Proof. intros Hids Hl Hr Hi. by eapply machine_after_effect; [by eapply run_machine|]. Qed.
Lemma one_effective_claim_witness :
  ex_trace !! 1%nat ≫= effect_of "j1" = Some ("a1", "claim-of-j1") ∧
  ∀ h', effect_of "j1" (LResult "j1" "a1" "claim-of-j1") = Some h' → h' = ("a1", "claim-of-j1").
Proof.
  split; [reflexivity|].
  apply (one_effective_claim (sv := demo_services) ex_env ex_db (ex_ended "failed").1 ex_trace "j1"
           ("a1", "claim-of-j1") 1 2); [exact ex_ids|exact ex_lanes|exact ex_run|reflexivity|lia|reflexivity|lia].
Defined.

(** * The latest claim *)

(** A claim or a retry of the job: who held it before does not any more. *)
Definition changes_hands (id : string) (l : label) : bool :=
  match l with LClaim i _ _ | LRetry i => bool_decide (i = id) | _ => false end.
(** The claim under which a job was given out last, which a retry ends. *)
Definition next_claim (id : string) (acc : option (string * string)) (l : label) : option (string * string) :=
  if changes_hands id l then match l with LClaim _ a c => Some (a, c) | _ => None end else acc.
Definition last_claim (id : string) : option (string * string) → list label → option (string * string) :=
  foldl (next_claim id).
Lemma last_claim_Some id ls h : last_claim id None ls = Some h →
  ∃ n, ls !! n = Some (LClaim id h.1 h.2) ∧ ∀ m l, (n < m)%nat → ls !! m = Some l → changes_hands id l = false.
Proof.
  unfold last_claim. induction ls as [|l ls IH] using rev_ind; [done|]. rewrite foldl_app. cbn [foldl].
  unfold next_claim at 1. destruct (changes_hands id l) eqn:E.
  - destruct l as [i a c| | | | |]; try done. intros [= <-]. cbn in E. apply bool_decide_eq_true in E as ->.
    exists (length ls). rewrite lookup_app_r, Nat.sub_diag by lia. split; [done|]. intros m l Hm Hl.
    apply lookup_lt_Some in Hl. rewrite length_app in Hl. cbn in Hl. lia.
  - intros (n & Hn & Hno)%IH. exists n. pose proof (lookup_lt_Some _ _ _ Hn) as Hlt.
    rewrite lookup_app_l by done. split; [done|]. intros m l' Hm [Hl|[_ Hl]]%lookup_app_Some; [by eapply Hno|].
    apply list_lookup_singleton_Some in Hl as [_ <-]. done.
Qed.

Section holders.
Context {sv : Services} {ot : Others} {cr : Crypto} (e : environment).

Lemma updates_holder f j j' : updates f j j' → holder j' = holder (f j).
Proof. by intros [->|[reason ->]]. Qed.
(** What a move does to the holder of its row. *)
Lemma move_holder t j ls j' : lane_ok j → move t e j ls j' →
  (∃ a c, ls = [LClaim (j_id j) a c] ∧ holder j' = (a, c)) ∨
  (∃ a c l, ls = [l] ∧ l ∈ [LRenew (j_id j) a c; LResult (j_id j) a c] ∧ a ≠ EmptyString ∧ holder j = (a, c) ∧
     holder j' = (a, c)) ∨
  Forall (λ l, l = LRetry (j_id j) ∧ (holder j').1 = EmptyString ∨ effect_of (j_id j) l = None ∧ changes_hands (j_id j) l = false) ls ∧
    (holder j' = holder j ∨ (holder j').1 = EmptyString).
Proof.
  intros Hok Hmv.
  destruct Hmv as [k a c j j' Hk Hag Hd Hv Hup|k a c j j' Hk Hag Ha Hh Hl Hup|a c s co ms meta ne re cl j j' Ha Hh Hl Hm Hs Hup|
    j j' Hb Hup|f j j' Hl Ht Hkp Hup|a j j' Hd Hup|seen w user rh hash intent j j' Hs Hma Hun Hsid Hup|reason j j' Hs Hup|
    status j j' Hm Hr Hat Hs Hup|j ls j' Hc|j j' Hla];
    try (pose proof (updates_holder _ _ _ Hup) as Hho).
  - left. by exists a, c.
  - right; left. exists a, c, (LRenew (j_id j) a c). rewrite Hho. split_and!; [done|by left|done..].
  - right; left. exists a, c, (LResult (j_id j) a c). rewrite Hho. split_and!; [done|by right; left|done..].
  - right; right. split; [done|]. right. by rewrite Hho.
  - right; right. split; [done|]. rewrite Hho. destruct Hkp as [_ _ [[-> _]|Hn] _ _ _]; [by left|right].
    unfold holder. by rewrite Hn.
  - right; right. split; [done|]. left. by rewrite Hho.
  - right; right. split; [apply Forall_singleton; by right|]. left. by rewrite Hho.
  - right; right. split; [done|]. left. by rewrite Hho.
  - right; right. assert ((holder j').1 = EmptyString) as E by (by rewrite Hho). split; [|by right].
    apply Forall_singleton. by left.
  - right; right. destruct (cn_lane _ _ _ Hc) as [Hf _].
    assert ((holder j').1 = EmptyString) as E by (unfold holder; by rewrite (cn_agent _ _ _ Hc), Hok).
    split; [|by right]. destruct (cn_state _ _ _ Hc) as [(-> & _)|(-> & _)]; [|done].
    apply Forall_singleton. by right.
  - right; right. split; [done|]. left. destruct (la_holder _ _ Hla) as (H1 & H2 & _). unfold holder. by rewrite H1, H2.
Qed.

(** A held row is held under the claim last given out. *)
Definition as_claimed (id : string) (acc : option (string * string)) (m : gmap string job) : Prop :=
  ∀ j, m !! id = Some j → (holder j).1 = EmptyString ∨ acc = Some (holder j).
Lemma foreign_labels_silent i id p ls p' : rule i p ls p' → i ≠ id →
  Forall (λ l, effect_of id l = None ∧ changes_hands id l = false) ls.
Proof.
  intros Hr Hne. destruct Hr as [| | | | | | | | | | | |l Hl|]; try destruct Hl as [->|[[user ->]| ->]];
    repeat constructor; cbn; by rewrite ?bool_decide_eq_false_2.
Qed.
Lemma silent_last id acc ls : Forall (λ l, effect_of id l = None ∧ changes_hands id l = false) ls →
  last_claim id acc ls = acc.
Proof.
  unfold last_claim. induction 1 as [|l ls [_ E] _ IH]; [done|]. cbn [foldl]. unfold next_claim at 2. by rewrite E.
Qed.
Lemma run_last_claim id d ls d' : ids_ok (jobs d) → lanes (jobs d) → sys_run e d ls d' → ∀ acc, as_claimed id acc (jobs d) →
  ∀ k l h, ls !! k = Some l → effect_of id l = Some h → last_claim id acc (take k ls) = Some h.
Proof.
  intros Hids Hl Hr. revert Hl. revert d ls d' Hids Hr.
  apply (run_moves_ind e (λ m ls m', lanes m → ∀ acc, as_claimed id acc m →
    ∀ k l h, ls !! k = Some l → effect_of id l = Some h → last_claim id acc (take k ls) = Some h)).
  - intros m _ acc _ k l h. by rewrite lookup_nil.
  - intros t m i j ls1 j' ls2 m' Hj Hid Hmv IH Hl acc Hacc k l h Hk He. pose proof (Hl _ _ Hj) as Hok.
    assert (lanes (<[i := j']> m)) as Hl' by (apply lanes_insert; [done|]; by apply (move_lane _ _ _ _ _ Hmv)).
    assert (Hgo : as_claimed id (last_claim id acc ls1) (<[i := j']> m) → (length ls1 <= k)%nat →
      last_claim id acc (take k (ls1 ++ ls2)) = Some h).
    { intros Hacc' Hle. rewrite lookup_app_r in Hk by done. rewrite take_app, take_ge by done.
      unfold last_claim. rewrite foldl_app. by apply (IH Hl' _ Hacc' _ l). }
    destruct (decide (i = id)) as [->|Hne]; cycle 1.
    { pose proof (foreign_labels_silent _ id _ _ _ (move_rule _ _ _ _ _ Hok Hmv)) as Hs. rewrite Hid in Hs.
      specialize (Hs Hne). destruct (decide (length ls1 <= k)%nat) as [Hle|Hlt].
      - apply Hgo; [|done]. rewrite (silent_last _ _ _ Hs). intros x. rewrite lookup_insert_ne by done. apply Hacc.
      - rewrite lookup_app_l in Hk by lia. eapply Forall_lookup_1 in Hs as [Hs _]; [|exact Hk]. congruence. }
    pose proof (Hacc _ Hj) as Hold. pose proof (move_holder _ _ _ _ Hok Hmv) as Hcase. rewrite Hid in Hcase.
    assert (Hin : ∀ acc', ((holder j').1 = EmptyString ∨ acc' = Some (holder j')) → as_claimed id acc' (<[id := j']> m)).
    { intros acc' H x. rewrite lookup_insert_eq. by intros [= <-]. }
    destruct Hcase as [(a & c & -> & Hh)|[(a & c & l0 & -> & Hl0 & Hne & Hh & Hh')|[Hs Hh]]].
    + destruct k as [|k]; [cbn in Hk; injection Hk as <-; done|]. apply Hgo; [|cbn; lia]. apply Hin. right.
      unfold last_claim, next_claim. cbn. by rewrite bool_decide_eq_true_2, Hh.
    + destruct Hold as [Hold|Hold]; [by rewrite Hh in Hold|].
      assert (last_claim id acc [l0] = acc) as Hacc0.
      { apply elem_of_cons in Hl0 as [->|[->|[]%elem_of_nil]%elem_of_cons]; done. }
      destruct k as [|k]; [|apply Hgo; [|cbn; lia]; apply Hin; right; by rewrite Hacc0, Hold, Hh, Hh'].
      cbn in Hk |- *. injection Hk as <-. rewrite Hold, Hh.
      apply elem_of_cons in Hl0 as [->|[->|[]%elem_of_nil]%elem_of_cons]; cbn in He;
        rewrite bool_decide_eq_true_2 in He by done; congruence.
    + destruct (decide (length ls1 <= k)%nat) as [Hle|Hlt].
      * apply Hgo; [|done]. apply Hin.
        destruct (decide (Forall (λ l, effect_of id l = None ∧ changes_hands id l = false) ls1)) as [Hf|Hf].
        -- rewrite (silent_last _ _ _ Hf). destruct Hh as [->|Hh]; [done|by left].
        -- left. destruct Hh as [Hh|Hh]; [|done]. clear -Hs Hf. induction Hs as [|l ls [[_ H]|H] _ IH]; [by destruct Hf|done|].
           apply IH. intros Hf'. apply Hf. by constructor.
      * rewrite lookup_app_l in Hk by lia. destruct (Forall_lookup_1 _ _ _ _ Hs Hk) as [[-> _]|[H0 _]]; [done|congruence].
  - intros m i r t ls1 m' Hj Hr IH Hl acc Hacc. apply IH; [by apply lanes_insert|]. intros x.
    destruct (decide (i = id)) as [->|Hne]; [|rewrite lookup_insert_ne by done; apply Hacc].
    rewrite lookup_insert_eq. intros [= <-]. by left.
Qed.
End holders.

(** C26: only the latest claim has effects.  In every run over a job that no
    agent held at its start, each renewal and each result of the job that is
    accepted comes from the agent and under the claim to which a poll of the
    run gave the job, and between that claim and the message no other claim of
    the job and no retry came: the reaper's requeue, an own reclaim and an
    operator's retry end what the former holder may do, although the nonce of
    its claim may still be unspent. *)
Theorem effects_under_latest_claim {sv : Services} {ot : Others} {cr : Crypto} (e : environment)
    (d d' : db) (ls : list label) (id : string) (k : nat) (l : label) (h : string * string) :
  ids_ok (jobs d) → lanes (jobs d) → (∀ j, jobs d !! id = Some j → claimed_by j = None) → sys_run e d ls d' →
  ls !! k = Some l → effect_of id l = Some h →
  ∃ n, (n < k)%nat ∧ ls !! n = Some (LClaim id h.1 h.2) ∧
    ∀ m l', (n < m < k)%nat → ls !! m = Some l' → changes_hands id l' = false.
Proof.
  intros Hids Hl Hfree Hr Hk He.
  assert (as_claimed id None (jobs d)) as Hacc.
  { intros j Hj. left. unfold holder. by rewrite (Hfree _ Hj). }
  apply (run_last_claim e id d ls d' Hids Hl Hr None Hacc k l h Hk) in He.
  apply last_claim_Some in He as (n & [Hn Hlt]%lookup_take_Some & Hno).
  exists n. split; [done|]. split; [done|]. intros m l' [Hm1 Hm2] Hl'. eapply Hno; [exact Hm1|].
  by rewrite lookup_take_lt.
Qed.
Lemma effects_under_latest_claim_witness :
  ∃ n, (n < 1)%nat ∧ retried_trace !! n = Some (LClaim material_id "a1" "first-claim") ∧
    ∀ m l', (n < m < 1)%nat → retried_trace !! m = Some l' → changes_hands material_id l' = false.
Proof.
  apply (effects_under_latest_claim (sv := demo_services) ex_env material_db material_again.1 retried_trace material_id 1
    (LResult material_id "a1" "first-claim") ("a1"%string, "first-claim"%string)).
  - exact material_ids.
  - exact material_lanes.
  - intros j. cbn. by intros [_ <-]%lookup_singleton_Some.
  - exact retried_run.
  - reflexivity.
  - reflexivity.
Defined.

(** * Attempts *)

Definition queued (s : job_status) : bool :=
  match s with pending_approval | approved | pending => true | _ => false end.
(** A row may be given out again only while attempts are left; its maximum is
    the column's default of 3, which no code changes, or more: the literal
    bound of a retry is within it. *)
Definition budget (j : job) : Prop :=
  attempt_count j <= max_attempts j ∧ RETRY_ATTEMPTS <= max_attempts j ∧
  (queued (j_state j) = true → attempt_count j < max_attempts j).
Definition claims_of (id : string) (ls : list label) : Z := Z.of_nat (length (List.filter (is_claim_of id) ls)).
Lemma claims_app id ls ls' : claims_of id (ls ++ ls') = claims_of id ls + claims_of id ls'.
Proof. unfold claims_of. rewrite List.filter_app, length_app. lia. Qed.
Lemma queued_before j j' : left_alone j j' → queued (j_state j') = true →
  queued (j_state j) = true.
Proof.
  intros [_ _ _ _ _ _ _ Hs] H. destruct Hs as [Hs|[Hs|[Hs _]]]; [by rewrite <- Hs|..].
  - by destruct (j_state j), (j_state j').
  - apply (bool_decide_pack _) in Hs. by destruct (j_state j).
Qed.
Lemma not_terminal s : isTerminalJobStatus s = true → queued s = false.
Proof. by destruct s. Qed.

Section attempts.
Context {sv : Services} {ot : Others} {cr : Crypto} (e : environment).

Lemma budget_closed j j' : budget j → attempt_count j' = attempt_count j → max_attempts j' = max_attempts j →
  queued (j_state j') = false → budget j'.
Proof. intros (H & H3 & _) Ha Hm Hs. split_and!; [lia..|congruence]. Qed.
Lemma dispatchable_budget t a j : budget j → j_state j = pending ∨ reclaimable t a j = true →
  attempt_count j < max_attempts j.
Proof. intros (_ & _ & Hq) [Hs|(_ & _ & H)%reclaimable_held]; [|done]. apply Hq. by rewrite Hs. Qed.
Lemma budget_left j j' : budget j → attempt_count j < max_attempts j → attempt_count j' = attempt_count j →
  max_attempts j' = max_attempts j → budget j'.
Proof. intros (_ & H3 & _) H Ha Hm. unfold budget. rewrite Ha, Hm. split_and!; [lia..|done]. Qed.
Lemma budget_taken j j' : budget j → attempt_count j < max_attempts j → attempt_count j' = attempt_count j + 1 →
  max_attempts j' = max_attempts j → queued (j_state j') = false → budget j'.
Proof. intros (_ & H3 & _) H Ha Hm Hq. unfold budget. rewrite Ha, Hm, Hq. split_and!; [lia..|done]. Qed.
Lemma move_budget t j ls j' : move t e j ls j' → budget j →
  budget j' ∧ attempt_count j' = attempt_count j + claims_of (j_id j) ls ∧ max_attempts j' = max_attempts j.
Proof.
  intros Hmv Hb.
  destruct Hmv as [k a c j j' Hk _ Hd Hv Hup|k a c j j' Hk _ _ Hh Hl Hup|a c s co ms meta ne re cl j j' _ Hh Hl Hm Hs Hup|
    j j' Hbud Hup|f j j' Hl Ht Hkp Hup|a j j' Hd Hup|seen w user rh hash intent j j' Hs Hma Hun Hsid Hup|reason j j' Hs Hup|
    status j j' Hm Hr Hat Hs Hup|j ls j' Hc|j j' Hla];
    try (pose proof (updates_same _ _ _ Hup) as (Hst & _ & Ha & Hmax));
    unfold claims_of; cbn [List.filter is_claim_of length Z.of_nat];
    rewrite ?(bool_decide_eq_true_2 (j_id j = j_id j)) by done; cbn [length Z.of_nat];
    try destruct Hkp as [_ _ _ Hka Hkm _];
    try (split; [|split; [cbn in Ha; lia|cbn in Hmax; congruence]]).
  - apply (budget_taken j); try done; [by eapply dispatchable_budget|by rewrite Hst].
  - apply (budget_closed j); try done. by rewrite Hst.
  - apply (budget_closed j); try done. rewrite Hst. apply not_terminal.
    apply (bool_decide_pack _) in Hs. by destruct s.
  - unfold hasRetryBudget in Hbud. apply andb_prop in Hbud as [_ Hbud%Z.ltb_lt]. by apply (budget_left j).
  - apply (budget_closed j); [done|congruence..|]. rewrite Hst. by apply not_terminal.
  - apply (budget_left j); try done. by eapply dispatchable_budget.
  - apply (budget_left j); try done. apply Hb. by rewrite Hs.
  - apply (budget_closed j); try done. by rewrite Hst.
  - apply (budget_left j); try done. destruct Hb as (_ & H3 & _). lia.
  - destruct Hc as [_ _ _ Hmax _ [(-> & Hs & Hs' & Ha)|(-> & Ha & Hs)]]; cbn [List.filter is_claim_of].
    + rewrite bool_decide_eq_true_2 by done. cbn [length Z.of_nat]. split; [|done].
      apply (budget_taken j); try done; [|by rewrite Hs']. apply Hb. by rewrite Hs.
    + cbn [length Z.of_nat]. split; [|split; [lia|done]]. apply (budget_closed j); try done.
      destruct Hs as [[Hl ->]|[_ ->]]; [|done]. by destruct (j_state j).
  - pose proof (queued_before _ _ Hla) as Hq. destruct Hla as [_ _ _ _ Ha Hm _ _], Hb as (Hb1 & Hb3 & Hb2). unfold budget.
    rewrite Ha, Hm. split; [split_and!; [done..|by intros H%Hq%Hb2]|cbn; lia].
Qed.
(** The labels of a move are of its row. *)
Lemma move_labels i t j ls j' : move t e j ls j' → j_id j ≠ i → Forall (λ l, is_claim_of i l = false) ls.
Proof.
  intros Hmv Hne. destruct Hmv as [| | | | | | | | |j ls j' Hc|];
    try destruct (cn_state _ _ _ Hc) as [(-> & _)|(-> & _)];
    repeat constructor; cbn; by rewrite ?bool_decide_eq_false_2.
Qed.
(** Counted from any table. *)
Definition attempts_of (id : string) (m : gmap string job) : Z := default 0 (attempt_count <$> m !! id).
Definition budgeted (m : gmap string job) : Prop := ∀ id j, m !! id = Some j → budget j.
Lemma budgeted_insert m id j : budgeted m → budget j → budgeted (<[id := j]> m).
Proof. intros H Hj i x. rewrite lookup_insert_Some. intros [[_ <-]|[_ Hx]]; [done|by eapply H]. Qed.
Lemma fresh_budget r t : budget (fresh_job t r).
Proof. unfold budget, RETRY_ATTEMPTS. cbn. by split_and!. Qed.
Lemma run_attempts d ls d' : ids_ok (jobs d) → sys_run e d ls d' → budgeted (jobs d) →
  budgeted (jobs d') ∧ ∀ id, attempts_of id (jobs d') = attempts_of id (jobs d) + claims_of id ls.
Proof.
  apply (run_moves_ind e (λ m ls m', budgeted m →
    budgeted m' ∧ ∀ id, attempts_of id m' = attempts_of id m + claims_of id ls)).
  - intros m Hb. split; [done|]. intros id. unfold claims_of. cbn. lia.
  - intros t m id j ls1 j' ls2 m' Hj Hid Hmv IH Hb.
    destruct (move_budget _ _ _ _ Hmv (Hb _ _ Hj)) as (Hb' & Ha & _).
    destruct (IH (budgeted_insert _ _ _ Hb Hb')) as [Hf Hc]. split; [done|]. intros i. rewrite Hc, claims_app.
    unfold attempts_of. destruct (decide (i = id)) as [->|Hne].
    + rewrite lookup_insert_eq, Hj. cbn. rewrite Ha, Hid. lia.
    + rewrite lookup_insert_ne by done. apply (move_labels i) in Hmv; [|by rewrite Hid].
      assert (claims_of i ls1 = 0) as ->; [|lia]. unfold claims_of. clear -Hmv.
      induction Hmv as [|l ls E _ IH]; cbn; [done|]. by rewrite E.
  - intros m id r t ls1 m' Hj _ IH Hb.
    destruct (IH (budgeted_insert _ _ _ Hb (fresh_budget r t))) as [Hf Hc]. split; [done|].
    intros i. rewrite Hc. unfold attempts_of. destruct (decide (i = id)) as [->|Hne].
    + by rewrite lookup_insert_eq, Hj.
    + by rewrite lookup_insert_ne.
Qed.
End attempts.

(** C23: a job is given out a bounded number of times.  In every run, a row's
    attempt counter grows by one exactly when a poll of an agent, or of a
    controller, gets the job, and never exceeds the row's maximum: together
    with what it had used before, a job is claimed at most [max_attempts] times
    (3 for a row as creation inserts it), whatever expires, is approved again,
    is reclaimed or is retried by an operator in between. *)
Theorem attempts_bounded {sv : Services} {ot : Others} {cr : Crypto} (e : environment)
    (d d' : db) (ls : list label) (id : string) (j' : job) :
  ids_ok (jobs d) → budgeted (jobs d) → sys_run e d ls d' → jobs d' !! id = Some j' →
  attempts_of id (jobs d) + claims_of id ls = attempt_count j' ∧ attempt_count j' <= max_attempts j'.
Proof.
  intros Hids Hb Hr Hj. destruct (run_attempts e d ls d' Hids Hr Hb) as [Hb' Hc].
  specialize (Hc id). unfold attempts_of in Hc at 1. rewrite Hj in Hc. cbn in Hc. split; [lia|].
  by destruct (Hb' _ _ Hj).
Qed.
Lemma attempts_bounded_witness :
  ∃ j', jobs (ex_ended "failed").1 !! "j1" = Some j' ∧ claims_of "j1" ex_trace = 1 ∧ attempt_count j' <= 3.
Proof.
  destruct (jobs (ex_ended "failed").1 !! "j1") as [j'|] eqn:Hj; [|by vm_compute in Hj].
  exists j'. split; [done|]. split; [reflexivity|].
  replace 3 with (max_attempts j') by (vm_compute in Hj; by injection Hj as <-).
  apply (attempts_bounded (sv := demo_services) ex_env ex_db (ex_ended "failed").1 ex_trace "j1" j');
    [exact ex_ids| |exact ex_run|exact Hj].
  intros i j. cbn. intros [<- <-]%lookup_singleton_Some. apply fresh_budget.
Defined.
