(* ===== verification/ClaimGuarantees.v ===== *)
(** What one message of the claim protocol guarantees: who gets a job, that a
    message is not accepted twice, that a result can be reported while the
    lease and its grace last, that reporting again is harmless, and that no
    failure of a renewal goes unnoticed. *)
From stdpp Require Import relations.
From S2P Require Import Prelude Dates Json Jobs JobFields RenewalCapacity Signing JobSigning.
From S2P Require Import JobRequest Eligibility AlertPolicy Dispatch Approvals Ingest Claim Reaper.
From S2P Require Import ClaimExample Evolution ClaimSystem.
Open Scope Z_scope.

(** * Messages *)

Inductive request :=
| Poll (busy : string → bool) (fresh : string → string * list string) (body : jsval)
| Renew (jobId claimId : jsval)
| Report (body : jsval).

Section messages.
Context {sv : Services} {ot : Others} {cr : Crypto} (e : environment).

(** The handler of a message; the answer says whether it was applied: a result
    already recorded is acknowledged as a duplicate, and not applied.  Its
    enrollment and preflight reports are recorded all the same, because the
    handler records them before it looks at the nonce. *)
Definition handle (k : clock) (c : caller) (envelope : jsval) (r : request) : tx bool :=
  match r with
  | Poll busy fresh body => _ ← claimJobs k e busy fresh c envelope body; mret true
  | Renew jobId claimId => _ ← renewJobLease k e c jobId claimId envelope; mret true
  | Report body => x ← ingestResult k c envelope body; mret (negb (rr_duplicate x))
  end.
(** A committed transaction of the protocol. *)
Inductive protocol_step (d : db) : db → Prop :=
| step_message k c envelope r d' b : handle k c envelope r d = Ok (d', b) → protocol_step d d'
| step_reap k busy n off grace d' xs : reapExpiredLeases k busy n off grace d = Ok (d', xs) → protocol_step d d'
| step_fence k a reason d' u : fenceAgentInFlightWork k a reason d = Ok (d', u) → protocol_step d d'
| step_approve k seen user h d' r : approveJob k seen user h d = (d', r) → protocol_step d d'
| step_reject k id ws user reason d' r : rejectJob k id ws user reason d = (d', r) → protocol_step d d'.

Lemma handle_evolves k c envelope r : preserves evolves (handle k c envelope r).
Proof. unfold handle. preserves_tac. Qed.
(** What the handlers keep, the steps keep. *)
Section steps.
Context (R : relation db) `{!Loose R}.
Lemma committed_keeps {A} (m : tx A) d d' r : preserves R m → withTransaction m d = (d', r) → R d d'.
Proof.
  intros Hm H. destruct r as [a|err]; [by apply withTransaction_ok, Hm in H|].
  apply withTransaction_err in H as ->. reflexivity.
Qed.
Lemma step_keeps : (∀ k c envelope r, preserves R (handle k c envelope r)) →
  (∀ k busy n off grace, preserves R (reapExpiredLeases k busy n off grace)) →
  (∀ k a reason, preserves R (fenceAgentInFlightWork k a reason)) → (∀ ev, preserves R (record_event ev)) →
  ∀ d d', protocol_step d d' → R d d'.
Proof.
  intros Hhandle Hreap Hfence Hevent.
  destruct 1 as [k c envelope r d' b H|k busy n off grace d' xs H|k a reason d' u H|k seen user h d' r H|
    k id ws user reason d' r H].
  - by apply Hhandle in H.
  - by apply Hreap in H.
  - by apply Hfence in H.
  - unfold approveJob in H. destruct (may_approve _ _ _ _) as [[hash intent]|]; [|injection H as <- _; reflexivity].
    destruct (jobs d !! _); [|injection H as <- _; reflexivity].
    destruct (unchanged _ _ && _); [|injection H as <- _; reflexivity].
    destruct (withTransaction _ d) as [d1 r1] eqn:E. apply committed_keeps in E; [|preserves_tac].
    destruct r1; by injection H as <- _.
  - unfold rejectJob in H. destruct (jobs d !! _); [|injection H as <- _; reflexivity].
    do 2 (case_match; [injection H as <- _; reflexivity|]).
    destruct (withTransaction _ d) as [d1 r1] eqn:E. apply committed_keeps in E; [|preserves_tac].
    destruct r1; by injection H as <- _.
Qed.
End steps.
Lemma step_evolves d d' : protocol_step d d' → evolves d d'.
Proof. apply step_keeps; [apply _|apply handle_evolves|auto with preserves..]. Qed.
Lemma steps_evolve d d' : rtc protocol_step d d' → evolves d d'.
Proof. induction 1 as [d|d1 d2 d3 H _ IH]; [reflexivity|]. etrans; [by apply step_evolves|done]. Qed.

(** * The sequence of an agent's messages *)

(** What a message that took effect says about the agent's row before it. *)
Definition newer (envelope : jsval) (last : Z) : Prop :=
  match envelopeSequence envelope with Some n => last < n | None => last <= 0 end.
Lemma sequence_accepted id envelope d d' u : enforceAgentSequence id envelope d = Ok (d', u) →
  (∀ a, agents d !! id = Some a → newer envelope (last_sequence a)) ∧
  ∀ n, envelopeSequence envelope = Some n → ∃ a, agents d' !! id = Some a ∧ n <= last_sequence a.
Proof.
  unfold enforceAgentSequence, newer. destruct (envelopeSequence envelope) as [n|].
  - destruct (agents d !! id) as [a|]; [|done]. destruct (last_sequence a <? n) eqn:E; [|done]. intros [= <- <-].
    split; [intros a0 [= <-]; lia|]. intros n0 [= <-]. cbn. rewrite lookup_insert_eq.
    by exists (with_sequence n a).
  - cbv zeta. destruct (0 <? _) eqn:E; [done|]. intros [= <- <-]. split; [|done]. intros a Ha.
    rewrite Ha in E. lia.
Qed.
(** The check, between statements that only let the tables evolve. *)
Lemma sequence_inside id envelope d d1 d2 d' u :
  evolves d d1 → enforceAgentSequence id envelope d1 = Ok (d2, u) → evolves d2 d' →
  (∀ a, agents d !! id = Some a → newer envelope (last_sequence a)) ∧
  ∀ n, envelopeSequence envelope = Some n → ∃ a, agents d' !! id = Some a ∧ n <= last_sequence a.
Proof.
  intros E1 [G1 G2]%sequence_accepted E2. split.
  - intros x Hx. apply (ev_sequence _ _ E1) in Hx as (x' & Hx' & Hle). apply G1 in Hx'. unfold newer in *.
    case_match; lia.
  - intros n Hn. destruct (G2 n Hn) as (x & Hx & Hle). apply (ev_sequence _ _ E2) in Hx as (x' & Hx' & Hle').
    exists x'. split; [done|lia].
Qed.
Lemma handled_sequence k c envelope r d d' : handle k c envelope r d = Ok (d', true) →
  (∀ a, agents d !! c_id c = Some a → newer envelope (last_sequence a)) ∧
  ∀ n, envelopeSequence envelope = Some n → ∃ a, agents d' !! c_id c = Some a ∧ n <= last_sequence a.
Proof.
  destruct r as [busy fresh body|jobId claimId|body]; cbn [handle]; intros H; tx_step H dr x E;
    [injection H as <-|injection H as <-|injection H as <- Hx].
  - unfold claimJobs in E. cbv zeta in E. tx_step E d1 u1 E1. eapply sequence_inside; [reflexivity|exact E1|].
    revert E. match goal with |- ?m d1 = _ → _ => assert (preserves evolves m) as Hp by preserves_tac end. apply Hp.
  - unfold renewJobLease in E. destruct (nonempty_text jobId); [|done]. destruct (nonempty_text claimId); [|done].
    tx_step E d1 u1 E1. eapply sequence_inside; [reflexivity|exact E1|].
    revert E. match goal with |- ?m d1 = _ → _ => assert (preserves evolves m) as Hp by preserves_tac end. apply Hp.
  - unfold ingestResult in E. destruct (assoc_get _ _) as [s|]; [|done].
    destruct (get "jobId" body) as [| | | |jobId| |]; try done. tx_step E d0 j Ej.
    apply select_job_ok in Ej as (-> & _). tx_check E Hown. tx_check E Hmode. tx_step E d2 u2 E2.
    apply record_evolves in E2. tx_step E d3 o E3. apply consume_evolves in E3.
    destruct o as [|code].
    + tx_step E d4 u4 E4. eapply sequence_inside; [by etrans|exact E4|by eapply apply_evolves].
    + case_match; [injection E as _ <-|]; done.
Qed.
Lemma sequence_pos envelope n : envelopeSequence envelope = Some n → 0 < n.
Proof. unfold envelopeSequence. repeat case_match; try done. intros [= <-]. lia. Qed.
Lemma apply_reply k c j s body d d' r : apply_result k c j s body d = Ok (d', r) → rr_duplicate r = false.
Proof.
  unfold apply_result. cbv zeta. intros H. do 2 apply tx_bind_ok in H as (? & ? & _ & H).
  destruct (result_metadata _ _); [|done]. do 7 apply tx_bind_ok in H as (? & ? & _ & H). by injection H as _ <-.
Qed.
(** What a result acknowledged as a duplicate does: it is a report about a job
    the agent holds, and records the enrollment and preflight parts. *)
Definition duplicate_of (c : caller) (r : request) (d d' : db) : Prop :=
  ∃ body j s, r = Report body ∧ jobs d !! j_id j = Some j ∧ holder j = (c_id c, body_claim body) ∧ j_state j = s ∧
    record_reports c j s body d = Ok (d', tt).
Lemma consume_refused k c id n d d' code : consume k c id n d = Ok (d', NotConsumed code) → d' = d.
Proof.
  unfold consume. destruct (consumeNonce _ _ _ _ _ _) as [s o] eqn:E. intros [= <- ->].
  assert (s = signing d) as ->; [|by destruct d]. revert E. unfold consumeNonce. by repeat case_match; intros [= <-].
Qed.
Lemma handled_duplicate k c envelope r d d' : ids_ok (jobs d) → handle k c envelope r d = Ok (d', false) →
  duplicate_of c r d d'.
Proof.
  intros Hids.
  destruct r as [busy fresh body|jobId claimId|body]; cbn [handle]; intros H; tx_step H dr x E; try done.
  injection H as <- Hx. apply negb_false_iff in Hx.
  unfold ingestResult in E. destruct (assoc_get _ _) as [s|]; [|done].
  destruct (get "jobId" body) as [| | | |jobId| |]; try done. tx_step E d0 j Ej.
  apply select_job_ok in Ej as (-> & Hj & _). tx_check E Hown. tx_check E Hmode. tx_step E d2 u2 Er.
  tx_step E d3 o Ec. destruct o as [|code].
  - tx_quiet E d4 u4. apply apply_reply in E. congruence.
  - destruct (bool_decide (code = REPLAYED) && bool_decide (j_state j = s) && _) eqn:Hb; [|done].
    injection E as <- _. apply consume_refused in Ec as ->. apply andb_prop in Hb as [[_ Hs]%andb_prop _].
    apply bool_decide_eq_true in Hs. exists body, j, s. split; [done|]. rewrite (Hids _ _ Hj).
    split; [done|]. split; [by apply column_is_holder|]. split; [done|]. by destruct u2.
Qed.
(** The reports are recorded in the enrollment tables only. *)
Lemma service_only {A} (f : W → result string (W * A)) d d' a : service f d = Ok (d', a) →
  ∃ w, d' = set_others w d.
Proof. unfold service. destruct (f _) as [[w x]|]; [|done]. intros [= <- _]. by exists w. Qed.
Lemma same_others d : d = set_others (others d) d.
Proof. by destruct d. Qed.
Lemma reports_only c j s body d d' u : record_reports c j s body d = Ok (d', u) → ∃ w, d' = set_others w d.
Proof.
  unfold record_reports. intros H. tx_step H d1 u1 E.
  assert (∃ w, d1 = set_others w d) as [w ->].
  { destruct (bool_decide _ || _); [|injection E as <- _; exists (others d); apply same_others].
    tx_check E Hn. destruct (nullish _); [injection E as <- _; exists (others d); apply same_others|].
    unfold service_ in E; by apply service_only in E. }
  destruct (_ && _); [unfold service_ in H; apply service_only in H as [w' ->]; by exists w'|]. injection H as <- _. by exists w.
Qed.
End messages.

(** C15: no message of an agent is applied twice.  After a poll, a renewal or a
    result with a sequence number was applied, no message of that agent with
    the same or a lower number, or without one, is applied again, however many
    transactions of the protocol commit in between: it is refused and changes
    nothing, or it is a result acknowledged as a duplicate, for a job the agent
    holds under the claim it names and in the very status it reports.  Such a
    duplicate records the enrollment and preflight parts of its body again; the
    jobs, the agents, the nonces and keys, the approvals, the logs and the
    outbox stay as they are. *)
Theorem stale_message_refused {sv : Services} {ot : Others} {cr : Crypto} (e e2 : environment) (k k2 : clock)
    (c c2 : caller) (envelope envelope2 : jsval) (r r2 : request) (n : Z) (d d1 d2 d3 : db)
    (answer : result dispatch_error bool) :
  handle e k c envelope r d = Ok (d1, true) → envelopeSequence envelope = Some n →
  rtc (protocol_step e) d1 d2 → ids_ok (jobs d2) → c_id c2 = c_id c →
  (∀ n2, envelopeSequence envelope2 = Some n2 → n2 <= n) →
  withTransaction (handle e2 k2 c2 envelope2 r2) d2 = (d3, answer) →
  (∃ err, answer = Err err ∧ d3 = d2) ∨
  answer = Ok false ∧ duplicate_of c2 r2 d2 d3 ∧ ∃ w, d3 = set_others w d2.
Proof.
  intros H1 Hn Hsteps Hids Hc Hle H2. apply handled_sequence in H1 as [_ H1]. destruct (H1 n Hn) as (a & Ha & Hna).
  apply steps_evolve in Hsteps. apply (ev_sequence _ _ Hsteps) in Ha as (a2 & Ha2 & Hle2). rewrite <- Hc in Ha2.
  destruct answer as [b|err]; [right|left; exists err; split; [done|by eapply withTransaction_err]].
  apply withTransaction_ok in H2. destruct b.
  - exfalso. apply handled_sequence in H2 as [H2 _]. apply H2 in Ha2. unfold newer in Ha2.
    pose proof (sequence_pos _ _ Hn). destruct (envelopeSequence envelope2) as [n2|]; [specialize (Hle n2 eq_refl)|]; lia.
  - apply handled_duplicate in H2; [|done]. split; [done|]. split; [done|].
    destruct H2 as (body & j & s & _ & _ & _ & _ & H2). by apply reports_only in H2.
Qed.
Lemma stale_message_refused_witness :
  ∃ d3 answer, withTransaction (handle (sv := demo_services) ex_env (ex_clock 400) ex_caller (ex_message 2)
            (Report (ex_result "failed"))) (ex_ended "failed").1 = (d3, answer) ∧ answer = Ok false ∧
    ((∃ err, answer = Err err ∧ d3 = (ex_ended "failed").1) ∨
     answer = Ok false ∧ duplicate_of ex_caller (Report (ex_result "failed")) (ex_ended "failed").1 d3 ∧
     ∃ w, d3 = set_others w (ex_ended "failed").1).
Proof.
  eexists _, _. split; [vm_compute; reflexivity|]. split; [reflexivity|].
  refine (stale_message_refused (sv := demo_services) ex_env ex_env (ex_clock 60) (ex_clock 400) ex_caller ex_caller
    (ex_message 2) (ex_message 2) (Renew (Str "j1") (Str "claim-of-j1")) (Report (ex_result "failed")) 2
    ex_claimed.1 ex_renewed.1 (ex_ended "failed").1 _ _ _ _ _ _ _ _ _).
  - vm_compute. reflexivity.
  - reflexivity.
  - apply rtc_once. apply (step_message _ _ (ex_clock 300) ex_caller (ex_message 3) (Report (ex_result "failed")) _ true).
    vm_compute. reflexivity.
  - change (map_Forall (λ id j, j_id j = id) (jobs (ex_ended "failed").1)). apply (bool_decide_unpack _). by vm_compute.
  - reflexivity.
  - intros n2. cbn. by intros [= <-].
  - vm_compute. reflexivity.
Defined.

(** * Who gets a job *)

Section poll.
Context {sv : Services} {ot : Others} {cr : Crypto} (k : clock) (e : environment) (c : caller)
  (fresh : string → string * list string).

(** A job of the table that the poll may give out, [w] being the other tables
    when its turn comes: waiting, or the agent's own expired claim; bound by its
    approval, allowed by the checks of management, and for an agent that
    dispatch admits.  The authority of its requester is checked for a waiting
    job only: an own claim is taken again without it. *)
Record lawful (a : agent_facts) (w : W) (j : job) : Prop := {
  lw_state : j_state j = pending ∨ reclaimable (db_now k) (c_id c) j = true;
  lw_approval : approval_void j = Ok None;
  lw_authority : j_state j = pending → jobAuthority w j = true;
  lw_management : managementAdmits w j = true;
  lw_agent : admits (env_freshness e) (app_now k) a (facts_of w j) (agentCompatibility c) }.
(** [x] is the claim of a row of [rows], lawful with the tables as the loop has
    left them after the rows before it, and the row is now [x]'s. *)
Definition given (a : agent_facts) (v : Z) (rows : list job) (d d' : db) (x : dispatched) : Prop :=
  ∃ j before after d1 ys, rows = before ++ j :: after ∧ claim_rows k e c a v fresh before d = Ok (d1, ys) ∧
    lawful a (others d1) j ∧
    updates (claimed_row k e (c_id c) (fresh (j_id j)).1) j (dd_job x) ∧ jobs d' !! j_id j = Some (dd_job x).
Lemma admitted_lawful a j d d' needs : jobs d !! j_id j = Some j → dispatchable (db_now k) (c_id c) j →
  admit_candidate k e c a j d = Ok (d', Some needs) → lawful a (others d) j.
Proof.
  intros Hj Hd H. apply (admit_ok k e c a j d d' (Some needs) Hj Hd) in H as (_ & Hv & Hau & Hm & Hel).
  split; [apply Hd|done| |done|by apply evaluate_sound]. intros Hp. rewrite Hp in Hau.
  by rewrite bool_decide_eq_true_2, orb_false_r in Hau.
Qed.
(** The loop goes on from where a row has left the tables. *)
Lemma given_refused a v j rows d d1 d' x : admit_candidate k e c a j d = Ok (d1, None) →
  given a v rows d1 d' x → given a v (j :: rows) d d' x.
Proof.
  intros Ha (i & before & after & d2 & ys & -> & Hr & H). exists i, (j :: before), after, d2, ys.
  split; [done|]. split; [|done]. cbn [claim_rows]. apply tx_bind_ok. by exists d1, None.
Qed.
Lemma given_after a v j rows d d1 d2 d' needs y x : admit_candidate k e c a j d = Ok (d1, Some needs) →
  dispatch_candidate k e c (fresh (j_id j)).1 (fresh (j_id j)).2 v j needs d1 = Ok (d2, y) →
  given a v rows d2 d' x → given a v (j :: rows) d d' x.
Proof.
  intros Ha Hd (i & before & after & d3 & ys & -> & Hr & H). exists i, (j :: before), after, d3, (y :: ys).
  split; [done|]. split; [|done]. cbn [claim_rows]. apply tx_bind_ok. exists d1, (Some needs). split; [done|].
  apply tx_bind_ok. exists d2, y. split; [done|]. apply tx_bind_ok. by exists d3, ys.
Qed.

Lemma claim_rows_given a v rows d d' xs :
  pending_rows (db_now k) (c_id c) rows (jobs d) → claim_rows k e c a v fresh rows d = Ok (d', xs) →
  (∀ id, id ∉ map j_id rows → jobs d' !! id = jobs d !! id) ∧
  map (λ x, j_id (dd_job x)) xs `sublist_of` map j_id rows ∧ Forall (given a v rows d d') xs.
Proof.
  apply (claim_rows_ind k e c a v fresh (λ rows d xs d',
    (∀ id, id ∉ map j_id rows → jobs d' !! id = jobs d !! id) ∧
    map (λ x, j_id (dd_job x)) xs `sublist_of` map j_id rows ∧ Forall (given a v rows d d') xs)); clear.
  - done.
  - intros j rows d d1 xs d' _ _ _ Ha Hr (IH1 & IH2 & IH3). split_and!.
    + intros id [Hne Hn]%not_elem_of_cons. rewrite IH1 by done. destruct Hr as [->|(j' & -> & _)]; [done|].
      by rewrite lookup_insert_ne.
    + cbn. by constructor.
    + eapply Forall_impl; [exact IH3|]. intros x. by apply given_refused.
  - intros j rows d d1 d2 needs x xs d' Hj Hd Hni Ha _ Hdis Ejx Hup (IH1 & IH2 & IH3). split_and!.
    + intros id [Hne Hn]%not_elem_of_cons. rewrite IH1, Ejx by done. by rewrite lookup_insert_ne.
    + cbn. destruct (updates_claimed _ _ _ _ _ _ Hup) as [-> _]. by constructor.
    + constructor; [|eapply Forall_impl; [exact IH3|]; intros y; by eapply given_after].
      exists j, [], rows, d, []. split; [done|]. split; [done|]. split; [by eapply admitted_lawful|].
      split; [done|]. rewrite IH1, Ejx by done. by rewrite lookup_insert_eq.
Qed.
End poll.

(** C8: a poll gives out the right jobs.  The poll goes through a selection of
    the table it found, with the other services' tables as it found them; and
    every job in the answer was, when the loop came to it, in the agent's
    workspace, with its row free, and waiting or the agent's own expired claim
    that was never renewed; the approval recorded for it binds exactly what is
    dispatched; the checks of management hold, and for a waiting job (not for
    an own claim taken again) those of its requester's authority, in the tables
    as the loop has left them after the rows before; dispatch admits the agent
    for it, as its row and this poll describe it; and its row now carries a
    claim of this agent, the attempt counted.  No job is given out twice, and
    at most as many as asked for. *)
Theorem polled_jobs_lawful {sv : Services} {ot : Others} {cr : Crypto} (k : clock) (e : environment)
    (busy : string → bool) (fresh : string → string * list string) (c : caller) (envelope body : jsval)
    (d d' : db) (xs : list dispatched) :
  ids_ok (jobs d) → claimJobs k e busy fresh c envelope body d = Ok (d', xs) →
  let a := polling_agent c (default no_caps (agents d !! c_id c)) body in
  NoDup (map (λ x, j_id (dd_job x)) xs) ∧ (length xs <= claim_maxJobs body)%nat ∧
  ∃ o v d0, jobs d0 = jobs d ∧ others d0 = others d ∧
    ∀ x, x ∈ xs → ∃ j before after d1 ys,
      select_candidates busy (db_now k) c o (claim_maxJobs body) d0 = before ++ j :: after ∧
      claim_rows k e c a v fresh before d0 = Ok (d1, ys) ∧
      jobs d !! j_id j = Some j ∧ busy (j_id j) = false ∧ r_workspaceId (j_row j) = c_workspaceId c ∧
      lawful k e c a (others d1) j ∧ updates (claimed_row k e (c_id c) (fresh (j_id j)).1) j (dd_job x) ∧
      jobs d' !! j_id j = Some (dd_job x).
Proof.
  intros Hids H. cbv zeta. apply poll_rows in H as [[-> _]|(o & v & d3 & Ej & _ & Eo & H)].
  { split; [constructor|]. split; [cbn; lia|]. exists (poll_offer k e no_caps body), 1, d. do 2 (split; [done|]).
    by intros x ?%elem_of_nil. }
  rewrite <- Ej in Hids. pose proof (candidates_pending busy (db_now k) c o (claim_maxJobs body) d3 Hids) as Hp.
  destruct (claim_rows_given k e c fresh _ _ _ _ _ _ Hp H) as (_ & Hsub & Hg). split_and!.
  - eapply sublist_NoDup; [|exact Hsub]. apply Hp.
  - apply sublist_length in Hsub. rewrite !length_map in Hsub. etrans; [exact Hsub|].
    unfold select_candidates. rewrite length_take. lia.
  - exists o, v, d3. do 2 (split; [done|]). intros x Hx. rewrite Forall_forall in Hg.
    destruct (Hg x Hx) as (j & before & after & d1 & ys & Hsel & Hr & Hl & Hup & Hm).
    assert (j ∈ select_candidates busy (db_now k) c o (claim_maxJobs body) d3) as Hj
      by (rewrite Hsel, elem_of_app; right; by left).
    apply candidates_of in Hj as (Hb & Hj & Hws); [|done]. rewrite Ej in Hj. by exists j, before, after, d1, ys.
Qed.
Lemma polled_jobs_lawful_witness :
  ∃ x j w, ex_claimed.2 = Ok [x] ∧ j_id (dd_job x) = "j1" ∧
    lawful (sv := demo_services) (ex_clock 10) ex_env ex_caller (polling_agent ex_caller ex_agent ex_poll) w j.
Proof.
  destruct ex_claimed as [d' [[|x [|]]|]] eqn:E; try by vm_compute in E. exists x.
  apply withTransaction_ok in E.
  destruct (polled_jobs_lawful (sv := demo_services) (ex_clock 10) ex_env (λ _, false) ex_fresh ex_caller (ex_message 1)
    ex_poll ex_db d' [x]) as (_ & _ & o & v & d0 & _ & _ & H).
  - intros id j. cbn. by intros [<- <-]%lookup_singleton_Some.
  - exact E.
  - destruct (H x) as (j & before & after & d1 & ys & _ & _ & Hj & _ & _ & Hl & Hup & _); [by apply list_elem_of_singleton|].
    exists j, (others d1). split; [done|]. split; [|exact Hl]. apply updates_claimed in Hup as [-> _].
    cbn in Hj. by apply lookup_singleton_Some in Hj as [<- _].
Defined.

(** * Reporting again *)

Lemma NoDup_map_eq {A B} (f : A → B) l x y : NoDup (map f l) → x ∈ l → y ∈ l → f x = f y → x = y.
Proof.
  intros Hnd (i & Hi)%list_elem_of_lookup (n & Hn)%list_elem_of_lookup E.
  assert (i = n) as ->; [|congruence]. eapply NoDup_lookup; [exact Hnd|..]; rewrite list_lookup_fmap;
    [by rewrite Hi|by rewrite Hn, E].
Qed.
(** The ledger holds a nonce of a job once. *)
Definition ledger_unique (s : JobSigning.db) : Prop := NoDup (map (λ r, (n_nonce r, n_job r)) (nonces s)).
Lemma consume_again now now' nonce j ws ag s s' : ledger_unique s →
  consumeNonce now nonce j ws ag s = (s', Consumed) →
  consumeNonce now' nonce j ws ag s' = (s', NotConsumed REPLAYED).
Proof.
  intros Hnd H. destruct nonce as [| | | |n| |]; try done.
  pose proof (consume_code now n j ws ag s) as Hc. rewrite H in Hc. cbn [fst snd] in Hc.
  destruct (Hc eq_refl) as (Hpat & Hex & ->).
  apply existsb_exists in Hex as (r0 & Hr0%list_elem_of_In & Hhit0).
  set (hit := consumable now n j ws ag) in *.
  assert (Hb : ∀ r, bound_row n j ws ag (if hit r then mark_consumed now r else r) = bound_row n j ws ag r)
    by (intros r; by destruct (hit r)).
  assert (Hbound : ∀ r, bound_row n j ws ag r = true → (n_nonce r, n_job r) = (n, j)).
  { unfold bound_row. intros r Hr. repeat (apply andb_prop in Hr as [Hr ?]). split_bool. by subst. }
  assert (Hhit : ∀ r, hit r = true → bound_row n j ws ag r = true).
  { unfold hit, consumable. intros r Hr. by do 2 apply andb_prop in Hr as [Hr _]. }
  assert (Hall : ∀ r', r' ∈ map (λ r, if hit r then mark_consumed now r else r) (nonces s) →
    bound_row n j ws ag r' = true → is_unconsumed r' = false).
  { intros r' (r & -> & Hr)%list_elem_of_fmap. rewrite Hb. intros Hbr. assert (r = r0) as ->; [|by rewrite Hhit0].
    eapply NoDup_map_eq; [exact Hnd|done..|]. cbn beta. by rewrite !Hbound by auto. }
  unfold consumeNonce. rewrite Hpat. cbn [negb nonces set_nonces].
  assert (existsb (consumable now' n j ws ag) (map (λ r, if hit r then mark_consumed now r else r) (nonces s)) = false) as ->.
  { apply not_true_iff_false. intros (r & Hr%list_elem_of_In & Hc')%existsb_exists. unfold consumable in Hc'.
    apply andb_prop in Hc' as [[Hbr Hu]%andb_prop _]. rewrite (Hall r Hr Hbr) in Hu. done. }
  destruct (List.find _ _) as [r|] eqn:Ef.
  - apply find_some in Ef as [Hr%list_elem_of_In Hbr]. by rewrite (Hall r Hr Hbr).
  - exfalso. pose proof (find_none _ _ Ef (mark_consumed now r0)) as Hn. cbn beta in Hn.
    change (bound_row n j ws ag (mark_consumed now r0)) with (bound_row n j ws ag r0) in Hn.
    rewrite (Hhit _ Hhit0) in Hn. discriminate Hn. apply list_elem_of_In, list_elem_of_fmap. exists r0.
    split; [|done]. by rewrite Hhit0.
Qed.

Section retry.
Context {sv : Services} {ot : Others} {cr : Crypto}.

(** The signing tables, that only the nonce's consumption changes. *)
Definition same_signing (d d' : db) : Prop := signing d' = signing d.
#[local] Instance same_signing_loose : Loose same_signing.
Proof. split; try done. split; [done|]. intros d1 d2 d3 H1 H2. unfold same_signing in *. congruence. Qed.
Lemma alert_signing j s code o : preserves same_signing (alert j s code o).
Proof. intros d d' u. unfold alert, record_event. repeat case_match; try done; by intros [= <- <-]. Qed.
Lemma apply_signing k c j s body : preserves same_signing (apply_result k c j s body).
Proof. apply apply_preserves; [apply _|apply alert_signing]. Qed.

Lemma set_signing_same s (d : db) : signing d = s → set_signing s d = d.
Proof. by intros <-; destruct d. Qed.
(** A result without the reports of enrollments and preflights. *)
Definition plain_result (body : jsval) : Prop :=
  js_String (get "status" body) ≠ "awaiting_issuer" ∧ nullish (get "enrollmentResult" body) = true ∧
  nullish (get "preflightResult" body) = true.
Lemma plain_reports c j s body d : plain_result body → s ≠ awaiting_issuer →
  record_reports c j s body d = Ok (d, tt).
Proof.
  intros (_ & H2 & H3) Hs. unfold record_reports. cbv zeta. by rewrite H2, H3, (bool_decide_eq_false_2 _ Hs).
Qed.
Lemma plain_status body s : plain_result body →
  assoc_get (js_String (get "status" body)) RESULT_STATUS_TO_JOB_STATUS = Some s → s ≠ awaiting_issuer.
Proof.
  intros (Hs & _) H ->. apply Hs. clear Hs. revert H. generalize (js_String (get "status" body)) as t. intros t.
  cbn [assoc_get RESULT_STATUS_TO_JOB_STATUS]. by repeat (case_decide; [done|]).
Qed.
(** What the row says is what the reply said. *)
Lemma apply_reply_row k c j s body d d' r : jobs d !! j_id j = Some j → apply_result k c j s body d = Ok (d', r) →
  ∃ j', jobs d' = <[j_id j := j']> (jobs d) ∧
    r = mkResultReply (j_id j') (j_state j') (r_errorCode (j_row j')) (completedAt (r_times (j_row j'))) false ∧
    (∃ code message meta needs reason clear, updates (result_row (db_now k) s code message meta needs reason clear) j j').
Proof.
  intros Hj. unfold apply_result. intros H. tx_check H Hst. tx_quiet H d1 accepted.
  destruct (result_metadata _ _) as [meta|]; [|done].
  tx_step H d2 updated Eu. apply update_job_ok in Eu as (j0 & Hj0 & Hup & Hjobs & _).
  rewrite E, Hj in Hj0. injection Hj0 as <-.
  tx_quiet H d3 u3. tx_quiet H d4 u4. tx_quiet H d5 u5. tx_quiet H d6 u6. tx_quiet H d7 u7. tx_quiet H d8 u8.
  injection H as <- <-. exists updated. split; [congruence|]. split; [done|]. by do 6 eexists.
Qed.
Lemma result_row_kept now s code message meta needs reason clear j j' :
  updates (result_row now s code message meta needs reason clear) j j' →
  j_id j' = j_id j ∧ j_state j' = s ∧ r_mode (j_row j') = r_mode (j_row j) ∧
  r_workspaceId (j_row j') = r_workspaceId (j_row j) ∧ claimed_by j' = claimed_by j ∧
  claim_id (j_claim j') = claim_id (j_claim j) ∧ is_Some (completedAt (r_times (j_row j'))).
Proof. intros [->|[x ->]]; cbn; by eauto 10. Qed.
End retry.

(** Reporting a result again is harmless.  After a result was accepted (a
    result that reports no enrollment and no preflight), the same body from the
    same agent under the same claim — a retry after a lost answer, with any
    sequence number, at any later time — is answered like the first one, marked
    a duplicate, and changes nothing. *)
Theorem result_retry_harmless {sv : Services} {ot : Others} {cr : Crypto} (k k2 : clock) (c : caller)
    (envelope envelope2 body : jsval) (d d' : db) (r : result_reply) :
  ids_ok (jobs d) → ledger_unique (signing d) → plain_result body →
  ingestResult k c envelope body d = Ok (d', r) → rr_duplicate r = false →
  ingestResult k2 c envelope2 body d' =
    Ok (d', mkResultReply (rr_jobId r) (rr_status r) (rr_errorCode r) (rr_completedAt r) true).
Proof.
  intros Hids Hnd Hplain H Hdup. unfold ingestResult in H |- *.
  destruct (assoc_get _ RESULT_STATUS_TO_JOB_STATUS) as [s|] eqn:Es; [|done].
  pose proof (plain_status _ _ Hplain Es) as Hs. destruct (get "jobId" body) as [| | | |id| |]; try done.
  tx_step H d1 j Ej. apply select_job_ok in Ej as (-> & Hj & Hws). tx_check H Hown. tx_check H Hmode.
  tx_step H d2 u2 E2. rewrite plain_reports in E2 by done. injection E2 as <- <-.
  tx_step H d3 o E3. unfold consume in E3. destruct (consumeNonce _ _ _ _ _ _) as [s' o'] eqn:Ec.
  injection E3 as <- <-. destruct o' as [|code]; [|by case_match; [injection H as _ <-|]].
  tx_step H d4 u4 E4. pose proof (sequence_signing _ _ _ _ _ E4) as S4. apply quiet_sequence in E4.
  pose proof (apply_signing _ _ _ _ _ _ _ _ H) as S5. unfold same_signing in S5. rewrite S4 in S5. cbn in S5, E4.
  pose proof (Hids _ _ Hj) as Hid. rewrite <- Hid in Hj.
  apply apply_reply_row in H as (j' & Hjobs & -> & Hup); [|by rewrite E4].
  destruct Hup as (? & ? & ? & ? & ? & ? & (K1 & K2 & K3 & K4 & K5 & K6 & K7)%result_row_kept).
  rewrite E4, Hid in Hjobs. cbn [rr_jobId rr_status rr_errorCode rr_completedAt].
  unfold select_job, mbind, tx_bind, check, consume. rewrite Hjobs, lookup_insert_eq, K4, Hws.
  rewrite bool_decide_eq_true_2, K5, K6, Hown, K3, Hmode, plain_reports, S5 by done. cbn [fst].
  rewrite (consume_again _ (db_now k2) _ _ _ _ _ _ Hnd Ec), K2, !bool_decide_eq_true_2 by done. cbn.
  by rewrite (set_signing_same _ _ S5).
Qed.
Lemma result_retry_harmless_witness :
  ∃ r, (ex_ended "failed").2 = Ok r ∧ rr_duplicate r = false ∧
    ingestResult (ex_clock 400) ex_caller (ex_message 9) (ex_result "failed") (ex_ended "failed").1 =
      Ok ((ex_ended "failed").1, mkResultReply (rr_jobId r) (rr_status r) (rr_errorCode r) (rr_completedAt r) true).
Proof.
  destruct (ex_ended "failed") as [d' [r|]] eqn:E; [|by vm_compute in E].
  assert (rr_duplicate r = false) as Hdup by (vm_compute in E; by injection E as _ <-).
  apply withTransaction_ok in E. exists r. split; [done|]. split; [done|].
  apply (result_retry_harmless (sv := demo_services) (ex_clock 300) (ex_clock 400) ex_caller (ex_message 3) (ex_message 9)
    (ex_result "failed") ex_renewed.1 d' r).
  - change (map_Forall (λ id j, j_id j = id) (jobs ex_renewed.1)). apply (bool_decide_unpack _). by vm_compute.
  - apply (bool_decide_unpack _). by vm_compute.
  - clear. split; [intros H; vm_compute in H; discriminate H|split; reflexivity].
  - exact E.
  - exact Hdup.
Defined.

(** * No silent failure *)

Section alarms.
Context {sv : Services} {ot : Others} {cr : Crypto}.

(** The intent to alert for a job is in the outbox. *)
Definition alarmed (d : db) (j : job) : Prop :=
  recorded (r_workspaceId (j_row j)) RENEWAL_ALERT_REQUESTED (j_id j) (outbox d).
(** Every failed renewal had failed in [m], or is alarmed. *)
Definition explained (m : gmap string job) (d : db) : Prop :=
  ∀ id j', jobs d !! id = Some j' → alarming j' →
    (∃ j, m !! id = Some j ∧ alarming j ∧ j_state j = j_state j') ∨ alarmed d j'.
Lemma explained_start d : explained (jobs d) d.
Proof. intros id j Hj Ha. left. by exists j. Qed.
Lemma alarmed_later d d' j : outbox d `prefix_of` outbox d' → alarmed d j → alarmed d' j.
Proof. intros [l E] (ev & Hev & H). exists ev. rewrite E. split; [apply elem_of_app; by left|done]. Qed.
Lemma explained_same m d d' : jobs d' = jobs d → outbox d `prefix_of` outbox d' → explained m d → explained m d'.
Proof.
  intros E Ho H id j' Hj Ha. rewrite E in Hj. destruct (H id j' Hj Ha) as [?|?]; [by left|right].
  by eapply alarmed_later.
Qed.
Lemma explained_row m d d' i j' : jobs d' = <[i := j']> (jobs d) → outbox d `prefix_of` outbox d' →
  (alarming j' → alarmed d' j') → explained m d → explained m d'.
Proof.
  intros E Ho Hj' H id x Hx Ha. rewrite E in Hx. apply lookup_insert_Some in Hx as [[_ <-]|[_ Hx]]; [right; auto|].
  destruct (H id x Hx Ha) as [?|?]; [by left|right]. by eapply alarmed_later.
Qed.

Lemma claim_rows_explained k e c a v fresh rows d d' xs :
  pending_rows (db_now k) (c_id c) rows (jobs d) → claim_rows k e c a v fresh rows d = Ok (d', xs) →
  ∀ m, explained m d → explained m d'.
Proof.
  apply (claim_rows_ind k e c a v fresh (λ _ d _ d', ∀ m, explained m d → explained m d')); clear.
  - done.
  - intros j rows d d1 xs d' _ _ _ Ha Hr IH m Hm. apply IH.
    assert (evolves d d1) as [_ _ Ho _ _ _] by (eapply admit_preserves; [apply _|exact Ha]).
    destruct Hr as [E|(j' & E & _ & Hq)]; [by eapply explained_same|by eapply explained_row].
  - intros j rows d d1 d2 needs x xs d' _ _ _ Ha _ Hd Ejx Hup IH m Hm. apply IH.
    assert (evolves d d1) as [_ _ Ho1 _ _ _] by (eapply admit_preserves; [apply _|exact Ha]).
    assert (evolves d1 d2) as [_ _ Ho2 _ _ _]
      by (eapply dispatch_preserves; [apply _|intros; apply sign_evolves|exact Hd]).
    eapply explained_row; [exact Ejx|by etrans| |done]. intros [_ Hs]. exfalso.
    rewrite (proj1 (updates_state _ _ _ Hup)) in Hs. by apply (bool_decide_pack _) in Hs.
Qed.

(** An alert that is worth one is recorded. *)
Lemma alert_recorded j s code o d d' u : alert j s code o d = Ok (d', u) →
  alertWorthy (classifyTerminalTransition (j_operation j) s (Some o)) = true → alarmed d' j.
Proof.
  unfold alert, record_event. cbv zeta. intros H Ha. rewrite Ha in H.
  destruct (enqueueOutboxEvent _ _ _) as [l|] eqn:E; [|done].
  injection H as <- _. by apply enqueue_recorded in E.
Qed.
Definition human (o : origin) : bool := bool_decide (o ∈ HUMAN_DECISION_ORIGINS).
Lemma worthy o s j : j_operation j = renew → human o = false →
  s ∈ [failed; rejected; blocked; cancelled; orphaned_unknown_effect] →
  alertWorthy (classifyTerminalTransition (j_operation j) s (Some o)) = true.
Proof.
  intros -> Ho Hs. apply (bool_decide_pack _) in Hs. by destruct o, s.
Qed.
(** A row that takes its new state from an update of [j] is alarmed with [j]. *)
Lemma alarmed_update f j j' d : updates f j j' → j_id (f j) = j_id j →
  r_workspaceId (j_row (f j)) = r_workspaceId (j_row j) → alarmed d j → alarmed d j'.
Proof.
  unfold alarmed. intros Hup Hid Hws. rewrite (updates_id _ _ _ Hup Hid).
  by replace (r_workspaceId (j_row j')) with (r_workspaceId (j_row j)) by (by destruct Hup as [->|[x ->]]).
Qed.

Lemma end_job_explained j f s code o trust d d' u m : jobs d !! j_id j = Some j → human o = false →
  j_id (f j) = j_id j → r_workspaceId (j_row (f j)) = r_workspaceId (j_row j) →
  j_operation (f j) = j_operation j → j_state (f j) = s →
  end_job j f s code o trust d = Ok (d', u) → explained m d → explained m d'.
Proof.
  intros Hj Ho Hid Hws Hop Hst H Hm. assert (evolves d d') as [_ _ Hout _ _ _].
  { revert H. match goal with |- ?t d = _ → _ => assert (preserves evolves t) as Hp end; [|apply Hp].
    unfold end_job. preserves_tac. }
  unfold end_job in H. tx_quiet H d1 u1. tx_step H d2 j' Eu.
  apply update_job_ok in Eu as (j0 & Hj0 & Hup & Hjobs & _). rewrite E, Hj in Hj0. injection Hj0 as <-.
  tx_quiet H d3 u3. tx_quiet H d4 u4. tx_quiet H d5 u5. pose proof H as Halert. apply quiet_alert in H.
  eapply explained_row; [rewrite H, E2, E1, E0, Hjobs, E; reflexivity|done| |done].
  intros [Hop' Hs']. destruct (updates_state _ _ _ Hup) as [Es Eo].
  eapply alarmed_update; [exact Hup|done..|]. eapply alert_recorded; [exact Halert|].
  apply worthy; [congruence|done|]. rewrite <- Hst. by rewrite Es in Hs'.
Qed.

Lemma renew_explained k e c jobId claimId envelope d d' r : ids_ok (jobs d) →
  renewJobLease k e c jobId claimId envelope d = Ok (d', r) → explained (jobs d) d'.
Proof.
  intros Hids H. pose proof (renew_evolves _ _ _ _ _ _ _ _ _ H) as [_ _ Ho _ _ _].
  unfold renewJobLease in H.
  destruct (nonempty_text jobId) as [id|]; [|done]. destruct (nonempty_text claimId) as [cid|]; [|done].
  tx_quiet H d1 u1. tx_step H d2 j Ej. apply select_job_ok in Ej as (-> & _).
  tx_check H Hk. tx_check H Hown. tx_check H Hst. tx_quiet H d3 u3.
  tx_step H d4 updated Eu. apply update_job_ok in Eu as (j0 & _ & Hup & Hjobs & _).
  tx_quiet H d5 n. injection H as <- <-.
  eapply explained_row; [rewrite E1, Hjobs, E0, E; reflexivity|done| |apply explained_start].
  intros [_ Hs]. exfalso. rewrite (proj1 (updates_state _ _ _ Hup)) in Hs. by apply (bool_decide_pack _) in Hs.
Qed.
Lemma ingest_explained k c envelope body d d' r : ids_ok (jobs d) →
  ingestResult k c envelope body d = Ok (d', r) → explained (jobs d) d'.
Proof.
  intros Hids H. pose proof (ingest_evolves _ _ _ _ _ _ _ H) as [_ _ Ho _ _ _]. unfold ingestResult in H.
  destruct (assoc_get _ RESULT_STATUS_TO_JOB_STATUS) as [s|] eqn:Es; [|done].
  destruct (get "jobId" body) as [| | | |jobId| |]; try done.
  tx_step H d1 j Ej. apply select_job_ok in Ej as (-> & Hj & _).
  tx_check H Hown. tx_check H Hmode. tx_quiet H d2 u2. tx_quiet H d3 outcome.
  destruct outcome as [|nonceCode].
  2: { case_match; [injection H as <- <-|done]. eapply explained_same; [|done|apply explained_start]. congruence. }
  tx_quiet H d4 u4. pose proof (Hids _ _ Hj) as Hid. rewrite <- Hid in Hj.
  unfold apply_result in H. cbv zeta in H. tx_check H Hst. tx_quiet H d5 accepted.
  destruct (result_metadata _ _) as [meta|]; [|done].
  tx_step H d6 updated Eu. apply update_job_ok in Eu as (j0 & Hj0 & Hup & Hjobs & _).
  assert (jobs d5 = jobs d) as E5 by congruence. rewrite E5, Hj in Hj0. injection Hj0 as <-.
  tx_quiet H d7 u7. tx_quiet H d8 u8. tx_quiet H d9 u9. tx_quiet H d10 u10. tx_quiet H d11 u11.
  tx_step H d12 u12 Ealert. injection H as <- _. pose proof Ealert as Eq%quiet_alert.
  assert (jobs d12 = <[j_id j := updated]> (jobs d)) as Ejobs by congruence.
  eapply explained_row; [exact Ejobs|done| |apply explained_start].
  intros [Hop Hs']. destruct (updates_state _ _ _ Hup) as [Hst' Hop'].
  eapply alarmed_update; [exact Hup|done..|]. eapply alert_recorded; [exact Ealert|].
  apply worthy; [by rewrite <- Hop, Hop'|done|]. by rewrite Hst' in Hs'.
Qed.
Lemma reap_row_explained now off grace j d d' x m : jobs d !! j_id j = Some j →
  reap_row now off grace j d = Ok (d', x) → explained m d → explained m d'.
Proof.
  intros Hj H Hm. pose proof (reap_row_preserves evolves ltac:(auto with preserves) _ _ _ _ _ _ _ H) as [_ _ Ho _ _ _].
  unfold reap_row in H. cbv zeta in H.
  destruct (agent_alive now off d j && negb (past_hard_grace now grace j)); [by injection H as <- _|].
  destruct (hasRetryBudget j); [|destruct (sideEffectsPossible j)].
  - tx_quiet H d1 u1. tx_step H d2 j' Eu. apply update_job_ok in Eu as (j0 & _ & Hup & Hjobs & _).
    tx_quiet H d3 u3. injection H as <- _. eapply explained_row; [rewrite E0, Hjobs, E; reflexivity|done| |done].
    intros [_ Hs]. exfalso. rewrite (proj1 (updates_state _ _ _ Hup)) in Hs. by apply (bool_decide_pack _) in Hs.
  - tx_step H d1 u1 E. injection H as <- _. by eapply end_job_explained in E.
  - tx_step H d1 u1 E. injection H as <- _. by eapply end_job_explained in E.
Qed.
Lemma claim_explained k e busy fresh c envelope body d d' xs : ids_ok (jobs d) →
  claimJobs k e busy fresh c envelope body d = Ok (d', xs) → explained (jobs d) d'.
Proof.
  intros Hids H. apply poll_rows in H as [[_ E]|(o & v & d3 & E & _ & _ & H)].
  - rewrite <- E. apply explained_start.
  - eapply claim_rows_explained; [|exact H|rewrite <- E; apply explained_start].
    apply candidates_pending. by rewrite E.
Qed.
(** A property that every turn of a loop keeps, each turn changing at most its
    own row. *)
Lemma rows_keep (Q : db → Prop) (rows : list job) (step : job → tx unit) (P : job → Prop) d d' u :
  NoDup (map j_id rows) → Forall (λ j, jobs d !! j_id j = Some j ∧ P j) rows →
  (∀ j d d' u, jobs d !! j_id j = Some j → P j → step j d = Ok (d', u) →
     (jobs d' = jobs d ∨ ∃ j', jobs d' = <[j_id j := j']> (jobs d)) ∧ (Q d → Q d')) →
  each step rows d = Ok (d', u) → Q d → Q d'.
Proof.
  intros Hnd Hf Hstep. revert d Hf. induction rows as [|j rows IH]; intros d Hf H HQ; cbn [each] in H.
  { by injection H as <- <-. }
  apply NoDup_cons in Hnd as [Hj Hnd]. apply Forall_cons in Hf as [[Hm HP] Hf].
  tx_step H d1 u1 Ej. destruct (Hstep j d d1 u1 Hm HP Ej) as [E HQ1]. apply (IH Hnd d1); [|done|auto].
  rewrite Forall_forall in *. intros x Hx. destruct (Hf x Hx) as [Hl HPx]. split; [|done].
  destruct E as [->|(j' & ->)]; [done|]. rewrite lookup_insert_ne; [done|]. intros Eid. apply Hj. rewrite Eid.
  by apply list_elem_of_fmap_2.
Qed.
Lemma reap_explained k busy n off grace d d' xs : ids_ok (jobs d) →
  reapExpiredLeases k busy n off grace d = Ok (d', xs) → explained (jobs d) d'.
Proof.
  intros Hids H. unfold reapExpiredLeases in H. tx_step H d1 rows Er. injection Er as <- <-.
  apply reap_rows_each in H.
  destruct (chosen_rows lease_le (λ j, negb (busy (j_id j)) && expired_lease (db_now k) j) n _ Hids) as [Hnd Hf].
  eapply (rows_keep (explained (jobs d)) _ _ (λ j, expired_lease (db_now k) j = true)); [exact Hnd| | |exact H|].
  - eapply Forall_impl; [exact Hf|]. cbn. by intros j [Hj [_ Hp]%andb_prop].
  - intros j d2 d3 [] Hj Hp Ej. tx_step Ej d4 x Ex. injection Ej as <-. split.
    + destruct (reap_row_ok (mkEnv None None None None) _ _ _ _ _ _ _ Hj Hp Ex) as [->|(j' & -> & _)]; eauto.
    + by eapply reap_row_explained.
  - apply explained_start.
Qed.

(** The two UPDATEs of a forced retirement. *)
Lemma each_updates f rows d d' u : each (λ j, _ ← update_job (j_id j) f; mret tt) rows d = Ok (d', u) →
  NoDup (map j_id rows) → Forall (λ j, jobs d !! j_id j = Some j) rows →
  ∀ id j', jobs d' !! id = Some j' → jobs d !! id = Some j' ∨ ∃ j, j ∈ rows ∧ updates f j j'.
Proof.
  revert d. induction rows as [|j rows IH]; intros d H Hnd Hf id j' Hj'; cbn [each] in H.
  { injection H as <- _. by left. }
  tx_step H d1 u1 E. tx_step E d2 j1 Eu. injection E as <- _.
  apply update_job_ok in Eu as (j0 & Hj0 & Hup & Hjobs & _). apply Forall_cons in Hf as [Hj Hf].
  rewrite Hj in Hj0. injection Hj0 as <-. cbn in Hnd. apply NoDup_cons in Hnd as [Hni Hnd].
  destruct (IH d2 H Hnd) with id j' as [Hl|(i & Hi & Hup')]; [|done| |right; exists i; split; [by right|done]].
  - rewrite Forall_forall in *. intros x Hx. rewrite Hjobs, lookup_insert_ne; [by apply Hf|].
    intros Eid. apply Hni. rewrite Eid. by apply list_elem_of_fmap_2.
  - rewrite Hjobs in Hl. apply lookup_insert_Some in Hl as [[_ <-]|[_ Hl]]; [right|by left].
    exists j. split; [by left|done].
Qed.
Lemma each_alarmed (step : job → tx unit) rows d d' u :
  (∀ j, preserves evolves (step j)) →
  (∀ j d d' u, step j d = Ok (d', u) → j_operation j = renew → alarmed d' j) →
  each step rows d = Ok (d', u) → ∀ j, j ∈ rows → j_operation j = renew → alarmed d' j.
Proof.
  intros Hev Hstep. revert d. induction rows as [|i rows IH]; intros d H j Hj Hop; cbn [each] in H.
  { by apply elem_of_nil in Hj. }
  tx_step H d1 u1 E. apply elem_of_cons in Hj as [->|Hj]; [|by eapply IH].
  apply Hstep in E; [|done]. eapply alarmed_later; [|exact E].
  assert (preserves evolves (each step rows)) as Hp by (apply preserves_each; [apply _|done]).
  apply (Hp _ _ _ H).
Qed.
Lemma fence_explained k a reason d d' u : ids_ok (jobs d) →
  fenceAgentInFlightWork k a reason d = Ok (d', u) → explained (jobs d) d'.
Proof.
  intros Hids H. unfold fenceAgentInFlightWork in H. cbv zeta in H.
  tx_step H d1 held Er. injection Er as <- <-. tx_step H d2 u2 E2. tx_step H d3 started Er. injection Er as <- <-.
  tx_step H d4 u4 E4. tx_step H d5 u5 E5.
  assert (jobs d' = jobs d4) as Ej.
  { match type of E5 with ?m _ = _ => assert (Q5 : quiet m) by (apply quiet_each; quiet_tac) end.
    match type of H with ?m _ = _ => assert (Q6 : quiet m) by (apply quiet_each; quiet_tac) end.
    pose proof (Q5 _ _ _ E5). pose proof (Q6 _ _ _ H). congruence. }
  assert (ids_ok (jobs d2)) as Hids2.
  { eapply moves_ids; [|exact Hids]. eapply (fence_pass (db_now k) (mkEnv None None None None)); [done| | |exact E2];
      [by left|by split; [|split; first [done|left]]]. }
  destruct (fence_rows (db_now k) claimed a d Hids) as [Hnd1 Hr1].
  destruct (fence_rows (db_now k) running a d2 Hids2) as [Hnd2 Hr2].
  assert (evolves d5 d') as [_ _ Ho _ _ _].
  { revert H. match goal with |- ?t d5 = _ → _ => assert (preserves evolves t) as Hp by preserves_tac end. apply Hp. }
  pose proof (each_updates _ _ _ _ _ E2 Hnd1 (Forall_impl _ _ _ Hr1 (λ j H, proj1 H))) as U2.
  pose proof (each_updates _ _ _ _ _ E4 Hnd2 (Forall_impl _ _ _ Hr2 (λ j H, proj1 H))) as U4.
  intros id j' Hj' [Hop Hst]. rewrite Ej in Hj'.
  assert (Hal : ∀ f j d0, updates f j j' → j_id (f j) = j_id j → j_operation (f j) = j_operation j →
    r_workspaceId (j_row (f j)) = r_workspaceId (j_row j) → (j_operation j = renew → alarmed d0 j) → alarmed d0 j').
  { intros f j d0 Hup H1 H2 H3 H4. eapply alarmed_update; [exact Hup|done..|]. apply H4.
    rewrite <- H2, <- (proj2 (updates_state _ _ _ Hup)). done. }
  destruct (U4 id j' Hj') as [Hj2|(j & Hin & Hup)]; [destruct (U2 id j' Hj2) as [Hj0|(j & Hin & Hup)]|].
  - left. by exists j'.
  - right. eapply alarmed_later; [exact Ho|]. eapply Hal; [exact Hup|done..|]. intros Hr.
    eapply each_alarmed; cycle 2; [exact E5|exact Hin|exact Hr|intros i; cbv beta; preserves_tac|].
    intros i e1 e2 x He Hi. tx_step He e3 y Hy. eapply alert_recorded; [exact He|]. by rewrite Hi.
  - right. eapply Hal; [exact Hup|done..|]. intros Hr.
    eapply each_alarmed; cycle 2; [exact H|exact Hin|exact Hr|intros i; cbv beta; preserves_tac|].
    intros i e1 e2 x He Hi. eapply alert_recorded; [exact He|]. by rewrite Hi.
Qed.
Lemma handled_explained e k c envelope r d d' b : ids_ok (jobs d) → handle e k c envelope r d = Ok (d', b) →
  explained (jobs d) d'.
Proof.
  intros Hids. destruct r; cbn [handle]; intros H; tx_step H d1 x E; injection H as <- _.
  - by eapply claim_explained.
  - by eapply renew_explained.
  - by eapply ingest_explained.
Qed.
End alarms.

