(* ===== verification/ClaimApproval.v ===== *)
(** Approvals and dispatch together: a job that carries an approval is given
    out as it was approved, or not at all. *)
From stdpp Require Import relations.
From S2P Require Import Prelude Dates Json Jobs JobFields RenewalCapacity Signing JobSigning.
From S2P Require Import JobRequest Eligibility AlertPolicy Dispatch Approvals Ingest Claim Reaper.
From S2P Require Import ClaimExample ClaimSystem ClaimSafety ClaimGuarantees.
Open Scope Z_scope.

(** * Recorded approvals *)

Section approvals.
Context {sv : Services} {ot : Others} {cr : Crypto} (e : environment).

Definition approval_label (l : label) : bool := match l with LApprove _ _ => true | _ => false end.
(** The approval of [j], if it has one, is that of [j0]. *)
Definition same_approval (j0 j : job) : Prop :=
  is_Some (approved_payload_hash (j_approval j)) → j_approval j = j_approval j0.
Lemma updates_approval f j j' : updates f j j' → j_approval j' = j_approval (f j).
Proof. by intros [->|[reason ->]]. Qed.
(** Only an approval approves. *)
Lemma move_approval t j ls j' : move t e j ls j' → existsb approval_label ls = false → same_approval j j'.
Proof.
  intros Hmv. unfold same_approval.
  destruct Hmv as [k a c j j' Hk Hag Hd Hv Hup|k a c j j' Hk Hag Ha Hh Hl Hup|a c s co ms meta ne re cl j j' Ha Hh Hl Hm Hs Hup|
    j j' Hbud Hup|f j j' Hl Ht Hkp Hup|a j j' Hd Hup|seen w user rh hash intent j j' Hs Hma Hun Hsid Hup|
    reason j j' Hs Hup|status j j' Hm Hr Hat Hs Hup|j ls j' Hc|j j' Hla];
    try (pose proof (updates_approval _ _ _ Hup) as Hu; cbn in Hu); intros Hno; try done.
  - rewrite Hu. intros _. apply Hkp.
  - rewrite Hu. by intros [].
  - intros _. apply (cn_approval _ _ _ Hc).
  - destruct (la_approval _ _ Hla) as [->|[-> _]]; [done|]. by intros [].
Qed.
Lemma moves_approval t m ls m' : moves t e m ls m' → existsb approval_label ls = false →
  ∀ id j, m' !! id = Some j → is_Some (approved_payload_hash (j_approval j)) →
  ∃ j0, m !! id = Some j0 ∧ j_approval j = j_approval j0.
Proof.
  induction 1 as [m|m i x ls x' ls' m' Hx Hs _ IH|m i r tm ls m' Hx Hr _ IH]; intros Hno id j Hj Hh; [eauto|..].
  - rewrite existsb_app in Hno. apply orb_false_iff in Hno as [Hno1 Hno2].
    destruct (IH Hno2 id j Hj Hh) as (j0 & [[<- <-]|[_ Hj0]]%lookup_insert_Some & Ha); [|by exists j0].
    exists x. split; [done|]. rewrite Ha. apply (move_approval _ _ _ _ Hs Hno1). by rewrite <- Ha.
  - destruct (IH Hno id j Hj Hh) as (j0 & [[<- <-]|[_ Hj0]]%lookup_insert_Some & Ha); [|by exists j0].
    rewrite Ha in Hh. cbn in Hh. by destruct Hh.
Qed.

(** The approval of a row after a step is the one it had, or the step is the
    approval. *)
Definition approves (d d' : db) (id : string) (j : job) (h user : string) (seen : job) : Prop :=
  ∃ k reviewHash intent, approveJob k seen user reviewHash d = (d', Ok tt) ∧ j_id seen = id ∧
    may_approve (others d) seen user reviewHash = Ok (h, intent) ∧
    approved_canonical_intent_hash (j_approval j) = Some intent.
Lemma silent_labels {A} (f : A → list label) (r : result dispatch_error A) :
  (∀ a, existsb approval_label (f a) = false) → existsb approval_label (labels_of f r) = false.
Proof. intros H. destruct r; [apply H|done]. Qed.
Lemma step_approval t d ls d' id j h : ids_ok (jobs d) → sys_step e t d ls d' → jobs d' !! id = Some j →
  approved_payload_hash (j_approval j) = Some h →
  (∃ j0, jobs d !! id = Some j0 ∧ j_approval j = j_approval j0) ∨
  ∃ user seen, ls = [LApprove id user] ∧ approves d d' id j h user seen.
Proof.
  intros Hids Hs Hj Hh. pose proof (step_moves e _ _ _ _ Hids Hs) as Hm.
  destruct Hs as [k busy fresh c envelope body d d' r Hk H|k c jobId claimId envelope d d' r Hk Hc H|
    k c envelope body d d' r Hk Hc H|k busy n off d d' r Hk H|k a reason d d' r Hk H|k seen user rh d d' r Hk H|
    k i ws user reason d d' r Hk H|ws jobId d d' r H|i x ls x' d d' Hx Hn E|i x x' d d' Hx Hl E|i tm r d d' Hx Hr E|d d' E].
  6: { clear Hm. pose proof H as Hap. apply approve_ok in H. destruct r as [[]|err]; [|subst d'; left; by exists j].
    destruct H as (hash & intent & x & x' & Hma & Hx & Hu & Hup & E). rewrite E in Hj.
    apply lookup_insert_Some in Hj as [[<- <-]|[_ Hj]]; [right|left; by exists j]. exists user, seen.
    split; [done|]. exists k, rh, intent. split; [done|]. split; [done|].
    rewrite (updates_approval _ _ _ Hup) in Hh |- *. injection Hh as <-. done. }
  all: left; eapply moves_approval; [exact Hm| |exact Hj|by rewrite Hh]; try done.
  - apply silent_labels. intros xs. unfold claim_labels. by induction xs.
  - by apply silent_labels.
  - apply silent_labels. intros x. unfold result_labels. by destruct (rr_duplicate x).
  - by apply silent_labels.
  - destruct (cn_state _ _ _ Hn) as [(-> & _)|(-> & _)]; done.
Qed.
Lemma run_approval d0 ls d id j h : ids_ok (jobs d0) → sys_run e d0 ls d → jobs d !! id = Some j →
  approved_payload_hash (j_approval j) = Some h →
  (∃ j0, jobs d0 !! id = Some j0 ∧ j_approval j = j_approval j0) ∨
  ∃ user seen ls1 d1 d2 ls2, ls = ls1 ++ LApprove id user :: ls2 ∧
    sys_run e d0 ls1 d1 ∧ approves d1 d2 id j h user seen ∧ sys_run e d2 ls2 d.
Proof.
  intros Hids Hr Hj Hh. induction Hr as [d|t d ls d1 ls' d' Hs Hr IH]; [left; by exists j|].
  assert (ids_ok (jobs d1)) as Hids1.
  { pose proof (step_moves e _ _ _ _ Hids Hs) as Hm. by eapply moves_ids. }
  destruct (IH Hids1 Hj) as [(j1 & Hj1 & Ha)|(user & seen & ls1 & d2 & d3 & ls2 & -> & H1 & H2 & H3)].
  - rewrite Ha in Hh. destruct (step_approval _ _ _ _ _ _ _ Hids Hs Hj1 Hh) as [(j0 & Hj0 & Ha0)|(user & seen & -> & H)].
    + left. exists j0. split; [done|congruence].
    + right. exists user, seen, [], d, d1, ls'. split; [done|]. split; [constructor|]. split; [|done].
      destruct H as (k & rh & intent & H). exists k, rh, intent. by rewrite Ha.
  - right. exists user, seen, (ls ++ ls1), d2, d3, ls2. split; [by rewrite <- (assoc_L app)|].
    split; [by econstructor|done].
Qed.
Lemma run_ids d ls d' : ids_ok (jobs d) → sys_run e d ls d' → ids_ok (jobs d').
Proof.
  intros Hids Hr. induction Hr as [|t d ls d1 ls' d' Hs _ IH]; [done|]. apply IH.
  apply step_moves in Hs; [|done]. apply (moves_ids _ _ _ _ _ Hs Hids).
Qed.

(** A decision to approve hashes the canonical intent of the row it saw, of
    another user's request. *)
Lemma may_approve_ok w seen user rh h intent : may_approve w seen user rh = Ok (h, intent) →
  j_state seen = pending_approval ∧ r_requestedByUserId (j_row seen) ≠ Some user ∧ (∃ t, h = sha256 t) ∧
  ∃ t, canonicalizeJobPayload (buildCanonicalExecutionIntent seen) = Ok t ∧ intent = sha256 t.
Proof.
  unfold may_approve, computeJobPayloadApprovalHash, computeCanonicalIntentHash, mbind, result_bind, ensure.
  intros H. destruct (bool_decide (j_state seen = pending_approval)) eqn:Es; [|done]. apply bool_decide_eq_true in Es.
  split; [done|].
  destruct (bool_decide (r_requestedByUserId _ = _)) eqn:Eu; cbv beta iota delta [negb] in H; [done|]. apply bool_decide_eq_false in Eu.
  split; [done|].
  destruct (requestApprovable w seen); [|done].
  match type of H with match ?m with Ok _ => _ | Err _ => _ end = _ => destruct m as [[]|]; [|done] end.
  match type of H with match ?m with Ok _ => _ | Err _ => _ end = _ => destruct m as [[]|]; [|done] end.
  destruct (canonicalizeJobPayload (plain_object _)) as [t1|]; [|done].
  destruct (canonicalizeJobPayload (buildCanonicalExecutionIntent seen)) as [t2|]; [|done].
  injection H as <- <-. split; by eexists.
Qed.
(** The check before dispatch recomputes it. *)
Lemma approval_holds j h intent : approval_void j = Ok None → h ≠ EmptyString → intent ≠ EmptyString →
  approved_payload_hash (j_approval j) = Some h → approved_canonical_intent_hash (j_approval j) = Some intent →
  ∃ t, canonicalizeJobPayload (buildCanonicalExecutionIntent j) = Ok t ∧ intent = sha256 t.
Proof.
  unfold approval_void, computeCanonicalIntentHash, mbind, result_bind. intros H Hh Hi Ep Ei. rewrite Ep, Ei in H.
  destruct h as [|a h]; [done|]. destruct intent as [|b intent]; [done|].
  destruct (computeJobPayloadApprovalHash _) as [ch|]; [|done].
  destruct (canonicalizeJobPayload (buildCanonicalExecutionIntent j)) as [t|]; [|done]. exists t. split; [done|].
  destruct (bool_decide (ch = _)); cbv beta iota delta [negb orb] in H; [|done].
  destruct (bool_decide (String b intent = sha256 t)) eqn:E; [|done]. by apply bool_decide_eq_true in E.
Qed.

(** A table without approvals. *)
Definition unapproved (m : gmap string job) : Prop :=
  ∀ id j, m !! id = Some j → approved_payload_hash (j_approval j) = None.
(** Two rows have the same canonical intent as text, or their texts are a
    SHA-256 collision. *)
Definition same_intent (seen j : job) : Prop :=
  ∃ shown sent, canonicalizeJobPayload (buildCanonicalExecutionIntent seen) = Ok shown ∧
    canonicalizeJobPayload (buildCanonicalExecutionIntent j) = Ok sent ∧
    (shown = sent ∨ shown ≠ sent ∧ sha256 shown = sha256 sent).
End approvals.


(** * A run with an approval *)

Definition ex_awaiting : db :=
  mkDispatch {["j1" := fresh_job (at_s 0) (with_state pending_approval ex_row)]} {["a1" := ex_agent]} toy_db
    [] [] [] [] tt.
Definition ex_seen : job := fresh_job (at_s 0) (with_state pending_approval ex_row).
Definition ex_approved : db * result approval_error unit :=
  approveJob (sv := demo_services) (ex_clock 5) ex_seen "8" None ex_awaiting.
Definition ex_given : db * result dispatch_error (list dispatched) :=
  withTransaction (claimJobs (sv := demo_services) (ex_clock 10) ex_env (λ _, false) ex_fresh ex_caller
                     (ex_message 1) ex_poll) ex_approved.1.
Definition ex_dispatched : dispatched :=
  match ex_given.2 with Ok (x :: _) => x | _ => mkDispatched ex_seen Null end.

(** C6: a job is dispatched as it was approved.  In every run that starts with
    no approval recorded, a job that a poll gives out and whose row carries an
    approval was approved in the run: the run has a transaction [approveJob],
    committed, in which a user other than the job's requester approved a row of
    that job that awaited approval; and the canonical execution intent of the
    row approved — operation, subject, target, profile, command, operator
    routing and payload — is, as text, that of the row given out, unless the
    two texts are a SHA-256 collision.  Whatever else happens to the payload in
    between, a changed one is not given out under the old approval. *)
Theorem dispatched_as_approved {sv : Services} {ot : Others} {cr : Crypto} (e : environment) (k : clock)
    (busy : string → bool) (fresh : string → string * list string) (c : caller) (envelope body : jsval)
    (d0 d d' : db) (ls : list label) (xs : list dispatched) (x : dispatched) (h : string) :
  (∀ t, sha256 t ≠ EmptyString) → ids_ok (jobs d0) →
  unapproved (jobs d0) →
  sys_run e d0 ls d → claimJobs k e busy fresh c envelope body d = Ok (d', xs) → x ∈ xs →
  approved_payload_hash (j_approval (dd_job x)) = Some h →
  ∃ ls1 d1 k1 seen user reviewHash d2 ls2 j,
    ls = ls1 ++ LApprove (j_id (dd_job x)) user :: ls2 ∧
    sys_run e d0 ls1 d1 ∧ approveJob k1 seen user reviewHash d1 = (d2, Ok tt) ∧ sys_run e d2 ls2 d ∧
    j_id seen = j_id (dd_job x) ∧ j_state seen = pending_approval ∧ r_requestedByUserId (j_row seen) ≠ Some user ∧
    jobs d !! j_id (dd_job x) = Some j ∧ same_intent seen j.
Proof.
  intros Hsha Hids0 H0 Hrun H Hx Hh. pose proof (run_ids e _ _ _ Hids0 Hrun) as Hids.
  apply poll_rows in H as [[-> _]|(o & v & d3 & Ej & _ & _ & H)]; [by apply elem_of_nil in Hx|].
  rewrite <- Ej in Hids. pose proof (candidates_pending busy (db_now k) c o (claim_maxJobs body) d3 Hids) as Hp.
  destruct (claim_rows_given k e c fresh _ _ _ _ _ _ Hp H) as (_ & _ & Hg). rewrite Forall_forall in Hg.
  destruct (Hg x Hx) as (j & before & after & e1 & ys & Hsel & _ & Hl & Hup & _).
  assert (jobs d !! j_id j = Some j) as Hj.
  { rewrite <- Ej. eapply candidates_of; [done|]. rewrite Hsel, elem_of_app. right. by left. }
  pose proof (updates_approval _ _ _ Hup) as Hua. cbn in Hua. rewrite Hua in Hh.
  assert (j_id (dd_job x) = j_id j) as -> by exact (updates_id _ _ _ Hup eq_refl).
  destruct (run_approval e _ _ _ _ _ _ Hids0 Hrun Hj Hh)
    as [(j0 & Hj0 & Ha)|(user & seen & ls1 & d1 & d2 & ls2 & -> & H1 & H2 & H3)].
  { by rewrite Ha, (H0 _ _ Hj0) in Hh. }
  destruct H2 as (k1 & rh & intent & Hap & Hsid & Hma & Hin).
  destruct (may_approve_ok _ _ _ _ _ _ Hma) as (Hst & Hu & (t0 & Et0) & shown & Hshown & Eshown).
  destruct (approval_holds j h intent) as (sent & Hsent & Esent); [by eapply lw_approval|by rewrite Et0
    |by rewrite Eshown|done|done|].
  exists ls1, d1, k1, seen, user, rh, d2, ls2, j. do 8 (split; [done|]). exists shown, sent. do 2 (split; [done|]).
  destruct (decide (shown = sent)) as [->|Hne]; [by left|right]. split; [done|congruence].
Qed.
Lemma dispatched_as_approved_witness :
  ∃ seen user j, jobs ex_approved.1 !! "j1" = Some j ∧ r_requestedByUserId (j_row seen) ≠ Some user ∧
    same_intent (sv := demo_services) seen j.
Proof.
  destruct (approved_payload_hash (j_approval (dd_job ex_dispatched))) as [h|] eqn:Eh; [|by vm_compute in Eh].
  destruct (dispatched_as_approved (sv := demo_services) ex_env (ex_clock 10) (λ _, false) ex_fresh ex_caller
    (ex_message 1) ex_poll ex_awaiting ex_approved.1 ex_given.1 [LApprove "j1" "8"] [ex_dispatched] ex_dispatched h)
    as (ls1 & d1 & k1 & seen & user & rh & d2 & ls2 & j & _ & _ & _ & _ & _ & _ & Hu & Hj & H).
  - intros t. cbn. done.
  - intros id j. cbn. by intros [<- <-]%lookup_singleton_Some.
  - intros id j. cbn. by intros [<- <-]%lookup_singleton_Some.
  - apply (sys_cons _ (at_s 5) _ [LApprove "j1" "8"] ex_approved.1 []); [|constructor].
    refine (sys_approve _ (at_s 5) (ex_clock 5) ex_seen "8" None _ _ ex_approved.2 eq_refl _).
    apply surjective_pairing.
  - apply withTransaction_ok. vm_compute. reflexivity.
  - by apply list_elem_of_singleton.
  - exact Eh.
  - exists seen, user, j. split; [|exact (conj Hu H)].
    replace "j1"%string with (j_id (dd_job ex_dispatched)) by (vm_compute; reflexivity). exact Hj.
Defined.
