(* ===== verification/ClaimDelivery.v ===== *)
(** From the poll to the agent: the signed payload of a claimed job, the nonce
    it may report under, and what the agent's verifier makes of it. *)
From stdpp Require Import relations.
From S2P Require Import Prelude Dates Json Jobs JobFields RenewalCapacity Gate Signing JobSigning.
From S2P Require Import JobRequest Eligibility AlertPolicy Dispatch Approvals Ingest Claim Reaper.
From S2P Require Import ClaimExample Evolution ClaimSystem ClaimGuarantees.
Open Scope Z_scope.

(** * The fields of the payload *)

Lemma set_fields_get key l fs : key ∉ l.*1 → assoc_get key (set_fields l fs) = assoc_get key fs.
Proof.
  unfold set_fields. revert fs. induction l as [|[k v] l IH]; intros fs; cbn; [done|].
  rewrite not_elem_of_cons. intros [Hne Hl]. rewrite IH by done. by rewrite assoc_get_set_ne.
Qed.
Lemma set_fields_in key v l fs : NoDup l.*1 → (key, v) ∈ l → assoc_get key (set_fields l fs) = Some v.
Proof.
  revert fs. induction l as [|[k v'] l IH]; intros fs; cbn; [by intros _ ?%elem_of_nil|].
  intros [Hk Hnd]%NoDup_cons [[= -> ->]|Hin]%elem_of_cons; [|by apply IH].
  fold (set_fields l (assoc_set k v' fs)). rewrite set_fields_get by done. apply assoc_get_set_eq.
Qed.
Lemma set_fields_wf l fs : Forall (λ kv, wf kv.2) l → wf (Obj fs) → wf (Obj (set_fields l fs)).
Proof.
  unfold set_fields. intros Hl. revert fs. induction Hl as [|[k v] l Hv Hl IH]; intros fs Hfs; cbn; [done|].
  apply IH. by apply assoc_set_wf.
Qed.
Lemma set_unless_get key b k v fs : key ≠ k → assoc_get key (set_unless b k v fs) = assoc_get key fs.
Proof. intros. unfold set_unless. destruct b; [done|]. by rewrite assoc_get_set_ne. Qed.
Lemma set_unless_wf b k v fs : wf v → wf (Obj fs) → wf (Obj (set_unless b k v fs)).
Proof. unfold set_unless. destruct b; [done|]. apply assoc_set_wf. Qed.

Lemma set_defined_get key k v fs : key ≠ k → assoc_get key (set_defined k v fs) = assoc_get key fs.
Proof. intros. unfold set_defined. destruct v; by rewrite ?assoc_get_set_ne. Qed.
Lemma set_defined_wf k v fs : wf v → wf (Obj fs) → wf (Obj (set_defined k v fs)).
Proof. intros Hv Hfs. unfold set_defined. destruct v; try done; by apply assoc_set_wf. Qed.

(** The keys that are filled in after the claim's own fields. *)
Definition attached_keys : list string :=
  ["certificatePem"; "certificatePemSha256"; "target"; "sans"; "certificateId"; "pem"; "transitionGeneration";
   "requestedAt"].
Lemma attach_sans_get key sans fs : key ≠ "sans" → assoc_get key (attach_sans sans fs) = assoc_get key fs.
Proof. intros. unfold attach_sans. repeat case_match; by rewrite ?assoc_get_set_ne. Qed.
Lemma attach_reference_get key cn target fs : key ≠ "target" →
  assoc_get key (attach_reference cn target fs) = assoc_get key fs.
Proof. intros. unfold attach_reference. repeat case_match; by rewrite ?assoc_get_set_ne. Qed.
Lemma attach_get key pc fs : key ∉ attached_keys → assoc_get key (attach_certificate pc fs) = assoc_get key fs.
Proof.
  unfold attached_keys. rewrite !not_elem_of_cons. intros (H1 & H2 & H3 & H4 & _). unfold attach_certificate.
  cbv zeta. by rewrite attach_reference_get, attach_sans_get, !assoc_get_set_ne.
Qed.
Lemma attach_wf pc fs : wf (pc_fingerprint pc) → wf (Obj fs) → wf (Obj (attach_certificate pc fs)).
Proof.
  intros Hf Hfs. unfold attach_certificate. cbv zeta. set (fs1 := assoc_set _ _ (assoc_set _ _ fs)).
  assert (wf (Obj fs1)) as H1 by (by repeat apply assoc_set_wf).
  assert (wf (Obj (payload_target fs1))) as H2.
  { unfold payload_target. pose proof (get_wf "target" (Obj fs1) H1).
    assert (wf (Obj [])) by (split; [constructor|done]). by case_match. }
  set (target := attach_fingerprint _ _).
  assert (wf (Obj target)) as H3.
  { unfold target, attach_fingerprint. case_match; [by apply assoc_set_wf|done]. }
  assert (wf (Obj (attach_sans (pc_sans pc) (assoc_set "target" (Obj target) fs1)))) as H4.
  { assert (∀ l, wf (Arr (map Str l))) by (intros l; apply wf_arr; by apply Forall_map, Forall_true).
    unfold attach_sans. repeat case_match; by repeat apply assoc_set_wf. }
  unfold attach_reference. repeat case_match; try done. apply assoc_set_wf; [|done].
  apply assoc_set_wf; [done|]. apply assoc_set_wf; [|done]. unfold js_or. case_match; [by apply get_wf|done].
Qed.

(** * What a claim delivers *)

(** Values of the services are JSON, and what an enrollment attaches does not
    name the fields of the claim. *)
Class JsonServices {ot : Others} : Prop := {
  json_certificate w ws id row : managedCertificate w ws id = Some row → wf (fingerprint_sha256 row);
  json_trust w j w' pem gen : revalidateTrustJob w j = (w', Ok (pem, gen)) → wf pem ∧ wf gen;
  json_enrollment w j w' fs : attachEnrollment w j = Ok (w', Some fs) →
    Forall (λ kv, wf kv.2) fs ∧
    ∀ key, key ∈ "envelopeVersion" :: (claim_fields (mkCaller "" "" "" false) j).*1 → key ∉ fs.*1 }.

Section delivery.
Context {sv : Services} {ot : Others} {cr : Crypto} {js : JsonServices}.

Lemma claim_fields_keys c j : (claim_fields c j).*1 =
  ["jobId"; "workspaceId"; "agentId"; "action"; "mode"; "claimId"; "attemptId"; "leaseExpiresAt"; "attemptCount"].
Proof. done. Qed.
Lemma claim_field_free c j key v : (key, v) ∈ claim_fields c j → ¬ dispatch_key key.
Proof.
  intros Hin. assert (key ∈ (claim_fields c j).*1) as Hk by (apply list_elem_of_fmap; by exists (key, v)).
  rewrite claim_fields_keys in Hk. intros Hd.
  assert (Forall (λ k, k ∉ ["nonce"; "issuedAt"; "expiresAt"; "signingKeyId"; "signature"; "__proto__"])
    (claim_fields c j).*1) as HF by (rewrite claim_fields_keys; apply (bool_decide_unpack _); by vm_compute).
  rewrite claim_fields_keys, Forall_forall in HF. by eapply HF.
Qed.
Lemma payload_get key c j pc trust enrollment : key ∉ attached_keys → key ∉ enrollment.*1 →
  assoc_get key (dispatch_payload c j pc trust enrollment) = assoc_get key (base_payload c j).
Proof.
  intros Hk He. pose proof Hk as Hk'. unfold attached_keys in Hk'. rewrite !not_elem_of_cons in Hk'.
  destruct Hk' as (H1 & H2 & H3 & H4 & H5 & H6 & H7 & H8 & _).
  unfold dispatch_payload. cbv zeta.
  rewrite set_fields_get, set_unless_get, set_defined_get, set_unless_get by done. repeat case_match; rewrite ?set_unless_get by done; by rewrite ?attach_get.
Qed.
Lemma payload_field key v c j pc trust enrollment : (key, v) ∈ claim_fields c j → key ∉ enrollment.*1 →
  assoc_get key (dispatch_payload c j pc trust enrollment) = Some v.
Proof.
  intros Hin He. assert (key ∈ (claim_fields c j).*1) as Hk by (apply list_elem_of_fmap; by exists (key, v)).
  rewrite payload_get; [|  |done].
  - unfold base_payload. apply set_fields_in; [|done]. rewrite claim_fields_keys.
    apply (bool_decide_unpack _). by vm_compute.
  - rewrite claim_fields_keys in Hk. clear Hin He. intros Ha.
    assert (Forall (λ k, k ∉ attached_keys)
      ["jobId"; "workspaceId"; "agentId"; "action"; "mode"; "claimId"; "attemptId"; "leaseExpiresAt"; "attemptCount"])
      as HF by (apply (bool_decide_unpack _); by vm_compute).
    rewrite Forall_forall in HF. by eapply HF.
Qed.
Lemma payload_wf c j pc trust enrollment :
  wf (j_payload j) → match pc with Some pc => wf (pc_fingerprint pc) | None => True end →
  wf trust.1 → wf trust.2 → Forall (λ kv, wf kv.2) enrollment →
  wf (Obj (dispatch_payload c j pc trust enrollment)).
Proof.
  intros Hp Hpc Ht1 Ht2 He. unfold dispatch_payload. cbv zeta. apply set_fields_wf; [done|].
  apply set_unless_wf; [done|].
  assert (wf (Obj [])) as Hnil by (split; [constructor|done]).
  assert (wf (Obj (base_payload c j))) as Hb.
  { apply set_fields_wf; [|by destruct (j_payload j)]. unfold claim_fields. cbv zeta.
    assert (wf (js_or (get "mode" (j_payload j)) (Str "real"))) as Hm.
    { unfold js_or. destruct (j_payload j) as [| | | | | |fs]; try done.
      destruct (truthy _); [by apply get_wf|done]. }
    assert (wf (iso_js (lease_expires_at (j_claim j)))) by (by destruct (lease_expires_at (j_claim j))).
    repeat constructor; cbn; try done. by destruct (r_mode (j_row j)). }
  apply set_defined_wf; [done|]. apply set_unless_wf; [done|].
  assert (wf (Obj (match pc with Some pc => attach_certificate pc (base_payload c j) | None => base_payload c j end)))
    as Ha by (destruct pc; [by apply attach_wf|done]).
  destruct (is_member _ _); [|done]. destruct (r_subjectId (j_row j)) as [[|]|]; try done. by apply set_unless_wf.
Qed.

(** Polling only adds nonces to the signing tables. *)
Definition grows (d d' : db) : Prop :=
  keys (signing d') = keys (signing d) ∧ nonces (signing d) `prefix_of` nonces (signing d').
#[local] Instance grows_loose : Loose grows.
Proof.
  split; [|done..]. split; [by intros d|]. intros d1 d2 d3 [H1 H2] [H3 H4]. split; [congruence|by etrans].
Qed.
Lemma sign_grows k e c rnd v fs : preserves grows (sign k e c rnd v fs).
Proof. intros d d' x (jobId & nonce & _ & _ & ->)%sign_ok. split; [done|]. by eexists. Qed.
Lemma rows_grow k e c a v fresh rows : preserves grows (claim_rows k e c a v fresh rows).
Proof. apply rows_preserves; [apply _|apply sign_grows]. Qed.
Lemma admit_grows k e c a j : preserves grows (admit_candidate k e c a j).
Proof. apply admit_preserves. apply _. Qed.
Lemma dispatch_grows k e c cid rnd v j needs : preserves grows (dispatch_candidate k e c cid rnd v j needs).
Proof. apply dispatch_preserves; [apply _|apply sign_grows]. Qed.

(** Each answer of the loop comes from a row that was admitted and dispatched. *)
Definition dispatched_in k e c a v fresh (rows : list job) (d : db) (x : dispatched) (d' : db) : Prop :=
  ∃ j d0 d1 d2 needs, j ∈ rows ∧ jobs d1 !! j_id j = Some j ∧ grows d d0 ∧
    admit_candidate k e c a j d0 = Ok (d1, Some needs) ∧
    dispatch_candidate k e c (fresh (j_id j)).1 (fresh (j_id j)).2 v j needs d1 = Ok (d2, x) ∧ grows d2 d'.
Lemma dispatched_later k e c a v fresh j rows d d1 x d' : grows d d1 →
  dispatched_in k e c a v fresh rows d1 x d' → dispatched_in k e c a v fresh (j :: rows) d x d'.
Proof.
  intros G (i & e0 & e1 & e2 & n & Hi & H1 & H2 & H3). exists i, e0, e1, e2, n.
  split; [by right|]. split; [done|]. split; [by etrans|done].
Qed.
Lemma claim_rows_each k e c a v fresh rows d d' xs :
  pending_rows (db_now k) (c_id c) rows (jobs d) → claim_rows k e c a v fresh rows d = Ok (d', xs) →
  grows d d' ∧ ∀ x, x ∈ xs → dispatched_in k e c a v fresh rows d x d'.
Proof.
  apply (claim_rows_ind k e c a v fresh (λ rows d xs d',
    grows d d' ∧ ∀ x, x ∈ xs → dispatched_in k e c a v fresh rows d x d')); clear rows d d' xs.
  - intros d. split; [reflexivity|]. by intros x ?%elem_of_nil.
  - intros j rows d d1 xs d' _ _ _ Ha%admit_grows _ [IH1 IH2]. split; [by etrans|].
    intros x Hx. by eapply dispatched_later, IH2.
  - intros j rows d d1 d2 needs x xs d' Hj _ _ Ha Ej Hd _ _ [IH1 IH2].
    pose proof (admit_grows _ _ _ _ _ _ _ _ Ha) as G1. pose proof (dispatch_grows _ _ _ _ _ _ _ _ _ _ _ Hd) as G2.
    split; [by do 2 (etrans; [done|])|]. intros y [->|Hy]%elem_of_cons.
    + exists j, d, d1, d2, needs. split; [by left|]. split; [by rewrite Ej|]. by split.
    + eapply dispatched_later, IH2; [by etrans|done].
Qed.

(** The payload that was signed for an answer. *)
Definition signed_payload (c : caller) (x : dispatched) (fs : list (string * jsval)) : Prop :=
  (∀ key v, (key, v) ∈ claim_fields c (dd_job x) → assoc_get key fs = Some v) ∧
  (wf (j_payload (dd_job x)) → hasOwn "envelopeVersion" (j_payload (dd_job x)) = false →
   wf (Obj fs) ∧ assoc_get "envelopeVersion" fs = None).
Lemma dispatch_signs k e c cid rnd v j needs d d' x :
  match needs.1 with Some pc => wf (pc_fingerprint pc) | None => True end → wf needs.2.1 → wf needs.2.2 →
  dispatch_candidate k e c cid rnd v j needs d = Ok (d', x) →
  ∃ fs d1 d2, signed_payload c x fs ∧ sign k e c rnd v fs d1 = Ok (d2, dd_signed x) ∧
    signing d1 = signing d ∧ signing d' = signing d2.
Proof.
  intros Hpc Ht1 Ht2 H. unfold dispatch_candidate in H. tx_step H d1 updated Eu.
  apply update_job_ok in Eu as (_ & _ & _ & _ & _ & Es & _). tx_step H d2 enrollment Ee.
  assert (signing d2 = signing d1 ∧ Forall (λ kv, wf kv.2) enrollment ∧
    ∀ key, key ∈ "envelopeVersion" :: (claim_fields c updated).*1 → key ∉ enrollment.*1) as (Es2 & Hwe & Hke).
  { destruct (truthy _); [|injection Ee as <- <-; split; [done|split; [constructor|]]; cbn; set_solver].
    tx_step Ee d3 attached Ea. unfold service in Ea.
    destruct (attachEnrollment _ _) as [[w att]|] eqn:Eatt; [|done]. injection Ea as <- <-.
    destruct att as [fs|]; [|done]. injection Ee as <- <-. by apply json_enrollment in Eatt. }
  tx_step H d3 signed E3. tx_step H d4 u4 E4. injection H as <- <-.
  exists (dispatch_payload c updated needs.1 needs.2 enrollment), d2, d3. cbn [dd_job dd_signed].
  split; [|split; [exact E3|split; [congruence|by injection E4 as <- _]]]. split.
  - intros key val Hin. apply payload_field; [done|]. apply Hke. right. apply list_elem_of_fmap. by exists (key, val).
  - cbn [dd_job]. intros Hwp Hev. split; [by apply payload_wf|]. rewrite payload_get; [|apply (bool_decide_unpack _); by vm_compute|].
    + unfold base_payload. rewrite set_fields_get by (rewrite claim_fields_keys; apply (bool_decide_unpack _); by vm_compute).
      destruct (j_payload updated) as [| | | | | |fs]; try done. unfold hasOwn in Hev.
      apply bool_decide_eq_false in Hev. by apply eq_None_not_Some.
    + apply Hke. by left.
Qed.

Lemma revalidate_json k j d d' pem gen : revalidate_trust k j d = Ok (d', Some (pem, gen)) → wf pem ∧ wf gen.
Proof.
  unfold revalidate_trust. destruct (isTrustAnchorOperation _); [|by intros [= _ <- <-]].
  destruct (revalidateTrustJob _ _) as [w [[p g]|reason]] eqn:E.
  - intros [= _ <- <-]. by eapply json_trust.
  - case_bool_decide as Hs; [|done]. intros H. by tx_step H d1 x Ex.
Qed.
Lemma certificate_json w j pc : resolveDeployPublicCertificate w j = Ok pc → wf (pc_fingerprint pc).
Proof.
  unfold resolveDeployPublicCertificate. cbv zeta. destruct (negb (truthy _)); [done|].
  destruct (managedCertificate _ _ _) as [row|] eqn:E; [|done].
  destruct (negb (startsWith _ _)); [done|]. destruct (hasPrivateKeyMaterial _); [done|]. intros [= <-].
  cbn. unfold js_or. destruct (truthy _); [by eapply json_certificate|done].
Qed.
Lemma admit_json k e c a j d d' needs : admit_candidate k e c a j d = Ok (d', Some needs) →
  match needs.1 with Some pc => wf (pc_fingerprint pc) | None => True end ∧ wf needs.2.1 ∧ wf needs.2.2.
Proof.
  unfold admit_candidate. cbv zeta.
  do 3 (match goal with |- (if ?b then _ else _) = _ → _ => destruct b; [done|] end).
  destruct (if is_material j then _ else _) as [[]|code]; [|by case_match].
  intros H. tx_step H d1 trust Et. destruct trust as [[pem gen]|]; [|done]. apply revalidate_json in Et as [Hp Hg].
  destruct (approval_void j) as [[hash|]|]; [by tx_step H d2 u2 E2| |done].
  case_bool_decide; [|by injection H as _ <-].
  destruct (resolveDeployPublicCertificate (others d1) j) as [pc|err] eqn:Ep.
  - injection H as _ <-. by apply certificate_json in Ep.
  - destruct err; try done. by tx_step H d2 u2 E2.
Qed.

(** What was signed for an answer of the poll, and where. *)
Lemma polled_signed k e busy fresh c envelope body d d' xs : ids_ok (jobs d) →
  claimJobs k e busy fresh c envelope body d = Ok (d', xs) → ∀ x, x ∈ xs →
  ∃ j fs v d1 d2, jobs d !! j_id j = Some j ∧
    updates (claimed_row k e (c_id c) (fresh (j_id j)).1) j (dd_job x) ∧ signed_payload c x fs ∧
    keys (signing d1) = keys (signing d) ∧ sign k e c (fresh (j_id j)).2 v fs d1 = Ok (d2, dd_signed x) ∧
    nonces (signing d2) `prefix_of` nonces (signing d').
Proof.
  intros Hids H x Hx. apply poll_rows in H as [[-> _]|(o & v & d3 & Ej & Es & _ & H)]; [by apply elem_of_nil in Hx|].
  assert (Hp : pending_rows (db_now k) (c_id c) (select_candidates busy (db_now k) c o (claim_maxJobs body) d3) (jobs d3))
    by (apply candidates_pending; by rewrite Ej).
  destruct (claim_rows_each _ _ _ _ _ _ _ _ _ _ Hp H) as [_ Heach]. destruct (Heach x Hx) as (j & e0 & e1 & e2 & needs & Hj & Hj1 & G1 & Ha & Hd & G2).
  pose proof (admit_grows _ _ _ _ _ _ _ _ Ha) as G3. apply admit_json in Ha as (J1 & J2 & J3).
  pose proof (dispatch_ok _ _ _ _ _ _ _ _ _ _ _ Hj1 Hd) as [_ Hup].
  apply dispatch_signs in Hd as (fs & f1 & f2 & Hfs & Hsign & E1 & E2); [|done..].
  exists j, fs, v, f1, f2. apply candidates_of in Hj as (_ & Hj & _); [|by rewrite Ej]. rewrite Ej in Hj.
  split; [done|]. split; [done|]. split; [done|]. split; [|split; [done|]].
  - rewrite E1. destruct G1 as [G1 _], G3 as [G3 _]. congruence.
  - rewrite <- E2. apply G2.
Qed.
End delivery.

Lemma claimed_keeps {ot : Others} k e a cid j j' : updates (claimed_row k e a cid) j j' →
  j_payload j' = j_payload j ∧ j_id j' = j_id j ∧
  lease_expires_at (j_claim j') = Some (db_now k + jobLeaseSeconds e * 1000).
Proof. by intros [->|[reason ->]]. Qed.


#[global] Instance quiet_json : JsonServices.
Proof.
  split; [done| |].
  - intros w j w' pem gen. cbn. by intros [= _ <- <-].
  - intros w j w' fs. cbn. intros [= _ <-]. split; [constructor|]. intros key _. apply not_elem_of_nil.
Qed.

(** * The window of a result *)

(** An unspent nonce of the job, issued to the agent. *)
Record live_nonce (c : caller) (jobId : string) (r : nonce_row) : Prop := {
  ln_pattern : SERVER_NONCE_PATTERN (n_nonce r) = true;
  ln_job : n_job r = jobId;
  ln_workspace : n_workspace r = c_workspaceId c;
  ln_agent : issued_to r = Some (c_id c);
  ln_unspent : consumed_at r = None }.
(** The holder can report until the lease has expired and its hard grace has
    passed: the ledger has a nonce for it that lasts as long. *)
Definition covered {ot : Others} (e : environment) (c : caller) (j : job) (d : db) : Prop :=
  ∃ r L, r ∈ nonces (signing d) ∧ live_nonce c (j_id j) r ∧
    lease_expires_at (j_claim j) = Some L ∧ L + leaseHardGraceMs e <= expires_at r.

Lemma nonce_outlives e t t' : t - t' <= NONCE_TTL_GRACE_SECONDS * 1000 →
  t + jobLeaseSeconds e * 1000 + leaseHardGraceMs e <= t' + dispatchNonceTtlSeconds e * 1000.
Proof. unfold dispatchNonceTtlSeconds. pose proof (leaseHardGraceSeconds_covers e). lia. Qed.

Section window.
Context {sv : Services} {ot : Others} {cr : Crypto} {js : JsonServices}.

Lemma polled_covered k e busy fresh c envelope body d d' xs : ids_ok (jobs d) →
  (∀ id, Forall (λ b, slen b = 24) (fresh id).2) → db_now k - app_now k <= NONCE_TTL_GRACE_SECONDS * 1000 →
  claimJobs k e busy fresh c envelope body d = Ok (d', xs) → ∀ x, x ∈ xs → covered e c (dd_job x) d'.
Proof.
  intros Hids Hrnd Hclock H x Hx.
  destruct (polled_signed _ _ _ _ _ _ _ _ _ _ Hids H x Hx) as (j & fs & v & d1 & d2 & Hj & Hup & [Hf _] & _ & Hs & Hpre).
  apply sign_ok in Hs as (jobId & nonce & Hid & Hn & ->). destruct (claimed_keeps _ _ _ _ _ _ Hup) as (_ & _ & Hl).
  rewrite (Hf "jobId" (Str (j_id (dd_job x)))) in Hid by (by left). injection Hid as <-.
  apply generateNonce_draw in Hn as (_ & b & Hb & ->). specialize (Hrnd (j_id j)). rewrite Forall_forall in Hrnd.
  destruct (base64url_nonce b (Hrnd _ Hb)) as [Hpat _]. destruct Hpre as [l Hl'].
  eexists _, _. split; [rewrite Hl'; cbn; rewrite !elem_of_app; left; right; by apply list_elem_of_singleton|].
  split; [by split|]. split; [exact Hl|]. cbn. by apply nonce_outlives.
Qed.
Lemma update_signing id f d d' j : update_job id f d = Ok (d', j) → signing d' = signing d.
Proof. by intros (? & _ & _ & _ & _ & ? & _)%update_job_ok. Qed.
(** Extending moves the expiry of the job's unspent nonces. *)
Lemma extended_live c jobId now ttl s r : jobId ≠ EmptyString → 0 < ttl → r ∈ nonces s → live_nonce c jobId r →
  (extendJobNonceExpiry now jobId (c_workspaceId c) (Some (c_id c)) (Fin ttl) s).2 = Some (now + ttl * 1000) ∧
  ∃ r', r' ∈ nonces (extendJobNonceExpiry now jobId (c_workspaceId c) (Some (c_id c)) (Fin ttl) s).1 ∧
    live_nonce c jobId r' ∧ expires_at r' = now + ttl * 1000.
Proof.
  intros Hid Httl Hr [L1 L2 L3 L4 L5]. unfold extendJobNonceExpiry.
  rewrite (bool_decide_eq_false_2 _ Hid), (proj2 (Z.ltb_lt _ _) Httl). cbn [negb orb]. cbv zeta.
  set (hit := λ r : nonce_row, _ && matches_issued _ _).
  assert (hit r = true) as Hhit.
  { unfold hit, is_unconsumed. rewrite L2, L3, L4, L5. cbn. by rewrite !bool_decide_eq_true_2. }
  cbn [fst snd nonces set_nonces]. split.
  - assert (existsb hit (nonces s) = true) as -> by (apply existsb_exists; exists r; split; [by apply list_elem_of_In|done]).
    done.
  - exists (mkNonceRow (n_nonce r) (n_job r) (n_workspace r) (issued_to r) (now + ttl * 1000) (consumed_at r)).
    split; [|by split]. apply list_elem_of_fmap. exists r. unfold hit in Hhit. cbv beta in *. by rewrite Hhit.
Qed.
Lemma toLowerCase_empty s : toLowerCase s = EmptyString → s = EmptyString.
Proof. by destruct s. Qed.
Lemma renewed_covered k e c jobId claimId envelope d d' reply r : ids_ok (jobs d) →
  renewJobLease k e c jobId claimId envelope d = Ok (d', reply) →
  r ∈ nonces (signing d) → live_nonce c (lr_jobId reply) r →
  ∃ j, jobs d' !! lr_jobId reply = Some j ∧ covered e c j d' ∧
    lr_nonceExpiresAt reply = Some (db_now k + dispatchNonceTtlSeconds e * 1000).
Proof.
  intros Hids H Hr Hlive. unfold renewJobLease in H. destruct (nonempty_text jobId) as [id|] eqn:Hne0; [|done].
  destruct (nonempty_text claimId) as [cid|]; [|done].
  tx_step H d1 u1 E1. pose proof (sequence_signing _ _ _ _ _ E1) as S1. apply quiet_sequence in E1.
  tx_step H d2 j Ej. apply select_job_ok in Ej as (-> & Hj & _). tx_check H Hk. tx_check H Hown. tx_check H Hst.
  tx_step H d3 u3 E3.
  assert (signing d3 = signing d1 ∧ jobs d3 = jobs d1) as [S3 J3].
  { destruct (is_material j); [|by injection E3 as <-]. tx_check E3 Hl. split; [by apply service_frame in E3 as [_ ?]|].
    by apply quiet_service in E3. }
  tx_step H d4 updated Eu. pose proof (update_signing _ _ _ _ _ Eu) as S4.
  apply update_job_ok in Eu as (j0 & Hj0 & Hup & Hjobs & _).
  rewrite J3, E1 in Hj0. rewrite E1 in Hj. pose proof (Hids _ _ Hj) as Hid. rewrite Hid, Hj in Hj0. injection Hj0 as <-.
  tx_step H d5 n En. injection H as <- <-. cbn [lr_jobId lr_nonceExpiresAt] in *.
  pose proof (updates_id _ _ _ Hup eq_refl) as Huid. rewrite Huid in *.
  unfold extend_nonce in En. rewrite S4, S3, S1 in En.
  assert (j_id j ≠ EmptyString) as Hne.
  { rewrite Hid. intros ->%toLowerCase_empty. by destruct jobId as [| | | |[]| |]. }
  destruct (extended_live c (j_id j) (db_now k) (dispatchNonceTtlSeconds e) (signing d) r Hne
    (dispatchNonceTtl_pos e) Hr Hlive) as [Ht (r' & Hr' & Hlive' & Hexp)].
  destruct (extendJobNonceExpiry _ _ _ _ _ _) as [s t]. cbn [fst snd] in *. injection En as <- <-.
  exists updated. cbn [jobs signing set_signing]. rewrite Hjobs, lookup_insert_eq. split; [done|]. split; [|done].
  exists r', (db_now k + jobLeaseSeconds e * 1000). rewrite Huid. split; [done|]. split; [done|]. split.
  - by destruct Hup as [->|[reason ->]].
  - rewrite Hexp. apply nonce_outlives. unfold NONCE_TTL_GRACE_SECONDS. lia.
Qed.
(** A nonce that has not expired is consumed. *)
Lemma live_consumed k c jobId d r : r ∈ nonces (signing d) → live_nonce c jobId r → db_now k < expires_at r →
  ∃ d', consume k c jobId (Str (n_nonce r)) d = Ok (d', Consumed).
Proof.
  intros Hr [L1 L2 L3 L4 L5] Ht. unfold consume, consumeNonce. rewrite L1. cbn [negb].
  set (hit := consumable _ _ _ _ _).
  assert (existsb hit (nonces (signing d)) = true) as ->; [|by eexists].
  apply existsb_exists. exists r. split; [by apply list_elem_of_In|]. unfold hit, consumable, bound_row, is_unconsumed.
  rewrite L2, L3, L4, L5. cbn. rewrite !bool_decide_eq_true_2 by done. cbn. lia.
Qed.
End window.

(** * Nonces stay in the ledger *)

(** The same nonce, for the same job and agent; spent perhaps, or extended. *)
Definition same_nonce (r r' : nonce_row) : Prop :=
  n_nonce r' = n_nonce r ∧ n_job r' = n_job r ∧ n_workspace r' = n_workspace r ∧ issued_to r' = issued_to r.
Section persistence.
Context {sv : Services} {ot : Others} {cr : Crypto}.

Definition persists (d d' : db) : Prop :=
  ∀ r, r ∈ nonces (signing d) → ∃ r', r' ∈ nonces (signing d') ∧ same_nonce r r'.
Lemma persists_same d d' : nonces (signing d') = nonces (signing d) → persists d d'.
Proof. intros E r Hr. exists r. by rewrite E. Qed.
Lemma persists_map f d d' : (∀ r, same_nonce r (f r)) → nonces (signing d') = map f (nonces (signing d)) → persists d d'.
Proof. intros Hf E r Hr. exists (f r). rewrite E. split; [by apply list_elem_of_fmap_2|done]. Qed.
#[local] Instance persists_loose : Loose persists.
Proof.
  split; [split; [intros d; by apply persists_same|]|by intros; apply persists_same..].
  intros d1 d2 d3 H1 H2 r (r1 & Hr1 & E1 & E2 & E3 & E4)%H1. apply H2 in Hr1 as (r2 & Hr2 & F1 & F2 & F3 & F4).
  exists r2. split; [done|]. split_and!; congruence.
Qed.
Lemma sequence_persists id envelope : preserves persists (enforceAgentSequence id envelope).
Proof. intros d d' u H%sequence_signing. apply persists_same. by rewrite H. Qed.
Lemma event_persists ev : preserves persists (record_event ev).
Proof. intros d d' u. unfold record_event. case_match; [|done]. intros [= <- _]. by apply persists_same. Qed.
Lemma alert_persists j s code o : preserves persists (alert j s code o).
Proof. unfold alert. cbv zeta. apply preserves_if; [apply event_persists|apply preserves_ret, _]. Qed.
Lemma consume_persists k c id n : preserves persists (consume k c id n).
Proof.
  intros d d' o. unfold consume. destruct (consumeNonce _ _ _ _ _ _) as [s x] eqn:E. intros [= <- _].
  unfold consumeNonce in E. destruct n as [| | | |n| |]; try (injection E as <- _; by apply persists_same).
  destruct (negb _); [injection E as <- _; by apply persists_same|]. destruct (existsb _ _); cycle 1.
  { destruct (List.find _ _); injection E as <- _; by apply persists_same. }
  injection E as <- _. eapply persists_map; [|done]. intros r. cbv beta. by destruct (consumable _ _ _ _ _ r).
Qed.
Lemma extend_persists k e c id : preserves persists (extend_nonce k e c id).
Proof.
  intros d d' o. unfold extend_nonce. destruct (extendJobNonceExpiry _ _ _ _ _ _) as [s x] eqn:E. intros [= <- _].
  unfold extendJobNonceExpiry in E. destruct (_ || _); [injection E as <- _; by apply persists_same|].
  injection E as <- _. eapply persists_map; [|done]. intros r. cbv beta. by destruct (_ && _).
Qed.
Lemma sign_persists k e c rnd v fs : preserves persists (sign k e c rnd v fs).
Proof.
  intros d d' x (jobId & nonce & _ & _ & ->)%sign_ok r Hr. exists r. split; [|done]. cbn. rewrite elem_of_app. by left.
Qed.
Lemma touch_persists now id actions dns : preserves persists (touch_agent now id actions dns).
Proof. intros d d' u [= <- _]. by apply persists_same. Qed.
Hint Resolve sequence_persists event_persists alert_persists consume_persists extend_persists sign_persists
  touch_persists : preserves.
Lemma step_persists e d d' : protocol_step e d d' → persists d d'.
Proof.
  apply step_keeps; [apply _| |intros; apply reap_preserves; auto with preserves
    |intros; apply fence_preserves; auto with preserves|auto with preserves].
  intros k c envelope r. destruct r as [busy fresh body|jobId claimId|body]; cbn [handle];
    (apply preserves_bind; [apply _| |intros; apply preserves_ret, _]).
  - apply claim_preserves; auto with preserves.
  - apply renew_preserves; auto with preserves.
  - apply ingest_preserves; auto with preserves.
Qed.
Lemma steps_persist e d d' : rtc (protocol_step e) d d' → persists d d'.
Proof. induction 1 as [d|d1 d2 d3 H _ IH]; [reflexivity|]. etrans; [by eapply step_persists|done]. Qed.
End persistence.

(** C14: the holder of a job can report.  When a poll gives out a job, with the
    clock of the database at most the nonce grace of 300 s ahead of the
    server's, the ledger holds an unspent nonce for this job and agent that
    outlives the lease and the hard grace after which the reaper ends the job.
    No transaction of the protocol removes a nonce from the ledger or binds it
    to another job or agent.  A renewal of a job whose nonce is unspent gives it
    such a nonce for the new lease.  And until the lease and the hard grace
    have passed, the nonce is accepted: a result with it is not refused as
    replayed, unknown or expired. *)
Theorem holder_can_report {sv : Services} {ot : Others} {cr : Crypto} {js : JsonServices} (k : clock)
    (e : environment) (c : caller) (d : db) :
  ids_ok (jobs d) →
  (∀ busy fresh envelope body d' xs, (∀ id, Forall (λ b, slen b = 24) (fresh id).2) →
     db_now k - app_now k <= NONCE_TTL_GRACE_SECONDS * 1000 →
     claimJobs k e busy fresh c envelope body d = Ok (d', xs) → ∀ x, x ∈ xs → covered e c (dd_job x) d') ∧
  (∀ d' r, rtc (protocol_step e) d d' → r ∈ nonces (signing d) →
     ∃ r', r' ∈ nonces (signing d') ∧ same_nonce r r') ∧
  (∀ jobId claimId envelope d' reply r, renewJobLease k e c jobId claimId envelope d = Ok (d', reply) →
     r ∈ nonces (signing d) → live_nonce c (lr_jobId reply) r →
     ∃ j, jobs d' !! lr_jobId reply = Some j ∧ covered e c j d') ∧
  (∀ j L, covered e c j d → lease_expires_at (j_claim j) = Some L → db_now k < L + leaseHardGraceMs e →
     ∃ nonce d1, consume k c (j_id j) (Str nonce) d = Ok (d1, Consumed)).
Proof.
  intros Hids. split_and!.
  - intros. by eapply polled_covered.
  - intros d' r H Hr. by apply (steps_persist _ _ _ H).
  - intros jobId claimId envelope d' reply r H Hr Hl.
    destruct (renewed_covered _ _ _ _ _ _ _ _ _ _ Hids H Hr Hl) as (j & Hj & Hc & _). eauto.
  - intros j L (r & L' & Hr & Hl & HL & Hle) HL' Ht. rewrite HL in HL'. injection HL' as ->.
    exists (n_nonce r). eapply live_consumed; [done..|lia].
Qed.
(** The poll, the renewal under the nonce of the poll, and the report under the
    nonce of the renewal. *)
Lemma holder_can_report_witness :
  ∃ x j nonce d1, ex_claimed.2 = Ok [x] ∧ covered ex_env ex_caller (dd_job x) ex_claimed.1 ∧
    jobs ex_renewed.1 !! "j1" = Some j ∧ covered ex_env ex_caller j ex_renewed.1 ∧
    consume (ex_clock 300) ex_caller (j_id j) (Str nonce) ex_renewed.1 = Ok (d1, Consumed).
Proof.
  destruct ex_claimed as [d' [[|x [|]]|]] eqn:E; try by vm_compute in E. pose proof E as E1.
  apply withTransaction_ok in E. exists x. assert (d' = ex_claimed.1) as Ed by (by rewrite E1).
  destruct (@holder_can_report demo_services quiet_others toy_crypto quiet_json (ex_clock 10) ex_env ex_caller
    ex_db) as (Hpoll & _).
  { intros id j. cbn. by intros [<- <-]%lookup_singleton_Some. }
  specialize (Hpoll (λ _, false) ex_fresh (ex_message 1) ex_poll d' [x]).
  assert (covered ex_env ex_caller (dd_job x) d') as Hx.
  { apply Hpoll; [intros id; repeat constructor| |exact E|by left]. cbn. unfold NONCE_TTL_GRACE_SECONDS. lia. }
  destruct ex_renewed as [d2 [reply|]] eqn:R; [|by vm_compute in R]. pose proof R as R1.
  apply withTransaction_ok in R. assert (d2 = ex_renewed.1) as Ed2 by (by rewrite R1).
  pose proof Hx as (r & L & Hr & Hl & HL & Hle).
  destruct (@holder_can_report demo_services quiet_others toy_crypto quiet_json (ex_clock 60) ex_env ex_caller
    ex_claimed.1) as (_ & _ & Hrenew & _).
  { change (map_Forall (λ id j, j_id j = id) (jobs ex_claimed.1)). apply (bool_decide_unpack _). by vm_compute. }
  assert (j_id (dd_job x) = "j1" ∧ lr_jobId reply = "j1") as [Ex Er].
  { split; [vm_compute in E1; by injection E1 as _ <-|vm_compute in R1; by injection R1 as _ <-]. }
  destruct (Hrenew _ _ _ _ _ r R) as (j & Hj & Hc); [by rewrite <- Ed|by rewrite Er, <- Ex|].
  rewrite Er in Hj. pose proof Hc as (r2 & L2 & _ & _ & HL2 & _).
  destruct (@holder_can_report demo_services quiet_others toy_crypto quiet_json (ex_clock 300) ex_env ex_caller
    d2) as (_ & _ & _ & Hreport).
  { rewrite Ed2. change (map_Forall (λ id j, j_id j = id) (jobs ex_renewed.1)). apply (bool_decide_unpack _). by vm_compute. }
  destruct (Hreport j L2 Hc HL2) as (nonce & d3 & Hcons).
  { assert (j = default j (jobs ex_renewed.1 !! "j1")) as Ej by (by rewrite <- Ed2, Hj).
    assert (lease_expires_at (j_claim (default j (jobs ex_renewed.1 !! "j1"))) = Some (at_s 960)) as H960
      by (vm_compute; reflexivity).
    rewrite <- Ej, HL2 in H960. injection H960 as ->. cbn. vm_compute. reflexivity. }
  exists j, nonce, d3. exact (conj eq_refl (conj Hx (conj Hj (conj Hc Hcons)))).
Defined.
